(* ===== verification/_CoqProject ===== *)
-Q . S2P
Prelude.v
JsString.v
JsNumber.v
Regex.v
JsValue.v
JsonFacts.v
JsFixed.v
Currency.v
CurrencyFacts.v
FloatError.v
CurrencyProps.v
HttpStatusRules.v
BillingRules.v
BillingRuleFacts.v
TierExpr.v
TierFacts.v
TierRoundtrip.v
TierForm.v
TierSplit.v
TierEditor.v
Prices.v
PriceProps.v
ModelFilters.v
ParamOverride.v
ParamOverrideEditor.v
ParamOverrideFacts.v
ParamOverrideRoundtrip.v
Mp4.v
XjzModels.v
VideoCapabilities.v
VideoOptions.v
VideoReferences.v
VideoRequest.v
ImageOptions.v
Messages.v
ResultParsers.v
ModelIntegration.v
MediaPolling.v
MediaRouting.v
MediaRoutingFacts.v
ChatStream.v
ChatSpec.v
PlaygroundStorage.v
CreationHistory.v
CreationHistoryFacts.v
CreationHistoryProps.v
CreationRequests.v
CreationRequestProps.v
SessionGuards.v
Notifications.v
NotificationFacts.v
NotificationProps.v
ChannelForm.v
ChannelFormFacts.v
ChannelMapping.v
ChannelMappingProps.v
