(* ===== verification/Prelude.v ===== *)
(** * The new-api web console: media generation and playground

    A verification library for the TypeScript console of new-api, under
    src/web/default/src.  The console is a client of the Go relay: it offers
    the models of the relay, checks and builds the requests of the user, and
    shows the answers.  The library covers the code that decides something:
    what a video or image model accepts, which request is sent for a
    selection, how a reference file is recognised, how a streamed reply
    becomes messages and how they are stored, the rules for HTTP status
    codes, prices, channels and request parameters that administrators write,
    how models are found and prices and amounts are shown, which notifications
    are, and what the creation centre remembers.

    ** The parts and where they are modelled

    Language.
    - [Prelude]: outcomes of code that can throw ([exc]), array methods, the
      tactics and the hint databases [js] and [jsrw].
    - [JsString]: strings as lists of UTF-16 code units with the methods the
      code uses (trim, split, indexOf, slice, toLowerCase, replacements by the
      fixed patterns of the source); lower and upper case beyond ASCII are the
      classes [CaseMap] and [UpperMap].
    - [JsNumber]: numbers as IEEE 754 doubles ([SpecFloat]), Number(text),
      parseInt, and the shortest decimal form of a number.
    - [Regex]: regular expressions as data, a backtracking matcher with
      captures and the language of an expression.
    - [JsValue]: JSON values, objects with the enumeration order of
      JavaScript, JSON.parse and JSON.stringify, plain and indented.
    - [JsFixed]: toFixed, parseFloat, Math.round and single replacements.
    - [FloatError]: multiplication and division of doubles err by at most 2^-53
      of the exact result, away from over- and underflow.
    - [JsonFacts]: JSON.parse inverts both printers on what JSON can carry;
      the enumeration order of objects and object spread.

    Media generation (features/media-generation, features/creation-center).
    - [XjzModels] models xjz-video-models.ts: the catalogue of 38 models, its
      aliases and the lookup.
    - [VideoCapabilities] models the first half of video-options.ts: the
      limits and capabilities of the models and how a model name or the
      metadata of the relay leads to one.
    - [VideoOptions]: the options offered for a model, the normalisation of a
      selection (normalizeCreationVideoOptions) and its check
      (getCreationVideoOptionsError).
    - [VideoReferences]: normalisation of references, mentions in the prompt
      and the validation getCreationVideoReferenceError.
    - [VideoRequest]: getCreationVideoRequestOptions, the body of the request
      for every kind of model.
    - [ImageOptions] models image-options.ts and image-transport.ts: the same
      for images.
    - [ResultParsers] models result-parsers.ts: status, identifiers, URL and
      error of an answer of the relay.
    - [Mp4] models creation-center/video-reference-files.ts: detection of the
      type of a file and the reader of MP4 boxes that finds the codec and the
      frame rate of a video.
    - [CreationHistory] models creation-center/session.ts and the handlers of
      the history in creation-center/index.tsx: what is cleaned, saved, loaded,
      added and updated.  [CreationHistoryFacts] shows what cleaning leaves and
      that JSON carries it, [CreationHistoryProps] holds the theorems.
    - [CreationRequests] models creation-center/api.ts, video-request.ts,
      model-order.ts, category-rows.ts and the results that submit and
      refreshMediaTask build; [CreationRequestProps] holds its theorems.

    Playground (features/playground).
    - [Messages] models lib/message-utils.ts, lib/payload-builder.ts and the
      types and constants they use.
    - [ModelIntegration] models lib/model-integration.ts and lib/responses.ts:
      the published endpoints of a model, its group, reference URLs, and the
      responses API.
    - [MediaPolling] models lib/media-task-polling.ts.
    - [MediaRouting] models lib/media-routing.ts: the mode and endpoint of a
      model, the media request (buildPlaygroundMediaRequest) and the parsing
      of its answer; [MediaRoutingFacts] holds its theorems.
    - [ChatStream] models hooks/use-chat-handler.ts, hooks/use-stream-request.ts
      and the message handlers of index.tsx as a state machine; [ChatSpec]
      specifies it with three phases and proves the refinement.
    - [PlaygroundStorage] models lib/storage.ts and
      hooks/use-playground-state.ts.

    Settings (lib, features/pricing, features/system-settings).
    - [HttpStatusRules] models lib/http-status-code-rules.ts.
    - [BillingRules] models the request rules of
      features/pricing/lib/billing-expr.ts: how the editor writes, splits and
      reads them; [BillingRuleFacts] holds its theorems.
    - [TierExpr] models features/pricing/lib/tier-expr.ts and the other half of
      billing-expr.ts: the registry of price variables, how tiers of prices
      are written as an expression, and the two parsers of such an expression,
      one for the editor and one for the display.  [TierFacts] runs their
      patterns, [TierRoundtrip] holds the theorems on both parsers and
      [TierSplit] those on tier expressions combined with request rules.
    - [TierForm] and [TierEditor] model the component in
      features/system-settings/models/tiered-pricing-editor.tsx: the form of
      tiers with its edits, and the state of the editor with its effects, its
      handlers and its presets.

    Amounts and prices (lib, stores, hooks, features/pricing,
    features/creation-center).
    - [Currency] models lib/currency.ts, the quota conversions and number texts
      of lib/format.ts, and the currency settings in
      stores/system-config-store.ts and hooks/use-system-config.ts;
      [CurrencyFacts] runs its patterns and [CurrencyProps] holds its theorems.
    - [Prices] models features/pricing/lib/price.ts, dynamic-price.ts and
      model-helpers.ts and features/creation-center/cost.ts; [PriceProps] holds
      its theorems.
    - [ModelFilters] models features/pricing/lib/filters.ts,
      hooks/use-filters.ts, hooks/use-pricing-data.ts and the options of
      components/pricing-sidebar.tsx: the list of models of the model square.

    Channels (features/channels).
    - [ChannelForm] models lib/channel-form.ts: the values of the form for a
      stored channel, the settings that are written, and what is sent.
      [ChannelFormFacts] holds the round trip.
    - [ChannelMapping] models lib/model-mapping-validation.ts,
      lib/model-mapping-state.ts, lib/status-code-risk-guard.ts,
      lib/upstream-update-utils.ts, components/model-mapping-editor.tsx and the
      checks of onSubmit in components/drawers/channel-mutate-drawer.tsx;
      [ChannelMappingProps] holds its theorems.
    - [ParamOverride] models the functions of
      components/dialogs/param-override-editor-dialog.tsx: the operations that
      change a request before it is relayed, how they are read, checked and
      written, and the drafts of two of them.
    - [ParamOverrideEditor] models the component of that file: its state, its
      templates and its handlers, with every event of the form.
      [ParamOverrideFacts] holds the invariant of the editor and
      [ParamOverrideRoundtrip] the theorems on saved texts.

    Notifications (lib, stores, hooks).
    - [Notifications] models lib/notifications.ts (keys, what is published,
      recent and unread), stores/notification-store.ts (the read states, their
      merge and the storage that tabs share) and the handlers of
      hooks/use-notifications.ts.  [NotificationFacts] holds the merge and the
      steps of several tabs, [NotificationProps] what is shown.

    The shell of the page (lib, routes).
    - [SessionGuards] models lib/chunk-load-recovery.ts with the timer of
      routes/__root.tsx, and lib/credit-purchase.ts.

    The options, references and requests of a video share the capability that
    [VideoCapabilities] finds for a model; the playground machine works on the
    messages of [Messages], gets its endpoint from [MediaRouting]
    ([playground_settings] in [ChatSpec]) and media results from
    [MediaPolling], and is saved by [PlaygroundStorage].  [Prices] reads the
    expressions that [TierEditor] and [BillingRules] write and shows amounts
    with the settings of [Currency]; [ModelFilters] sorts by the prices of
    [Prices].  The creation centre sends the options that [VideoRequest] and
    [ImageOptions] build, reads answers with [ResultParsers] and keeps them in
    [CreationHistory].  [ChannelMapping] checks the form of [ChannelForm].

    ** What the theorems show

    - Status codes: mergeRanges is the union of its input in ordered,
      separated ranges; the normalised text of a rule parses to the same
      rule; exactly the invalid segments are reported.
    - MP4: for any bytes the reader ends without an exception; the children
      of a box tile its content; boxes with sizes of 32 or 64 bits or to the
      end are read back; for a file made of such boxes the codec and the average
      frame rate of the first complete video track with a usable rate are found,
      or nothing when there is none or the moov box is larger than 32 MiB.
    - Video models: for every model that the tables name, a normalised
      selection is offered by the model and passes the duration check;
      normalising references is idempotent; accepted references respect the
      limits of the model and every one of them occurs in the request, but for
      the frames of a specification model in multimodal mode (and for a name of
      Seedance 2.5 with another capability); a mention is found exactly when it
      ends at a boundary.
    - Replies: the parser of think sections inverts their writing on every
      text; the visible text does not depend on how a reply is cut into
      chunks; a streamed reply ends as one complete message.
    - The playground machine: in calm runs (no edited message submitted
      during a generation, no response without choices) at most one source or
      request is in flight, only the last message can be unfinished and none
      is when nothing generates; closing the page at any point leaves
      messages that the next load settles; settings survive a reload.
    - The specification: every calm run is a run of the three phases of
      [ChatSpec]; in every state that generates, an event that ends the
      generation is enabled and leaves settled messages.
    - Media requests: a request carries the selected model and prompt and
      goes to an endpoint of its mode; for a model with a published contract
      all references are sent within its counts, and the count and the chosen
      options of an image are within its limits (options of the extra parameters
      are not checked); a shown video has an HTTP URL or the path of the
      relay's content endpoint.
    - Image options: a normalised selection is offered by the model.
    - Billing rules: what the editor writes for complete rules is read back as
      the same rules when none compares a parameter, and is not recognised
      otherwise; a base expression combined with rules is split into the same
      parts.
    - Tier expressions: the tiers that the editor writes are read back, up to
      what is not written (conditions of the last of several tiers, conditions
      without a value, empty labels), and the display shows the same tiers.
    - The editor of tiers: whatever is edited, the form keeps its shape;
      tiers and rules that read back are shown and kept when the editor opens
      on them, reach the surrounding form when they are edited, and survive
      the switch to the text of the expression and back.
    - Polling: it ends after at most 360 questions with the delays the code
      means, and returns the last reported state.
    - The editor of parameter overrides: after any events its state is well
      typed (known modes, distinct identifiers, an existing selection); what it
      saves has all that the modes require; a saved document opens with its
      operations, their values as the editor shows them, and is saved as the
      same text when no value is a quoted string.
    - Amounts: the settings are usable whatever the store holds; a shortened
      number is the decimal nearest to the exact value, without zeros at its
      end; a quota that is opened for editing and saved without a change stays
      the same, although four conversions round; an amount that is not zero is
      not shown as less than the smallest one.
    - Prices: the model square shows the tiers, rules and prices that the
      editor saved, when no rule compares a parameter; the price on a card is
      that of the cheapest group, unless the ratio of that group is zero; every
      usable price by resolution is shown once; the cost of a video model lists
      the well-known resolutions.
    - Notifications: what opens by itself is exactly what is recent and unread;
      merging read states is a join, so no tab loses an acknowledgement,
      whatever the order of writes; what was closed is not shown again; the
      dialog acknowledges only what it displayed, and closing it ends it.  The
      hash of the keys is a polynomial modulo 2^32.
    - The model square: the list is exactly the models that match every
      filter, in the order that was chosen; the counts of the sidebar are the
      lengths of the lists they lead to.
    - The creation centre: the history has the newest items, at most twenty,
      and survives a reload; what is stored refers to media by web addresses
      only; a video address that is read from an answer is a web address; the
      items of every submission can be stored; moving a model moves no other.
    - Channels: a channel that is created or updated opens with the values it
      was saved with, except that an update does not clear the other text;
      unknown settings are kept and those of other types removed; a channel is
      sent only with valid status codes (when their text is a JSON object),
      confirmed redirects and a readable mapping, and with the models its
      mapping names, unless the user submits without them or the models are
      unchanged; the rows of the mapping editor stand for the value of the
      form whenever it can be shown as rows.
    - The shell: two reloads of one URL for code that cannot be loaded are a
      minute apart; the purchase that was begun last is found again for a day,
      unless the storage can be read but not written.
    - Some theorems show behaviour that is probably not intended: tables read
      as plain objects (inherited_extension_accepted,
      inherited_capability_throws), reasoning left over from a cut tag
      (streaming_stale_reasoning), a message that keeps loading
      (empty_response_keeps_loading), two sources at once
      (edit_submit_while_streaming), price rules that the editor does not
      recognise again (param_comparison_lost) and erases when it opens
      (unread_rules_erased), presets of which only the rules are kept
      (preset_reverted), rules of prune_objects that cannot be edited
      (prune_rule_edits_lost), strings that become numbers when a document
      is opened and saved (string_value_retyped), free groups shown with the
      full price (free_group_full_price), prices shown as tokens
      (prices_as_tokens), costs under another name of a resolution that are
      not shown (tier_costs_exact), times such as 1m 60s (use_time_sixty),
      image settings that the history forgets (image_settings_forgotten), a
      stored item that erases the history (malformed_item_erases), accepted
      frames that are not sent (multimodal_frame_dropped), and a mapping that
      is lost when it is opened as text (unreadable_value_lost).

    ** Fuel and bounds

    Loops that are not structural take a fuel and return [Fuel] when it runs
    out; every definition that calls one passes an amount proved sufficient,
    so no theorem depends on it.  The loops over MP4 boxes and over think
    sections advance with every round, so the length of the input is enough;
    the search of a mention advances by one position; a polling round waits
    at least five seconds, so the time limit divided by five seconds bounds
    the rounds; a global match of a pattern that consumes something leaves a
    shorter rest.  Offsets and sizes of the MP4 reader are integers below 2^53,
    checked where the code checks them; numbers read from text or JSON are
    doubles.  Quota units up to 2^49 and rates between 2^-100 and 2^100 are far
    beyond real ones and keep the errors of the conversions below a half.
    Times are integers of milliseconds below 2^52, which doubles hold exactly.

    ** Parameters

    The case mapping of characters beyond ASCII ([CaseMap], [UpperMap]), the
    formatter of numbers and Math.pow ([NumberApi]), localeCompare
    ([LocaleOrder], with its laws in [LocaleLaws]), dates and their texts
    ([DateApi]), the library that persists a store ([PersistApi]), the URL
    parser of the browser ([UrlApi], [UrlCredentials], [PurchaseUrls]), fetch,
    toLocaleLowerCase, the identifiers of nanoid, the translation function, the
    quota of localStorage, the events of sse.js and of the HTTP client, the
    answers of the user to a dialog, the server that stores a channel
    ([stores]), the clock and the timers.  Where a theorem needs a
    law of one of them, the law is a field of a class with an instance that
    shows it can hold.

    ** What is not modelled

    React rendering and form state, toasts, the HTTP clients, the duration of
    a media element (a DOM event), the formatter Intl itself, mock statistics,
    translations and generated routes; the Go relay, the classic console, the
    Electron shell and the scripts are other programs.  The estimate of the
    editor of tiers runs the expression as JavaScript (new Function) and is
    left out.  Of the settings, the users, the dashboard and the usage logs the
    code fills forms that react-hook-form holds, calls the server and formats
    for display (dates by the library dayjs, charts by VChart), so there is no
    logic of its own to state; authentication and passkeys are calls of browser
    and server interfaces.  Of the creation centre the selections of the page
    and the upload of files are left out, and of the form of a channel the
    fields that only set a value. *)
From stdpp Require Export base decidable list numbers option sets fin_sets strings sorting.
From Stdlib Require Export Lia Sorted.


(** ** Automation *)

#[global] Arguments N.add : simpl never.
#[global] Arguments N.sub : simpl never.
#[global] Arguments N.mul : simpl never.
#[global] Arguments N.div : simpl never.
#[global] Arguments N.modulo : simpl never.

Create HintDb js discriminated.
Create Rewrite HintDb jsrw.

(** Case analysis on every boolean test of the goal and the hypotheses,
    turning boolean comparisons into propositions first. *)
Ltac bool_to_prop :=
  repeat match goal with
  | H : _ && _ = true |- _ => apply andb_true_iff in H as [? ?]
  | H : _ || _ = false |- _ => apply orb_false_iff in H as [? ?]
  | H : negb _ = true |- _ => apply negb_true_iff in H
  | H : negb _ = false |- _ => apply negb_false_iff in H
  | H : bool_decide _ = true |- _ => apply bool_decide_eq_true in H
  | H : bool_decide _ = false |- _ => apply bool_decide_eq_false in H
  | H : (_ <? _)%Z = true |- _ => apply Z.ltb_lt in H
  | H : (_ <? _)%Z = false |- _ => apply Z.ltb_ge in H
  | H : (_ <=? _)%Z = true |- _ => apply Z.leb_le in H
  | H : (_ <=? _)%Z = false |- _ => apply Z.leb_gt in H
  | H : (_ =? _)%Z = true |- _ => apply Z.eqb_eq in H
  | H : (_ =? _)%Z = false |- _ => apply Z.eqb_neq in H
  | H : (_ <? _)%N = true |- _ => apply N.ltb_lt in H
  | H : (_ <? _)%N = false |- _ => apply N.ltb_ge in H
  | H : (_ <=? _)%N = true |- _ => apply N.leb_le in H
  | H : (_ <=? _)%N = false |- _ => apply N.leb_gt in H
  | H : (_ =? _)%N = true |- _ => apply N.eqb_eq in H
  | H : (_ =? _)%N = false |- _ => apply N.eqb_neq in H
  | H : (_ <? _)%nat = true |- _ => apply Nat.ltb_lt in H
  | H : (_ <? _)%nat = false |- _ => apply Nat.ltb_ge in H
  | H : (_ <=? _)%nat = true |- _ => apply Nat.leb_le in H
  | H : (_ <=? _)%nat = false |- _ => apply Nat.leb_gt in H
  | H : (_ =? _)%nat = true |- _ => apply Nat.eqb_eq in H
  | H : (_ =? _)%nat = false |- _ => apply Nat.eqb_neq in H
  end.

(** Split the innermost [if]/[match] of the goal on its scrutinee. *)
Ltac case_split :=
  match goal with
  | |- context [if ?b then _ else _] =>
      lazymatch b with
      | context [if _ then _ else _] => fail
      | context [match _ with _ => _ end] => fail
      | _ => let E := fresh "E" in destruct b eqn:E
      end
  | |- context [match ?b with _ => _ end] =>
      lazymatch b with
      | context [if _ then _ else _] => fail
      | context [match _ with _ => _ end] => fail
      | _ => let E := fresh "E" in destruct b eqn:E
      end
  end.

(** Same for a hypothesis. *)
Ltac case_split_in H :=
  match type of H with
  | context [match ?b with _ => _ end] =>
      lazymatch b with
      | context [match _ with _ => _ end] => fail
      | _ => let E := fresh "E" in destruct b eqn:E
      end
  end.

(** ** Optional and nullish values *)

(** The boolean "is a value" test, [x !== undefined]. *)
Definition is_some {A} (o : option A) : bool :=
  match o with Some _ => true | None => false end.

(** The nullish default [a ?? b]. *)
Definition from_opt {A} (d : A) (o : option A) : A :=
  match o with Some x => x | None => d end.

(** ** Outcomes of code that can throw

    [Throw] is an exception; [Fuel] marks a loop whose bound was too small,
    which the theorems about each loop rule out. *)
Inductive exc (A : Type) := Ok (a : A) | Throw | Fuel.
Arguments Ok {A} a.
Arguments Throw {A}.
Arguments Fuel {A}.

#[export] Instance exc_ret : MRet exc := @Ok.
#[export] Instance exc_bind : MBind exc := λ A B f m,
  match m with Ok a => f a | Throw => Throw | Fuel => Fuel end.

(** [m] returns normally. *)
Definition returns {A} (m : exc A) : Prop := ∃ a, m = Ok a.

Lemma returns_bind {A B} (m : exc A) (f : A → exc B) :
  returns m → (∀ a, m = Ok a → returns (f a)) → returns (m ≫= f).
Proof. intros [a ->] H. by apply H. Qed.

Lemma Ok_inj {A} (a b : A) : Ok a = Ok b → a = b.
Proof. by intros [= ->]. Qed.

Lemma exc_bind_Ok {A B} (m : exc A) (f : A → exc B) b :
  m ≫= f = Ok b → ∃ a, m = Ok a ∧ f a = Ok b.
Proof. destruct m as [a| |]; [|done..]. intros Hf. by exists a. Qed.

(** Close a goal [returns m] where [m] evaluates to [Ok]. *)
Ltac ret := solve [eexists; reflexivity].

(** ** Lists *)

(** [Array.prototype.find]. *)
Fixpoint find_first {A} (f : A → bool) (l : list A) : option A :=
  match l with
  | [] => None
  | x :: l => if f x then Some x else find_first f l
  end.

(** [Array.prototype.findIndex], [None] for -1. *)
Fixpoint find_index {A} (f : A → bool) (l : list A) : option nat :=
  match l with
  | [] => None
  | x :: l => if f x then Some 0 else S <$> find_index f l
  end.

(** [Array.prototype.filter] with a boolean callback. *)
Definition filterb {A} (f : A → bool) (l : list A) : list A :=
  List.filter f l.

(** [Array.prototype.includes] for a type with decidable equality. *)
Definition includes {A} `{EqDecision A} (x : A) (l : list A) : bool :=
  bool_decide (x ∈ l).

(** [Array.from(new Set(l))] / [[...new Set(l)]]: the first occurrence of
    every element, in order. *)
Fixpoint uniq_from {A} `{EqDecision A} (seen l : list A) : list A :=
  match l with
  | [] => []
  | x :: l =>
      if bool_decide (x ∈ seen) then uniq_from seen l
      else x :: uniq_from (x :: seen) l
  end.
Definition uniq {A} `{EqDecision A} (l : list A) : list A := uniq_from [] l.

(** Stable insertion sort: [Array.prototype.sort] is stable, so it is
    determined by the comparison; [le x y] is [compare(x, y) <= 0]. *)
Fixpoint insert_by {A} (le : A → A → bool) (x : A) (l : list A) : list A :=
  match l with
  | [] => [x]
  | y :: l' => if le x y then x :: l else y :: insert_by le x l'
  end.
Definition sort_by {A} (le : A → A → bool) (l : list A) : list A :=
  foldr (insert_by le) [] l.

(** The relation a boolean comparison decides. *)
Definition rel_of {A} (le : A → A → bool) : A → A → Prop := λ x y, le x y = true.

Section Lists.
Context {A : Type}.
Implicit Types (l : list A) (f : A → bool).

Lemma find_first_Some f l x :
  find_first f l = Some x → x ∈ l ∧ f x = true.
Proof.
  induction l as [|y l IH]; simpl; [done|].
  destruct (f y) eqn:E; intros H; simplify_eq; [set_solver|].
  destruct (IH H). set_solver.
Qed.

Lemma find_first_None f l :
  find_first f l = None ↔ ∀ x, x ∈ l → f x = false.
Proof.
  induction l as [|y l IH]; simpl; [set_solver|].
  destruct (f y) eqn:E; split.
  - done.
  - intros H. specialize (H y). rewrite E in H. set_solver.
  - intros H x [->|Hx]%elem_of_cons; [done|]. by apply IH.
  - intros H. apply IH. set_solver.
Qed.

Lemma find_index_lookup (f : A → bool) l i :
  find_index f l = Some i → ∃ x, l !! i = Some x ∧ f x = true.
Proof.
  revert i. induction l as [|x l IH]; intros i; cbn; [done|]. destruct (f x) eqn:E; [intros [= <-]; by exists x|].
  destruct (find_index f l) as [j|]; [|done]. intros [= <-]. by apply IH.
Qed.

Lemma filterb_elem f l x : x ∈ filterb f l ↔ x ∈ l ∧ f x = true.
Proof.
  unfold filterb. rewrite !list_elem_of_In, List.filter_In. done.
Qed.

Lemma filterb_length f l : length (filterb f l) ≤ length l.
Proof. induction l as [|x l IH]; simpl; [done|]. destruct (f x); simpl; lia. Qed.

Lemma filterb_sublist f l : filterb f l `sublist_of` l.
Proof. induction l as [|x l IH]; [done|]. cbn. destruct (f x); by constructor. Qed.

Lemma filterb_idemp f l : filterb f (filterb f l) = filterb f l.
Proof.
  induction l as [|x l IH]; simpl; [done|].
  destruct (f x) eqn:E; simpl; rewrite ?E; congruence.
Qed.

Lemma filterb_all f l : (∀ x, x ∈ l → f x = true) → filterb f l = l.
Proof.
  induction l as [|x l IH]; simpl; intros H; [done|].
  rewrite (H x) by set_solver. f_equal. apply IH. set_solver.
Qed.

Lemma insert_by_Permutation le x l : insert_by le x l ≡ₚ x :: l.
Proof.
  induction l as [|y l IH]; simpl; [done|].
  destruct (le x y); [done|]. rewrite IH. constructor.
Qed.

Lemma sort_by_Permutation le l : sort_by le l ≡ₚ l.
Proof.
  induction l as [|x l IH]; simpl; [done|].
  rewrite insert_by_Permutation. by constructor.
Qed.

Lemma sort_by_elem le l x : x ∈ sort_by le l ↔ x ∈ l.
Proof. by rewrite sort_by_Permutation. Qed.

Lemma sort_by_length le l : length (sort_by le l) = length l.
Proof. apply Permutation_length, sort_by_Permutation. Qed.

Section Sorted.
Context (le : A → A → bool).

(** A comparison that is total and transitive on the elements with [P] sorts a
    list of them. *)
Section SortedOn.
Context (P : A → Prop).
Context (total_on : ∀ x y, P x → P y → le x y = true ∨ le y x = true).
Context (trans_on : ∀ x y z, P x → P y → P z → le x y = true → le y z = true → le x z = true).

Lemma insert_by_Sorted_on x l :
  P x → Forall P l → StronglySorted (rel_of le) l → StronglySorted (rel_of le) (insert_by le x l).
Proof.
  intros Hx Hl Hs. induction Hs as [|y l Hs IH Hf]; simpl; [repeat constructor|].
  apply Forall_cons in Hl as [Hy Hl]. destruct (le x y) eqn:E.
  - constructor; [by constructor|]. constructor; [done|].
    rewrite Forall_forall in Hf, Hl |- *. intros z Hz. apply (trans_on _ y); auto. by apply Hf.
  - constructor; [auto|]. rewrite insert_by_Permutation. constructor; [|done].
    destruct (total_on x y); [done..|congruence|done].
Qed.

Lemma sort_by_Sorted_on l : Forall P l → StronglySorted (rel_of le) (sort_by le l).
Proof.
  induction 1; simpl; [constructor|]. apply insert_by_Sorted_on; [done| |done].
  by rewrite sort_by_Permutation.
Qed.

End SortedOn.

Context (le_total : ∀ x y, le x y = true ∨ le y x = true).
Context (le_trans : ∀ x y z, le x y = true → le y z = true → le x z = true).

Lemma insert_by_Sorted x l :
  StronglySorted (rel_of le) l → StronglySorted (rel_of le) (insert_by le x l).
Proof. apply (insert_by_Sorted_on (λ _, True)); eauto. by apply Forall_true. Qed.

Lemma sort_by_Sorted l : StronglySorted (rel_of le) (sort_by le l).
Proof. apply (sort_by_Sorted_on (λ _, True)); eauto. by apply Forall_true. Qed.

End Sorted.

(** Sorting by a comparison that decides a total and transitive relation. *)
Lemma sorted_by_key (le : A → A → bool) (R : A → A → Prop) (P : A → Prop) l :
  (∀ x y, P x → P y → le x y = true ↔ R x y) →
  (∀ x y, R x y ∨ R y x) → (∀ x y z, R x y → R y z → R x z) →
  Forall P l → StronglySorted R (sort_by le l).
Proof.
  intros Hle Ht Htr Hl.
  assert (StronglySorted (rel_of le) (sort_by le l)) as Hs.
  { apply (sort_by_Sorted_on le P); [| |done].
    - intros x y Hx Hy. rewrite (Hle x y), (Hle y x) by done. apply Ht.
    - intros x y z Hx Hy Hz. rewrite (Hle x y), (Hle y z), (Hle x z) by done. apply Htr. }
  rewrite <- (sort_by_Permutation le) in Hl. induction Hs as [|x l' Hs IH Hf]; [constructor|].
  apply Forall_cons in Hl as [Hx Hl]. constructor; [auto|].
  rewrite Forall_forall in *. intros y Hy. apply Hle; auto. by apply Hf.
Qed.

(** Sorting a list that is already sorted changes nothing. *)
Lemma sort_by_id (le : A → A → bool) l :
  StronglySorted (rel_of le) l → sort_by le l = l.
Proof.
  induction 1 as [|x l Hs IH Hf]; simpl; [done|].
  rewrite IH. destruct l as [|y l]; simpl; [done|].
  apply Forall_cons in Hf as [Hxy _]. unfold rel_of in Hxy. by rewrite Hxy.
Qed.

End Lists.

Section Uniq.
Context {A : Type} `{EqDecision A}.
Implicit Types l seen : list A.

Lemma uniq_from_elem seen l x : x ∈ uniq_from seen l ↔ x ∈ l ∧ x ∉ seen.
Proof.
  revert seen; induction l as [|y l IH]; intros seen; simpl; [set_solver|].
  case_bool_decide; [rewrite IH; set_solver|].
  rewrite elem_of_cons, IH. destruct (decide (x = y)); set_solver.
Qed.

Lemma uniq_from_NoDup seen l : NoDup (uniq_from seen l).
Proof.
  revert seen; induction l as [|y l IH]; intros seen; simpl; [constructor|].
  case_bool_decide; [done|]. constructor; [|done].
  rewrite uniq_from_elem. set_solver.
Qed.

Lemma uniq_from_id seen l :
  NoDup l → (∀ x, x ∈ l → x ∉ seen) → uniq_from seen l = l.
Proof.
  revert seen; induction l as [|y l IH]; intros seen Hnd Hs; simpl; [done|].
  apply NoDup_cons in Hnd as [Hy Hnd].
  rewrite bool_decide_false by set_solver. f_equal.
  apply IH; [done|]. set_solver.
Qed.

Lemma uniq_elem l x : x ∈ uniq l ↔ x ∈ l.
Proof. unfold uniq. rewrite uniq_from_elem. set_solver. Qed.

Lemma uniq_NoDup l : NoDup (uniq l).
Proof. apply uniq_from_NoDup. Qed.

Lemma uniq_id l : NoDup l → uniq l = l.
Proof. intros. apply uniq_from_id; set_solver. Qed.

Lemma uniq_idemp l : uniq (uniq l) = uniq l.
Proof. apply uniq_id, uniq_NoDup. Qed.

Lemma includes_elem (x : A) l : includes x l = true ↔ x ∈ l.
Proof. apply bool_decide_eq_true. Qed.

End Uniq.

#[export] Hint Resolve uniq_NoDup : js.
#[export] Hint Rewrite @uniq_elem @sort_by_elem @filterb_elem @includes_elem : jsrw.
