(* ===== verification/JsString.v ===== *)
(** * JavaScript strings

    A string is the list of its UTF-16 code units.  The file models the
    [String.prototype] operations the sources use ([trim], [split], [join],
    [indexOf], [includes], [startsWith], [endsWith], [slice], [padStart],
    [String(n)] of an integer and [Number.parseInt] of a digit string), the
    code-unit order that [Array.prototype.sort] uses by default, and the
    interface of Unicode case mapping. *)
From S2P Require Import Prelude.
From Stdlib Require Ascii String.


Open Scope N_scope.

Abbreviation jsstr := (list N).

(** ** Literals: a UTF-8 source literal as UTF-16 code units *)

Fixpoint utf8_bytes (s : string) : list N :=
  match s with
  | String.EmptyString => []
  | String.String a s => Ascii.N_of_ascii a :: utf8_bytes s
  end.

Definition utf16 (cp : N) : list N :=
  if cp <? 65536 then [cp]
  else [55296 + N.shiftr (cp - 65536) 10; 56320 + N.land (cp - 65536) 1023].

Definition cont (b : N) : N := N.land b 63.

Fixpoint utf8_decode (bs : list N) : jsstr :=
  match bs with
  | [] => []
  | b :: bs1 =>
      if b <? 128 then b :: utf8_decode bs1
      else if b <? 224 then
        match bs1 with
        | b1 :: bs2 => utf16 (N.land b 31 * 64 + cont b1) ++ utf8_decode bs2
        | [] => []
        end
      else if b <? 240 then
        match bs1 with
        | b1 :: b2 :: bs3 =>
            utf16 (N.land b 15 * 4096 + cont b1 * 64 + cont b2) ++ utf8_decode bs3
        | _ => []
        end
      else
        match bs1 with
        | b1 :: b2 :: b3 :: bs4 =>
            utf16 (N.land b 7 * 262144 + cont b1 * 4096 + cont b2 * 64 + cont b3)
              ++ utf8_decode bs4
        | _ => []
        end
  end.

Definition js (s : string) : jsstr := utf8_decode (utf8_bytes s).
Arguments js s%_string.

(** A literal with double quotes in it, written with single quotes. *)
Definition jsq (s : string) : jsstr := map (λ c, if c =? 39 then 34 else c) (js s).
Arguments jsq s%_string.

Example js_ascii : js "a1" = [97; 49]. Proof. reflexivity. Qed.
Example js_bmp : js "，" = [65292]. Proof. reflexivity. Qed.

(** ** Character classes *)

(** WhiteSpace and LineTerminator of ECMAScript: what [trim] removes and
    what [\s] matches. *)
Definition is_ws (c : N) : bool :=
  bool_decide (c ∈ [9; 10; 11; 12; 13; 32; 160; 5760; 8232; 8233; 8239; 8287;
                    12288; 65279])
  || ((8192 <=? c) && (c <=? 8202)).

(** [\d]. *)
Definition is_digit (c : N) : bool := (48 <=? c) && (c <=? 57).
Definition digit_val (c : N) : N := c - 48.

(** ** Operations *)

Fixpoint drop_while (f : N → bool) (s : jsstr) : jsstr :=
  match s with
  | c :: s' => if f c then drop_while f s' else s
  | [] => []
  end.

Definition trim_start (s : jsstr) : jsstr := drop_while is_ws s.
Definition trim_end (s : jsstr) : jsstr := rev (drop_while is_ws (rev s)).
Definition trim (s : jsstr) : jsstr := trim_end (trim_start s).

(** The boolean value of a string: [Boolean(s)]. *)
Definition truthy (s : jsstr) : bool := match s with [] => false | _ => true end.

Definition str_eqb (s t : jsstr) : bool := bool_decide (s = t).

(** [a || b] on strings. *)
Definition str_or (a b : jsstr) : jsstr := if truthy a then a else b.

Fixpoint starts_with (p s : jsstr) : bool :=
  match p, s with
  | [], _ => true
  | c :: p, d :: s => (c =? d) && starts_with p s
  | _ :: _, [] => false
  end.

Definition ends_with (p s : jsstr) : bool := starts_with (rev p) (rev s).

(** [s.indexOf(p)]: the position of the first occurrence, [None] for -1. *)
Fixpoint index_of (p s : jsstr) : option nat :=
  if starts_with p s then Some O
  else match s with
       | [] => None
       | _ :: s => S <$> index_of p s
       end.

(** [s.indexOf(p, from)]. *)
Definition index_from (p s : jsstr) (from : nat) : option nat :=
  (λ i, (Nat.min from (length s) + i)%nat) <$> index_of p (drop from s).

Definition str_includes (p s : jsstr) : bool := is_some (index_of p s).

(** [s.slice(i, j)] for in-range, non-negative indices. *)
Definition slice (i j : nat) (s : jsstr) : jsstr := take (j - i) (drop i s).

(** [s.split(sep)] for a non-empty separator. *)
Fixpoint split_fuel (fuel : nat) (sep s : jsstr) : list jsstr :=
  match fuel with
  | O => [s]
  | S fuel =>
      match index_of sep s with
      | None => [s]
      | Some i => take i s :: split_fuel fuel sep (drop (i + length sep) s)
      end
  end.
Definition split (sep s : jsstr) : list jsstr := split_fuel (S (length s)) sep s.

(** [parts.join(sep)]. *)
Fixpoint join (sep : jsstr) (parts : list jsstr) : jsstr :=
  match parts with
  | [] => []
  | [p] => p
  | p :: parts => p ++ sep ++ join sep parts
  end.

#[global] Arguments join : simpl nomatch.

(** [s.replace(/[c]/g, r)] for a class of single code units. *)
Definition replace_class (f : N → bool) (r : jsstr) (s : jsstr) : jsstr :=
  concat (map (λ c, if f c then r else [c]) s).

Definition pad_start (n : nat) (c : N) (s : jsstr) : jsstr :=
  replicate (n - length s) c ++ s.

(** ** Integers in decimal *)

(** [Number.parseInt(s, 10)] and [Number(s)] of a string of digits. *)
Definition digits_value (s : jsstr) : N :=
  fold_left (λ a c, a * 10 + digit_val c) s 0.

Fixpoint dec_fuel (fuel : nat) (n : N) : jsstr :=
  match fuel with
  | O => []
  | S f => if n <? 10 then [48 + n] else dec_fuel f (n / 10) ++ [48 + n mod 10]
  end.

(** [String(n)] of a natural number (below 10^21, where JavaScript switches
    to exponent notation). *)
Definition dec (n : N) : jsstr := dec_fuel (S (N.size_nat n)) n.

Definition dec_Z (z : Z) : jsstr :=
  match z with
  | Zneg p => js "-" ++ dec (Npos p)
  | _ => dec (Z.to_N z)
  end.

(** ** The default order of [Array.prototype.sort]: by UTF-16 code units *)

Fixpoint str_leb (s t : jsstr) : bool :=
  match s, t with
  | [], _ => true
  | _ :: _, [] => false
  | c :: s, d :: t => (c <? d) || ((c =? d) && str_leb s t)
  end.

Definition sort_strings : list jsstr → list jsstr := sort_by str_leb.

(** ** Case mapping

    [toLowerCase] follows the Unicode tables; what the sources rely on is
    its behaviour on ASCII and that it is idempotent. *)

Definition ascii_lower (c : N) : N :=
  if (65 <=? c) && (c <=? 90) then c + 32 else c.
Definition is_ascii (s : jsstr) : Prop := Forall (λ c, c < 128) s.

Class CaseMap := {
  to_lower : jsstr → jsstr;
  to_lower_ascii : ∀ s, is_ascii s → to_lower s = map ascii_lower s;
  to_lower_idemp : ∀ s, to_lower (to_lower s) = to_lower s;
}.

(** [s.toUpperCase()]. *)
Definition ascii_upper (c : N) : N :=
  if (97 <=? c) && (c <=? 122) then c - 32 else c.

Class UpperMap := {
  to_upper : jsstr → jsstr;
  to_upper_ascii : ∀ s, is_ascii s → to_upper s = map ascii_upper s;
}.

#[export] Instance ascii_upper_map : UpperMap := {| to_upper := map ascii_upper; to_upper_ascii := λ s _, eq_refl |}.

(** ** Lemmas *)

Lemma drop_while_nil f s : drop_while f s = [] ↔ Forall (λ c, f c = true) s.
Proof.
  induction s as [|c s IH]; simpl; [naive_solver|].
  rewrite Forall_cons. destruct (f c); naive_solver.
Qed.

Lemma drop_while_id f s :
  (∀ c s', s = c :: s' → f c = false) → drop_while f s = s.
Proof. destruct s as [|c s]; simpl; [done|]. intros H. by rewrite (H c s). Qed.

Lemma drop_while_head f s c s' : drop_while f s = c :: s' → f c = false.
Proof.
  induction s as [|d s IH]; simpl; [done|].
  destruct (f d) eqn:E; [done|]. congruence.
Qed.

Lemma drop_while_suffix f s : ∃ p, s = p ++ drop_while f s.
Proof.
  induction s as [|c s [p IH]]; simpl; [by exists []|].
  destruct (f c); [exists (c :: p); simpl; congruence|by exists []].
Qed.

(** A string is trimmed when neither end is white space. *)
Definition trimmed (s : jsstr) : Prop :=
  (∀ c s', s = c :: s' → is_ws c = false) ∧
  (∀ c s', s = s' ++ [c] → is_ws c = false).

Lemma trim_trimmed s : trimmed (trim s).
Proof.
  unfold trim, trim_end, trim_start. set (t := drop_while is_ws s).
  destruct (drop_while_suffix is_ws (rev t)) as [p Hp].
  set (u := drop_while is_ws (rev t)) in *. split.
  - intros c s' H. assert (t = rev u ++ rev p) as Ht.
    { rewrite <- rev_app_distr, <- Hp. by rewrite rev_involutive. }
    rewrite H in Ht. simpl in Ht. by apply (drop_while_head _ s _ (s' ++ rev p)).
  - intros c s' H. apply (f_equal (@rev N)) in H.
    rewrite rev_involutive, rev_unit in H. by eapply drop_while_head.
Qed.

Lemma trim_id s : trimmed s → trim s = s.
Proof.
  intros [H1 H2]. unfold trim, trim_end, trim_start.
  rewrite (drop_while_id is_ws s H1), drop_while_id; [by rewrite rev_involutive|].
  intros c s' H. apply (f_equal (@rev N)) in H. rewrite rev_involutive in H.
  by eapply H2.
Qed.

Lemma trim_ends c x e : is_ws c = false → is_ws e = false → trim (c :: x ++ [e]) = c :: x ++ [e].
Proof.
  intros Hc He. apply trim_id. split; intros a s' E.
  - by injection E as <- _.
  - rewrite app_comm_cons in E. by apply app_inj_tail in E as [_ <-].
Qed.

Lemma trim_idemp s : trim (trim s) = trim s.
Proof. apply trim_id, trim_trimmed. Qed.

Lemma trim_nil : trim [] = [].
Proof. done. Qed.

Lemma no_ws_trimmed s : Forall (λ c, is_ws c = false) s → trimmed s.
Proof.
  intros H. split; intros c s' ->.
  - by apply Forall_cons in H as [??].
  - apply Forall_app in H as [_ H]. by apply Forall_cons in H as [??].
Qed.

Lemma trim_elem s c : c ∈ trim s → c ∈ s.
Proof.
  unfold trim, trim_end, trim_start. intros H.
  apply list_elem_of_In, in_rev, list_elem_of_In in H.
  destruct (drop_while_suffix is_ws (rev (drop_while is_ws s))) as [p Hp].
  destruct (drop_while_suffix is_ws s) as [q Hq].
  assert (c ∈ rev (drop_while is_ws s)) as H1 by (rewrite Hp; set_solver).
  apply list_elem_of_In, in_rev, list_elem_of_In in H1.
  rewrite Hq. set_solver.
Qed.

Lemma starts_with_app p s : starts_with p (p ++ s) = true.
Proof. induction p; simpl; [done|]. by rewrite N.eqb_refl. Qed.

Lemma starts_cons_ne d l c s : c ≠ d → starts_with (d :: l) (c :: s) = false.
Proof. intros H. cbn [starts_with]. by rewrite (proj2 (N.eqb_neq d c)) by done. Qed.

Lemma starts_with_spec p s : starts_with p s = true ↔ ∃ t, s = p ++ t.
Proof.
  revert s; induction p as [|c p IH]; intros s; simpl.
  - split; [by exists s|done].
  - destruct s as [|d s]; simpl; [naive_solver|].
    rewrite andb_true_iff, N.eqb_eq, IH. naive_solver.
Qed.

Lemma index_of_Some p s i :
  index_of p s = Some i →
  s = take i s ++ p ++ drop (i + length p) s ∧ (i + length p ≤ length s)%nat.
Proof.
  revert i; induction s as [|c s IH]; intros i; simpl.
  - destruct (starts_with p []) eqn:E; [|done]. intros [= <-].
    apply starts_with_spec in E as [t E].
    destruct p; [|done]. done.
  - destruct (starts_with p (c :: s)) eqn:E; intros H.
    + simplify_eq. apply starts_with_spec in E as [t E]. rewrite E. simpl.
      rewrite drop_app_length. split; [done|].
      apply (f_equal length) in E. rewrite length_app in E. simpl in E. lia.
    + apply fmap_Some in H as (j & Hj & ->). apply IH in Hj as [H1 H2].
      simpl. split; [by f_equal|lia].
Qed.

Lemma index_of_first p a b : ∃ j, index_of p (a ++ p ++ b) = Some j ∧ (j ≤ length a)%nat.
Proof.
  induction a as [|c a IH]; simpl.
  - exists 0%nat. destruct (p ++ b) eqn:E; simpl;
      rewrite <- E, starts_with_app; split; done || lia.
  - destruct (starts_with p (c :: a ++ p ++ b)); [exists 0%nat; split; [done|lia]|].
    destruct IH as (j & -> & Hj). exists (S j). split; [done|lia].
Qed.

Lemma index_of_from p s : index_of p s = index_from p s 0.
Proof. unfold index_from. rewrite drop_0. simpl. by destruct (index_of p s). Qed.

Lemma str_includes_false p s : str_includes p s = false ↔ ∀ a b, s ≠ a ++ p ++ b.
Proof.
  unfold str_includes. destruct (index_of p s) as [i|] eqn:E; simpl.
  - split; [done|]. intros H. apply index_of_Some in E as [E _]. by destruct (H _ _ E).
  - split; [|done]. intros _ a b ->. destruct (index_of_first p a b) as (j & Hj & _). congruence.
Qed.

(** The text before the first occurrence has no occurrence. *)
Lemma index_of_before p s i :
  p ≠ [] → index_of p s = Some i → str_includes p (take i s) = false.
Proof.
  intros Hp E. apply str_includes_false. intros a b Hab.
  pose proof (index_of_Some _ _ _ E) as [_ Hl].
  assert (s = a ++ p ++ (b ++ drop i s)) as Hs.
  { rewrite <- (take_drop i s) at 1. rewrite Hab. by rewrite <- !app_assoc. }
  destruct (index_of_first p a (b ++ drop i s)) as (j & Hj & Hle). rewrite <- Hs, E in Hj.
  apply (f_equal length) in Hab. rewrite length_take, !length_app in Hab.
  assert (0 < length p)%nat by (destruct p; [done|simpl; lia]). simplify_eq. lia.
Qed.

(** A string without a proper border: no proper suffix is a prefix. *)
Definition unbordered (p : jsstr) : bool :=
  forallb (λ k, negb (bool_decide (take (length p - k) p = drop k p))) (seq 1 (length p - 1)).

(** The first occurrence of an unbordered string after a text without it. *)
Lemma index_of_unbordered p v r :
  p ≠ [] → unbordered p = true → str_includes p v = false →
  index_of p (v ++ p ++ r) = Some (length v).
Proof.
  intros Hp Hb Hv. destruct (index_of_first p v r) as (j & E & Hj). rewrite E. f_equal.
  destruct (decide (j = length v)) as [|Hne]; [done|exfalso].
  apply index_of_Some in E as [E Hl].
  destruct (decide (j + length p ≤ length v)%nat) as [Hle|Hgt].
  - rewrite str_includes_false in Hv. apply (Hv (take j v) (drop (length p) (drop j v))).
    apply (f_equal (drop j)) in E. rewrite drop_app_le in E by lia.
    rewrite drop_app_length' in E by (rewrite length_take; lia).
    apply (f_equal (take (length p))) in E.
    rewrite take_app_le, take_app_length in E by (rewrite length_drop; lia).
    rewrite <- E at 1. by rewrite !take_drop.
  - set (k := (length v - j)%nat). unfold unbordered in Hb. rewrite forallb_forall in Hb.
    specialize (Hb k). rewrite in_seq in Hb. specialize (Hb ltac:(lia)).
    apply negb_true_iff, bool_decide_eq_false in Hb. apply Hb.
    apply (f_equal (drop (length v))) in E. rewrite drop_app_length in E.
    rewrite drop_app_ge in E by (rewrite length_take; lia).
    rewrite length_take, Nat.min_l in E by (rewrite !length_app; lia).
    fold k in E. rewrite drop_app_le in E by lia.
    apply (f_equal (take (length p - k))) in E. rewrite take_app_le in E by lia.
    rewrite E. rewrite take_app_le by (rewrite length_drop; lia).
    apply take_ge. rewrite length_drop. lia.
Qed.

Lemma index_of_char c s :
  index_of [c] s = None ↔ c ∉ s.
Proof.
  induction s as [|d s IH]; simpl; [set_solver|].
  destruct (N.eqb_spec c d) as [->|Hn]; simpl; [set_solver|].
  rewrite fmap_None, IH. set_solver.
Qed.

Lemma index_of_char_app c s t :
  c ∉ s → index_of [c] (s ++ c :: t) = Some (length s).
Proof.
  induction s as [|d s IH]; intros H; simpl.
  - by rewrite N.eqb_refl.
  - destruct (N.eqb_spec c d) as [->|Hn]; [set_solver|]. simpl.
    rewrite IH by set_solver. done.
Qed.

Lemma join_cons2 sep p q parts :
  join sep (p :: q :: parts) = p ++ sep ++ join sep (q :: parts).
Proof. done. Qed.

Lemma split_fuel_join c parts fuel :
  (0 < length parts)%nat → (length parts ≤ fuel)%nat →
  Forall (λ p, c ∉ p) parts →
  split_fuel fuel [c] (join [c] parts) = parts.
Proof.
  revert parts; induction fuel as [|fuel IH]; intros parts H0 Hf Hp; [lia|].
  destruct parts as [|p [|q parts]]; [simpl in *; lia| |].
  - apply Forall_cons in Hp as [Hp _]. cbn [split_fuel join].
    apply index_of_char in Hp as ->. done.
  - apply Forall_cons in Hp as [Hp Hq]. rewrite join_cons2. cbn [split_fuel].
    change ([c] ++ ?x) with (c :: x).
    rewrite index_of_char_app by done.
    rewrite take_app_length, drop_app_ge by (simpl; lia).
    replace (length p + length [c] - length p)%nat with 1%nat by (simpl; lia).
    cbn [drop]. f_equal. apply IH; [simpl; lia|simpl in *; lia|done].
Qed.

Lemma length_join_ge c parts :
  (length parts ≤ S (length (join [c] parts)))%nat.
Proof.
  induction parts as [|p [|q parts] IH]; [simpl; lia..|].
  rewrite join_cons2, length_app, length_app. simpl in *. lia.
Qed.

(** [split] undoes [join] on a one-unit separator none of the parts has. *)
Lemma split_join c parts :
  parts ≠ [] → Forall (λ p, c ∉ p) parts → split [c] (join [c] parts) = parts.
Proof.
  intros H Hp. unfold split. apply split_fuel_join; [|apply length_join_ge|done].
  destruct parts; simpl; [done|lia].
Qed.

Lemma replace_class_id f r s :
  Forall (λ c, f c = false) s → replace_class f r s = s.
Proof.
  induction 1 as [|c s Hc _ IH]; simpl; [done|].
  unfold replace_class in *. simpl. rewrite Hc, IH. done.
Qed.

(** *** Decimal round trip *)

Lemma digits_value_snoc s c :
  digits_value (s ++ [c]) = digits_value s * 10 + digit_val c.
Proof. unfold digits_value. by rewrite fold_left_app. Qed.

Lemma dec_fuel_value fuel n :
  n < 2 ^ N.of_nat fuel → digits_value (dec_fuel fuel n) = n.
Proof.
  revert n; induction fuel as [|f IH]; intros n H; simpl.
  - simpl in H. unfold digits_value; simpl. lia.
  - destruct (N.ltb_spec n 10) as [Hn|Hn].
    + unfold digits_value, digit_val; cbn [fold_left]. lia.
    + rewrite digits_value_snoc, IH.
      * unfold digit_val. rewrite (N.add_comm 48), N.add_sub, N.mul_comm.
        symmetry. apply N.div_mod. done.
      * rewrite Nat2N.inj_succ, N.pow_succ_r in H by lia.
        apply N.Div0.div_lt_upper_bound; lia.
Qed.

Lemma size_nat_bound n : n < 2 ^ N.of_nat (N.size_nat n).
Proof.
  destruct n as [|p]; [done|]. simpl.
  induction p as [p IH|p IH|]; simpl;
    rewrite ?Nat2N.inj_succ, ?N.pow_succ_r; try lia; done.
Qed.

Lemma dec_value n : digits_value (dec n) = n.
Proof.
  apply dec_fuel_value. rewrite Nat2N.inj_succ, N.pow_succ_r by lia.
  pose proof (size_nat_bound n). lia.
Qed.

Lemma dec_fuel_digits fuel n : Forall (λ c, is_digit c = true) (dec_fuel fuel n).
Proof.
  revert n; induction fuel as [|f IH]; intros n; simpl; [constructor|].
  unfold is_digit. destruct (N.ltb_spec n 10) as [Hn|Hn].
  - repeat constructor. apply andb_true_iff. rewrite !N.leb_le. lia.
  - apply Forall_app. split; [apply IH|]. repeat constructor.
    pose proof (N.mod_lt n 10 ltac:(done)) as Hm. apply andb_true_iff.
    rewrite !N.leb_le. generalize dependent (n mod 10). intros. lia.
Qed.

Lemma dec_digits n : Forall (λ c, is_digit c = true) (dec n).
Proof. apply dec_fuel_digits. Qed.

Lemma dec_nonempty n : dec n ≠ [].
Proof.
  unfold dec. simpl. destruct (n <? 10); [done|].
  intros H. by apply app_eq_nil in H as [_ ?].
Qed.

Lemma digit_not_ws c : is_digit c = true → is_ws c = false.
Proof.
  unfold is_digit, is_ws. rewrite andb_true_iff, !N.leb_le. intros.
  apply orb_false_iff. split.
  - apply bool_decide_eq_false. set_unfold. lia.
  - apply andb_false_iff. rewrite !N.leb_gt. lia.
Qed.

(** *** The string order *)

Lemma str_leb_refl s : str_leb s s = true.
Proof. induction s; simpl; [done|]. rewrite N.eqb_refl. by rewrite orb_comm; simpl; rewrite IHs. Qed.

Lemma str_leb_total s t : str_leb s t = true ∨ str_leb t s = true.
Proof.
  revert t; induction s as [|c s IH]; intros [|d t]; simpl; [by left..|by right|].
  destruct (N.lt_trichotomy c d) as [H|[->|H]].
  - left. apply N.ltb_lt in H. by rewrite H.
  - rewrite N.ltb_irrefl, N.eqb_refl. simpl. apply IH.
  - right. apply N.ltb_lt in H. by rewrite H.
Qed.

Lemma str_leb_cons c d s t :
  str_leb (c :: s) (d :: t) = true ↔ c < d ∨ (c = d ∧ str_leb s t = true).
Proof. simpl. rewrite orb_true_iff, andb_true_iff, N.ltb_lt, N.eqb_eq. done. Qed.

Lemma str_leb_trans s t u :
  str_leb s t = true → str_leb t u = true → str_leb s u = true.
Proof.
  revert t u; induction s as [|c s IH]; intros [|d t] [|e u]; try done.
  rewrite !str_leb_cons. intros [?|[-> ?]] [?|[-> ?]]; [left; lia|by left|by left|].
  right. split; [done|]. by eapply IH.
Qed.

Lemma str_leb_antisym s t : str_leb s t = true → str_leb t s = true → s = t.
Proof.
  revert t; induction s as [|c s IH]; intros [|d t]; try done.
  rewrite !str_leb_cons. intros [?|[-> ?]] [?|[? ?]]; [lia|lia|lia|].
  f_equal. by apply IH.
Qed.

Lemma sort_strings_Sorted l : StronglySorted (rel_of str_leb) (sort_strings l).
Proof. apply sort_by_Sorted; [apply str_leb_total|apply str_leb_trans]. Qed.

(** Sorted duplicate-free lists with the same elements are equal. *)
Lemma sorted_strings_ext l1 l2 :
  StronglySorted (rel_of str_leb) l1 → StronglySorted (rel_of str_leb) l2 →
  l1 ≡ₚ l2 → l1 = l2.
Proof.
  revert l2; induction l1 as [|x l1 IH]; intros l2 H1 H2 HP.
  { by apply Permutation_nil_l in HP. }
  destruct l2 as [|y l2]; [by apply Permutation_nil_r in HP|].
  apply StronglySorted_inv in H1 as [H1 F1], H2 as [H2 F2].
  assert (x = y) as ->.
  { apply str_leb_antisym.
    - assert (y ∈ x :: l1) as [->|Hy]%elem_of_cons by (rewrite HP; set_solver);
        [apply str_leb_refl|]. by eapply Forall_forall in F1.
    - assert (x ∈ y :: l2) as [->|Hx]%elem_of_cons by (rewrite <- HP; set_solver);
        [apply str_leb_refl|]. by eapply Forall_forall in F2. }
  f_equal. apply IH; [done..|]. by eapply Permutation_cons_inv.
Qed.

Lemma sort_strings_ext l1 l2 :
  NoDup l1 → NoDup l2 → (∀ x, x ∈ l1 ↔ x ∈ l2) → sort_strings l1 = sort_strings l2.
Proof.
  intros. apply sorted_strings_ext; try apply sort_strings_Sorted.
  unfold sort_strings. rewrite !sort_by_Permutation. by apply NoDup_Permutation.
Qed.

(** An instance of the case-mapping interface: ASCII folding. *)
#[export] Program Instance ascii_case_map : CaseMap := {| to_lower := map ascii_lower |}.
Next Obligation. done. Qed.
Next Obligation.
  intros s. rewrite map_map. apply map_ext. intros c. unfold ascii_lower.
  destruct ((65 <=? c) && (c <=? 90)) eqn:E; [|by rewrite E].
  apply andb_true_iff in E as [E1 E2]. rewrite N.leb_le in E1, E2.
  destruct ((65 <=? c + 32) && (c + 32 <=? 90)) eqn:F; [|done].
  apply andb_true_iff in F as [_ F]. rewrite N.leb_le in F. lia.
Qed.

(** ** Tables

    Reading [table[key]] from an object literal also finds what every object
    inherits from [Object.prototype]. *)
Inductive looked (A : Type) := Own (a : A) | Inherited | Missing.
Arguments Own {A} a.
Arguments Inherited {A}.
Arguments Missing {A}.

Definition object_prototype_keys : list jsstr :=
  map js ["constructor"; "__proto__"; "hasOwnProperty"; "isPrototypeOf";
          "propertyIsEnumerable"; "toLocaleString"; "toString"; "valueOf";
          "__defineGetter__"; "__defineSetter__"; "__lookupGetter__";
          "__lookupSetter__"].

Definition table_get {A} (table : list (jsstr * A)) (key : jsstr) : looked A :=
  match find_first (λ kv, str_eqb kv.1 key) table with
  | Some kv => Own kv.2
  | None => if includes key object_prototype_keys then Inherited else Missing
  end.
