(* ===== verification/JsNumber.v ===== *)
(** * JavaScript numbers

    A number is an IEEE-754 binary64 value, modelled by the Standard
    Library's [spec_float] at precision 53 and exponent bound 1024 (there is
    one NaN, as in JavaScript).  The file gives the arithmetic and the
    comparisons, [Number.isFinite]/[isInteger]/[isSafeInteger], [Math.floor]
    and [Math.ceil], [ToInt32]/[ToUint32], the conversion of a string to a
    number ([Number(s)], correctly rounded) and of a number to a string
    ([String(x)], the shortest digits that read back as [x]). *)
From S2P Require Import Prelude JsString.
From Stdlib Require Import SpecFloat.

Open Scope Z_scope.

Abbreviation num := spec_float.

Definition prec : Z := 53.
Definition emax : Z := 1024.

Definition nNaN : num := S754_nan.
Definition nInf : num := S754_infinity false.

(** The number nearest to an integer. *)
Definition of_Z (z : Z) : num := binary_normalize prec emax z 0 false.
Definition of_N (n : N) : num := of_Z (Z.of_N n).
Definition of_nat (n : nat) : num := of_Z (Z.of_nat n).

Definition nadd : num → num → num := SFadd prec emax.
Definition nsub : num → num → num := SFsub prec emax.
Definition nmul : num → num → num := SFmul prec emax.
Definition ndiv : num → num → num := SFdiv prec emax.
Definition nabs : num → num := SFabs.

(** [===], [<], [<=] on numbers: false whenever a NaN is involved, and the
    two zeros are equal. *)
Definition neqb : num → num → bool := SFeqb.
Definition nltb : num → num → bool := SFltb.
Definition nleb : num → num → bool := SFleb.

#[export] Instance num_eq_dec : EqDecision num.
Proof. solve_decision. Defined.

Definition is_nan (x : num) : bool := match x with S754_nan => true | _ => false end.

(** [Boolean(x)]. *)
Definition num_truthy (x : num) : bool :=
  match x with S754_nan | S754_zero _ => false | _ => true end.

(** [x || d]. *)
Definition num_or (x d : num) : num := if num_truthy x then x else d.

Definition is_finite (x : num) : bool :=
  match x with S754_zero _ | S754_finite _ _ _ => true | _ => false end.

(** The integer a number denotes, when it is one. *)
Definition to_Z (x : num) : option Z :=
  match x with
  | S754_zero _ => Some 0
  | S754_finite s m e =>
      let a :=
        if 0 <=? e then Some (Zpos m * 2 ^ e)
        else if Zpos m mod 2 ^ (- e) =? 0 then Some (Zpos m / 2 ^ (- e)) else None in
      (λ z, if s then - z else z) <$> a
  | _ => None
  end.

Definition is_integer (x : num) : bool := is_some (to_Z x).
Definition MAX_SAFE_INTEGER : Z := 2 ^ 53 - 1.
Definition is_safe_integer (x : num) : bool :=
  match to_Z x with Some z => Z.abs z <=? MAX_SAFE_INTEGER | None => false end.

(** The largest integer at most [x], for a finite [x]. *)
Definition floor_Z (x : num) : option Z :=
  match x with
  | S754_zero _ => Some 0
  | S754_finite s m e =>
      let v := if s then Zneg m else Zpos m in
      Some (if 0 <=? e then v * 2 ^ e else v / 2 ^ (- e))
  | _ => None
  end.

(** [Math.floor] and [Math.ceil]; a zero result keeps the sign of the
    argument. *)
Definition nfloor (x : num) : num :=
  match x, floor_Z x with
  | S754_finite s _ _, Some z => if z =? 0 then S754_zero s else of_Z z
  | _, _ => x
  end.
Definition nceil (x : num) : num := SFopp (nfloor (SFopp x)).

(** [Math.max], [Math.min] of two arguments. *)
Definition nmax (x y : num) : num :=
  if is_nan x || is_nan y then nNaN
  else match x, y with
       | S754_zero false, S754_zero _ => x
       | S754_zero _, S754_zero _ => y
       | _, _ => if nltb x y then y else x
       end.
Definition nmin (x y : num) : num := SFopp (nmax (SFopp x) (SFopp y)).

(** [ToInt32] ([x | 0]) and [ToUint32] ([x >>> 0]) of an integer. *)
Definition to_uint32 (z : Z) : Z := z mod 2 ^ 32.
Definition to_int32 (z : Z) : Z :=
  let u := to_uint32 z in if u <? 2 ^ 31 then u else u - 2 ^ 32.

(** ** From strings *)

(** The number nearest to [m * 10 ^ q] for [m > 0] with [d] decimal digits:
    beyond 10^310 it is infinite and below 10^-330 it is zero, in between
    the quotient is rounded once, from the exact integers. *)
Definition dec_num (neg : bool) (m : N) (d : nat) (q : Z) : num :=
  match m with
  | 0%N => S754_zero neg
  | Npos p =>
      if 310 <? Z.of_nat d + q then S754_infinity neg
      else if Z.of_nat d + q <? -330 then S754_zero neg
      else if 0 <=? q then
        match binary_normalize prec emax (Zpos p * 10 ^ q) 0 false with
        | S754_finite _ m e => S754_finite neg m e
        | S754_infinity _ => S754_infinity neg
        | x => x
        end
      else
        let '(mz, ez, lz) := SFdiv_core_binary prec emax (Zpos p) 0 (10 ^ (- q)) 0 in
        binary_round_aux prec emax neg mz ez lz
  end.

(** The longest prefix of digits, and the rest. *)
Fixpoint span_digits (s : jsstr) : jsstr * jsstr :=
  match s with
  | c :: s' =>
      if is_digit c then let '(ds, r) := span_digits s' in (c :: ds, r) else ([], s)
  | [] => ([], [])
  end.

(** An optional sign: whether it is a minus, and the rest. *)
Definition exp_sign (s : jsstr) : bool * jsstr :=
  match s with
  | c :: r =>
      if (c =? 45)%N then (true, r) else if (c =? 43)%N then (false, r) else (false, s)
  | [] => (false, s)
  end.

(** An optional exponent part: the exponent and the rest; an [e] that no
    digit follows is not an exponent part. *)
Definition read_exp (s : jsstr) : Z * jsstr :=
  match s with
  | c :: s1 =>
      if (c =? 101)%N || (c =? 69)%N then
        let '(neg, s2) := exp_sign s1 in
        match span_digits s2 with
        | ([], _) => (0, s)
        | (ds, r) => let e := Z.of_N (digits_value ds) in (if neg then - e else e, r)
        end
      else (0, s)
  | [] => (0, s)
  end.

(** An unsigned decimal literal: digits with an optional point, then an
    optional exponent; at least one digit. *)
Definition read_decimal (neg : bool) (s : jsstr) : option (num * jsstr) :=
  let '(ip, s1) := span_digits s in
  let '(fp, s2) :=
    match s1 with
    | c :: s2 => if (c =? 46)%N then span_digits s2 else ([], s1)
    | [] => ([], s1)
    end in
  match ip ++ fp with
  | [] => None
  | ds =>
      let '(e, s3) := read_exp s2 in
      Some (dec_num neg (digits_value ds) (length (dec (digits_value ds)))
              (e - Z.of_nat (length fp)), s3)
  end.

Definition hex_val (c : N) : option N :=
  if is_digit c then Some (c - 48)%N
  else if ((97 <=? c) && (c <=? 102))%N then Some (c - 87)%N
  else if ((65 <=? c) && (c <=? 70))%N then Some (c - 55)%N
  else None.

(** The value of a non-empty string of digits in the given radix. *)
Definition radix_value (r : N) (s : jsstr) : option N :=
  match s with
  | [] => None
  | _ =>
      fold_left
        (λ a c, v ← a; d ← hex_val c; if (d <? r)%N then Some (v * r + d)%N else None)
        s (Some 0%N)
  end.

Definition radix_num (r : N) (s : jsstr) : num :=
  match radix_value r s with Some n => of_N n | None => nNaN end.

(** [Number(s)]. *)
Definition str_to_num (s : jsstr) : num :=
  let t := trim s in
  let signed neg u :=
    if str_eqb u (js "Infinity") then S754_infinity neg
    else match read_decimal neg u with
         | Some (x, []) => x
         | _ => nNaN
         end in
  match t with
  | [] => S754_zero false
  | 48%N :: c :: u =>
      if ((c =? 120) || (c =? 88))%N then radix_num 16 u
      else if ((c =? 111) || (c =? 79))%N then radix_num 8 u
      else if ((c =? 98) || (c =? 66))%N then radix_num 2 u
      else signed false t
  | 45%N :: u => signed true u
  | 43%N :: u => signed false u
  | _ => signed false t
  end.

(** ** To strings *)

(** [x * 10 ^ k >= 1], [x = m * 2 ^ e]. *)
Definition scaled_ge1 (m e k : Z) : bool :=
  (2 ^ Z.max 0 (- e) * 10 ^ Z.max 0 (- k) <=? m * 2 ^ Z.max 0 e * 10 ^ Z.max 0 k).

(** Number of decimal digits before the point: the [n] with
    [10 ^ (n-1) <= m * 2 ^ e < 10 ^ n]. *)
Fixpoint dec_exponent (fuel : nat) (m e n : Z) : Z :=
  match fuel with
  | O => n
  | S fuel => if scaled_ge1 m e (1 - n) then n else dec_exponent fuel m e (n - 1)
  end.

(** [floor (m * 2 ^ e * 10 ^ k)] and whether the next integer is nearer
    (the even one of the two on a tie). *)
Definition scaled_floor (m e k : Z) : Z * bool :=
  let a := m * 2 ^ Z.max 0 e * 10 ^ Z.max 0 k in
  let b := 2 ^ Z.max 0 (- e) * 10 ^ Z.max 0 (- k) in
  (a / b, (b <? 2 * (a mod b)) || ((b =? 2 * (a mod b)) && Z.odd (a / b))).

(** The shortest decimal [s * 10 ^ (n - k)] that rounds to [x]; 17 digits
    always identify a binary64 value. *)
Fixpoint shortest (fuel : nat) (k : Z) (m e n : Z) : N * Z :=
  let '(lo, up) := scaled_floor m e (k - n) in
  let ok s :=
    bool_decide (dec_num false (Z.to_N s) (length (dec (Z.to_N s))) (n - k)
                 = S754_finite false (Z.to_pos m) e) in
  let pick := if up then [lo + 1; lo] else [lo; lo + 1] in
  match find_first ok (filterb (λ s, 0 <? s) pick), fuel with
  | Some s, _ => (Z.to_N s, n - k)
  | None, O => (Z.to_N (if up then lo + 1 else lo), n - k)
  | None, S fuel => shortest fuel (k + 1) m e n
  end.

Fixpoint strip_zeros (s : jsstr) : jsstr * nat :=
  match s with
  | [] => ([], O)
  | c :: s =>
      match strip_zeros s with
      | ([], z) => if (c =? 48)%N then ([], S z) else ([c], z)
      | (s', z) => (c :: s', z)
      end
  end.

(** Layout of the digits [ds] with the decimal exponent [n]. *)
Definition layout (ds : jsstr) (n : Z) : jsstr :=
  let k := Z.of_nat (length ds) in
  if (k <=? n) && (n <=? 21) then ds ++ replicate (Z.to_nat (n - k)) 48%N
  else if (0 <? n) && (n <=? 21) then take (Z.to_nat n) ds ++ js "." ++ drop (Z.to_nat n) ds
  else if (-6 <? n) && (n <=? 0) then js "0." ++ replicate (Z.to_nat (- n)) 48%N ++ ds
  else
    let ex := (if 0 <=? n - 1 then js "+" else js "-") ++ dec (Z.to_N (Z.abs (n - 1))) in
    match ds with
    | [d] => d :: js "e" ++ ex
    | d :: ds => d :: js "." ++ ds ++ js "e" ++ ex
    | [] => []
    end.

(** [String(x)]. *)
Definition num_to_str (x : num) : jsstr :=
  match x with
  | S754_nan => js "NaN"
  | S754_zero _ => js "0"
  | S754_infinity s => if s then js "-Infinity" else js "Infinity"
  | S754_finite s m e =>
      let n0 := (Z.log2 (Zpos m) + 1 + e) * 30103 / 100000 + 2 in
      let n := dec_exponent 10 (Zpos m) e n0 in
      let '(d, q) := shortest 17 1 (Zpos m) e n in
      let '(ds, z) := strip_zeros (dec d) in
      (if s then js "-" else []) ++ layout ds (q + Z.of_nat z + Z.of_nat (length ds))
  end.

(** ** The order

    The numbers other than NaN are ordered as triples: class, exponent and
    significand (the significands of [spec_float] are compared after the
    exponents). *)

Definition rank (x : num) : option (Z * Z * Z) :=
  match x with
  | S754_nan => None
  | S754_infinity false => Some (2, 0, 0)
  | S754_finite false m e => Some (1, e, Zpos m)
  | S754_zero _ => Some (0, 0, 0)
  | S754_finite true m e => Some (-1, - e, - Zpos m)
  | S754_infinity true => Some (-2, 0, 0)
  end.

Definition rank_lt (a b : Z * Z * Z) : Prop :=
  a.1.1 < b.1.1 ∨ (a.1.1 = b.1.1 ∧ (a.1.2 < b.1.2 ∨ (a.1.2 = b.1.2 ∧ a.2 < b.2))).

Lemma nltb_rank x y :
  nltb x y = true ↔ ∃ a b, rank x = Some a ∧ rank y = Some b ∧ rank_lt a b.
Proof.
  unfold nltb, SFltb, rank_lt.
  destruct x as [s1|s1| |s1 m1 e1], y as [s2|s2| |s2 m2 e2]; try destruct s1; try destruct s2; cbn;
    try (split; [done|]; intros (a & b & [= <-] & [= <-] & H); cbn in H; lia);
    try (split; [intros _; eexists _, _; split; [reflexivity|split; [reflexivity|]]; cbn; lia|done]);
    try (split; [done|by intros (a & b & ? & ? & _)]).
  - fold (Pos.compare m1 m2). destruct (Z.compare_spec e1 e2), (Pos.compare_spec m1 m2); cbn;
      (split; [intros E; first [done|eexists _, _; split; [reflexivity|split; [reflexivity|]]; cbn; lia]
              |intros (a & b & [= <-] & [= <-] & H'); cbn in H'; try done; lia]).
  - fold (Pos.compare m1 m2). destruct (Z.compare_spec e1 e2), (Pos.compare_spec m1 m2); cbn;
      (split; [intros E; first [done|eexists _, _; split; [reflexivity|split; [reflexivity|]]; cbn; lia]
              |intros (a & b & [= <-] & [= <-] & H'); cbn in H'; try done; lia]).
Qed.

Lemma nltb_irrefl x : nltb x x = false.
Proof.
  apply not_true_iff_false. rewrite nltb_rank. intros (a & b & Ea & Eb & H). simplify_eq. unfold rank_lt in H. lia.
Qed.

Lemma nltb_trans x y z : nltb x y = true → nltb y z = true → nltb x z = true.
Proof.
  rewrite !nltb_rank. intros (a & b & Ea & Eb & H1) (b' & c & Eb' & Ec & H2). simplify_eq.
  exists a, c. split; [done|]. split; [done|]. unfold rank_lt in *. lia.
Qed.

Lemma nltb_asym x y : nltb x y = true → nltb y x = false.
Proof.
  intros H. apply not_true_iff_false. intros H'. pose proof (nltb_trans _ _ _ H H') as E. by rewrite nltb_irrefl in E.
Qed.

(** [x] is not greater than [y], both not NaN. *)
Lemma not_lt_trans x y z : is_nan y = false → nltb y x = false → nltb z y = false → nltb z x = false.
Proof.
  intros Hy H1 H2. apply not_true_iff_false. intros H3.
  apply not_true_iff_false in H1. apply not_true_iff_false in H2. rewrite nltb_rank in *.
  destruct H3 as (c & a & Ec & Ea & H3).
  assert (∃ b, rank y = Some b) as [b Eb] by (destruct y as [| | |[]]; try done; try destruct s; by eexists).
  assert (¬ rank_lt b a) as Hba by (intros ?; apply H1; by exists b, a).
  assert (¬ rank_lt c b) as Hcb by (intros ?; apply H2; by exists c, b).
  unfold rank_lt in *. lia.
Qed.

(** ** Evaluations *)

Example num_int : num_to_str (of_Z 4096) = js "4096". Proof. vm_compute. reflexivity. Qed.
Example num_frac : num_to_str (str_to_num (js "0.7")) = js "0.7". Proof. vm_compute. reflexivity. Qed.
Example num_neg : num_to_str (str_to_num (js " -12.50e1 ")) = js "-125". Proof. vm_compute. reflexivity. Qed.
Example num_small : num_to_str (str_to_num (js "1.5e-7")) = js "1.5e-7". Proof. vm_compute. reflexivity. Qed.
Example num_big : num_to_str (str_to_num (js "123456789012345680000000")) = js "1.2345678901234569e+23".
Proof. vm_compute. reflexivity. Qed.
Example num_third : num_to_str (ndiv (of_Z 1) (of_Z 3)) = js "0.3333333333333333".
Proof. vm_compute. reflexivity. Qed.
Example num_sum : num_to_str (nadd (str_to_num (js "0.1")) (str_to_num (js "0.2"))) = js "0.30000000000000004".
Proof. vm_compute. reflexivity. Qed.
Example num_hex : str_to_num (js "0xff") = of_Z 255. Proof. vm_compute. reflexivity. Qed.
Example num_bad : str_to_num (js "12px") = nNaN. Proof. vm_compute. reflexivity. Qed.
Example num_denorm : num_to_str (str_to_num (js "5e-324")) = js "5e-324". Proof. vm_compute. reflexivity. Qed.
Example num_max : num_to_str (str_to_num (js "1.7976931348623157e308")) = js "1.7976931348623157e+308". Proof. vm_compute. reflexivity. Qed.
Example num_tie : num_to_str (str_to_num (js "-585880217990699.2")) = js "-585880217990699.2". Proof. vm_compute. reflexivity. Qed.
Example num_23 : num_to_str (str_to_num (js "9.5e22")) = js "9.5e+22". Proof. vm_compute. reflexivity. Qed.
