(* ===== verification/Regex.v ===== *)
(** * Regular expressions

    The regular expressions of the sources as data, with the backtracking
    matcher of ECMAScript: alternatives from left to right, repetition as
    long as possible first or, when it is lazy, as short as possible first,
    captures and back references.  The matcher passes
    a continuation for what follows; [p] is the character before the current
    position, [s] the rest of the text and [g] the captures so far. *)
From S2P Require Import Prelude JsString.

Open Scope N_scope.

Inductive re :=
  | RChr (f : N → bool)
  | RLit (l : jsstr)
  | RSeq (a b : re)
  | RAlt (a b : re)
  | RStar (a : re)
  | RLazy (a : re)
  | RGrp (n : nat) (a : re)
  | RBack (n : nat)
  | REnd
  | RWord.

Definition RPlus (a : re) : re := RSeq a (RStar a).
Definition ROpt (a : re) : re := RAlt a (RLit []).

Fixpoint rseq (l : list re) : re :=
  match l with [] => RLit [] | [r] => r | r :: l => RSeq r (rseq l) end.
Fixpoint ralt (r : re) (l : list re) : re :=
  match l with [] => r | r' :: l => RAlt r (ralt r' l) end.

(** Captured texts by number, the latest first. *)
Abbreviation caps := (list (nat * jsstr)).

Definition cap (n : nat) (g : caps) : option jsstr :=
  snd <$> find_first (λ e, (e.1 =? n)%nat) g.

(** The character before the position after [l]. *)
Definition lastc (p : option N) (l : jsstr) : option N :=
  match last l with Some c => Some c | None => p end.

(** [\w]. *)
Definition is_word (c : N) : bool :=
  is_digit c || ((65 <=? c) && (c <=? 90)) || ((97 <=? c) && (c <=? 122)) || (c =? 95).
Definition word_at (o : option N) : bool := match o with Some c => is_word c | None => false end.

Section Run.
Context {X : Type}.

Definition cont : Type := option N → jsstr → caps → option X.

Definition run_lit (l : jsstr) (p : option N) (s : jsstr) (g : caps) (k : cont) : option X :=
  if starts_with l s then k (lastc p l) (drop (length l) s) g else None.

(** Repetition of [body], at most [n] times, longest first; a round that
    consumes nothing is no match. *)
Fixpoint star (body : option N → jsstr → caps → cont → option X) (k : cont) (n : nat)
    (p : option N) (s : jsstr) (g : caps) : option X :=
  match n with
  | O => k p s g
  | S n =>
      match body p s g (λ p' s' g',
              if (length s' <? length s)%nat then star body k n p' s' g' else None) with
      | Some x => Some x
      | None => k p s g
      end
  end.

(** The same repetition, shortest first. *)
Fixpoint star_lazy (body : option N → jsstr → caps → cont → option X) (k : cont) (n : nat)
    (p : option N) (s : jsstr) (g : caps) : option X :=
  match k p s g, n with
  | Some x, _ => Some x
  | None, O => None
  | None, S n =>
      body p s g (λ p' s' g',
        if (length s' <? length s)%nat then star_lazy body k n p' s' g' else None)
  end.

Fixpoint run (r : re) (p : option N) (s : jsstr) (g : caps) (k : cont) : option X :=
  match r with
  | RChr f => match s with c :: s' => if f c then k (Some c) s' g else None | [] => None end
  | RLit l => run_lit l p s g k
  | RSeq a b => run a p s g (λ p' s' g', run b p' s' g' k)
  | RAlt a b => match run a p s g k with Some x => Some x | None => run b p s g k end
  | RStar a => star (run a) k (length s) p s g
  | RLazy a => star_lazy (run a) k (length s) p s g
  | RGrp n a => run a p s g (λ p' s' g', k p' s' ((n, take (length s - length s')%nat s) :: g'))
  | RBack n => match cap n g with Some t => run_lit t p s g k | None => k p s g end
  | REnd => match s with [] => k p s g | _ :: _ => None end
  | RWord => if xorb (word_at p) (word_at (head s)) then k p s g else None
  end.

End Run.
Arguments cont : clear implicits.

(** [text.match(r)] for a pattern that starts with [^]. *)
Definition rx_match (r : re) (s : jsstr) : option caps := run r None s [] (λ _ _ g, Some g).
Definition rx_test (r : re) (s : jsstr) : bool := is_some (rx_match r s).

(** The leftmost match at or after the current position: the captures, the
    text before the match, and the position after it. *)
Fixpoint rx_find (r : re) (p : option N) (s : jsstr) : option (caps * jsstr * option N * jsstr) :=
  match run r p s [] (λ p' s' g, Some (g, [], p', s')) with
  | Some m => Some m
  | None =>
      match s with
      | [] => None
      | c :: s =>
          match rx_find r (Some c) s with
          | Some (g, pre, p', s') => Some (g, c :: pre, p', s')
          | None => None
          end
      end
  end.

(** The matches of a loop [while ((m = r.exec(text)) !== null)] with the [g]
    flag; every match of the patterns it is used with consumes something. *)
Fixpoint rx_all (fuel : nat) (r : re) (p : option N) (s : jsstr) : exc (list caps) :=
  match fuel with
  | O => Fuel
  | S fuel =>
      match rx_find r p s with
      | None => Ok []
      | Some (g, _, p', s') => gs ← rx_all fuel r p' s'; Ok (g :: gs)
      end
  end.
Definition rx_matches (r : re) (s : jsstr) : exc (list caps) := rx_all (S (length s)) r None s.

(** [text.split(r)], and [text.replace(r, t)] with the [g] flag. *)
Fixpoint rx_pieces (fuel : nat) (r : re) (p : option N) (s : jsstr) : exc (list jsstr) :=
  match fuel with
  | O => Fuel
  | S fuel =>
      match rx_find r p s with
      | None => Ok [s]
      | Some (_, pre, p', s') => l ← rx_pieces fuel r p' s'; Ok (pre :: l)
      end
  end.
Definition rx_split (r : re) (s : jsstr) : exc (list jsstr) := rx_pieces (S (length s)) r None s.
Definition rx_replace (r : re) (t s : jsstr) : exc jsstr := l ← rx_split r s; Ok (join t l).

(** ** Facts *)

Section Facts.
Context {X : Type}.
Implicit Types (k : cont X) (p : option N) (s x : jsstr) (g : caps).

(** The matcher depends on its continuation only at the positions it tries,
    which are suffixes of the text. *)
Lemma run_ext r p s g k k' :
  (∀ p' s' g', (length s' ≤ length s)%nat → k p' s' g' = k' p' s' g') →
  run r p s g k = run r p s g k'.
Proof.
  revert p s g k k'. induction r as [f|l|a IHa b IHb|a IHa b IHb|a IH|a IH|n a IH|n| |];
    intros p s g k k' Hk; simpl.
  - destruct s as [|c s]; [done|]. destruct (f c); [|done]. apply Hk. simpl. lia.
  - unfold run_lit. destruct (starts_with l s); [|done]. apply Hk. rewrite length_drop. lia.
  - apply IHa. intros p' s' g' Hs. apply IHb. intros. apply Hk. lia.
  - rewrite (IHa p s g k k'), (IHb p s g k k') by done. done.
  - assert (∀ n p' s' g', (length s' ≤ length s)%nat →
      star (run a) k n p' s' g' = star (run a) k' n p' s' g') as Hs; [|by apply Hs].
    intros n. induction n as [|n IHn]; intros p' s' g' Hs; simpl; [by apply Hk|].
    rewrite (IH p' s' g' _ (λ p'' s'' g'',
      if (length s'' <? length s')%nat then star (run a) k' n p'' s'' g'' else None)).
    + destruct (run a p' s' g' _); [done|]. by apply Hk.
    + intros p'' s'' g'' Hs'. destruct (_ <? _)%nat; [|done]. apply IHn. lia.
  - assert (∀ n p' s' g', (length s' ≤ length s)%nat →
      star_lazy (run a) k n p' s' g' = star_lazy (run a) k' n p' s' g') as Hs; [|by apply Hs].
    intros n. induction n as [|n IHn]; intros p' s' g' Hs; simpl; (rewrite Hk by done); [done|].
    destruct (k' p' s' g'); [done|]. apply IH. intros p'' s'' g'' Hs'.
    destruct (_ <? _)%nat; [|done]. apply IHn. lia.
  - apply IH. intros. by apply Hk.
  - destruct (cap n g); [|by apply Hk]. unfold run_lit. destruct (starts_with _ s); [|done].
    apply Hk. rewrite length_drop. lia.
  - destruct s; [|done]. by apply Hk.
  - destruct (xorb _ _); [|done]. by apply Hk.
Qed.

Lemma run_none r p s g k : (∀ p' s' g', k p' s' g' = None) → run r p s g k = None.
Proof.
  revert p s g k. induction r as [f|l|a IHa b IHb|a IHa b IHb|a IH|a IH|n a IH|n| |];
    intros p s g k Hk; simpl.
  - destruct s as [|c s]; [done|]. by destruct (f c).
  - unfold run_lit. by destruct (starts_with l s).
  - apply IHa. intros. by apply IHb.
  - rewrite IHa by done. by apply IHb.
  - assert (∀ n p s g, star (run a) k n p s g = None) as Hs; [|apply Hs]. clear p s g.
    intros n. induction n as [|n IHn]; intros p s g; simpl; [done|].
    rewrite IH; [done|]. intros. destruct (_ <? _)%nat; [apply IHn|done].
  - assert (∀ n p s g, star_lazy (run a) k n p s g = None) as Hs; [|apply Hs]. clear p s g.
    intros n. induction n as [|n IHn]; intros p s g; simpl; rewrite Hk; [done|].
    apply IH. intros. destruct (_ <? _)%nat; [apply IHn|done].
  - apply IH. intros. apply Hk.
  - destruct (cap n g); [|done]. unfold run_lit. by destruct (starts_with _ s).
  - by destruct s.
  - by destruct (xorb _ _).
Qed.

(** The bound of a repetition beyond the length of the text is irrelevant. *)
Lemma star_bound a k n p s g :
  (length s ≤ n)%nat → star (run a) k n p s g = star (run a) k (length s) p s g.
Proof.
  revert p s g. induction n as [|n IH]; intros p s g Hn; [by destruct s; [|simpl in Hn; lia]|].
  destruct (length s) as [|m] eqn:El; simpl.
  - rewrite run_none; [done|]. intros. by rewrite El.
  - erewrite run_ext; [reflexivity|]. intros p' s' g' _. cbv beta. rewrite El.
    destruct (length s' <? S m)%nat eqn:E; [|done]. bool_to_prop.
    rewrite IH by lia. symmetry. clear IH.
    assert (∀ m1 m2 p s g, (length s ≤ m1)%nat → (length s ≤ m2)%nat →
      star (run a) k m1 p s g = star (run a) k m2 p s g) as Hb; [|apply Hb; lia].
    clear. intros m1. induction m1 as [|m1 IH]; intros [|m2] p s g H1 H2; [done| | |].
    + destruct s; [|simpl in H1; lia]. simpl. rewrite run_none; done.
    + destruct s; [|simpl in H2; lia]. simpl. rewrite run_none; done.
    + simpl. erewrite run_ext; [reflexivity|]. intros p' s' g' _. cbv beta.
      destruct (_ <? _)%nat eqn:E; [|done]. bool_to_prop. apply IH; lia.
Qed.

(** One round of a repetition. *)
Lemma run_star a p s g k :
  run (RStar a) p s g k =
  match run a p s g (λ p' s' g', if (length s' <? length s)%nat then run (RStar a) p' s' g' k
                                 else None) with
  | Some x => Some x
  | None => k p s g
  end.
Proof.
  simpl. destruct (length s) as [|n] eqn:El; simpl.
  - rewrite run_none; done.
  - erewrite run_ext; [reflexivity|]. intros p' s' g' _. cbv beta. rewrite El.
    destruct (length s' <? S n)%nat eqn:E; [|done]. bool_to_prop. apply star_bound. lia.
Qed.

(** *** Literals *)

Lemma drop_app_length' l s : drop (length l) (l ++ s) = s.
Proof. by rewrite drop_app_length. Qed.

Lemma run_lit_app l p s g k : run (RLit l) p (l ++ s) g k = k (lastc p l) s g.
Proof. simpl. unfold run_lit. by rewrite starts_with_app, drop_app_length. Qed.

Lemma run_lit_fail l p s g k : starts_with l s = false → run (RLit l) p s g k = None.
Proof. simpl. unfold run_lit. by intros ->. Qed.

Lemma lastc_app p l s : lastc (lastc p l) s = lastc p (l ++ s).
Proof.
  unfold lastc. rewrite last_app. by destruct (last s), (last l).
Qed.

Lemma lastc_cons p c s : lastc p (c :: s) = lastc (Some c) s.
Proof. symmetry. apply (lastc_app p [c] s). Qed.

(** *** Repetition of one character *)

(** [a] matches exactly one character of the class [f]. *)
Definition one_of (a : re) (f : N → bool) : Prop :=
  ∀ c p s g k, run a p (c :: s) g k = if f c then k (Some c) s g else None.
Definition not_at_end (a : re) : Prop := ∀ p g k, run a p [] g k = None.

Lemma one_of_chr f : one_of (RChr f) f.
Proof. done. Qed.

Lemma run_seq a b p s g k :
  run (RSeq a b) p s g k = run a p s g (λ p' s' g', run b p' s' g' k).
Proof. done. Qed.

Lemma run_grp n a p s g k :
  run (RGrp n a) p s g k
  = run a p s g (λ p' s' g', k p' s' ((n, take (length s - length s')%nat s) :: g')).
Proof. done. Qed.

Lemma run_alt a b p s g k :
  run (RAlt a b) p s g k = match run a p s g k with Some x => Some x | None => run b p s g k end.
Proof. done. Qed.

Lemma run_end p g k : run REnd p [] g k = k p [] g.
Proof. done. Qed.

Lemma run_back n t p s g k :
  cap n g = Some t → run (RBack n) p (t ++ s) g k = k (lastc p t) s g.
Proof. intros E. simpl. rewrite E. apply run_lit_app. Qed.

Lemma run_chr_cons f c p s g k :
  run (RChr f) p (c :: s) g k = if f c then k (Some c) s g else None.
Proof. done. Qed.

Lemma run_chr_nil f p g k : run (RChr f) p [] g k = None.
Proof. done. Qed.

Lemma tail_shorter c s : (length s <? length (c :: s))%nat = true.
Proof. apply Nat.ltb_lt. simpl. lia. Qed.

(** A repetition takes all of [x] if nothing that starts inside [x] lets the
    continuation succeed. *)
Lemma star_run a x p s g k :
  (∀ c p' s' k', c ∈ x → run a p' (c :: s') g k' = k' (Some c) s' g) →
  (∀ p' k', run a p' s g k' = None) →
  (∀ p' y z, x = y ++ z → z ≠ [] → k p' (z ++ s) g = None) →
  run (RStar a) p (x ++ s) g k = k (lastc p x) s g.
Proof.
  intros Ha He Hk. revert p. induction x as [|c x IH]; intros p; simpl app.
  - by rewrite run_star, He.
  - rewrite run_star, Ha, (tail_shorter c) by apply list_elem_of_here.
    rewrite IH.
    + pose proof (Hk p [] (c :: x) eq_refl ltac:(done)) as H0. cbn [app] in H0. rewrite H0.
      rewrite lastc_cons. by destruct (k (lastc (Some c) x) s g).
    + intros d p' s' k' Hd. by apply Ha, list_elem_of_further.
    + intros p' y z -> Hz. by apply (Hk p' (c :: y) z).
Qed.

Lemma star_all a f x p s g k :
  one_of a f → not_at_end a → Forall (λ c, f c = true) x → (∀ c, head s = Some c → f c = false) →
  (∀ p' y z, x = y ++ z → z ≠ [] → k p' (z ++ s) g = None) →
  run (RStar a) p (x ++ s) g k = k (lastc p x) s g.
Proof.
  intros Ha He Hx Hs Hk. apply star_run; [|intros p' k'|done].
  - intros c p' s' k' Hc. rewrite Forall_forall in Hx. by rewrite Ha, Hx.
  - destruct s as [|c s]; [apply He|]. by rewrite Ha, Hs.
Qed.

(** The repetition ends before the last place where the continuation can
    succeed, for a class that matches every character. *)
Lemma star_any x p s g k r :
  (∀ p' y z, s = y ++ z → y ≠ [] → k p' z g = None) →
  (∀ p', k p' s g = Some r) →
  run (RStar (RChr (λ _, true))) p (x ++ s) g k = Some r.
Proof.
  intros Hk Hs. revert p. induction x as [|c x IH]; intros p; simpl app.
  - assert (∀ z p', (∃ y, s = y ++ z ∧ y ≠ []) →
      run (RStar (RChr (λ _, true))) p' z g k = None) as Hz.
    { intros z. induction z as [|c z IHz]; intros p' (y & E & Hy); rewrite run_star.
      - rewrite run_chr_nil. by apply (Hk p' y []).
      - rewrite run_chr_cons, tail_shorter, IHz; [by apply (Hk p' y (c :: z))|].
        exists (y ++ [c]). rewrite <- app_assoc. split; [done|by destruct y]. }
    rewrite run_star. destruct s as [|c s]; [rewrite run_chr_nil; apply Hs|].
    rewrite run_chr_cons, tail_shorter, Hz by (exists [c]; done). apply Hs.
  - by rewrite run_star, run_chr_cons, tail_shorter, IH.
Qed.

(** *** Captured runs of characters *)

Lemma plus_all f x p s g k :
  x ≠ [] → Forall (λ c, f c = true) x → (∀ c, head s = Some c → f c = false) →
  (∀ p' y z, x = y ++ z → y ≠ [] → z ≠ [] → k p' (z ++ s) g = None) →
  run (RPlus (RChr f)) p (x ++ s) g k = k (lastc p x) s g.
Proof.
  intros Hne Hx Hs Hk. destruct x as [|c x]; [done|]. apply Forall_cons in Hx as [Hc Hx].
  unfold RPlus. cbn [app]. rewrite run_seq, run_chr_cons, Hc.
  rewrite (star_all _ f); [|done|done|done|done|].
  - by rewrite lastc_cons.
  - intros p' y z -> Hz. by apply (Hk p' (c :: y) z).
Qed.

(** [s] does not start with a character of [f]. *)
Definition outside (f : N → bool) (s : jsstr) : bool :=
  match s with c :: _ => negb (f c) | [] => true end.

Lemma outside_head f s c : outside f s = true → head s = Some c → f c = false.
Proof. destruct s; simpl; [done|]. intros H [= <-]. by apply negb_true_iff. Qed.

(** A captured run followed by a literal that cannot start inside it. *)
Lemma grp_lit n f x l r p s g k :
  x ≠ [] → Forall (λ c, f c = true) x → truthy l && outside f l = true → outside f s = true →
  run (RSeq (RGrp n (RPlus (RChr f))) (RSeq (RLit l) r)) p (x ++ s) g k
  = run (RSeq (RLit l) r) (lastc p x) s ((n, x) :: g) k.
Proof.
  intros Hne Hx Hl Hs. apply andb_true_iff in Hl as [Hl Hd]. destruct l as [|d l]; [done|].
  apply negb_true_iff in Hd.
  rewrite run_seq, run_grp, plus_all; [|done|done|intros c; by apply outside_head|].
  - rewrite length_app, Nat.add_sub, take_app_length. done.
  - intros p' y z -> _ Hz. destruct z as [|c z]; [done|].
    apply Forall_app in Hx as [_ Hx]. apply Forall_cons in Hx as [Hc _].
    rewrite run_seq. apply run_lit_fail. simpl. destruct (d =? c) eqn:E; [|done]. bool_to_prop.
    congruence.
Qed.

(** A captured run up to the end. *)
Lemma grp_end n f x p g k :
  x ≠ [] → Forall (λ c, f c = true) x →
  run (RSeq (RGrp n (RPlus (RChr f))) REnd) p x g k = k (lastc p x) [] ((n, x) :: g).
Proof.
  intros Hne Hx. rewrite <- (app_nil_r x) at 1. rewrite run_seq, run_grp, plus_all; [|done|done|done|].
  - simpl. rewrite app_nil_r, Nat.sub_0_r, take_ge by lia. done.
  - intros p' y z -> _ Hz. by destruct z.
Qed.

End Facts.

(** *** What a match consists of *)

(** Every character that [r] can match satisfies [P]. *)
Fixpoint re_all (P : N → Prop) (r : re) : Prop :=
  match r with
  | RChr f => ∀ c, f c = true → P c
  | RLit l => Forall P l
  | RSeq a b | RAlt a b => re_all P a ∧ re_all P b
  | RStar a | RLazy a | RGrp _ a => re_all P a
  | RBack _ => False
  | REnd | RWord => True
  end.

Lemma run_consumes {X} P r p s g (k : cont X) v :
  re_all P r → run r p s g k = Some v →
  ∃ x s' p' g', s = x ++ s' ∧ Forall P x ∧ k p' s' g' = Some v.
Proof.
  revert p s g k v. induction r as [f|l|a IHa b IHb|a IHa b IHb|a IH|a IH|n a IH|n| |];
    intros p s g k v; cbn [re_all run].
  - intros Hf. destruct s as [|c s]; [done|]. destruct (f c) eqn:E; [|done]. intros Hk.
    exists [c], s. do 2 eexists. split; [done|]. split; [|exact Hk]. repeat constructor. by apply Hf.
  - intros Hl. unfold run_lit. destruct (starts_with l s) eqn:E; [|done]. intros Hk.
    apply starts_with_spec in E as [t ->]. rewrite drop_app_length in Hk. by exists l, t; eauto.
  - intros [Ha Hb] H. apply IHa in H as (x & s1 & p1 & g1 & -> & Hx & H); [|done].
    apply IHb in H as (y & s2 & p2 & g2 & -> & Hy & H); [|done].
    exists (x ++ y), s2. rewrite app_assoc. do 2 eexists. split; [done|].
    split; [by apply Forall_app|exact H].
  - intros [Ha Hb]. destruct (run a p s g k) as [w|] eqn:E.
    + intros [= <-]. by eapply IHa.
    + by apply IHb.
  - intros Ha. generalize (length s) as n. intros n. revert p s g. induction n as [|n IHn];
      intros p s g; simpl.
    + intros Hk. exists [], s. eauto.
    + destruct (run a p s g _) as [w|] eqn:E.
      * intros [= <-]. apply IH in E as (x & s1 & p1 & g1 & -> & Hx & H); [|done].
        destruct (_ <? _)%nat; [|done]. apply IHn in H as (y & s2 & p2 & g2 & -> & Hy & H).
        exists (x ++ y), s2. rewrite app_assoc. do 2 eexists. split; [done|].
        split; [by apply Forall_app|exact H].
      * intros Hk. exists [], s. eauto.
  - intros Ha. generalize (length s) as n. intros n. revert p s g. induction n as [|n IHn];
      intros p s g; simpl; destruct (k p s g) as [w|] eqn:Ek.
    + intros [= <-]. exists [], s. eauto.
    + done.
    + intros [= <-]. exists [], s. eauto.
    + intros E. apply IH in E as (x & s1 & p1 & g1 & -> & Hx & H); [|done].
      destruct (_ <? _)%nat; [|done]. apply IHn in H as (y & s2 & p2 & g2 & -> & Hy & H).
      exists (x ++ y), s2. rewrite app_assoc. do 2 eexists. split; [done|].
      split; [by apply Forall_app|exact H].
  - intros Ha H. apply IH in H as (x & s1 & p1 & g1 & -> & Hx & H); [|done]. eauto 10.
  - done.
  - intros _. destruct s; [|done]. intros Hk. exists [], []. eauto.
  - intros _. destruct (xorb _ _); [|done]. intros Hk. exists [], s. eauto.
Qed.

(** *** The language of a pattern *)

Inductive repeated (L : jsstr → Prop) : jsstr → Prop :=
  | repeated_nil : repeated L []
  | repeated_app x y : L x → repeated L y → repeated L (x ++ y).

(** The texts that [r] can match, without what the anchors and the back
    references say about the surroundings. *)
Fixpoint lang (r : re) (x : jsstr) : Prop :=
  match r with
  | RChr f => ∃ c, x = [c] ∧ f c = true
  | RLit l => x = l
  | RSeq a b => ∃ y z, x = y ++ z ∧ lang a y ∧ lang b z
  | RAlt a b => lang a x ∨ lang b x
  | RStar a | RLazy a => repeated (lang a) x
  | RGrp _ a => lang a x
  | RBack _ => True
  | REnd | RWord => x = []
  end.

Lemma run_lang {X} r p s g (k : cont X) v :
  run r p s g k = Some v → ∃ x s' p' g', s = x ++ s' ∧ lang r x ∧ k p' s' g' = Some v.
Proof.
  revert p s g k v. induction r as [f|l|a IHa b IHb|a IHa b IHb|a IH|a IH|n a IH|n| |];
    intros p s g k v; cbn [run lang].
  - destruct s as [|c s]; [done|]. destruct (f c) eqn:E; [|done]. intros Hk. exists [c], s. eauto 10.
  - unfold run_lit. destruct (starts_with l s) eqn:E; [|done]. intros Hk.
    apply starts_with_spec in E as [t ->]. rewrite drop_app_length in Hk. by exists l, t; eauto.
  - intros H. apply IHa in H as (x & s1 & p1 & g1 & -> & Hx & H).
    apply IHb in H as (y & s2 & p2 & g2 & -> & Hy & H).
    exists (x ++ y), s2. rewrite app_assoc. eauto 10.
  - destruct (run a p s g k) as [w|] eqn:E; intros Hv.
    + injection Hv as ->. apply IHa in E as (x & s' & p' & g' & ? & ? & ?). eauto 10.
    + apply IHb in Hv as (x & s' & p' & g' & ? & ? & ?). eauto 10.
  - generalize (length s) as n. intros n. revert p s g. induction n as [|n IHn]; intros p s g; simpl.
    + intros Hk. exists [], s. eauto using repeated_nil.
    + destruct (run a p s g _) as [w|] eqn:E; intros Hv.
      * injection Hv as ->. apply IH in E as (x & s1 & p1 & g1 & -> & Hx & H).
        destruct (_ <? _)%nat; [|done]. apply IHn in H as (y & s2 & p2 & g2 & -> & Hy & H).
        exists (x ++ y), s2. rewrite app_assoc. eauto 10 using repeated_app.
      * exists [], s. eauto using repeated_nil.
  - generalize (length s) as n. intros n. revert p s g. induction n as [|n IHn]; intros p s g; simpl;
      destruct (k p s g) as [w|] eqn:Ek.
    + intros [= <-]. exists [], s. eauto using repeated_nil.
    + done.
    + intros [= <-]. exists [], s. eauto using repeated_nil.
    + intros E. apply IH in E as (x & s1 & p1 & g1 & -> & Hx & H).
      destruct (_ <? _)%nat; [|done]. apply IHn in H as (y & s2 & p2 & g2 & -> & Hy & H).
      exists (x ++ y), s2. rewrite app_assoc. eauto 10 using repeated_app.
  - intros H. apply IH in H as (x & s1 & p1 & g1 & -> & Hx & H). eauto 10.
  - destruct (cap n g) as [t|]; [|intros Hk; exists [], s; eauto].
    unfold run_lit. destruct (starts_with t s) eqn:E; [|done]. intros Hk.
    apply starts_with_spec in E as [u ->]. rewrite drop_app_length in Hk. by exists t, u; eauto.
  - destruct s; [|done]. intros Hk. exists [], []. eauto.
  - destruct (xorb _ _); [|done]. intros Hk. exists [], s. eauto.
Qed.

Lemma lang_star_all (P : N → Prop) f x :
  (∀ c, f c = true → P c) → lang (RStar (RChr f)) x → Forall P x.
Proof.
  intros Hf H. induction H as [|y z (c & -> & Hc) Hz IH]; [done|]. constructor; [by apply Hf|done].
Qed.

(** *** Searching *)

(** A result that is mapped at the end. *)
Lemma run_fmap {X Y} (f : X → Y) r p s g (k : cont X) :
  run r p s g (λ p' s' g', f <$> k p' s' g') = f <$> run r p s g k.
Proof.
  revert p s g k. induction r as [h|l|a IHa b IHb|a IHa b IHb|a IH|a IH|n a IH|n| |];
    intros p s g k; cbn [run].
  - destruct s as [|c s]; [done|]. by destruct (h c).
  - unfold run_lit. by destruct (starts_with l s).
  - rewrite <- IHa. apply run_ext. intros. apply IHb.
  - rewrite IHa, IHb. by destruct (run a p s g k).
  - generalize (length s). intros n. revert p s g. induction n as [|n IHn]; intros p s g; simpl; [done|].
    rewrite (run_ext _ _ _ _ _ (λ p' s' g', f <$>
      if (length s' <? length s)%nat then star (run a) k n p' s' g' else None)).
    + rewrite IH. by destruct (run a p s g _).
    + intros. destruct (_ <? _)%nat; [apply IHn|done].
  - generalize (length s). intros n. revert p s g. induction n as [|n IHn]; intros p s g;
      cbn [star_lazy]; (destruct (k p s g); [done|]); [done|].
    change (f <$> None) with (@None Y). cbv iota.
    rewrite <- IH. apply run_ext. intros p' s' g' _. cbv beta. destruct (_ <? _)%nat; [apply IHn|done].
  - apply IH.
  - destruct (cap n g); [|done]. unfold run_lit. by destruct (starts_with _ s).
  - by destruct s.
  - by destruct (xorb _ _).
Qed.

Lemma match_pre r p s m :
  run r p s [] (λ p' s' g, Some (g, [] : jsstr, p', s')) = Some m → m.1.1.2 = [].
Proof. intros E. apply run_lang in E as (x & s1 & p1 & g1 & _ & _ & E2). by injection E2 as <-. Qed.

(** A match at the current position is the leftmost one. *)
Lemma find_here r p s g s' :
  run r p s [] (λ _ s' g, Some (g, s')) = Some (g, s') → ∃ p', rx_find r p s = Some (g, [], p', s').
Proof.
  intros E. pose proof (run_fmap (λ m, (m.1.1.1, m.2)) r p s [] (λ p' s' g, Some (g, [] : jsstr, p', s'))) as H.
  cbn in H. rewrite E in H. symmetry in H. apply fmap_Some in H as ([[[g1 pre] p1] s1] & Hm & [= <- <-]).
  pose proof (match_pre r p s _ Hm) as Hp. cbn in Hp. subst pre. exists p1.
  destruct s; cbn [rx_find]; by rewrite Hm.
Qed.

(** Every match of [r] consumes a character. *)
Fixpoint consuming (r : re) : bool :=
  match r with
  | RChr _ => true
  | RLit l => truthy l
  | RSeq a b => consuming a || consuming b
  | RAlt a b => consuming a && consuming b
  | RGrp _ a => consuming a
  | RStar _ | RLazy _ | RBack _ | REnd | RWord => false
  end.

Lemma consuming_lang r x : consuming r = true → lang r x → x ≠ [].
Proof.
  revert x. induction r as [f|l|a IHa b IHb|a IHa b IHb|a IH|a IH|n a IH|n| |]; intros x; cbn; try done.
  - by intros _ (c & -> & _).
  - intros Hl ->. by destruct l.
  - intros Hc (y & z & -> & Hy & Hz). apply orb_true_iff in Hc as [Hc|Hc].
    + by apply IHa in Hy; [destruct y|].
    + apply IHb in Hz; [|done]. by destruct y, z.
  - intros Hc [Hx|Hx]; bool_to_prop; auto.
  - auto.
Qed.

Lemma match_here r p s g pre p' s' :
  run r p s [] (λ p' s' g, Some (g, [], p', s')) = Some (g, pre, p', s') →
  ∃ x, s = pre ++ x ++ s' ∧ lang r x.
Proof.
  intros E. apply run_lang in E as (x & s1 & p1 & g1 & -> & Hx & E2).
  injection E2 as <- <- <- <-. by exists x.
Qed.

Lemma find_lang r p s g pre p' s' :
  rx_find r p s = Some (g, pre, p', s') → ∃ x, s = pre ++ x ++ s' ∧ lang r x.
Proof.
  revert p pre. induction s as [|c s IH]; intros p pre; cbn [rx_find];
    (destruct (run r p _ [] _) as [m|] eqn:E; [intros Em; injection Em as ->; by eapply match_here|]).
  - done.
  - clear E. destruct (rx_find r (Some c) s) as [[[[g1 pre1] p1] s1]|] eqn:Ef; [|done].
    intros [= -> <- -> ->]. apply IH in Ef as (x & -> & Hx). by exists x.
Qed.

Lemma find_consumes r p s g pre p' s' :
  consuming r = true → rx_find r p s = Some (g, pre, p', s') → (length s' < length s)%nat.
Proof.
  intros Hc H. apply find_lang in H as (x & -> & Hx). apply consuming_lang in Hx; [|done].
  rewrite !length_app. destruct x; [done|]. simpl. lia.
Qed.

Lemma all_returns r p s fuel : consuming r = true → (length s < fuel)%nat → returns (rx_all fuel r p s).
Proof.
  intros Hc. revert p s. induction fuel as [|fuel IH]; intros p s Hf; [lia|]. cbn [rx_all].
  destruct (rx_find r p s) as [[[[g pre] p'] s']|] eqn:E; [|by eexists].
  apply find_consumes in E; [|done]. destruct (IH p' s' ltac:(lia)) as [gs ->]. by eexists.
Qed.

Lemma pieces_returns r p s fuel :
  consuming r = true → (length s < fuel)%nat → returns (rx_pieces fuel r p s).
Proof.
  intros Hc. revert p s. induction fuel as [|fuel IH]; intros p s Hf; [lia|]. cbn [rx_pieces].
  destruct (rx_find r p s) as [[[[g pre] p'] s']|] eqn:E; [|by eexists].
  apply find_consumes in E; [|done]. destruct (IH p' s' ltac:(lia)) as [gs ->]. by eexists.
Qed.

Lemma matches_return r s : consuming r = true → returns (rx_matches r s).
Proof. intros Hc. apply all_returns; [done|]. lia. Qed.

Lemma split_returns r s : consuming r = true → returns (rx_split r s).
Proof. intros Hc. apply pieces_returns; [done|]. lia. Qed.

(** The bound does not matter as long as it is large enough. *)
Lemma all_fuel r p s n m :
  consuming r = true → (length s < n)%nat → (length s < m)%nat → rx_all n r p s = rx_all m r p s.
Proof.
  intros Hc. revert m p s. induction n as [|n IH]; intros [|m] p s Hn Hm; try lia. cbn [rx_all].
  destruct (rx_find r p s) as [[[[g pre] p'] s']|] eqn:E; [|done].
  apply find_consumes in E; [|done]. by rewrite (IH m) by lia.
Qed.

Lemma pieces_fuel r p s n m :
  consuming r = true → (length s < n)%nat → (length s < m)%nat → rx_pieces n r p s = rx_pieces m r p s.
Proof.
  intros Hc. revert m p s. induction n as [|n IH]; intros [|m] p s Hn Hm; try lia. cbn [rx_pieces].
  destruct (rx_find r p s) as [[[[g pre] p'] s']|] eqn:E; [|done].
  apply find_consumes in E; [|done]. by rewrite (IH m) by lia.
Qed.

(** A search skips a text inside which no match starts. *)
Lemma find_skip r p x s :
  (∀ p' y c z, x = y ++ c :: z → run r p' (c :: z ++ s) [] (λ p' s' g, Some (g, [] : jsstr, p', s')) = None) →
  rx_find r p (x ++ s)
  = match rx_find r (lastc p x) s with
    | Some (g, pre, p', s') => Some (g, x ++ pre, p', s')
    | None => None
    end.
Proof.
  revert p. induction x as [|c x IH]; intros p H.
  - cbn [app]. unfold lastc. simpl. by destruct (rx_find r p s) as [[[[? ?] ?] ?]|].
  - cbn [app rx_find]. rewrite (H p [] c x eq_refl).
    rewrite IH by (intros p' y d z ->; apply (H p' (c :: y) d z); done).
    rewrite lastc_cons. by destruct (rx_find r _ s) as [[[[? ?] ?] ?]|].
Qed.

(** The matches in a text of separated items, each of which is found at once
    or after a separator. *)
Section Separated.
Context {A : Type} (r : re) (sep tail : jsstr) (text : A → jsstr) (found : A → caps) (P : A → Prop).
Hypothesis text_ne : ∀ a, text a ≠ [].
Hypothesis item_found : ∀ pre p a s,
  (pre = [] ∧ p = None) ∨ pre = sep → P a → s = tail ∨ (∃ u, s = sep ++ u) →
  ∃ p', rx_find r p (pre ++ text a ++ s) = Some (found a, pre, p', s).
Hypothesis nothing_after : ∀ p, rx_find r p tail = None.

Lemma separated_all pre items n p :
  (pre = [] ∧ p = None) ∨ pre = sep → items ≠ [] → Forall P items →
  (length (pre ++ join sep (map text items) ++ tail) < n)%nat →
  rx_all n r p (pre ++ join sep (map text items) ++ tail) = Ok (map found items).
Proof.
  intros Hpre Hne H. revert pre n p Hpre.
  induction H as [|a rest Ha Hrest IH]; intros pre n p Hpre Hn; [done|].
  destruct n as [|n]; [lia|]. cbn [rx_all].
  assert (0 < length (text a))%nat as Hl.
  { pose proof (text_ne a). destruct (text a); [done|]. simpl. lia. }
  destruct rest as [|b rest].
  - cbn [map join] in *. destruct (item_found pre p a tail) as [p' ->]; [done|done|by left|].
    rewrite !length_app in Hn. destruct n as [|n]; [lia|]. cbn [rx_all]. by rewrite nothing_after.
  - change (join sep (map text (a :: b :: rest)))
      with (text a ++ sep ++ join sep (map text (b :: rest))) in *.
    rewrite <- !app_assoc in Hn |- *.
    destruct (item_found pre p a (sep ++ join sep (map text (b :: rest)) ++ tail)) as [p' ->];
      [done|done|right; by eexists|].
    rewrite IH; [done|done|by right|]. rewrite !length_app in Hn. rewrite !length_app. lia.
Qed.

Lemma separated_matches items :
  items ≠ [] → Forall P items → rx_matches r (join sep (map text items) ++ tail) = Ok (map found items).
Proof.
  intros Hne H. apply (separated_all []); [by left|done|done|]. cbn [app]. lia.
Qed.
End Separated.
