(* ===== verification/JsValue.v ===== *)
(** * JavaScript values and JSON

    The values that flow through [unknown]-typed code: primitives, arrays
    and plain objects.  An object is the list of its own properties in
    enumeration order ([Object.entries]): array-index keys ascending, then
    the other keys in insertion order; [obj_set] keeps that order.  The file
    models [String(v)], [Boolean(v)], [JSON.parse] and [JSON.stringify]. *)
From S2P Require Import Prelude JsString JsNumber.
From Stdlib Require Import SpecFloat.

Open Scope N_scope.

Unset Elimination Schemes.
Inductive value :=
| VUndef
| VNull
| VBool (b : bool)
| VNum (x : num)
| VStr (s : jsstr)
| VArr (l : list value)
| VObj (o : list (jsstr * value)).
Set Elimination Schemes.

Section ValueInd.
Context (P : value → Prop).
Context (HU : P VUndef) (HN : P VNull) (HB : ∀ b, P (VBool b)).
Context (HX : ∀ x, P (VNum x)) (HS : ∀ s, P (VStr s)).
Context (HA : ∀ l, Forall P l → P (VArr l)).
Context (HO : ∀ o, Forall (λ kv, P kv.2) o → P (VObj o)).

Fixpoint value_ind (v : value) : P v :=
  match v with
  | VUndef => HU
  | VNull => HN
  | VBool b => HB b
  | VNum x => HX x
  | VStr s => HS s
  | VArr l =>
      HA l ((fix go l : Forall P l :=
               match l with
               | [] => @List.Forall_nil _ _
               | v :: l => @List.Forall_cons _ _ _ _ (value_ind v) (go l)
               end) l)
  | VObj o =>
      HO o ((fix go o : Forall (λ kv, P kv.2) o :=
               match o with
               | [] => @List.Forall_nil _ _
               | kv :: o => @List.Forall_cons _ (λ kv, P kv.2) _ _ (value_ind kv.2) (go o)
               end) o)
  end.
End ValueInd.

(** ** Objects *)

Abbreviation obj := (list (jsstr * value)).

Definition obj_get (k : jsstr) (o : obj) : option value :=
  snd <$> find_first (λ kv, str_eqb kv.1 k) o.

(** [k in o] for an own property. *)
Definition obj_has (k : jsstr) (o : obj) : bool := is_some (obj_get k o).

(** Reading a property: absent ones are [undefined]. *)
Definition prop (k : jsstr) (o : obj) : value := from_opt VUndef (obj_get k o).

(** The array index a key denotes, if it is one (a canonical decimal below
    2^32 - 1). *)
Definition array_index (k : jsstr) : option N :=
  if bool_decide (Forall (λ c, is_digit c = true) k) then
    let n := digits_value k in
    if str_eqb (dec n) k && (n <? 4294967295) then Some n else None
  else None.

Fixpoint obj_insert (k : jsstr) (v : value) (o : obj) : obj :=
  match array_index k with
  | None => o ++ [(k, v)]
  | Some n =>
      match o with
      | [] => [(k, v)]
      | (k', v') :: o' =>
          match array_index k' with
          | Some n' => if n <? n' then (k, v) :: o else (k', v') :: obj_insert k v o'
          | None => (k, v) :: o
          end
      end
  end.

Fixpoint obj_replace (k : jsstr) (v : value) (o : obj) : obj :=
  match o with
  | [] => []
  | (k', v') :: o => if str_eqb k' k then (k, v) :: o else (k', v') :: obj_replace k v o
  end.

(** [o[k] = v]. *)
Definition obj_set (k : jsstr) (v : value) (o : obj) : obj :=
  if obj_has k o then obj_replace k v o else obj_insert k v o.

Definition obj_of_list (l : list (jsstr * value)) : obj :=
  fold_left (λ o kv, obj_set kv.1 kv.2 o) l [].

Definition obj_keys (o : obj) : list jsstr := map fst o.
Definition obj_values (o : obj) : list value := map snd o.

(** ** Conversions *)

(** [Boolean(v)]. *)
Definition val_truthy (v : value) : bool :=
  match v with
  | VUndef | VNull => false
  | VBool b => b
  | VNum x => num_truthy x
  | VStr s => truthy s
  | VArr _ | VObj _ => true
  end.

(** [v ?? d]. *)
Definition nullish (d v : value) : value :=
  match v with VUndef | VNull => d | _ => v end.

(** [String(v)]; [None] is the [TypeError] of an object whose own
    [toString] is not a function. *)
Fixpoint to_string (v : value) : option jsstr :=
  match v with
  | VUndef => Some (js "undefined")
  | VNull => Some (js "null")
  | VBool b => Some (if b then js "true" else js "false")
  | VNum x => Some (num_to_str x)
  | VStr s => Some s
  | VArr l =>
      join (js ",") <$>
        (fix go l :=
           match l with
           | [] => Some []
           | v :: l =>
               s ← match v with VUndef | VNull => Some [] | _ => to_string v end;
               r ← go l; Some (s :: r)
           end) l
  | VObj o => if obj_has (js "toString") o then None else Some (js "[object Object]")
  end.

(** ** JSON.parse *)

Definition json_ws (c : N) : bool := (c =? 32) || (c =? 10) || (c =? 13) || (c =? 9).
Definition skip_ws (s : jsstr) : jsstr := drop_while json_ws s.

(** The body of a string literal, after its opening quote. *)
Fixpoint parse_str (s : jsstr) : option (jsstr * jsstr) :=
  match s with
  | [] => None
  | c :: s1 =>
      if c =? 34 then Some ([], s1)
      else if c =? 92 then
        match s1 with
        | 117 :: a :: b :: c' :: d :: s2 =>
            u ← radix_value 16 [a; b; c'; d];
            '(r, s3) ← parse_str s2; Some (u :: r, s3)
        | e :: s2 =>
            u ← (if (e =? 34) || (e =? 92) || (e =? 47) then Some e
                 else if e =? 98 then Some 8
                 else if e =? 102 then Some 12
                 else if e =? 110 then Some 10
                 else if e =? 114 then Some 13
                 else if e =? 116 then Some 9
                 else None);
            '(r, s3) ← parse_str s2; Some (u :: r, s3)
        | [] => None
        end
      else if c <? 32 then None
      else '(r, s3) ← parse_str s1; Some (c :: r, s3)
  end.

(** A number literal: JSON allows no leading zeros, no bare point and no
    sign but a minus. *)
Definition read_sign (s : jsstr) : bool * jsstr :=
  match s with
  | c :: s1 => if c =? 45 then (true, s1) else (false, s)
  | [] => (false, s)
  end.

Definition nonempty_digits (s : jsstr) : option (jsstr * jsstr) :=
  match span_digits s with
  | ([], _) => None
  | (ds, r) => Some (ds, r)
  end.

Definition read_int (s : jsstr) : option (jsstr * jsstr) :=
  match s with
  | c :: r => if c =? 48 then Some ([c], r) else nonempty_digits s
  | [] => None
  end.

Definition read_frac (s : jsstr) : option (jsstr * jsstr) :=
  match s with
  | c :: r => if c =? 46 then nonempty_digits r else Some ([], s)
  | [] => Some ([], s)
  end.

Definition read_expo (s : jsstr) : option (Z * jsstr) :=
  match s with
  | c :: _ =>
      if (c =? 101) || (c =? 69) then
        let '(e, r) := read_exp s in
        if bool_decide (length r = length s) then None else Some (e, r)
      else Some (0%Z, s)
  | [] => Some (0%Z, s)
  end.

Definition parse_num (s : jsstr) : option (num * jsstr) :=
  let '(neg, s1) := read_sign s in
  '(ip, s2) ← read_int s1;
  '(fp, s3) ← read_frac s2;
  '(e, s4) ← read_expo s3;
  let v := digits_value (ip ++ fp) in
  Some (dec_num neg v (length (dec v)) (e - Z.of_nat (length fp))%Z, s4).

Definition parse_lit (lit : jsstr) (v : value) (s : jsstr) : option (value * jsstr) :=
  if starts_with lit s then Some (v, drop (length lit) s) else None.

Fixpoint parse_value (fuel : nat) (s : jsstr) {struct fuel} : option (value * jsstr) :=
  match fuel with
  | O => None
  | S f =>
      match skip_ws s with
      | 123 :: s1 =>
          match skip_ws s1 with
          | 125 :: s2 => Some (VObj [], s2)
          | _ => parse_members f [] s1
          end
      | 91 :: s1 =>
          match skip_ws s1 with
          | 93 :: s2 => Some (VArr [], s2)
          | _ => parse_elems f s1
          end
      | 34 :: s1 => '(t, s2) ← parse_str s1; Some (VStr t, s2)
      | c :: s1 =>
          if c =? 116 then parse_lit (js "true") (VBool true) (c :: s1)
          else if c =? 102 then parse_lit (js "false") (VBool false) (c :: s1)
          else if c =? 110 then parse_lit (js "null") VNull (c :: s1)
          else '(x, s2) ← parse_num (c :: s1); Some (VNum x, s2)
      | [] => None
      end
  end
with parse_members (fuel : nat) (acc : obj) (s : jsstr) {struct fuel}
    : option (value * jsstr) :=
  match fuel with
  | O => None
  | S f =>
      match skip_ws s with
      | 34 :: s1 =>
          '(k, s2) ← parse_str s1;
          match skip_ws s2 with
          | 58 :: s3 =>
              '(v, s4) ← parse_value f s3;
              match skip_ws s4 with
              | 44 :: s5 => parse_members f (obj_set k v acc) s5
              | 125 :: s5 => Some (VObj (obj_set k v acc), s5)
              | _ => None
              end
          | _ => None
          end
      | _ => None
      end
  end
with parse_elems (fuel : nat) (s : jsstr) {struct fuel} : option (value * jsstr) :=
  match fuel with
  | O => None
  | S f =>
      '(v, s1) ← parse_value f s;
      match skip_ws s1 with
      | 44 :: s2 =>
          '(r, s3) ← parse_elems f s2;
          match r with VArr l => Some (VArr (v :: l), s3) | _ => None end
      | 93 :: s2 => Some (VArr [v], s2)
      | _ => None
      end
  end.

(** [JSON.parse(s)]; [None] is the [SyntaxError].  Every recursive call
    consumes at least one code unit, so the length of the text is enough
    fuel. *)
Definition json_parse (s : jsstr) : option value :=
  match parse_value (S (length s)) s with
  | Some (v, r) => if truthy (skip_ws r) then None else Some v
  | None => None
  end.

(** ** JSON.stringify *)

Definition hex_digit (d : N) : N := if d <? 10 then 48 + d else 87 + d.
Definition unicode_escape (c : N) : jsstr :=
  js "\u" ++ [hex_digit (N.land (N.shiftr c 12) 15); hex_digit (N.land (N.shiftr c 8) 15);
              hex_digit (N.land (N.shiftr c 4) 15); hex_digit (N.land c 15)].

Definition is_high (c : N) : bool := (55296 <=? c) && (c <=? 56319).
Definition is_low (c : N) : bool := (56320 <=? c) && (c <=? 57343).

Definition escape (c : N) : jsstr :=
  if c =? 34 then [92; 34]
  else if c =? 92 then [92; 92]
  else if c =? 8 then [92; 98]
  else if c =? 12 then [92; 102]
  else if c =? 10 then [92; 110]
  else if c =? 13 then [92; 114]
  else if c =? 9 then [92; 116]
  else if c <? 32 then unicode_escape c
  else if is_high c || is_low c then unicode_escape c
  else [c].

Fixpoint quote_body (s : jsstr) : jsstr :=
  match s with
  | [] => []
  | c :: s1 =>
      match s1 with
      | d :: s2 => if is_high c && is_low d then c :: d :: quote_body s2
                   else escape c ++ quote_body s1
      | [] => escape c
      end
  end.
Definition quote (s : jsstr) : jsstr := 34 :: quote_body s ++ [34].

(** [JSON.stringify(v)], [None] for [undefined]. *)
Fixpoint stringify (v : value) : option jsstr :=
  match v with
  | VUndef => None
  | VNull => Some (js "null")
  | VBool b => Some (if b then js "true" else js "false")
  | VNum x => Some (if is_finite x then num_to_str x else js "null")
  | VStr s => Some (quote s)
  | VArr l => Some (js "[" ++ join (js ",") (map (λ v, from_opt (js "null") (stringify v)) l) ++ js "]")
  | VObj o =>
      Some (js "{" ++ join (js ",")
        ((fix go (o : obj) : list jsstr :=
            match o with
            | [] => []
            | (k, v) :: o =>
                match stringify v with
                | Some s => (quote k ++ js ":" ++ s) :: go o
                | None => go o
                end
            end) o) ++ js "}")
  end.

(** [JSON.stringify(v, null, 2)] at the indentation [ind]. *)
Definition line (ind : jsstr) : jsstr := 10 :: ind.
Fixpoint stringify_at (ind : jsstr) (v : value) : option jsstr :=
  let ind' := ind ++ js "  " in
  match v with
  | VArr [] => Some (js "[]")
  | VArr l =>
      Some (js "[" ++ line ind' ++ join (js "," ++ line ind')
              (map (λ v, from_opt (js "null") (stringify_at ind' v)) l) ++ line ind ++ js "]")
  | VObj o =>
      match (fix go (o : obj) : list jsstr :=
               match o with
               | [] => []
               | (k, v) :: o =>
                   match stringify_at ind' v with
                   | Some s => (quote k ++ js ": " ++ s) :: go o
                   | None => go o
                   end
               end) o with
      | [] => Some (js "{}")
      | ms => Some (js "{" ++ line ind' ++ join (js "," ++ line ind') ms ++ line ind ++ js "}")
      end
  | _ => stringify v
  end.
Definition stringify2 (v : value) : option jsstr := stringify_at [] v.

Example stringify2_ex :
  stringify2 (VObj [(js "a", VArr [VNum (of_Z 1); VBool true]); (js "b", VObj [])])
  = Some (jsq "{" ++ line (jsq "  'a': [") ++ line (js "    1,") ++ line (js "    true")
          ++ line (js "  ],") ++ line (jsq "  'b': {}") ++ line (js "}")).
Proof. vm_compute. reflexivity. Qed.

Example parse_ex :
  json_parse (jsq "{'b': [1, true, null], '10': 'x\u0041\n', '9': {}}")
  = Some (VObj [(js "9", VObj []); (js "10", VStr [120; 65; 10]);
                (js "b", VArr [VNum (of_Z 1); VBool true; VNull])]).
Proof. vm_compute. reflexivity. Qed.

(** ** Reading back a property *)

Lemma str_eqb_refl s : str_eqb s s = true.
Proof. by apply bool_decide_eq_true. Qed.

Lemma str_eqb_neq s t : s ≠ t → str_eqb s t = false.
Proof. intros. by apply bool_decide_eq_false. Qed.

Lemma find_first_app {A} (f : A → bool) l1 l2 :
  find_first f (l1 ++ l2)
  = match find_first f l1 with Some x => Some x | None => find_first f l2 end.
Proof. induction l1 as [|x l1 IH]; simpl; [done|]. by destruct (f x). Qed.

Lemma obj_get_insert_ne k k' v o : k' ≠ k → obj_get k' (obj_insert k v o) = obj_get k' o.
Proof.
  intros Hne. unfold obj_get. f_equal. induction o as [|[k1 v1] o IH]; simpl.
  - destruct (array_index k); simpl; by rewrite str_eqb_neq by done.
  - destruct (array_index k).
    + destruct (array_index k1); [destruct (_ <? _)|]; simpl;
        rewrite ?(str_eqb_neq k k') by done; [done| |done]. by destruct (str_eqb k1 k').
    + simpl. destruct (str_eqb k1 k'); [done|]. rewrite find_first_app. simpl.
      rewrite str_eqb_neq by done. by destruct (find_first _ o).
Qed.

Lemma obj_get_insert k v o : obj_get k o = None → obj_get k (obj_insert k v o) = Some v.
Proof.
  unfold obj_get. rewrite fmap_None. induction o as [|[k1 v1] o IH]; simpl; intros Ho.
  - destruct (array_index k); simpl; by rewrite str_eqb_refl.
  - destruct (str_eqb k1 k) eqn:E1; [done|]. destruct (array_index k).
    + destruct (array_index k1); [destruct (_ <? _)|]; simpl; rewrite ?str_eqb_refl; [done| |done].
      rewrite E1. by apply IH.
    + simpl. rewrite E1, find_first_app, Ho. simpl. by rewrite str_eqb_refl.
Qed.

Lemma obj_get_replace_ne k k' v o : k' ≠ k → obj_get k' (obj_replace k v o) = obj_get k' o.
Proof.
  intros Hne. unfold obj_get. f_equal. induction o as [|[k1 v1] o IH]; simpl; [done|].
  destruct (str_eqb k1 k) eqn:E; simpl; [|by rewrite IH].
  apply bool_decide_eq_true in E as ->. by rewrite str_eqb_neq.
Qed.

Lemma obj_get_replace k v o : is_Some (obj_get k o) → obj_get k (obj_replace k v o) = Some v.
Proof.
  unfold obj_get. induction o as [|[k1 v1] o IH]; simpl; [by intros [??]|].
  destruct (str_eqb k1 k) eqn:E; simpl; [by rewrite str_eqb_refl|]. rewrite E. apply IH.
Qed.

(** A property reads back what was set; the others are unchanged. *)
Lemma obj_get_set k v o : obj_get k (obj_set k v o) = Some v.
Proof.
  unfold obj_set, obj_has. destruct (obj_get k o) eqn:E; simpl.
  - by apply obj_get_replace.
  - by apply obj_get_insert.
Qed.

Lemma obj_get_set_ne k k' v o : k' ≠ k → obj_get k' (obj_set k v o) = obj_get k' o.
Proof.
  intros. unfold obj_set. destruct (obj_has k o); [by apply obj_get_replace_ne|].
  by apply obj_get_insert_ne.
Qed.

#[export] Hint Rewrite obj_get_set str_eqb_refl : jsrw.

(** The strings that occur in a value, keys apart. *)
Fixpoint strings_of (v : value) : list jsstr :=
  match v with
  | VStr s => [s]
  | VArr l => concat (map strings_of l)
  | VObj o => concat (map (λ kv, strings_of kv.2) o)
  | _ => []
  end.
