(* ===== verification/JsonFacts.v ===== *)
(** * JSON round trip

    [JSON.parse (JSON.stringify v) = v] for every value that JSON can carry:
    no [undefined], numbers whose decimal form reads back, well-formed code
    units and objects in enumeration order. *)
From S2P Require Import Prelude JsString JsNumber JsValue.
From Stdlib Require Import SpecFloat.

Open Scope N_scope.

Definition units_ok (s : jsstr) : Prop := Forall (λ c, c < 65536) s.

Definition num_ok (x : num) : Prop :=
  is_finite x = true ∧ parse_num (num_to_str x) = Some (x, []).

(** The values that survive a JSON round trip. *)
Fixpoint json_ok (v : value) : Prop :=
  match v with
  | VUndef => False
  | VNull | VBool _ => True
  | VNum x => num_ok x
  | VStr s => units_ok s
  | VArr l => foldr (λ v P, json_ok v ∧ P) True l
  | VObj o =>
      obj_of_list o = o ∧ foldr (λ kv P, (units_ok kv.1 ∧ json_ok kv.2) ∧ P) True o
  end.

(** What can follow a value inside a text: the end, a punctuator or a line
    break. *)
Definition follow (r : jsstr) : Prop :=
  match r with [] => True | c :: _ => c = 44 ∨ c = 125 ∨ c = 93 ∨ c = 10 end.

(** ** Strings *)

Lemma hex_digit_val d : d < 16 → hex_val (hex_digit d) = Some d.
Proof.
  intros H. assert (d ∈ [0;1;2;3;4;5;6;7;8;9;10;11;12;13;14;15]) as Hd by (set_unfold; lia).
  set_unfold in Hd. destruct_or! Hd; subst; done.
Qed.

Lemma land15 x : N.land x 15 = x mod 16.
Proof. apply (N.land_ones x 4). Qed.

Lemma radix_hex4 c :
  c < 65536 →
  radix_value 16
    [hex_digit (N.land (N.shiftr c 12) 15); hex_digit (N.land (N.shiftr c 8) 15);
     hex_digit (N.land (N.shiftr c 4) 15); hex_digit (N.land c 15)] = Some c.
Proof.
  intros H. rewrite !land15, !N.shiftr_div_pow2.
  change (2 ^ 12) with 4096; change (2 ^ 8) with 256; change (2 ^ 4) with 16.
  assert (∀ x, x mod 16 < 16) as Hm by (intros; by apply N.mod_lt).
  unfold radix_value. cbn [fold_left mbind option_bind].
  rewrite !hex_digit_val by apply Hm. cbn [mbind option_bind].
  assert (∀ x, (x mod 16 <? 16) = true) as Hb by (intros; by apply N.ltb_lt, Hm).
  repeat (rewrite Hb; cbn [mbind option_bind]). f_equal.
  assert (c / 4096 = c / 256 / 16) as E1 by (by rewrite N.Div0.div_div).
  assert (c / 256 = c / 16 / 16) as E2 by (by rewrite N.Div0.div_div).
  assert (c / 4096 < 16) as E3 by (apply N.Div0.div_lt_upper_bound; lia).
  rewrite (N.mod_small (c / 4096)) by done.
  pose proof (N.div_mod (c / 256) 16 ltac:(done)) as D1.
  pose proof (N.div_mod (c / 16) 16 ltac:(done)) as D2.
  pose proof (N.div_mod c 16 ltac:(done)) as D3.
  rewrite <- E1 in D1. rewrite <- E2 in D2.
  generalize dependent (c / 256 mod 16). generalize dependent (c / 16 mod 16).
  generalize dependent (c mod 16). intros. lia.
Qed.

Lemma parse_str_unicode c t :
  c < 65536 →
  parse_str (unicode_escape c ++ t) = ('(r, s) ← parse_str t; Some (c :: r, s)).
Proof.
  intros H. unfold unicode_escape. change (js "\u") with [92; 117].
  cbn [app parse_str]. change (92 =? 34) with false. change (92 =? 92) with true.
  cbv iota beta. rewrite radix_hex4 by done. done.
Qed.

Lemma parse_str_plain c t :
  c ≠ 34 → c ≠ 92 → (c <? 32) = false →
  parse_str (c :: t) = ('(r, s) ← parse_str t; Some (c :: r, s)).
Proof.
  intros H1 H2 H3. cbn [parse_str].
  apply N.eqb_neq in H1 as ->. apply N.eqb_neq in H2 as ->. by rewrite H3.
Qed.

Lemma parse_str_escape c t :
  c < 65536 →
  parse_str (escape c ++ t) = ('(r, s) ← parse_str t; Some (c :: r, s)).
Proof.
  intros H. unfold escape.
  destruct (N.eqb_spec c 34) as [->|]; [reflexivity|].
  destruct (N.eqb_spec c 92) as [->|]; [reflexivity|].
  destruct (N.eqb_spec c 8) as [->|]; [reflexivity|].
  destruct (N.eqb_spec c 12) as [->|]; [reflexivity|].
  destruct (N.eqb_spec c 10) as [->|]; [reflexivity|].
  destruct (N.eqb_spec c 13) as [->|]; [reflexivity|].
  destruct (N.eqb_spec c 9) as [->|]; [reflexivity|].
  destruct (c <? 32) eqn:E; [by apply parse_str_unicode|].
  destruct (is_high c || is_low c); [by apply parse_str_unicode|].
  by apply parse_str_plain.
Qed.

Lemma surrogate_plain c : is_high c = true ∨ is_low c = true →
  c ≠ 34 ∧ c ≠ 92 ∧ (c <? 32) = false.
Proof.
  unfold is_high, is_low. rewrite !andb_true_iff, !N.leb_le, N.ltb_ge. lia.
Qed.

Lemma parse_str_quote s r :
  units_ok s → parse_str (quote_body s ++ 34 :: r) = Some (s, r).
Proof.
  induction s as [s IH] using (induction_ltof1 _ (@length N)).
  unfold ltof in IH. intros Hs. destruct s as [|c s1]; [done|].
  apply Forall_cons in Hs as [Hc Hs]. destruct s1 as [|d s2].
  { cbn [quote_body]. by rewrite parse_str_escape. }
  assert (parse_str (escape c ++ quote_body (d :: s2) ++ 34 :: r)
          = Some (c :: d :: s2, r)) as Hesc.
  { rewrite parse_str_escape by done. rewrite IH; [done|simpl; lia|done]. }
  cbn [quote_body]. destruct (is_high c && is_low d) eqn:E; [|by rewrite <- app_assoc].
  apply andb_true_iff in E as [E1 E2]. apply Forall_cons in Hs as [Hd Hs].
  destruct (surrogate_plain c) as (?&?&?); [by left|].
  destruct (surrogate_plain d) as (?&?&?); [by right|]. cbn [app].
  rewrite !parse_str_plain by done. rewrite IH; [done|simpl; lia|done].
Qed.

(** ** Numbers *)

(** A code unit that cannot continue a number literal. *)
Definition num_stop (r : jsstr) : Prop :=
  match r with
  | [] => True
  | c :: _ => is_digit c = false ∧ c ≠ 46 ∧ c ≠ 101 ∧ c ≠ 69 ∧ c ≠ 43 ∧ c ≠ 45
  end.

Lemma follow_num_stop r : follow r → num_stop r.
Proof. destruct r as [|c r]; simpl; [done|]. by intros [-> | [-> | [-> | ->]]]. Qed.

Lemma span_digits_app s r :
  num_stop r →
  span_digits (s ++ r) = let '(d, t) := span_digits s in (d, t ++ r).
Proof.
  intros Hr. induction s as [|c s IH]; simpl.
  - destruct r as [|c r]; [done|]. destruct Hr as [Hr _]. simpl. by rewrite Hr.
  - destruct (is_digit c); [|done]. rewrite IH. by destruct (span_digits s).
Qed.

Lemma span_digits_length s : (length (span_digits s).2 ≤ length s)%nat.
Proof.
  induction s as [|c s IH]; simpl; [done|].
  destruct (is_digit c); [|simpl; lia]. destruct (span_digits s). simpl in *. lia.
Qed.

Lemma nonempty_digits_app s r d t :
  num_stop r → nonempty_digits s = Some (d, t) →
  nonempty_digits (s ++ r) = Some (d, t ++ r).
Proof.
  intros Hr. unfold nonempty_digits. rewrite span_digits_app by done.
  destruct (span_digits s) as [[|c ds] u]; [done|]. congruence.
Qed.

Lemma exp_sign_app s r :
  num_stop r → exp_sign (s ++ r) = let '(b, t) := exp_sign s in (b, t ++ r).
Proof.
  intros Hr. destruct s as [|c s]; simpl.
  - destruct r as [|c r]; [done|]. destruct Hr as (_&_&_&_&H1&H2). simpl.
    apply N.eqb_neq in H1 as ->. by apply N.eqb_neq in H2 as ->.
  - by destruct (c =? 45), (c =? 43).
Qed.

Lemma read_exp_app s r :
  num_stop r → read_exp (s ++ r) = let '(e, t) := read_exp s in (e, t ++ r).
Proof.
  intros Hr. destruct s as [|c s]; simpl.
  - destruct r as [|c r]; [done|]. destruct Hr as (_&_&H1&H2&_). simpl.
    apply N.eqb_neq in H1 as ->. by apply N.eqb_neq in H2 as ->.
  - destruct ((c =? 101) || (c =? 69)); [|done].
    rewrite exp_sign_app by done. destruct (exp_sign s) as [b t].
    rewrite span_digits_app by done. by destruct (span_digits t) as [[|d ds] u].
Qed.

Lemma read_int_app s r d t :
  num_stop r → read_int s = Some (d, t) → read_int (s ++ r) = Some (d, t ++ r).
Proof.
  intros Hr. destruct s as [|c s]; [done|]. simpl. destruct (c =? 48); [by intros [= <- <-]|].
  by apply (nonempty_digits_app (c :: s)).
Qed.

Lemma read_frac_app s r d t :
  num_stop r → read_frac s = Some (d, t) → read_frac (s ++ r) = Some (d, t ++ r).
Proof.
  intros Hr. destruct s as [|c s]; simpl.
  - intros [= <- <-]. destruct r as [|c r]; [done|]. destruct Hr as (_&H1&_). simpl.
    by apply N.eqb_neq in H1 as ->.
  - destruct (c =? 46); [by apply nonempty_digits_app|by intros [= <- <-]].
Qed.

Lemma read_expo_app s r e t :
  num_stop r → read_expo s = Some (e, t) → read_expo (s ++ r) = Some (e, t ++ r).
Proof.
  intros Hr. destruct s as [|c s].
  - simpl. intros [= <- <-]. destruct r as [|c r]; [done|].
    destruct Hr as (_&_&H1&H2&_). simpl.
    apply N.eqb_neq in H1 as ->. by apply N.eqb_neq in H2 as ->.
  - unfold read_expo. rewrite read_exp_app by done. cbn [app].
    destruct ((c =? 101) || (c =? 69)); [|by intros [= <- <-]].
    destruct (read_exp (c :: s)) as [e' t'].
    case_bool_decide as H1; [done|]. intros [= <- <-].
    rewrite bool_decide_false; [done|].
    rewrite !length_app. simpl in *. rewrite length_app. lia.
Qed.

Lemma parse_num_app s r x :
  num_stop r → parse_num s = Some (x, []) → parse_num (s ++ r) = Some (x, r).
Proof.
  intros Hr. unfold parse_num.
  destruct s as [|c s]; [done|].
  assert (read_sign ((c :: s) ++ r) =
          let '(b, t) := read_sign (c :: s) in (b, t ++ r)) as ->.
  { simpl. by destruct (c =? 45). }
  destruct (read_sign (c :: s)) as [neg s1].
  destruct (read_int s1) as [[ip s2]|] eqn:E1; [|done].
  rewrite (read_int_app _ _ _ _ Hr E1). simpl.
  destruct (read_frac s2) as [[fp s3]|] eqn:E2; [|done].
  rewrite (read_frac_app _ _ _ _ Hr E2). simpl.
  destruct (read_expo s3) as [[e s4]|] eqn:E3; [|done].
  rewrite (read_expo_app _ _ _ _ Hr E3). simpl. intros [= <- ->]. done.
Qed.

(** A number literal starts with a minus or a digit. *)
Lemma parse_num_head s x :
  parse_num s = Some x → ∃ c t, s = c :: t ∧ (c = 45 ∨ is_digit c = true).
Proof.
  destruct s as [|c s]; [done|]. intros H. exists c, s. split; [done|].
  unfold parse_num in H. simpl in H.
  destruct (N.eqb_spec c 45); [by left|]. right. simpl in H.
  destruct (N.eqb_spec c 48) as [->|]; [done|].
  unfold nonempty_digits in H. simpl in H. by destruct (is_digit c).
Qed.

(** ** Values *)

(** The texts of an object's members. *)
Definition member_texts : obj → list jsstr :=
  fix go (o : obj) : list jsstr :=
    match o with
    | [] => []
    | (k, v) :: o =>
        match stringify v with
        | Some s => (quote k ++ js ":" ++ s) :: go o
        | None => go o
        end
    end.

(** [s] is a complete text of [v]: it parses to [v] in any context that may
    follow a value. *)
Definition reads_as (s : jsstr) (v : value) : Prop :=
  (∃ c t, s = c :: t ∧ json_ws c = false ∧ c ≠ 93) ∧
  ∀ fuel r, (length s ≤ fuel)%nat → follow r → parse_value fuel (s ++ r) = Some (v, r).

Lemma skip_ws_cons c s : json_ws c = false → skip_ws (c :: s) = c :: s.
Proof. intros H. unfold skip_ws. simpl. by rewrite H. Qed.

(** White space between the parts of a text: none, or a line break. *)
Definition gap (w : jsstr) : Prop :=
  Forall (λ c, json_ws c = true) w ∧ (w = [] ∨ ∃ w', w = 10 :: w').

Lemma skip_gap w s : Forall (λ c, json_ws c = true) w → skip_ws (w ++ s) = skip_ws s.
Proof. induction 1 as [|c w Hc _ IH]; [done|]. unfold skip_ws in *. cbn. by rewrite Hc. Qed.

Lemma follow_gap w c r : gap w → c = 44 ∨ c = 125 ∨ c = 93 → follow (w ++ c :: r).
Proof. intros [_ [-> |[w' ->]]] Hc; simpl; tauto. Qed.

Lemma value_gap fuel w s :
  Forall (λ c, json_ws c = true) w → parse_value fuel (w ++ s) = parse_value fuel s.
Proof. intros H. destruct fuel as [|f]; [done|]. cbn [parse_value]. by rewrite skip_gap. Qed.

Lemma elems_gap fuel w s :
  Forall (λ c, json_ws c = true) w → parse_elems fuel (w ++ s) = parse_elems fuel s.
Proof. intros H. destruct fuel as [|f]; [done|]. cbn [parse_elems]. by rewrite value_gap. Qed.

Lemma members_gap fuel acc w s :
  Forall (λ c, json_ws c = true) w → parse_members fuel acc (w ++ s) = parse_members fuel acc s.
Proof. intros H. destruct fuel as [|f]; [done|]. cbn [parse_members]. by rewrite skip_gap. Qed.

Lemma lit_reads_as lit v :
  (∀ f r, parse_value (S f) (lit ++ r) = Some (v, r)) →
  (∃ c t, lit = c :: t ∧ json_ws c = false ∧ c ≠ 93) → reads_as lit v.
Proof.
  intros H Hc. split; [done|]. intros fuel r Hf Hr.
  destruct Hc as (c&t&->&_&_). destruct fuel as [|f]; [simpl in Hf; lia|]. apply H.
Qed.

Lemma digit_cases c :
  c = 45 ∨ is_digit c = true →
  c ∈ [45; 48; 49; 50; 51; 52; 53; 54; 55; 56; 57].
Proof.
  unfold is_digit. rewrite andb_true_iff, !N.leb_le. set_unfold. lia.
Qed.

Lemma parse_value_num f c t :
  c = 45 ∨ is_digit c = true →
  parse_value (S f) (c :: t) = ('(x, s2) ← parse_num (c :: t); Some (VNum x, s2)).
Proof.
  intros Hc%digit_cases. set_unfold in Hc. destruct_or! Hc; subst; reflexivity.
Qed.

Lemma num_reads_as x : num_ok x → reads_as (num_to_str x) (VNum x).
Proof.
  intros [Hf Hp]. destruct (parse_num_head _ _ Hp) as (c&t&E&Hc). rewrite E in *.
  split.
  - exists c, t. split; [done|]. apply digit_cases in Hc.
    set_unfold in Hc. destruct_or! Hc; subst; done.
  - intros fuel r Hl Hr. destruct fuel as [|f]; [simpl in Hl; lia|].
    change ((c :: t) ++ r) with (c :: (t ++ r)). rewrite parse_value_num by done.
    change (c :: (t ++ r)) with ((c :: t) ++ r).
    rewrite (parse_num_app _ _ _ (follow_num_stop _ Hr) Hp). done.
Qed.

Lemma str_reads_as s : units_ok s → reads_as (quote s) (VStr s).
Proof.
  intros Hs. split; [by exists 34, (quote_body s ++ [34])|].
  intros fuel r Hl _. destruct fuel as [|f]; [simpl in Hl; lia|].
  unfold quote. cbn [app parse_value]. rewrite skip_ws_cons by done.
  rewrite <- app_assoc. cbn [app]. by rewrite parse_str_quote.
Qed.

(** ** Arrays and objects *)

Section Gaps.
(** White space after an opening bracket or a comma, before a closing bracket
    and after a colon. *)
Context (w w' c : jsstr).
Hypothesis w_gap : gap w.
Hypothesis w'_gap : gap w'.
Hypothesis c_ws : Forall (λ d, json_ws d = true) c.

Lemma elems_read (ss : list jsstr) (vs : list value) fuel r :
  Forall2 reads_as ss vs → ss ≠ [] →
  (length (join (44%N :: w) ss) < fuel)%nat →
  parse_elems fuel (join (44 :: w) ss ++ w' ++ 93 :: r) = Some (VArr vs, r).
Proof.
  intros H. revert fuel. induction H as [|s v ss vs [Hh Hp] Hs IH]; [done|].
  intros fuel _ Hf. destruct fuel as [|f]; [lia|].
  destruct ss as [|s' ss].
  - apply Forall2_nil_inv_l in Hs as ->. cbn [join] in *. cbn [parse_elems].
    rewrite Hp; [|lia|apply follow_gap; tauto]. cbn [mbind option_bind]. by rewrite skip_gap by apply w'_gap.
  - rewrite join_cons2 in *. rewrite <- !app_assoc. cbn [parse_elems].
    rewrite length_app in Hf. simpl in Hf. cbn [app].
    rewrite Hp; [|lia|simpl; tauto]. cbn [mbind option_bind].
    rewrite skip_ws_cons by done. cbv iota beta. rewrite elems_gap, IH; [done|done| |apply w_gap].
    rewrite ?length_app in *. simpl in *. lia.
Qed.

Definition member_text (m : jsstr * jsstr) : jsstr := quote m.1 ++ 58 :: c ++ m.2.

Lemma members_read (ms : list (jsstr * jsstr)) (o : obj) acc fuel r :
  Forall2 (λ m kv, m.1 = kv.1 ∧ units_ok m.1 ∧ reads_as m.2 kv.2) ms o → ms ≠ [] →
  (length (join (44%N :: w) (map member_text ms)) < fuel)%nat →
  parse_members fuel acc (join (44 :: w) (map member_text ms) ++ w' ++ 125 :: r)
  = Some (VObj (fold_left (λ o kv, obj_set kv.1 kv.2 o) o acc), r).
Proof.
  intros H. revert fuel acc.
  induction H as [|[k s] [k' v] ms o (Ek & Hk & [Hh Hp]) Ho IH]; [done|].
  intros fuel acc _ Hf. simpl in Ek, Hk, Hh, Hp. subst k'. destruct fuel as [|f]; [lia|].
  assert (∀ t, parse_members (S f) acc (member_text (k, s) ++ t) =
    ('(v, s4) ← parse_value f (s ++ t);
     match skip_ws s4 with
     | 44 :: s5 => parse_members f (obj_set k v acc) s5
     | 125 :: s5 => Some (VObj (obj_set k v acc), s5)
     | _ => None
     end)) as Hstep.
  { intros t. unfold member_text, quote. cbn [fst snd app parse_members].
    rewrite skip_ws_cons by done. rewrite <- !app_assoc. cbn [app].
    rewrite parse_str_quote by done. cbn [mbind option_bind].
    rewrite skip_ws_cons by done. rewrite <- app_assoc, value_gap by done. done. }
  assert ((length s < length (member_text (k, s)))%nat) as Hl
    by (unfold member_text; rewrite !length_app; cbn [length snd]; rewrite length_app; lia).
  cbn [map] in *. destruct ms as [|m ms].
  - apply Forall2_nil_inv_l in Ho as ->. cbn [map join] in *.
    rewrite Hstep, Hp; [|lia|apply follow_gap; tauto]. cbn [mbind option_bind].
    by rewrite skip_gap by apply w'_gap.
  - cbn [map] in *. rewrite join_cons2 in *. rewrite <- !app_assoc. rewrite !length_app in Hf. cbn [length] in Hf.
    cbn [app]. rewrite Hstep, Hp; [|lia|simpl; tauto]. cbn [mbind option_bind].
    rewrite skip_ws_cons by done. cbv iota beta. rewrite members_gap, IH; [done|done|lia|apply w_gap].
Qed.

Lemma array_reads ss vs :
  Forall2 reads_as ss vs → ss ≠ [] →
  reads_as (91 :: w ++ join (44 :: w) ss ++ w' ++ [93]) (VArr vs).
Proof.
  intros H2 Hne. split; [by eexists _, _|]. intros fuel r Hf Hr. destruct fuel as [|f]; [simpl in Hf; lia|].
  cbn [app parse_value]. rewrite skip_ws_cons by done. rewrite <- !app_assoc. cbn [app].
  rewrite skip_gap, elems_gap by apply w_gap.
  assert (∃ d t, join (44 :: w) ss ++ w' ++ 93 :: r = d :: t ∧ json_ws d = false ∧ d ≠ 93)
    as (d & t & Ed & Hws & Hd).
  { destruct H2 as [|s v ss vs [(d & t & -> & Hws & Hd) _] _]; [done|]. destruct ss; cbn [join app]; eauto. }
  assert (parse_elems f (d :: t) = Some (VArr vs, r)) as Hel.
  { rewrite <- Ed. apply elems_read; [done|done|]. simpl in Hf. rewrite !length_app in Hf. simpl in Hf. lia. }
  rewrite Ed, skip_ws_cons, Hel by done. clear -Hd. destruct d as [|p]; [done|].
  do 7 (destruct p as [p|p|]; try done).
Qed.

Lemma object_reads ms o :
  Forall2 (λ m kv, m.1 = kv.1 ∧ units_ok m.1 ∧ reads_as m.2 kv.2) ms o → ms ≠ [] → obj_of_list o = o →
  reads_as (123 :: w ++ join (44 :: w) (map member_text ms) ++ w' ++ [125]) (VObj o).
Proof.
  intros H2 Hne Hcan. split; [by eexists _, _|]. intros fuel r Hf Hr. destruct fuel as [|f]; [simpl in Hf; lia|].
  cbn [app parse_value]. rewrite skip_ws_cons by done. rewrite <- !app_assoc. cbn [app].
  rewrite skip_gap, members_gap by apply w_gap.
  assert (∃ t, join (44 :: w) (map member_text ms) ++ w' ++ 125 :: r = 34 :: t) as [t Et].
  { destruct ms as [|m ms]; [done|]. cbn [map]. destruct (map member_text ms); cbn [join app member_text quote]; eauto. }
  rewrite Et, skip_ws_cons by done. rewrite <- Et.
  rewrite (members_read ms o); [unfold obj_of_list in Hcan; by rewrite Hcan|done|done|].
  cbn [length] in Hf. rewrite !length_app in Hf. cbn [length] in Hf. lia.
Qed.

End Gaps.

Lemma gap_nil : gap [].
Proof. split; [by apply Forall_nil|by left]. Qed.

Lemma stringify_obj o :
  stringify (VObj o) = Some (js "{" ++ join (js ",") (member_texts o) ++ js "}").
Proof. done. Qed.

Lemma stringify_arr l :
  stringify (VArr l) =
  Some (js "[" ++ join (js ",") (map (λ v, from_opt (js "null") (stringify v)) l) ++ js "]").
Proof. done. Qed.

(** The texts of the elements and of the members, for any printer. *)
Lemma elem_texts (print : value → option jsstr) l :
  Forall (λ v, json_ok v → ∃ s, print v = Some s ∧ reads_as s v) l → foldr (λ v P, json_ok v ∧ P) True l →
  Forall2 reads_as (map (λ v, from_opt (js "null") (print v)) l) l.
Proof.
  intros IH Hok. induction IH as [|v l Hv _ IH]; simpl in *; [constructor|].
  destruct Hok as [H1 H2]. destruct (Hv H1) as (s & -> & Hs). constructor; [done|by apply IH].
Qed.

Lemma member_pairs (print : value → option jsstr) (o : obj) :
  Forall (λ kv, json_ok kv.2 → ∃ s, print kv.2 = Some s ∧ reads_as s kv.2) o →
  foldr (λ kv P, (units_ok kv.1 ∧ json_ok kv.2) ∧ P) True o →
  ∃ ms, Forall2 (λ m kv, m.1 = kv.1 ∧ units_ok m.1 ∧ reads_as m.2 kv.2) ms o ∧
        Forall2 (λ (m : jsstr * jsstr) kv, m.1 = kv.1 ∧ print kv.2 = Some m.2) ms o.
Proof.
  intros IH Hok. induction IH as [|[k v] o Hv _ IH]; simpl in *; [by exists []|].
  destruct Hok as [[Hk Hv'] Hok]. destruct (Hv Hv') as (s & Hs & Hr). destruct (IH Hok) as (ms & H1 & H2).
  exists ((k, s) :: ms). by split; constructor.
Qed.

Lemma member_texts_pairs ms o :
  Forall2 (λ (m : jsstr * jsstr) kv, m.1 = kv.1 ∧ stringify kv.2 = Some m.2) ms o →
  member_texts o = map (member_text []) ms.
Proof.
  induction 1 as [|[k s] [k' v] ms o [Ek Hs] _ IH]; [done|]. simpl in Ek, Hs. subst.
  cbn [member_texts map]. rewrite Hs. fold member_texts. by rewrite IH.
Qed.

Lemma json_ok_reads v : json_ok v → ∃ s, stringify v = Some s ∧ reads_as s v.
Proof.
  induction v as [| |b|x|s|l IH|o IH] using value_ind; intros Hok; cbn [json_ok] in Hok.
  - done.
  - eexists. split; [done|]. apply lit_reads_as; [done|by eexists _, _].
  - eexists. split; [done|]. destruct b; (apply lit_reads_as; [done|by eexists _, _]).
  - exists (num_to_str x). destruct (Hok) as [Hf _]. cbn [stringify]. rewrite Hf.
    split; [done|by apply num_reads_as].
  - exists (quote s). split; [done|by apply str_reads_as].
  - eexists. rewrite stringify_arr. split; [done|]. pose proof (elem_texts _ l IH Hok) as H2.
    destruct l as [|v l]; [apply lit_reads_as; [done|by eexists _, _]|].
    apply (array_reads [] [] gap_nil gap_nil _ _ H2). done.
  - destruct Hok as [Hcan Hok]. eexists. rewrite stringify_obj. split; [done|].
    destruct (member_pairs _ o IH Hok) as (ms & H1 & H2). rewrite (member_texts_pairs ms) by done.
    destruct ms as [|m ms]; [apply Forall2_nil_inv_l in H1 as ->; apply lit_reads_as; [done|by eexists _, _]|].
    apply (object_reads [] [] [] gap_nil gap_nil (Forall_nil_2 _) _ _ H1); done.
Qed.

Lemma reads_parse s v : reads_as s v → json_parse s = Some v.
Proof.
  intros [_ Hr]. unfold json_parse.
  specialize (Hr (S (length s)) [] ltac:(lia) I). rewrite app_nil_r in Hr. by rewrite Hr.
Qed.

(** What [JSON.stringify] prints, [JSON.parse] reads back. *)
Lemma json_parse_stringify v :
  json_ok v → ∃ s, stringify v = Some s ∧ json_parse s = Some v.
Proof.
  intros H. destruct (json_ok_reads v H) as (s & Hs & Hr). exists s. split; [done|]. by apply reads_parse.
Qed.

(** *** With indentation *)

Definition member_texts_at (ind : jsstr) : obj → list jsstr :=
  fix go (o : obj) : list jsstr :=
    match o with
    | [] => []
    | (k, v) :: o =>
        match stringify_at ind v with
        | Some s => (quote k ++ js ": " ++ s) :: go o
        | None => go o
        end
    end.

Lemma member_texts_at_pairs ind ms o :
  Forall2 (λ (m : jsstr * jsstr) kv, m.1 = kv.1 ∧ stringify_at ind kv.2 = Some m.2) ms o →
  member_texts_at ind o = map (member_text (js " ")) ms.
Proof.
  induction 1 as [|[k s] [k' v] ms o [Ek Hs] _ IH]; [done|]. simpl in Ek, Hs. subst.
  cbn [member_texts_at map]. rewrite Hs. fold (member_texts_at ind). by rewrite IH.
Qed.

Lemma line_gap ind : Forall (λ c, json_ws c = true) ind → gap (line ind).
Proof. intros H. split; [by apply Forall_cons|by right; exists ind]. Qed.

Lemma indented_reads v ind :
  Forall (λ c, json_ws c = true) ind → json_ok v → ∃ s, stringify_at ind v = Some s ∧ reads_as s v.
Proof.
  revert ind. induction v as [| |b|x|s|l IH|o IH] using value_ind; intros ind Hi Hok;
    try (apply json_ok_reads; exact Hok).
  - assert (Forall (λ c, json_ws c = true) (ind ++ js "  ")) as Hi'
      by (apply Forall_app; split; [done|repeat (apply Forall_cons; split; [done|]); by apply Forall_nil]).
    destruct l as [|v l]; [eexists; split; [done|]; apply lit_reads_as; [done|by eexists _, _]|].
    eexists. split; [done|]. cbn [json_ok] in Hok.
    apply (array_reads (line (ind ++ js "  ")) (line ind) (line_gap _ Hi') (line_gap _ Hi)); [|done].
    apply elem_texts; [|done]. eapply Forall_impl; [exact IH|]. auto.
  - assert (Forall (λ c, json_ws c = true) (ind ++ js "  ")) as Hi'
      by (apply Forall_app; split; [done|repeat (apply Forall_cons; split; [done|]); by apply Forall_nil]).
    destruct Hok as [Hcan Hok].
    destruct (member_pairs (stringify_at (ind ++ js "  ")) o) as (ms & H1 & H2);
      [eapply Forall_impl; [exact IH|]; auto|done|].
    cbn [stringify_at]. fold (member_texts_at (ind ++ js "  ")). rewrite (member_texts_at_pairs _ ms) by done.
    destruct ms as [|m ms].
    + apply Forall2_nil_inv_l in H1 as ->. eexists. split; [done|]. apply lit_reads_as; [done|by eexists _, _].
    + eexists. split; [done|].
      assert (Forall (λ c, json_ws c = true) (js " ")) as Hc by (apply Forall_cons; split; [done|by apply Forall_nil]).
      exact (object_reads (line (ind ++ js "  ")) (line ind) (js " ") (line_gap _ Hi') (line_gap _ Hi) Hc
        (m :: ms) o H1 ltac:(done) Hcan).
Qed.

Lemma json_parse_stringify2 v :
  json_ok v → ∃ s, stringify2 v = Some s ∧ reads_as s v.
Proof. intros H. by apply indented_reads. Qed.

(** ** Enumeration order

    The members of an object are listed with the array indices first, in
    ascending order, then the other keys in the order of their creation. *)

(** [x] can stand before [y]. *)
Definition before (x y : jsstr * value) : Prop :=
  match array_index x.1, array_index y.1 with
  | Some n, Some m => n < m
  | None, Some _ => False
  | _, None => True
  end.

Record wf_obj (o : obj) : Prop := {
  wf_keys : NoDup (map fst o);
  wf_order : StronglySorted before o;
}.

Lemma obj_get_None k o : obj_get k o = None ↔ k ∉ map fst o.
Proof.
  unfold obj_get. induction o as [|[k' v] o IH]; simpl; [set_solver|].
  destruct (str_eqb k' k) eqn:E.
  - unfold str_eqb in E. apply bool_decide_eq_true in E as ->. split; [done|]. set_solver.
  - unfold str_eqb in E. apply bool_decide_eq_false in E.
    change ((snd <$> find_first (λ kv, str_eqb kv.1 k) o = None) ↔ k ∉ k' :: map fst o).
    rewrite IH, not_elem_of_cons. naive_solver.
Qed.

Lemma obj_has_elem k o : obj_has k o = true ↔ k ∈ map fst o.
Proof.
  unfold obj_has. destruct (obj_get k o) eqn:E; simpl.
  - split; [|done]. intros _. destruct (decide (k ∈ map fst o)) as [|Hn]; [done|].
    apply obj_get_None in Hn. congruence.
  - apply obj_get_None in E. done.
Qed.

Lemma replace_keys k v o : map fst (obj_replace k v o) = map fst o.
Proof.
  induction o as [|[k' v'] o IH]; simpl; [done|]. destruct (str_eqb k' k) eqn:E; simpl; [|congruence].
  unfold str_eqb in E. by apply bool_decide_eq_true in E as ->.
Qed.

Lemma insert_perm k v o : obj_insert k v o ≡ₚ (k, v) :: o.
Proof.
  assert (o ++ [(k, v)] ≡ₚ (k, v) :: o) as Happ by (rewrite Permutation_app_comm; done).
  induction o as [|[k' v'] o IH]; simpl; destruct (array_index k) as [n|] eqn:E; try done.
  destruct (array_index k') as [n'|]; [|done]. destruct (n <? n'); [done|].
  rewrite IH; [apply perm_swap|]. rewrite Permutation_app_comm. done.
Qed.

(** The order depends on the keys alone. *)
Lemma sorted_keys o o' :
  map fst o = map fst o' → StronglySorted before o → StronglySorted before o'.
Proof.
  revert o'. induction o as [|x o IH]; intros [|y o'] E Hs; try done.
  injection E as E1 E2. inversion Hs as [|?? Hs' Hf]; subst. constructor; [by apply IH|].
  assert (∀ z, z ∈ o' → ∃ z0, z0 ∈ o ∧ z0.1 = z.1) as Hz.
  { intros z Hz. assert (z.1 ∈ map fst o) as Hm.
    { rewrite E2. apply list_elem_of_fmap. by exists z. }
    apply list_elem_of_fmap in Hm as (z0 & E & ?). by exists z0. }
  apply Forall_forall. intros z Hin. apply Hz in Hin as (z0 & Hin & Ez).
  rewrite Forall_forall in Hf. specialize (Hf z0 Hin). unfold before in *. by rewrite <- Ez, <- E1.
Qed.

Lemma before_trans x y z : before x y → before y z → before x z.
Proof.
  unfold before. destruct (array_index x.1), (array_index y.1), (array_index z.1); try done. lia.
Qed.

Lemma index_text k n : array_index k = Some n → k = dec n.
Proof.
  unfold array_index. case_bool_decide; [|done]. destruct (str_eqb _ k) eqn:E; simpl; [|done].
  destruct (_ <? _); [|done]. intros [= <-]. unfold str_eqb in E.
  by apply bool_decide_eq_true in E.
Qed.

Lemma sorted_snoc o x :
  StronglySorted before o → (∀ y, y ∈ o → before y x) → StronglySorted before (o ++ [x]).
Proof.
  induction 1 as [|y o Hs IH Hf]; intros Hx; simpl; [repeat constructor|].
  constructor; [apply IH; set_solver|]. apply Forall_app. split; [done|].
  repeat constructor. apply Hx. set_solver.
Qed.

Lemma insert_sorted k v o :
  k ∉ map fst o → StronglySorted before o → StronglySorted before (obj_insert k v o).
Proof.
  intros Hk Hs. destruct (array_index k) as [n|] eqn:E.
  - induction Hs as [|[k' v'] o Hs IH Hf]; simpl; rewrite E; [repeat constructor|].
    apply not_elem_of_cons in Hk as [Hne Hk]. destruct (array_index k') as [n'|] eqn:E'.
    + destruct (n <? n') eqn:El; bool_to_prop.
      * constructor; [by constructor|]. assert (before (k, v) (k', v')) as Hb.
        { unfold before. simpl. by rewrite E, E'. }
        constructor; [done|]. eapply Forall_impl; [exact Hf|]. intros z. by apply before_trans.
      * constructor; [by apply IH|]. rewrite insert_perm. constructor; [|done].
        unfold before. simpl. rewrite E, E'. apply index_text in E, E'.
        destruct (decide (n' = n)) as [->|]; [|lia]. simpl in Hne. congruence.
    + constructor; [by constructor|]. assert (before (k, v) (k', v')) as Hb.
      { unfold before. simpl. by rewrite E, E'. }
      constructor; [done|]. eapply Forall_impl; [exact Hf|]. intros z. by apply before_trans.
  - assert (obj_insert k v o = o ++ [(k, v)]) as -> by (destruct o; simpl; by rewrite E).
    apply sorted_snoc; [done|]. intros y _. unfold before. simpl. rewrite E.
    by destruct (array_index y.1).
Qed.

Lemma wf_set k v o : wf_obj o → wf_obj (obj_set k v o).
Proof.
  intros [Hk Hs]. unfold obj_set. destruct (obj_has k o) eqn:E.
  - split; [by rewrite replace_keys|]. eapply sorted_keys; [|exact Hs]. by rewrite replace_keys.
  - assert (k ∉ map fst o) as Hn by (rewrite <- obj_has_elem; congruence).
    split; [|by apply insert_sorted]. rewrite insert_perm. simpl. by apply NoDup_cons.
Qed.

(** [{...a, ...b}]. *)
Definition spread (a b : obj) : obj := fold_left (λ o kv, obj_set kv.1 kv.2 o) b a.

Lemma wf_spread a b : wf_obj a → wf_obj (spread a b).
Proof. revert a; induction b as [|[k v] b IH]; intros a Ha; simpl; [done|]. by apply IH, wf_set. Qed.

Lemma wf_nil : wf_obj [].
Proof. split; constructor. Qed.

Lemma insert_last k v o : (∀ y, y ∈ o → before y (k, v)) → obj_insert k v o = o ++ [(k, v)].
Proof.
  induction o as [|[k' v'] o IH]; intros Hb; simpl; destruct (array_index k) as [n|] eqn:E; try done.
  pose proof (Hb (k', v') ltac:(set_solver)) as H1. unfold before in H1. simpl in H1. rewrite E in H1.
  destruct (array_index k') as [n'|]; [|done]. destruct (n <? n') eqn:El; bool_to_prop; [lia|].
  f_equal. apply IH. set_solver.
Qed.

Lemma spread_app a b : wf_obj (a ++ b) → spread a b = a ++ b.
Proof.
  revert a; induction b as [|[k v] b IH]; intros a [Hk Hs]; simpl; [by rewrite app_nil_r|].
  assert (obj_set k v a = a ++ [(k, v)]) as ->.
  { rewrite map_app in Hk. apply NoDup_app in Hk as (_ & Hk & _). unfold obj_set.
    destruct (obj_has k a) eqn:E.
    - apply obj_has_elem in E. apply Hk in E. simpl in E. set_solver.
    - apply insert_last. intros y Hy. clear -Hs Hy. induction a as [|x a IH]; [by apply elem_of_nil in Hy|].
      inversion Hs as [|?? Hs' Hf]; subst. apply elem_of_cons in Hy as [->|Hy]; [|by apply IH].
      rewrite Forall_forall in Hf. apply Hf. set_solver. }
  replace (a ++ (k, v) :: b) with ((a ++ [(k, v)]) ++ b) in * by by rewrite <- app_assoc.
  apply IH. by split.
Qed.

(** An object in enumeration order is what its members build. *)
Lemma wf_canonical o : wf_obj o → obj_of_list o = o.
Proof. intros H. apply (spread_app [] o H). Qed.

Lemma wf_obj_of_list l : wf_obj (obj_of_list l).
Proof. apply (wf_spread [] l wf_nil). Qed.

(** Reading a spread: the later object wins. *)
Lemma obj_get_spread k a b :
  NoDup (map fst b) →
  obj_get k (spread a b) = match obj_get k b with Some v => Some v | None => obj_get k a end.
Proof.
  revert a; induction b as [|[k' v] b IH]; intros a Hb; simpl; [done|].
  apply NoDup_cons in Hb as [Hk Hb]. rewrite IH by done.
  unfold obj_get at 3. simpl. destruct (str_eqb k' k) eqn:E; simpl.
  - unfold str_eqb in E. apply bool_decide_eq_true in E as ->.
    simpl in Hk. apply obj_get_None in Hk as ->. apply obj_get_set.
  - change (snd <$> find_first (λ kv, str_eqb kv.1 k) b) with (obj_get k b).
    unfold str_eqb in E. apply bool_decide_eq_false in E.
    destruct (obj_get k b); [done|]. apply obj_get_set_ne. congruence.
Qed.

(** ** Objects that JSON can carry *)

Lemma prop_set k v o : prop k (obj_set k v o) = v.
Proof. unfold prop. by rewrite obj_get_set. Qed.

Lemma prop_set_ne k k' v o : k' ≠ k → prop k' (obj_set k v o) = prop k' o.
Proof. intros. unfold prop. by rewrite obj_get_set_ne. Qed.

Definition members_ok (o : obj) : Prop := ∀ k v, (k, v) ∈ o → units_ok k ∧ json_ok v.

Lemma members_json_ok o : wf_obj o → members_ok o → json_ok (VObj o).
Proof.
  intros Hw Hm. simpl. split; [by apply wf_canonical|]. clear Hw.
  induction o as [|[k v] o IH]; simpl; [done|]. split; [apply Hm, list_elem_of_here|].
  apply IH. intros k' v' Hin. by apply Hm, list_elem_of_further.
Qed.

Lemma wf_decide o :
  bool_decide (NoDup (map fst o)) && forallb (λ kv, negb (is_some (array_index kv.1))) o = true →
  wf_obj o.
Proof.
  intros H. bool_to_prop. split; [done|]. rename select (forallb _ _ = true) into Hf.
  rewrite forallb_forall in Hf.
  assert (∀ x y, y ∈ o → before x y) as Hb.
  { intros x y Hy. unfold before. apply list_elem_of_In, Hf in Hy. 
    destruct (array_index x.1), (array_index y.1); done. }
  clear Hf. induction o as [|x o IH]; [constructor|]. constructor.
  - apply IH; [by eapply NoDup_cons_1_2|]. intros. apply Hb. by apply list_elem_of_further.
  - apply Forall_forall. intros y Hy. by apply Hb, list_elem_of_further.
Qed.

Definition unitsb (s : jsstr) : bool := forallb (λ c, (c <? 65536)%N) s.

Lemma unitsb_ok s : unitsb s = true → units_ok s.
Proof.
  unfold unitsb, units_ok. rewrite forallb_forall, Forall_forall. intros H c Hc.
  apply list_elem_of_In, H in Hc. by apply N.ltb_lt.
Qed.

Lemma elem_set k v o k' v' : (k', v') ∈ obj_set k v o → (k', v') = (k, v) ∨ (k', v') ∈ o.
Proof.
  unfold obj_set. destruct (obj_has k o).
  - induction o as [|[k1 v1] o IH]; [by intros ?%elem_of_nil|]. simpl. destruct (str_eqb k1 k); set_solver.
  - rewrite insert_perm. set_solver.
Qed.

Lemma members_ok_set k v o : units_ok k → json_ok v → members_ok o → members_ok (obj_set k v o).
Proof. intros Hk Hv Ho k' v' [[= -> ->]|Hin]%elem_set; [done|by apply Ho]. Qed.

(** ** Printed texts have no white space at their ends *)

Definition json_num_char (c : N) : bool := is_digit c || (c =? 43) || (c =? 45) || (c =? 46) || (c =? 69) || (c =? 101).

Lemma num_char_ws c : json_num_char c = true → is_ws c = false.
Proof.
  unfold json_num_char, is_digit. intros H. rewrite !orb_true_iff, andb_true_iff, !N.eqb_eq, !N.leb_le in H.
  assert (c ∈ [48;49;50;51;52;53;54;55;56;57;43;45;46;69;101]) as Hc by (set_unfold; lia).
  set_unfold in Hc. destruct_or! Hc; subst; done.
Qed.

(** A reader that leaves [t] of [s] took characters of numbers only. *)
Definition eats (s t : jsstr) : Prop := ∃ p, s = p ++ t ∧ Forall (λ c, json_num_char c = true) p.

Lemma eats_refl s : eats s s.
Proof. by exists []. Qed.

Lemma eats_trans s t u : eats s t → eats t u → eats s u.
Proof.
  intros (p & -> & Hp) (q & -> & Hq). exists (p ++ q). split; [by rewrite app_assoc|]. by apply Forall_app.
Qed.

Lemma eats_cons c s t : json_num_char c = true → eats s t → eats (c :: s) t.
Proof. intros Hc (p & -> & Hp). exists (c :: p). split; [done|by constructor]. Qed.

Lemma digit_num_char c : is_digit c = true → json_num_char c = true.
Proof. unfold json_num_char. by intros ->. Qed.

Lemma span_digits_eats s : eats s (span_digits s).2.
Proof.
  induction s as [|c s IH]; [apply eats_refl|]. simpl. destruct (is_digit c) eqn:E; [|apply eats_refl].
  destruct (span_digits s). by apply eats_cons; [apply digit_num_char|].
Qed.

Lemma nonempty_digits_eats s d t : nonempty_digits s = Some (d, t) → eats s t.
Proof.
  unfold nonempty_digits. pose proof (span_digits_eats s) as H. destruct (span_digits s) as [[|c ds] u]; [done|].
  by intros [= _ <-].
Qed.

Lemma read_exp_eats s : eats s (read_exp s).2.
Proof.
  destruct s as [|c s]; [apply eats_refl|]. unfold read_exp. destruct (_ || _) eqn:E; [|apply eats_refl].
  assert (eats s (exp_sign s).2) as Hs.
  { destruct s as [|b s]; [apply eats_refl|]. simpl. destruct (N.eqb_spec b 45) as [->|].
    - by apply eats_cons; [|apply eats_refl].
    - destruct (N.eqb_spec b 43) as [->|]; [|apply eats_refl]. by apply eats_cons; [|apply eats_refl]. }
  destruct (exp_sign s) as [neg t]. pose proof (span_digits_eats t) as Ht. destruct (span_digits t) as [[|d ds] u].
  - apply eats_refl.
  - apply eats_cons; [|by eapply eats_trans]. unfold json_num_char. destruct (c =? 101), (c =? 69); by rewrite ?orb_true_r.
Qed.

Lemma parse_num_chars s x : parse_num s = Some (x, []) → Forall (λ c, is_ws c = false) s.
Proof.
  intros H. assert (eats s []) as (p & -> & Hp).
  { unfold parse_num in H. assert (eats s (read_sign s).2) as Hs.
    { destruct s as [|c s]; [apply eats_refl|]. simpl. destruct (N.eqb_spec c 45) as [->|]; [|apply eats_refl].
      by apply eats_cons; [|apply eats_refl]. }
    destruct (read_sign s) as [neg s1]. destruct (read_int s1) as [[ip s2]|] eqn:E1; [|done]. cbn [mbind option_bind] in H.
    destruct (read_frac s2) as [[fp s3]|] eqn:E2; [|done]. cbn [mbind option_bind] in H.
    destruct (read_expo s3) as [[e s4]|] eqn:E3; [|done]. cbn [mbind option_bind] in H.
    injection H as _ ->. eapply eats_trans; [exact Hs|]. eapply eats_trans.
    { destruct s1 as [|c s1]; [done|]. simpl in E1. destruct (N.eqb_spec c 48) as [->|].
      - injection E1 as _ <-. by apply eats_cons; [|apply eats_refl].
      - by apply nonempty_digits_eats in E1. }
    eapply eats_trans.
    { destruct s2 as [|c s2]; [injection E2 as _ <-; apply eats_refl|]. simpl in E2.
      destruct (N.eqb_spec c 46) as [->|].
      - by apply eats_cons; [|apply nonempty_digits_eats in E2].
      - injection E2 as _ <-. apply eats_refl. }
    destruct s3 as [|c s3]; [apply eats_refl|]. unfold read_expo in E3. destruct (_ || _); [|done].
    pose proof (read_exp_eats (c :: s3)) as He. destruct (read_exp (c :: s3)) as [e' t].
    case_bool_decide; [done|]. by injection E3 as _ ->. }
  rewrite app_nil_r. eapply Forall_impl; [exact Hp|]. intros c. apply num_char_ws.
Qed.

Lemma stringify_trim v s : json_ok v → stringify v = Some s → trim s = s.
Proof.
  destruct v; intros Hv.
  - done.
  - intros [= <-]. vm_compute. reflexivity.
  - intros [= <-]. destruct b; vm_compute; reflexivity.
  - destruct Hv as [Hf Hp]. cbn. rewrite Hf. intros [= <-]. apply trim_id, no_ws_trimmed. by eapply parse_num_chars.
  - intros [= <-]. by apply trim_ends.
  - rewrite stringify_arr. intros [= <-]. by apply trim_ends.
  - rewrite stringify_obj. intros [= <-]. by apply trim_ends.
Qed.
