(* ===== verification/JsFixed.v ===== *)
(** * Numbers as fixed-point text

    [Number.prototype.toFixed], [parseFloat], [Math.round], and
    [text.replace(r, t)] of the first match: the language's functions that the
    formatting of amounts uses.  [toFixed] rounds the exact value of the
    number, to the larger of two candidates on a tie. *)
From S2P Require Import Prelude JsString JsNumber Regex.
From Stdlib Require Import SpecFloat.

Open Scope Z_scope.

(** ** Definitions *)

(** The integer nearest to [m * 2 ^ e * 10 ^ f], the larger one on a tie. *)
Definition fixed_units (f : nat) (m e : Z) : Z :=
  let a := m * 2 ^ Z.max 0 e * 10 ^ Z.of_nat f in
  let b := 2 ^ Z.max 0 (- e) in
  (2 * a + b) / (2 * b).

(** The digits of [n] with the point before the last [f]. *)
Definition fixed_text (f : nat) (n : N) : jsstr :=
  match f with
  | O => dec n
  | _ =>
      let m := pad_start (S f) 48%N (dec n) in
      take (length m - f) m ++ js "." ++ drop (length m - f) m
  end.

(** At least 10^21: written with an exponent. *)
Definition huge (x : num) : bool :=
  match x with
  | S754_finite _ m e => 10 ^ 21 * 2 ^ Z.max 0 (- e) <=? Zpos m * 2 ^ Z.max 0 e
  | _ => false
  end.

(** [x.toFixed(f)] for [f] at most 100. *)
Definition to_fixed (f : nat) (x : num) : jsstr :=
  match x with
  | S754_zero _ => fixed_text f 0
  | S754_finite s m e =>
      (if s then js "-" else []) ++
      (if huge x
       then num_to_str (S754_finite false m e)
       else fixed_text f (Z.to_N (fixed_units f (Zpos m) e)))
  | _ => num_to_str x
  end.

(** [Number.parseFloat(s)]: the longest prefix that is a decimal literal. *)
Definition parse_float (s : jsstr) : num :=
  let unsigned neg u :=
    if starts_with (js "Infinity") u then S754_infinity neg
    else match read_decimal neg u with Some (x, _) => x | None => nNaN end in
  match trim_start s with
  | 45%N :: u => unsigned true u
  | 43%N :: u => unsigned false u
  | u => unsigned false u
  end.

(** [Math.round(x)]: the nearest integer, the larger one on a tie; a zero
    keeps the sign of the argument. *)
Definition nround (x : num) : num :=
  match x with
  | S754_finite s m e =>
      let a := (if s then Zneg m else Zpos m) * 2 ^ Z.max 0 e in
      let b := 2 ^ Z.max 0 (- e) in
      let z := (2 * a + b) / (2 * b) in
      if z =? 0 then S754_zero s else of_Z z
  | _ => x
  end.

(** [s.replace(r, t)] without the [g] flag, [t] computed from the captures. *)
Definition rx_replace_first (r : re) (t : caps → jsstr) (s : jsstr) : jsstr :=
  match rx_find r None s with
  | Some (g, pre, _, rest) => pre ++ t g ++ rest
  | None => s
  end.

(** ** The text of [toFixed] *)

Lemma fixed_units_near f m e :
  0 ≤ m →
  let a := m * 2 ^ Z.max 0 e * 10 ^ Z.of_nat f in
  let b := 2 ^ Z.max 0 (- e) in
  0 ≤ fixed_units f m e ∧ 2 * Z.abs (fixed_units f m e * b - a) ≤ b.
Proof.
  intros Hm a b. unfold fixed_units. fold a b.
  assert (0 < b) as Hb by (unfold b; apply Z.pow_pos_nonneg; lia).
  assert (0 ≤ a) as Ha by (unfold a; repeat apply Z.mul_nonneg_nonneg; try apply Z.pow_nonneg; lia).
  split; [apply Z.div_pos; lia|].
  pose proof (Z.div_mod (2 * a + b) (2 * b) ltac:(lia)) as Hd.
  pose proof (Z.mod_pos_bound (2 * a + b) (2 * b) ltac:(lia)) as Hr. nia.
Qed.

Lemma digits_value_zeros n s : digits_value (replicate n 48%N ++ s) = digits_value s.
Proof.
  unfold digits_value. rewrite fold_left_app. f_equal. induction n as [|n IH]; [done|]. exact IH.
Qed.

(** An unsigned decimal: an integral part and [f] digits after the point. *)
Record decimal (f : nat) (ip fp : jsstr) : Prop := {
  decimal_int : ip ≠ [] ∧ Forall (λ c, is_digit c = true) ip;
  decimal_frac : length fp = f ∧ Forall (λ c, is_digit c = true) fp;
}.

Definition point (fp : jsstr) : jsstr := match fp with [] => [] | _ => 46%N :: fp end.

Lemma fixed_text_decimal f n :
  ∃ ip fp, fixed_text f n = ip ++ point fp ∧ decimal f ip fp ∧ digits_value (ip ++ fp) = n.
Proof.
  destruct f as [|f].
  - exists (dec n), []. split; [by rewrite app_nil_r|]. split; [|by rewrite app_nil_r, dec_value].
    split; [split; [apply dec_nonempty|apply dec_digits]|done].
  - unfold fixed_text. set (m := pad_start _ _ _).
    assert (S (S f) ≤ length m)%nat as Hl.
    { unfold m, pad_start. rewrite length_app, length_replicate. lia. }
    assert (Forall (λ c, is_digit c = true) m) as Hm.
    { unfold m, pad_start. apply Forall_app_2; [by apply Forall_replicate|apply dec_digits]. }
    exists (take (length m - S f) m), (drop (length m - S f) m).
    assert (length (drop (length m - S f) m) = S f) as Hd by (rewrite length_drop; lia).
    split_and!.
    + by destruct (drop (length m - S f) m).
    + split; [split; [|by apply Forall_take]|split; [done|by apply Forall_drop]].
      intros E. apply (f_equal length) in E. rewrite length_take in E. change (length []) with 0%nat in E. lia.
    + rewrite take_drop. unfold m, pad_start. by rewrite digits_value_zeros, dec_value.
Qed.

(** Sign, significand and exponent of a finite number. *)
Definition parts (x : num) : option (bool * Z * Z) :=
  match x with
  | S754_finite s m e => Some (s, Zpos m, e)
  | S754_zero _ => Some (false, 0, 0)
  | _ => None
  end.

Lemma to_fixed_parts f x s m e :
  parts x = Some (s, m, e) → huge x = false →
  0 ≤ m ∧ to_fixed f x = (if s then js "-" else []) ++ fixed_text f (Z.to_N (fixed_units f m e)).
Proof.
  intros E Hx. destruct x as [s'|s'| |s' m' e']; try done; injection E as <- <- <-.
  - split; [done|]. by cbn [to_fixed app].
  - split; [done|]. unfold to_fixed. by rewrite Hx.
Qed.

(** ** Evaluations *)

Example fixed_half : to_fixed 1 (str_to_num (js "2.25")) = js "2.3". Proof. vm_compute. reflexivity. Qed.
Example fixed_below : to_fixed 2 (str_to_num (js "1.005")) = js "1.00". Proof. vm_compute. reflexivity. Qed.
Example fixed_neg : to_fixed 4 (str_to_num (js "-0.00001")) = js "-0.0000". Proof. vm_compute. reflexivity. Qed.
Example fixed_large : to_fixed 2 (str_to_num (js "1e21")) = js "1e+21". Proof. vm_compute. reflexivity. Qed.
Example fixed_tiny : to_fixed 20 (str_to_num (js "1e-7")) = js "0.00000010000000000000". Proof. vm_compute. reflexivity. Qed.
Example float_prefix : parse_float (js " -12.5px") = str_to_num (js "-12.5"). Proof. vm_compute. reflexivity. Qed.
Example round_tie : nround (str_to_num (js "-2.5")) = of_Z (-2). Proof. vm_compute. reflexivity. Qed.
Example round_big : nround (str_to_num (js "1e300")) = str_to_num (js "1e300"). Proof. vm_compute. reflexivity. Qed.
Example round_small : nround (str_to_num (js "-0.2")) = S754_zero true. Proof. vm_compute. reflexivity. Qed.
