(* ===== verification/Currency.v ===== *)
(** * Amounts

    Model of src/web/default/src/lib/currency.ts (how an amount is shown in
    the currency the administrator chose), of the conversions between quota
    units and displayed amounts in lib/format.ts, and of the part of
    stores/system-config-store.ts and hooks/use-system-config.ts that keeps
    the currency settings.  The settings in the store are an argument of
    every function that reads them. *)
From S2P Require Import Prelude JsString JsNumber Regex JsValue JsFixed.
From Stdlib Require Import SpecFloat.

Open Scope N_scope.

Definition n0 : num := of_Z 0.
Definition n1 : num := of_Z 1.
Definition n1000 : num := of_Z 1000.

(** The browser's formatter of numbers (the language of the browser, at least
    0 and at most the given number of fraction digits), with the narrow symbol
    of a currency or without one, and [Math.pow], whose result the language
    leaves to the implementation. *)
Class NumberApi := {
  intl_currency : jsstr → nat → num → jsstr;
  intl_decimal : nat → num → jsstr;
  math_pow : num → num → num;
}.

(** ** The settings *)

Record CurrencyConfig := Currency {
  displayInCurrency : bool;
  quotaDisplayType : jsstr;
  quotaPerUnit : num;
  usdExchangeRate : num;
  customCurrencySymbol : jsstr;
  customCurrencyExchangeRate : num;
}.

Definition DEFAULT_CURRENCY_CONFIG : CurrencyConfig :=
  Currency true (js "USD") (of_Z 500000) n1 (js "¤") n1.

(** What the store has of them: it is restored from the browser's storage,
    where a member can be missing or null. *)
Record StoredCurrency := Stored {
  st_displayInCurrency : option bool;
  st_quotaDisplayType : option jsstr;
  st_quotaPerUnit : option num;
  st_usdExchangeRate : option num;
  st_customCurrencySymbol : option jsstr;
  st_customCurrencyExchangeRate : option num;
}.

Definition stored (c : CurrencyConfig) : StoredCurrency :=
  Stored (Some (displayInCurrency c)) (Some (quotaDisplayType c)) (Some (quotaPerUnit c))
    (Some (usdExchangeRate c)) (Some (customCurrencySymbol c)) (Some (customCurrencyExchangeRate c)).

Definition DISPLAY_TYPE_VALUES : list jsstr := [js "USD"; js "CNY"; js "TOKENS"; js "CUSTOM"].

Definition isCurrencyDisplayType (v : value) : bool :=
  match v with VStr s => includes s DISPLAY_TYPE_VALUES | _ => false end.

(** The fallback is USD when it is not given. *)
Definition parseCurrencyDisplayType (v : value) (fallback : jsstr) : jsstr :=
  match v with VStr s => if isCurrencyDisplayType v then s else fallback | _ => fallback end.

(** [x && x > 0 ? x : d]. *)
Definition positive_or (o : option num) (d : num) : num :=
  match o with
  | Some x => if num_truthy x && nltb n0 x then x else d
  | None => d
  end.

Definition getConfig (store : option StoredCurrency) : CurrencyConfig :=
  let currency := from_opt (stored DEFAULT_CURRENCY_CONFIG) store in
  let d := DEFAULT_CURRENCY_CONFIG in
  Currency
    (from_opt (displayInCurrency d) (st_displayInCurrency currency))
    (from_opt (quotaDisplayType d) (st_quotaDisplayType currency))
    (positive_or (st_quotaPerUnit currency) (quotaPerUnit d))
    (positive_or (st_usdExchangeRate currency) (usdExchangeRate d))
    (str_or (from_opt [] (trim <$> st_customCurrencySymbol currency)) (customCurrencySymbol d))
    (positive_or (st_customCurrencyExchangeRate currency) (customCurrencyExchangeRate d)).

(** ** The store and its loading *)

Record SystemConfig := System {
  systemName : jsstr;
  logo : jsstr;
  footerHtml : option jsstr;
  demoSiteEnabled : option bool;
  displayTokenStatEnabled : option bool;
  currency : CurrencyConfig;
}.

Definition DEFAULT_SYSTEM_NAME : jsstr := js "New API".
Definition DEFAULT_LOGO : jsstr := js "/logo.png".

(** The store; [config] as it is in memory, where the members of the currency
    can be missing after it was restored.  [loadedLogoUrl], which only the
    preloading of the logo uses, is left out. *)
Record ConfigStore := Store {
  cs_name : jsstr;
  cs_logo : jsstr;
  cs_footer : option jsstr;
  cs_demo : option bool;
  cs_tokenStat : option bool;
  cs_currency : StoredCurrency;
  cs_loading : bool;
}.

Definition initialStore : ConfigStore :=
  Store DEFAULT_SYSTEM_NAME DEFAULT_LOGO None None None (stored DEFAULT_CURRENCY_CONFIG) true.

(** The data of the status response. *)
Record StatusData := Status {
  system_name : option jsstr;
  status_logo : option jsstr;
  footer_html : option jsstr;
  demo_site_enabled : option bool;
  display_token_stat_enabled : option bool;
  display_in_currency : option bool;
  quota_display_type : option jsstr;
  quota_per_unit : value;
  usd_exchange_rate : value;
  custom_currency_symbol : option jsstr;
  custom_currency_exchange_rate : value;
}.

Definition toNumber (v : value) (fallback : num) : num :=
  match v with
  | VNum x => if is_nan x then fallback else x
  | VStr s => let parsed := str_to_num s in if is_nan parsed then fallback else parsed
  | _ => fallback
  end.

(** [{}] is [None]. *)
Definition mapStatusDataToConfig (data : option StatusData) : option SystemConfig :=
  data ← data;
  let d := DEFAULT_CURRENCY_CONFIG in
  Some (System
    (str_or (from_opt [] (system_name data)) DEFAULT_SYSTEM_NAME)
    (str_or (from_opt [] (status_logo data)) DEFAULT_LOGO)
    (footer_html data) (demo_site_enabled data) (display_token_stat_enabled data)
    (Currency
      (from_opt (displayInCurrency d) (display_in_currency data))
      (from_opt (quotaDisplayType d) (quota_display_type data))
      (toNumber (quota_per_unit data) (quotaPerUnit d))
      (toNumber (usd_exchange_rate data) (usdExchangeRate d))
      (str_or (from_opt [] (trim <$> custom_currency_symbol data)) (customCurrencySymbol d))
      (toNumber (custom_currency_exchange_rate data) (customCurrencyExchangeRate d)))).

Definition setConfig (newConfig : option SystemConfig) (s : ConfigStore) : ConfigStore :=
  match newConfig with
  | Some c =>
      Store (systemName c) (logo c) (footerHtml c) (demoSiteEnabled c) (displayTokenStatEnabled c)
        (stored (currency c)) (cs_loading s)
  | None => s
  end.

Definition setLoading (b : bool) (s : ConfigStore) : ConfigStore :=
  Store (cs_name s) (cs_logo s) (cs_footer s) (cs_demo s) (cs_tokenStat s) (cs_currency s) b.

(** The response of the status request; [None] stands for a request that
    failed and for a response without success. *)
Definition loadSystemConfig (response : option (option StatusData)) (s : ConfigStore) : ConfigStore :=
  let s := setLoading true s in
  let s := match response with Some data => setConfig (mapStatusDataToConfig data) s | None => s end in
  setLoading false s.

(** ** How amounts are shown *)

Inductive DisplayMeta :=
  | MetaCurrency (symbol currencyCode : jsstr) (exchangeRate : num)
  | MetaCustom (symbol : jsstr) (exchangeRate : num)
  | MetaTokens (quotaPerUnit : num).

Definition is_tokens (m : DisplayMeta) : bool := match m with MetaTokens _ => true | _ => false end.

Definition usd_meta : DisplayMeta := MetaCurrency (js "$") (js "USD") n1.

Definition getDisplayMeta (c : CurrencyConfig) : DisplayMeta :=
  if str_eqb (quotaDisplayType c) (js "CNY") then MetaCurrency (js "¥") (js "CNY") (usdExchangeRate c)
  else if str_eqb (quotaDisplayType c) (js "CUSTOM") then
    MetaCustom (customCurrencySymbol c) (customCurrencyExchangeRate c)
  else if str_eqb (quotaDisplayType c) (js "TOKENS") then MetaTokens (quotaPerUnit c)
  else usd_meta.

Definition getBillingDisplayMeta (c : CurrencyConfig) : DisplayMeta :=
  match getDisplayMeta c with MetaTokens _ => usd_meta | m => m end.

Definition getCurrencyDisplay (store : option StoredCurrency) : CurrencyConfig * DisplayMeta :=
  let config := getConfig store in (config, getDisplayMeta config).

Record FormatOptions := Options {
  digitsLarge : nat;
  digitsSmall : nat;
  abbreviate : bool;
  minimumNonZero : num;
}.

Record CurrencyFormatOptions := PartialOptions {
  opt_digitsLarge : option nat;
  opt_digitsSmall : option nat;
  opt_abbreviate : option bool;
  opt_minimumNonZero : option num;
}.

Definition DEFAULT_FORMAT_OPTIONS : FormatOptions := Options 2 4 true n0.

Definition mergeOptions (options : option CurrencyFormatOptions) : FormatOptions :=
  match options with
  | None => DEFAULT_FORMAT_OPTIONS
  | Some o =>
      Options (from_opt (digitsLarge DEFAULT_FORMAT_OPTIONS) (opt_digitsLarge o))
        (from_opt (digitsSmall DEFAULT_FORMAT_OPTIONS) (opt_digitsSmall o))
        (from_opt (abbreviate DEFAULT_FORMAT_OPTIONS) (opt_abbreviate o))
        (from_opt (minimumNonZero DEFAULT_FORMAT_OPTIONS) (opt_minimumNonZero o))
  end.

(** The patterns of removeTrailingZeros: [/(\.[0-9]*?)0+$/] and [/\.$/]. *)
Definition trailing_zeros_re : re :=
  rseq [RGrp 1 (RSeq (RLit (js ".")) (RLazy (RChr is_digit))); RPlus (RChr (N.eqb 48)); REnd].
Definition trailing_point_re : re := rseq [RLit (js "."); REnd].

Definition removeTrailingZeros (s : jsstr) : jsstr :=
  if negb (str_includes (js ".") s) then s
  else rx_replace_first trailing_point_re (λ _, [])
         (rx_replace_first trailing_zeros_re (λ g, from_opt [] (cap 1 g)) s).

Definition formatNumberWithSuffix (x : num) (large small : nat) (abbr : bool) : jsstr :=
  let abs := nabs x in
  if abbr && nleb n1000 abs then removeTrailingZeros (to_fixed 1 (ndiv x n1000)) ++ js "k"
  else
    let digits := if nleb n1 abs then large else small in
    removeTrailingZeros (to_fixed digits x).

Section Format.
Context `{NumberApi}.
Implicit Types (store : option StoredCurrency).

Definition adjustForMinimum (x : num) (digits : nat) (minimumNonZero : num) : num :=
  if neqb x n0 then x
  else
    let threshold :=
      if nltb n0 minimumNonZero then minimumNonZero
      else math_pow (of_Z 10) (SFopp (of_nat digits)) in
    let abs := nabs x in
    if nltb n0 abs && nltb abs threshold then
      if nltb n0 x then threshold else SFopp threshold
    else x.

Definition formatCurrencyValue (x : num) (o : FormatOptions) (meta : DisplayMeta) : jsstr :=
  let digits := if nleb n1 (nabs x) then digitsLarge o else digitsSmall o in
  let adjusted := adjustForMinimum x digits (minimumNonZero o) in
  match meta with
  | MetaTokens _ => formatNumberWithSuffix x (digitsLarge o) (digitsSmall o) (abbreviate o)
  | MetaCurrency _ code _ => intl_currency code digits adjusted
  | MetaCustom symbol _ => symbol ++ intl_decimal digits adjusted
  end.

(** [amount == null || Number.isNaN(amount)] shows a dash. *)
Definition dash : jsstr := js "-".

Definition formatCurrencyFromUSD store (amountUSD : option num) (options : option CurrencyFormatOptions) : jsstr :=
  match amountUSD with
  | None => dash
  | Some amount =>
      if is_nan amount then dash
      else
        let '(config, meta) := getCurrencyDisplay store in
        let merged := mergeOptions options in
        match meta with
        | MetaTokens _ =>
            formatNumberWithSuffix (nmul amount (quotaPerUnit config)) 0 (digitsSmall merged) (abbreviate merged)
        | MetaCurrency _ _ rate | MetaCustom _ rate => formatCurrencyValue (nmul amount rate) merged meta
        end
  end.

Definition formatBillingCurrencyFromUSD store (amountUSD : option num) (options : option CurrencyFormatOptions)
    : jsstr :=
  match amountUSD with
  | None => dash
  | Some amount =>
      if is_nan amount then dash
      else
        let meta := getBillingDisplayMeta (getConfig store) in
        let x := match meta with
                 | MetaCurrency _ _ rate | MetaCustom _ rate => nmul amount rate
                 | MetaTokens _ => amount
                 end in
        formatCurrencyValue x (mergeOptions options) meta
  end.

Definition formatQuotaWithCurrency store (quota : option num) (options : option CurrencyFormatOptions) : jsstr :=
  match quota with
  | None => dash
  | Some q =>
      if is_nan q then dash
      else formatCurrencyFromUSD store (Some (ndiv q (quotaPerUnit (getConfig store)))) options
  end.

Definition formatLocalCurrencyAmount store (amount : option num) (options : option CurrencyFormatOptions) : jsstr :=
  match amount with
  | None => dash
  | Some x =>
      if is_nan x then dash
      else formatCurrencyValue x (mergeOptions options) (getBillingDisplayMeta (getConfig store))
  end.

Definition getCurrencyLabel store : jsstr :=
  let '(config, meta) := getCurrencyDisplay store in
  if is_tokens meta then js "Tokens"
  else if str_eqb (quotaDisplayType config) (js "CNY") then js "CNY"
  else if str_eqb (quotaDisplayType config) (js "CUSTOM") then
    match meta with MetaCustom symbol _ => symbol | _ => js "Custom" end
  else js "USD".

Definition isCurrencyDisplayEnabled store : bool := negb (is_tokens (getCurrencyDisplay store).2).

(** ** lib/format.ts *)

Definition formatQuota store (quota : num) : jsstr :=
  formatQuotaWithCurrency store (Some quota) (Some (PartialOptions (Some 2%nat) (Some 4%nat) (Some true) None)).

Definition formatLogQuota store (quota : num) : jsstr :=
  formatQuotaWithCurrency store (Some quota) (Some (PartialOptions (Some 4%nat) (Some 6%nat) (Some false) None)).

Definition formatCurrencyUSD store (x : option num) : jsstr := formatCurrencyFromUSD store x None.

End Format.

Definition meta_rate (m : DisplayMeta) : num :=
  match m with MetaCurrency _ _ rate | MetaCustom _ rate => rate | MetaTokens _ => n1 end.

(** The quota units of an amount that was typed in the displayed currency. *)
Definition parseQuotaFromDollars (store : option StoredCurrency) (amount : num) : num :=
  if negb (is_finite amount) then n0
  else
    let '(config, meta) := getCurrencyDisplay store in
    if is_tokens meta then nround amount
    else
      let exchangeRate := meta_rate meta in
      let usdAmount := if nltb n0 exchangeRate then ndiv amount exchangeRate else amount in
      nround (nmul usdAmount (quotaPerUnit config)).

(** The amount in the displayed currency that is offered for editing. *)
Definition quotaUnitsToDollars (store : option StoredCurrency) (units : num) : num :=
  let '(config, meta) := getCurrencyDisplay store in
  if is_tokens meta then units
  else
    let usdAmount := ndiv units (quotaPerUnit config) in
    nmul usdAmount (meta_rate meta).

(** [x % y] for finite numbers, [y] not zero: exact, with the sign of [x]. *)
Definition nrem (x y : num) : num :=
  match x, y with
  | S754_finite s m1 e1, S754_finite _ m2 e2 =>
      let e := Z.min e1 e2 in
      let r := ((Zpos m1 * 2 ^ (e1 - e)) mod (Zpos m2 * 2 ^ (e2 - e)))%Z in
      binary_normalize prec emax (if s then - r else r)%Z e s
  | S754_zero _, S754_finite _ _ _ => x
  | S754_zero _, S754_infinity _ | S754_finite _ _ _, S754_infinity _ => x
  | _, _ => nNaN
  end.

Definition formatTokens (tokens : num) : jsstr :=
  if neqb tokens n0 then dash
  else if nltb tokens n1000 then num_to_str tokens
  else if nltb tokens (of_Z 1000000) then to_fixed 1 (ndiv tokens n1000) ++ js "K"
  else to_fixed 2 (ndiv tokens (of_Z 1000000)) ++ js "M".

Definition formatUseTime (seconds : num) : jsstr :=
  if nltb seconds (of_Z 60) then to_fixed 1 seconds ++ js "s"
  else
    let minutes := nfloor (ndiv seconds (of_Z 60)) in
    let remainingSeconds := nrem seconds (of_Z 60) in
    num_to_str minutes ++ js "m " ++ to_fixed 0 remainingSeconds ++ js "s".
