(* ===== verification/CurrencyFacts.v ===== *)
(** * Facts about amounts

    The patterns of removeTrailingZeros on the texts of toFixed, and what a
    shortened number shows. *)
From S2P Require Import Prelude JsString JsNumber Regex JsValue JsFixed Currency.
From Stdlib Require Import SpecFloat.

Open Scope N_scope.

(** ** Trailing zeros *)

Section Lazy.
Context {X : Type} (f : N → bool) (g : caps) (k : cont X).

Lemma lazy_bound_stops y n p s x :
  (length (y ++ s) ≤ n)%nat → Forall (λ c, f c = true) y →
  (∀ p' y1 y2, y = y1 ++ y2 → y2 ≠ [] → k p' (y2 ++ s) g = None) →
  (∀ p', k p' s g = Some x) →
  star_lazy (run (RChr f)) k n p (y ++ s) g = Some x.
Proof.
  intros Hn Hy Hk Hs. revert n p Hn Hk. induction Hy as [|c y Hc Hy IH]; intros n p Hn Hk.
  - destruct n; cbn [app star_lazy]; by rewrite Hs.
  - destruct n as [|n]; [simpl in Hn; lia|]. cbn [star_lazy].
    rewrite (Hk p [] (c :: y)) by done. cbn [app]. rewrite run_chr_cons, Hc, (tail_shorter c).
    apply IH; [simpl in Hn; lia|]. intros p' y1 y2 -> Hne. by apply (Hk p' (c :: y1)).
Qed.

(** A lazy repetition takes the shortest prefix that lets the rest succeed. *)
Lemma lazy_stops y p s x :
  Forall (λ c, f c = true) y →
  (∀ p' y1 y2, y = y1 ++ y2 → y2 ≠ [] → k p' (y2 ++ s) g = None) →
  (∀ p', k p' s g = Some x) →
  run (RLazy (RChr f)) p (y ++ s) g k = Some x.
Proof. intros. by apply lazy_bound_stops. Qed.

Lemma lazy_fails p s :
  (∀ p' z, (∃ y, s = y ++ z) → k p' z g = None) → run (RLazy (RChr f)) p s g k = None.
Proof.
  change (run (RLazy (RChr f)) p s g k) with (star_lazy (run (RChr f)) k (length s) p s g).
  generalize (length s). intros n. revert p s. induction n as [|n IH]; intros p s Hk; cbn [star_lazy]; rewrite Hk by (by exists []); [done|].
  destruct s as [|c s]; [done|]. rewrite run_chr_cons. destruct (f c); [|done]. rewrite tail_shorter.
  apply IH. intros p' z [y ->]. apply Hk. by exists (c :: y).
Qed.

End Lazy.

Definition zeros (s : jsstr) : bool := forallb (N.eqb 48) s.

Lemma run_zeros {X} p s g (k : cont X) :
  run (RSeq (RStar (RChr (N.eqb 48))) REnd) p s g k = if zeros s then k (lastc p s) [] g else None.
Proof.
  revert p. induction s as [|c s IH]; intros p; rewrite run_seq, run_star.
  - done.
  - rewrite run_chr_cons, tail_shorter. cbn [zeros forallb]. destruct (48 =? c) eqn:E; [|done].
    specialize (IH (Some c)). rewrite run_seq in IH. rewrite IH. cbn [andb]. rewrite lastc_cons.
    fold (zeros s). destruct (zeros s); [|done]. by destruct (k _ _ _).
Qed.

Lemma run_zeros1 {X} p s g (k : cont X) :
  run (RSeq (RPlus (RChr (N.eqb 48))) REnd) p s g k
  = if truthy s && zeros s then k (lastc p s) [] g else None.
Proof.
  unfold RPlus. rewrite run_seq, run_seq. destruct s as [|c s]; [done|].
  rewrite run_chr_cons. cbn [truthy andb zeros forallb]. destruct (48 =? c); [|done].
  rewrite <- run_seq, run_zeros, lastc_cons. done.
Qed.

(** The digits without the zeros at their end. *)
Definition stripped (fp : jsstr) : jsstr := (strip_zeros fp).1.

Lemma strip_zeros_app s : s = stripped s ++ replicate (strip_zeros s).2 48.
Proof.
  unfold stripped. induction s as [|c s IH]; [done|]. cbn [strip_zeros].
  destruct (strip_zeros s) as [[|d u] z]; cbn [fst snd app replicate] in *.
  - destruct (N.eqb_spec c 48) as [-> |]; cbn; by rewrite <- IH.
  - by rewrite <- IH.
Qed.

Lemma stripped_end s y c : stripped s = y ++ [c] → c ≠ 48.
Proof.
  unfold stripped. revert y. induction s as [|d s IH]; intros y; cbn [strip_zeros]; [by destruct y|].
  destruct (strip_zeros s) as [[|e u] z]; cbn [fst] in *.
  - destruct (N.eqb_spec d 48) as [-> |]; cbn; [by destruct y|].
    destruct y as [|d' y]; [by intros [= <-]|by destruct y].
  - destruct y as [|d' y]; [done|]. intros [= _ E]. by apply (IH y).
Qed.

Lemma stripped_digits s : Forall (λ c, is_digit c = true) s → Forall (λ c, is_digit c = true) (stripped s).
Proof. rewrite (strip_zeros_app s) at 1. by intros [? _]%Forall_app. Qed.

Lemma zeros_end y c : zeros (y ++ [c]) = zeros y && (48 =? c).
Proof. unfold zeros. rewrite forallb_app. cbn. by rewrite andb_true_r. Qed.

Lemma not_zeros y1 y2 s z :
  stripped s = y1 ++ y2 → y2 ≠ [] → zeros (y2 ++ z) = false.
Proof.
  intros E Hne. destruct (exists_last Hne) as (u & c & ->). rewrite app_assoc in E.
  apply stripped_end in E. unfold zeros. rewrite !forallb_app. cbn [forallb].
  destruct (N.eqb_spec 48 c) as [<- |]; [done|]. cbn [andb]. by rewrite andb_false_r.
Qed.

(** *** The two replacements *)

Definition no_point (c : N) : bool := negb (c =? 46).

Lemma digits_no_point s : Forall (λ c, is_digit c = true) s → Forall (λ c, no_point c = true) s.
Proof.
  intros H. eapply Forall_impl; [exact H|]. intros c Hc. unfold no_point, is_digit in *.
  destruct (N.eqb_spec c 46) as [-> |]; done.
Qed.

(** A pattern that starts with a point is found only at a point. *)
Definition at_point (r : re) : Prop :=
  ∀ p s (k : cont (caps * jsstr * option N * jsstr)), head s ≠ Some 46 → run r p s [] k = None.

Lemma not_point s : head s ≠ Some 46 → starts_with (js ".") s = false.
Proof. destruct s as [|c s]; [done|]. intros Hc. apply starts_cons_ne. by intros ->. Qed.

Lemma zeros_re_at_point : at_point trailing_zeros_re.
Proof.
  intros p s k Hs. unfold trailing_zeros_re. cbn [rseq].
  rewrite run_seq, run_grp, run_seq, run_lit_fail; [done|]. by apply not_point.
Qed.

Lemma point_re_at_point : at_point trailing_point_re.
Proof.
  intros p s k Hs. unfold trailing_point_re. cbn [rseq]. rewrite run_seq, run_lit_fail; [done|].
  by apply not_point.
Qed.

Lemma find_point_skip r p pre s :
  at_point r → Forall (λ c, no_point c = true) pre →
  rx_find r p (pre ++ s)
  = match rx_find r (lastc p pre) s with
    | Some (g, pre', p', s') => Some (g, pre ++ pre', p', s')
    | None => None
    end.
Proof.
  intros Hr H. revert p. induction H as [|c pre Hc Hpre IH]; intros p; cbn [app].
  - by destruct (rx_find _ _ _) as [[[[??]?]?]|].
  - cbn [rx_find]. rewrite Hr by (by intros [= ->]).
    rewrite IH, lastc_cons. by destruct (rx_find _ (lastc (Some c) pre) s) as [[[[??]?]?]|].
Qed.

Lemma find_point_none r p s :
  at_point r → Forall (λ c, no_point c = true) s → rx_find r p s = None.
Proof.
  intros Hr H. rewrite <- (app_nil_r s), find_point_skip by done. cbn [rx_find]. by rewrite Hr.
Qed.

Lemma zeros_run p fp :
  Forall (λ c, is_digit c = true) fp →
  run trailing_zeros_re p (46 :: fp) [] (λ p' s' g, Some (g, [] : jsstr, p', s'))
  = match (strip_zeros fp).2 with
    | O => None
    | S _ => Some ([(1%nat, 46 :: stripped fp)], [], Some 48, [])
    end.
Proof.
  intros Hfp. pose proof (strip_zeros_app fp) as E. unfold trailing_zeros_re. cbn [rseq].
  rewrite run_seq, run_grp, run_seq, (run_lit_app (js ".") p fp).
  destruct (strip_zeros fp).2 as [|z].
  - apply lazy_fails. intros p' w [y Ey]. rewrite run_zeros1. destruct w as [|c w]; [done|].
    cbn [truthy andb]. rewrite <- (app_nil_r (c :: w)), (not_zeros y (c :: w) fp); [done| |done].
    by rewrite E, app_nil_r in Ey.
  - match goal with |- run ?r ?q _ ?g ?k = ?x =>
      enough (run r q (stripped fp ++ replicate (S z) 48) g k = x) as H by (by rewrite <- E in H)
    end.
    apply lazy_stops; [by apply stripped_digits| |].
    + intros p' y1 y2 Ey Hy. rewrite run_zeros1, (not_zeros y1 y2 fp) by done. by rewrite andb_false_r.
    + intros p'. rewrite run_zeros1. assert (zeros (replicate (S z) 48) = true) as ->.
      { unfold zeros. apply forallb_forall. intros c Hc%list_elem_of_In%elem_of_replicate. by destruct Hc as [-> _]. }
      assert (take (length (46 :: fp) - length (replicate (S z) 48)) (46 :: fp) = 46 :: stripped fp) as ->.
      { clear Hfp. revert E. generalize (stripped fp). intros u ->. rewrite app_comm_cons, length_app, Nat.add_sub. apply take_app_length. }
      assert (lastc p' (replicate (S z) 48) = Some 48) as ->; [|done].
      unfold lastc. replace (S z) with (z + 1)%nat by lia. rewrite replicate_add.
      change (replicate 1 48) with [48]. by rewrite last_snoc.
Qed.

(** The first replacement removes the zeros at the end of the fraction. *)
Lemma zeros_replaced pre fp :
  Forall (λ c, no_point c = true) pre → Forall (λ c, is_digit c = true) fp →
  rx_replace_first trailing_zeros_re (λ g, from_opt [] (cap 1 g)) (pre ++ 46 :: fp) = pre ++ 46 :: stripped fp.
Proof.
  intros Hpre Hfp. unfold rx_replace_first. rewrite find_point_skip by (done || apply zeros_re_at_point).
  cbn [rx_find]. rewrite zeros_run by done. pose proof (strip_zeros_app fp) as E.
  destruct (strip_zeros fp).2 as [|z].
  - rewrite find_point_none by (apply zeros_re_at_point || by apply digits_no_point).
    by rewrite E, app_nil_r at 1.
  - by rewrite !app_nil_r.
Qed.

Lemma point_replaced pre fp :
  Forall (λ c, no_point c = true) pre → Forall (λ c, is_digit c = true) fp →
  rx_replace_first trailing_point_re (λ _, []) (pre ++ 46 :: fp) = pre ++ point fp.
Proof.
  intros Hpre Hfp. unfold rx_replace_first. rewrite find_point_skip by (done || apply point_re_at_point).
  cbn [rx_find]. unfold trailing_point_re at 1. cbn [rseq]. rewrite run_seq, (run_lit_app (js ".") _ fp).
  destruct fp as [|c fp]; [cbn; by rewrite !app_nil_r|]. cbn [run].
  by rewrite find_point_none by (apply point_re_at_point || by apply digits_no_point).
Qed.

Lemma trailing_zeros_removed pre fp :
  Forall (λ c, no_point c = true) pre → Forall (λ c, is_digit c = true) fp →
  removeTrailingZeros (pre ++ point fp) = pre ++ point (stripped fp).
Proof.
  intros Hpre Hfp. unfold removeTrailingZeros. destruct fp as [|c fp].
  - cbn [point stripped strip_zeros fst]. rewrite app_nil_r. assert (str_includes (js ".") pre = false) as ->; [|done].
    apply str_includes_false. intros a b ->. rewrite !Forall_app in Hpre. destruct Hpre as (_ & H & _).
    by inversion H.
  - cbn [point]. assert (str_includes (js ".") (pre ++ 46 :: c :: fp) = true) as ->.
    { apply not_false_iff_true. rewrite str_includes_false. intros H. by apply (H pre (c :: fp)). }
    cbn [negb]. rewrite zeros_replaced, point_replaced by (done || by apply stripped_digits). done.
Qed.

(** ** Shortened numbers *)

(** [s] shows the finite number [x] with at most [f] digits after the point,
    no zero at their end, as the decimal nearest to the exact value of [x]. *)
Definition shows (f : nat) (x : num) (s : jsstr) : Prop :=
  ∃ sg m e ip fp,
    parts x = Some (sg, m, e) ∧ s = (if sg : bool then js "-" else []) ++ ip ++ point fp ∧
    ip ≠ [] ∧ Forall (λ c, is_digit c = true) (ip ++ fp) ∧ (length fp ≤ f)%nat ∧ last fp ≠ Some 48 ∧
    (2 * Z.abs (Z.of_N (digits_value (ip ++ fp)) * 10 ^ Z.of_nat (f - length fp) * 2 ^ Z.max 0 (- e)
                - m * 2 ^ Z.max 0 e * 10 ^ Z.of_nat f) ≤ 2 ^ Z.max 0 (- e))%Z.

Lemma digits_value_pad s n :
  digits_value (s ++ replicate n 48) = digits_value s * 10 ^ N.of_nat n.
Proof.
  induction n as [|n IH]; [rewrite app_nil_r; cbn; lia|].
  replace (S n) with (n + 1)%nat by lia. rewrite replicate_add, app_assoc.
  change (replicate 1 48) with [48]. rewrite digits_value_snoc, IH, Nat2N.inj_add, N.pow_add_r.
  change (digit_val 48) with 0. change (10 ^ N.of_nat 1) with 10. lia.
Qed.

Lemma shortened_shows f x :
  is_finite x = true → huge x = false → shows f x (removeTrailingZeros (to_fixed f x)).
Proof.
  intros Hf Hh. assert (∃ p, parts x = Some p) as [[[sg m] e] E] by (destruct x; try done; by eexists).
  destruct (to_fixed_parts f x sg m e E Hh) as [Hm ->].
  destruct (fixed_units_near f m e Hm) as [Hn Hr]. set (n := fixed_units f m e) in *.
  destruct (fixed_text_decimal f (Z.to_N n)) as (ip & fp & -> & [[Hne Hip] [Hl Hfp]] & Hv).
  exists sg, m, e, ip, (stripped fp). pose proof (strip_zeros_app fp) as Es.
  set (z := (strip_zeros fp).2) in Es.
  assert (length fp = length (stripped fp) + z)%nat as Hlen
    by (rewrite Es at 1; by rewrite length_app, length_replicate).
  split_and!; [done| |done| |lia| |].
  - rewrite app_assoc, trailing_zeros_removed; [by rewrite app_assoc| |done].
    apply Forall_app_2; [destruct sg; by repeat constructor|by apply digits_no_point].
  - apply Forall_app_2; [done|by apply stripped_digits].
  - intros El. apply last_Some in El as [y Ey]. by apply stripped_end in Ey.
  - replace (f - length (stripped fp))%nat with z by lia.
    assert (Z.of_N (digits_value (ip ++ stripped fp)) * 10 ^ Z.of_nat z = n)%Z as ->; [|done].
    apply (f_equal Z.of_N) in Hv. rewrite Z2N.id in Hv by done. rewrite <- Hv.
    assert (digits_value (ip ++ fp) = digits_value (ip ++ stripped fp) * 10 ^ N.of_nat z) as ->.
    { rewrite <- digits_value_pad, <- app_assoc. by rewrite <- Es. }
    by rewrite N2Z.inj_mul, N2Z.inj_pow, nat_N_Z.
Qed.
