(* ===== verification/FloatError.v ===== *)
(** * Rounding errors

    The relative error of the multiplication and division of binary64
    numbers: away from overflow and underflow, the result of one operation
    differs from the exact one by at most 2^-53 of it.  The proofs follow the
    operations of [spec_float]: a significand is shifted to 53 bits while two
    bits record what is lost, and then rounded to nearest. *)
From S2P Require Import Prelude JsString JsNumber JsFixed.
From Stdlib Require Import SpecFloat QArith Qpower Qabs Lqa.

Open Scope Q_scope.

(** ** Powers of two *)

Definition pow2 (e : Z) : Q := 2 ^ e.

Lemma pow2_pos e : 0 < pow2 e.
Proof. by apply Qpower_0_lt. Qed.

Lemma pow2_add a b : pow2 (a + b) == pow2 a * pow2 b.
Proof. apply Qpower_plus. discriminate. Qed.

Lemma pow2_Z n : (0 <= n)%Z → pow2 n == inject_Z (2 ^ n).
Proof. intros H. unfold pow2. change 2 with (inject_Z 2). by rewrite <- Zpower_Qpower. Qed.

Lemma pow2_neg n : pow2 (- n) * pow2 n == 1.
Proof. rewrite <- pow2_add. by rewrite Z.add_opp_diag_l. Qed.

Lemma pow2_le a b : (a <= b)%Z → pow2 a <= pow2 b.
Proof. intros H. by apply Qpower_le_compat_l. Qed.

Lemma pow2_lt_inv a b : pow2 a < pow2 b → (a < b)%Z.
Proof.
  intros H. destruct (Z.lt_ge_cases a b) as [|Hab]; [done|]. apply pow2_le in Hab. lra.
Qed.

Lemma inject_le a b : inject_Z a <= inject_Z b ↔ (a <= b)%Z.
Proof. by rewrite <- Zle_Qle. Qed.

Lemma inject_lt a b : inject_Z a < inject_Z b ↔ (a < b)%Z.
Proof. by rewrite <- Zlt_Qlt. Qed.

(** ** Shifting *)

(** What the two bits of a shifted significand say about the lost part. *)
Definition lost (r s : bool) (t : Q) : Prop :=
  match r, s with
  | false, false => t == 0
  | false, true => 0 < t /\ t < 1 # 2
  | true, false => t == 1 # 2
  | true, true => 1 # 2 < t /\ t < 1
  end.

Definition represents (mrs : shr_record) (x : Q) : Prop :=
  (0 <= shr_m mrs)%Z /\ lost (shr_r mrs) (shr_s mrs) (x - inject_Z (shr_m mrs)).

Lemma shr_1_represents mrs x : represents mrs x → represents (shr_1 mrs) (x * (1 # 2)).
Proof.
  destruct mrs as [m r s]. intros [Hm H]. cbn [shr_m shr_r shr_s] in *.
  assert (∀ p, inject_Z (Zpos p~1) == 2 * inject_Z (Zpos p) + 1) as H1
    by (intros p; rewrite (Pos2Z.inj_xI p), inject_Z_plus, inject_Z_mult; reflexivity).
  assert (∀ p, inject_Z (Zpos p~0) == 2 * inject_Z (Zpos p)) as H0
    by (intros p; rewrite (Pos2Z.inj_xO p), inject_Z_mult; reflexivity).
  destruct m as [|[p|p|]|p]; [| | | |lia]; cbn [shr_1];
    (split; [cbn; lia|]); cbn [shr_m shr_r shr_s]; try specialize (H1 p); try specialize (H0 p);
    destruct r, s; cbn [lost orb] in *; change (inject_Z 0) with 0 in *; change (inject_Z 1) with 1 in *; lra.
Qed.

Lemma iter_represents n mrs x :
  represents mrs x → represents (SpecFloat.iter_pos shr_1 n mrs) (x * pow2 (Zneg n)).
Proof.
  assert (∀ a b, represents a b → ∀ c, b == c → represents a c) as Hext.
  { intros [m r s] b [Hm H] c E. split; [done|]. cbn in *. destruct r, s; cbn [lost] in *; lra. }
  revert mrs x. induction n as [n IH|n IH|]; intros mrs x H; cbn [SpecFloat.iter_pos].
  - eapply Hext; [apply IH, IH, shr_1_represents, H|].
    rewrite (ltac:(lia) : Zneg n~1 = (-1 + (Zneg n + Zneg n))%Z), !pow2_add.
    change (pow2 (-1)) with (1 # 2). ring.
  - eapply Hext; [apply IH, IH, H|]. rewrite (ltac:(lia) : Zneg n~0 = (Zneg n + Zneg n)%Z), pow2_add. ring.
  - by apply shr_1_represents.
Qed.

(** The number of bits of a significand. *)
Lemma digits_size p : digits2_pos p = Pos.size p.
Proof. induction p as [p IH|p IH|]; cbn; [by rewrite IH|by rewrite IH|done]. Qed.

Lemma digits_range p :
  (2 ^ (Zpos (digits2_pos p) - 1) <= Zpos p /\ Zpos p < 2 ^ Zpos (digits2_pos p))%Z.
Proof.
  rewrite digits_size. pose proof (Pos.size_gt p) as Hg. pose proof (Pos.size_le p) as Hl. split.
  - apply Pos2Z.pos_le_pos in Hl. rewrite Pos2Z.inj_pow, Pos2Z.inj_xO in Hl.
    apply (Z.mul_le_mono_pos_l _ _ 2); [lia|]. rewrite <- Z.pow_succ_r by lia.
    by replace (Z.succ (Zpos (Pos.size p) - 1)) with (Zpos (Pos.size p)) by lia.
  - apply Pos2Z.pos_lt_pos in Hg. by rewrite Pos2Z.inj_pow in Hg.
Qed.

Lemma digits_unique p d : (2 ^ (d - 1) <= Zpos p < 2 ^ d)%Z → Zpos (digits2_pos p) = d.
Proof.
  intros [H1 H2]. destruct (digits_range p) as [H3 H4].
  assert (0 < d)%Z by (destruct (Z.lt_ge_cases 0 d); [done|]; pose proof (Z.pow_le_mono_r 2 d 0); lia).
  assert (Zpos (digits2_pos p) - 1 < d)%Z by (apply (Z.pow_lt_mono_r_iff 2); lia).
  assert (d - 1 < Zpos (digits2_pos p))%Z by (apply (Z.pow_lt_mono_r_iff 2); lia). lia.
Qed.

(** ** Rounding *)

Definition eps : Q := pow2 (-53).

Lemma rounded_near mrs x :
  represents mrs x →
  let y := round_nearest_even (shr_m mrs) (loc_of_shr_record mrs) in
  (shr_m mrs <= y <= shr_m mrs + 1)%Z /\ inject_Z y - (1 # 2) <= x /\ x <= inject_Z y + (1 # 2).
Proof.
  destruct mrs as [m r s]. intros [Hm H]. cbn [shr_m shr_r shr_s] in *.
  destruct r, s; cbn [loc_of_shr_record round_nearest_even lost] in *; try destruct (Z.even m);
    (split; [lia|]); rewrite ?inject_Z_plus; change (inject_Z 1) with 1; lra.
Qed.

(** The lost part that a location stands for. *)
Definition located (l : location) (t : Q) : Prop :=
  match l with
  | loc_Exact => t == 0
  | loc_Inexact Lt => 0 < t /\ t < 1 # 2
  | loc_Inexact Eq => t == 1 # 2
  | loc_Inexact Gt => 1 # 2 < t /\ t < 1
  end.

Lemma located_represents m l x :
  (0 <= m)%Z → located l (x - inject_Z m) → represents (shr_record_of_loc m l) x.
Proof. intros Hm H. by destruct l as [|[]]. Qed.

Lemma fexp_normal k : (-900 <= k)%Z → fexp prec emax k = (k - 53)%Z.
Proof. intros H. unfold fexp, SpecFloat.emin, prec, emax. lia. Qed.

Lemma represents_floor mrs x : represents mrs x → inject_Z (shr_m mrs) <= x /\ x < inject_Z (shr_m mrs + 1).
Proof.
  destruct mrs as [m r s]. intros [Hm H]. rewrite inject_Z_plus. change (inject_Z 1) with 1.
  destruct r, s; cbn in *; lra.
Qed.

Lemma located_floor m l x : located l (x - inject_Z m) → inject_Z m <= x /\ x < inject_Z (m + 1).
Proof. rewrite inject_Z_plus. change (inject_Z 1) with 1. destruct l as [|[]]; cbn [located]; lra. Qed.

Lemma scaled_le v w a b : v * w == 1 → 0 < v → a * w <= b → a <= b * v.
Proof.
  intros E Hv H. assert (a == a * w * v) as -> by (rewrite <- Qmult_assoc, (Qmult_comm w), E; ring).
  apply Qmult_le_compat_r; lra.
Qed.

Lemma scaled_lt v w a b : v * w == 1 → 0 < v → b < a * w → b * v < a.
Proof.
  intros E Hv H. assert (a == a * w * v) as -> by (rewrite <- Qmult_assoc, (Qmult_comm w), E; ring).
  by apply Qmult_lt_compat_r.
Qed.

(** The first shift leaves at most 53 bits, all of them unless nothing is lost. *)
Lemma first_shift p ex lx x :
  located lx (x - inject_Z (Zpos p)) → (lx = loc_Exact ∨ 53 <= Zpos (digits2_pos p))%Z →
  (-900 <= Zpos (digits2_pos p) + ex <= 900)%Z →
  ∃ mrs e', shr_fexp prec emax (Zpos p) ex lx = (mrs, e') /\
    represents mrs (x * pow2 (ex - e')) /\ (0 < shr_m mrs < 2 ^ 53)%Z /\ (-953 <= e' <= 900)%Z /\
    (loc_of_shr_record mrs = loc_Exact ∨ (2 ^ 52 <= shr_m mrs)%Z).
Proof.
  intros Hx Hl He. set (d := Zpos (digits2_pos p)) in *. destruct (digits_range p) as [H1 H2]. fold d in H1, H2.
  unfold shr_fexp. change (Zdigits2 (Zpos p)) with d. rewrite fexp_normal by lia.
  replace (d + ex - 53 - ex)%Z with (d - 53)%Z by lia.
  pose proof (located_represents (Zpos p) lx x ltac:(lia) Hx) as Hr.
  destruct (Z.le_gt_cases (d - 53) 0) as [Hd|Hd].
  - exists (shr_record_of_loc (Zpos p) lx), ex. split; [by destruct (d - 53)%Z as [| |]; [| lia |]|].
    assert (shr_m (shr_record_of_loc (Zpos p) lx) = Zpos p) as Em by (by destruct lx as [|[]]). rewrite Em.
    assert (2 ^ d <= 2 ^ 53)%Z by (apply Z.pow_le_mono_r; lia).
    split_and!; [|lia|lia|unfold d in *; lia|lia|].
    + rewrite Z.sub_diag. destruct Hr as [Hr1 Hr2]. split; [done|]. rewrite Em in *.
      destruct lx as [|[]]; cbn [shr_record_of_loc shr_r shr_s lost] in *; change (pow2 0) with 1; lra.
    + destruct Hl as [-> |Hl]; [by left|]. right. by replace d with 53%Z in H1 by lia.
  - destruct (d - 53)%Z as [|n|n] eqn:En; [lia| |lia]. cbn [shr].
    exists (SpecFloat.iter_pos shr_1 n (shr_record_of_loc (Zpos p) lx)), (ex + Zpos n)%Z. split; [done|].
    replace (ex - (ex + Zpos n))%Z with (Zneg n) by lia. pose proof (iter_represents n _ _ Hr) as Hn.
    split; [done|]. destruct (represents_floor _ _ Hn) as [Hf1 Hf2].
    destruct (located_floor _ _ _ Hx) as [Hx1 Hx2].
    set (m := shr_m (SpecFloat.iter_pos shr_1 n (shr_record_of_loc (Zpos p) lx))) in *.
    pose proof (pow2_neg (Zpos n)) as Hpn. change (- Zpos n)%Z with (Zneg n) in Hpn.
    rewrite (pow2_Z (Zpos n)) in Hpn by lia. pose proof (pow2_pos (Zneg n)) as Hpos.
    assert (2 ^ 52 * 2 ^ Zpos n <= Zpos p)%Z as Hlow.
    { rewrite <- Z.pow_add_r by lia. by replace (52 + Zpos n)%Z with (d - 1)%Z by lia. }
    assert (Zpos p + 1 <= 2 ^ 53 * 2 ^ Zpos n)%Z as Hup.
    { rewrite <- Z.pow_add_r by lia. replace (53 + Zpos n)%Z with d by lia. lia. }
    apply inject_le in Hlow, Hup. rewrite inject_Z_mult in Hlow, Hup.
    set (w := inject_Z (2 ^ Zpos n)) in *. set (v := pow2 (Zneg n)) in *.
    assert (inject_Z (2 ^ 52) <= x * v) as H3 by (apply (scaled_le v w); [done|done|lra]).
    assert (x * v < inject_Z (2 ^ 53)) as H4 by (apply (scaled_lt v w); [done|done|lra]).
    assert (2 ^ 52 < m + 1)%Z by (apply inject_lt; lra). assert (m < 2 ^ 53)%Z by (apply inject_lt; lra).
    split_and!; [lia|lia|lia|lia|right; lia].
Qed.

(** The second shift only removes the bit of a carry. *)
Lemma second_shift y e :
  (0 < y <= 2 ^ 53)%Z → (-953 <= e <= 900)%Z →
  ∃ m e' r s, shr_fexp prec emax y e loc_Exact = (Build_shr_record (Zpos m) r s, e') /\ (e' <= 971)%Z /\
    inject_Z (Zpos m) * pow2 e' == inject_Z y * pow2 e.
Proof.
  intros [Hy Hy'] He. destruct (decide (y = 2 ^ 53)%Z) as [-> |Hne].
  - exists (2 ^ 52)%positive, (e + 1)%Z, false, false. unfold shr_fexp.
    change (Zdigits2 (2 ^ 53)) with 54%Z. rewrite fexp_normal by lia.
    replace (54 + e - 53 - e)%Z with 1%Z by lia. split; [done|]. split; [lia|]. rewrite pow2_add.
    change (pow2 1) with 2. change (inject_Z (2 ^ 53)) with (inject_Z (Zpos (2 ^ 52)) * 2). ring.
  - destruct y as [|p|p]; [lia| |lia]. exists p, e, false, false. unfold shr_fexp, shr_record_of_loc.
    cbn [Zdigits2]. destruct (digits_range p) as [H1 H2].
    assert (Zpos (digits2_pos p) - 1 < 53)%Z by (apply (Z.pow_lt_mono_r_iff 2); lia).
    assert (fexp prec emax (Zpos (digits2_pos p) + e) - e <= 0)%Z as Hf
      by (unfold fexp, SpecFloat.emin, prec, emax; lia).
    split; [|split; [lia|reflexivity]]. by destruct (_ - e)%Z as [| |]; [|lia|].
Qed.

Lemma near_multiply y x w e : 0 < w → Qabs (y - x) <= e * x → Qabs (y * w - x * w) <= e * (x * w).
Proof.
  intros Hw H. assert (y * w - x * w == (y - x) * w) as -> by ring.
  rewrite Qabs_Qmult, (Qabs_pos w) by lra. rewrite Qmult_assoc. apply Qmult_le_compat_r; lra.
Qed.

Lemma round_aux_near sx p ex lx x :
  located lx (x - inject_Z (Zpos p)) → (lx = loc_Exact ∨ 53 <= Zpos (digits2_pos p))%Z →
  (-900 <= Zpos (digits2_pos p) + ex <= 900)%Z →
  ∃ m e, binary_round_aux prec emax sx (Zpos p) ex lx = S754_finite sx m e /\
    Qabs (inject_Z (Zpos m) * pow2 e - x * pow2 ex) <= eps * (x * pow2 ex).
Proof.
  intros Hx Hl He. destruct (first_shift p ex lx x Hx Hl He) as (mrs & e1 & E1 & Hr & Hm & He1 & Hl1).
  unfold binary_round_aux. rewrite E1. destruct (rounded_near mrs _ Hr) as [Hy Hn].
  destruct (represents_floor mrs _ Hr) as [Hf _].
  set (y := round_nearest_even (shr_m mrs) (loc_of_shr_record mrs)) in *.
  destruct (second_shift y e1 ltac:(lia) He1) as (m & e2 & r & s & -> & He2 & Ev). cbn [shr_m].
  assert ((e2 <=? emax - prec)%Z = true) as -> by (apply Z.leb_le; unfold emax, prec; lia).
  exists m, e2. split; [done|]. rewrite Ev.
  assert (x * pow2 ex == x * pow2 (ex - e1) * pow2 e1) as ->.
  { rewrite <- Qmult_assoc, <- pow2_add. by rewrite Z.sub_add. }
  apply near_multiply; [apply pow2_pos|]. generalize dependent (x * pow2 (ex - e1)). intros x1 Hr Hn Hf.
  assert (0 <= inject_Z (shr_m mrs)) as Hm0 by (apply (inject_le 0); lia).
  assert (0 <= eps) by (apply Qlt_le_weak, pow2_pos).
  destruct Hl1 as [Hl1|Hl1].
  - assert (inject_Z y == x1) as ->.
    { unfold y. rewrite Hl1. cbn [round_nearest_even]. destruct mrs as [m' [] []]; try done.
      destruct Hr as [_ Hr]. cbn in *. lra. }
    assert (x1 - x1 == 0) as -> by ring. change (Qabs 0) with 0. apply Qmult_le_0_compat; lra.
  - apply Qle_trans with (1 # 2); [apply Qabs_Qle_condition; lra|].
    change (1 # 2) with (Qred (eps * inject_Z (2 ^ 52))). rewrite Qred_correct, !(Qmult_comm eps).
    apply Qmult_le_compat_r; [|done]. apply inject_le in Hl1. lra.
Qed.

(** ** Operations *)

(** The absolute value of a finite number, and the range in which nothing
    over- or underflows. *)
Definition mag (m : positive) (e : Z) : Q := inject_Z (Zpos m) * pow2 e.
Definition in_range (x : Q) : Prop := pow2 (-890) <= x /\ x <= pow2 890.

(** [y] is [x] up to the error of one rounding. *)
Definition near (x y : Q) : Prop := Qabs (y - x) <= eps * x.

Lemma mag_pos m e : 0 < mag m e.
Proof. apply Qmult_lt_0_compat; [by apply (inject_lt 0)|apply pow2_pos]. Qed.

Lemma mag_digits m e :
  pow2 (Zpos (digits2_pos m) + e - 1) <= mag m e /\ inject_Z (Zpos m + 1) * pow2 e <= pow2 (Zpos (digits2_pos m) + e).
Proof.
  destruct (digits_range m) as [H1 H2]. unfold mag. pose proof (pow2_pos e).
  replace (Zpos (digits2_pos m) + e - 1)%Z with (Zpos (digits2_pos m) - 1 + e)%Z by lia.
  rewrite !pow2_add, (pow2_Z (Zpos (digits2_pos m) - 1)), (pow2_Z (Zpos (digits2_pos m))) by lia.
  split; (apply Qmult_le_compat_r; [apply inject_le|]; [lia|lra]).
Qed.

Lemma range_digits m e x :
  inject_Z (Zpos m) <= x → x < inject_Z (Zpos m + 1) → in_range (x * pow2 e) →
  (-890 < Zpos (digits2_pos m) + e <= 891)%Z.
Proof.
  intros H1 H2 [H3 H4]. destruct (mag_digits m e) as [H5 H6]. pose proof (pow2_pos e) as He. split.
  - apply pow2_lt_inv. apply Qle_lt_trans with (x * pow2 e); [done|].
    apply Qlt_le_trans with (inject_Z (Zpos m + 1) * pow2 e); [by apply Qmult_lt_compat_r|done].
  - destruct (Z.le_gt_cases (Zpos (digits2_pos m) + e) 891) as [|Hgt]; [done|]. exfalso.
    assert (pow2 891 <= mag m e) 
      by (apply Qle_trans with (pow2 (Zpos (digits2_pos m) + e - 1)); [apply pow2_le; lia|done]).
    assert (mag m e <= x * pow2 e) by (apply Qmult_le_compat_r; lra).
    assert (pow2 890 < pow2 891) by (by vm_compute). lra.
Qed.

Lemma mul_near s m1 e1 m2 e2 :
  in_range (mag m1 e1 * mag m2 e2) →
  ∃ m e, nmul (S754_finite s m1 e1) (S754_finite false m2 e2) = S754_finite s m e /\
    near (mag m1 e1 * mag m2 e2) (mag m e).
Proof.
  assert (mag m1 e1 * mag m2 e2 == inject_Z (Zpos (m1 * m2)) * pow2 (e1 + e2)) as Ev.
  { unfold mag. rewrite Pos2Z.inj_mul, inject_Z_mult, pow2_add. ring. }
  intros Hr. unfold in_range in Hr. rewrite Ev in Hr.
  destruct (round_aux_near s (m1 * m2) (e1 + e2) loc_Exact (inject_Z (Zpos (m1 * m2)))) as (m & e & E & H).
  - cbn [located]. ring.
  - by left.
  - pose proof (range_digits (m1 * m2) (e1 + e2) (inject_Z (Zpos (m1 * m2))) ltac:(lra)) as H.
    assert (inject_Z (Zpos (m1 * m2)) < inject_Z (Zpos (m1 * m2) + 1)) as Hlt by (apply inject_lt; lia).
    specialize (H Hlt Hr). lia.
  - exists m, e. split; [unfold nmul, SFmul; by rewrite xorb_false_r|]. unfold near. by rewrite Ev.
Qed.

(** *** Division *)

Lemma new_location_located (m : positive) r :
  (0 <= r < Zpos m)%Z → located (new_location (Zpos m) r) (inject_Z r / inject_Z (Zpos m)).
Proof.
  intros Hr. set (t := inject_Z r / inject_Z (Zpos m)).
  assert (0 < inject_Z (Zpos m)) as Hm by (by apply (inject_lt 0)).
  assert (t * inject_Z (Zpos m) == inject_Z r) as Et by (unfold t; field; lra).
  assert ((2 * r < Zpos m)%Z → t < 1 # 2) as Hlt.
  { intros H. apply inject_lt in H. rewrite inject_Z_mult in H. change (inject_Z 2) with 2 in H. nra. }
  assert ((Zpos m < 2 * r)%Z → 1 # 2 < t) as Hgt.
  { intros H. apply inject_lt in H. rewrite inject_Z_mult in H. change (inject_Z 2) with 2 in H. nra. }
  assert ((2 * r = Zpos m)%Z → t == 1 # 2) as Heq.
  { intros H. apply (f_equal inject_Z) in H. rewrite inject_Z_mult in H. change (inject_Z 2) with 2 in H.
    assert ((t - (1 # 2)) * inject_Z (Zpos m) == 0) as Hz.
    { assert (2 * inject_Z r == inject_Z (Zpos m)) as H' by (by rewrite H). lra. }
    apply Qmult_integral in Hz as [Hz|Hz]; lra. }
  assert ((0 < r)%Z → 0 < t) as H0 by (intros H; apply inject_lt in H; change (inject_Z 0) with 0 in H; nra).
  assert (t < 1) as H1 by (destruct Hr as [_ H]; apply inject_lt in H; nra).
  unfold new_location, new_location_even, new_location_odd.
  destruct (decide (r = 0%Z)) as [Hz|Hne].
  - assert (t == 0) as Ht.
    { rewrite Hz in Et. change (inject_Z 0) with 0 in Et. apply Qmult_integral in Et as [?|?]; lra. }
    rewrite Hz. by destruct (Z.even (Zpos m)).
  - destruct (Z.even (Zpos m)) eqn:Ee; rewrite (proj2 (Z.eqb_neq r 0) Hne).
    + destruct (Z.compare_spec (2 * r) (Zpos m)) as [H|H|H]; cbn [located]; [by apply Heq| |].
      * split; [apply H0; lia|by apply Hlt].
      * split; [by apply Hgt|done].
    + assert (2 * r ≠ Zpos m)%Z as Hodd.
      { intros H. rewrite <- H, Z.even_mul in Ee. done. }
      destruct (Z.compare_spec (2 * r + 1) (Zpos m)) as [H|H|H]; cbn [located].
      * split; [apply H0; lia|apply Hlt; lia].
      * split; [apply H0; lia|apply Hlt; lia].
      * split; [apply Hgt; lia|done].
Qed.

(** The quotient has at least 53 bits, and its location is that of the exact
    quotient. *)
Lemma div_core m1 e1 m2 e2 :
  (-890 <= Zpos (digits2_pos m1) + e1 - (Zpos (digits2_pos m2) + e2))%Z →
  ∃ p e l x, SFdiv_core_binary prec emax (Zpos m1) e1 (Zpos m2) e2 = (Zpos p, e, l) /\
    located l (x - inject_Z (Zpos p)) /\ (53 <= Zpos (digits2_pos p))%Z /\
    x * pow2 e == mag m1 e1 / mag m2 e2.
Proof.
  destruct (digits_range m1) as [H1 _]. destruct (digits_range m2) as [_ H2]. unfold SFdiv_core_binary. cbn [Zdigits2].
  set (d1 := Zpos (digits2_pos m1)) in *. set (d2 := Zpos (digits2_pos m2)) in *. intros Hk.
  rewrite fexp_normal by lia. set (e0 := Z.min (d1 + e1 - (d2 + e2) - 53) (e1 - e2)).
  set (sh := (e1 - e2 - e0)%Z). assert (0 <= sh /\ d2 - d1 + 53 <= sh)%Z as [Hs Hs'] by (unfold sh, e0; lia).
  assert (match sh with Z0 => Zpos m1 | Zpos _ => Z.shiftl (Zpos m1) sh | Zneg _ => 0 end = Zpos m1 * 2 ^ sh)%Z as ->.
  { rewrite <- Z.shiftl_mul_pow2 by done. destruct sh; [done|done|lia]. }
  set (a := (Zpos m1 * 2 ^ sh)%Z). pose proof (Z_div_mod a (Zpos m2) ltac:(lia)) as Hd.
  destruct (Z.div_eucl a (Zpos m2)) as [q r]. destruct Hd as [Ea Hr].
  assert (2 ^ 52 * Zpos m2 <= a)%Z as Hq.
  { apply Z.le_trans with (2 ^ 52 * 2 ^ d2)%Z; [lia|]. rewrite <- Z.pow_add_r by lia.
    apply Z.le_trans with (2 ^ (d1 - 1) * 2 ^ sh)%Z; [|apply Z.mul_le_mono_nonneg_r; lia].
    rewrite <- Z.pow_add_r by lia. apply Z.pow_le_mono_r; lia. }
  assert (2 ^ 52 <= q)%Z as Hq' by nia. destruct q as [|p|p]; [lia| |lia].
  exists p, e0, (new_location (Zpos m2) r), (inject_Z a / inject_Z (Zpos m2)). split; [done|].
  assert (~ inject_Z (Zpos m2) == 0) as Hm2 by (intros H; by apply (inject_Z_injective _ 0) in H).
  split; [|split].
  - pose proof (new_location_located m2 r Hr) as Hl.
    assert (inject_Z a / inject_Z (Zpos m2) - inject_Z (Zpos p) == inject_Z r / inject_Z (Zpos m2)) as Et.
    { rewrite Ea, inject_Z_plus, inject_Z_mult. by field. }
    destruct (new_location (Zpos m2) r) as [|[]]; cbn [located] in *; by rewrite Et.
  - destruct (digits_range p) as [_ Hp].
    assert (52 < Zpos (digits2_pos p))%Z; [|lia]. apply (Z.pow_lt_mono_r_iff 2); lia.
  - unfold a, mag. rewrite inject_Z_mult, <- pow2_Z by done.
    assert (pow2 e1 == pow2 sh * pow2 e0 * pow2 e2) as ->.
    { rewrite <- !pow2_add. by replace (sh + e0 + e2)%Z with e1 by (unfold sh; lia). }
    pose proof (pow2_pos e2). field. split; [lra|done].
Qed.

Lemma div_near s m1 e1 m2 e2 :
  in_range (mag m1 e1 / mag m2 e2) →
  ∃ m e, ndiv (S754_finite s m1 e1) (S754_finite false m2 e2) = S754_finite s m e /\
    near (mag m1 e1 / mag m2 e2) (mag m e).
Proof.
  intros Hr. destruct (mag_digits m1 e1) as [_ H1]. destruct (mag_digits m2 e2) as [H2 _].
  pose proof (mag_pos m2 e2) as Hp2.
  destruct (div_core m1 e1 m2 e2) as (p & e' & l & x & E & Hl & Hd & Ex).
  { assert (-890 + (Zpos (digits2_pos m2) + e2 - 1) < Zpos (digits2_pos m1) + e1)%Z; [|lia].
    apply pow2_lt_inv. rewrite pow2_add. destruct Hr as [Hr _].
    assert (pow2 (-890) * mag m2 e2 <= mag m1 e1) as Hle.
    { apply (Qmult_le_r _ _ (mag m2 e2)) in Hr; [|done].
      assert (mag m1 e1 / mag m2 e2 * mag m2 e2 == mag m1 e1) as Ed by (field; lra). by rewrite Ed in Hr. }
    assert (mag m1 e1 < inject_Z (Zpos m1 + 1) * pow2 e1) as Hlt.
    { apply Qmult_lt_compat_r; [apply pow2_pos|]. apply inject_lt. lia. }
    assert (pow2 (-890) * pow2 (Zpos (digits2_pos m2) + e2 - 1) <= pow2 (-890) * mag m2 e2); [|lra].
    rewrite !(Qmult_comm (pow2 (-890))). apply Qmult_le_compat_r; [done|apply Qlt_le_weak, pow2_pos]. }
  destruct (located_floor _ _ _ Hl) as [Hf1 Hf2].
  assert (in_range (x * pow2 e')) as Hr' by (unfold in_range; by rewrite Ex).
  pose proof (range_digits p e' x Hf1 Hf2 Hr').
  destruct (round_aux_near s p e' l x Hl ltac:(by right) ltac:(lia)) as (m & e & Em & Hm).
  exists m, e. unfold ndiv, SFdiv. rewrite E, xorb_false_r. split; [done|]. unfold near. by rewrite <- Ex.
Qed.

(** *** Integers *)

Lemma iter_xO (m d : positive) : Zpos (Pos.iter xO m d) = (Zpos m * 2 ^ Zpos d)%Z.
Proof.
  induction d as [|d IH] using Pos.peano_ind; [cbn; lia|].
  rewrite Pos.iter_succ, Pos2Z.inj_succ, Z.pow_succ_r, (Pos2Z.inj_xO (Pos.iter _ _ _)), IH by lia. lia.
Qed.

Lemma normalized_near s p :
  (Zpos p <= 2 ^ 800)%Z →
  ∃ m e, binary_round prec emax s p 0 = S754_finite s m e /\ near (inject_Z (Zpos p)) (mag m e).
Proof.
  intros Hp. destruct (digits_range p) as [H1 _]. unfold binary_round. rewrite Z.add_0_r.
  assert (Zpos (digits2_pos p) - 1 <= 800)%Z as Hd by (apply (Z.pow_le_mono_r_iff 2); lia).
  rewrite fexp_normal by lia. unfold shl_align. rewrite Z.sub_0_r.
  assert (∃ p' e', match (Zpos (digits2_pos p) - 53)%Z with
    | Zneg d => (Pos.iter xO p d, (Zpos (digits2_pos p) - 53)%Z)
    | _ => (p, 0%Z) end = (p', e') /\ mag p' e' == inject_Z (Zpos p) ) as (p' & e' & -> & Ep).
  { destruct (Zpos (digits2_pos p) - 53)%Z as [|k|k]; eexists _, _; (split; [reflexivity|]); unfold mag.
    - change (pow2 0) with 1. ring.
    - change (pow2 0) with 1. ring.
    - rewrite iter_xO, inject_Z_mult, <- pow2_Z, <- Qmult_assoc, <- pow2_add by lia.
      rewrite Pos2Z.add_pos_neg, Z.pos_sub_diag. change (pow2 0) with 1. ring. }
  assert (inject_Z (Zpos p') < inject_Z (Zpos p' + 1)) as Hlt by (apply inject_lt; lia).
  assert (in_range (inject_Z (Zpos p') * pow2 e')) as Hr.
  { unfold in_range. fold (mag p' e'). rewrite Ep. split.
    - apply Qle_trans with (pow2 0); [apply pow2_le; lia|]. apply (inject_le 1). lia.
    - apply Qle_trans with (pow2 800); [|apply pow2_le; lia]. rewrite pow2_Z by lia. by apply inject_le. }
  pose proof (range_digits p' e' _ (Qle_refl _) Hlt Hr).
  destruct (round_aux_near s p' e' loc_Exact (inject_Z (Zpos p'))) as (m & e & E & Hn);
    [cbn [located]; ring|by left|lia|].
  exists m, e. split; [done|]. unfold near. rewrite <- Ep. exact Hn.
Qed.

Lemma of_Z_near z :
  (z ≠ 0)%Z → (Z.abs z <= 2 ^ 800)%Z →
  ∃ m e, of_Z z = S754_finite (z <? 0)%Z m e /\ near (inject_Z (Z.abs z)) (mag m e).
Proof. intros H0 H. destruct z as [|p|p]; [done| |]; by apply normalized_near. Qed.

(** ** Chains of operations *)

(** [y] is [x] up to the errors of [k] roundings. *)
Definition within (k : nat) (x y : Q) : Prop :=
  (1 - eps) ^ Z.of_nat k * x <= y /\ y <= (1 + eps) ^ Z.of_nat k * x.

Lemma near_within x y : near x y → within 1 x y.
Proof.
  unfold near, within. intros H%Qabs_Qle_condition. change (Z.of_nat 1) with 1%Z.
  assert ((1 - eps) ^ 1 == 1 - eps) as -> by reflexivity. assert ((1 + eps) ^ 1 == 1 + eps) as -> by reflexivity. lra.
Qed.

Lemma within_trans j k x y z : within j x y → within k y z → within (j + k) x z.
Proof.
  intros [H1 H2] [H3 H4]. unfold within. rewrite Nat2Z.inj_add, !Qpower_plus by (vm_compute; discriminate).
  assert (0 <= (1 - eps) ^ Z.of_nat k) by (apply Qpower_0_le; by vm_compute).
  assert (0 <= (1 + eps) ^ Z.of_nat k) by (apply Qpower_0_le; by vm_compute). split.
  - eapply Qle_trans; [|exact H3]. rewrite (Qmult_comm ((1 - eps) ^ Z.of_nat j)), <- Qmult_assoc.
    rewrite !(Qmult_comm ((1 - eps) ^ Z.of_nat k)). by apply Qmult_le_compat_r.
  - eapply Qle_trans; [exact H4|]. rewrite (Qmult_comm ((1 + eps) ^ Z.of_nat j)), <- Qmult_assoc.
    rewrite !(Qmult_comm ((1 + eps) ^ Z.of_nat k)). by apply Qmult_le_compat_r.
Qed.

Lemma within_mult k x y c : 0 < c → within k x y → within k (x * c) (y * c).
Proof.
  intros Hc [H1 H2]. unfold within. rewrite !Qmult_assoc. split; apply Qmult_le_compat_r; lra.
Qed.

#[export] Instance within_proper k : Proper (Qeq ==> Qeq ==> iff) (within k).
Proof. intros x x' Hx y y' Hy. unfold within. by rewrite Hx, Hy. Qed.

(** *** Back to an integer *)

Lemma mag_scaled m e : mag m e * inject_Z (2 ^ Z.max 0 (- e)) == inject_Z (Zpos m * 2 ^ Z.max 0 e).
Proof.
  unfold mag. rewrite inject_Z_mult, <- !pow2_Z, <- Qmult_assoc, <- pow2_add by lia.
  by replace (e + Z.max 0 (- e))%Z with (Z.max 0 e) by lia.
Qed.

Lemma nround_near z m e :
  (z ≠ 0)%Z → inject_Z (Z.abs z) - (1 # 2) < mag m e → mag m e < inject_Z (Z.abs z) + (1 # 2) →
  nround (S754_finite (z <? 0)%Z m e) = of_Z z.
Proof.
  intros Hz H1 H2. pose proof (mag_scaled m e) as Es. unfold nround.
  assert (0 < 2 ^ Z.max 0 (- e))%Z as Hb by (apply Z.pow_pos_nonneg; lia).
  set (b := (2 ^ Z.max 0 (- e))%Z) in *. set (a := (Zpos m * 2 ^ Z.max 0 e)%Z) in *.
  assert ((2 * Z.abs z + -1) * b < 2 * a < (2 * Z.abs z + 1) * b)%Z as [H3 H4].
  { apply inject_lt in Hb as Hb'. change (inject_Z 0) with 0 in Hb'.
    apply (Qmult_lt_compat_r _ _ (inject_Z b)) in H1, H2; [|done|done]. rewrite Es in H1, H2.
    split; apply inject_lt; rewrite !inject_Z_mult, ?inject_Z_plus, ?inject_Z_mult;
      change (inject_Z 2) with 2; change (inject_Z 1) with 1; change (inject_Z (-1)) with (-1)%Q; lra. }
  assert ((if (z <? 0)%Z then Zneg m else Zpos m) * 2 ^ Z.max 0 e = (if (z <? 0) then - a else a))%Z as ->
    by (unfold a; destruct (z <? 0)%Z; lia).
  assert ((2 * (if (z <? 0)%Z then - a else a) + b) / (2 * b) = z)%Z as ->.
  { symmetry. apply (Z.div_unique_pos _ _ _ (2 * (if (z <? 0)%Z then - a else a) + b - 2 * b * z)); [|lia].
    destruct (Z.ltb_spec z 0); lia. }
  by rewrite (proj2 (Z.eqb_neq z 0)).
Qed.

(** ** A conversion and its inverse *)

(** A positive number far from over- and underflow. *)
Definition moderate (x : spec_float) : Prop :=
  match x with S754_finite false m e => pow2 (-100) <= mag m e /\ mag m e <= pow2 100 | _ => False end.

Lemma within_range k x y a b :
  (k <= 5)%nat → within k x y → pow2 a <= x → x <= pow2 b → pow2 (a + -1) <= y /\ y <= pow2 (b + 1).
Proof.
  intros Hk [H1 H2] Ha Hb. pose proof (pow2_pos a).
  assert ((1 # 2) <= (1 - eps) ^ Z.of_nat k /\ (1 + eps) ^ Z.of_nat k <= 2) as [Hl Hh].
  { destruct k as [|[|[|[|[|[|k]]]]]]; [.. |lia]; split; by vm_compute. }
  rewrite !pow2_add. change (pow2 (-1)) with (1 # 2). change (pow2 1) with 2. split.
  - apply Qle_trans with ((1 - eps) ^ Z.of_nat k * x); [|done].
    rewrite (Qmult_comm (pow2 a)). apply Qmult_le_compat_nonneg; lra.
  - apply Qle_trans with ((1 + eps) ^ Z.of_nat k * x); [done|].
    assert (0 <= (1 + eps) ^ Z.of_nat k) by (apply Qpower_0_le; by vm_compute).
    rewrite (Qmult_comm (pow2 b)). apply Qmult_le_compat_nonneg; lra.
Qed.

Lemma mul_step k x s m e m2 e2 a b :
  (k <= 4)%nat → (-800 <= a)%Z → (b <= 800)%Z → within k x (mag m e) →
  pow2 a <= x * mag m2 e2 → x * mag m2 e2 <= pow2 b →
  ∃ m' e', nmul (S754_finite s m e) (S754_finite false m2 e2) = S754_finite s m' e' /\
    within (k + 1) (x * mag m2 e2) (mag m' e').
Proof.
  intros Hk Ha Hb H H1 H2. apply (within_mult _ _ _ _ (mag_pos m2 e2)) in H.
  destruct (within_range k _ _ a b ltac:(lia) H H1 H2) as [H3 H4].
  destruct (mul_near s m e m2 e2) as (m' & e' & E & Hn).
  { split; [eapply Qle_trans; [|exact H3]|eapply Qle_trans; [exact H4|]]; apply pow2_le; lia. }
  exists m', e'. split; [done|]. eapply within_trans; [exact H|by apply near_within].
Qed.

Lemma div_step k x s m e m2 e2 a b :
  (k <= 4)%nat → (-800 <= a)%Z → (b <= 800)%Z → within k x (mag m e) →
  pow2 a <= x / mag m2 e2 → x / mag m2 e2 <= pow2 b →
  ∃ m' e', ndiv (S754_finite s m e) (S754_finite false m2 e2) = S754_finite s m' e' /\
    within (k + 1) (x / mag m2 e2) (mag m' e').
Proof.
  intros Hk Ha Hb H H1 H2.
  apply (within_mult _ _ _ (/ mag m2 e2)) in H; [|apply Qinv_lt_0_compat, mag_pos].
  destruct (within_range k _ _ a b ltac:(lia) H H1 H2) as [H3 H4].
  destruct (div_near s m e m2 e2) as (m' & e' & E & Hn).
  { split; [eapply Qle_trans; [|exact H3]|eapply Qle_trans; [exact H4|]]; apply pow2_le; lia. }
  exists m', e'. split; [done|]. eapply within_trans; [exact H|by apply near_within].
Qed.

Lemma mul_bounds x y a b c d :
  pow2 a <= x → x <= pow2 b → pow2 c <= y → y <= pow2 d → pow2 (a + c) <= x * y /\ x * y <= pow2 (b + d).
Proof.
  intros. rewrite !pow2_add. pose proof (pow2_pos a). pose proof (pow2_pos c).
  split; apply Qmult_le_compat_nonneg; lra.
Qed.

Lemma inv_le a b : 0 < a → a <= b → / b <= / a.
Proof.
  intros Ha Hab. apply (Qmult_le_r _ _ (a * b)); [apply Qmult_lt_0_compat; lra|].
  assert (/ b * (a * b) == a) as -> by (field; lra). assert (/ a * (a * b) == b) as -> by (field; lra). done.
Qed.

Lemma inv_bounds y c d : pow2 c <= y → y <= pow2 d → pow2 (- d) <= / y /\ / y <= pow2 (- c).
Proof.
  intros H1 H2. pose proof (pow2_pos c). unfold pow2. rewrite !Qpower_opp. fold (pow2 c) (pow2 d).
  split; apply inv_le; lra.
Qed.

Lemma exact_integer k z m e :
  (k <= 5)%nat → (z ≠ 0)%Z → (Z.abs z <= 2 ^ 49)%Z → within k (inject_Z (Z.abs z)) (mag m e) →
  nround (S754_finite (z <? 0)%Z m e) = of_Z z.
Proof.
  intros Hk Hne Hz [H1 H2]. set (x := inject_Z (Z.abs z)) in *.
  assert (0 <= x) by (apply (inject_le 0); lia).
  assert (x <= inject_Z (2 ^ 49)) as Hx by (by apply inject_le).
  assert (1 - pow2 (-50) < (1 - eps) ^ Z.of_nat k /\ (1 + eps) ^ Z.of_nat k < 1 + pow2 (-50)) as [Hl Hh].
  { destruct k as [|[|[|[|[|[|k]]]]]]; [.. |lia]; split; by vm_compute. }
  assert (pow2 (-50) * inject_Z (2 ^ 49) == 1 # 2) as Ep by (by vm_compute).
  assert (0 < x) by (apply (inject_lt 0); lia).
  assert (0 < pow2 (-50)) by apply pow2_pos.
  generalize dependent ((1 - eps) ^ Z.of_nat k). generalize dependent ((1 + eps) ^ Z.of_nat k).
  generalize dependent (pow2 (-50)). intros p Ep Hp h Hh1 Hh2 l Hl1 Hl2.
  apply nround_near; [done|fold x; nra..].
Qed.

Lemma integer_rounded z : (Z.abs z <= 2 ^ 49)%Z → is_finite (of_Z z) = true ∧ nround (of_Z z) = of_Z z.
Proof.
  intros Hz. destruct (decide (z = 0%Z)) as [-> |Hne]; [done|].
  destruct (of_Z_near z Hne) as (m & e & E & H%near_within).
  { apply Z.le_trans with (2 ^ 49)%Z; [done|]. apply Z.pow_le_mono_r; lia. }
  pose proof (exact_integer 1 z m e ltac:(lia) Hne Hz H) as Er. rewrite E at 1 2. by rewrite Er.
Qed.

(** Dividing by [q] and multiplying by [r], and undoing both, gives back an
    integer of up to 49 bits after rounding. *)
Lemma converted_back z q r :
  (Z.abs z <= 2 ^ 49)%Z → moderate q → moderate r →
  let y := nmul (ndiv (of_Z z) q) r in
  is_finite y = true ∧ nround (nmul (ndiv y r) q) = of_Z z.
Proof.
  intros Hz Hq Hr. destruct q as [| | |[] mq eq]; try done. destruct r as [| | |[] mr er]; try done.
  destruct Hq as [Hq1 Hq2]. destruct Hr as [Hr1 Hr2].
  destruct (decide (z = 0%Z)) as [-> |Hne]; [done|].
  pose proof (mag_pos mq eq) as Hq0. pose proof (mag_pos mr er) as Hr0. set (x := inject_Z (Z.abs z)).
  assert (pow2 0 <= x) as Hx1 by (apply (inject_le 1); lia).
  assert (x <= pow2 49) as Hx2 by (rewrite pow2_Z by lia; apply inject_le; lia).
  destruct (inv_bounds _ _ _ Hq1 Hq2) as [Hi1 Hi2].
  destruct (mul_bounds _ _ _ _ _ _ Hx1 Hx2 Hi1 Hi2) as [Hd1 Hd2]. fold (x / mag mq eq) in Hd1, Hd2.
  destruct (mul_bounds _ _ _ _ _ _ Hd1 Hd2 Hr1 Hr2) as [Hm1 Hm2].
  destruct (of_Z_near z Hne) as (m0 & e0 & E0 & H0%near_within).
  { apply Z.le_trans with (2 ^ 49)%Z; [done|]. apply Z.pow_le_mono_r; lia. }
  fold x in H0. rewrite E0.
  assert (x / mag mq eq * mag mr er / mag mr er == x / mag mq eq) as E1 by (field; lra).
  assert (x / mag mq eq * mag mq eq == x) as E2 by (field; lra).
  destruct (div_step 1 x (z <? 0)%Z m0 e0 mq eq (-100) 149
    ltac:(lia) ltac:(lia) ltac:(lia) H0 Hd1 Hd2) as (m1 & e1 & -> & H1).
  destruct (mul_step 2 _ (z <? 0)%Z m1 e1 mr er (-200) 249
    ltac:(lia) ltac:(lia) ltac:(lia) H1 Hm1 Hm2) as (m2 & e2 & -> & H2).
  rewrite <- E1 in Hd1, Hd2.
  destruct (div_step 3 _ (z <? 0)%Z m2 e2 mr er (-100) 149
    ltac:(lia) ltac:(lia) ltac:(lia) H2 Hd1 Hd2) as (m3 & e3 & E3 & H3).
  rewrite E1 in H3. rewrite <- E2 in Hx1, Hx2.
  destruct (mul_step 4 _ (z <? 0)%Z m3 e3 mq eq 0 49
    ltac:(lia) ltac:(lia) ltac:(lia) H3 Hx1 Hx2) as (m4 & e4 & E4 & H4).
  rewrite E2 in H4. cbv zeta. split; [done|]. rewrite E3, E4, <- E0. by apply (exact_integer 5).
Qed.

(** ** The sign of a difference *)

(** The exact value of a finite number. *)
Definition qval (x : spec_float) : Q :=
  match x with
  | S754_finite s m e => if s then - mag m e else mag m e
  | _ => 0
  end.

(** A finite number with an exponent that binary64 has. *)
Definition regular (x : spec_float) : Prop :=
  match x with S754_zero _ => True | S754_finite _ _ e => (-1074 <= e)%Z | _ => False end.

Lemma shr_fexp_positive p e :
  (-1074 <= e)%Z →
  ∃ p' r s e', shr_fexp prec emax (Zpos p) e loc_Exact = (Build_shr_record (Zpos p') r s, e') /\ (-1074 <= e')%Z.
Proof.
  intros He. unfold shr_fexp. cbn [Zdigits2 shr_record_of_loc]. destruct (digits_range p) as [H1 _].
  set (d := Zpos (digits2_pos p)) in *. assert (fexp prec emax (d + e) - e <= Z.max 0 (d - 53))%Z as Hn
    by (unfold fexp, SpecFloat.emin, prec, emax; lia).
  destruct (fexp prec emax (d + e) - e)%Z as [|n|n]; cbn [shr]; [by eexists _, _, _, _| |by eexists _, _, _, _].
  assert (Zpos n <= d - 53)%Z as Hn' by lia.
  assert (represents (Build_shr_record (Zpos p) false false) (inject_Z (Zpos p))) as Hr.
  { split; [done|]. cbn. ring. }
  apply (iter_represents n) in Hr. destruct (SpecFloat.iter_pos _ _ _) as [m r s] eqn:Ei.
  pose proof (represents_floor _ _ Hr) as [_ Hf]. destruct Hr as [Hm _]. cbn [shr_m] in *.
  assert (1 < inject_Z (m + 1)) as Hlt.
  { eapply Qle_lt_trans; [|exact Hf]. apply (scaled_le _ (inject_Z (2 ^ Zpos n))).
    - rewrite <- pow2_Z by lia. apply (pow2_neg (Zpos n)).
    - apply pow2_pos.
    - rewrite Qmult_1_l. apply inject_le. apply Z.le_trans with (2 ^ (d - 1))%Z; [|done].
      apply Z.pow_le_mono_r; lia. }
  apply (proj1 (inject_lt 1 (m + 1))) in Hlt. destruct m as [|m|m]; [lia| |lia]. exists m, r, s, (e + Zpos n)%Z. split; [done|lia].
Qed.

Lemma round_positive p e :
  (-1074 <= e)%Z → ∃ x, binary_round prec emax false p e = x /\ nltb (of_Z 0) x = true.
Proof.
  intros He. eexists. split; [reflexivity|]. unfold binary_round.
  assert (∃ p' e', shl_align p e (fexp prec emax (Zpos (digits2_pos p) + e)) = (p', e') /\ (-1074 <= e')%Z)
    as (p' & e' & -> & He').
  { unfold shl_align. destruct (_ - e)%Z; eexists _, _; (split; [reflexivity|]); try done.
    unfold fexp, SpecFloat.emin, prec, emax. lia. }
  unfold binary_round_aux. destruct (shr_fexp_positive p' e' He') as (p1 & r1 & s1 & e1 & -> & He1).
  cbn [shr_m].
  assert (∃ p2, round_nearest_even (Zpos p1) (loc_of_shr_record (Build_shr_record (Zpos p1) r1 s1)) = Zpos p2)
    as [p2 ->].
  { destruct r1, s1; cbn [loc_of_shr_record round_nearest_even]; try destruct (Z.even _); by eexists. }
  destruct (shr_fexp_positive p2 e1 He1) as (p3 & r3 & s3 & e3 & -> & _). cbn [shr_m].
  by destruct (e3 <=? emax - prec)%Z.
Qed.

Lemma round_negative p e : nltb (of_Z 0) (binary_round prec emax true p e) = false.
Proof.
  unfold binary_round, binary_round_aux. destruct (shl_align _ _ _) as [p' e'].
  destruct (shr_fexp _ _ _ _ _) as [mrs e1]. destruct (shr_fexp _ _ _ _ _) as [mrs2 e2].
  destruct (shr_m mrs2); [done| |done]. by destruct (e2 <=? emax - prec)%Z.
Qed.

Lemma align_mag m e e' : (e' <= e)%Z → inject_Z (Zpos (fst (shl_align m e e'))) * pow2 e' == mag m e.
Proof.
  intros He. unfold shl_align, mag. destruct (e' - e)%Z as [|k|k] eqn:E; cbn [fst].
  - by replace e' with e by lia.
  - lia.
  - rewrite iter_xO, inject_Z_mult, <- pow2_Z, <- Qmult_assoc, <- pow2_add by lia.
    by replace (Zpos k + e')%Z with e by lia.
Qed.

(** The difference of two numbers is positive exactly when the first is
    larger: rounding does not change the sign. *)
Lemma sub_sign x y :
  regular x → regular y → nltb (of_Z 0) (nsub x y) = true ↔ qval y < qval x.
Proof.
  intros Hx Hy. destruct x as [sx| | |sx mx ex], y as [sy| | |sy my ey]; try done; unfold nsub, SFsub.
  - cbn [qval]. split; [|lra]. by destruct sx, sy.
  - cbn [qval]. pose proof (mag_pos my ey). destruct sy; cbn [negb]; (split; [try done; intros _|intros]); try lra; done.
  - cbn [qval]. pose proof (mag_pos mx ex). destruct sx; (split; [try done; intros _|intros]); try lra; done.
  - cbn [regular] in *. set (ez := Z.min ex ey).
    set (d := (cond_Zopp sx (Zpos (fst (shl_align mx ex ez))) - cond_Zopp sy (Zpos (fst (shl_align my ey ez))))%Z).
    assert (inject_Z d * pow2 ez == qval (S754_finite sx mx ex) - qval (S754_finite sy my ey)) as Ed.
    { pose proof (align_mag mx ex ez ltac:(lia)) as E1. pose proof (align_mag my ey ez ltac:(lia)) as E2.
      unfold d, cond_Zopp. cbn [qval]. unfold Z.sub. rewrite inject_Z_plus, inject_Z_opp.
      destruct sx, sy; rewrite ?inject_Z_opp; rewrite <- E1, <- E2; ring. }
    pose proof (pow2_pos ez) as Hp. generalize dependent d. intros d Ed.
    destruct d as [|p|p]; cbn [binary_normalize].
    + change (inject_Z 0) with 0 in Ed. split; [done|]. lra.
    + destruct (round_positive p ez ltac:(lia)) as (r & -> & Hr). split; [intros _|done].
      assert (0 < inject_Z (Zpos p) * pow2 ez); [|lra]. apply Qmult_lt_0_compat; [by apply (inject_lt 0)|done].
    + rewrite round_negative. split; [done|].
      assert (inject_Z (Zneg p) * pow2 ez < 0); [|lra].
      assert (0 < inject_Z (Zpos p) * pow2 ez) as H by (apply Qmult_lt_0_compat; [by apply (inject_lt 0)|done]).
      change (Zneg p) with (- Zpos p)%Z. rewrite inject_Z_opp. lra.
Qed.

(** ** Sorting by the difference of numbers *)

Lemma difference_le x y : regular x → regular y → negb (nltb (of_Z 0) (nsub x y)) = true ↔ qval x <= qval y.
Proof.
  intros Hx Hy. pose proof (sub_sign x y Hx Hy) as S. rewrite negb_true_iff.
  destruct (nltb (of_Z 0) (nsub x y)).
  - split; [done|]. intros Hle. exfalso. apply (Qle_not_lt _ _ Hle). by apply S.
  - split; [|done]. intros _. apply Qnot_lt_le. intros Hlt. by apply S in Hlt.
Qed.
