(* ===== verification/CurrencyProps.v ===== *)
(** * Properties of amounts

    The settings that amounts are shown with are always usable; an amount is
    shown as the nearest decimal; a quota that is opened for editing and saved
    without a change stays the same. *)
From S2P Require Import Prelude JsString JsNumber Regex JsValue JsFixed Currency CurrencyFacts FloatError.
From Stdlib Require Import SpecFloat.

Open Scope N_scope.

(** ** Settings *)

Lemma positive_or_positive o d : nltb n0 d = true → nltb n0 (positive_or o d) = true.
Proof.
  intros Hd. destruct o as [x|]; cbn [positive_or]; [|done].
  destruct (num_truthy x && nltb n0 x) eqn:E; [|done]. by apply andb_true_iff in E as [_ E].
Qed.

Lemma moderate_positive x : moderate x → nltb n0 x = true.
Proof. by destruct x as [| | |[]]. Qed.

Lemma moderate_one : moderate n1.
Proof. split; by vm_compute. Qed.

(** The settings that amounts are shown with are usable whatever the store
    holds (missing members, zero, negative or not-a-number rates, a blank
    symbol): the quota per unit and both exchange rates are positive, the
    symbol is trimmed and not empty, the rate that applies is positive, and
    amounts of billing are never shown as tokens. *)
Theorem settings_usable (store : option StoredCurrency) :
  let '(config, meta) := getCurrencyDisplay store in
  nltb n0 (quotaPerUnit config) = true ∧ nltb n0 (usdExchangeRate config) = true ∧
  nltb n0 (customCurrencyExchangeRate config) = true ∧
  customCurrencySymbol config ≠ [] ∧ trim (customCurrencySymbol config) = customCurrencySymbol config ∧
  nltb n0 (meta_rate meta) = true ∧
  is_tokens (getBillingDisplayMeta config) = false ∧ nltb n0 (meta_rate (getBillingDisplayMeta config)) = true.
Proof.
  unfold getCurrencyDisplay. set (config := getConfig store). cbv beta iota zeta.
  assert (nltb n0 (quotaPerUnit config) = true) as Hq by (by apply positive_or_positive).
  assert (nltb n0 (usdExchangeRate config) = true) as Hu by (by apply positive_or_positive).
  assert (nltb n0 (customCurrencyExchangeRate config) = true) as Hc by (by apply positive_or_positive).
  assert (customCurrencySymbol config ≠ [] ∧ trim (customCurrencySymbol config) = customCurrencySymbol config)
    as [Hs Ht].
  { cbn. destruct (st_customCurrencySymbol _) as [x|]; cbn; [|done]. unfold str_or.
    destruct (trim x) as [|c u] eqn:E; [done|]. change (truthy (c :: u)) with true. cbv iota.
    split; [done|]. rewrite <- E. apply trim_idemp. }
  clearbody config.
  assert (nltb n0 (meta_rate (getDisplayMeta config)) = true) as Hr.
  { unfold getDisplayMeta. destruct (str_eqb _ _); [done|]. destruct (str_eqb _ _); [done|]. by destruct (str_eqb _ _). }
  split_and!; try done; unfold getBillingDisplayMeta; by destruct (getDisplayMeta config).
Qed.

(** ** Quota *)

(** C11. A quota that is opened for editing and saved without a change stays the
    same: for quota units of up to 49 bits and a quota per unit and exchange
    rates between 2^-100 and 2^100, parseQuotaFromDollars of what
    quotaUnitsToDollars offers is the number of units again, in every display
    mode, although each of the four conversions rounds. *)
Theorem quota_edit_roundtrip (store : option StoredCurrency) (z : Z) :
  moderate (quotaPerUnit (getConfig store)) → moderate (usdExchangeRate (getConfig store)) →
  moderate (customCurrencyExchangeRate (getConfig store)) → (Z.abs z ≤ 2 ^ 49)%Z →
  parseQuotaFromDollars store (quotaUnitsToDollars store (of_Z z)) = of_Z z.
Proof.
  intros Hq Hu Hc Hz. unfold parseQuotaFromDollars, quotaUnitsToDollars, getCurrencyDisplay. cbv beta iota zeta.
  set (config := getConfig store) in *. set (meta := getDisplayMeta config).
  destruct (is_tokens meta) eqn:Et.
  - destruct (integer_rounded z Hz) as [-> E]. exact E.
  - assert (moderate (meta_rate meta)) as Hm.
    { clearbody config. unfold meta, getDisplayMeta in *. destruct (str_eqb _ _); [done|].
      destruct (str_eqb _ _); [done|]. destruct (str_eqb _ _); [done|]. exact moderate_one. }
    destruct (converted_back z (quotaPerUnit config) (meta_rate meta) Hz Hq Hm) as [-> E].
    cbn [negb]. by rewrite (moderate_positive _ Hm).
Qed.

(** ** Text *)

(** C14. Numbers are shortened without losing more than rounding: what
    formatNumberWithSuffix writes for a finite number is the decimal nearest
    to its exact value among those with the chosen number of digits after the
    point, without zeros at the end of the fraction; in the abbreviated form
    the same holds of the thousandth and one digit, and a k follows. *)
Theorem amount_text_exact (x : num) (large small : nat) (abbr : bool) :
  let shortened := abbr && nleb n1000 (nabs x) in
  let y := if shortened then ndiv x n1000 else x in
  is_finite y = true → huge y = false →
  let digits := if shortened then 1%nat else if nleb n1 (nabs x) then large else small in
  ∃ s, shows digits y s ∧
    formatNumberWithSuffix x large small abbr = s ++ (if shortened then js "k" else []).
Proof.
  intros shortened y Hf Hh digits. exists (removeTrailingZeros (to_fixed digits y)).
  split; [by apply shortened_shows|]. unfold formatNumberWithSuffix. subst y digits. fold shortened.
  destruct shortened; [done|]. by rewrite app_nil_r.
Qed.

(** ** The smallest amount *)

Lemma nltb_zero_abs x : neqb x n0 = false → is_nan x = false → nltb n0 (nabs x) = true.
Proof. by destruct x as [| | |[]]. Qed.

(** An amount that is not zero is never shown as less than the smallest
    amount: where the threshold is positive (the given minimum, or else the
    power of ten of the last digit shown), what is handed to the formatter is
    not below the threshold in absolute value and has the sign of the amount,
    and it is the amount itself unless that is below the threshold. *)
Theorem small_amounts_visible `{NumberApi} (x minimum : num) (digits : nat) :
  let threshold := if nltb n0 minimum then minimum else math_pow (of_Z 10) (SFopp (of_nat digits)) in
  nltb n0 threshold = true → neqb x n0 = false → is_nan x = false →
  let r := adjustForMinimum x digits minimum in
  nltb (nabs r) threshold = false ∧ nltb n0 r = nltb n0 x ∧ nltb r n0 = nltb x n0 ∧
  (r = x ∨ (nltb (nabs x) threshold = true ∧ nabs r = nabs threshold)).
Proof.
  intros t Ht Hx Hn r. unfold r, adjustForMinimum. rewrite Hx. fold t. cbv zeta.
  rewrite (nltb_zero_abs x Hx Hn). cbn [andb]. clearbody t. clear r.
  assert (nabs t = t ∧ nltb t n0 = false) as [Ea Hs] by (by destruct t as [| [] | | []]).
  assert (nabs (SFopp t) = nabs t) as Eo by (by destruct t).
  assert (nltb n0 (SFopp t) = false ∧ nltb (SFopp t) n0 = true) as [Ho1 Ho2] by (by destruct t as [| [] | | []]).
  destruct (nltb (nabs x) t) eqn:E; [|split_and!; try done; by left].
  destruct (nltb n0 x) eqn:E0.
  - rewrite Ea, nltb_irrefl, Hs, Ht. split_and!; try done; [|by right]. symmetry. by apply nltb_asym.
  - rewrite Eo, Ea, nltb_irrefl, Ho1, Ho2. split_and!; try done; [|by right].
    by destruct x as [| [] | | []].
Qed.

(** ** Findings *)

(** The last seconds of a minute are shown as sixty: the remainder is rounded
    after the minutes are split off. *)
Lemma use_time_sixty : formatUseTime (str_to_num (js "119.7")) = js "1m 60s".
Proof. vm_compute. reflexivity. Qed.

(** A small negative amount is shown as minus zero. *)
Lemma minus_zero : formatNumberWithSuffix (str_to_num (js "-0.00001")) 2 4 true = js "-0".
Proof. vm_compute. reflexivity. Qed.

(** ** Witnesses *)

Definition sample_store : option StoredCurrency :=
  Some (Stored (Some true) (Some (js "CNY")) (Some (of_Z 500000)) (Some (str_to_num (js "7.3"))) None None).

Lemma quota_edit_roundtrip_witness :
  parseQuotaFromDollars sample_store (quotaUnitsToDollars sample_store (of_Z 1234567)) = of_Z 1234567.
Proof. apply quota_edit_roundtrip; [split; vm_compute; discriminate..|vm_compute; discriminate]. Defined.

Lemma amount_text_exact_witness :
  ∃ s, shows 1 (ndiv (str_to_num (js "1234.56")) n1000) s ∧
    formatNumberWithSuffix (str_to_num (js "1234.56")) 2 4 true = s ++ js "k".
Proof. exact (amount_text_exact (str_to_num (js "1234.56")) 2 4 true eq_refl eq_refl). Defined.

(** A formatter without separators, and powers of ten. *)
#[local] Instance plain_numbers : NumberApi := {
  intl_currency code digits x := code ++ js " " ++ to_fixed digits x;
  intl_decimal digits x := to_fixed digits x;
  math_pow x y :=
    match to_Z y with
    | Some (Zneg e) => ndiv n1 (of_Z (10 ^ Zpos e))
    | Some e => of_Z (10 ^ e)
    | None => nNaN
    end;
}.

Lemma small_amounts_visible_witness :
  let r := adjustForMinimum (str_to_num (js "-1e-9")) 6 n0 in
  nltb (nabs r) (math_pow (of_Z 10) (SFopp (of_nat 6))) = false ∧ nltb n0 r = false ∧ nltb r n0 = true ∧
  (r = str_to_num (js "-1e-9") ∨
   (nltb (nabs (str_to_num (js "-1e-9"))) (math_pow (of_Z 10) (SFopp (of_nat 6))) = true ∧
    nabs r = nabs (math_pow (of_Z 10) (SFopp (of_nat 6))))).
Proof. exact (small_amounts_visible (str_to_num (js "-1e-9")) n0 6 eq_refl eq_refl eq_refl). Defined.
