(* ===== verification/HttpStatusRules.v ===== *)
(** * HTTP status code rules

    Model of src/web/default/src/lib/http-status-code-rules.ts: a rule text
    such as [401, 500-599] is split into tokens, every token is parsed into
    an inclusive range, and the ranges are merged into a normal form.

    Codes are integers: [Number.parseInt] of a digit string is its exact
    value below 2^53, and a larger one is rejected by the bound 599 whether
    it is rounded or not. *)
From S2P Require Import Prelude JsString JsNumber JsValue.

Open Scope Z_scope.

Record StatusCodeRange := Range { start : Z; end_ : Z }.

#[export] Instance StatusCodeRange_eq_dec : EqDecision StatusCodeRange.
Proof. solve_decision. Defined.

Record ParsedHttpStatusCodeRules := Parsed {
  ok : bool;
  ranges : list StatusCodeRange;
  tokens : list jsstr;
  normalized : jsstr;
  invalidTokens : list jsstr;
}.

(** [/^\d+$/.test(s)]. *)
Definition isNumber (s : jsstr) : bool := truthy s && forallb is_digit s.

Definition isValidCode (code : Z) : bool := (100 <=? code) && (code <=? 599).

Definition parseInt10 (s : jsstr) : Z := Z.of_N (digits_value s).

Definition parseToken (token : jsstr) : option StatusCodeRange :=
  let cleaned := replace_class is_ws [] (trim token) in
  if negb (truthy cleaned) then None
  else if str_includes (js "-") cleaned then
    match split (js "-") cleaned with
    | a :: b :: _ =>
        if negb (isNumber a) || negb (isNumber b) then None
        else
          let s := parseInt10 a in
          let e := parseInt10 b in
          if negb (isValidCode s) || negb (isValidCode e) || (e <? s) then None
          else Some (Range s e)
    | _ => None
    end
  else if negb (isNumber cleaned) then None
  else
    let code := parseInt10 cleaned in
    if negb (isValidCode code) then None else Some (Range code code).

(** The comparison callback: by [start], then by [end]. *)
Definition range_leb (a b : StatusCodeRange) : bool :=
  if negb (start a =? start b) then start a - start b <=? 0 else end_ a - end_ b <=? 0.

(** One step of the [reduce]: a new range opens when there is a gap, else
    the last one is extended in place. *)
Definition merge_step (merged : list StatusCodeRange) (current : StatusCodeRange)
    : list StatusCodeRange :=
  match last merged with
  | None => merged ++ [current]
  | Some l =>
      if end_ l + 1 <? start current then merged ++ [current]
      else <[pred (length merged) := Range (start l) (Z.max (end_ l) (end_ current))]> merged
  end.

Definition mergeRanges (rs : list StatusCodeRange) : list StatusCodeRange :=
  fold_left merge_step (sort_by range_leb rs) [].

Definition range_token (r : StatusCodeRange) : jsstr :=
  if start r =? end_ r then dec_Z (start r)
  else dec_Z (start r) ++ js "-" ++ dec_Z (end_ r).

(** The segments of the text: [，] is read as a comma. *)
Definition rule_segments (raw : jsstr) : list jsstr :=
  filterb truthy
    (map trim (split (js ",") (replace_class (λ c, (c =? 65292)%N) (js ",") raw))).

(** The loop over the segments: what parses and what does not. *)
Fixpoint parse_segments (segs : list jsstr) : list StatusCodeRange * list jsstr :=
  match segs with
  | [] => ([], [])
  | s :: segs =>
      let '(rs, bad) := parse_segments segs in
      match parseToken s with
      | None => (rs, s :: bad)
      | Some r => (r :: rs, bad)
      end
  end.

Definition parse_rules (raw : jsstr) : ParsedHttpStatusCodeRules :=
  match raw with
  | [] => Parsed true [] [] [] []
  | _ =>
      let '(rs, bad) := parse_segments (rule_segments raw) in
      match bad with
      | _ :: _ => Parsed false [] [] raw bad
      | [] =>
          let merged := mergeRanges rs in
          let toks := map range_token merged in
          Parsed true merged toks (join (js ",") toks) []
      end
  end.

(** [None] is the exception of [toString] on an object that hides it. *)
Definition parseHttpStatusCodeRules (input : value) : option ParsedHttpStatusCodeRules :=
  (λ t, parse_rules (trim t)) <$> to_string (nullish (VStr []) input).

(** ** Specification *)

Definition covers (r : StatusCodeRange) (n : Z) : Prop := start r ≤ n ≤ end_ r.
Definition covered (rs : list StatusCodeRange) (n : Z) : Prop := ∃ r, r ∈ rs ∧ covers r n.
Definition wf_range (r : StatusCodeRange) : Prop := start r ≤ end_ r.

(** Ranges in increasing order, with a code missing between neighbours. *)
Definition gap (a b : StatusCodeRange) : Prop := end_ a + 1 < start b.
Definition separated : list StatusCodeRange → Prop := StronglySorted gap.

(** ** Merging *)

Lemma range_leb_spec a b :
  range_leb a b = true ↔ start a < start b ∨ (start a = start b ∧ end_ a ≤ end_ b).
Proof.
  unfold range_leb. destruct (Z.eqb_spec (start a) (start b)); simpl;
    rewrite Z.leb_le; lia.
Qed.

Lemma range_leb_total a b : range_leb a b = true ∨ range_leb b a = true.
Proof. rewrite !range_leb_spec. lia. Qed.

Lemma range_leb_trans a b c :
  range_leb a b = true → range_leb b c = true → range_leb a c = true.
Proof. rewrite !range_leb_spec. lia. Qed.

(** [merge_step] on a list written with its last element apart. *)
Lemma merge_step_snoc rs l c :
  merge_step (rs ++ [l]) c =
  if end_ l + 1 <? start c then rs ++ [l; c]
  else rs ++ [Range (start l) (Z.max (end_ l) (end_ c))].
Proof.
  unfold merge_step. rewrite last_snoc. destruct (end_ l + 1 <? start c).
  - by rewrite <- app_assoc.
  - rewrite length_app. simpl. replace (pred (length rs + 1)) with (length rs + 0)%nat by lia.
    by rewrite insert_app_r.
Qed.

Lemma covered_app xs ys n : covered (xs ++ ys) n ↔ covered xs n ∨ covered ys n.
Proof. unfold covered. set_solver. Qed.

Lemma covered_one r n : covered [r] n ↔ covers r n.
Proof. unfold covered. set_solver. Qed.

(** The invariant of the [reduce]: the merged list is separated, its ranges
    are well formed and it covers exactly what the consumed ranges cover. *)
Definition merge_inv (consumed merged : list StatusCodeRange) : Prop :=
  separated merged ∧ Forall wf_range merged ∧
  ∀ n, covered merged n ↔ covered consumed n.

(** A range after a gap is appended. *)
Lemma merge_inv_push consumed rs l c :
  merge_inv consumed (rs ++ [l]) → wf_range c → gap l c →
  merge_inv (consumed ++ [c]) (rs ++ [l; c]).
Proof.
  intros (Hsep & Hwf & Hcov) Hc Hg.
  change [l; c] with ([l] ++ [c]). rewrite app_assoc. split; [|split].
  - apply StronglySorted_app. split; [|split; [done|repeat constructor]].
    intros x1 x2 H1 ->%list_elem_of_singleton.
    apply elem_of_app in H1 as [H1| ->%list_elem_of_singleton]; [|done].
    apply StronglySorted_app in Hsep as (Hsep & _ & _).
    specialize (Hsep x1 l H1 ltac:(set_solver)).
    rewrite !Forall_app, Forall_singleton in Hwf. destruct Hwf as [_ Hl].
    unfold gap, wf_range in *. lia.
  - rewrite Forall_app, Forall_singleton. done.
  - intros n. rewrite !covered_app, <- Hcov, covered_app. tauto.
Qed.

(** A range that touches the last one extends it. *)
Lemma merge_inv_extend consumed rs l c :
  merge_inv consumed (rs ++ [l]) → wf_range c → start l ≤ start c → ¬ gap l c →
  merge_inv (consumed ++ [c]) (rs ++ [Range (start l) (Z.max (end_ l) (end_ c))]).
Proof.
  intros (Hsep & Hwf & Hcov) Hc Hle Hg.
  rewrite Forall_app, Forall_singleton in Hwf. destruct Hwf as [Hwf Hl].
  apply StronglySorted_app in Hsep as (Hsep & Hrs & _).
  unfold gap, wf_range in *. split; [|split].
  - apply StronglySorted_app. split; [|split; [done|repeat constructor]].
    intros x1 x2 H1 ->%list_elem_of_singleton.
    specialize (Hsep x1 l H1 ltac:(set_solver)). done.
  - rewrite Forall_app, Forall_singleton. split; [done|]. unfold wf_range. simpl. lia.
  - intros n. rewrite !covered_app, <- Hcov, covered_app, !covered_one.
    unfold covers. simpl. assert (start l ≤ n ≤ Z.max (end_ l) (end_ c) ↔
      start l ≤ n ≤ end_ l ∨ start c ≤ n ≤ end_ c) by (split; lia). tauto.
Qed.

Lemma merge_fold cs consumed rs l :
  merge_inv consumed (rs ++ [l]) →
  Forall wf_range cs → Forall (λ c, start l ≤ start c) cs →
  StronglySorted (rel_of range_leb) cs →
  merge_inv (consumed ++ cs) (fold_left merge_step cs (rs ++ [l])).
Proof.
  revert consumed rs l; induction cs as [|c cs IH];
    intros consumed rs l Hinv Hcs Hl Hs; simpl; [by rewrite app_nil_r|].
  apply Forall_cons in Hcs as [Hc Hcs], Hl as [Hlc Hl].
  apply StronglySorted_inv in Hs as [Hs Hmin].
  assert (Forall (λ c', start c ≤ start c') cs) as Hc'.
  { eapply Forall_impl; [exact Hmin|]. intros c'. unfold rel_of.
    rewrite range_leb_spec. lia. }
  replace (consumed ++ c :: cs) with ((consumed ++ [c]) ++ cs)
    by by rewrite <- app_assoc.
  rewrite merge_step_snoc. destruct (Z.ltb_spec (end_ l + 1) (start c)) as [Hg|Hg].
  - change [l; c] with ([l] ++ [c]). rewrite app_assoc. apply IH; [|done..].
    rewrite <- app_assoc. by apply merge_inv_push.
  - apply IH; [|done..]. apply merge_inv_extend; [done..|]. unfold gap. lia.
Qed.

Lemma mergeRanges_inv rs : Forall wf_range rs → merge_inv rs (mergeRanges rs).
Proof.
  intros Hwf. unfold mergeRanges.
  pose proof (sort_by_Permutation range_leb rs) as HP.
  pose proof (sort_by_Sorted _ range_leb_total range_leb_trans rs) as Hs.
  rewrite <- HP in Hwf. destruct (sort_by range_leb rs) as [|c cs].
  { split; [constructor|]. split; [constructor|]. intros n. unfold covered.
    apply Permutation_nil_l in HP as <-. done. }
  apply Forall_cons in Hwf as [Hc Hcs]. apply StronglySorted_inv in Hs as [Hs Hmin].
  destruct (merge_fold cs [c] [] c) as (H1 & H2 & H3); [|done| |done|].
  - split; [repeat constructor|]. split; [by repeat constructor|]. done.
  - eapply Forall_impl; [exact Hmin|]. intros c'. unfold rel_of.
    rewrite range_leb_spec. lia.
  - split; [done|]. split; [done|]. intros n. rewrite H3. unfold covered.
    simpl. by setoid_rewrite HP.
Qed.

(** Merging separated ranges changes nothing. *)
Lemma merge_fold_separated rs l cs :
  separated (rs ++ l :: cs) → fold_left merge_step cs (rs ++ [l]) = rs ++ l :: cs.
Proof.
  revert rs l; induction cs as [|c cs IH]; intros rs l Hsep; simpl; [done|].
  rewrite merge_step_snoc.
  assert (gap l c) as Hg%Z.ltb_lt.
  { apply StronglySorted_app in Hsep as (_ & _ & Hsep).
    apply StronglySorted_inv in Hsep as [_ Hsep]. by apply Forall_cons in Hsep as [? _]. }
  unfold gap in Hg. rewrite Hg. change [l; c] with ([l] ++ [c]). rewrite app_assoc.
  rewrite IH; rewrite <- app_assoc; done.
Qed.

Lemma mergeRanges_separated rs :
  separated rs → Forall wf_range rs → mergeRanges rs = rs.
Proof.
  intros Hsep Hwf. unfold mergeRanges. rewrite sort_by_id.
  - destruct rs as [|l cs]; [done|]. apply (merge_fold_separated [] l cs Hsep).
  - clear -Hsep Hwf. induction Hsep as [|a l Hl IH Ha]; [constructor|].
    apply Forall_cons in Hwf as [Hwa Hwf]. constructor; [by apply IH|].
    rewrite Forall_forall in *. intros b Hb. specialize (Ha b Hb).
    specialize (Hwf b Hb). unfold rel_of, gap, wf_range in *. rewrite range_leb_spec. lia.
Qed.

(** ** Tokens *)

Definition valid_range (r : StatusCodeRange) : Prop :=
  100 ≤ start r ∧ start r ≤ end_ r ∧ end_ r ≤ 599.

Lemma isValidCode_spec n : isValidCode n = true ↔ 100 ≤ n ≤ 599.
Proof. unfold isValidCode. rewrite andb_true_iff, !Z.leb_le. lia. Qed.

Lemma parseToken_valid t r : parseToken t = Some r → valid_range r.
Proof.
  unfold parseToken, valid_range. intros H.
  repeat case_split_in H; try done; simplify_eq; simpl;
    repeat match goal with
    | H : _ || _ = false |- _ => apply orb_false_iff in H as [? ?]
    | H : negb _ = false |- _ => apply negb_false_iff in H
    | H : isValidCode _ = true |- _ => apply isValidCode_spec in H
    | H : (_ <? _) = false |- _ => apply Z.ltb_ge in H
    end; lia.
Qed.

Lemma dec_Z_nonneg z : 0 ≤ z → dec_Z z = dec (Z.to_N z).
Proof. destruct z; [done|done|lia]. Qed.

Lemma parseInt10_dec z : 0 ≤ z → parseInt10 (dec_Z z) = z.
Proof.
  intros H. rewrite dec_Z_nonneg by done. unfold parseInt10. rewrite dec_value. lia.
Qed.

Lemma dec_Z_digits z : 0 ≤ z → Forall (λ c, is_digit c = true) (dec_Z z).
Proof. intros H. rewrite dec_Z_nonneg by done. apply dec_digits. Qed.

Lemma isNumber_dec z : 0 ≤ z → isNumber (dec_Z z) = true.
Proof.
  intros H. unfold isNumber. apply andb_true_iff. split.
  - rewrite dec_Z_nonneg by done. pose proof (dec_nonempty (Z.to_N z)).
    by destruct (dec _).
  - apply forallb_forall. intros c Hc. apply list_elem_of_In in Hc.
    pose proof (dec_Z_digits z H) as Hd. rewrite Forall_forall in Hd. by apply Hd.
Qed.

(** The code units of a printed token. *)
Definition token_unit (c : N) : Prop := is_digit c = true ∨ c = 45%N.

Lemma range_token_units r : valid_range r → Forall token_unit (range_token r).
Proof.
  intros (H1 & H2 & H3). unfold range_token.
  assert (∀ z, 0 ≤ z → Forall token_unit (dec_Z z)) as Hz.
  { intros z Hz. eapply Forall_impl; [by apply dec_Z_digits|]. by left. }
  destruct (start r =? end_ r); [apply Hz; lia|].
  rewrite !Forall_app. split; [apply Hz; lia|]. split; [|apply Hz; lia].
  constructor; [by right|constructor].
Qed.

Lemma token_unit_not_ws c : token_unit c → is_ws c = false.
Proof. intros [H| ->]; [by apply digit_not_ws|done]. Qed.

Lemma digits_no_dash s : Forall (λ c, is_digit c = true) s → 45%N ∉ s.
Proof. intros H Hin. rewrite Forall_forall in H. by specialize (H _ Hin). Qed.

Lemma range_token_nonempty r : valid_range r → truthy (range_token r) = true.
Proof.
  intros (H1 & H2 & H3). unfold range_token.
  pose proof (dec_nonempty (Z.to_N (start r))) as Hd.
  rewrite (dec_Z_nonneg (start r)) by lia.
  destruct (start r =? end_ r); by destruct (dec (Z.to_N (start r))).
Qed.

(** Parsing a printed token gives the range back. *)
Lemma parseToken_range_token r : valid_range r → parseToken (range_token r) = Some r.
Proof.
  intros Hv. pose proof (range_token_units r Hv) as Hu.
  pose proof (range_token_nonempty r Hv) as Hne.
  assert (Forall (λ c, is_ws c = false) (range_token r)) as Hws.
  { eapply Forall_impl; [exact Hu|apply token_unit_not_ws]. }
  unfold parseToken. rewrite trim_id by by apply no_ws_trimmed.
  rewrite replace_class_id by done. rewrite Hne. simpl.
  destruct Hv as (H1 & H2 & H3).
  assert (isValidCode (start r) = true) as V1 by (apply isValidCode_spec; lia).
  assert (isValidCode (end_ r) = true) as V2 by (apply isValidCode_spec; lia).
  unfold range_token. unfold str_includes. change (js "-") with [45%N].
  destruct (Z.eqb_spec (start r) (end_ r)) as [E|E].
  - assert (index_of [45%N] (dec_Z (start r)) = None) as ->.
    { apply index_of_char, digits_no_dash, dec_Z_digits. lia. }
    simpl. rewrite isNumber_dec by lia. simpl. rewrite parseInt10_dec by lia.
    rewrite V1. simpl. destruct r; simpl in *; congruence.
  - change ([45%N] ++ ?x) with (45%N :: x).
    rewrite index_of_char_app by (apply digits_no_dash, dec_Z_digits; lia). simpl.
    change (dec_Z (start r) ++ 45%N :: dec_Z (end_ r)) with
      (join [45%N] [dec_Z (start r); dec_Z (end_ r)]).
    rewrite split_join; [|done|].
    2: { repeat constructor; apply digits_no_dash, dec_Z_digits; lia. }
    rewrite !isNumber_dec by lia. simpl. rewrite !parseInt10_dec by lia.
    rewrite V1, V2. simpl. destruct (Z.ltb_spec (end_ r) (start r)); [lia|]. by destruct r.
Qed.

(** ** Rule texts *)

Lemma parse_segments_spec segs :
  parse_segments segs =
  (omap parseToken segs, filterb (λ s, negb (is_some (parseToken s))) segs).
Proof.
  induction segs as [|s segs IH]; simpl; [done|]. rewrite IH.
  by destruct (parseToken s).
Qed.

Lemma rule_segments_tokens rs :
  Forall valid_range rs → rs ≠ [] →
  rule_segments (join (js ",") (map range_token rs)) = map range_token rs.
Proof.
  intros Hv Hne. set (toks := map range_token rs).
  assert (Forall (Forall token_unit) toks) as Hu.
  { apply Forall_map. eapply Forall_impl; [exact Hv|]. apply range_token_units. }
  assert (∀ c, token_unit c ∨ c = 44%N → (c =? 65292)%N = false) as Hfw.
  { intros c [[Hc| ->]| ->]; [|done|done]. apply N.eqb_neq. intros ->. done. }
  unfold rule_segments. rewrite replace_class_id.
  2: { clear -Hu Hfw. induction toks as [|t [|u ts] IH].
       - constructor.
       - apply Forall_cons in Hu as [Hu _]. eapply Forall_impl; [exact Hu|]. auto.
       - apply Forall_cons in Hu as [Ht Hu]. rewrite join_cons2, !Forall_app. split.
         + eapply Forall_impl; [exact Ht|]. auto.
         + split; [repeat constructor|by apply IH]. }
  change (js ",") with [44%N]. rewrite split_join.
  - assert (map trim toks = toks) as ->.
    { clear -Hu. induction Hu as [|t ts Ht _ IH]; simpl; [done|]. rewrite IH, trim_id; [done|].
      apply no_ws_trimmed. eapply Forall_impl; [exact Ht|apply token_unit_not_ws]. }
    apply filterb_all. intros t Ht. apply list_elem_of_fmap in Ht as (r & -> & Hr).
    apply range_token_nonempty. rewrite Forall_forall in Hv. by apply Hv.
  - by destruct rs.
  - eapply Forall_impl; [exact Hu|]. intros t Ht Hin. rewrite Forall_forall in Ht.
    by destruct (Ht _ Hin).
Qed.

Lemma omap_tokens rs :
  Forall valid_range rs → parse_segments (map range_token rs) = (rs, []).
Proof.
  intros Hv. induction Hv as [|r rs Hr _ IH]; simpl; [done|].
  by rewrite IH, parseToken_range_token.
Qed.

(** The merged ranges stay inside the bounds of their inputs. *)
Lemma merged_valid rs :
  Forall valid_range rs → Forall valid_range (mergeRanges rs).
Proof.
  intros Hv. destruct (mergeRanges_inv rs) as (_ & Hwf & Hcov).
  { eapply Forall_impl; [exact Hv|]. unfold valid_range, wf_range. lia. }
  rewrite Forall_forall in *. intros r Hr. specialize (Hwf r Hr). unfold wf_range in Hwf.
  assert (∀ n, covers r n → 100 ≤ n ≤ 599) as Hb.
  { intros n Hn. assert (covered (mergeRanges rs) n) as (r' & Hr' & Hn')%Hcov by by exists r.
    destruct (Hv r' Hr') as (?&?&?). unfold covers in Hn'. lia. }
  pose proof (Hb (start r)) as B1. pose proof (Hb (end_ r)) as B2.
  unfold covers in B1, B2. unfold valid_range. lia.
Qed.

Lemma parse_rules_ok raw :
  ok (parse_rules raw) = true →
  ∃ rs, Forall valid_range rs ∧
    parse_rules raw = Parsed true (mergeRanges rs) (map range_token (mergeRanges rs))
      (join (js ",") (map range_token (mergeRanges rs))) [].
Proof.
  destruct raw as [|c raw]; simpl; [by exists []|].
  rewrite parse_segments_spec. set (segs := rule_segments _).
  destruct (filterb _ segs); [|done]. intros _.
  exists (omap parseToken segs). split; [|done].
  apply Forall_forall. intros r Hr. apply list_elem_of_omap in Hr as (s & _ & Hs).
  by eapply parseToken_valid.
Qed.

(** The text of separated valid ranges parses to those ranges. *)
Lemma parse_normal_text ms :
  Forall valid_range ms → separated ms →
  parse_rules (join (js ",") (map range_token ms)) =
  Parsed true ms (map range_token ms) (join (js ",") (map range_token ms)) [].
Proof.
  intros Hv Hsep. destruct ms as [|r ms]; [done|].
  pose proof (rule_segments_tokens (r :: ms) Hv ltac:(done)) as Hseg.
  unfold parse_rules. rewrite Hseg, omap_tokens, mergeRanges_separated; [|done| |done].
  2: { eapply Forall_impl; [exact Hv|]. unfold valid_range, wf_range. lia. }
  destruct (join _ _) eqn:Ej; [|done].
  apply Forall_cons in Hv as [Hr%range_token_nonempty _]. simpl in Ej.
  destruct (map range_token ms); simpl in Ej; [by rewrite Ej in Hr|].
  by apply app_eq_nil in Ej as [_ ?].
Qed.

(** ** Properties *)

(** C1.  [mergeRanges] is a set union: for ranges that are not inverted,
    the result is ordered, keeps a gap between neighbours (so no two ranges
    overlap or touch), has no inverted range, and covers exactly the codes
    the input covers. *)
Theorem mergeRanges_union (rs : list StatusCodeRange) :
  Forall wf_range rs →
  separated (mergeRanges rs) ∧ Forall wf_range (mergeRanges rs) ∧
  ∀ n, covered (mergeRanges rs) n ↔ covered rs n.
Proof. apply mergeRanges_inv. Qed.

Lemma mergeRanges_union_witness :
  separated (mergeRanges [Range 500 503; Range 401 401; Range 504 510; Range 402 402]) ∧
  mergeRanges [Range 500 503; Range 401 401; Range 504 510; Range 402 402]
  = [Range 401 402; Range 500 510].
Proof.
  split; [|vm_compute; reflexivity].
  apply (mergeRanges_union [Range 500 503; Range 401 401; Range 504 510; Range 402 402]).
  repeat constructor; vm_compute; discriminate.
Defined.

(** The normal form is a fixed point: when a rule text is accepted,
    parsing its [normalized] text is accepted again and gives the same
    ranges, the same tokens and the same normal form. *)
Theorem normalized_fixpoint (raw : jsstr) :
  ok (parse_rules raw) = true →
  parse_rules (normalized (parse_rules raw)) = parse_rules raw.
Proof.
  intros Hok. destruct (parse_rules_ok raw Hok) as (rs & Hv & ->). cbn [normalized].
  pose proof (merged_valid rs Hv) as Hmv.
  destruct (mergeRanges_inv rs) as (Hsep & Hwf & _).
  { eapply Forall_impl; [exact Hv|]. unfold valid_range, wf_range. lia. }
  by apply parse_normal_text.
Qed.

Lemma normalized_fixpoint_witness :
  parse_rules (js "500-503，401, 504-510") =
    Parsed true [Range 401 401; Range 500 510] [js "401"; js "500-510"]
      (js "401,500-510") [] ∧
  parse_rules (js "401,500-510") = parse_rules (js "500-503，401, 504-510").
Proof.
  split; [vm_compute; reflexivity|].
  apply (normalized_fixpoint (js "500-503，401, 504-510")). vm_compute. reflexivity.
Defined.

(** A rule text is rejected exactly when one of its segments is not a
    code or a range of codes; the rejected result names those segments, in
    order, and has no ranges, and an accepted result has only codes between
    100 and 599. *)
Theorem parse_rules_errors (raw : jsstr) :
  raw ≠ [] →
  let bad := filterb (λ s, negb (is_some (parseToken s))) (rule_segments raw) in
  ok (parse_rules raw) = bool_decide (bad = []) ∧
  invalidTokens (parse_rules raw) = bad ∧
  (bad ≠ [] → ranges (parse_rules raw) = [] ∧ normalized (parse_rules raw) = raw) ∧
  ∀ n, covered (ranges (parse_rules raw)) n → 100 ≤ n ≤ 599.
Proof.
  intros Hne bad.
  assert (∀ n, covered (ranges (parse_rules raw)) n → 100 ≤ n ≤ 599) as Hb.
  { destruct (ok (parse_rules raw)) eqn:Hok.
    - destruct (parse_rules_ok raw Hok) as (rs & Hv & ->). cbn [ranges].
      apply merged_valid in Hv. intros n (r & Hr & Hn). rewrite Forall_forall in Hv.
      destruct (Hv r Hr) as (?&?&?). unfold covers in Hn. lia.
    - unfold parse_rules in *. destruct raw as [|c raw]; [done|].
      rewrite parse_segments_spec in *. destruct (filterb _ _); [done|].
      intros n (r & Hr & _). set_solver. }
  assert (parse_rules raw = match bad with
    | _ :: _ => Parsed false [] [] raw bad
    | [] => parse_rules raw end) as Heq.
  { subst bad. unfold parse_rules. destruct raw; [done|].
    rewrite parse_segments_spec. by destruct (filterb _ _). }
  destruct bad as [|b bad'] eqn:Eb.
  - split; [|split; [|done]].
    + unfold parse_rules. destruct raw; [done|]. rewrite parse_segments_spec. fold bad.
      by rewrite Eb.
    + unfold parse_rules. destruct raw; [done|]. rewrite parse_segments_spec. fold bad.
      by rewrite Eb.
  - rewrite Heq in *. done.
Qed.

Lemma parse_rules_errors_witness :
  ok (parse_rules (js "404,700,4x4")) = false ∧
  invalidTokens (parse_rules (js "404,700,4x4")) = [js "700"; js "4x4"].
Proof.
  destruct (parse_rules_errors (js "404,700,4x4")) as (H1 & H2 & _); [done|].
  split; [rewrite H1|rewrite H2]; vm_compute; reflexivity.
Defined.
