(* ===== verification/BillingRules.v ===== *)
(** * Request rules of billing expressions

    Model of the request-rule half of
    src/web/default/src/features/pricing/lib/billing-expr.ts: the rules
    that multiply a price when conditions on the request hold, how the editor
    writes them into an expression, how an expression is split and parsed
    back.

    Conditions have all their members (the type [Partial] of the source is
    for values that come from forms); a mode is a text, as in the source. *)
From S2P Require Import Prelude JsString JsNumber Regex JsValue JsonFacts.

Open Scope N_scope.

(** ** Data *)

Definition MATCH_EQ : jsstr := js "eq".
Definition MATCH_CONTAINS : jsstr := js "contains".
Definition MATCH_GT : jsstr := js "gt".
Definition MATCH_GTE : jsstr := js "gte".
Definition MATCH_LT : jsstr := js "lt".
Definition MATCH_LTE : jsstr := js "lte".
Definition MATCH_EXISTS : jsstr := js "exists".
Definition MATCH_RANGE : jsstr := js "range".

Inductive TimeFunc := Hour | Minute | Weekday | Month | Day.
Definition TIME_FUNCS : list TimeFunc := [Hour; Minute; Weekday; Month; Day].
Definition func_text (f : TimeFunc) : jsstr :=
  match f with
  | Hour => js "hour" | Minute => js "minute" | Weekday => js "weekday"
  | Month => js "month" | Day => js "day"
  end.

Inductive PathSource := Param | Header.

Inductive RequestCondition :=
  | TimeCondition (timeFunc : TimeFunc) (timezone mode value rangeStart rangeEnd : jsstr)
  | ParamHeaderCondition (source : PathSource) (path mode value : jsstr).

Record RequestRuleGroup := RuleGroup { conditions : list RequestCondition; multiplier : jsstr }.

#[export] Instance func_eq_dec : EqDecision TimeFunc.
Proof. solve_decision. Defined.
#[export] Instance source_eq_dec : EqDecision PathSource.
Proof. solve_decision. Defined.
#[export] Instance condition_eq_dec : EqDecision RequestCondition.
Proof. solve_decision. Defined.
#[export] Instance group_eq_dec : EqDecision RequestRuleGroup.
Proof. solve_decision. Defined.

Definition createEmptyCondition : RequestCondition := ParamHeaderCondition Param [] MATCH_EQ [].
Definition createEmptyTimeCondition : RequestCondition :=
  TimeCondition Hour (js "Asia/Shanghai") MATCH_GTE [] [] [].
Definition createEmptyRuleGroup : RequestRuleGroup := RuleGroup [createEmptyCondition] [].
Definition createEmptyTimeRuleGroup : RequestRuleGroup := RuleGroup [createEmptyTimeCondition] [].

(** ** Patterns *)

Definition num_char (c : N) : bool := is_digit c || bool_decide (c ∈ [46; 101; 69; 43; 45]).
Definition not_quote (c : N) : bool := negb (c =? 34).
(** [.] without the [s] flag. *)
Definition not_line_end (c : N) : bool := negb (bool_decide (c ∈ [10; 13; 8232; 8233])).
Definition any_char (_ : N) : bool := true.

Definition digits : re := RPlus (RChr is_digit).
Definition NUMERIC_LITERAL_REGEX : re :=
  rseq [ROpt (RLit (js "-"));
        RAlt (rseq [digits; ROpt (RLit (js ".")); RStar (RChr is_digit)])
             (RSeq (RLit (js ".")) digits);
        ROpt (rseq [RChr (λ c, bool_decide (c ∈ [101; 69]));
                    ROpt (RChr (λ c, bool_decide (c ∈ [43; 45]))); digits]);
        REnd].

Definition is_numeric (s : jsstr) : bool := rx_test NUMERIC_LITERAL_REGEX s.

(** [(hour|minute|weekday|month|day)] and the class of numbers as groups. *)
Definition func_group (n : nat) : re :=
  RGrp n (ralt (RLit (js "hour")) [RLit (js "minute"); RLit (js "weekday"); RLit (js "month");
                                   RLit (js "day")]).
Definition num_group (n : nat) : re := RGrp n (RPlus (RChr num_char)).
Definition name_group (n : nat) : re := RGrp n (RPlus (RChr not_quote)).

Definition time_range_body (rest : list re) : list re :=
  [func_group 1; RLit (jsq "('"); name_group 2; RLit (jsq "') >= "); num_group 3;
   RLit (js " || "); RBack 1; RLit (jsq "('"); RBack 2; RLit (jsq "') < "); num_group 4] ++ rest.
Definition time_range_re : re := rseq (time_range_body [REnd]).
Definition time_range_paren_re : re :=
  RSeq (RLit (js "(")) (rseq (time_range_body [RLit (js ")"); REnd])).
Definition time_compare_re : re :=
  rseq [func_group 1; RLit (jsq "('"); name_group 2; RLit (jsq "') ");
        RGrp 3 (ralt (RLit (js "==")) [RLit (js ">="); RLit (js "<")]); RLit (js " ");
        num_group 4; REnd].

Definition header_exists_re : re :=
  rseq [RLit (jsq "header('"); name_group 1; RLit (jsq "') != ''"); REnd].
Definition param_exists_re : re :=
  rseq [RLit (jsq "param('"); name_group 1; RLit (jsq "') != nil"); REnd].
(** A string literal: characters other than quote and backslash, or a
    backslash and any character. *)
Definition string_literal : re :=
  rseq [RLit [34];
        RStar (RAlt (RChr (λ c, negb (bool_decide (c ∈ [34; 92]))))
                    (RSeq (RLit [92]) (RChr not_line_end)));
        RLit [34]].
Definition header_contains_re : re :=
  rseq [RLit (jsq "has(header('"); name_group 1; RLit (jsq "'), "); RGrp 2 string_literal;
        RLit (js ")"); REnd].
Definition param_contains_re : re :=
  rseq [RLit (jsq "param('"); name_group 1; RLit (jsq "') != nil && has(param('"); name_group 2;
        RLit (jsq "'), "); RGrp 3 string_literal; RLit (js ")"); REnd].
Definition param_compare_re : re :=
  rseq [RLit (jsq "param('"); name_group 1; RLit (jsq "') != nil && param('"); name_group 2;
        RLit (jsq "') "); RGrp 3 (ralt (RLit (js ">")) [RLit (js ">="); RLit (js "<"); RLit (js "<=")]);
        RLit (js " "); num_group 4; REnd].
Definition equals_re : re :=
  rseq [RGrp 1 (RAlt (RLit (js "param")) (RLit (js "header"))); RLit (jsq "('"); name_group 2;
        RLit (jsq "') == "); RGrp 3 (RPlus (RChr not_line_end)); REnd].
(** The factor of a rule, with the [s] flag. *)
Definition factor_re : re :=
  rseq [RLit (js "("); RGrp 1 (RPlus (RChr any_char)); RLit (js " ? "); num_group 2;
        RLit (js " : 1)"); REnd].

(** [m[n]]. *)
Definition grp (n : nat) (g : caps) : jsstr := from_opt [] (cap n g).

(** ** Splitting at the top level *)

Definition depth_after (d : Z) (c : N) : Z :=
  if c =? 40 then (d + 1)%Z else if c =? 41 then (d - 1)%Z else d.

(** The loop of [splitTopLevelMultiply] and [splitTopLevelAnd]: [s] is the
    rest of the text, [skip] the characters of a separator still to pass,
    [current] the part since [start]. *)
Fixpoint split_loop (sep s : jsstr) (skip : nat) (current : jsstr) (depth : Z) : list jsstr :=
  match s with
  | [] => [trim current]
  | c :: s' =>
      match skip with
      | S skip => split_loop sep s' skip current depth
      | O =>
          let depth := depth_after depth c in
          if (depth =? 0)%Z && starts_with sep s
          then trim current :: split_loop sep s' (pred (length sep)) [] depth
          else split_loop sep s' O (current ++ [c]) depth
      end
  end.

Definition splitTopLevelMultiply (expr : jsstr) : list jsstr :=
  filterb truthy (split_loop (js " * ") expr O [] 0).
Definition splitTopLevelAnd (expr : jsstr) : list jsstr :=
  filterb truthy (split_loop (js " && ") expr O [] 0).

(** ** Parsing *)

(** The literal after [==]: [Ok None] where the source returns [null], the
    text of the value otherwise ([String(parsedValue)]). *)
Definition parseExprLiteral (raw : jsstr) : exc (option jsstr) :=
  let text := trim raw in
  if str_eqb text (js "true") || str_eqb text (js "false") then Ok (Some text)
  else if is_numeric text then Ok (Some text)
  else
    match json_parse text with
    | None | Some VNull => Ok None
    | Some v => match to_string v with Some s => Ok (Some s) | None => Throw end
    end.

Definition func_of (s : jsstr) : TimeFunc :=
  from_opt Hour (find_first (λ f, str_eqb (func_text f) s) TIME_FUNCS).

Definition range_condition (g : caps) : RequestCondition :=
  TimeCondition (func_of (grp 1 g)) (grp 2 g) MATCH_RANGE [] (grp 3 g) (grp 4 g).

Definition time_mode (op : jsstr) : jsstr :=
  if str_eqb op (js "==") then MATCH_EQ
  else if str_eqb op (js ">=") then MATCH_GTE
  else if str_eqb op (js "<") then MATCH_LT else MATCH_EQ.

Definition tryParseTimeCondition (expr : jsstr) : option RequestCondition :=
  match rx_match time_range_re expr with
  | Some g => Some (range_condition g)
  | None =>
      match rx_match time_range_paren_re expr with
      | Some g => Some (range_condition g)
      | None =>
          match rx_match time_compare_re expr with
          | Some g =>
              Some (TimeCondition (func_of (grp 1 g)) (grp 2 g) (time_mode (grp 3 g)) (grp 4 g) [] [])
          | None => None
          end
      end
  end.

(** [JSON.parse] of a text that is a quoted string. *)
Definition parse_string (s : jsstr) : exc jsstr :=
  match json_parse s with Some (VStr t) => Ok t | _ => Throw end.

Definition compare_mode (op : jsstr) : jsstr :=
  if str_eqb op (js ">") then MATCH_GT
  else if str_eqb op (js ">=") then MATCH_GTE
  else if str_eqb op (js "<") then MATCH_LT else MATCH_LTE.

Definition parse_equals (expr : jsstr) : exc (option RequestCondition) :=
  match rx_match equals_re expr with
  | Some g =>
      v ← parseExprLiteral (grp 3 g);
      Ok (option_map (ParamHeaderCondition (if str_eqb (grp 1 g) (js "header") then Header else Param)
                        (grp 2 g) MATCH_EQ) v)
  | None => Ok None
  end.

Definition parse_param_compare (expr : jsstr) : exc (option RequestCondition) :=
  match rx_match param_compare_re expr with
  | Some g =>
      if str_eqb (grp 1 g) (grp 2 g)
      then Ok (Some (ParamHeaderCondition Param (grp 1 g) (compare_mode (grp 3 g)) (grp 4 g)))
      else parse_equals expr
  | None => parse_equals expr
  end.

Definition parse_param_contains (expr : jsstr) : exc (option RequestCondition) :=
  match rx_match param_contains_re expr with
  | Some g =>
      if str_eqb (grp 1 g) (grp 2 g)
      then t ← parse_string (grp 3 g);
           Ok (Some (ParamHeaderCondition Param (grp 1 g) MATCH_CONTAINS t))
      else parse_param_compare expr
  | None => parse_param_compare expr
  end.

Definition tryParseRequestCondition (expr : jsstr) : exc (option RequestCondition) :=
  match tryParseTimeCondition expr with
  | Some c => Ok (Some c)
  | None =>
      match rx_match header_exists_re expr with
      | Some g => Ok (Some (ParamHeaderCondition Header (grp 1 g) MATCH_EXISTS []))
      | None =>
          match rx_match param_exists_re expr with
          | Some g => Ok (Some (ParamHeaderCondition Param (grp 1 g) MATCH_EXISTS []))
          | None =>
              match rx_match header_contains_re expr with
              | Some g =>
                  t ← parse_string (grp 2 g);
                  Ok (Some (ParamHeaderCondition Header (grp 1 g) MATCH_CONTAINS t))
              | None => parse_param_contains expr
              end
          end
      end
  end.

(** All conditions, or [None] if one is not recognised. *)
Fixpoint parse_all (parts : list jsstr) : exc (option (list RequestCondition)) :=
  match parts with
  | [] => Ok (Some [])
  | part :: parts =>
      c ← tryParseRequestCondition (trim part);
      match c with
      | None => Ok None
      | Some c => r ← parse_all parts; Ok (option_map (cons c) r)
      end
  end.

Definition tryParseRuleGroupFactor (part : jsstr) : exc (option RequestRuleGroup) :=
  match rx_match factor_re part with
  | None => Ok None
  | Some g =>
      cs ← parse_all (splitTopLevelAnd (grp 1 g));
      Ok (match cs with
          | Some (c :: cs) => Some (RuleGroup (c :: cs) (grp 2 g))
          | _ => None
          end)
  end.

Fixpoint parse_factors (parts : list jsstr) : exc (option (list RequestRuleGroup)) :=
  match parts with
  | [] => Ok (Some [])
  | part :: parts =>
      g ← tryParseRuleGroupFactor part;
      match g with
      | None => Ok None
      | Some g => r ← parse_factors parts; Ok (option_map (cons g) r)
      end
  end.

Definition tryParseRequestRuleExpr (expr : jsstr) : exc (option (list RequestRuleGroup)) :=
  let trimmed := trim expr in
  if negb (truthy trimmed) then Ok (Some []) else parse_factors (splitTopLevelMultiply trimmed).

(** ** Combining and splitting *)

Fixpoint outer_loop (s : jsstr) (depth : Z) : bool :=
  match s with
  | [] => (depth =? 0)%Z
  | c :: s =>
      let depth := depth_after depth c in
      if (depth =? 0)%Z && negb (bool_decide (s = [])) then false else outer_loop s depth
  end.

Definition hasFullOuterParens (expr : jsstr) : bool :=
  starts_with (js "(") expr && ends_with (js ")") expr && outer_loop expr 0.

(** The [while] loop of [unwrapOuterParens]; every round removes two
    characters. *)
Fixpoint unwrap_loop (fuel : nat) (current : jsstr) : exc jsstr :=
  match fuel with
  | O => Fuel
  | S fuel =>
      if hasFullOuterParens current
      then unwrap_loop fuel (trim (slice 1 (length current - 1) current))
      else Ok current
  end.

Definition unwrapOuterParens (expr : jsstr) : exc jsstr :=
  unwrap_loop (S (length expr)) (trim expr).

Definition is_rule (part : jsstr) : exc bool :=
  r ← tryParseRequestRuleExpr part;
  Ok (match r with Some (_ :: _) => true | _ => false end).

(** The rule parts and the other parts, in order. *)
Fixpoint partition_parts (parts : list jsstr) : exc (list jsstr * list jsstr) :=
  match parts with
  | [] => Ok ([], [])
  | part :: parts =>
      b ← is_rule part;
      r ← partition_parts parts;
      let '(rules, base) := r in
      Ok (if b : bool then (part :: rules, base) else (rules, part :: base))
  end.

Definition splitBillingExprAndRequestRules (expr : jsstr) : exc (jsstr * jsstr) :=
  let trimmed := trim expr in
  if negb (truthy trimmed) then Ok ([], [])
  else
    let parts := splitTopLevelMultiply trimmed in
    if (length parts <=? 1)%nat then Ok (trimmed, [])
    else
      r ← partition_parts parts;
      match r with
      | (rule :: rules, [base]) =>
          b ← unwrapOuterParens base; Ok (b, join (js " * ") (rule :: rules))
      | _ => Ok (trimmed, [])
      end.

Definition combineBillingExpr (baseExpr requestRuleExpr : jsstr) : jsstr :=
  let base := trim baseExpr in
  let rules := trim requestRuleExpr in
  if negb (truthy base) then []
  else if negb (truthy rules) then base
  else js "(" ++ base ++ js ") * " ++ rules.

(** ** Writing *)

Definition getRequestRuleMatchOptions (time : bool) (source : PathSource) : list jsstr :=
  if time then [MATCH_EQ; MATCH_GTE; MATCH_LT; MATCH_RANGE]
  else
    let base := [MATCH_EQ; MATCH_CONTAINS; MATCH_EXISTS] in
    match source with
    | Header => base
    | Param => base ++ [MATCH_GT; MATCH_GTE; MATCH_LT; MATCH_LTE]
    end.

(** For a condition that has all its members, as those of a group have; the
    function of time is one of [TIME_FUNCS] by its type. *)
Definition normalizeCondition (cond : RequestCondition) : RequestCondition :=
  match cond with
  | TimeCondition f tz mode v rs re =>
      TimeCondition f (str_or tz (js "Asia/Shanghai"))
        (if includes mode (getRequestRuleMatchOptions true Param) then mode else MATCH_GTE) v rs re
  | ParamHeaderCondition s path mode v =>
      ParamHeaderCondition s path
        (if includes mode (getRequestRuleMatchOptions false s) then mode else MATCH_EQ) v
  end.

Definition buildExprLiteral (mode value : jsstr) : jsstr :=
  let text := trim value in
  if str_eqb mode MATCH_CONTAINS then quote text
  else if str_eqb text (js "true") || str_eqb text (js "false") then text
  else if is_numeric text then text
  else quote text.

Definition time_op (mode : jsstr) : jsstr :=
  if str_eqb mode MATCH_EQ then js "=="
  else if str_eqb mode MATCH_GTE then js ">="
  else if str_eqb mode MATCH_LT then js "<" else js "==".

Definition buildTimeConditionExpr (f : TimeFunc) (timezone mode value rangeStart rangeEnd : jsstr)
    : jsstr :=
  let fn := func_text f ++ js "(" ++ quote timezone ++ js ")" in
  if str_eqb mode MATCH_RANGE then
    let s := trim rangeStart in
    let e := trim rangeEnd in
    if negb (is_numeric s) || negb (is_numeric e) then []
    else fn ++ js " >= " ++ s ++ js " || " ++ fn ++ js " < " ++ e
  else
    let v := trim value in
    if negb (is_numeric v) then [] else fn ++ js " " ++ time_op mode ++ js " " ++ v.

Definition compare_op (mode : jsstr) : jsstr :=
  if str_eqb mode MATCH_GT then js ">"
  else if str_eqb mode MATCH_GTE then js ">="
  else if str_eqb mode MATCH_LT then js "<" else js "<=".

Definition source_expr (s : PathSource) (path : jsstr) : jsstr :=
  (match s with Header => js "header(" | Param => js "param(" end) ++ quote path ++ js ")".

Definition build_path_condition (s : PathSource) (path mode value : jsstr) : jsstr :=
  let e := source_expr s path in
  if str_eqb mode MATCH_EXISTS then
    e ++ (match s with Header => jsq " != ''" | Param => js " != nil" end)
  else if str_eqb mode MATCH_CONTAINS then
    let h := js "has(" ++ e ++ js ", " ++ buildExprLiteral mode value ++ js ")" in
    match s with Header => h | Param => e ++ js " != nil && " ++ h end
  else if includes mode [MATCH_GT; MATCH_GTE; MATCH_LT; MATCH_LTE] then
    let num := trim value in
    if negb (is_numeric num) then []
    else e ++ js " != nil && " ++ e ++ js " " ++ compare_op mode ++ js " " ++ num
  else e ++ js " == " ++ buildExprLiteral mode value.

Definition buildRequestConditionExpr (cond : RequestCondition) : jsstr :=
  match normalizeCondition cond with
  | TimeCondition f tz mode v rs re => buildTimeConditionExpr f tz mode v rs re
  | ParamHeaderCondition s path mode v =>
      if negb (truthy (trim path)) then [] else build_path_condition s (trim path) mode v
  end.

Definition wrap_or (e : jsstr) : jsstr :=
  if str_includes (js " || ") e then js "(" ++ e ++ js ")" else e.

Definition buildRuleGroupFactor (group : RequestRuleGroup) : jsstr :=
  let m := trim (multiplier group) in
  if negb (is_numeric m) then []
  else
    match filterb truthy (map buildRequestConditionExpr (conditions group)) with
    | [] => []
    | [e] => js "(" ++ e ++ js " ? " ++ m ++ js " : 1)"
    | es => js "(" ++ join (js " && ") (map wrap_or es) ++ js " ? " ++ m ++ js " : 1)"
    end.

Definition buildRequestRuleExpr (groups : list RequestRuleGroup) : jsstr :=
  join (js " * ") (filterb truthy (map buildRuleGroupFactor groups)).

(** ** Examples *)

Definition sample_rule : RequestRuleGroup :=
  RuleGroup [ParamHeaderCondition Header (js "X-Tier") MATCH_EQ (js "gold");
             TimeCondition Hour (js "UTC") MATCH_RANGE [] (js "22") (js "6");
             ParamHeaderCondition Header (js "A") MATCH_CONTAINS (js "b c");
             ParamHeaderCondition Param (js "stream") MATCH_EQ (js "true")] (js "1.5").

Example sample_rule_text :
  buildRequestRuleExpr [sample_rule; sample_rule]
  = let f := jsq "(header('X-Tier') == 'gold' && (hour('UTC') >= 22 || hour('UTC') < 6) && has(header('A'), 'b c') && param('stream') == true ? 1.5 : 1)" in
    f ++ js " * " ++ f.
Proof. vm_compute. reflexivity. Qed.

Example sample_rule_back :
  tryParseRequestRuleExpr (buildRequestRuleExpr [sample_rule; sample_rule])
  = Ok (Some [sample_rule; sample_rule]).
Proof. vm_compute. reflexivity. Qed.

Example lost_rule :
  tryParseRequestRuleExpr (buildRequestRuleExpr
    [RuleGroup [ParamHeaderCondition Param (js "n") MATCH_GT (js "5")] (js "2")]) = Ok None.
Proof. vm_compute. reflexivity. Qed.

(** ** Texts that are written as they are *)

Definition plain_char (c : N) : bool :=
  negb (bool_decide (c ∈ [34; 92; 40; 41; 38; 124; 8232; 8233])) && (32 <=? c)
  && ((c <? 55296) || ((57344 <=? c) && (c <? 65536))).
Abbreviation plain := (Forall (λ c, plain_char c = true)).

Lemma plain_facts c :
  plain_char c = true →
  c ≠ 34 ∧ c ≠ 92 ∧ c ≠ 40 ∧ c ≠ 41 ∧ c ≠ 38 ∧ c ≠ 124 ∧ c ≠ 8232 ∧ c ≠ 8233 ∧ 32 ≤ c ∧ c < 65536 ∧
  is_high c = false ∧ is_low c = false.
Proof.
  unfold plain_char, is_high, is_low. intros H. bool_to_prop.
  rename select (c ∉ _) into Hn. rename select (32 ≤ c) into H32.
  assert (c < 55296 ∨ 57344 ≤ c < 65536) as Hr.
  { rename select (_ || _ = true) into Ho. apply orb_true_iff in Ho as [Ho|Ho]; bool_to_prop; auto. }
  rewrite !not_elem_of_cons in Hn. destruct Hn as (?&?&?&?&?&?&?&?&_).
  split_and!; try done; try lia.
  - destruct (55296 <=? c) eqn:E1; [|done]. bool_to_prop. apply N.leb_gt. lia.
  - destruct (56320 <=? c) eqn:E1; [|done]. bool_to_prop. apply N.leb_gt. lia.
Qed.

Lemma escape_plain c : plain_char c = true → escape c = [c].
Proof.
  intros Hc. destruct (plain_facts c Hc) as (?&?&?&?&?&?&?&?&?&?&Hh&Hl). unfold escape.
  rewrite Hh, Hl. repeat (rewrite (proj2 (N.eqb_neq _ _)) by lia).
  by rewrite (proj2 (N.ltb_ge _ _)) by lia.
Qed.

Lemma quote_body_plain x : plain x → quote_body x = x.
Proof.
  induction 1 as [|c x Hc Hx IH]; [done|]. cbn [quote_body].
  destruct (plain_facts c Hc) as (?&?&?&?&?&?&?&?&?&?&Hh&Hl).
  rewrite (escape_plain c Hc). destruct x as [|d x]; [done|]. rewrite Hh. cbn [andb].
  by rewrite IH.
Qed.

Lemma quote_plain x : plain x → quote x = [34] ++ x ++ [34].
Proof. intros Hx. unfold quote. by rewrite quote_body_plain. Qed.

Lemma plain_not_quote x : plain x → Forall (λ c, not_quote c = true) x.
Proof.
  intros H. eapply Forall_impl; [exact H|]. intros c Hc. apply plain_facts in Hc.
  unfold not_quote. apply negb_true_iff, N.eqb_neq. tauto.
Qed.

Lemma plain_not_line_end x : plain x → Forall (λ c, not_line_end c = true) x.
Proof.
  intros H. eapply Forall_impl; [exact H|]. intros c Hc.
  destruct (plain_facts c Hc) as (?&?&?&?&?&?&?&?&?&_). unfold not_line_end.
  apply negb_true_iff, bool_decide_eq_false. rewrite !not_elem_of_cons.
  split_and!; try lia. apply not_elem_of_nil.
Qed.

(** *** Numbers *)

(** The pattern of numbers without its end. *)
Definition numeric_body : re :=
  rseq [ROpt (RLit (js "-"));
        RAlt (rseq [digits; ROpt (RLit (js ".")); RStar (RChr is_digit)])
             (RSeq (RLit (js ".")) digits);
        ROpt (rseq [RChr (λ c, bool_decide (c ∈ [101; 69]));
                    ROpt (RChr (λ c, bool_decide (c ∈ [43; 45]))); digits])].

Lemma num_char_digit c : is_digit c = true → num_char c = true.
Proof. unfold num_char. by intros ->. Qed.

Lemma num_char_in c l :
  Forall (λ c, num_char c = true) l → bool_decide (c ∈ l) = true → num_char c = true.
Proof. intros Hl Hc. apply bool_decide_eq_true in Hc. rewrite Forall_forall in Hl. by apply Hl. Qed.

Lemma numeric_body_chars : re_all (λ c, num_char c = true) numeric_body.
Proof.
  unfold numeric_body, digits, RPlus, ROpt. cbn [rseq re_all].
  split_and!; auto using num_char_digit; try (by repeat constructor);
    intros c; apply num_char_in; by repeat constructor.
Qed.

Lemma numeric_chars s : is_numeric s = true → s ≠ [] ∧ Forall (λ c, num_char c = true) s.
Proof.
  intros H. split; [by intros ->|]. unfold is_numeric, rx_test in H.
  destruct (rx_match NUMERIC_LITERAL_REGEX s) as [g|] eqn:E; [|done].
  change (run numeric_body None s [] (λ p s g, run REnd p s g (λ _ _ g, Some g)) = Some g) in E.
  eapply run_consumes in E as (x & s' & p & g' & -> & Hx & E); [|apply numeric_body_chars].
  destruct s'; [|done]. by rewrite app_nil_r.
Qed.

Lemma num_char_facts c :
  num_char c = true → is_ws c = false ∧ c ≠ 34 ∧ c ≠ 40 ∧ c ≠ 41 ∧ c ≠ 38 ∧ c ≠ 32 ∧ c ≠ 63 ∧ c ≠ 124.
Proof.
  unfold num_char, is_digit. intros H. apply orb_true_iff in H as [H|H].
  - bool_to_prop. assert (c = 48 ∨ c = 49 ∨ c = 50 ∨ c = 51 ∨ c = 52 ∨ c = 53 ∨ c = 54 ∨ c = 55
      ∨ c = 56 ∨ c = 57) as Hc by lia.
    destruct Hc as [-> |[-> |[-> |[-> |[-> |[-> |[-> |[-> |[-> | ->]]]]]]]]]; split_and!; done.
  - apply bool_decide_eq_true in H.
    repeat (apply elem_of_cons in H as [->|H]; [split_and!; done|]). by apply elem_of_nil in H.
Qed.

Lemma numeric_trim s : is_numeric s = true → trim s = s.
Proof.
  intros [_ H]%numeric_chars. apply trim_id, no_ws_trimmed. eapply Forall_impl; [exact H|].
  intros c Hc. apply num_char_facts in Hc. tauto.
Qed.

(** ** Texts of single conditions *)

Lemma lit_name l1 n l2 r (p : option N) path s g (k : cont caps) :
  path ≠ [] → plain path → truthy l2 && outside not_quote l2 = true → outside not_quote s = true →
  run (RSeq (RLit l1) (RSeq (name_group n) (RSeq (RLit l2) r))) p (l1 ++ path ++ s) g k
  = run (RSeq (RLit l2) r) (lastc (lastc p l1) path) s ((n, path) :: g) k.
Proof.
  intros Hne Hp Hl Hs. rewrite run_seq, run_lit_app. apply grp_lit; auto using plain_not_quote.
Qed.

(** One goal for each element of the list in [H]. *)
Ltac each_op H := repeat (apply elem_of_cons in H as [-> |H]); [..|by apply elem_of_nil in H].

(** Literals at a text of which the start is known. *)
Ltac lits :=
  repeat first [rewrite run_lit_app | rewrite run_lit_fail by reflexivity].

Lemma func_alt f (p : option N) s g (k : cont caps) :
  run (ralt (RLit (js "hour")) [RLit (js "minute"); RLit (js "weekday"); RLit (js "month");
                                RLit (js "day")]) p (func_text f ++ s) g k
  = k (lastc p (func_text f)) s g.
Proof.
  destruct f; cbn [ralt func_text]; rewrite !run_alt; lits; by destruct (k _ s g).
Qed.

Lemma func_ok n f (p : option N) s g (k : cont caps) :
  run (func_group n) p (func_text f ++ s) g k = k (lastc p (func_text f)) s ((n, func_text f) :: g).
Proof.
  unfold func_group. by rewrite run_grp, func_alt, length_app, Nat.add_sub, take_app_length.
Qed.

Lemma string_ok n v r (p : option N) s g (k : cont caps) :
  plain v →
  run (RSeq (RGrp n string_literal) r) p ([34] ++ v ++ [34] ++ s) g k
  = run r (Some 34) s ((n, [34] ++ v ++ [34]) :: g) k.
Proof.
  intros Hv. rewrite run_seq, run_grp. unfold string_literal. cbn [rseq].
  rewrite run_seq, run_lit_app, run_seq, star_run.
  - rewrite run_lit_app. f_equal. f_equal. f_equal. rewrite !app_assoc, length_app, Nat.add_sub.
    apply take_app_length.
  - intros c p' s' k' Hc. rewrite Forall_forall in Hv. apply Hv, plain_facts in Hc.
    rewrite run_alt, run_chr_cons. rewrite bool_decide_false; [cbn [negb]|set_solver].
    destruct (k' _ _ _) eqn:E; [done|]. rewrite run_seq. apply run_lit_fail, starts_cons_ne. tauto.
  - done.
  - intros p' y [|c z] -> Hz; [done|]. apply Forall_app in Hv as [_ Hv].
    apply Forall_cons in Hv as [Hc _]. apply plain_facts in Hc. apply run_lit_fail, starts_cons_ne. tauto.
Qed.

Section Conditions.
Context (name : jsstr) (Hne : name ≠ []) (Hn : plain name).

(** Match of a pattern that starts with a literal and a quoted name. *)
Ltac named := unfold rx_match; cbn [rseq]; rewrite lit_name by done; rewrite run_seq; lits.

Lemma header_exists_ok :
  rx_match header_exists_re (jsq "header('" ++ name ++ jsq "') != ''") = Some [(1%nat, name)].
Proof. unfold header_exists_re. named. reflexivity. Qed.

Lemma param_exists_ok :
  rx_match param_exists_re (jsq "param('" ++ name ++ jsq "') != nil") = Some [(1%nat, name)].
Proof. unfold param_exists_re. named. reflexivity. Qed.

Lemma header_contains_ok v :
  plain v →
  rx_match header_contains_re (jsq "has(header('" ++ name ++ jsq "'), " ++ [34] ++ v ++ [34] ++ js ")")
  = Some [(2%nat, [34] ++ v ++ [34]); (1%nat, name)].
Proof. intros Hv. unfold header_contains_re. named. rewrite string_ok by done. reflexivity. Qed.

Lemma equals_header_fails v :
  rx_match header_exists_re (jsq "header('" ++ name ++ jsq "') == " ++ v) = None.
Proof. unfold header_exists_re. named. reflexivity. Qed.

Lemma equals_param_fails v :
  rx_match param_exists_re (jsq "param('" ++ name ++ jsq "') == " ++ v) = None ∧
  rx_match param_contains_re (jsq "param('" ++ name ++ jsq "') == " ++ v) = None ∧
  rx_match param_compare_re (jsq "param('" ++ name ++ jsq "') == " ++ v) = None.
Proof.
  unfold param_exists_re, param_contains_re, param_compare_re. split_and!; named; reflexivity.
Qed.

Lemma equals_ok src v :
  src = js "param" ∨ src = js "header" → v ≠ [] → Forall (λ c, not_line_end c = true) v →
  rx_match equals_re (src ++ jsq "('" ++ name ++ jsq "') == " ++ v)
  = Some [(3%nat, v); (2%nat, name); (1%nat, src)].
Proof.
  intros Hs Hv Hl. unfold rx_match, equals_re. cbn [rseq]. rewrite run_seq, run_grp, run_alt.
  destruct Hs as [-> | ->]; lits.
  - rewrite length_app, Nat.add_sub, take_app_length, lit_name by done.
    rewrite run_seq, run_lit_app, grp_end by done. reflexivity.
  - rewrite length_app, Nat.add_sub, take_app_length, lit_name by done.
    rewrite run_seq, run_lit_app, grp_end by done. reflexivity.
Qed.

End Conditions.

Section TimeConditions.
Context (f : TimeFunc) (tz : jsstr) (Hne : tz ≠ []) (Hn : plain tz).

Lemma num_lit n l r (p : option N) x s g (k : cont caps) :
  is_numeric x = true → truthy l && outside num_char l = true → outside num_char s = true →
  run (RSeq (num_group n) (RSeq (RLit l) r)) p (x ++ s) g k
  = run (RSeq (RLit l) r) (lastc p x) s ((n, x) :: g) k.
Proof. intros [Hx Hc]%numeric_chars. by apply grp_lit. Qed.

Lemma num_end n (p : option N) x g (k : cont caps) :
  is_numeric x = true →
  run (RSeq (num_group n) REnd) p x g k = k (lastc p x) [] ((n, x) :: g).
Proof. intros [Hx Hc]%numeric_chars. by apply grp_end. Qed.

Definition range_text (s e : jsstr) : jsstr :=
  func_text f ++ jsq "('" ++ tz ++ jsq "') >= " ++ s ++ js " || "
  ++ func_text f ++ jsq "('" ++ tz ++ jsq "') < " ++ e.

Definition range_caps (s : jsstr) : caps := [(3%nat, s); (2%nat, tz); (1%nat, func_text f)].

Lemma range_prefix a l (p : option N) s e (k : cont caps) :
  is_numeric s = true →
  ∃ p', run (rseq (time_range_body (a :: l))) p (range_text s e) [] k
        = run (RSeq (num_group 4) (rseq (a :: l))) p' e (range_caps s) k.
Proof.
  intros Hs. unfold time_range_body, range_text. cbn [rseq app]. eexists.
  rewrite run_seq, func_ok, lit_name by done. rewrite run_seq, run_lit_app, num_lit by done.
  rewrite run_seq, run_lit_app, run_seq, (run_back 1 (func_text f)) by reflexivity.
  rewrite run_seq, run_lit_app, run_seq, (run_back 2 tz) by reflexivity.
  rewrite run_seq, run_lit_app. reflexivity.
Qed.

Lemma time_range_ok s e :
  is_numeric s = true → is_numeric e = true →
  rx_match time_range_re (range_text s e) = Some ((4%nat, e) :: range_caps s).
Proof.
  intros Hs He. unfold rx_match, time_range_re. edestruct range_prefix as [p' ->]; [done|].
  cbn [rseq]. by rewrite num_end.
Qed.

Lemma time_range_paren_ok s e :
  is_numeric s = true → is_numeric e = true →
  rx_match time_range_paren_re (js "(" ++ range_text s (e ++ js ")")) = Some ((4%nat, e) :: range_caps s).
Proof.
  intros Hs He. unfold rx_match, time_range_paren_re. rewrite run_seq, run_lit_app.
  edestruct range_prefix as [p' ->]; [done|]. cbn [rseq]. rewrite num_lit by done. reflexivity.
Qed.

Lemma func_of_text : func_of (func_text f) = f.
Proof. destruct f; reflexivity. Qed.

Lemma range_caps_condition s e :
  Some (range_condition ((4%nat, e) :: range_caps s)) = Some (TimeCondition f tz MATCH_RANGE [] s e).
Proof.
  unfold range_condition. change (grp 1 _) with (func_text f). by rewrite func_of_text.
Qed.

Lemma range_parses s e :
  is_numeric s = true → is_numeric e = true →
  tryParseTimeCondition (range_text s e) = Some (TimeCondition f tz MATCH_RANGE [] s e).
Proof.
  intros Hs He. unfold tryParseTimeCondition. rewrite time_range_ok by done.
  apply range_caps_condition.
Qed.

Lemma range_paren_parses s e :
  is_numeric s = true → is_numeric e = true →
  tryParseTimeCondition (js "(" ++ range_text s e ++ js ")")
  = Some (TimeCondition f tz MATCH_RANGE [] s e).
Proof.
  intros Hs He. unfold tryParseTimeCondition.
  replace (range_text s e ++ js ")") with (range_text s (e ++ js ")"))
    by (unfold range_text; by rewrite <- !app_assoc).
  replace (rx_match time_range_re _) with (@None caps) by reflexivity.
  rewrite time_range_paren_ok by done. apply range_caps_condition.
Qed.

Definition compare_text (op v : jsstr) : jsstr :=
  func_text f ++ jsq "('" ++ tz ++ jsq "') " ++ op ++ js " " ++ v.

Lemma compare_not_range op v :
  op ∈ [js "=="; js ">="; js "<"] → is_numeric v = true →
  rx_match time_range_re (compare_text op v) = None.
Proof.
  intros Ho Hv. unfold rx_match, time_range_re, time_range_body, compare_text. cbn [rseq app].
  rewrite run_seq, func_ok, lit_name by done. rewrite run_seq. each_op Ho; [reflexivity| |reflexivity].
  change (jsq "') " ++ js ">=" ++ js " " ++ v) with (jsq "') >= " ++ v).
  rewrite run_lit_app. rewrite <- (app_nil_r v). by rewrite num_lit.
Qed.

Lemma compare_match op v :
  op ∈ [js "=="; js ">="; js "<"] → is_numeric v = true →
  rx_match time_compare_re (compare_text op v)
  = Some [(4%nat, v); (3%nat, op); (2%nat, tz); (1%nat, func_text f)].
Proof.
  intros Ho Hv. unfold rx_match, time_compare_re, compare_text. cbn [rseq ralt].
  rewrite run_seq, func_ok, lit_name by done. rewrite run_seq, run_lit_app, run_seq, run_grp, !run_alt.
  each_op Ho; lits; rewrite length_app, Nat.add_sub, take_app_length, run_seq, run_lit_app, num_end
    by done; reflexivity.
Qed.

Lemma compare_parses mode v :
  mode ∈ [MATCH_EQ; MATCH_GTE; MATCH_LT] → is_numeric v = true →
  tryParseTimeCondition (compare_text (time_op mode) v) = Some (TimeCondition f tz mode v [] []).
Proof.
  intros Hm Hv. unfold tryParseTimeCondition.
  assert (∀ s, rx_match time_range_paren_re (func_text f ++ s) = None) as Hp
    by (intros s; generalize f; intros []; reflexivity).
  assert (time_op mode ∈ [js "=="; js ">="; js "<"]) as Ho.
  { each_op Hm; cbn; set_solver. }
  rewrite compare_not_range by done. unfold compare_text at 1. rewrite Hp, compare_match by done.
  change (grp 1 _) with (func_text f). rewrite func_of_text. by each_op Hm.
Qed.

End TimeConditions.

(** *** Values *)

Lemma quote_trim v : plain v → trim (quote v) = quote v.
Proof.
  intros Hv. rewrite quote_plain by done. apply trim_id. split; intros c s' E.
  - injection E as <- _. reflexivity.
  - rewrite app_assoc in E. by apply app_inj_tail in E as [_ <-].
Qed.

Lemma json_parse_quote v : plain v → json_parse (quote v) = Some (VStr v).
Proof.
  intros Hv. destruct (json_parse_stringify (VStr v)) as (s & [= <-] & Hs); [|done].
  eapply Forall_impl; [exact Hv|]. intros c Hc. apply plain_facts in Hc. tauto.
Qed.

Lemma quote_not_numeric v : is_numeric (quote v) = false.
Proof.
  destruct (is_numeric (quote v)) eqn:E; [|done]. apply numeric_chars in E as [_ E].
  unfold quote in E. by apply Forall_cons in E as [E _].
Qed.

Lemma literal_back v :
  plain v → trim v = v → parseExprLiteral (buildExprLiteral MATCH_EQ v) = Ok (Some v).
Proof.
  intros Hp Ht. unfold buildExprLiteral. rewrite Ht. cbn [str_eqb]. change (str_eqb MATCH_EQ _) with false.
  cbv iota. unfold parseExprLiteral.
  destruct (str_eqb v (js "true") || str_eqb v (js "false")) eqn:E1; [by rewrite Ht, E1|].
  destruct (is_numeric v) eqn:E2; [by rewrite Ht, E1, E2|].
  rewrite quote_trim by done. change (str_eqb (quote v) (js "true")) with false.
  change (str_eqb (quote v) (js "false")) with false. rewrite quote_not_numeric. cbn [orb].
  by rewrite json_parse_quote.
Qed.

Lemma literal_line v :
  plain v → trim v = v →
  buildExprLiteral MATCH_EQ v ≠ [] ∧ Forall (λ c, not_line_end c = true) (buildExprLiteral MATCH_EQ v).
Proof.
  intros Hp Ht. unfold buildExprLiteral. rewrite Ht. change (str_eqb MATCH_EQ _) with false. cbv iota.
  assert (v = [] → is_numeric v = false) as Hv by (by intros ->).
  destruct (str_eqb v (js "true") || str_eqb v (js "false")) eqn:E1.
  { split; [by intros ->|by apply plain_not_line_end]. }
  destruct (is_numeric v); [split; [intros ->; by specialize (Hv eq_refl)|by apply plain_not_line_end]|].
  rewrite quote_plain by done. split; [done|]. repeat apply Forall_app_2; try by repeat constructor.
  by apply plain_not_line_end.
Qed.

(** ** Conditions that can be read back *)

Inductive faithful : RequestCondition → Prop :=
  | faithful_range f tz s e :
      tz ≠ [] → plain tz → is_numeric s = true → is_numeric e = true →
      faithful (TimeCondition f tz MATCH_RANGE [] s e)
  | faithful_compare f tz mode v :
      tz ≠ [] → plain tz → mode ∈ [MATCH_EQ; MATCH_GTE; MATCH_LT] → is_numeric v = true →
      faithful (TimeCondition f tz mode v [] [])
  | faithful_exists src path :
      path ≠ [] → plain path → trim path = path →
      faithful (ParamHeaderCondition src path MATCH_EXISTS [])
  | faithful_equals src path v :
      path ≠ [] → plain path → trim path = path → plain v → trim v = v →
      faithful (ParamHeaderCondition src path MATCH_EQ v)
  | faithful_contains path v :
      path ≠ [] → plain path → trim path = path → plain v → trim v = v →
      faithful (ParamHeaderCondition Header path MATCH_CONTAINS v).

Definition src_text (s : PathSource) : jsstr :=
  match s with Header => js "header" | Param => js "param" end.

(** The text of a condition, with its quoted parts spelled out. *)
Definition condition_text (c : RequestCondition) : jsstr :=
  match c with
  | TimeCondition f tz mode v s e =>
      if str_eqb mode MATCH_RANGE then range_text f tz s e else compare_text f tz (time_op mode) v
  | ParamHeaderCondition src path mode v =>
      if str_eqb mode MATCH_EXISTS then
        src_text src ++ jsq "('" ++ path ++ (match src with Header => jsq "') != ''" | Param => jsq "') != nil" end)
      else if str_eqb mode MATCH_CONTAINS then
        jsq "has(header('" ++ path ++ jsq "'), " ++ [34] ++ v ++ [34] ++ js ")"
      else src_text src ++ jsq "('" ++ path ++ jsq "') == " ++ buildExprLiteral MATCH_EQ v
  end.

Lemma truthy_ne (s : jsstr) : s ≠ [] → truthy s = true.
Proof. by destruct s. Qed.

Lemma str_or_ne (s d : jsstr) : s ≠ [] → str_or s d = s.
Proof. by destruct s. Qed.

(** Both sides are the same characters after reassociation. *)
Ltac same_text := cbv iota; rewrite <- ?app_assoc; reflexivity.

Lemma build_text c : faithful c → buildRequestConditionExpr c = condition_text c.
Proof.
  intros [f tz s e Ht Hp Hs He|f tz mode v Ht Hp Hm Hv|src path Hne Hp Ht|src path v Hne Hp Ht Hv Hvt
    |path v Hne Hp Ht Hv Hvt]; unfold buildRequestConditionExpr; cbn [normalizeCondition].
  - rewrite str_or_ne by done. change (includes _ _) with true. cbv iota. unfold buildTimeConditionExpr.
    rewrite !numeric_trim, Hs, He, quote_plain by done. cbn [condition_text negb orb].
    change (str_eqb _ _) with true. unfold range_text. same_text.
  - rewrite str_or_ne by done. unfold buildTimeConditionExpr, condition_text.
    rewrite (numeric_trim v), Hv, quote_plain by done. cbn [negb].
    each_op Hm; change (includes _ _) with true; cbv iota; change (str_eqb _ MATCH_RANGE) with false;
      unfold compare_text; same_text.
  - rewrite Ht, (truthy_ne path) by done. cbn [negb condition_text].
    destruct src; unfold build_path_condition, source_expr; rewrite quote_plain by done;
      change (includes MATCH_EXISTS (getRequestRuleMatchOptions _ _)) with true; same_text.
  - rewrite Ht, (truthy_ne path) by done. cbn [negb condition_text].
    destruct src; unfold build_path_condition, source_expr; rewrite quote_plain by done;
      change (includes MATCH_EQ (getRequestRuleMatchOptions _ _)) with true; same_text.
  - rewrite Ht, (truthy_ne path) by done. cbn [negb condition_text].
    unfold build_path_condition, source_expr, buildExprLiteral. rewrite Hvt, !quote_plain by done.
    change (includes MATCH_CONTAINS (getRequestRuleMatchOptions _ _)) with true. cbv iota.
    change (str_eqb MATCH_CONTAINS MATCH_EXISTS) with false.
    change (str_eqb MATCH_CONTAINS MATCH_CONTAINS) with true. same_text.
Qed.

Lemma equals_parses src path v :
  path ≠ [] → plain path → plain v → trim v = v →
  tryParseRequestCondition (src_text src ++ jsq "('" ++ path ++ jsq "') == " ++ buildExprLiteral MATCH_EQ v)
  = Ok (Some (ParamHeaderCondition src path MATCH_EQ v)).
Proof.
  intros Hne Hp Hv Hvt. unfold tryParseRequestCondition. destruct (literal_line v Hv Hvt) as [Hl1 Hl2].
  pose proof (equals_ok path Hne Hp (src_text src) _ ltac:(destruct src; auto) Hl1 Hl2) as He.
  pose proof (literal_back v Hv Hvt) as Hb. revert Hb He.
  generalize (buildExprLiteral MATCH_EQ v). intros l Hb He.
  destruct (equals_param_fails path Hne Hp l) as (F1 & F2 & F3).
  pose proof (equals_header_fails path Hne Hp l) as F4.
  assert (parse_equals (src_text src ++ jsq "('" ++ path ++ jsq "') == " ++ l)
    = Ok (Some (ParamHeaderCondition src path MATCH_EQ v))) as Hq.
  { unfold parse_equals. rewrite He. change (grp 3 _) with l. rewrite Hb. by destruct src. }
  destruct src; change (tryParseTimeCondition _) with (@None RequestCondition); cbv iota.
  + change (rx_match header_exists_re _) with (@None caps).
    change (rx_match header_contains_re _) with (@None caps). cbv iota.
    unfold parse_param_contains, parse_param_compare.
    change (src_text Param ++ jsq "('" ++ path ++ jsq "') == " ++ l)
      with (jsq "param('" ++ path ++ jsq "') == " ++ l) in *. by rewrite F1, F2, F3.
  + unfold parse_param_contains, parse_param_compare.
    change (rx_match param_exists_re _) with (@None caps).
    change (rx_match header_contains_re _) with (@None caps).
    change (rx_match param_contains_re _) with (@None caps).
    change (rx_match param_compare_re _) with (@None caps).
    change (src_text Header ++ jsq "('" ++ path ++ jsq "') == " ++ l)
      with (jsq "header('" ++ path ++ jsq "') == " ++ l) in *. by rewrite F4.
Qed.

Lemma condition_text_parses c : faithful c → tryParseRequestCondition (condition_text c) = Ok (Some c).
Proof.
  intros [f tz s e Ht Hp Hs He|f tz mode v Ht Hp Hm Hv|src path Hne Hp Ht|src path v Hne Hp Ht Hv Hvt
    |path v Hne Hp Ht Hv Hvt]; unfold condition_text.
  - change (str_eqb _ _) with true. unfold tryParseRequestCondition. by rewrite range_parses.
  - assert (str_eqb mode MATCH_RANGE = false) as -> by (by each_op Hm).
    unfold tryParseRequestCondition. by rewrite compare_parses.
  - change (str_eqb MATCH_EXISTS MATCH_EXISTS) with true. unfold tryParseRequestCondition.
    destruct src; rewrite app_assoc.
    + change (tryParseTimeCondition _) with (@None RequestCondition).
      change (rx_match header_exists_re _) with (@None caps). cbv iota.
      change (src_text Param ++ jsq "('") with (jsq "param('"). by rewrite param_exists_ok.
    + change (tryParseTimeCondition _) with (@None RequestCondition). cbv iota.
      change (src_text Header ++ jsq "('") with (jsq "header('"). by rewrite header_exists_ok.
  - change (str_eqb MATCH_EQ _) with false. by apply equals_parses.
  - change (str_eqb MATCH_CONTAINS MATCH_CONTAINS) with true.
    change (str_eqb MATCH_CONTAINS MATCH_EXISTS) with false. unfold tryParseRequestCondition.
    change (tryParseTimeCondition _) with (@None RequestCondition).
    change (rx_match header_exists_re _) with (@None caps).
    change (rx_match param_exists_re _) with (@None caps). cbv iota.
    rewrite header_contains_ok by done. change (grp 2 _) with ([34] ++ v ++ [34]).
    unfold parse_string. rewrite <- quote_plain, json_parse_quote by done. reflexivity.
Qed.
