(* ===== verification/BillingRuleFacts.v ===== *)
(** * Reading back request rules

    How the texts that [BillingRules] writes are cut at the top level, and
    what follows: rules written by the editor are read back unless they compare
    a parameter, when they are not recognised, and a billing expression combined
    with rules is taken apart again. *)
From S2P Require Import Prelude JsString JsNumber Regex JsValue JsonFacts BillingRules.

Open Scope N_scope.

(** ** Depth of parentheses *)

Definition depth (x : jsstr) (d : Z) : Z := fold_left depth_after x d.

Lemma depth_app x y d : depth (x ++ y) d = depth y (depth x d).
Proof. apply fold_left_app. Qed.

Lemma depth_after_shift d e c : depth_after (d + e) c = (depth_after d c + e)%Z.
Proof. unfold depth_after. destruct (c =? 40); [lia|]. destruct (c =? 41); lia. Qed.

Lemma depth_shift x d e : depth x (d + e) = (depth x d + e)%Z.
Proof.
  revert d. induction x as [|c x IH]; intros d; [done|]. cbn. rewrite depth_after_shift. apply IH.
Qed.

Definition no_paren (c : N) : Prop := c ≠ 40 ∧ c ≠ 41.

(** Texts whose parentheses are balanced. *)
Inductive bal : jsstr → Prop :=
  | bal_flat x : Forall no_paren x → bal x
  | bal_app x y : bal x → bal y → bal (x ++ y)
  | bal_paren x : bal x → bal ([40] ++ x ++ [41]).

Lemma depth_flat x d : Forall no_paren x → depth x d = d.
Proof.
  intros H. revert d. induction H as [|c x [H1 H2] Hx IH]; intros d; [done|]. cbn.
  unfold depth_after. rewrite (proj2 (N.eqb_neq c 40)), (proj2 (N.eqb_neq c 41)) by done. apply IH.
Qed.

Lemma depth_bal x d : bal x → depth x d = d.
Proof.
  intros H. revert d. induction H as [x Hx|x y Hx IHx Hy IHy|x Hx IH]; intros d.
  - by apply depth_flat.
  - by rewrite depth_app, IHx, IHy.
  - rewrite !depth_app. change (depth [40] d) with (d + 1)%Z. rewrite IH.
    change (depth [41] (d + 1)) with (d + 1 - 1)%Z. lia.
Qed.

Lemma depth_bal_prefix x y z d : bal x → x = y ++ z → (d ≤ depth y d)%Z.
Proof.
  intros H. revert y z d. induction H as [x Hx|x1 x2 Hx IHx Hy IHy|x Hx IH]; intros y z d E.
  - rewrite E in Hx. apply Forall_app in Hx as [Hx _]. by rewrite depth_flat.
  - apply app_eq_app in E as (t & [[-> ->]|[-> ->]]).
    + by apply (IHx y t).
    + rewrite depth_app, (depth_bal x1) by done. by apply (IHy t z).
  - destruct y as [|c y]; [done|]. injection E as <- E. cbn [app].
    change (depth (40 :: y) d) with (depth y (d + 1)).
    apply app_eq_app in E as (t & [[-> ->]|[-> E]]).
    + specialize (IH y t (d + 1)%Z eq_refl). lia.
    + destruct t as [|c t].
      * rewrite app_nil_r, (depth_bal x) by done. lia.
      * injection E as <- E. symmetry in E. apply app_eq_nil in E as [-> ->].
        rewrite depth_app, (depth_bal x) by done. change (depth [41] (d + 1)) with (d + 1 - 1)%Z. lia.
Qed.

(** ** Cutting a text at a separator *)

(** [x] is a part for [sep]: trimmed, balanced, and no separator starts
    inside [x] at the top level, whatever follows. *)
Definition part (sep x : jsstr) : Prop :=
  x ≠ [] ∧ trim x = x ∧ depth x 0 = 0%Z ∧
  ∀ y c z s, x = y ++ c :: z → depth (y ++ [c]) 0 ≠ 0%Z ∨ starts_with sep (c :: z ++ s) = false.

Lemma split_run sep x s cur d :
  (∀ y c z, x = y ++ c :: z → depth (y ++ [c]) d ≠ 0%Z ∨ starts_with sep (c :: z ++ s) = false) →
  split_loop sep (x ++ s) 0 cur d = split_loop sep s 0 (cur ++ x) (depth x d).
Proof.
  revert cur d. induction x as [|c x IH]; intros cur d H; [by rewrite app_nil_r|].
  cbn [app split_loop]. specialize (H [] c x eq_refl) as H0. cbn in H0.
  assert ((depth_after d c =? 0)%Z && starts_with sep (c :: x ++ s) = false) as ->.
  { destruct H0 as [H0| ->]; [|apply andb_false_r]. by rewrite (proj2 (Z.eqb_neq _ _)). }
  rewrite IH; [by rewrite <- app_assoc|]. intros y e z ->. by apply (H (c :: y) e z).
Qed.

Lemma split_skip sep x s cur d : split_loop sep (x ++ s) (length x) cur d = split_loop sep s 0 cur d.
Proof. induction x as [|c x IH]; [done|]. apply IH. Qed.

Lemma split_sep c sep s cur :
  no_paren c →
  split_loop (c :: sep) (c :: sep ++ s) 0 cur 0 = trim cur :: split_loop (c :: sep) s 0 [] 0.
Proof.
  intros [H1 H2]. cbn [split_loop].
  assert (depth_after 0 c = 0%Z) as ->.
  { unfold depth_after. by rewrite (proj2 (N.eqb_neq c 40)), (proj2 (N.eqb_neq c 41)). }
  change (c :: sep ++ s) with ((c :: sep) ++ s). rewrite starts_with_app. cbn [Z.eqb andb length pred].
  by rewrite split_skip.
Qed.

Lemma split_pieces c sep xs :
  no_paren c → xs ≠ [] → Forall (part (c :: sep)) xs →
  split_loop (c :: sep) (join (c :: sep) xs) 0 [] 0 = xs.
Proof.
  intros Hc Hne H. induction H as [|x xs (Hx & Ht & Hd & Hq) Hxs IH]; [done|].
  destruct xs as [|x' xs].
  - cbn [join]. rewrite <- (app_nil_r x) at 1. rewrite split_run by (intros; by apply Hq).
    cbn [split_loop app]. by rewrite Ht.
  - change (join (c :: sep) (x :: x' :: xs)) with (x ++ c :: sep ++ join (c :: sep) (x' :: xs)).
    rewrite split_run by (intros; by apply Hq). rewrite Hd, split_sep by done. cbn [app].
    by rewrite Ht, IH.
Qed.

Lemma split_parts c sep xs :
  no_paren c → xs ≠ [] → Forall (part (c :: sep)) xs →
  filterb truthy (split_loop (c :: sep) (join (c :: sep) xs) 0 [] 0) = xs.
Proof.
  intros Hc Hne H. rewrite split_pieces by done. apply filterb_all. intros x Hx.
  rewrite Forall_forall in H. by apply truthy_ne, H.
Qed.

Lemma trimmed_last x c : trim (x ++ [c]) = x ++ [c] → c ≠ 32.
Proof.
  intros E ->. pose proof (trim_trimmed (x ++ [32])) as [_ H]. rewrite E in H.
  by specialize (H 32 x eq_refl).
Qed.

Lemma and_part x : x ≠ [] → trim x = x → bal x → 38 ∉ x → part (js " && ") x.
Proof.
  intros Hne Ht Hb Hx. split_and!; [done|done|by apply depth_bal|]. intros y c z s ->. right.
  destruct (decide (c = 32)) as [-> |Hc]; [|by apply starts_cons_ne].
  destruct z as [|e z]; [by apply trimmed_last in Ht|].
  change (true && starts_with [38; 38; 32] (e :: z ++ s) = false). cbn [andb].
  apply starts_cons_ne. set_solver.
Qed.

Lemma mul_part x : bal x → part (js " * ") ([40] ++ x ++ [41]).
Proof.
  intros Hb. split_and!; [done|by apply trim_ends|by apply depth_bal, bal_paren|].
  intros y c z s E. destruct (decide (c = 32)) as [-> |Hc]; [|right; by apply starts_cons_ne].
  left. destruct y as [|a y]; [done|]. injection E as <- E.
  change (depth ((40 :: y) ++ [32]) 0) with (depth (y ++ [32]) 1).
  change (32 :: z) with ([32] ++ z) in E. rewrite app_assoc in E.
  apply app_eq_app in E as (t & [[-> _]|[E1 E2]]).
  - pose proof (depth_bal_prefix _ (y ++ [32]) t 1 Hb eq_refl). lia.
  - destruct t as [|e t].
    + rewrite app_nil_r in E1. rewrite E1, depth_bal by done. lia.
    + injection E2 as <- E2. destruct t as [|? t]; [|done]. by apply app_inj_tail in E1 as [_ ?].
Qed.

(** ** The shape of the texts of conditions *)

Definition tame (c : N) : Prop := no_paren c ∧ c ≠ 38.

#[local] Instance no_paren_dec c : Decision (no_paren c) := ltac:(unfold no_paren; apply _).
#[local] Instance tame_dec c : Decision (tame c) := ltac:(unfold tame, no_paren; apply _).

Lemma plain_tame x : plain x → Forall tame x.
Proof.
  intros H. eapply Forall_impl; [exact H|]. intros c Hc%plain_facts. unfold tame, no_paren. tauto.
Qed.

Lemma numeric_tame x : is_numeric x = true → Forall tame x.
Proof.
  intros [_ H]%numeric_chars. eapply Forall_impl; [exact H|]. intros c Hc%num_char_facts.
  unfold tame, no_paren. tauto.
Qed.

Lemma literal_tame v : plain v → trim v = v → Forall tame (buildExprLiteral MATCH_EQ v).
Proof.
  intros Hv Ht. unfold buildExprLiteral. rewrite Ht. change (str_eqb MATCH_EQ _) with false. cbv iota.
  pose proof (plain_tame v Hv). destruct (_ || _); [done|]. destruct (is_numeric v); [done|].
  rewrite quote_plain by done. apply Forall_app_2; [|apply Forall_app_2]; [|done|]; by repeat constructor.
Qed.

(** A balanced text without [&]. *)
Definition nice (x : jsstr) : Prop := bal x ∧ 38 ∉ x.

Lemma nice_tame x : Forall tame x → nice x.
Proof.
  intros H. split.
  - apply bal_flat. eapply Forall_impl; [exact H|]. by intros c [].
  - intros Hx. rewrite Forall_forall in H. by destruct (H _ Hx).
Qed.

Lemma nice_app x y : nice x → nice y → nice (x ++ y).
Proof. intros [? ?] [? ?]. split; [by constructor|]. set_solver. Qed.

Lemma nice_paren x : nice x → nice ([40] ++ x ++ [41]).
Proof. intros [? ?]. split; [by constructor|]. set_solver. Qed.

Lemma nice_call fn a x : Forall tame fn → plain a → nice x → nice (fn ++ jsq "('" ++ a ++ jsq "')" ++ x).
Proof.
  intros Hf Ha Hx.
  replace (fn ++ jsq "('" ++ a ++ jsq "')" ++ x) with (fn ++ ([40] ++ ([34] ++ a ++ [34]) ++ [41]) ++ x)
    by (rewrite <- !app_assoc; reflexivity).
  apply nice_app; [by apply nice_tame|]. apply nice_app; [|done]. apply nice_paren, nice_tame.
  apply plain_tame in Ha. apply Forall_app_2; [|apply Forall_app_2]; [|done|]; by repeat constructor.
Qed.

(** A text that does not end with a blank, and one that starts with none
    either. *)
Definition solid_end (x : jsstr) : Prop := ∃ y c, x = y ++ [c] ∧ is_ws c = false.
Definition solid (x : jsstr) : Prop := x ≠ [] ∧ trim x = x.

Lemma solid_solid_end x : solid x → solid_end x.
Proof.
  intros [Hne Ht]. destruct (exists_last Hne) as (y & c & ->). exists y, c. split; [done|].
  pose proof (trim_trimmed (y ++ [c])) as [_ H]. rewrite Ht in H. by apply (H c y).
Qed.

Lemma solid_end_app x y : solid_end y → solid_end (x ++ y).
Proof. intros (z & c & -> & Hc). exists (x ++ z), c. by rewrite app_assoc. Qed.

Lemma solid_app x y : solid x → solid_end y → solid (x ++ y).
Proof.
  intros [Hne Ht] (z & c & -> & Hc). split; [by destruct x|]. apply trim_id.
  pose proof (trim_trimmed x) as [H _]. rewrite Ht in H. split; intros e s' E.
  - destruct x as [|d x]; [done|]. injection E as <- _. by apply (H d x).
  - rewrite app_assoc in E. by apply app_inj_tail in E as [_ <-].
Qed.

Lemma numeric_solid x : is_numeric x = true → solid x.
Proof. intros H. split; [by apply numeric_chars|by apply numeric_trim]. Qed.

Lemma func_solid f : solid (func_text f).
Proof. by destruct f. Qed.

Lemma literal_solid v : plain v → trim v = v → solid (buildExprLiteral MATCH_EQ v).
Proof.
  intros Hv Ht. split; [by apply literal_line|]. unfold buildExprLiteral. rewrite Ht. change (str_eqb MATCH_EQ _) with false. cbv iota.
  destruct (_ || _); [done|]. destruct (is_numeric v); [done|]. by apply quote_trim.
Qed.

(** A concrete text satisfies a decidable predicate on every character. *)
Ltac concrete := apply (bool_decide_unpack _); vm_compute; exact I.

Lemma func_tame f : Forall tame (func_text f).
Proof. destruct f; concrete. Qed.

Lemma range_nice f tz s e :
  plain tz → is_numeric s = true → is_numeric e = true → nice (range_text f tz s e).
Proof.
  intros Hp Hs He. unfold range_text. apply (nice_call _ _ (js " >= " ++ _)); [apply func_tame|done|].
  do 3 (apply nice_app; [apply nice_tame; first [concrete|by apply numeric_tame]|]).
  apply (nice_call _ _ (js " < " ++ _)); [apply func_tame|done|].
  apply nice_app; apply nice_tame; [concrete|by apply numeric_tame].
Qed.

Lemma condition_nice c : faithful c → nice (condition_text c).
Proof.
  intros [f tz s e Ht Hp Hs He|f tz mode v Ht Hp Hm Hv|src path Hne Hp Ht|src path v Hne Hp Ht Hv Hvt
    |path v Hne Hp Ht Hv Hvt]; unfold condition_text.
  - by apply range_nice.
  - assert (str_eqb mode MATCH_RANGE = false) as -> by (by each_op Hm).
    apply (nice_call _ _ (js " " ++ _)); [apply func_tame|done|].
    do 3 (apply nice_app; [apply nice_tame; first [concrete|each_op Hm; concrete]|]).
    by apply nice_tame, numeric_tame.
  - change (str_eqb MATCH_EXISTS MATCH_EXISTS) with true. cbv iota.
    destruct src; [apply (nice_call _ _ (js " != nil"))|apply (nice_call _ _ (jsq " != ''"))];
      try done; try apply nice_tame; concrete.
  - change (str_eqb MATCH_EQ _) with false. cbv iota.
    apply (nice_call _ _ (js " == " ++ _)); [destruct src; concrete|done|].
    apply nice_app; apply nice_tame; [concrete|by apply literal_tame].
  - change (str_eqb MATCH_CONTAINS MATCH_CONTAINS) with true.
    change (str_eqb MATCH_CONTAINS MATCH_EXISTS) with false. cbv iota.
    replace (jsq "has(header('" ++ _) with
      (js "has" ++ ([40] ++ (js "header" ++ jsq "('" ++ path ++ jsq "')" ++ js ", " ++ [34] ++ v ++ [34])
        ++ [41])) by (rewrite <- !app_assoc; reflexivity).
    apply nice_app; [apply nice_tame; concrete|]. apply nice_paren, nice_call; [concrete|done|].
    repeat apply nice_app; apply nice_tame; try concrete. by apply plain_tame.
Qed.

(** Looks for the end of a text. *)
Ltac solid_tail := repeat apply solid_end_app; apply solid_solid_end.

Lemma condition_solid c : faithful c → solid (condition_text c).
Proof.
  intros [f tz s e Ht Hp Hs He|f tz mode v Ht Hp Hm Hv|src path Hne Hp Ht|src path v Hne Hp Ht Hv Hvt
    |path v Hne Hp Ht Hv Hvt]; unfold condition_text.
  - apply solid_app; [apply func_solid|]. solid_tail. by apply numeric_solid.
  - assert (str_eqb mode MATCH_RANGE = false) as -> by (by each_op Hm).
    apply solid_app; [apply func_solid|]. solid_tail. by apply numeric_solid.
  - change (str_eqb MATCH_EXISTS MATCH_EXISTS) with true. cbv iota.
    apply solid_app; [by destruct src|]. do 2 apply solid_end_app.
    destruct src; [apply (solid_end_app (jsq "') != ni") (js "l"))
                  |apply (solid_end_app (jsq "') != '") [34])]; by apply solid_solid_end.
  - change (str_eqb MATCH_EQ _) with false. cbv iota. apply solid_app; [by destruct src|].
    solid_tail. by apply literal_solid.
  - change (str_eqb MATCH_CONTAINS MATCH_CONTAINS) with true.
    change (str_eqb MATCH_CONTAINS MATCH_EXISTS) with false. cbv iota.
    apply solid_app; [done|]. by solid_tail.
Qed.

Abbreviation no_bar := (Forall (λ c, c ≠ 124)).

Lemma no_bar_includes x : no_bar x → str_includes (js " || ") x = false.
Proof.
  intros H. apply str_includes_false. intros a b ->. rewrite Forall_forall in H.
  apply (H 124); [|done]. set_solver.
Qed.

Lemma plain_no_bar x : plain x → no_bar x.
Proof. intros H. eapply Forall_impl; [exact H|]. intros c Hc%plain_facts. tauto. Qed.

Lemma numeric_no_bar x : is_numeric x = true → no_bar x.
Proof.
  intros [_ H]%numeric_chars. eapply Forall_impl; [exact H|]. intros c Hc%num_char_facts. tauto.
Qed.

Lemma literal_no_bar v : plain v → trim v = v → no_bar (buildExprLiteral MATCH_EQ v).
Proof.
  intros Hv Ht. unfold buildExprLiteral. rewrite Ht. change (str_eqb MATCH_EQ _) with false. cbv iota.
  pose proof (plain_no_bar v Hv). destruct (_ || _); [done|]. destruct (is_numeric v); [done|].
  rewrite quote_plain by done. apply Forall_app_2; [|apply Forall_app_2]; [|done|]; by repeat constructor.
Qed.

(** A condition is written in parentheses exactly if it is a range. *)
Lemma wrap_or_text c :
  faithful c →
  wrap_or (condition_text c) = condition_text c ∨
  ∃ f tz s e, c = TimeCondition f tz MATCH_RANGE [] s e ∧
    wrap_or (condition_text c) = js "(" ++ range_text f tz s e ++ js ")".
Proof.
  intros Hc. unfold wrap_or. destruct (str_includes _ _) eqn:E; [|by left]. right.
  destruct Hc as [f tz s e Ht Hp Hs He|f tz mode v Ht Hp Hm Hv|src path Hne Hp Ht
    |src path v Hne Hp Ht Hv Hvt|path v Hne Hp Ht Hv Hvt]; [by eauto 10|exfalso..];
    revert E; apply not_true_iff_false, no_bar_includes; unfold condition_text.
  - assert (str_eqb mode MATCH_RANGE = false) as -> by (by each_op Hm).
    repeat apply Forall_app_2; first [exact (plain_no_bar _ Hp)|exact (numeric_no_bar _ Hv)
      |destruct f; concrete|each_op Hm; concrete|concrete].
  - change (str_eqb MATCH_EXISTS MATCH_EXISTS) with true. cbv iota.
    repeat apply Forall_app_2; first [exact (plain_no_bar _ Hp)|destruct src; concrete].
  - change (str_eqb MATCH_EQ _) with false. cbv iota.
    repeat apply Forall_app_2; first [exact (plain_no_bar _ Hp)|by apply literal_no_bar
      |destruct src; concrete].
  - change (str_eqb MATCH_CONTAINS MATCH_CONTAINS) with true.
    change (str_eqb MATCH_CONTAINS MATCH_EXISTS) with false. cbv iota.
    repeat apply Forall_app_2; first [exact (plain_no_bar _ Hp)|exact (plain_no_bar _ Hv)|concrete].
Qed.

(** *** Both ways of writing a condition *)

Lemma wrapped_parses c :
  faithful c → tryParseRequestCondition (wrap_or (condition_text c)) = Ok (Some c).
Proof.
  intros Hc. destruct (wrap_or_text c Hc) as [-> |(f & tz & s & e & -> & ->)].
  - by apply condition_text_parses.
  - inversion Hc as [? ? ? ? Ht Hp Hs He|? ? ? ? Ht Hp Hm Hv| | |]; subst; [|by each_op Hm].
    unfold tryParseRequestCondition. by rewrite range_paren_parses.
Qed.

Lemma and_part_solid x : solid x → nice x → part (js " && ") x.
Proof. intros [? ?] [? ?]. by apply and_part. Qed.

Lemma condition_part c : faithful c → part (js " && ") (condition_text c).
Proof. intros Hc. apply and_part_solid; [by apply condition_solid|by apply condition_nice]. Qed.

Lemma wrapped_part c : faithful c → part (js " && ") (wrap_or (condition_text c)).
Proof.
  intros Hc. destruct (wrap_or_text c Hc) as [-> |(f & tz & s & e & -> & ->)]; [by apply condition_part|].
  apply and_part_solid.
  - split; [done|]. by apply trim_ends.
  - apply nice_paren. by apply (condition_nice (TimeCondition f tz MATCH_RANGE [] s e)).
Qed.

(** ** Conditions on parameters that are not read back *)

(** What follows the test for existence in the text of such a condition. *)
Definition param_tail (path mode v : jsstr) : jsstr :=
  if str_eqb mode MATCH_CONTAINS
  then jsq "has(param('" ++ path ++ jsq "'), " ++ [34] ++ v ++ [34] ++ js ")"
  else jsq "param('" ++ path ++ jsq "') " ++ compare_op mode ++ js " " ++ v.

Definition compared (mode v : jsstr) : Prop :=
  (mode ∈ [MATCH_GT; MATCH_GTE; MATCH_LT; MATCH_LTE] ∧ is_numeric v = true) ∨
  (mode = MATCH_CONTAINS ∧ plain v ∧ trim v = v).

Section Lost.
Context (path : jsstr) (Hne : path ≠ []) (Hp : plain path) (Ht : trim path = path).

Lemma param_build mode v :
  compared mode v →
  buildRequestConditionExpr (ParamHeaderCondition Param path mode v)
  = condition_text (ParamHeaderCondition Param path MATCH_EXISTS []) ++ js " && " ++ param_tail path mode v.
Proof.
  intros Hc. unfold buildRequestConditionExpr. cbn [normalizeCondition]. rewrite Ht, truthy_ne by done.
  unfold build_path_condition, source_expr, param_tail, condition_text. rewrite quote_plain by done.
  change (str_eqb MATCH_EXISTS MATCH_EXISTS) with true. cbn [negb].
  destruct Hc as [[Hm Hv]|(-> & Hv & Hvt)].
  - rewrite numeric_trim, Hv by done. each_op Hm; same_text.
  - unfold buildExprLiteral. rewrite Hvt, quote_plain by done.
    change (includes MATCH_CONTAINS (getRequestRuleMatchOptions _ _)) with true. cbv iota.
    change (str_eqb MATCH_CONTAINS MATCH_EXISTS) with false.
    change (str_eqb MATCH_CONTAINS MATCH_CONTAINS) with true. same_text.
Qed.

Lemma param_tail_shape mode v :
  compared mode v → solid (param_tail path mode v) ∧ nice (param_tail path mode v).
Proof.
  intros Hc. split; unfold param_tail; destruct Hc as [[Hm Hv]|(-> & Hv & Hvt)].
  - assert (str_eqb mode MATCH_CONTAINS = false) as -> by (by each_op Hm).
    apply solid_app; [done|]. solid_tail. by apply numeric_solid.
  - change (str_eqb _ _) with true. cbv iota. apply solid_app; [done|]. by solid_tail.
  - assert (str_eqb mode MATCH_CONTAINS = false) as -> by (by each_op Hm).
    apply (nice_call (js "param") path (js " " ++ _)); [concrete|done|].
    apply nice_app; [apply nice_tame; concrete|]. apply nice_app; [apply nice_tame; each_op Hm; concrete|].
    apply nice_app; apply nice_tame; [concrete|by apply numeric_tame].
  - change (str_eqb _ _) with true. cbv iota.
    replace (jsq "has(param('" ++ _) with
      (js "has" ++ ([40] ++ (js "param" ++ jsq "('" ++ path ++ jsq "')" ++ js ", " ++ [34] ++ v ++ [34])
        ++ [41])) by (rewrite <- !app_assoc; reflexivity).
    apply nice_app; [apply nice_tame; concrete|]. apply nice_paren, nice_call; [concrete|done|].
    repeat apply nice_app; apply nice_tame; try concrete. by apply plain_tame.
Qed.

Lemma param_tail_unread mode v :
  compared mode v → tryParseRequestCondition (param_tail path mode v) = Ok None.
Proof.
  intros [[Hm Hv]|(-> & Hv & Hvt)]; [|reflexivity].
  assert (tryParseRequestCondition (jsq "param('" ++ path ++ jsq "') " ++ compare_op mode ++ js " " ++ v)
    = Ok None) as H; [|by each_op Hm].
  assert (rx_match equals_re (jsq "param('" ++ path ++ jsq "') " ++ compare_op mode ++ js " " ++ v) = None)
    as He.
  { unfold rx_match, equals_re. cbn [rseq].
    change (jsq "param('" ++ path ++ ?x) with (js "param" ++ jsq "('" ++ path ++ x).
    rewrite run_seq, run_grp, run_alt. lits. rewrite !lit_name by done. by each_op Hm. }
  unfold tryParseRequestCondition, parse_param_contains, parse_param_compare, parse_equals. rewrite He.
  change (tryParseTimeCondition _) with (@None RequestCondition).
  change (rx_match header_exists_re _) with (@None caps).
  change (rx_match header_contains_re _) with (@None caps).
  unfold rx_match, param_exists_re, param_contains_re, param_compare_re. cbn [rseq ralt].
  rewrite !lit_name by done. by each_op Hm.
Qed.

End Lost.

(** A condition of the editor that is complete: one that is written without
    loss, or one that asks whether a parameter contains a text or compares it
    with a number. *)
Inductive editable : RequestCondition → Prop :=
  | editable_faithful c : faithful c → editable c
  | editable_compared path mode v :
      path ≠ [] → plain path → trim path = path → compared mode v →
      editable (ParamHeaderCondition Param path mode v).

Definition COMPARED_MODES : list jsstr := [MATCH_CONTAINS; MATCH_GT; MATCH_GTE; MATCH_LT; MATCH_LTE].

Definition is_compared (c : RequestCondition) : bool :=
  match c with ParamHeaderCondition Param _ mode _ => includes mode COMPARED_MODES | _ => false end.

Lemma faithful_not_compared c : faithful c → is_compared c = false.
Proof. by intros [| |[]|[]|]. Qed.

Lemma compared_mode mode v : compared mode v → includes mode COMPARED_MODES = true.
Proof. intros [[Hm _]|[-> _]]; [by each_op Hm|reflexivity]. Qed.

Abbreviation exists_text := (λ path, condition_text (ParamHeaderCondition Param path MATCH_EXISTS [])).

(** The parts that the reader cuts the text of a condition into, of which [w]
    writes the one of a faithful condition. *)
Definition texts_of (w : jsstr → jsstr) (c : RequestCondition) : list jsstr :=
  match c with
  | ParamHeaderCondition Param path mode v =>
      if includes mode COMPARED_MODES then [exists_text path; param_tail path mode v] else [w (condition_text c)]
  | _ => [w (condition_text c)]
  end.

Lemma texts_faithful w c : faithful c → texts_of w c = [w (condition_text c)].
Proof. by intros [| |[]|[]|]. Qed.

Lemma texts_compared w path mode v :
  compared mode v → texts_of w (ParamHeaderCondition Param path mode v) = [exists_text path; param_tail path mode v].
Proof. intros Hc. cbn [texts_of]. by rewrite (compared_mode mode v). Qed.

Lemma build_texts c : editable c → buildRequestConditionExpr c = join (js " && ") (texts_of (λ x, x) c).
Proof.
  intros [d Hd|path mode v Hne Hp Ht Hc]; [rewrite texts_faithful by done; by apply build_text|].
  rewrite texts_compared by done. by apply param_build.
Qed.

Lemma param_no_bar path mode v :
  plain path → compared mode v → no_bar (join (js " && ") [exists_text path; param_tail path mode v]).
Proof.
  intros Hp Hc. pose proof (plain_no_bar _ Hp) as Hb. unfold condition_text, param_tail.
  change (str_eqb MATCH_EXISTS MATCH_EXISTS) with true. cbv iota. cbn [join].
  destruct Hc as [[Hm Hv]|(-> & Hv & _)].
  - pose proof (numeric_no_bar _ Hv). assert (str_eqb mode MATCH_CONTAINS = false) as -> by (by each_op Hm).
    repeat apply Forall_app_2; first [exact Hb|done|each_op Hm; concrete|concrete].
  - pose proof (plain_no_bar _ Hv). change (str_eqb MATCH_CONTAINS MATCH_CONTAINS) with true. cbv iota.
    repeat apply Forall_app_2; first [exact Hb|done|concrete].
Qed.

Lemma wrap_texts c :
  editable c → wrap_or (join (js " && ") (texts_of (λ x, x) c)) = join (js " && ") (texts_of wrap_or c).
Proof.
  intros [d Hd|path mode v Hne Hp Ht Hc]; [by rewrite !texts_faithful|].
  rewrite !texts_compared by done. unfold wrap_or. by rewrite no_bar_includes by (by apply param_no_bar).
Qed.

(** One of the two ways of writing a condition. *)
Definition writer (w : jsstr → jsstr) : Prop :=
  ∀ c, faithful c → part (js " && ") (w (condition_text c)) ∧ tryParseRequestCondition (w (condition_text c)) = Ok (Some c) ∧
    bal (w (condition_text c)).

Lemma writer_id : writer (λ x, x).
Proof. intros c Hc. split; [by apply condition_part|]. split; [by apply condition_text_parses|by apply condition_nice]. Qed.

Lemma writer_wrap : writer wrap_or.
Proof.
  intros c Hc. split; [by apply wrapped_part|]. split; [by apply wrapped_parses|]. unfold wrap_or.
  destruct (str_includes _ _); [apply bal_paren|]; by apply condition_nice.
Qed.

Lemma texts_shape w c :
  writer w → editable c → texts_of w c ≠ [] ∧ Forall (part (js " && ")) (texts_of w c) ∧ Forall bal (texts_of w c).
Proof.
  intros Hw [d Hd|path mode v Hne Hp Ht Hc].
  - rewrite texts_faithful by done. split; [done|]. split; apply Forall_singleton; by apply Hw.
  - rewrite texts_compared by done. split; [done|]. destruct (param_tail_shape path Hp mode v Hc) as [Hs Hn].
    split; (apply Forall_cons; split; [|apply Forall_singleton]).
    + by apply condition_part, faithful_exists.
    + by apply and_part_solid.
    + by apply condition_nice, faithful_exists.
    + by apply Hn.
Qed.

Lemma texts_parse w c rest :
  writer w → editable c →
  parse_all (texts_of w c ++ rest) =
  if is_compared c then Ok None else (r ← parse_all rest; Ok (option_map (cons c) r)).
Proof.
  intros Hw [d Hd|path mode v Hne Hp Ht Hc].
  - rewrite texts_faithful, faithful_not_compared by done. destruct (Hw d Hd) as ((_ & Hx & _) & Hr & _).
    cbn [app parse_all]. by rewrite Hx, Hr.
  - rewrite texts_compared by done. cbn [is_compared]. rewrite (compared_mode mode v) by done. cbn [app parse_all].
    assert (faithful (ParamHeaderCondition Param path MATCH_EXISTS [])) as Hf by (by apply faithful_exists).
    destruct (condition_part _ Hf) as (_ & -> & _). rewrite condition_text_parses by done. unfold mbind, exc_bind.
    destruct (param_tail_shape path Hp mode v Hc) as [[_ ->] _]. by rewrite param_tail_unread.
Qed.

(** ** Factors *)

Definition factor_text (inner m : jsstr) : jsstr := js "(" ++ inner ++ js " ? " ++ m ++ js " : 1)".

Lemma starts_with_elem l s c : starts_with l s = true → c ∈ l → c ∈ s.
Proof. intros [t ->]%starts_with_spec Hc. set_solver. Qed.

(** The last question mark of a factor is the one before its multiplier. *)
Lemma factor_match inner m :
  inner ≠ [] → is_numeric m = true →
  rx_match factor_re (factor_text inner m) = Some [(2%nat, m); (1%nat, inner)].
Proof.
  intros Hne Hm. unfold rx_match, factor_re, factor_text. cbn [rseq].
  rewrite run_seq, run_lit_app, run_seq, run_grp. destruct inner as [|c x]; [done|].
  unfold RPlus. rewrite run_seq. cbn [app]. rewrite run_chr_cons.
  change (any_char c) with true. cbv iota. set (s := js " ? " ++ m ++ js " : 1)").
  apply star_any; [intros p' y z E Hy|intros p'].
  - rewrite run_seq. apply run_lit_fail. apply not_true_is_false. intros Hs.
    destruct y as [|a [|b y]]; [done| |].
    + apply (f_equal (drop 1)) in E. cbn [app] in E. change (drop 1 (a :: z)) with z in E.
      by rewrite <- E in Hs.
    + apply (f_equal (drop 2)) in E. change (js " " ++ m ++ js " : 1)" = y ++ z) in E.
      assert (63 ∈ z) as Hz by (eapply starts_with_elem; [exact Hs|set_solver]).
      assert (63 ∈ js " " ++ m ++ js " : 1)") as H63 by (rewrite E; set_solver).
      apply numeric_chars in Hm as [_ Hm]. rewrite Forall_forall in Hm.
      rewrite !elem_of_app in H63. destruct H63 as [H|[H|H]].
      * vm_compute in H. set_solver.
      * apply Hm, num_char_facts in H. tauto.
      * vm_compute in H. set_solver.
  - subst s. rewrite run_seq, run_lit_app, num_lit by done.
    rewrite run_seq. change (js " : 1)") with (js " : 1)" ++ []) at 2. rewrite run_lit_app, run_end.
    do 3 f_equal. rewrite app_comm_cons, length_app, Nat.add_sub. f_equal. apply take_app_length.
Qed.

(** *** What a group is written as *)

(** A group of the editor that is written without loss, and one that is
    written. *)
Definition faithful_group (g : RequestRuleGroup) : Prop :=
  conditions g ≠ [] ∧ Forall faithful (conditions g) ∧ is_numeric (multiplier g) = true.
Definition written_group (g : RequestRuleGroup) : Prop :=
  conditions g ≠ [] ∧ Forall editable (conditions g) ∧ is_numeric (multiplier g) = true.

(** A group with a condition that compares a parameter. *)
Definition compares (g : RequestRuleGroup) : bool := existsb is_compared (conditions g).

Lemma faithful_written g : faithful_group g → written_group g ∧ compares g = false.
Proof.
  intros (Hne & Hc & Hm). split.
  - split; [done|]. split; [|done]. eapply Forall_impl; [exact Hc|]. apply editable_faithful.
  - unfold compares. clear Hne. induction Hc as [|c cs Hc _ IH]; [done|]. cbn [existsb].
    by rewrite faithful_not_compared.
Qed.

Definition pieces (cs : list RequestCondition) : list jsstr :=
  match cs with [c] => texts_of (λ x, x) c | _ => concat (map (texts_of wrap_or) cs) end.

Lemma join_ne sep xs : xs ≠ [] → Forall (part sep) xs → join sep xs ≠ [].
Proof.
  intros Hne H. destruct H as [|x xs (Hx & _) Hxs]; [done|]. destruct xs; [done|]. by destruct x.
Qed.

Lemma join_app sep xs ys : xs ≠ [] → ys ≠ [] → join sep (xs ++ ys) = join sep xs ++ sep ++ join sep ys.
Proof.
  intros Hx Hy. induction xs as [|x xs IH]; [done|]. destruct xs as [|x' xs].
  - by destruct ys.
  - change ((x :: x' :: xs) ++ ys) with (x :: x' :: (xs ++ ys)). rewrite !join_cons2.
    change (x' :: (xs ++ ys)) with ((x' :: xs) ++ ys). by rewrite IH, <- !app_assoc.
Qed.

Lemma join_concat sep (ls : list (list jsstr)) :
  Forall (λ l, l ≠ []) ls → join sep (concat ls) = join sep (map (join sep) ls).
Proof.
  induction 1 as [|l ls Hl Hls IH]; [done|]. cbn [concat map]. destruct Hls as [|l' ls Hl' Hls].
  - cbn [concat map join]. by rewrite app_nil_r.
  - change (join sep (join sep l :: map (join sep) (l' :: ls)))
      with (join sep l ++ sep ++ join sep (map (join sep) (l' :: ls))).
    rewrite join_app, IH; [done|done|]. cbn [concat]. by destruct l'.
Qed.

Lemma concat_texts w (P : jsstr → Prop) cs :
  Forall editable cs → (∀ c, editable c → Forall P (texts_of w c)) → Forall P (concat (map (texts_of w) cs)).
Proof. intros Hc HP. induction Hc as [|c cs Hc _ IH]; [done|]. cbn [map concat]. apply Forall_app_2; auto. Qed.

Lemma pieces_shape cs : Forall editable cs → Forall (part (js " && ")) (pieces cs) ∧ Forall bal (pieces cs).
Proof.
  intros H. pose proof writer_wrap.
  assert (∀ w c, writer w → editable c → Forall (part (js " && ")) (texts_of w c) ∧ Forall bal (texts_of w c)) as Hs
    by (intros w c Hw Hc; by destruct (texts_shape w c Hw Hc)).
  destruct cs as [|c [|c' cs]]; [done| |].
  - apply Forall_cons in H as [H _]. exact (Hs _ c writer_id H).
  - split; (apply concat_texts; [exact H|]); intros d Hd; by apply (Hs wrap_or).
Qed.

Lemma pieces_ne cs : cs ≠ [] → Forall editable cs → pieces cs ≠ [].
Proof.
  intros Hne H. destruct H as [|c cs Hc Hcs]; [done|]. destruct cs as [|c' cs].
  - by apply (texts_shape (λ x, x) c writer_id).
  - cbn [pieces map concat]. destruct (texts_shape wrap_or c writer_wrap Hc) as [Hn _]. by destruct (texts_of wrap_or c).
Qed.

Lemma parse_concat w cs :
  writer w → Forall editable cs →
  parse_all (concat (map (texts_of w) cs)) = Ok (if existsb is_compared cs then None else Some cs).
Proof.
  intros Hw. induction 1 as [|c cs Hc _ IH]; [done|]. cbn [map concat existsb]. rewrite texts_parse by done.
  destruct (is_compared c); [done|]. rewrite IH. unfold mbind, exc_bind. by destruct (existsb is_compared cs).
Qed.

Lemma parse_pieces cs :
  Forall editable cs → parse_all (pieces cs) = Ok (if existsb is_compared cs then None else Some cs).
Proof.
  intros H. destruct cs as [|c [|c' cs]]; [done| |by apply parse_concat, H; apply writer_wrap].
  pose proof (parse_concat (λ x, x) [c] writer_id H) as E. cbn [map concat] in E. by rewrite app_nil_r in E.
Qed.

Definition inner_text (cs : list RequestCondition) : jsstr := join (js " && ") (pieces cs).

Lemma built_texts cs :
  Forall editable cs → filterb truthy (map buildRequestConditionExpr cs)
  = map (λ c, join (js " && ") (texts_of (λ x, x) c)) cs.
Proof.
  rewrite Forall_forall. intros H.
  rewrite (map_ext_in _ (λ c, join (js " && ") (texts_of (λ x, x) c)))
    by (intros c Hc; apply build_texts, H; by apply list_elem_of_In).
  apply filterb_all. intros x (c & -> & Hc)%list_elem_of_fmap. apply truthy_ne.
  destruct (texts_shape (λ x, x) c writer_id (H c Hc)) as (Hn & Hp & _). by apply join_ne.
Qed.

Lemma wrapped_texts cs :
  Forall editable cs →
  join (js " && ") (map wrap_or (map (λ c, join (js " && ") (texts_of (λ x, x) c)) cs))
  = join (js " && ") (concat (map (texts_of wrap_or) cs)).
Proof.
  intros H. rewrite join_concat.
  - f_equal. rewrite !map_map. apply map_ext_in. intros c Hc. apply wrap_texts. rewrite Forall_forall in H.
    apply H. by apply list_elem_of_In.
  - apply Forall_map. eapply Forall_impl; [exact H|]. intros c Hc. by apply (texts_shape wrap_or c writer_wrap).
Qed.

Lemma group_factor g :
  written_group g → buildRuleGroupFactor g = factor_text (inner_text (conditions g)) (multiplier g).
Proof.
  destruct g as [cs m]. intros (Hne & Hc & Hm). unfold buildRuleGroupFactor. cbn [conditions multiplier] in *.
  rewrite numeric_trim, Hm, built_texts by done. destruct cs as [|c [|c' cs]]; [done|done|].
  cbn [map negb]. unfold inner_text, pieces. rewrite <- wrapped_texts by done. reflexivity.
Qed.

(** What the reader makes of a written group. *)
Definition group_read (g : RequestRuleGroup) : option RequestRuleGroup := if compares g then None else Some g.

Lemma factor_back g :
  written_group g →
  tryParseRuleGroupFactor (factor_text (inner_text (conditions g)) (multiplier g)) = Ok (group_read g).
Proof.
  destruct g as [cs m]. intros (Hne & Hc & Hm). cbn [conditions multiplier] in *.
  destruct (pieces_shape cs Hc) as [Hp _]. pose proof (pieces_ne cs Hne Hc) as Hpn.
  unfold tryParseRuleGroupFactor. rewrite factor_match by (done || by apply join_ne).
  change (grp 1 _) with (inner_text cs). change (grp 2 _) with m.
  unfold splitTopLevelAnd, inner_text.
  change (js " && ") with (32 :: js "&& ") in *. rewrite split_parts by done.
  rewrite parse_pieces by done. unfold group_read, compares. cbn [conditions]. unfold mbind, exc_bind.
  destruct (existsb is_compared cs); [done|]. by destruct cs.
Qed.

Lemma join_bal sep xs : bal sep → Forall bal xs → bal (join sep xs).
Proof.
  intros Hs H. induction H as [|x xs Hx Hxs IH]; [by apply bal_flat|].
  destruct xs; [done|]. by repeat apply bal_app.
Qed.

Lemma inner_bal cs : Forall editable cs → bal (inner_text cs).
Proof. intros H. apply join_bal; [apply bal_flat; concrete|by apply pieces_shape]. Qed.

Lemma factor_text_part inner m :
  bal inner → is_numeric m = true → part (js " * ") (factor_text inner m).
Proof.
  intros Hb Hm. unfold factor_text.
  replace (js "(" ++ _) with ([40] ++ (inner ++ js " ? " ++ m ++ js " : 1") ++ [41])
    by (rewrite <- !app_assoc; reflexivity).
  apply mul_part. apply bal_app; [done|]. apply numeric_tame, nice_tame in Hm as [Hm _].
  repeat apply bal_app; [|done|]; apply bal_flat; concrete.
Qed.

Lemma factor_part g :
  written_group g → part (js " * ") (factor_text (inner_text (conditions g)) (multiplier g)).
Proof. intros (Hne & Hc & Hm). apply factor_text_part; [by apply inner_bal|done]. Qed.

(** ** Whole expressions *)

Abbreviation group_text := (λ g, factor_text (inner_text (conditions g)) (multiplier g)).

Lemma rule_expr_text groups :
  Forall written_group groups → buildRequestRuleExpr groups = join (js " * ") (map group_text groups).
Proof.
  rewrite Forall_forall. intros H. unfold buildRequestRuleExpr.
  rewrite (map_ext_in _ group_text) by (intros c Hc; apply group_factor, H; by apply list_elem_of_In).
  rewrite filterb_all; [done|]. by intros x (g & -> & Hg)%list_elem_of_fmap.
Qed.

Lemma group_parts groups :
  Forall written_group groups → Forall (part (js " * ")) (map group_text groups).
Proof.
  intros H. apply Forall_map. eapply Forall_impl; [exact H|]. intros g. apply factor_part.
Qed.

Lemma parts_solid_end sep xs : xs ≠ [] → Forall (part sep) xs → solid_end (join sep xs).
Proof.
  intros Hne H. induction H as [|x xs (Hx & Ht & _) Hxs IH]; [done|]. destruct xs as [|x' xs].
  - by apply solid_solid_end.
  - by do 2 apply solid_end_app; apply IH.
Qed.

Lemma parts_solid sep xs : xs ≠ [] → Forall (part sep) xs → solid (join sep xs).
Proof.
  intros Hne H. destruct H as [|x xs (Hx & Ht & Hp) Hxs]; [done|]. destruct xs as [|x' xs]; [done|].
  apply solid_app; [done|]. apply solid_end_app, (parts_solid_end sep (x' :: xs)); done.
Qed.

Lemma multiply_parts xs :
  xs ≠ [] → Forall (part (js " * ")) xs → splitTopLevelMultiply (join (js " * ") xs) = xs.
Proof.
  unfold splitTopLevelMultiply. change (js " * ") with (32 :: js "* "). intros. by apply split_parts.
Qed.

(** Rules are read as a whole: one group that compares a parameter and
    nothing is recognised. *)
Definition groups_read (groups : list RequestRuleGroup) : option (list RequestRuleGroup) :=
  if existsb compares groups then None else Some groups.

Lemma parse_factors_back groups :
  Forall written_group groups → parse_factors (map group_text groups) = Ok (groups_read groups).
Proof.
  induction 1 as [|g groups Hg Hgs IH]; [done|]. cbn [map parse_factors].
  rewrite factor_back by done. unfold mbind, exc_bind, group_read, groups_read in *. cbn [existsb].
  destruct (compares g); [done|]. rewrite IH. cbn [orb]. by destruct (existsb compares groups).
Qed.

Lemma rules_back groups :
  groups ≠ [] → Forall written_group groups →
  tryParseRequestRuleExpr (join (js " * ") (map group_text groups)) = Ok (groups_read groups).
Proof.
  intros Hne H. assert (map group_text groups ≠ []) as Hm by (by destruct groups).
  destruct (parts_solid _ _ Hm (group_parts _ H)) as [Hj Ht].
  unfold tryParseRequestRuleExpr. rewrite Ht, truthy_ne, multiply_parts by (done || by apply group_parts).
  by apply parse_factors_back.
Qed.

Lemma written_back groups :
  Forall written_group groups → tryParseRequestRuleExpr (buildRequestRuleExpr groups) = Ok (groups_read groups).
Proof.
  intros H. destruct groups as [|g groups]; [done|]. rewrite rule_expr_text by done. by apply rules_back.
Qed.

Lemma all_faithful groups :
  Forall faithful_group groups → Forall written_group groups ∧ existsb compares groups = false.
Proof.
  intros H. split; [eapply Forall_impl; [exact H|]; intros g Hg; by apply faithful_written|].
  induction H as [|g groups Hg _ IH]; [done|]. cbn [existsb]. by rewrite (proj2 (faithful_written g Hg)).
Qed.

Lemma groups_back groups :
  Forall faithful_group groups → tryParseRequestRuleExpr (buildRequestRuleExpr groups) = Ok (Some groups).
Proof. intros [Hw Hc]%all_faithful. rewrite written_back by done. unfold groups_read. by rewrite Hc. Qed.

(** *** A base and its rules *)

Lemma outer_loop_paren x : bal x → outer_loop ([40] ++ x ++ [41]) 0 = true.
Proof.
  intros Hb. cbn [app outer_loop]. change (depth_after 0 40) with 1%Z. cbn [Z.eqb andb].
  assert (∀ y z d, x = y ++ z → d = depth y 1 → outer_loop (z ++ [41]) d = true) as H.
  { intros y z. revert y. induction z as [|c z IH]; intros y d E ->.
    - rewrite app_nil_r in E. subst y. by rewrite depth_bal.
    - cbn [app outer_loop].
      assert (depth_after (depth y 1) c = depth (y ++ [c]) 1) as -> by (by rewrite depth_app).
      assert (x = (y ++ [c]) ++ z) as E' by (by rewrite <- app_assoc).
      pose proof (depth_bal_prefix _ _ _ 1 Hb E').
      rewrite (proj2 (Z.eqb_neq _ _)) by lia. cbn [andb]. by apply (IH (y ++ [c])). }
  by apply (H [] x).
Qed.

Lemma full_parens x : bal x → hasFullOuterParens ([40] ++ x ++ [41]) = true.
Proof.
  intros Hb. unfold hasFullOuterParens, ends_with. rewrite outer_loop_paren by done.
  rewrite app_assoc, rev_app_distr. reflexivity.
Qed.

Lemma unwrap_paren base :
  bal base → trim base = base → hasFullOuterParens base = false →
  unwrapOuterParens ([40] ++ base ++ [41]) = Ok base.
Proof.
  intros Hb Ht Hf. unfold unwrapOuterParens.
  replace (trim ([40] ++ base ++ [41])) with ([40] ++ base ++ [41]) by (symmetry; by apply trim_ends).
  assert (∃ n, length ([40] ++ base ++ [41]) = S n) as [n ->] by (by eexists).
  cbn [unwrap_loop]. rewrite full_parens by done.
  assert (slice 1 (length ([40] ++ base ++ [41]) - 1) ([40] ++ base ++ [41]) = base) as ->.
  { unfold slice. cbn [app drop length]. rewrite drop_0, length_app. cbn [length].
    replace (S (length base + 1) - 1 - 1)%nat with (length base) by lia. apply take_app_length. }
  by rewrite Ht, Hf.
Qed.

Definition reads (g : RequestRuleGroup) : bool := negb (compares g).

(** The groups that are rules of their own, and the others. *)
Lemma partition_rules groups :
  Forall written_group groups →
  partition_parts (map group_text groups)
  = Ok (map group_text (filterb reads groups), map group_text (filterb compares groups)).
Proof.
  induction 1 as [|g groups Hg Hgs IH]; [done|]. cbn [map partition_parts].
  assert (is_rule (factor_text (inner_text (conditions g)) (multiplier g)) = Ok (reads g)) as ->.
  { unfold is_rule. pose proof (rules_back [g] ltac:(done) ltac:(by apply Forall_singleton)) as H.
    cbn [map join] in H. rewrite H. unfold groups_read, reads. cbn [existsb orb]. by destruct (compares g). }
  unfold mbind, exc_bind. rewrite IH. unfold filterb, reads. cbn [List.filter]. by destruct (compares g).
Qed.

(** Whether the parts of a combined expression are told apart. *)
Lemma combined_parts (base : jsstr) (groups : list RequestRuleGroup) :
  base ≠ [] → bal base → trim base = base → is_rule (js "(" ++ base ++ js ")") = Ok false →
  groups ≠ [] → Forall written_group groups →
  let text := combineBillingExpr base (buildRequestRuleExpr groups) in
  trim text = text ∧ text ≠ [] ∧ (length (splitTopLevelMultiply text) <=? 1)%nat = false ∧
  partition_parts (splitTopLevelMultiply text)
  = Ok (map group_text (filterb reads groups), (js "(" ++ base ++ js ")") :: map group_text (filterb compares groups)).
Proof.
  intros Hne Hb Ht Hr Hg H. rewrite rule_expr_text by done.
  assert (map group_text groups ≠ []) as Hm by (by destruct groups).
  pose proof (group_parts groups H) as Hp. destruct (parts_solid _ _ Hm Hp) as [Hj Hjt].
  unfold combineBillingExpr. rewrite Ht, Hjt, !truthy_ne by done. cbn [negb].
  set (b := js "(" ++ base ++ js ")") in *.
  assert (part (js " * ") b) as Hpb by (by apply mul_part).
  assert (Forall (part (js " * ")) (b :: map group_text groups)) as Hall by (by apply Forall_cons).
  replace (js "(" ++ base ++ js ") * " ++ _) with (join (js " * ") (b :: map group_text groups))
    by (destruct groups as [|g groups]; [done|]; subst b; cbn [map join]; rewrite <- !app_assoc; reflexivity).
  destruct (parts_solid _ (b :: map group_text groups) ltac:(done) Hall) as [Hn Htt]. cbv zeta.
  rewrite multiply_parts by done. split; [done|]. split; [done|]. split; [by destruct groups|].
  cbn [partition_parts]. rewrite Hr, partition_rules by done. done.
Qed.

Lemma filter_reads groups :
  existsb compares groups = false → filterb reads groups = groups ∧ filterb compares groups = [].
Proof.
  unfold filterb, reads. induction groups as [|g groups IH]; [done|]. cbn [existsb List.filter].
  destruct (compares g); [done|]. cbn [negb orb]. intros [-> ->]%IH. done.
Qed.

(** With a group that compares a parameter the whole expression is taken for
    the base. *)
Lemma combine_unsplit (base : jsstr) (groups : list RequestRuleGroup) :
  base ≠ [] → bal base → trim base = base → is_rule (js "(" ++ base ++ js ")") = Ok false →
  Forall written_group groups → existsb compares groups = true →
  splitBillingExprAndRequestRules (combineBillingExpr base (buildRequestRuleExpr groups))
  = Ok (combineBillingExpr base (buildRequestRuleExpr groups), []).
Proof.
  intros Hne Hb Ht Hr Hw Hc. assert (groups ≠ []) as Hg by (by destruct groups).
  destruct (combined_parts base groups Hne Hb Ht Hr Hg Hw) as (Htt & Hn & Hl & Hp).
  unfold splitBillingExprAndRequestRules. rewrite Htt, truthy_ne, Hl, Hp by done. cbn [negb]. unfold mbind, exc_bind.
  destruct (map group_text (filterb reads groups)); [done|].
  assert (∃ g gs, filterb compares groups = g :: gs) as (g & gs & ->); [|done].
  apply existsb_exists in Hc as (g & Hin & Hg'). destruct (filterb compares groups) as [|g' gs] eqn:E; [|by eauto].
  exfalso. unfold filterb in E. assert (In g (List.filter compares groups)) as Hf by (by apply filter_In).
  by rewrite E in Hf.
Qed.

Lemma combine_split_written (base : jsstr) (groups : list RequestRuleGroup) :
  base ≠ [] → bal base → trim base = base → hasFullOuterParens base = false →
  is_rule (js "(" ++ base ++ js ")") = Ok false →
  groups ≠ [] → Forall written_group groups → existsb compares groups = false →
  splitBillingExprAndRequestRules (combineBillingExpr base (buildRequestRuleExpr groups))
  = Ok (base, buildRequestRuleExpr groups).
Proof.
  intros Hne Hb Ht Hf Hr Hg Hw Hc.
  destruct (combined_parts base groups Hne Hb Ht Hr Hg Hw) as (Htt & Hn & Hl & Hp).
  unfold splitBillingExprAndRequestRules. rewrite Htt, truthy_ne, Hl, Hp, rule_expr_text by done. cbn [negb].
  destruct (filter_reads groups Hc) as [-> ->]. unfold mbind, exc_bind.
  destruct groups as [|g groups]; [done|]. cbn [map].
  change (js "(" ++ base ++ js ")") with ([40] ++ base ++ [41]). by rewrite unwrap_paren.
Qed.

Lemma combine_split (base : jsstr) (groups : list RequestRuleGroup) :
  base ≠ [] → bal base → trim base = base → hasFullOuterParens base = false →
  is_rule (js "(" ++ base ++ js ")") = Ok false →
  groups ≠ [] → Forall faithful_group groups →
  splitBillingExprAndRequestRules (combineBillingExpr base (buildRequestRuleExpr groups))
  = Ok (base, buildRequestRuleExpr groups).
Proof. intros Hne Hb Ht Hf Hr Hg [Hw Hc]%all_faithful. by apply combine_split_written. Qed.

(** ** Properties *)

(** C28. The rules that the editor writes are read back, unless they compare
    a parameter: for a non-empty list of groups with complete conditions (times
    with numbers, parameters and headers with names and values free of quotes,
    backslashes, control characters, parentheses, [&] and [|] and of blanks at
    their ends) and numeric multipliers, tryParseRequestRuleExpr returns the
    groups that buildRequestRuleExpr got if no condition asks whether a
    parameter contains a text or compares it with a number, and otherwise
    recognises nothing, so that the whole expression is taken for the base. *)
Theorem rule_roundtrip (groups : list RequestRuleGroup) :
  groups ≠ [] → Forall written_group groups →
  tryParseRequestRuleExpr (buildRequestRuleExpr groups)
  = Ok (if existsb (λ g, existsb is_compared (conditions g)) groups then None else Some groups).
Proof. intros _. apply written_back. Qed.

(** Conditions of the examples are faithful. *)
Ltac is_plain := repeat (apply Forall_cons; split; [reflexivity|]); apply Forall_nil; done.

Lemma sample_faithful : faithful_group sample_rule.
Proof.
  split; [done|]. split; [|reflexivity].
  apply Forall_cons; split; [apply faithful_equals; [done|is_plain|done|is_plain|done]|].
  apply Forall_cons; split; [apply faithful_range; [done|is_plain|done|done]|].
  apply Forall_cons; split; [apply faithful_contains; [done|is_plain|done|is_plain|done]|].
  apply Forall_cons; split; [apply faithful_equals; [done|is_plain|done|is_plain|done]|].
  apply Forall_nil; done.
Qed.

Definition compared_rule : RequestRuleGroup :=
  RuleGroup [ParamHeaderCondition Param (js "n") MATCH_GTE (js "5"); ParamHeaderCondition Header (js "A") MATCH_EXISTS []] (js "2").

Lemma compared_rule_written : written_group compared_rule.
Proof.
  split; [done|]. split; [|reflexivity].
  apply Forall_cons; split; [apply editable_compared; [done|is_plain|done|left; split; [set_solver|reflexivity]]|].
  apply Forall_singleton, editable_faithful, faithful_exists; [done|is_plain|done].
Qed.

Lemma rule_roundtrip_witness :
  tryParseRequestRuleExpr (buildRequestRuleExpr [sample_rule; sample_rule]) = Ok (Some [sample_rule; sample_rule]) ∧
  tryParseRequestRuleExpr (buildRequestRuleExpr [sample_rule; compared_rule]) = Ok None.
Proof.
  pose proof (proj1 (faithful_written _ sample_faithful)) as Hs. pose proof compared_rule_written as Hc.
  split; [exact (rule_roundtrip [sample_rule; sample_rule] ltac:(done) ltac:(by repeat constructor))|].
  exact (rule_roundtrip [sample_rule; compared_rule] ltac:(done) ltac:(by repeat constructor)).
Defined.

(** A base expression and its rules survive being combined into one
    expression and split again: for a base with balanced parentheses that is
    trimmed, not itself wrapped in parentheses and, in parentheses, not read
    as a rule. *)
Theorem combine_split_roundtrip (base : jsstr) (groups : list RequestRuleGroup) :
  base ≠ [] → bal base → trim base = base → hasFullOuterParens base = false →
  is_rule (js "(" ++ base ++ js ")") = Ok false →
  groups ≠ [] → Forall faithful_group groups →
  splitBillingExprAndRequestRules (combineBillingExpr base (buildRequestRuleExpr groups))
  = Ok (base, buildRequestRuleExpr groups).
Proof. apply combine_split. Qed.

Lemma combine_split_roundtrip_witness :
  splitBillingExprAndRequestRules
    (combineBillingExpr (jsq "len <= 200000 ? tier('a', p * 2) : tier('b', p * 3)")
       (buildRequestRuleExpr [sample_rule]))
  = Ok (jsq "len <= 200000 ? tier('a', p * 2) : tier('b', p * 3)", buildRequestRuleExpr [sample_rule]).
Proof.
  apply combine_split_roundtrip.
  - done.
  - change (bal (jsq "len <= 200000 ? tier" ++ ([40] ++ jsq "'a', p * 2" ++ [41]) ++ js " : tier"
                 ++ ([40] ++ jsq "'b', p * 3" ++ [41]))).
    apply bal_app; [apply bal_flat; concrete|]. apply bal_app; [apply bal_paren, bal_flat; concrete|].
    apply bal_app; [apply bal_flat; concrete|]. apply bal_paren, bal_flat; concrete.
  - vm_compute. reflexivity.
  - vm_compute. reflexivity.
  - vm_compute. reflexivity.
  - done.
  - apply Forall_cons; split; [exact sample_faithful|]. apply Forall_nil; done.
Defined.

(** A condition that compares a parameter with a number, or asks whether
    it contains a text, is written as a test for existence and the condition
    proper joined by [&&]; the reader cuts the text there and does not know
    the second half, so the rule that the editor wrote is not recognised. *)
Theorem param_comparison_lost (path mode v m : jsstr) :
  path ≠ [] → plain path → trim path = path → compared mode v → is_numeric m = true →
  buildRequestRuleExpr [RuleGroup [ParamHeaderCondition Param path mode v] m] ≠ [] ∧
  tryParseRequestRuleExpr (buildRequestRuleExpr [RuleGroup [ParamHeaderCondition Param path mode v] m])
  = Ok None.
Proof.
  intros Hne Hp Ht Hc Hm. assert (written_group (RuleGroup [ParamHeaderCondition Param path mode v] m)) as Hw
    by (split; [done|]; split; [by apply Forall_singleton, editable_compared|done]).
  split; [by rewrite rule_expr_text by (by apply Forall_singleton)|].
  rewrite written_back by (by apply Forall_singleton). unfold groups_read, compares. cbn [existsb conditions is_compared].
  by rewrite (compared_mode mode v).
Qed.

Lemma param_comparison_lost_witness :
  compared MATCH_GTE (js "5") ∧
  tryParseRequestRuleExpr (buildRequestRuleExpr
    [RuleGroup [ParamHeaderCondition Param (js "n") MATCH_GTE (js "5")] (js "2")]) = Ok None.
Proof.
  assert (compared MATCH_GTE (js "5")) as Hc by (left; split; [set_solver|reflexivity]).
  split; [exact Hc|]. apply param_comparison_lost; [done|is_plain|done|exact Hc|done].
Defined.
