(* ===== verification/TierExpr.v ===== *)
(** * Tier expressions

    Model of src/web/default/src/features/pricing/lib/tier-expr.ts and of the
    tier half of billing-expr.ts: the visual configuration of tiers, the
    expression that is written for it, and the two parsers, one for the editor
    (tryParseVisualConfig) and one for the display (parseTiersFromExpr).

    A tier has the members that its type names; a member that is missing is
    [None].  evalExprLocally compiles an expression with the JavaScript engine
    and is not modelled. *)
From S2P Require Import Prelude JsString JsNumber Regex JsValue BillingRules.

Open Scope N_scope.

(** ** The variables of an expression *)

Inductive Side := SideInput | SideOutput | SideCondition.

Record BillingVar := Var {
  var_key : jsstr;
  var_field : option jsstr;
  var_tierField : option jsstr;
  var_label : jsstr;
  var_shortLabel : jsstr;
  var_side : Side;
  var_isBase : bool;
  var_isConditionOnly : bool;
  var_group : option jsstr;
}.

Definition BILLING_VARS : list BillingVar :=
  [Var (js "p") (Some (js "inputPrice")) (Some (js "input_unit_cost")) (js "Input price")
     (js "Input") SideInput true false None;
   Var (js "c") (Some (js "outputPrice")) (Some (js "output_unit_cost")) (js "Completion price")
     (js "Output") SideOutput true false None;
   Var (js "len") None None (js "Input length") (js "Length") SideCondition false true None;
   Var (js "cr") (Some (js "cacheReadPrice")) (Some (js "cache_read_unit_cost")) (js "Cache read price")
     (js "Cache Read") SideInput false false (Some (js "cache"));
   Var (js "cc") (Some (js "cacheCreatePrice")) (Some (js "cache_create_unit_cost"))
     (js "Cache create price") (js "Cache Write") SideInput false false (Some (js "cache"));
   Var (js "cc1h") (Some (js "cacheCreate1hPrice")) (Some (js "cache_create_1h_unit_cost"))
     (js "Cache create (1h) price") (js "Cache Write (1h)") SideInput false false (Some (js "cache"));
   Var (js "img") (Some (js "imagePrice")) (Some (js "image_unit_cost")) (js "Image input price")
     (js "Image In") SideInput false false (Some (js "media"));
   Var (js "img_o") (Some (js "imageOutputPrice")) (Some (js "image_output_unit_cost"))
     (js "Image output price") (js "Image Out") SideOutput false false (Some (js "media"));
   Var (js "ai") (Some (js "audioInputPrice")) (Some (js "audio_input_unit_cost"))
     (js "Audio input price") (js "Audio In") SideInput false false (Some (js "media"));
   Var (js "ao") (Some (js "audioOutputPrice")) (Some (js "audio_output_unit_cost"))
     (js "Audio output price") (js "Audio Out") SideOutput false false (Some (js "media"))].

Definition BILLING_PRICING_VARS : list BillingVar := filterb (λ v, negb (var_isConditionOnly v)) BILLING_VARS.
Definition BILLING_CONDITION_VARS : list jsstr :=
  map var_key (filterb (λ v, var_isBase v || var_isConditionOnly v) BILLING_VARS).
Definition BILLING_VAR_KEY_TO_FIELD : list (jsstr * jsstr) :=
  map (λ v, (var_key v, from_opt [] (var_field v))) BILLING_PRICING_VARS.
Definition BILLING_EXTRA_VARS : list BillingVar :=
  filterb (λ v, negb (var_isBase v) && negb (var_isConditionOnly v)) BILLING_VARS.
(** The tier member and the variable of each further price. *)
Definition BILLING_CACHE_VAR_MAP : list (jsstr * jsstr) :=
  map (λ v, (from_opt [] (var_tierField v), var_key v)) BILLING_EXTRA_VARS.

(** ** Configurations *)

Inductive CacheMode := CACHE_MODE_TIMED | CACHE_MODE_GENERIC.
Inductive TierVar := VarP | VarC | VarLen.
Inductive TierOp := OpLt | OpLe | OpGt | OpGe.
(** [number | string]. *)
Inductive InputValue := NumberValue (x : num) | TextValue (s : jsstr).

Record TierConditionInput := TierCondition { tc_var : TierVar; tc_op : TierOp; tc_value : InputValue }.

#[export] Instance cache_mode_eq_dec : EqDecision CacheMode.
Proof. solve_decision. Defined.
#[export] Instance tier_var_eq_dec : EqDecision TierVar.
Proof. solve_decision. Defined.
#[export] Instance tier_op_eq_dec : EqDecision TierOp.
Proof. solve_decision. Defined.
#[export] Instance value_eq_dec : EqDecision InputValue.
Proof. solve_decision. Defined.
#[export] Instance tier_condition_eq_dec : EqDecision TierConditionInput.
Proof. solve_decision. Defined.

Record VisualTier := Tier {
  tier_label : jsstr;
  tier_conditions : list TierConditionInput;
  input_unit_cost : num;
  output_unit_cost : num;
  cache_mode : CacheMode;
  cache_read_unit_cost : option num;
  cache_create_unit_cost : option num;
  cache_create_1h_unit_cost : option num;
  image_unit_cost : option num;
  image_output_unit_cost : option num;
  audio_input_unit_cost : option num;
  audio_output_unit_cost : option num;
}.

(** [Partial<VisualTier>]. *)
Record PartialTier := PTier {
  pt_label : option jsstr;
  pt_conditions : option (list TierConditionInput);
  pt_input : option num;
  pt_output : option num;
  pt_cache_mode : option CacheMode;
  pt_cache_read : option num;
  pt_cache_create : option num;
  pt_cache_create_1h : option num;
  pt_image : option num;
  pt_image_output : option num;
  pt_audio_input : option num;
  pt_audio_output : option num;
}.

#[export] Instance tier_eq_dec : EqDecision VisualTier.
Proof. solve_decision. Defined.

(** A configuration is its list of tiers. *)
Definition VisualConfig : Type := list VisualTier.

Definition nzero : num := of_Z 0.

(** [Number(x) || 0]. *)
Definition cost (o : option num) : num := match o with Some x => num_or x nzero | None => nzero end.

Definition getTierCacheMode (t : PartialTier) : CacheMode :=
  match pt_cache_mode t with
  | Some m => m
  | None =>
      match pt_cache_create_1h t with
      | Some x => if nltb nzero x then CACHE_MODE_TIMED else CACHE_MODE_GENERIC
      | None => CACHE_MODE_GENERIC
      end
  end.

(** The members of [tier] replace the defaults before it. *)
Definition normalizeVisualTier (t : PartialTier) : VisualTier := {|
  tier_label := from_opt [] (pt_label t);
  tier_conditions := from_opt [] (pt_conditions t);
  input_unit_cost := from_opt nzero (pt_input t);
  output_unit_cost := from_opt nzero (pt_output t);
  cache_mode := getTierCacheMode t;
  cache_read_unit_cost := Some (cost (pt_cache_read t));
  cache_create_unit_cost := Some (cost (pt_cache_create t));
  cache_create_1h_unit_cost := Some (cost (pt_cache_create_1h t));
  image_unit_cost := Some (cost (pt_image t));
  image_output_unit_cost := Some (cost (pt_image_output t));
  audio_input_unit_cost := Some (cost (pt_audio_input t));
  audio_output_unit_cost := Some (cost (pt_audio_output t));
|}.

(** A tier as a partial one. *)
Definition partial (t : VisualTier) : PartialTier :=
  PTier (Some (tier_label t)) (Some (tier_conditions t)) (Some (input_unit_cost t))
    (Some (output_unit_cost t)) (Some (cache_mode t)) (cache_read_unit_cost t)
    (cache_create_unit_cost t) (cache_create_1h_unit_cost t) (image_unit_cost t)
    (image_output_unit_cost t) (audio_input_unit_cost t) (audio_output_unit_cost t).

Definition createDefaultVisualConfig : VisualConfig :=
  [normalizeVisualTier (PTier (Some (js "base")) (Some []) (Some nzero) (Some nzero)
     (Some CACHE_MODE_GENERIC) None None None None None None None)].

Definition normalizeVisualConfig (config : option VisualConfig) : VisualConfig :=
  match config with
  | None | Some [] => createDefaultVisualConfig
  | Some tiers => map (λ t, normalizeVisualTier (partial t)) tiers
  end.

(** ** Writing *)

Definition var_text (v : TierVar) : jsstr :=
  match v with VarP => js "p" | VarC => js "c" | VarLen => js "len" end.
Definition op_text (o : TierOp) : jsstr :=
  match o with OpLt => js "<" | OpLe => js "<=" | OpGt => js ">" | OpGe => js ">=" end.
Definition value_text (v : InputValue) : jsstr :=
  match v with NumberValue x => num_to_str x | TextValue s => s end.

Definition condition_str (c : TierConditionInput) : jsstr :=
  var_text (tc_var c) ++ js " " ++ op_text (tc_op c) ++ js " " ++ value_text (tc_value c).

Definition buildConditionStr (conditions : list TierConditionInput) : jsstr :=
  join (js " && ")
    (map condition_str
       (filterb (λ c, match tc_value c with TextValue [] => false | _ => true end) conditions)).

(** [tier[field]] for the members of the further prices. *)
Definition tier_field (t : VisualTier) (field : jsstr) : option num :=
  find_first (λ e, str_eqb e.1 field)
    [(js "cache_read_unit_cost", cache_read_unit_cost t);
     (js "cache_create_unit_cost", cache_create_unit_cost t);
     (js "cache_create_1h_unit_cost", cache_create_1h_unit_cost t);
     (js "image_unit_cost", image_unit_cost t);
     (js "image_output_unit_cost", image_output_unit_cost t);
     (js "audio_input_unit_cost", audio_input_unit_cost t);
     (js "audio_output_unit_cost", audio_output_unit_cost t)] ≫= snd.

Definition price_part (v : jsstr) (x : num) : jsstr := v ++ js " * " ++ num_to_str x.

Definition extra_parts (t : VisualTier) : list jsstr :=
  map (λ e, price_part e.1 e.2)
    (filterb (λ e, negb (neqb e.2 nzero))
       (map (λ cv, (cv.2, cost (tier_field t cv.1))) BILLING_CACHE_VAR_MAP)).

Definition buildTierBodyExpr (t : VisualTier) : jsstr :=
  join (js " + ")
    (price_part (js "p") (num_or (input_unit_cost t) nzero)
     :: price_part (js "c") (num_or (output_unit_cost t) nzero) :: extra_parts t).

Definition tier_call (label : jsstr) (t : VisualTier) : jsstr :=
  jsq "tier('" ++ label ++ jsq "', " ++ buildTierBodyExpr t ++ js ")".

(** [i < tiers.length - 1]. *)
Definition has_more {A} (l : list A) : bool := match l with [] => false | _ => true end.

(** The parts of several tiers; [i] is the index of the first one. *)
Fixpoint tier_parts (i : nat) (tiers : VisualConfig) : list jsstr :=
  match tiers with
  | [] => []
  | t :: rest =>
      let body := tier_call (str_or (tier_label t) (js "tier_" ++ dec (N.of_nat (i + 1)))) t in
      let cond := buildConditionStr (tier_conditions t) in
      (if truthy cond && has_more rest then cond ++ js " ? " ++ body else body)
      :: tier_parts (i + 1) rest
  end.

Definition generateExprFromVisualConfig (config : option VisualConfig) : jsstr :=
  match config with
  | None | Some [] => js "p * 0 + c * 0"
  | Some [t] =>
      let body := tier_call (str_or (tier_label t) (js "default")) t in
      let cond := buildConditionStr (tier_conditions t) in
      if truthy cond then cond ++ js " ? " ++ body ++ js " : p * 0 + c * 0" else body
  | Some tiers => join (js " : ") (tier_parts 0 tiers)
  end.

(** ** Patterns *)

Definition ws : re := RStar (RChr is_ws).
(** [[\d.eE+]]. *)
Definition cond_char (c : N) : bool := is_digit c || bool_decide (c ∈ [46; 101; 69; 43]).

Definition var_re : re := ralt (RLit (js "p")) [RLit (js "c"); RLit (js "len")].
Definition op_re : re := ralt (RLit (js "<")) [RLit (js "<="); RLit (js ">"); RLit (js ">=")].
(** One comparison. *)
Definition comparison_re : re := rseq [var_re; ws; op_re; ws; RPlus (RChr cond_char)].
Definition more_re : re := rseq [ws; RLit (js "&&"); ws; comparison_re].
Definition condGroup : re := RGrp 1 (RSeq comparison_re (RStar more_re)).

(** A variable, an asterisk and a captured number. *)
Definition price_re (v : jsstr) (n : nat) : list re := [RLit v; ws; RLit (js "*"); ws; num_group n].
Definition optional_price (v : jsstr) (n : nat) : re := ROpt (rseq ([ws; RLit (js "+"); ws] ++ price_re v n)).

(** [optCacheStr]: the further prices, with groups from [n] on. *)
Fixpoint optional_prices (n : nat) (vars : list jsstr) : list re :=
  match vars with [] => [] | v :: vars => optional_price v n :: optional_prices (S n) vars end.

(** [bodyPat], with groups from [n] on. *)
Definition bodyPat (n : nat) : list re :=
  price_re (js "p") n ++ [ws; RLit (js "+"); ws] ++ price_re (js "c") (S n)
  ++ optional_prices (S (S n)) (map snd BILLING_CACHE_VAR_MAP).

(** The name of the call, a quoted label and a comma. *)
Definition tier_head (n : nat) : list re :=
  [RLit (jsq "tier('"); RGrp n (RStar (RChr not_quote)); RLit (jsq "',"); ws].

Definition singleRe : re := rseq (tier_head 1 ++ bodyPat 2 ++ [RLit (js ")"); REnd]).
Definition cond_prefix : re := ROpt (rseq [condGroup; ws; RLit (js "?"); ws]).
Definition tierRe : re := rseq ([cond_prefix] ++ tier_head 2 ++ bodyPat 3 ++ [RLit (js ")")]).
(** The pattern of parseTiersFromExpr. *)
Definition display_tier_re : re :=
  rseq ([cond_prefix] ++ tier_head 2 ++ [RGrp 3 (RPlus (RChr (λ c, negb (c =? 41)))); RLit (js ")")]).

Definition and_re : re := rseq [ws; RLit (js "&&"); ws].
Definition condition_re : re :=
  rseq [RGrp 1 var_re; ws; RGrp 2 op_re; ws; RGrp 3 (RPlus (RChr cond_char)); REnd].
Definition version_re : re :=
  rseq [RLit (js "v"); RGrp 1 digits; RLit (js ":"); RGrp 2 (RStar (RChr any_char)); REnd].
(** Alternatives of literals. *)
Definition literals (ks : list jsstr) : re :=
  match map RLit ks with r :: l => ralt r l | [] => RLit [] end.
Definition BILLING_VAR_REGEX : re :=
  rseq [RWord; RGrp 1 (literals (map var_key BILLING_PRICING_VARS)); ws; RLit (js "*"); ws; num_group 2].

(** ** Reading *)

Definition var_of (s : jsstr) : TierVar :=
  if str_eqb s (js "p") then VarP else if str_eqb s (js "c") then VarC else VarLen.
Definition op_of (s : jsstr) : TierOp :=
  if str_eqb s (js "<") then OpLt else if str_eqb s (js "<=") then OpLe
  else if str_eqb s (js ">") then OpGt else OpGe.

(** One part of the conditions; what is no comparison is left out. *)
Definition read_condition (cp : jsstr) : list TierConditionInput :=
  match rx_match condition_re (trim cp) with
  | Some g => [TierCondition (var_of (grp 1 g)) (op_of (grp 2 g)) (NumberValue (str_to_num (grp 3 g)))]
  | None => []
  end.

Definition read_conditions (condStr : jsstr) : exc (list TierConditionInput) :=
  if truthy condStr then parts ← rx_split and_re condStr; Ok (concat (map read_condition parts))
  else Ok [].

(** The tier of a match, with the label in group [n] and the prices after it. *)
Definition read_tier (n : nat) (conditions : list TierConditionInput) (m : caps) : PartialTier :=
  let price i := str_to_num <$> cap (n + i) m in
  PTier (Some (grp n m)) (Some conditions) (Some (str_to_num (grp (n + 1) m)))
    (Some (str_to_num (grp (n + 2) m))) None
    (price 3%nat) (price 4%nat) (price 5%nat) (price 6%nat) (price 7%nat) (price 8%nat) (price 9%nat).

Fixpoint read_tiers (matches : list caps) : exc VisualConfig :=
  match matches with
  | [] => Ok []
  | m :: matches =>
      conditions ← read_conditions (grp 1 m);
      tiers ← read_tiers matches;
      Ok (normalizeVisualTier (read_tier 2 conditions m) :: tiers)
  end.

(** [text.replace(/\s+/g, '')]. *)
Definition remove_ws : jsstr → jsstr := replace_class is_ws [].

(** The text after a version. *)
Definition expr_body (exprStr : jsstr) : jsstr :=
  match rx_match version_re exprStr with Some g => grp 2 g | None => exprStr end.

(** The tiers that a text consists of, if writing them gives the text again. *)
Definition parse_several (body : jsstr) : exc (option VisualConfig) :=
  matches ← rx_matches tierRe body;
  tiers ← read_tiers matches;
  match tiers with
  | [] => Ok None
  | _ =>
      let cfg := normalizeVisualConfig (Some tiers) in
      let regenerated := generateExprFromVisualConfig (Some cfg) in
      Ok (if str_eqb (remove_ws regenerated) (remove_ws body) then Some cfg else None)
  end.

Definition tryParseVisualConfig (exprStr : option jsstr) : exc (option VisualConfig) :=
  let e := from_opt [] exprStr in
  if negb (truthy e) then Ok None
  else
    let body := expr_body e in
    match rx_match singleRe body with
    | Some m => Ok (Some (normalizeVisualConfig (Some [normalizeVisualTier (read_tier 1 [] m)])))
    | None => parse_several body
    end.

(** *** For the display *)

Definition stripExprVersion (exprStr : jsstr) : num * jsstr :=
  if truthy exprStr then
    match rx_match version_re exprStr with
    | Some g => (str_to_num (grp 1 g), grp 2 g)
    | None => (of_Z 1, exprStr)
    end
  else (of_Z 1, []).

(** A tier with its prices by field. *)
Record ParsedTier := Parsed {
  parsed_prices : list (jsstr * num);
  parsed_label : jsstr;
  parsed_conditions : list TierConditionInput;
}.

(** The first coefficient of every variable, in the order of the text. *)
Definition add_coefficient (coeffs : list (jsstr * num)) (m : caps) : list (jsstr * num) :=
  if includes (grp 1 m) (map fst coeffs) then coeffs
  else coeffs ++ [(grp 1 m, str_to_num (grp 2 m))].

Definition coefficient (coeffs : list (jsstr * num)) (v : jsstr) : num :=
  cost (snd <$> find_first (λ e, str_eqb e.1 v) coeffs).

Definition parseTierBody (bodyStr : jsstr) : exc (list (jsstr * num)) :=
  matches ← rx_matches BILLING_VAR_REGEX bodyStr;
  let coeffs := fold_left add_coefficient matches [] in
  Ok (map (λ e, (e.2, coefficient coeffs e.1)) BILLING_VAR_KEY_TO_FIELD).

Fixpoint parse_tiers (matches : list caps) : exc (list ParsedTier) :=
  match matches with
  | [] => Ok []
  | m :: matches =>
      conditions ← read_conditions (grp 1 m);
      prices ← parseTierBody (grp 3 m);
      tiers ← parse_tiers matches;
      Ok (Parsed prices (grp 2 m) conditions :: tiers)
  end.

Definition parseTiersFromExpr (exprStr : jsstr) : exc (list ParsedTier) :=
  if truthy exprStr then
    matches ← rx_matches display_tier_re (stripExprVersion exprStr).2;
    parse_tiers matches
  else Ok [].

(** ** Evaluations *)

Definition sample_tiers : VisualConfig :=
  [Tier (js "small") [TierCondition VarLen OpLe (NumberValue (of_Z 200000));
                      TierCondition VarC OpLt (NumberValue (of_Z 4000))]
     (of_Z 3) (str_to_num (js "0.25")) CACHE_MODE_TIMED (Some nzero) (Some (str_to_num (js "3.75")))
     (Some (of_Z 6)) (Some nzero) (Some (str_to_num (js "1e-7"))) (Some nzero) (Some (of_Z 2));
   Tier (js "large") [] (of_Z 6) (str_to_num (js "22.5")) CACHE_MODE_GENERIC (Some nzero) (Some nzero)
     (Some nzero) (Some nzero) (Some nzero) (Some nzero) (Some nzero)].

Example sample_text :
  generateExprFromVisualConfig (Some sample_tiers)
  = jsq "len <= 200000 && c < 4000 ? tier('small', p * 3 + c * 0.25 + cc * 3.75 + cc1h * 6 + img_o * 1e-7 + ao * 2) : tier('large', p * 6 + c * 22.5)".
Proof. vm_compute. reflexivity. Qed.

Example sample_parse :
  tryParseVisualConfig (Some (generateExprFromVisualConfig (Some sample_tiers))) = Ok (Some sample_tiers).
Proof. vm_compute. reflexivity. Qed.

Example sample_display :
  map (λ t, (parsed_label t, map snd (parsed_prices t))) <$>
    match parseTiersFromExpr (generateExprFromVisualConfig (Some sample_tiers)) with
    | Ok l => Some l | _ => None
    end
  = Some [(js "small", [of_Z 3; str_to_num (js "0.25"); nzero; str_to_num (js "3.75"); of_Z 6; nzero;
                        str_to_num (js "1e-7"); nzero; of_Z 2]);
          (js "large", [of_Z 6; str_to_num (js "22.5"); nzero; nzero; nzero; nzero; nzero; nzero; nzero])].
Proof. vm_compute. reflexivity. Qed.
