(* ===== verification/TierFacts.v ===== *)
(** * Reading back tier expressions

    What the patterns of [TierExpr] match in the texts that the editor
    writes: prices, conditions and the call of a tier, and how the captured
    texts are read. *)
From S2P Require Import Prelude JsString JsNumber Regex JsValue BillingRules BillingRuleFacts TierExpr.

Open Scope N_scope.

(** ** Blanks, literals and numbers *)

Section Tokens.
Context {X : Type}.
Implicit Types (k : cont X) (p : option N) (s x w : jsstr) (g : caps).

Lemma rseq_app l1 l2 p s g k :
  run (rseq (l1 ++ l2)) p s g k = run (rseq l1) p s g (λ p' s' g', run (rseq l2) p' s' g' k).
Proof.
  revert p s g. induction l1 as [|r l1 IH]; intros p s g; [done|].
  destruct l1 as [|r' l1].
  - cbn [app rseq]. destruct l2 as [|r2 l2]; [|done]. cbn [rseq]. apply run_ext. done.
  - cbn [app rseq] in *. rewrite !run_seq. apply run_ext. intros p' s' g' _. apply IH.
Qed.

Lemma rseq_cons r l p s g k :
  run (rseq (r :: l)) p s g k = run r p s g (λ p' s' g', run (rseq l) p' s' g' k).
Proof. apply (rseq_app [r] l). Qed.

(** Blanks are skipped if what follows cannot start with one. *)
Lemma ws_run w p s g k :
  Forall (λ c, is_ws c = true) w → outside is_ws s = true →
  (∀ p' c t g', is_ws c = true → k p' (c :: t) g' = None) →
  run ws p (w ++ s) g k = k (lastc p w) s g.
Proof.
  intros Hw Hs Hk. apply (star_all _ is_ws); [done|done|done|intros c; by apply outside_head|].
  intros p' y [|c z] -> Hz; [done|]. apply Forall_app in Hw as [_ Hw].
  apply Forall_cons in Hw as [Hc _]. by apply Hk.
Qed.

(** A literal that does not start with a blank. *)
Definition solid_lit (l : jsstr) : bool := truthy l && outside is_ws l.

Lemma lit_no_ws l p c t g k : solid_lit l = true → is_ws c = true → run (RLit l) p (c :: t) g k = None.
Proof.
  intros Hl Hc. apply andb_true_iff in Hl as [Hl Ho]. destruct l as [|d l]; [done|]. cbn in Ho.
  apply run_lit_fail, starts_cons_ne. intros ->. by rewrite Hc in Ho.
Qed.

Lemma ws_lit w l r p s g k :
  solid_lit l = true → Forall (λ c, is_ws c = true) w → outside is_ws s = true →
  run (rseq (ws :: RLit l :: r)) p (w ++ s) g k = run (rseq (RLit l :: r)) (lastc p w) s g k.
Proof.
  intros Hl Hw Hs. rewrite rseq_cons, ws_run; [done|done|done|].
  intros p' c t g' Hc. rewrite rseq_cons. by apply lit_no_ws.
Qed.

Lemma ws_here p s g k :
  outside is_ws s = true → (∀ p' c t g', is_ws c = true → k p' (c :: t) g' = None) →
  run ws p s g k = k p s g.
Proof. intros Hs Hk. by apply (ws_run []). Qed.

Lemma lit_here l r p s g k :
  solid_lit l = true → outside is_ws s = true →
  run (rseq (ws :: RLit l :: r)) p s g k = run (rseq (RLit l :: r)) p s g k.
Proof. intros Hl Hs. by apply (ws_lit []). Qed.

(** The text of a number: characters of numbers, with no plus at the end. *)
Definition numeral (x : jsstr) : Prop :=
  x ≠ [] ∧ Forall (λ c, num_char c = true) x ∧ ∀ y, x ≠ y ++ [43].

(** [k] fails inside a number. *)
Definition stops k : Prop :=
  ∀ p c t g, num_char c = true → (c = 43 → ∃ d t', t = d :: t' ∧ num_char d = true) → k p (c :: t) g = None.

Lemma numeral_suffix x y c z s :
  numeral x → x = y ++ c :: z →
  num_char c = true ∧ (c = 43 → ∃ d t', z ++ s = d :: t' ∧ num_char d = true).
Proof.
  intros (_ & Hx & Hp) ->. apply Forall_app in Hx as [_ Hx]. apply Forall_cons in Hx as [Hc Hz].
  split; [done|]. intros ->. destruct z as [|d z]; [by destruct (Hp y)|].
  apply Forall_cons in Hz as [Hd _]. by exists d, (z ++ s).
Qed.

Lemma num_run n x p s g k :
  numeral x → outside num_char s = true → stops k →
  run (num_group n) p (x ++ s) g k = k (lastc p x) s ((n, x) :: g).
Proof.
  intros Hx Hs Hk. unfold num_group. rewrite run_grp, plus_all; [|by apply Hx|apply Hx| |].
  - by rewrite length_app, Nat.add_sub, take_app_length.
  - intros c. by apply outside_head.
  - intros p' y [|c z] E _ Hz; [done|]. apply Hk; by eapply numeral_suffix.
Qed.

Lemma num_no_ws n p c t g k : is_ws c = true → run (num_group n) p (c :: t) g k = None.
Proof.
  intros Hc. unfold num_group, RPlus. rewrite run_grp, run_seq, run_chr_cons.
  destruct (num_char c) eqn:E; [|done]. apply num_char_facts in E as [E _]. congruence.
Qed.

Lemma numeral_no_ws x s : numeral x → outside is_ws (x ++ s) = true.
Proof.
  intros (Hne & Hx & _). destruct x as [|c x]; [done|]. apply Forall_cons in Hx as [Hc _].
  apply num_char_facts in Hc as [Hc _]. cbn. by rewrite Hc.
Qed.

Lemma blank : Forall (λ c, is_ws c = true) (js " ").
Proof. by repeat constructor. Qed.

End Tokens.

(** ** Prices *)

Section Prices.
Context {X : Type}.
Implicit Types (k : cont X) (p : option N) (s t : jsstr) (g : caps).

Lemma price_run v n x p s g k :
  solid_lit v = true → numeral (num_to_str x) → outside num_char s = true → stops k →
  run (rseq (price_re v n)) p (price_part v x ++ s) g k
  = k (lastc p (price_part v x)) s ((n, num_to_str x) :: g).
Proof.
  intros Hv Hx Hs Hk. unfold price_part, price_re.
  change (js " * ") with (js " " ++ js "*" ++ js " "). rewrite <- !app_assoc, rseq_cons, run_lit_app.
  rewrite ws_lit; [|done|apply blank|done]. rewrite rseq_cons, run_lit_app, rseq_cons.
  rewrite ws_run; [|apply blank|by apply numeral_no_ws|intros; by apply num_no_ws].
  cbn [rseq]. rewrite num_run by done. by rewrite !lastc_app.
Qed.

Lemma price_no_ws v n p c t g k :
  solid_lit v = true → is_ws c = true → run (rseq (price_re v n)) p (c :: t) g k = None.
Proof. intros Hv Hc. unfold price_re. rewrite rseq_cons. by apply lit_no_ws. Qed.

(** The plus before a price. *)
Lemma plus_run v n p s g k :
  solid_lit v = true → outside is_ws s = true →
  run (rseq ([ws; RLit (js "+"); ws] ++ price_re v n)) p (js " + " ++ s) g k
  = run (rseq (price_re v n)) (lastc p (js " + ")) s g k.
Proof.
  intros Hv Hs. change (js " + ") with (js " " ++ js "+" ++ js " "). rewrite <- !app_assoc.
  cbn [app]. rewrite ws_lit; [|done|apply blank|done]. rewrite rseq_cons, run_lit_app, rseq_cons.
  rewrite ws_run; [|apply blank|done|intros; by apply price_no_ws]. by rewrite !lastc_app.
Qed.

Lemma plus_fails r p c t g k :
  is_ws c = false → c ≠ 43 → run (rseq ([ws; RLit (js "+"); ws] ++ r)) p (c :: t) g k = None.
Proof.
  intros Hc Hp. cbn [app]. rewrite lit_here; [|done|cbn; by rewrite Hc].
  rewrite rseq_cons. by apply run_lit_fail, starts_cons_ne.
Qed.

(** A price with a plus fails inside a number. *)
Lemma plus_stops v n k :
  solid_lit v && outside num_char v = true →
  stops (λ p s g, run (rseq ([ws; RLit (js "+"); ws] ++ price_re v n)) p s g k).
Proof.
  intros Hv p c t g Hc Ht. bool_to_prop. pose proof (num_char_facts c Hc) as (Hw & _).
  destruct (decide (c = 43)) as [-> |Hp]; [|by apply plus_fails].
  destruct (Ht eq_refl) as (d & t' & -> & Hd). cbn [app]. rewrite lit_here by done.
  change (43 :: d :: t') with (js "+" ++ d :: t'). rewrite rseq_cons, run_lit_app, rseq_cons.
  apply num_char_facts in Hd as Hd'. destruct Hd' as (Hdw & _).
  rewrite ws_here; [|cbn; by rewrite Hdw|intros; by apply price_no_ws].
  unfold price_re. rewrite rseq_cons. destruct v as [|e v]; [done|].
  apply run_lit_fail, starts_cons_ne. intros <-. cbn in *. by rewrite Hd in *.
Qed.

(** No text of a price of [v'] is one of a price of [v]. *)
Definition apart (v v' : jsstr) : bool :=
  if starts_with v (v' ++ js " * ") then
    match drop (length v) (v' ++ js " * ") with
    | c :: _ => negb (is_ws c) && negb (c =? 42)
    | [] => false
    end
  else negb (starts_with (v' ++ js " * ") v).

Lemma starts_with_differ l s t :
  starts_with l s = false → starts_with s l = false → starts_with l (s ++ t) = false.
Proof.
  revert s. induction l as [|c l IH]; intros [|d s] H1 H2; try done; cbn in *.
  rewrite N.eqb_sym in H2. destruct (c =? d); [by apply IH|done].
Qed.

Lemma apart_lit v v' p t g k :
  apart v v' = true → (∀ p' c u g', is_ws c = false → c ≠ 42 → k p' (c :: u) g' = None) →
  run (RLit v) p (v' ++ js " * " ++ t) g k = None.
Proof.
  unfold apart. rewrite (app_assoc v'). destruct (starts_with v (v' ++ js " * ")) eqn:E; intros Ha Hk.
  - apply starts_with_spec in E as [u Eu]. rewrite Eu in *. rewrite drop_app_length in Ha.
    destruct u as [|c u]; [done|]. bool_to_prop. rewrite <- app_assoc, run_lit_app. by apply Hk.
  - apply run_lit_fail, starts_with_differ; [done|by apply negb_true_iff].
Qed.

Lemma times_fails r p c u g k :
  is_ws c = false → c ≠ 42 → run (rseq (ws :: RLit (js "*") :: r)) p (c :: u) g k = None.
Proof.
  intros Hc Hn. rewrite lit_here; [|done|cbn; by rewrite Hc]. rewrite rseq_cons.
  by apply run_lit_fail, starts_cons_ne.
Qed.

Lemma price_apart v v' n p t g k :
  apart v v' = true → run (rseq (price_re v n)) p (v' ++ js " * " ++ t) g k = None.
Proof.
  intros Ha. unfold price_re. rewrite rseq_cons. apply apart_lit; [done|].
  intros. by apply times_fails.
Qed.

End Prices.

(** ** The further prices of a tier *)

(** The prices that are written. *)
Definition shown (vs : list (jsstr * num)) : list (jsstr * num) := filterb (λ e, negb (neqb e.2 nzero)) vs.

Definition extra_text (vs : list (jsstr * num)) : jsstr :=
  concat (map (λ e, js " + " ++ price_part e.1 e.2) (shown vs)).

Lemma extra_text_cons v x vs :
  extra_text ((v, x) :: vs)
  = if neqb x nzero then extra_text vs else js " + " ++ price_part v x ++ extra_text vs.
Proof.
  unfold extra_text, shown, filterb. cbn [List.filter snd].
  destruct (neqb x nzero); [done|]. cbn [negb map concat fst snd]. by rewrite <- app_assoc.
Qed.

Lemma extra_text_head vs s : head s = Some 41 → outside num_char (extra_text vs ++ s) = true.
Proof.
  intros Hs. induction vs as [|[v x] vs IH].
  - destruct s as [|c s]; [done|]. by injection Hs as ->.
  - rewrite extra_text_cons. by destruct (neqb x nzero).
Qed.

(** What the groups from [n] on hold after a match. *)
Fixpoint opt_caps (n : nat) (vs : list (jsstr * num)) (g : caps) : caps :=
  match vs with
  | [] => g
  | (v, x) :: vs => opt_caps (S n) vs (if neqb x nzero then g else (n, num_to_str x) :: g)
  end.

(** A variable that can follow a plus. *)
Definition var_ok (v : jsstr) : bool := solid_lit v && outside num_char v.

Lemma lit_outside v t : solid_lit v = true → outside is_ws (v ++ t) = true.
Proof. intros Hv. apply andb_true_iff in Hv as [Hv Ho]. by destruct v. Qed.

Section Optional.
Context {X : Type} (rest : list re) (k : cont X).
Implicit Types (p : option N) (s t : jsstr) (g : caps) (vs : list (jsstr * num)).
Hypothesis rest_stops : stops (λ p s g, run (rseq rest) p s g k).

Lemma optional_stops n vars :
  Forall (λ v, var_ok v = true) vars → stops (λ p s g, run (rseq (optional_prices n vars ++ rest)) p s g k).
Proof.
  intros H. revert n. induction H as [|v vars Hv Hvs IH]; intros n p c t g Hc Ht; [by apply rest_stops|].
  cbn [optional_prices app]. rewrite rseq_cons. unfold optional_price, ROpt. rewrite run_alt.
  rewrite plus_stops by done. by apply IH.
Qed.

(** A further price that is not written is not found. *)
Lemma optional_absent v n vs p s g (k' : cont X) :
  var_ok v = true → head s = Some 41 → Forall (λ v', apart v v' = true) (map fst vs) →
  Forall (λ v, var_ok v = true) (map fst vs) →
  run (rseq ([ws; RLit (js "+"); ws] ++ price_re v n)) p (extra_text vs ++ s) g k' = None.
Proof.
  intros Hv Hs Ha Ho. apply andb_true_iff in Hv as [Hv _].
  induction vs as [|[v' x] vs IH]; cbn [map fst] in *.
  - destruct s as [|c s]; [done|]. injection Hs as ->. by apply plus_fails.
  - apply Forall_cons in Ha as [Ha Has], Ho as [Ho Hos]. apply andb_true_iff in Ho as [Ho _].
    rewrite extra_text_cons. destruct (neqb x nzero); [by apply IH|].
    rewrite <- !app_assoc, plus_run; [|done|].
    + unfold price_part. rewrite <- !app_assoc. by apply price_apart.
    + unfold price_part. rewrite <- app_assoc. by apply lit_outside.
Qed.

Lemma optional_run vs n p s g r :
  Forall (λ v, var_ok v = true) (map fst vs) → ForallOrdPairs (λ v v', apart v v' = true) (map fst vs) →
  Forall (λ e, numeral (num_to_str e.2)) vs → head s = Some 41 →
  (∀ p', run (rseq rest) p' s (opt_caps n vs g) k = Some r) →
  run (rseq (optional_prices n (map fst vs) ++ rest)) p (extra_text vs ++ s) g k = Some r.
Proof.
  intros Ho Ha Hx Hs Hr. revert n p g Hr. induction vs as [|[v x] vs IH]; intros n p g Hr; [apply Hr|].
  cbn [map fst] in *. apply Forall_cons in Ho as [Ho Hos], Hx as [Hx Hxs].
  inversion Ha as [|? ? Hav Has]; subst; clear Ha.
  cbn [optional_prices app]. rewrite rseq_cons. unfold optional_price, ROpt. rewrite run_alt.
  cbn [opt_caps] in Hr. rewrite extra_text_cons. destruct (neqb x nzero) eqn:E.
  - rewrite optional_absent by done. by apply IH.
  - assert (solid_lit v = true) as Hv by (by apply andb_true_iff in Ho as [? _]).
    rewrite <- !app_assoc, plus_run, price_run; try done.
    + rewrite IH by done. done.
    + by apply extra_text_head.
    + by apply optional_stops.
    + unfold price_part. rewrite <- app_assoc. by apply lit_outside.
Qed.

End Optional.

(** ** The call of a tier *)

(** A number whose text is a number that reads back. *)
Definition readable (x : num) : Prop := numeral (num_to_str x) ∧ str_to_num (num_to_str x) = x.

(** The variables and values of the further prices. *)
Definition tier_vars (t : VisualTier) : list (jsstr * num) :=
  map (λ cv, (cv.2, cost (tier_field t cv.1))) BILLING_CACHE_VAR_MAP.

Lemma tier_vars_keys t : map fst (tier_vars t) = map snd BILLING_CACHE_VAR_MAP.
Proof. unfold tier_vars. by rewrite map_map. Qed.

Definition body_caps (n : nat) (t : VisualTier) (g : caps) : caps :=
  opt_caps (S (S n)) (tier_vars t)
    ((S n, num_to_str (num_or (output_unit_cost t) nzero))
     :: (n, num_to_str (num_or (input_unit_cost t) nzero)) :: g).

(** The numbers of a tier are written so that they can be read. *)
Record prices_ok (t : VisualTier) : Prop := {
  ok_input : readable (num_or (input_unit_cost t) nzero);
  ok_output : readable (num_or (output_unit_cost t) nzero);
  ok_extra : Forall (λ e, readable e.2) (tier_vars t);
}.

Lemma join_extra a b vs :
  join (js " + ") (a :: b :: map (λ e, price_part e.1 e.2) (shown vs))
  = a ++ js " + " ++ b ++ extra_text vs.
Proof.
  change (a ++ js " + " ++ join (js " + ") (b :: map (λ e, price_part e.1 e.2) (shown vs))
    = a ++ js " + " ++ b ++ extra_text vs). do 2 f_equal. unfold extra_text.
  revert b. induction (shown vs) as [|e l IH]; intros b; [cbn; by rewrite app_nil_r|].
  change (b ++ js " + " ++ join (js " + ") (price_part e.1 e.2 :: map (λ e, price_part e.1 e.2) l)
    = b ++ concat (map (λ e, js " + " ++ price_part e.1 e.2) (e :: l))).
  rewrite IH. cbn [map concat]. by rewrite <- !app_assoc.
Qed.

Lemma body_text t :
  buildTierBodyExpr t
  = price_part (js "p") (num_or (input_unit_cost t) nzero) ++ js " + "
    ++ price_part (js "c") (num_or (output_unit_cost t) nzero) ++ extra_text (tier_vars t).
Proof. apply join_extra. Qed.

Lemma vars_ok : Forall (λ v, var_ok v = true) (map snd BILLING_CACHE_VAR_MAP).
Proof. concrete. Qed.

Lemma vars_apart : ForallOrdPairs (λ v v', apart v v' = true) (map snd BILLING_CACHE_VAR_MAP).
Proof.
  replace (map snd BILLING_CACHE_VAR_MAP) with
    (map js ["cr"; "cc"; "cc1h"; "img"; "img_o"; "ai"; "ao"]) by (vm_compute; reflexivity).
  repeat (apply FOP_cons; [concrete|]). apply FOP_nil.
Qed.

Section Calls.
Context {X : Type}.
Implicit Types (k : cont X) (p : option N) (s : jsstr) (g : caps).

Lemma body_run t n rest p s g k r :
  prices_ok t → head s = Some 41 → stops (λ p s g, run (rseq rest) p s g k) →
  (∀ p', run (rseq rest) p' s (body_caps n t g) k = Some r) →
  run (rseq (bodyPat n ++ rest)) p (buildTierBodyExpr t ++ s) g k = Some r.
Proof.
  intros [[Hi _] [Ho _] He] Hs Hst Hr. rewrite body_text. unfold bodyPat.
  rewrite <- !app_assoc, rseq_app, price_run; [|done|done|done|].
  - rewrite (app_assoc [ws; RLit (js "+"); ws]), rseq_app, plus_run, price_run; [|done|done| | |done|done].
    + rewrite <- (tier_vars_keys t). apply optional_run; try done.
      * rewrite tier_vars_keys. apply vars_ok.
      * rewrite tier_vars_keys. apply vars_apart.
      * eapply Forall_impl; [exact He|]. by intros e [].
    + by apply extra_text_head.
    + apply optional_stops; [done|apply vars_ok].
  - intros p' c t' g' Hc Ht. rewrite (app_assoc [ws; RLit (js "+"); ws]), rseq_app.
    by apply plus_stops.
Qed.

(** A label that can be quoted. *)
Definition label_ok (l : jsstr) : Prop := l ≠ [] ∧ Forall (λ c, not_quote c = true) l.

Lemma label_run n label r p s g k :
  Forall (λ c, not_quote c = true) label →
  ∃ p', run (rseq (tier_head n ++ r)) p (jsq "tier('" ++ label ++ jsq "', " ++ s) g k
        = run (rseq (ws :: r)) p' (js " " ++ s) ((n, label) :: g) k.
Proof.
  intros Hl. unfold tier_head. cbn [app]. rewrite rseq_cons, run_lit_app, rseq_cons, run_grp.
  rewrite (star_all _ not_quote); [|done|done|done|by intros c [= <-]|].
  - rewrite length_app, Nat.add_sub, take_app_length.
    change (jsq "', ") with (jsq "'," ++ js " "). rewrite <- app_assoc, rseq_cons, run_lit_app. by eexists.
  - intros p' y [|c z] -> Hz; [done|]. apply Forall_app in Hl as [_ Hl].
    apply Forall_cons in Hl as [Hc _]. rewrite rseq_cons.
    apply run_lit_fail, starts_cons_ne. intros ->. done.
Qed.

Lemma call_run n label t rest p s g k r :
  Forall (λ c, not_quote c = true) label → prices_ok t →
  (∀ p', run (rseq rest) p' s (body_caps (S n) t ((n, label) :: g)) k = Some r) →
  run (rseq (tier_head n ++ bodyPat (S n) ++ RLit (js ")") :: rest)) p (tier_call label t ++ s) g k = Some r.
Proof.
  intros Hl Ht Hr. unfold tier_call. rewrite <- !app_assoc.
  destruct (label_run n label (bodyPat (S n) ++ RLit (js ")") :: rest) p
    (buildTierBodyExpr t ++ js ")" ++ s) g k) as [p' ->]; [done|].
  rewrite rseq_cons, ws_run; [|apply blank|by rewrite body_text|].
  - apply body_run; [done|done| |].
    + intros p1 c t1 g1 Hc _. rewrite rseq_cons. apply run_lit_fail, starts_cons_ne.
      intros ->. done.
    + intros p1. rewrite rseq_cons, run_lit_app. apply Hr.
  - intros p1 c t' g' Hc. unfold bodyPat. rewrite <- !app_assoc, rseq_app. by apply price_no_ws.
Qed.

End Calls.

(** ** Conditions *)

(** The text of a value that a condition can be compared with. *)
Definition cond_numeral (x : jsstr) : Prop := x ≠ [] ∧ Forall (λ c, cond_char c = true) x.

Record condition_ok (c : TierConditionInput) : Prop := {
  co_text : cond_numeral (value_text (tc_value c));
  co_value : tc_value c = NumberValue (str_to_num (value_text (tc_value c)));
}.

Lemma cond_char_num c : cond_char c = true → num_char c = true.
Proof.
  unfold cond_char, num_char. intros H. apply orb_true_iff in H as [-> |H]; [done|].
  apply orb_true_iff. right. apply bool_decide_eq_true in H. apply bool_decide_eq_true. set_solver.
Qed.

Lemma cond_char_facts c : cond_char c = true → is_ws c = false ∧ c ≠ 38 ∧ c ≠ 63 ∧ c ≠ 61 ∧ c ≠ 41.
Proof.
  intros H. pose proof (num_char_facts c (cond_char_num c H)) as Hf. split_and!; try tauto.
  intros ->. done.
Qed.

Section Conditions.
Context {X : Type}.
Implicit Types (k : cont X) (p : option N) (s : jsstr) (g : caps).

Lemma var_run v p s g k : run var_re p (var_text v ++ s) g k = k (lastc p (var_text v)) s g.
Proof. destruct v; unfold var_re; cbn [ralt var_text]; rewrite !run_alt; lits; by destruct (k _ s g). Qed.

Lemma op_run o p s g k :
  (∀ p' t g', k p' (61 :: t) g' = None) →
  run op_re p (op_text o ++ js " " ++ s) g k = k (lastc p (op_text o)) (js " " ++ s) g.
Proof.
  intros Hk. unfold op_re.
  assert (∀ l, run (RLit (l ++ js "=")) p (l ++ js " " ++ s) g k = None) as Hle.
  { intros l. apply run_lit_fail. induction l as [|c l IH]; [done|]. cbn. by rewrite N.eqb_refl. }
  destruct o; cbn [ralt op_text]; rewrite !run_alt.
  - rewrite (Hle (js "<") : run (RLit (js "<=")) _ _ _ _ = None). lits. by destruct (k _ _ g).
  - rewrite (run_lit_app (js "<") p (js "=" ++ js " " ++ s) g k : run _ p (js "<=" ++ js " " ++ s) g k = _).
    change (js "=" ++ js " " ++ s) with (61 :: js " " ++ s). rewrite Hk. lits. by destruct (k _ _ g).
  - rewrite (Hle (js ">") : run (RLit (js ">=")) _ _ _ _ = None). lits. by destruct (k _ _ g).
  - rewrite (run_lit_app (js ">") p (js "=" ++ js " " ++ s) g k : run _ p (js ">=" ++ js " " ++ s) g k = _).
    change (js "=" ++ js " " ++ s) with (61 :: js " " ++ s). rewrite Hk. lits. by destruct (k _ _ g).
Qed.

(** [k] fails inside the number of a comparison. *)
Definition halts k : Prop := ∀ p c t g, cond_char c = true → k p (c :: t) g = None.

Lemma op_no_ws p c t g k : is_ws c = true → run op_re p (c :: t) g k = None.
Proof.
  intros Hc. unfold op_re. cbn [ralt]. rewrite !run_alt.
  assert (∀ d l, is_ws d = false → run (RLit (d :: l)) p (c :: t) g k = None) as Hf.
  { intros d l Hd. apply run_lit_fail, starts_cons_ne. congruence. }
  change (js "<") with [60]. change (js "<=") with [60; 61]. change (js ">") with [62].
  change (js ">=") with [62; 61]. by rewrite !Hf.
Qed.

Lemma digits_run x p s g k :
  cond_numeral x → outside cond_char s = true → halts k →
  run (RPlus (RChr cond_char)) p (x ++ s) g k = k (lastc p x) s g.
Proof.
  intros [Hne Hx] Hs Hk. apply plus_all; [done|done|intros c; by apply outside_head|].
  intros p' y [|c z] -> _ Hz; [done|]. apply Forall_app in Hx as [_ Hx].
  apply Forall_cons in Hx as [Hc _]. by apply Hk.
Qed.

Lemma digits_head p c t g k : cond_char c = false → run (RPlus (RChr cond_char)) p (c :: t) g k = None.
Proof. intros Hc. unfold RPlus. by rewrite run_seq, run_chr_cons, Hc. Qed.

Lemma ws_not_cond c : is_ws c = true → cond_char c = false.
Proof. intros Hc. destruct (cond_char c) eqn:E; [|done]. apply cond_char_facts in E. destruct E. congruence. Qed.

Lemma cond_numeral_no_ws x s : cond_numeral x → outside is_ws (x ++ s) = true.
Proof.
  intros [Hne Hx]. destruct x as [|c x]; [done|]. apply Forall_cons in Hx as [Hc _].
  apply cond_char_facts in Hc as [Hc _]. cbn. by rewrite Hc.
Qed.

Lemma comparison_run c p s g k :
  condition_ok c → outside cond_char s = true → halts k →
  run comparison_re p (condition_str c ++ s) g k = k (lastc p (condition_str c)) s g.
Proof.
  intros [Hx _] Hs Hk. unfold comparison_re, condition_str. rewrite <- !app_assoc.
  rewrite rseq_cons, var_run, rseq_cons, ws_run; [|apply blank|by destruct (tc_op c)|].
  - rewrite rseq_cons, op_run.
    + rewrite rseq_cons, ws_run; [|apply blank|by apply cond_numeral_no_ws|].
      * cbn [rseq]. rewrite digits_run by done. by rewrite !lastc_app.
      * intros p' d t g' Hd. by apply digits_head, ws_not_cond.
    + intros p' t g'. rewrite rseq_cons, ws_here; [by apply digits_head|done|].
      intros p1 d t1 g1 Hd. by apply digits_head, ws_not_cond.
  - intros p' d t g' Hd. rewrite rseq_cons. by apply op_no_ws.
Qed.

Definition more_text (cs : list TierConditionInput) : jsstr :=
  concat (map (λ c, js " && " ++ condition_str c) cs).

Lemma var_no_ws p c t g k : is_ws c = true → run var_re p (c :: t) g k = None.
Proof.
  intros Hc. unfold var_re. cbn [ralt]. rewrite !run_alt.
  by rewrite !lit_no_ws by done.
Qed.

Lemma more_run c p s g k :
  condition_ok c → outside cond_char s = true → halts k →
  run more_re p ((js " && " ++ condition_str c) ++ s) g k = k (lastc p (js " && " ++ condition_str c)) s g.
Proof.
  intros Hc Hs Hk. unfold more_re. change (js " && ") with (js " " ++ js "&&" ++ js " ").
  rewrite <- !app_assoc, ws_lit; [|done|apply blank|done].
  rewrite rseq_cons, run_lit_app, rseq_cons, ws_run; [|apply blank|by destruct c as [[]]|].
  - cbn [rseq]. rewrite comparison_run by done. by rewrite !lastc_app.
  - intros p' d t g' Hd. cbn [rseq]. unfold comparison_re. rewrite rseq_cons. by apply var_no_ws.
Qed.

Lemma more_fails p c t g k : is_ws c = false → c ≠ 38 → run more_re p (c :: t) g k = None.
Proof.
  intros Hc Hn. unfold more_re. rewrite lit_here; [|done|cbn; by rewrite Hc].
  rewrite rseq_cons. by apply run_lit_fail, starts_cons_ne.
Qed.

Lemma star_halts k : halts k → halts (λ p s g, run (RStar more_re) p s g k).
Proof.
  intros Hk p c t g Hc. rewrite run_star. apply cond_char_facts in Hc as Hf.
  rewrite more_fails by tauto. by apply Hk.
Qed.

Lemma star_run_more cs p s g k r :
  Forall condition_ok cs → halts k →
  (∀ p', k p' (js " ? " ++ s) g = Some r) →
  run (RStar more_re) p (more_text cs ++ js " ? " ++ s) g k = Some r.
Proof.
  intros Hcs Hk Hr. revert p. induction Hcs as [|c cs Hc Hcs IH]; intros p; rewrite run_star.
  - cbn [more_text map concat app].
    assert (∀ k', run more_re p (js " ? " ++ s) g k' = None) as ->; [|apply Hr].
    intros k'. unfold more_re. change (js " ? ") with (js " " ++ js "? "). rewrite <- app_assoc.
    rewrite ws_lit; [|done|apply blank|done]. rewrite rseq_cons. by apply run_lit_fail.
  - change (more_text (c :: cs)) with ((js " && " ++ condition_str c) ++ more_text cs).
    rewrite <- (app_assoc (js " && " ++ _)), more_run; [|done| |].
    + rewrite (proj2 (Nat.ltb_lt _ _)); [by rewrite IH|].
      rewrite !length_app. change (length (js " && ")) with 4%nat. lia.
    + by destruct cs.
    + intros p' d t g' Hd. destruct (_ <? _)%nat; [|done]. by apply star_halts.
Qed.

End Conditions.

(** ** A tier in an expression *)

Definition cond_text (cs : list TierConditionInput) : jsstr :=
  match cs with [] => [] | c :: cs => condition_str c ++ more_text cs end.

Lemma join_conditions cs : join (js " && ") (map condition_str cs) = cond_text cs.
Proof.
  destruct cs as [|c cs]; [done|]. cbn [cond_text]. revert c.
  induction cs as [|d cs IH]; intros c; [cbn; by rewrite app_nil_r|].
  change (condition_str c ++ js " && " ++ join (js " && ") (map condition_str (d :: cs))
    = condition_str c ++ (js " && " ++ condition_str d) ++ more_text cs).
  by rewrite IH, <- app_assoc.
Qed.

Lemma condition_text cs : Forall condition_ok cs → buildConditionStr cs = cond_text cs.
Proof.
  intros H. unfold buildConditionStr. rewrite filterb_all; [apply join_conditions|].
  intros c Hc. rewrite Forall_forall in H. destruct (H c Hc) as [_ ->]. done.
Qed.

Definition cond_caps (cs : list TierConditionInput) : caps :=
  match cs with [] => [] | _ => [(1%nat, cond_text cs)] end.

(** The condition of a tier before its call. *)
Definition guarded (cs : list TierConditionInput) (body : jsstr) : jsstr :=
  match cs with [] => body | _ => cond_text cs ++ js " ? " ++ body end.

Section Guards.
Context {X : Type}.
Implicit Types (k : cont X) (p : option N) (s : jsstr) (g : caps).

Lemma var_fails c p s g k : c ≠ 112 → c ≠ 99 → c ≠ 108 → run var_re p (c :: s) g k = None.
Proof.
  intros H1 H2 H3. unfold var_re. cbn [ralt]. rewrite !run_alt.
  change (js "p") with [112]. change (js "c") with [99]. change (js "len") with [108; 101; 110].
  by rewrite !run_lit_fail by (by apply starts_cons_ne).
Qed.

Lemma prefix_absent c r p s g k :
  c ≠ 112 → c ≠ 99 → c ≠ 108 →
  run (rseq (cond_prefix :: r)) p (c :: s) g k = run (rseq r) p (c :: s) g k.
Proof.
  intros H1 H2 H3. rewrite rseq_cons. unfold cond_prefix, ROpt. rewrite run_alt.
  assert (∀ k', run (rseq [condGroup; ws; RLit (js "?"); ws]) p (c :: s) g k' = None) as ->.
  { intros k'. rewrite rseq_cons. unfold condGroup, comparison_re.
    rewrite run_grp, run_seq, rseq_cons. by apply var_fails. }
  done.
Qed.

Lemma guard_halts r (k : cont X) : halts (λ p s g, run (rseq [ws; RLit (js "?"); r]) p s g k).
Proof.
  intros p c t g Hc. apply cond_char_facts in Hc as (Hw & _ & Hq & _).
  rewrite lit_here; [|done|cbn; by rewrite Hw]. rewrite rseq_cons. by apply run_lit_fail, starts_cons_ne.
Qed.

Lemma prefix_run c cs r p s k v :
  Forall condition_ok (c :: cs) → outside is_ws s = true →
  (∀ p' d t g', is_ws d = true → run (rseq r) p' (d :: t) g' k = None) →
  (∀ p', run (rseq r) p' s [(1%nat, cond_text (c :: cs))] k = Some v) →
  run (rseq (cond_prefix :: r)) p (cond_text (c :: cs) ++ js " ? " ++ s) [] k = Some v.
Proof.
  intros Hcs Hs Hr Hv. apply Forall_cons in Hcs as [Hc Hcs].
  rewrite rseq_cons. unfold cond_prefix, ROpt. rewrite run_alt.
  assert (∀ a b : option X, a = Some v → match a with Some x => Some x | None => b end = Some v)
    as Hm by (by intros ? ? ->). apply Hm. clear Hm.
  rewrite rseq_cons. unfold condGroup. rewrite run_grp, run_seq.
  set (text := cond_text (c :: cs) ++ js " ? " ++ s).
  replace text with (condition_str c ++ more_text cs ++ js " ? " ++ s)
    by (unfold text; cbn [cond_text]; by rewrite <- app_assoc).
  set (K := λ (p' : option N) (s' : jsstr) (g' : caps), run (rseq [ws; RLit (js "?"); ws]) p' s' _ _).
  assert (halts K) as HK by (intros p1 d t g1 Hd; by apply guard_halts).
  rewrite comparison_run; [|done|by destruct cs|by apply star_halts].
  apply star_run_more; [done|done|]. intros p'. unfold K.
  replace (take _ _) with (cond_text (c :: cs))
    by (cbn [cond_text]; by rewrite (app_assoc (condition_str c)), length_app, Nat.add_sub, take_app_length).
  change (js " ? ") with (js " " ++ js "?" ++ js " "). rewrite <- !app_assoc.
  rewrite ws_lit; [|done|apply blank|done]. rewrite rseq_cons, run_lit_app. cbn [rseq].
  rewrite ws_run; [|apply blank|done|done]. apply Hv.
Qed.

End Guards.

(** ** Reading conditions *)

(** A repetition takes everything if that is a match. *)
Lemma star_greedy {X} f x p s g (k : cont X) r :
  Forall (λ c, f c = true) x → outside f s = true → k (lastc p x) s g = Some r →
  run (RStar (RChr f)) p (x ++ s) g k = Some r.
Proof.
  intros Hx Hs. revert p. induction Hx as [|c x Hc Hx IH]; intros p Hk; rewrite run_star.
  - cbn [app]. destruct s as [|c s]; [done|]. rewrite run_chr_cons. cbn in Hs.
    apply negb_true_iff in Hs. by rewrite Hs.
  - cbn [app]. rewrite run_chr_cons, Hc, tail_shorter, IH; [done|]. by rewrite <- (lastc_cons p).
Qed.

Lemma span_ws x : ∃ w u, x = w ++ u ∧ Forall (λ c, is_ws c = true) w ∧ outside is_ws u = true.
Proof.
  induction x as [|c x (w & u & -> & Hw & Hu)]; [by exists [], []|].
  destruct (is_ws c) eqn:E.
  - exists (c :: w), u. split_and!; [done|by constructor|done].
  - exists [], (c :: w ++ u). split_and!; [done|constructor|cbn; by rewrite E].
Qed.

Lemma and_inside {X} x p s g (k : cont X) :
  solid_end x → 38 ∉ x → run and_re p (x ++ s) g k = None.
Proof.
  intros (y & e & -> & He) Hx. destruct (span_ws (y ++ [e])) as (w & u & E & Hw & Hu). rewrite E in *.
  unfold and_re. rewrite <- app_assoc. destruct u as [|d u].
  - rewrite app_nil_r in *. rewrite <- E in Hw. apply Forall_app in Hw as [_ Hw].
    apply Forall_cons in Hw as [Hw _]. congruence.
  - rewrite ws_lit; [|done|done|done]. rewrite rseq_cons. apply run_lit_fail, starts_cons_ne. set_solver.
Qed.

Lemma condition_solid_end c : condition_ok c → solid_end (condition_str c).
Proof.
  intros [[Hne Hx] _]. unfold condition_str. do 4 apply solid_end_app.
  destruct (exists_last Hne) as (y & e & E). rewrite E in *. exists y, e. split; [done|].
  apply Forall_app in Hx as [_ Hx]. apply Forall_cons in Hx as [Hx _]. by apply cond_char_facts in Hx as [? _].
Qed.

Lemma condition_no_and c : condition_ok c → 38 ∉ condition_str c.
Proof.
  intros [[_ Hx] _]. unfold condition_str. rewrite !not_elem_of_app. split_and!.
  - destruct (tc_var c); concrete.
  - concrete.
  - destruct (tc_op c); concrete.
  - concrete.
  - intros Hc. rewrite Forall_forall in Hx. by apply Hx in Hc.
Qed.

Lemma solid_end_suffix x y c z : solid_end x → x = y ++ c :: z → solid_end (c :: z).
Proof.
  intros (u & e & -> & He) E. destruct (exists_last (l := c :: z) ltac:(done)) as (v & d & Ev).
  rewrite Ev, app_assoc in E. apply app_inj_tail in E as [_ <-]. rewrite Ev. by exists v, e.
Qed.

Lemma and_skip c p s :
  condition_ok c →
  rx_find and_re p (condition_str c ++ s)
  = match rx_find and_re (lastc p (condition_str c)) s with
    | Some (g, pre, p', s') => Some (g, condition_str c ++ pre, p', s')
    | None => None
    end.
Proof.
  intros Hc. apply find_skip. intros p' y d z E. apply (and_inside (d :: z)).
  - by eapply solid_end_suffix; [apply condition_solid_end|].
  - pose proof (condition_no_and c Hc) as Hn. rewrite E in Hn. set_solver.
Qed.

Lemma and_found p s :
  outside is_ws s = true → ∃ p', rx_find and_re p (js " && " ++ s) = Some ([], [], p', s).
Proof.
  intros Hs. apply find_here. unfold and_re. change (js " && ") with (js " " ++ js "&&" ++ js " ").
  rewrite <- !app_assoc, ws_lit; [|done|apply blank|done]. rewrite rseq_cons, run_lit_app. cbn [rseq].
  apply star_greedy; [apply blank|done|done].
Qed.

Lemma pieces_conditions c cs n p :
  Forall condition_ok (c :: cs) → (length (cond_text (c :: cs)) < n)%nat →
  rx_pieces n and_re p (cond_text (c :: cs)) = Ok (map condition_str (c :: cs)).
Proof.
  revert c n p. induction cs as [|d cs IH]; intros c n p Hcs Hn; apply Forall_cons in Hcs as [Hc Hcs];
    (destruct n as [|n]; [lia|]); cbn [rx_pieces cond_text map].
  - rewrite and_skip by done. cbn [more_text map concat]. by rewrite app_nil_r.
  - change (more_text (d :: cs)) with ((js " && " ++ condition_str d) ++ more_text cs).
    rewrite <- (app_assoc (js " && ")), and_skip by done.
    destruct (and_found (lastc p (condition_str c)) (condition_str d ++ more_text cs)) as [p' ->];
      [by destruct d as [[]]|].
    rewrite app_nil_r. unfold mbind, exc_bind.
    pose proof (IH d n p' Hcs) as IH'. cbn [cond_text map] in IH'. rewrite IH'; [done|].
    cbn [cond_text] in Hn. change (more_text (d :: cs)) with ((js " && " ++ condition_str d) ++ more_text cs) in Hn.
    rewrite !length_app in *. change (length (js " && ")) with 4%nat in Hn. lia.
Qed.

Lemma var_back v : var_of (var_text v) = v.
Proof. by destruct v. Qed.
Lemma op_back o : op_of (op_text o) = o.
Proof. by destruct o. Qed.

Lemma grp_take (x s : jsstr) : take (length (x ++ s) - length s) (x ++ s) = x.
Proof. by rewrite length_app, Nat.add_sub, take_app_length. Qed.

Lemma condition_match c :
  condition_ok c →
  rx_match condition_re (condition_str c)
  = Some [(3%nat, value_text (tc_value c)); (2%nat, op_text (tc_op c)); (1%nat, var_text (tc_var c))].
Proof.
  intros [Hx _]. unfold rx_match, condition_re, condition_str.
  rewrite rseq_cons, run_grp, var_run, grp_take, rseq_cons, ws_run; [|apply blank|by destruct (tc_op c)|].
  - rewrite rseq_cons, run_grp, op_run.
    + rewrite grp_take, rseq_cons, ws_run; [|apply blank| |].
      * cbn [rseq]. destruct Hx as [Hne Hx]. by rewrite grp_end.
      * rewrite <- (app_nil_r (value_text _)). by apply cond_numeral_no_ws.
      * intros p' d t g' Hd. rewrite rseq_cons, run_grp. by apply digits_head, ws_not_cond.
    + intros p' t g'. rewrite rseq_cons, ws_here; [|done|].
      * rewrite rseq_cons, run_grp. by apply digits_head.
      * intros p1 d t1 g1 Hd. rewrite rseq_cons, run_grp. by apply digits_head, ws_not_cond.
  - intros p' d t g' Hd. rewrite rseq_cons, run_grp. by apply op_no_ws.
Qed.

Lemma condition_back c : condition_ok c → read_condition (condition_str c) = [c].
Proof.
  intros Hc. unfold read_condition.
  assert (trim (condition_str c) = condition_str c) as ->.
  { pose proof (condition_solid_end c Hc) as (y & e & E & He). rewrite E. apply trim_id. split; intros d u Ed.
    - rewrite <- E in Ed. unfold condition_str in Ed. destruct (tc_var c); by injection Ed as <- _.
    - by apply app_inj_tail in Ed as [_ <-]. }
  rewrite condition_match by done. unfold grp. cbn [cap find_first fst snd fmap option_fmap option_map Nat.eqb from_opt].
  rewrite var_back, op_back. destruct Hc as [_ E]. destruct c as [v o x]. cbn in *. by rewrite <- E.
Qed.

Lemma conditions_back cs : Forall condition_ok cs → read_conditions (cond_text cs) = Ok cs.
Proof.
  intros Hcs. unfold read_conditions. destruct cs as [|c cs]; [done|].
  assert (truthy (cond_text (c :: cs)) = true) as -> by (by destruct c as [[]]).
  unfold rx_split. rewrite pieces_conditions by (done || lia). unfold mbind, exc_bind. f_equal.
  induction Hcs as [|d ds Hd Hds IH]; [done|]. cbn [map concat]. by rewrite condition_back, IH.
Qed.

(** ** Reading a tier *)

Lemma readable_or x : readable x → num_or x nzero = x.
Proof.
  intros [(_ & Hn & _) Hb]. destruct x as [[]| | |]; try done; cbn in *.
  by apply Forall_cons in Hn as [? _].
Qed.

Lemma readable_zero x : readable x → neqb x nzero = true → x = nzero.
Proof. intros [_ Hb]. by destruct x as [[]|[]| |[]]. Qed.

Lemma cap_skip m n t g : m ≠ n → cap m ((n, t) :: g) = cap m g.
Proof. intros H. unfold cap. cbn. by rewrite (proj2 (Nat.eqb_neq n m)) by done. Qed.

Lemma cap_here n t g : cap n ((n, t) :: g) = Some t.
Proof. unfold cap. cbn. by rewrite Nat.eqb_refl. Qed.

Lemma cap_opt_lt m n vs g : (m < n)%nat → cap m (opt_caps n vs g) = cap m g.
Proof.
  revert n g. induction vs as [|[v x] vs IH]; intros n g Hm; [done|]. cbn [opt_caps].
  rewrite IH by lia. destruct (neqb x nzero); [done|]. by rewrite cap_skip by lia.
Qed.

Lemma cap_opt_ge n vs g i v x :
  (∀ m, (n ≤ m)%nat → cap m g = None) → vs !! i = Some (v, x) →
  cap (n + i) (opt_caps n vs g) = if neqb x nzero then None else Some (num_to_str x).
Proof.
  revert n g i. induction vs as [|[v' x'] vs IH]; intros n g i Hg Hi; [done|]. cbn [opt_caps].
  destruct i as [|i].
  - injection Hi as -> ->. rewrite Nat.add_0_r, cap_opt_lt by lia. destruct (neqb x nzero).
    + by apply Hg.
    + apply cap_here.
  - replace (n + S i)%nat with (S n + i)%nat by lia. apply IH; [|done].
    intros m Hm. destruct (neqb x' nzero); [|rewrite cap_skip by lia]; apply Hg; lia.
Qed.

(** A tier that the editor can write and read: a quotable label, comparisons
    with numbers, prices that read back, and the further prices and the cache
    mode as normalizeVisualTier leaves them. *)
Record tier_ok (t : VisualTier) : Prop := {
  to_label : label_ok (tier_label t);
  to_conditions : Forall condition_ok (tier_conditions t);
  to_input : readable (input_unit_cost t);
  to_output : readable (output_unit_cost t);
  to_extra : Forall (λ e, readable e.2) (tier_vars t);
  to_normal : normalizeVisualTier
    (PTier (Some (tier_label t)) (Some (tier_conditions t)) (Some (input_unit_cost t))
       (Some (output_unit_cost t)) None (cache_read_unit_cost t) (cache_create_unit_cost t)
       (cache_create_1h_unit_cost t) (image_unit_cost t) (image_output_unit_cost t)
       (audio_input_unit_cost t) (audio_output_unit_cost t)) = t;
}.

Lemma tier_prices_ok t : tier_ok t → prices_ok t.
Proof. intros []. split; [by rewrite readable_or..|done]. Qed.

(** The further prices, in the order of their groups. *)
Lemma tier_vars_lookup t :
  map snd (tier_vars t)
  = [cost (cache_read_unit_cost t); cost (cache_create_unit_cost t); cost (cache_create_1h_unit_cost t);
     cost (image_unit_cost t); cost (image_output_unit_cost t); cost (audio_input_unit_cost t);
     cost (audio_output_unit_cost t)].
Proof. vm_compute. reflexivity. Qed.

Lemma price_back n t g i x :
  Forall (λ e, readable e.2) (tier_vars t) → (∀ m, (n ≤ m)%nat → cap m g = None) →
  map snd (tier_vars t) !! i = Some x →
  cost (str_to_num <$> cap (n + i) (opt_caps n (tier_vars t) g)) = x.
Proof.
  intros He Hg Hi. rewrite list_lookup_fmap in Hi. apply fmap_Some in Hi as ([v y] & Hi & ->).
  assert (readable y) as Hy by (apply (Forall_lookup_1 _ _ _ _ He Hi)).
  rewrite (cap_opt_ge _ _ _ _ v y) by done. cbn [snd]. destruct (neqb y nzero) eqn:E.
  - by rewrite (readable_zero y).
  - cbn [fmap option_fmap option_map cost]. destruct Hy as [Hn Hb]. rewrite Hb.
    by apply readable_or.
Qed.

(** The cache mode depends on the cost only. *)
Lemma mode_cost o :
  match o with Some x => if nltb nzero x then CACHE_MODE_TIMED else CACHE_MODE_GENERIC
             | None => CACHE_MODE_GENERIC end
  = if nltb nzero (cost o) then CACHE_MODE_TIMED else CACHE_MODE_GENERIC.
Proof. destruct o as [[[]|[]| |[]]|]; done. Qed.

Lemma tier_back n t g :
  tier_ok t → (∀ m, (n ≤ m)%nat → cap m g = None) →
  normalizeVisualTier
    (read_tier n (tier_conditions t) (body_caps (S n) t ((n, tier_label t) :: g))) = t.
Proof.
  intros Ht Hg. rewrite <- (to_normal t Ht) at 4. destruct Ht as [_ _ [Hi Hib] [Ho Hob] He _].
  set (g' := (S (S n), num_to_str (num_or (output_unit_cost t) nzero))
     :: (S n, num_to_str (num_or (input_unit_cost t) nzero)) :: (n, tier_label t) :: g).
  assert (∀ m, (S (S (S n)) ≤ m)%nat → cap m g' = None) as Hg'.
  { intros m Hm. unfold g'. rewrite !cap_skip by lia. apply Hg. lia. }
  pose proof (λ i x, price_back _ t _ i x He Hg') as Hp. rewrite tier_vars_lookup in Hp.
  assert (∀ i, (n + S (S (S i)) = S (S (S n)) + i)%nat) as En by (intros; lia).
  change (body_caps (S n) t ((n, tier_label t) :: g)) with (opt_caps (S (S (S n))) (tier_vars t) g').
  unfold read_tier, grp. rewrite !En. rewrite !cap_opt_lt by lia. unfold g' at 1 2 3.
  replace (n + 1)%nat with (S n) by lia. replace (n + 2)%nat with (S (S n)) by lia.
  rewrite !cap_here, !cap_skip, !cap_here, cap_skip, !cap_here by lia.
  cbn [from_opt]. rewrite !readable_or, Hib, Hob by done.
  unfold normalizeVisualTier, getTierCacheMode. cbn [pt_label pt_conditions pt_input pt_output pt_cache_mode
    pt_cache_read pt_cache_create pt_cache_create_1h pt_image pt_image_output pt_audio_input
    pt_audio_output from_opt].
  rewrite (mode_cost (str_to_num <$> _)), (mode_cost (cache_create_1h_unit_cost t)).
  by rewrite (Hp 0%nat _ eq_refl), (Hp 1%nat _ eq_refl), (Hp 2%nat _ eq_refl),
    (Hp 3%nat _ eq_refl), (Hp 4%nat _ eq_refl), (Hp 5%nat _ eq_refl),
    (Hp 6%nat _ eq_refl).
Qed.

(** ** Decision procedures for the conditions above *)

Lemma forallb_Forall {A} (f : A → bool) l : forallb f l = true → Forall (λ x, f x = true) l.
Proof. rewrite forallb_forall. intros H. apply Forall_forall. intros x Hx%list_elem_of_In. by apply H. Qed.

Definition numeralb (x : jsstr) : bool :=
  truthy x && forallb num_char x && negb (bool_decide (last x = Some 43)).

Lemma numeralb_ok x : numeralb x = true → numeral x.
Proof.
  unfold numeralb. intros H. bool_to_prop. split_and!; [by destruct x|by apply forallb_Forall|].
  intros y ->. rewrite last_snoc in *. congruence.
Qed.

Definition readableb (x : num) : bool :=
  numeralb (num_to_str x) && bool_decide (str_to_num (num_to_str x) = x).

Lemma readableb_ok x : readableb x = true → readable x.
Proof. unfold readableb. intros H. bool_to_prop. split; [by apply numeralb_ok|done]. Qed.

Definition conditionb (c : TierConditionInput) : bool :=
  match tc_value c with
  | NumberValue x =>
      truthy (num_to_str x) && forallb cond_char (num_to_str x)
      && bool_decide (str_to_num (num_to_str x) = x)
  | TextValue _ => false
  end.

Lemma conditionb_ok c : conditionb c = true → condition_ok c.
Proof.
  unfold conditionb. destruct c as [v o [x|s]]; cbn [tc_value]; [|done]. intros H. bool_to_prop. split.
  - cbn [value_text tc_value]. split; [by destruct (num_to_str x)|by apply forallb_Forall].
  - cbn [value_text tc_value]. by f_equal.
Qed.
