(* ===== verification/TierRoundtrip.v ===== *)
(** * Both parsers of tier expressions

    The expression of a configuration of tiers, the matches of a pattern for
    tiers in it, what of a configuration is written ([saved_config]), and the two
    theorems: the editor reads back the tiers that it wrote, and the display
    shows the same tiers. *)
From S2P Require Import Prelude JsString JsNumber Regex JsValue BillingRules BillingRuleFacts TierExpr TierFacts.

Open Scope N_scope.

(** ** The expression of a configuration *)

Definition tier_text (t : VisualTier) : jsstr := guarded (tier_conditions t) (tier_call (tier_label t) t).

(** A configuration of several tiers: all but the last one have conditions. *)
Fixpoint guards_ok (tiers : VisualConfig) : Prop :=
  match tiers with
  | [] => False
  | [t] => tier_conditions t = []
  | t :: rest => tier_conditions t ≠ [] ∧ guards_ok rest
  end.

Definition config_ok (tiers : VisualConfig) : Prop :=
  Forall tier_ok tiers ∧ (guards_ok tiers ∨ ∃ t, tiers = [t]).

Lemma label_text l d : label_ok l → str_or l d = l.
Proof. intros [Hne _]. by apply str_or_ne. Qed.

Lemma guard_truthy cs : truthy (cond_text cs) = negb (bool_decide (length cs = 0%nat)).
Proof. destruct cs as [|[[]] cs]; done. Qed.

Lemma parts_text i tiers :
  Forall tier_ok tiers → guards_ok tiers → tier_parts i tiers = map tier_text tiers.
Proof.
  intros H. revert i. induction H as [|t rest Ht Hrest IH]; intros i Hg; [done|]. cbn [tier_parts map].
  destruct Ht as [Hl Hc _ _ _ _]. rewrite label_text, condition_text, guard_truthy by done.
  unfold tier_text, guarded. destruct rest as [|t' rest].
  - cbn in Hg. by rewrite Hg.
  - destruct Hg as [Hne Hg]. rewrite IH by done. by destruct (tier_conditions t).
Qed.

Definition last_part : jsstr := js " : p * 0 + c * 0".

(** The text of a configuration. *)
Lemma several_text (tiers : VisualConfig) :
  Forall tier_ok tiers → guards_ok tiers →
  generateExprFromVisualConfig (Some tiers) = join (js " : ") (map tier_text tiers).
Proof.
  intros H Hg. destruct tiers as [|t [|t' rest]]; [done| |].
  - apply Forall_cons in H as [[Hl _ _ _ _ _] _]. cbn in Hg. unfold generateExprFromVisualConfig.
    rewrite Hg, label_text by done. cbn [map join]. unfold tier_text, guarded. by rewrite Hg.
  - unfold generateExprFromVisualConfig. by rewrite parts_text.
Qed.

Lemma single_text t :
  tier_ok t → tier_conditions t ≠ [] → generateExprFromVisualConfig (Some [t]) = tier_text t ++ last_part.
Proof.
  intros [Hl Hc _ _ _ _] Hne. unfold generateExprFromVisualConfig, tier_text, guarded.
  rewrite label_text, condition_text, guard_truthy by done. destruct (tier_conditions t); [done|].
  cbn [length negb]. by rewrite <- !app_assoc.
Qed.

Lemma tier_call_cons label t s : ∃ u, tier_call label t ++ s = 116 :: u.
Proof. by eexists. Qed.

(** The first character of a tier. *)
Lemma tier_text_head t s :
  ∃ c u, tier_text t ++ s = c :: u ∧ c ∈ [112; 99; 108; 116] ∧ (c = 116 → tier_conditions t = []).
Proof.
  unfold tier_text, guarded. destruct (tier_conditions t) as [|[[]] cs].
  - destruct (tier_call_cons (tier_label t) t s) as [u ->]. exists 116, u. split_and!; [done|concrete|done].
  - exists 112. eexists. split_and!; [reflexivity|concrete|done].
  - exists 99. eexists. split_and!; [reflexivity|concrete|done].
  - exists 108. eexists. split_and!; [reflexivity|concrete|done].
Qed.

Lemma version_none t s : rx_match version_re (tier_text t ++ s) = None.
Proof.
  destruct (tier_text_head t s) as (c & u & -> & Hc & _). unfold rx_match, version_re.
  rewrite rseq_cons, run_lit_fail; [done|]. apply starts_cons_ne. intros ->.
  apply (bool_decide_eq_true_2 _) in Hc. vm_compute in Hc. discriminate Hc.
Qed.

Lemma body_whole t s : expr_body (tier_text t ++ s) = tier_text t ++ s.
Proof. unfold expr_body. by rewrite version_none. Qed.

Lemma tier_text_cons t : ∃ c u, tier_text t = c :: u.
Proof. unfold tier_text, guarded. destruct (tier_conditions t) as [|[[]]]; by do 2 eexists. Qed.

(** ** The matches of a pattern for tiers *)

Section Search.
(** [inner] is the pattern of the arguments after the label, [found] what a
    match captures. *)
Context (inner : list re) (found : VisualTier → caps).
Definition tier_pattern : re := rseq (cond_prefix :: tier_head 2 ++ inner).
Hypothesis inner_run : ∀ t p s,
  tier_ok t →
  run (rseq (tier_head 2 ++ inner)) p (tier_call (tier_label t) t ++ s) (cond_caps (tier_conditions t))
    (λ _ s' g, Some (g, s')) = Some (found t, s).
Hypothesis nothing_found : ∀ p s, s = [] ∨ s = last_part → rx_find tier_pattern p s = None.

Lemma tier_match t p s :
  tier_ok t → ∃ p', rx_find tier_pattern p (tier_text t ++ s) = Some (found t, [], p', s).
Proof.
  intros Ht. apply find_here. unfold tier_pattern, tier_text, guarded.
  pose proof (inner_run t) as Hi. pose proof (to_conditions t Ht) as Hc. revert Hi Hc.
  destruct (tier_conditions t) as [|c cs]; intros Hi Hc.
  - destruct (tier_call_cons (tier_label t) t s) as [u Eu]. rewrite Eu, prefix_absent, <- Eu by done.
    by apply Hi.
  - rewrite <- !app_assoc. apply prefix_run; [done|done| |].
    + intros p' d u g' Hd. unfold tier_head. cbn [app]. rewrite rseq_cons. by apply lit_no_ws.
    + intros p'. by apply Hi.
Qed.

Lemma pattern_fails c p s g (k : cont (caps * jsstr * option N * jsstr)) :
  c ∉ [112; 99; 108; 116] → run tier_pattern p (c :: s) g k = None.
Proof.
  rewrite !not_elem_of_cons. intros (H1 & H2 & H3 & H4 & _). unfold tier_pattern.
  rewrite prefix_absent by done. unfold tier_head. cbn [app]. rewrite rseq_cons.
  by apply run_lit_fail, starts_cons_ne.
Qed.

(** A tier is found at once or after a separator. *)
Lemma tier_found pre t p s :
  pre = [] ∨ pre = js " : " → tier_ok t →
  ∃ p', rx_find tier_pattern p (pre ++ tier_text t ++ s) = Some (found t, pre, p', s).
Proof.
  intros Hpre Ht. destruct (tier_match t (lastc p pre) s Ht) as [p' E]. exists p'. rewrite find_skip.
  - by rewrite E, app_nil_r.
  - intros p1 y c z Ey. apply pattern_fails.
    assert (Forall (λ c, c ∉ [112; 99; 108; 116]) pre) as Hf by (destruct Hpre as [-> | ->]; concrete).
    rewrite Forall_forall in Hf. apply Hf. rewrite Ey. apply elem_of_app. right. apply list_elem_of_here.
Qed.

Lemma expression_matches (tiers : VisualConfig) :
  config_ok tiers → rx_matches tier_pattern (generateExprFromVisualConfig (Some tiers)) = Ok (map found tiers).
Proof.
  intros [H Hs].
  assert (∃ tail, (tail = [] ∨ tail = last_part) ∧ tiers ≠ [] ∧
    generateExprFromVisualConfig (Some tiers) = join (js " : ") (map tier_text tiers) ++ tail)
    as (tail & Ht & Hne & ->).
  { destruct Hs as [Hg|[t ->]].
    - exists []. split_and!; [by left|by destruct tiers|]. by rewrite app_nil_r, several_text.
    - pose proof (proj1 (Forall_singleton _ _) H) as Ht.
      destruct (decide (length (tier_conditions t) = 0%nat)) as [E|E].
      + apply nil_length_inv in E. exists []. split_and!; [by left|done|]. by rewrite app_nil_r, several_text.
      + exists last_part. split_and!; [by right|done|]. apply single_text; [done|]. intros Ec. by rewrite Ec in E. }
  apply (separated_matches _ _ _ _ _ tier_ok); [| |by intros p; apply nothing_found|done|done].
  - intros t. by destruct (tier_text_cons t) as (c & u & ->).
  - intros pre p t s Hpre Ht' _. apply tier_found; [|done]. by destruct Hpre as [[-> _]| ->]; [left|right].
Qed.

End Search.

(** ** The parser of the editor *)

Definition editor_caps (t : VisualTier) : caps :=
  body_caps 3 t ((2%nat, tier_label t) :: cond_caps (tier_conditions t)).

Lemma editor_matches (tiers : VisualConfig) :
  config_ok tiers →
  rx_matches tierRe (generateExprFromVisualConfig (Some tiers)) = Ok (map editor_caps tiers).
Proof.
  intros Hok. apply (expression_matches (bodyPat 3 ++ [RLit (js ")")])); [| |done].
  - intros t p s Ht. apply (call_run 2 _ t []); [apply Ht|by apply tier_prices_ok|done].
  - intros p s [-> | ->]; vm_compute; reflexivity.
Qed.

Lemma tiers_back (tiers : VisualConfig) :
  Forall tier_ok tiers → read_tiers (map editor_caps tiers) = Ok tiers.
Proof.
  induction 1 as [|t rest Ht Hrest IH]; [done|]. cbn [map read_tiers]. rewrite IH.
  assert (grp 1 (editor_caps t) = cond_text (tier_conditions t)) as ->.
  { unfold grp, editor_caps, body_caps. rewrite cap_opt_lt, !cap_skip by lia.
    by destruct (tier_conditions t). }
  rewrite conditions_back by apply Ht. unfold mbind, exc_bind, editor_caps.
  rewrite (tier_back 2); [done|done|]. intros m Hm. unfold cond_caps.
  destruct (tier_conditions t); [done|]. by rewrite cap_skip by lia.
Qed.

Lemma tier_normal t : tier_ok t → normalizeVisualTier (partial t) = t.
Proof.
  intros [_ _ _ _ _ Hn]. etransitivity; [|exact Hn]. unfold normalizeVisualTier. f_equal.
  symmetry. exact (f_equal cache_mode Hn).
Qed.

Lemma normal_config (tiers : VisualConfig) : tiers ≠ [] → Forall tier_ok tiers → normalizeVisualConfig (Some tiers) = tiers.
Proof.
  intros Hne H. destruct tiers as [|t tiers]; [done|]. unfold normalizeVisualConfig.
  rewrite <- (map_id (t :: tiers)) at 2. apply map_ext_in. intros u Hu%list_elem_of_In.
  rewrite Forall_forall in H. by apply tier_normal, H.
Qed.

Lemma single_fails t s : tier_conditions t ≠ [] → rx_match singleRe (tier_text t ++ s) = None.
Proof.
  intros Hne. destruct (tier_text_head t s) as (c & u & -> & _ & Ht). unfold rx_match, singleRe, tier_head.
  cbn [app]. rewrite rseq_cons, run_lit_fail; [done|]. apply starts_cons_ne. intros ->. by apply Hne, Ht.
Qed.

Lemma single_match t :
  tier_ok t → rx_match singleRe (tier_call (tier_label t) t) = Some (body_caps 2 t [(1%nat, tier_label t)]).
Proof.
  intros Ht. unfold rx_match, singleRe. rewrite <- (app_nil_r (tier_call _ t)).
  apply (call_run 1 _ t [REnd]); [apply Ht|by apply tier_prices_ok|done].
Qed.

Lemma several_back (tiers : VisualConfig) :
  config_ok tiers → tiers ≠ [] →
  parse_several (generateExprFromVisualConfig (Some tiers)) = Ok (Some tiers).
Proof.
  intros Hok Hne. pose proof Hok as [H _]. unfold parse_several.
  rewrite editor_matches by done. unfold mbind, exc_bind.
  rewrite tiers_back by done. cbv beta iota zeta. rewrite normal_config by done. unfold str_eqb.
  rewrite bool_decide_true by done. by destruct tiers.
Qed.

Lemma try_parse t s :
  tryParseVisualConfig (Some (tier_text t ++ s))
  = match rx_match singleRe (tier_text t ++ s) with
    | Some m => Ok (Some (normalizeVisualConfig (Some [normalizeVisualTier (read_tier 1 [] m)])))
    | None => parse_several (tier_text t ++ s)
    end.
Proof.
  unfold tryParseVisualConfig. cbn [from_opt]. rewrite body_whole.
  by destruct (tier_text_head t s) as (c & u & -> & _).
Qed.

(** The expression starts with its first tier. *)
Lemma expression_start (tiers : VisualConfig) :
  config_ok tiers →
  ∃ t rest s, tiers = t :: rest ∧ generateExprFromVisualConfig (Some tiers) = tier_text t ++ s ∧
    (tier_conditions t = [] → rest = [] ∧ s = []).
Proof.
  intros [H Hs]. destruct tiers as [|t rest]; [by destruct Hs as [?|[? ?]]|]. exists t, rest.
  pose proof (proj1 (proj1 (Forall_cons _ _ _) H)) as Ht. destruct rest as [|t' rest].
  - destruct (tier_conditions t) as [|c cs] eqn:Ec.
    + exists []. rewrite several_text, app_nil_r by done. done.
    + exists last_part. rewrite single_text by (done || by rewrite Ec). done.
  - destruct Hs as [Hg|[? ?]]; [|done]. rewrite several_text by done. eexists. split_and!; [done|reflexivity|].
    by destruct Hg.
Qed.

(** ** The parser of the display *)

Definition display_caps (t : VisualTier) : caps :=
  (3%nat, buildTierBodyExpr t) :: (2%nat, tier_label t) :: cond_caps (tier_conditions t).

Definition no_close (c : N) : bool := negb (c =? 41).

Lemma numeral_no_close x : numeral x → Forall (λ c, no_close c = true) x.
Proof.
  intros (_ & H & _). eapply Forall_impl; [exact H|]. intros c Hc%num_char_facts. unfold no_close.
  apply negb_true_iff, N.eqb_neq. tauto.
Qed.

Lemma price_no_close v x :
  Forall (λ c, no_close c = true) v → numeral (num_to_str x) → Forall (λ c, no_close c = true) (price_part v x).
Proof. intros Hv Hx. repeat apply Forall_app_2; [done|concrete|by apply numeral_no_close]. Qed.

Lemma body_no_close t : prices_ok t → Forall (λ c, no_close c = true) (buildTierBodyExpr t).
Proof.
  intros [[Hi _] [Ho _] He]. rewrite body_text.
  apply Forall_app_2; [apply price_no_close; [concrete|done]|]. apply Forall_app_2; [concrete|].
  apply Forall_app_2; [apply price_no_close; [concrete|done]|].
  assert (Forall (λ v, Forall (λ c, no_close c = true) v) (map fst (tier_vars t))) as Hv
    by (rewrite tier_vars_keys; concrete).
  revert He Hv. generalize (tier_vars t). intros vs He Hv.
  induction He as [|[v x] vs [Hx _] Hvs IH]; [constructor|]. cbn [map fst] in Hv.
  apply Forall_cons in Hv as [Hv Hvs']. rewrite extra_text_cons. destruct (neqb x nzero); [by apply IH|].
  apply Forall_app_2; [concrete|]. apply Forall_app_2; [by apply price_no_close|by apply IH].
Qed.

Lemma display_matches (tiers : VisualConfig) :
  config_ok tiers →
  rx_matches display_tier_re (generateExprFromVisualConfig (Some tiers)) = Ok (map display_caps tiers).
Proof.
  intros Hok. apply (expression_matches [RGrp 3 (RPlus (RChr no_close)); RLit (js ")")]); [| |done].
  - intros t p s Ht. unfold tier_call. rewrite <- !app_assoc.
    destruct (label_run 2 (tier_label t) [RGrp 3 (RPlus (RChr no_close)); RLit (js ")")] p
      (buildTierBodyExpr t ++ js ")" ++ s) (cond_caps (tier_conditions t)) (λ _ s' g, Some (g, s')))
      as [p' ->]; [apply Ht|].
    rewrite rseq_cons. apply star_greedy; [apply blank|by rewrite body_text|].
    cbn [rseq]. rewrite run_seq, run_grp, plus_all; [|by rewrite body_text| |by intros c [= <-]|].
    + by rewrite grp_take, run_lit_app.
    + by apply body_no_close, tier_prices_ok.
    + intros p1 y [|c z] E _ Hz; [done|]. apply run_lit_fail, starts_cons_ne.
      pose proof (body_no_close t (tier_prices_ok t Ht)) as Hb. rewrite E in Hb.
      apply Forall_app in Hb as [_ Hb]. apply Forall_cons in Hb as [Hb _]. intros ->. done.
  - intros p s [-> | ->]; vm_compute; reflexivity.
Qed.

(** *** Coefficients *)

Definition pricing_keys : list jsstr := map var_key BILLING_PRICING_VARS.

Definition pairs_apart (ks : list jsstr) : bool :=
  forallb (λ w, forallb (λ v, bool_decide (w = v) || apart w v) ks) ks.

Lemma keys_apart w v : w ∈ pricing_keys → v ∈ pricing_keys → w ≠ v → apart w v = true.
Proof.
  intros Hw Hv Hne. assert (pairs_apart pricing_keys = true) as H by (vm_compute; reflexivity).
  unfold pairs_apart in H. rewrite forallb_forall in H. apply list_elem_of_In in Hw, Hv.
  specialize (H w Hw). rewrite forallb_forall in H. specialize (H v Hv).
  apply orb_true_iff in H as [H|H]; [|done]. by apply bool_decide_eq_true in H.
Qed.

(** Alternatives of literals of which only [v] leads to a match. *)
Lemma literals_run {X} v ks p s g (k : cont X) r :
  v ∈ ks → (∀ w, w ∈ ks → w ≠ v → run (RLit w) p s g k = None) → run (RLit v) p s g k = Some r →
  run (literals ks) p s g k = Some r.
Proof.
  intros Hv Hw Hr. unfold literals. destruct ks as [|w ks]; [by apply elem_of_nil in Hv|]. cbn [map].
  revert w Hv Hw. induction ks as [|w' ks IH]; intros w Hv Hw; cbn [map ralt].
  - apply elem_of_cons in Hv as [<- |Hv]; [done|by apply elem_of_nil in Hv].
  - rewrite run_alt. destruct (decide (w = v)) as [-> |Hne]; [by rewrite Hr|].
    rewrite (Hw w) by (done || apply list_elem_of_here). apply IH; [set_solver|].
    intros u Hu. apply Hw. set_solver.
Qed.

Lemma literals_fail {X} ks p s g (k : cont X) :
  ks ≠ [] → Forall (λ w, starts_with w s = false) ks → run (literals ks) p s g k = None.
Proof.
  intros Hne H. unfold literals. destruct ks as [|w ks]; [done|]. clear Hne. cbn [map].
  revert w H. induction ks as [|w' ks IH]; intros w H; apply Forall_cons in H as [Hw H]; cbn [map ralt].
  - by apply run_lit_fail.
  - rewrite run_alt, run_lit_fail by done. by apply IH.
Qed.

Definition coefficient_caps (e : jsstr * num) : caps := [(2%nat, num_to_str e.2); (1%nat, e.1)].

Definition item_ok (e : jsstr * num) : Prop := e.1 ∈ pricing_keys ∧ readable e.2.

Lemma variable_here e p s :
  item_ok e → word_at p = false → outside num_char s = true →
  run BILLING_VAR_REGEX p (price_part e.1 e.2 ++ s) [] (λ _ s' g, Some (g, s'))
  = Some (coefficient_caps e, s).
Proof.
  intros [Hv [(Hne & Hx & _) _]] Hp Hs. destruct e as [v x]. cbn [fst snd] in *.
  assert (word_at (head (price_part v x ++ s)) = true) as Hw.
  { assert (Forall (λ v, word_at (head v) = true) pricing_keys) as H by concrete.
    rewrite Forall_forall in H. specialize (H v Hv). by destruct v. }
  unfold BILLING_VAR_REGEX. rewrite rseq_cons. cbn [run]. rewrite Hp, Hw. cbn [xorb].
  rewrite rseq_cons, run_grp. unfold price_part. rewrite <- !app_assoc.
  apply (literals_run v); [done| |].
  - intros w Hw' Hne'. apply apart_lit; [by apply keys_apart|]. intros. by apply times_fails.
  - rewrite run_lit_app, grp_take. change (js " * ") with (js " " ++ js "*" ++ js " ").
    rewrite <- !app_assoc, ws_lit; [|done|apply blank|done]. rewrite rseq_cons, run_lit_app, rseq_cons.
    apply star_greedy; [apply blank| |].
    + destruct (num_to_str x) as [|c u]; [done|]. apply Forall_cons in Hx as [Hc _].
      apply num_char_facts in Hc as [Hc _]. cbn. by rewrite Hc.
    + cbn [rseq]. unfold num_group, RPlus. rewrite run_grp, run_seq.
      destruct (num_to_str x) as [|c u] eqn:E; [done|]. apply Forall_cons in Hx as [Hc Hu].
      cbn [app]. rewrite run_chr_cons, Hc. apply star_greedy; [done|done|].
      change (c :: u ++ s) with ((c :: u) ++ s). by rewrite grp_take, <- E.
Qed.

Lemma no_variable p s g (k : cont (caps * jsstr * option N * jsstr)) :
  Forall (λ w, starts_with w s = false) pricing_keys → run BILLING_VAR_REGEX p s g k = None.
Proof.
  intros H. unfold BILLING_VAR_REGEX. rewrite rseq_cons. cbn [run]. destruct (xorb _ _); [|done].
  rewrite rseq_cons, run_grp. by apply literals_fail.
Qed.

Lemma body_matches vs :
  vs ≠ [] → Forall item_ok vs →
  rx_matches BILLING_VAR_REGEX (join (js " + ") (map (λ e, price_part e.1 e.2) vs))
  = Ok (map coefficient_caps vs).
Proof.
  intros Hne H. rewrite <- (app_nil_r (join _ _)).
  apply (separated_matches _ _ _ _ _ item_ok); [| | |done|done].
  - intros [v x] E. unfold price_part in E. apply app_eq_nil in E as [_ E]. by apply app_eq_nil in E as [E _].
  - intros pre p e s Hpre He Hs.
    assert (outside num_char s = true) as Ho by (by destruct Hs as [-> |[u ->]]).
    destruct (find_here BILLING_VAR_REGEX (lastc p pre) (price_part e.1 e.2 ++ s) (coefficient_caps e) s)
      as [p' E].
    { apply variable_here; [done| |done]. by destruct Hpre as [[-> ->]| ->]. }
    exists p'. rewrite find_skip; [by rewrite E, app_nil_r|].
    intros p1 y c z Ey. apply no_variable. destruct Hpre as [[-> _]| ->]; [by destruct y|].
    assert (Forall (λ c, c = 32 ∨ c = 43) (js " + ")) as Hf by concrete.
    assert (Forall (λ w, truthy w && outside (λ c, (c =? 32) || (c =? 43)) w = true) pricing_keys) as Hk
      by concrete.
    rewrite Ey in Hf. apply Forall_app in Hf as [_ Hf]. apply Forall_cons in Hf as [Hc _].
    eapply Forall_impl; [exact Hk|]. intros [|d w]; [done|]. cbn. intros Hd. apply andb_false_iff. left.
    bool_to_prop. apply N.eqb_neq. lia.
  - intros p. cbn [rx_find]. rewrite no_variable; [done|]. concrete.
Qed.

(** The prices of a tier that are written. *)
Definition written (t : VisualTier) : list (jsstr * num) :=
  (js "p", input_unit_cost t) :: (js "c", output_unit_cost t) :: shown (tier_vars t).

Lemma coefficients_back vs acc :
  NoDup (map fst acc ++ map fst vs) → Forall item_ok vs →
  fold_left add_coefficient (map coefficient_caps vs) acc = acc ++ vs.
Proof.
  intros Hn H. revert acc Hn. induction H as [|[v x] vs [_ [_ Hb]] Hvs IH]; intros acc Hn; [by rewrite app_nil_r|].
  cbn [map fst] in Hn. cbn [map fold_left]. cbn [fst snd] in Hb.
  assert (add_coefficient acc (coefficient_caps (v, x)) = acc ++ [(v, x)]) as ->.
  { unfold add_coefficient, grp, coefficient_caps. cbn. rewrite Hb.
    destruct (includes v (map fst acc)) eqn:E; [|done]. apply includes_elem in E.
    apply NoDup_app in Hn as (_ & Hn & _). exfalso. apply (Hn v E). set_solver. }
  rewrite IH; [by rewrite <- app_assoc|]. by rewrite map_app, <- app_assoc.
Qed.

Lemma coefficient_cons v x vs w : coefficient ((v, x) :: vs) w = if str_eqb v w then cost (Some x) else coefficient vs w.
Proof. unfold coefficient. cbn [find_first fst]. by destruct (str_eqb v w). Qed.

Lemma coefficient_shown vs w :
  Forall (λ e, readable e.2) vs → NoDup (map fst vs) → coefficient (shown vs) w = coefficient vs w.
Proof.
  intros H. induction H as [|[v x] vs Hx Hvs IH]; intros Hn; [done|]. cbn [map fst] in Hn.
  apply NoDup_cons in Hn as [Hv Hn]. unfold shown, filterb in *. cbn [List.filter snd].
  destruct (neqb x nzero) eqn:E; cbn [negb]; rewrite !coefficient_cons, IH by done; [|done].
  destruct (str_eqb v w) eqn:Ew; [|done]. rewrite (readable_zero x Hx E). unfold str_eqb in Ew.
  apply bool_decide_eq_true in Ew as <-. unfold coefficient.
  destruct (find_first _ vs) as [[v' x']|] eqn:Ef; [|done].
  apply find_first_Some in Ef as (Hin & Ef). cbn in Ef. unfold str_eqb in Ef.
  apply bool_decide_eq_true in Ef as ->. destruct Hv. apply list_elem_of_fmap. by exists (v, x').
Qed.

(** What the display shows of a tier. *)
Definition shown_tier (t : VisualTier) : ParsedTier :=
  Parsed [(js "inputPrice", input_unit_cost t); (js "outputPrice", output_unit_cost t);
          (js "cacheReadPrice", cost (cache_read_unit_cost t));
          (js "cacheCreatePrice", cost (cache_create_unit_cost t));
          (js "cacheCreate1hPrice", cost (cache_create_1h_unit_cost t));
          (js "imagePrice", cost (image_unit_cost t)); (js "imageOutputPrice", cost (image_output_unit_cost t));
          (js "audioInputPrice", cost (audio_input_unit_cost t));
          (js "audioOutputPrice", cost (audio_output_unit_cost t))]
    (tier_label t) (tier_conditions t).

Lemma all_coefficients t :
  map (λ e, (e.2, coefficient ((js "p", input_unit_cost t) :: (js "c", output_unit_cost t) :: tier_vars t) e.1))
    BILLING_VAR_KEY_TO_FIELD
  = [(js "inputPrice", cost (Some (input_unit_cost t))); (js "outputPrice", cost (Some (output_unit_cost t)));
     (js "cacheReadPrice", cost (Some (cost (cache_read_unit_cost t))));
     (js "cacheCreatePrice", cost (Some (cost (cache_create_unit_cost t))));
     (js "cacheCreate1hPrice", cost (Some (cost (cache_create_1h_unit_cost t))));
     (js "imagePrice", cost (Some (cost (image_unit_cost t))));
     (js "imageOutputPrice", cost (Some (cost (image_output_unit_cost t))));
     (js "audioInputPrice", cost (Some (cost (audio_input_unit_cost t))));
     (js "audioOutputPrice", cost (Some (cost (audio_output_unit_cost t))))].
Proof. vm_compute. reflexivity. Qed.

Lemma shown_sublist vs : shown vs `sublist_of` vs.
Proof.
  unfold shown, filterb. induction vs as [|e vs IH]; [constructor|]. cbn [List.filter].
  destruct (negb _); by constructor.
Qed.

Lemma vars_nodup t : NoDup (js "p" :: js "c" :: map fst (tier_vars t)).
Proof. rewrite tier_vars_keys. concrete. Qed.

Lemma written_ok t : tier_ok t → Forall item_ok (written t).
Proof.
  intros [_ _ Hi Ho He _]. apply Forall_cons; split; [split; [concrete|done]|].
  apply Forall_cons; split; [split; [concrete|done]|].
  assert (Forall (λ v, v ∈ pricing_keys) (map fst (tier_vars t))) as Hk by (rewrite tier_vars_keys; concrete).
  rewrite Forall_forall in He. rewrite Forall_forall in Hk. apply Forall_forall. intros e Hin. apply filterb_elem in Hin as [Hin _].
  split; [|by apply He]. by apply Hk, list_elem_of_fmap_2.
Qed.

Lemma cost_cost o : cost (Some (cost o)) = cost o.
Proof. by destruct o as [[[]|[]| |[]]|]. Qed.

Lemma body_prices t : tier_ok t → parseTierBody (buildTierBodyExpr t) = Ok (parsed_prices (shown_tier t)).
Proof.
  intros Ht. pose proof Ht as [_ _ Hi Ho He _]. unfold parseTierBody.
  assert (buildTierBodyExpr t = join (js " + ") (map (λ e, price_part e.1 e.2) (written t))) as ->.
  { unfold buildTierBodyExpr. by rewrite !readable_or. }
  pose proof (vars_nodup t) as Hn. pose proof (written_ok t Ht) as Hw.
  rewrite body_matches by done. unfold mbind, exc_bind. rewrite coefficients_back; [| |done].
  - cbn [app]. f_equal. etransitivity; [|etransitivity; [exact (all_coefficients t)|]].
    + apply map_ext. intros e. f_equal. unfold written. rewrite !coefficient_cons.
      rewrite coefficient_shown; [done|done|]. by apply NoDup_cons in Hn as [_ [_ Hn]%NoDup_cons].
    + rewrite !cost_cost. cbn [cost]. by rewrite !readable_or.
  - cbn [map app]. eapply sublist_NoDup; [exact Hn|]. unfold written. cbn [map fst].
    do 2 constructor. apply (fmap_sublist fst), shown_sublist.
Qed.

Lemma display_back (tiers : VisualConfig) :
  Forall tier_ok tiers → parse_tiers (map display_caps tiers) = Ok (map shown_tier tiers).
Proof.
  induction 1 as [|t rest Ht Hrest IH]; [done|]. cbn [map parse_tiers]. rewrite IH.
  assert (grp 1 (display_caps t) = cond_text (tier_conditions t)) as ->.
  { unfold grp, display_caps. rewrite !cap_skip by lia. by destruct (tier_conditions t). }
  assert (grp 3 (display_caps t) = buildTierBodyExpr t) as -> by done.
  rewrite conditions_back, body_prices by (done || apply Ht). done.
Qed.

(** ** Properties *)

Lemma config_back (tiers : VisualConfig) :
  config_ok tiers →
  tryParseVisualConfig (Some (generateExprFromVisualConfig (Some tiers))) = Ok (Some tiers).
Proof.
  intros Hok. pose proof Hok as [H _]. destruct (expression_start tiers Hok) as (t & rest & s & -> & Es & Hu).
  pose proof (proj1 (proj1 (Forall_cons _ _ _) H)) as Ht. rewrite Es, try_parse.
  destruct (tier_conditions t) as [|c cs] eqn:Ec.
  - destruct (Hu eq_refl) as [-> ->]. rewrite app_nil_r.
    replace (tier_text t) with (tier_call (tier_label t) t) by (unfold tier_text, guarded; by rewrite Ec).
    rewrite single_match by done. rewrite <- Ec, (tier_back 1), normal_config by done. done.
  - rewrite single_fails, <- Es by (by rewrite Ec). by apply several_back.
Qed.

Lemma tiers_displayed (tiers : VisualConfig) :
  config_ok tiers →
  parseTiersFromExpr (generateExprFromVisualConfig (Some tiers)) = Ok (map shown_tier tiers).
Proof.
  intros Hok. pose proof Hok as [H _]. destruct (expression_start tiers Hok) as (t & rest & s & _ & Es & _).
  unfold parseTiersFromExpr, stripExprVersion.
  assert (truthy (generateExprFromVisualConfig (Some tiers)) = true) as ->.
  { rewrite Es. by destruct (tier_text_head t s) as (c & u & -> & _). }
  assert (rx_match version_re (generateExprFromVisualConfig (Some tiers)) = None) as ->
    by (rewrite Es; apply version_none).
  cbn [snd]. rewrite display_matches by done. by apply display_back.
Qed.

(** *** What is saved of a configuration *)

(** The conditions that have a value. *)
Definition filled : list TierConditionInput → list TierConditionInput :=
  filterb (λ c, match tc_value c with TextValue [] => false | _ => true end).

(** A tier as it is written: an empty label is replaced, the last of several
    tiers loses its conditions. *)
Definition saved_tier (label : jsstr) (last : bool) (t : VisualTier) : VisualTier :=
  normalizeVisualTier
    (PTier (Some (str_or (tier_label t) label)) (Some (if last then [] else filled (tier_conditions t)))
       (Some (input_unit_cost t)) (Some (output_unit_cost t)) None (cache_read_unit_cost t)
       (cache_create_unit_cost t) (cache_create_1h_unit_cost t) (image_unit_cost t) (image_output_unit_cost t)
       (audio_input_unit_cost t) (audio_output_unit_cost t)).

Fixpoint saved_from (i : nat) (ts : VisualConfig) : VisualConfig :=
  match ts with
  | [] => []
  | t :: rest => saved_tier (js "tier_" ++ dec (N.of_nat (i + 1))) (negb (has_more rest)) t :: saved_from (i + 1) rest
  end.

Definition saved_config (ts : VisualConfig) : VisualConfig :=
  match ts with [t] => [saved_tier (js "default") false t] | _ => saved_from 0 ts end.

Lemma saved_field label last t field : cost (tier_field (saved_tier label last t) field) = cost (tier_field t field).
Proof.
  unfold tier_field, saved_tier, normalizeVisualTier.
  cbn [find_first fst cache_read_unit_cost cache_create_unit_cost cache_create_1h_unit_cost image_unit_cost
    image_output_unit_cost audio_input_unit_cost audio_output_unit_cost].
  repeat match goal with
    |- context [str_eqb ?k field] => destruct (str_eqb k field); [cbn [mbind option_bind snd]; apply cost_cost|]
  end. reflexivity.
Qed.

Lemma saved_body label last t : buildTierBodyExpr (saved_tier label last t) = buildTierBodyExpr t.
Proof.
  assert (extra_parts (saved_tier label last t) = extra_parts t) as E.
  { unfold extra_parts. rewrite (map_ext _ (λ cv, (cv.2, cost (tier_field t cv.1)))); [reflexivity|].
    intros cv. by rewrite saved_field. }
  unfold buildTierBodyExpr. rewrite E.
  change (input_unit_cost (saved_tier label last t)) with (input_unit_cost t).
  change (output_unit_cost (saved_tier label last t)) with (output_unit_cost t). reflexivity.
Qed.

Lemma filled_condition cs : buildConditionStr (filled cs) = buildConditionStr cs.
Proof.
  unfold buildConditionStr. fold (filled (filled cs)). fold (filled cs). do 2 f_equal. apply filterb_all.
  intros c. unfold filled. rewrite filterb_elem. tauto.
Qed.

Lemma str_or_idem (x y z : jsstr) : y ≠ [] → str_or (str_or x y) z = str_or x y.
Proof. intros Hy. unfold str_or. destruct x; [|done]. by destruct y. Qed.

(** The text does not depend on what is lost. *)
Lemma saved_text ts : generateExprFromVisualConfig (Some (saved_config ts)) = generateExprFromVisualConfig (Some ts).
Proof.
  assert (∀ i l, tier_parts i (saved_from i l) = tier_parts i l) as Hp.
  { intros i l. revert i. induction l as [|t l IH]; intros i; [done|]. cbn [saved_from tier_parts]. rewrite IH. f_equal.
    assert (has_more (saved_from (i + 1) l) = has_more l) as -> by (by destruct l). unfold tier_call. rewrite saved_body.
    change (tier_label (saved_tier _ _ t)) with (str_or (tier_label t) (js "tier_" ++ dec (N.of_nat (i + 1)))).
    rewrite str_or_idem by done. destruct (has_more l); [|by rewrite !andb_false_r].
    change (tier_conditions (saved_tier _ _ t)) with (filled (tier_conditions t)). by rewrite filled_condition. }
  destruct ts as [|t [|t' l]]; [done| |].
  - unfold saved_config, generateExprFromVisualConfig, tier_call. rewrite saved_body.
    change (tier_label (saved_tier _ _ t)) with (str_or (tier_label t) (js "default")).
    change (tier_conditions (saved_tier _ _ t)) with (filled (tier_conditions t)).
    by rewrite str_or_idem, filled_condition.
  - unfold saved_config. pose proof (Hp 0%nat (t :: t' :: l)) as E. cbn [saved_from] in E |- *.
    unfold generateExprFromVisualConfig. by rewrite E.
Qed.

Lemma saved_length ts : length (saved_config ts) = length ts.
Proof.
  assert (∀ i l, length (saved_from i l) = length l) as Hl.
  { intros i l. revert i. induction l as [|t l IH]; intros i; [done|]. cbn [saved_from length]. by rewrite IH. }
  destruct ts as [|t [|t' l]]; [done|done|]. apply Hl.
Qed.

Lemma saved_same label last t :
  tier_ok t → (last = true → tier_conditions t = []) → saved_tier label last t = t.
Proof.
  intros [Hl Hc _ _ _ Hn] Hlast. rewrite <- Hn at 2. unfold saved_tier. rewrite label_text by done.
  assert ((if last then [] else filled (tier_conditions t)) = tier_conditions t) as ->; [|done].
  destruct last; [by rewrite Hlast|]. apply filterb_all. intros c Hin. rewrite Forall_forall in Hc.
  destruct (Hc c Hin) as [_ ->]. done.
Qed.

(** Nothing is lost of a configuration in order. *)
Lemma saved_in_order ts : config_ok ts → saved_config ts = ts.
Proof.
  intros [H Hs]. assert (∀ i, guards_ok ts → saved_from i ts = ts) as Hf.
  { clear Hs. induction H as [|t l Ht Hl IH]; intros i Hg; [done|]. cbn [saved_from]. destruct l as [|t' l].
    - by rewrite saved_same.
    - destruct Hg as [_ Hg]. by rewrite IH, saved_same. }
  destruct ts as [|t [|t' l]]; [done| |].
  - apply Forall_cons in H as [Ht _]. unfold saved_config. by rewrite saved_same.
  - destruct Hs as [Hg|[? ?]]; [|done]. by apply (Hf 0%nat).
Qed.

(** C25. The tiers that the visual editor writes are read back, up to what is
    not written: tryParseVisualConfig returns the configuration that
    generateExprFromVisualConfig got, in which empty labels are replaced by
    default or tier_n, conditions without a value are left out, the last of
    several tiers has lost its conditions, and the members are those of
    normalizeVisualTier.  This is the same configuration when it is in order.
    The labels are free of quotes, thresholds and prices are numbers that read
    back from their text, and all tiers but the last have a condition. *)
Theorem tier_roundtrip (tiers : VisualConfig) :
  config_ok (saved_config tiers) →
  tryParseVisualConfig (Some (generateExprFromVisualConfig (Some tiers))) = Ok (Some (saved_config tiers)) ∧
  (config_ok tiers → saved_config tiers = tiers).
Proof. intros Hok. split; [|apply saved_in_order]. rewrite <- saved_text. by apply config_back. Qed.

(** The display shows the tiers that the visual editor wrote: for the same
    configurations, parseTiersFromExpr returns every tier in order, with its
    label, its conditions and each of its prices under the field of its
    variable. *)
Theorem display_shows_tiers (tiers : VisualConfig) :
  config_ok tiers →
  parseTiersFromExpr (generateExprFromVisualConfig (Some tiers)) = Ok (map shown_tier tiers).
Proof. apply tiers_displayed. Qed.

(** ** Samples *)

Lemma sample_tiers_ok : config_ok sample_tiers.
Proof.
  assert (∀ l cs i o m r1 r2 r3 r4 r5 r6 r7,
    let t := Tier l cs i o m r1 r2 r3 r4 r5 r6 r7 in
    truthy l && forallb not_quote l && forallb conditionb cs && readableb i && readableb o
      && forallb (λ e, readableb e.2) (tier_vars t) = true →
    normalizeVisualTier (PTier (Some l) (Some cs) (Some i) (Some o) None r1 r2 r3 r4 r5 r6 r7) = t →
    tier_ok t) as Hok.
  { intros l cs i o m r1 r2 r3 r4 r5 r6 r7 t H Hn. bool_to_prop.
    split; [split; [by destruct l|by apply forallb_Forall]| | | | |exact Hn].
    - eapply Forall_impl; [by apply forallb_Forall|]. intros c. apply conditionb_ok.
    - by apply readableb_ok.
    - by apply readableb_ok.
    - eapply Forall_impl; [by apply forallb_Forall|]. intros e. apply readableb_ok. }
  split; [|left; split; [done|reflexivity]].
  apply Forall_cons; split; [apply Hok; vm_compute; reflexivity|].
  apply Forall_cons; split; [apply Hok; vm_compute; reflexivity|]. apply Forall_nil. done.
Qed.

(** The sample with a condition on its last tier. *)
Definition guarded_last : VisualConfig :=
  match sample_tiers with
  | [t; u] => [t; saved_tier [] false (normalizeVisualTier (PTier (Some (tier_label u)) (Some (tier_conditions t))
      (Some (input_unit_cost u)) (Some (output_unit_cost u)) None (cache_read_unit_cost u) (cache_create_unit_cost u)
      (cache_create_1h_unit_cost u) (image_unit_cost u) (image_output_unit_cost u) (audio_input_unit_cost u)
      (audio_output_unit_cost u)))]
  | l => l
  end.

Lemma guarded_last_saved : saved_config guarded_last = sample_tiers.
Proof. vm_compute. reflexivity. Qed.

Lemma tier_roundtrip_witness :
  tryParseVisualConfig (Some (generateExprFromVisualConfig (Some guarded_last))) = Ok (Some sample_tiers) ∧
  tryParseVisualConfig (Some (generateExprFromVisualConfig (Some sample_tiers))) = Ok (Some sample_tiers).
Proof.
  pose proof sample_tiers_ok as Hs. split.
  - destruct (tier_roundtrip guarded_last) as [E _]; [rewrite guarded_last_saved; exact Hs|].
    rewrite guarded_last_saved in E. exact E.
  - destruct (tier_roundtrip sample_tiers) as [E H]; [rewrite saved_in_order by exact Hs; exact Hs|].
    rewrite (H Hs) in E. exact E.
Defined.

Lemma display_shows_tiers_witness :
  parseTiersFromExpr (generateExprFromVisualConfig (Some sample_tiers)) = Ok (map shown_tier sample_tiers).
Proof. apply display_shows_tiers. exact sample_tiers_ok. Defined.
