(* ===== verification/TierForm.v ===== *)
(** * The form of tiers

    Model of the part of
    src/web/default/src/features/system-settings/models/tiered-pricing-editor.tsx
    that edits the tiers: the number inputs, a row of a condition, the card of
    a tier and the list of tiers (ConditionRow, VisualTierCard, VisualEditor).
    A change of an input is an edit, which computes the next configuration. *)
From S2P Require Import Prelude JsString JsNumber Regex JsValue BillingRules BillingRuleFacts TierExpr TierFacts TierRoundtrip.

Open Scope N_scope.

(** ** Number inputs *)

Definition unitCostToPrice (uc : num) : num := num_or uc nzero.
Definition priceToUnitCost (price : num) : num := num_or price nzero.

Definition formatNumberDraft (value : InputValue) : jsstr :=
  match value with
  | NumberValue x => if is_finite x then num_to_str x else js "0"
  | TextValue s => s
  end.

Definition parseNumberDraft (value : jsstr) : num :=
  if str_eqb (trim value) [] then nzero
  else let next := str_to_num value in if is_finite next then next else nzero.

Definition isZeroDraft (value : jsstr) : bool :=
  negb (str_eqb (trim value) []) && neqb (parseNumberDraft value) nzero.

(** ** The card of a tier *)

Definition with_conditions (cs : list TierConditionInput) (t : VisualTier) : VisualTier :=
  Tier (tier_label t) cs (input_unit_cost t) (output_unit_cost t) (cache_mode t)
    (cache_read_unit_cost t) (cache_create_unit_cost t) (cache_create_1h_unit_cost t)
    (image_unit_cost t) (image_output_unit_cost t) (audio_input_unit_cost t) (audio_output_unit_cost t).
Definition with_label (l : jsstr) (t : VisualTier) : VisualTier :=
  Tier l (tier_conditions t) (input_unit_cost t) (output_unit_cost t) (cache_mode t)
    (cache_read_unit_cost t) (cache_create_unit_cost t) (cache_create_1h_unit_cost t)
    (image_unit_cost t) (image_output_unit_cost t) (audio_input_unit_cost t) (audio_output_unit_cost t).

(** The rows are those of the conditions, so the index is one of theirs. *)
Definition handleConditionChange (i : nat) (next : TierConditionInput) (t : VisualTier) : VisualTier :=
  with_conditions (<[i := next]> (tier_conditions t)) t.

Definition handleConditionRemove (i : nat) (t : VisualTier) : VisualTier :=
  with_conditions (base.delete i (tier_conditions t)) t.

Definition handlePriceChange (field : jsstr) (value : num) (t : VisualTier) : VisualTier :=
  let pick name old := if str_eqb field name then Some value else old in
  Tier (tier_label t) (tier_conditions t)
    (from_opt (input_unit_cost t) (pick (js "input_unit_cost") None))
    (from_opt (output_unit_cost t) (pick (js "output_unit_cost") None))
    (cache_mode t)
    (pick (js "cache_read_unit_cost") (cache_read_unit_cost t))
    (pick (js "cache_create_unit_cost") (cache_create_unit_cost t))
    (pick (js "cache_create_1h_unit_cost") (cache_create_1h_unit_cost t))
    (pick (js "image_unit_cost") (image_unit_cost t))
    (pick (js "image_output_unit_cost") (image_output_unit_cost t))
    (pick (js "audio_input_unit_cost") (audio_input_unit_cost t))
    (pick (js "audio_output_unit_cost") (audio_output_unit_cost t)).

Definition handleCacheModeChange (mode : CacheMode) (t : VisualTier) : VisualTier :=
  Tier (tier_label t) (tier_conditions t) (input_unit_cost t) (output_unit_cost t) mode
    (cache_read_unit_cost t) (cache_create_unit_cost t)
    (Some match mode with
          | CACHE_MODE_TIMED => from_opt nzero (cache_create_1h_unit_cost t)
          | CACHE_MODE_GENERIC => nzero
          end)
    (image_unit_cost t) (image_output_unit_cost t) (audio_input_unit_cost t) (audio_output_unit_cost t).

(** The changes of the inputs of a card, a number as it is typed. *)
Inductive tier_edit :=
  | EditLabel (l : jsstr)
  | EditVar (i : nat) (v : TierVar)
  | EditOp (i : nat) (o : TierOp)
  | EditValue (i : nat) (text : jsstr)
  | RemoveCondition (i : nat)
  | EditPrice (field text : jsstr)
  | EditCacheMode (mode : CacheMode).

(** ConditionRow: the change of the row of a condition; no row, no change. *)
Definition edit_row (i : nat) (f : TierConditionInput → TierConditionInput) (t : VisualTier) : VisualTier :=
  match tier_conditions t !! i with
  | Some c => handleConditionChange i (f c) t
  | None => t
  end.

Definition edit_tier (e : tier_edit) (t : VisualTier) : VisualTier :=
  match e with
  | EditLabel l => with_label l t
  | EditVar i v => edit_row i (λ c, TierCondition v (tc_op c) (tc_value c)) t
  | EditOp i o => edit_row i (λ c, TierCondition (tc_var c) o (tc_value c)) t
  | EditValue i text =>
      edit_row i (λ c, TierCondition (tc_var c) (tc_op c) (NumberValue (parseNumberDraft text))) t
  | RemoveCondition i => handleConditionRemove i t
  | EditPrice field text => handlePriceChange field (priceToUnitCost (parseNumberDraft text)) t
  | EditCacheMode mode => handleCacheModeChange mode t
  end.

(** ** The list of tiers *)

Definition default_bound (v : TierVar) : TierConditionInput :=
  TierCondition v OpLt (NumberValue (of_Z 200000)).

Definition handleTierChange (i : nat) (next : VisualTier) (config : VisualConfig) : VisualConfig :=
  <[i := normalizeVisualTier (partial next)]> config.

(** The catch-all tier at the end gets a bound. *)
Fixpoint bound_last (tiers : VisualConfig) : VisualConfig :=
  match tiers with
  | [] => []
  | [t] =>
      [match tier_conditions t with
       | [] => normalizeVisualTier (partial (with_conditions [default_bound VarLen] t))
       | _ => t
       end]
  | t :: rest => t :: bound_last rest
  end.

Definition new_tier (n : nat) : VisualTier :=
  normalizeVisualTier (PTier (Some (js "tier_" ++ dec (N.of_nat (n + 1)))) (Some []) (Some nzero) (Some nzero)
    None None None None None None None None).

Definition handleAddTier (config : VisualConfig) : VisualConfig :=
  let tiers := bound_last config in tiers ++ [new_tier (length tiers)].

Definition handleRemoveTier (i : nat) (config : VisualConfig) : VisualConfig :=
  match base.delete i config with [] => config | tiers => tiers end.

(** [None]: [onChange] is not called. *)
Definition handleAddCondition (i : nat) (config : VisualConfig) : option VisualConfig :=
  t ← config !! i;
  if (2 <=? length (tier_conditions t))%nat then None
  else
    let nextVar := if existsb (λ c, bool_decide (tc_var c = VarLen)) (tier_conditions t) then VarC else VarLen in
    Some (<[i := with_conditions (tier_conditions t ++ [default_bound nextVar]) t]> config).

Inductive form_edit :=
  | EditTier (i : nat) (e : tier_edit)
  | AddTier
  | RemoveTier (i : nat)
  | AddCondition (i : nat).

(** The next value of visualConfig; the cards are those of the tiers of
    [config], so an index is one of theirs. *)
Definition edit_form (visualConfig : option VisualConfig) (e : form_edit) : option VisualConfig :=
  let config := normalizeVisualConfig visualConfig in
  match e with
  | EditTier i e =>
      match config !! i with
      | Some t => Some (handleTierChange i (edit_tier e t) config)
      | None => visualConfig
      end
  | AddTier => Some (handleAddTier config)
  | RemoveTier i => Some (handleRemoveTier i config)
  | AddCondition i =>
      match handleAddCondition i config with Some tiers => Some tiers | None => visualConfig end
  end.

(** ** Lemmas *)

(** The members of tiers, and nothing else, are reduced. *)
Ltac members :=
  cbn [tier_label tier_conditions input_unit_cost output_unit_cost cache_mode cache_read_unit_cost
    cache_create_unit_cost cache_create_1h_unit_cost image_unit_cost image_output_unit_cost audio_input_unit_cost
    audio_output_unit_cost pt_label pt_conditions pt_input pt_output pt_cache_mode pt_cache_read pt_cache_create
    pt_cache_create_1h pt_image pt_image_output pt_audio_input pt_audio_output from_opt] in *.

Definition finite_price (o : option num) : bool := match o with Some x => is_finite x | None => false end.
Definition finite_value (c : TierConditionInput) : bool :=
  match tc_value c with NumberValue x => is_finite x | TextValue _ => false end.

Definition tier_prices (t : VisualTier) : list (option num) :=
  [Some (input_unit_cost t); Some (output_unit_cost t); cache_read_unit_cost t; cache_create_unit_cost t;
   cache_create_1h_unit_cost t; image_unit_cost t; image_output_unit_cost t; audio_input_unit_cost t;
   audio_output_unit_cost t].

(** At most two conditions, and finite numbers. *)
Record numbers_ok (t : VisualTier) : Prop := {
  no_count : (length (tier_conditions t) ≤ 2)%nat;
  no_values : Forall (λ c, finite_value c = true) (tier_conditions t);
  no_prices : Forall (λ o, finite_price o = true) (tier_prices t);
}.

(** A tier of the form is also normalised. *)
Definition tier_fine (t : VisualTier) : Prop := numbers_ok t ∧ normalizeVisualTier (partial t) = t.

Definition form_ok (visualConfig : option VisualConfig) : Prop :=
  match visualConfig with Some tiers => tiers ≠ [] ∧ Forall tier_fine tiers | None => True end.

Lemma draft_finite s : is_finite (parseNumberDraft s) = true.
Proof.
  unfold parseNumberDraft. destruct (str_eqb _ _); [done|]. by destruct (is_finite (str_to_num s)) eqn:E.
Qed.

Lemma or_finite x : is_finite x = true → is_finite (num_or x nzero) = true.
Proof. intros H. unfold num_or. by destruct (num_truthy x). Qed.

Lemma normal_fine t : numbers_ok t → tier_fine (normalizeVisualTier (partial t)).
Proof.
  intros [Hl Hv Hp]. split; [split; [exact Hl|exact Hv|]|].
  - assert (∀ o, finite_price o = true → finite_price (Some (cost o)) = true) as Hc
      by (intros [x|] Hx; [by apply or_finite|done]).
    unfold tier_prices in *. rewrite !Forall_cons in Hp |- *.
    destruct Hp as (? & ? & ? & ? & ? & ? & ? & ? & ? & ?). split_and!; first [done|by apply Hc].
  - destruct t. unfold normalizeVisualTier, partial. cbn -[cost]. by rewrite !cost_cost.
Qed.

Lemma new_tier_fine n : tier_fine (new_tier n).
Proof.
  split; [split|]; [cbn; lia|by apply Forall_nil| |done].
  repeat (apply Forall_cons; split; [done|]). by apply Forall_nil.
Qed.

Lemma conditions_ok cs t :
  numbers_ok t → (length cs ≤ 2)%nat → Forall (λ c, finite_value c = true) cs → numbers_ok (with_conditions cs t).
Proof. intros [_ _ Hp] Hl Hv. by split. Qed.

Lemma conditions_normal cs t :
  normalizeVisualTier (partial t) = t → normalizeVisualTier (partial (with_conditions cs t)) = with_conditions cs t.
Proof.
  destruct t. unfold normalizeVisualTier, partial, with_conditions. cbn -[cost]. intros H.
  injection H as H1 H2 H3 H4 H5 H6 H7. by rewrite H1, H2, H3, H4, H5, H6, H7.
Qed.

Lemma edit_row_ok i f t :
  numbers_ok t → (∀ c, finite_value c = true → finite_value (f c) = true) → numbers_ok (edit_row i f t).
Proof.
  intros Ht Hf. unfold edit_row. destruct (tier_conditions t !! i) as [c|] eqn:E; [|done].
  pose proof Ht as [Hl Hv _]. apply conditions_ok; [done|by rewrite length_insert|].
  apply Forall_insert; [done|]. by apply Hf, (Forall_lookup_1 _ _ _ _ Hv E).
Qed.

Lemma edit_price_ok field x t : numbers_ok t → is_finite x = true → numbers_ok (handlePriceChange field x t).
Proof.
  intros [Hl Hv Hp] Hx. split; [exact Hl|exact Hv|]. unfold tier_prices in *. rewrite !Forall_cons in Hp.
  destruct Hp as (? & ? & ? & ? & ? & ? & ? & ? & ? & ?). unfold handlePriceChange.
  repeat (apply Forall_cons; split; [|]); [..|by apply Forall_nil].
  all: members; by destruct (str_eqb _ _).
Qed.

Lemma edit_tier_ok e t : numbers_ok t → numbers_ok (edit_tier e t).
Proof.
  intros Ht. pose proof Ht as [Hl Hv Hp].
  destruct e as [l|i v|i o|i text|i|field text|mode]; cbn [edit_tier].
  - by split.
  - by apply edit_row_ok.
  - by apply edit_row_ok.
  - apply edit_row_ok; [done|]. intros c _. apply draft_finite.
  - apply conditions_ok; [done| |by apply Forall_delete].
    etrans; [apply sublist_length, sublist_delete|exact Hl].
  - apply edit_price_ok; [done|]. apply or_finite, draft_finite.
  - split; [exact Hl|exact Hv|]. unfold tier_prices in *. rewrite !Forall_cons in Hp |- *.
    destruct Hp as (? & ? & ? & ? & H & ? & ? & ? & ? & ?). split_and!; try done.
    cbn. destruct mode; [|done]. by destruct (cache_create_1h_unit_cost t).
Qed.

(** What the form shows of a configuration that is in order. *)
Lemma fine_shown tiers : tiers ≠ [] → Forall tier_fine tiers → normalizeVisualConfig (Some tiers) = tiers.
Proof.
  intros Hne H. assert (map (λ t, normalizeVisualTier (partial t)) tiers = tiers) as E.
  { clear Hne. induction H as [|t rest [_ Ht] _ IH]; [done|]. cbn [map]. by rewrite Ht, IH. }
  by destruct tiers.
Qed.

Lemma shown_fine c : form_ok c → normalizeVisualConfig c ≠ [] ∧ Forall tier_fine (normalizeVisualConfig c).
Proof.
  destruct c as [tiers|]; [intros [Hne H]; by rewrite fine_shown|]. intros _. split; [done|].
  apply Forall_singleton. split; [split|]; [cbn; lia|by apply Forall_nil| |done].
  repeat (apply Forall_cons; split; [done|]). by apply Forall_nil.
Qed.

Lemma bound_last_cons t t' rest : bound_last (t :: t' :: rest) = t :: bound_last (t' :: rest).
Proof. done. Qed.

Lemma bound_last_length tiers : length (bound_last tiers) = length tiers.
Proof.
  induction tiers as [|t [|t' rest] IH]; [done|done|]. rewrite bound_last_cons. cbn [length] in *. by rewrite IH.
Qed.

Lemma bounded_fine t :
  tier_fine t → tier_fine (normalizeVisualTier (partial (with_conditions [default_bound VarLen] t))).
Proof.
  intros [Ht _]. apply normal_fine, conditions_ok; [done|cbn; lia|]. by apply Forall_singleton.
Qed.

Lemma bound_last_fine tiers : Forall tier_fine tiers → Forall tier_fine (bound_last tiers).
Proof.
  induction 1 as [|t rest Ht H IH]; [by apply Forall_nil|]. destruct rest as [|t' rest].
  - apply Forall_singleton. destruct (tier_conditions t); [by apply bounded_fine|done].
  - rewrite bound_last_cons. by apply Forall_cons.
Qed.

Lemma insert_ne {A} (l : list A) i x : l ≠ [] → <[i := x]> l ≠ [].
Proof. by destruct l, i. Qed.

Lemma added_condition_fine i (tiers tiers' : VisualConfig) :
  Forall tier_fine tiers → handleAddCondition i tiers = Some tiers' → tiers' ≠ [] ∧ Forall tier_fine tiers'.
Proof.
  intros H E. unfold handleAddCondition in E. destruct (tiers !! i) as [t|] eqn:Et; [|done].
  cbn [mbind option_bind] in E. destruct (2 <=? length (tier_conditions t))%nat eqn:El; [done|].
  apply Nat.leb_gt in El. injection E as <-.
  pose proof (Forall_lookup_1 _ _ _ _ H Et) as [Hn Ht]. split.
  - apply insert_ne. by intros ->.
  - apply Forall_insert; [done|]. split; [|by apply conditions_normal].
    apply conditions_ok; [done|rewrite length_app; cbn; lia|].
    apply Forall_app. split; [apply Hn|by apply Forall_singleton].
Qed.

Lemma kept_fine {A} (P : A → Prop) i (l : list A) :
  l ≠ [] → Forall P l →
  let l' := match base.delete i l with [] => l | l' => l' end in l' ≠ [] ∧ Forall P l'.
Proof.
  intros Hne H. pose proof (Forall_delete _ _ i H) as Hd. by destruct (base.delete i l).
Qed.

Lemma edit_form_ok c e : form_ok c → form_ok (edit_form c e).
Proof.
  intros H. destruct (shown_fine c H) as [Hne Hf]. destruct e as [i e| |i|i]; cbn [edit_form].
  - destruct (normalizeVisualConfig c !! i) as [t|] eqn:E; [|done].
    pose proof (Forall_lookup_1 _ _ _ _ Hf E) as [Ht _]. split.
    + by apply insert_ne.
    + apply Forall_insert; [done|]. by apply normal_fine, edit_tier_ok.
  - unfold handleAddTier. split; [by destruct (bound_last _)|].
    apply Forall_app. split; [by apply bound_last_fine|]. apply Forall_singleton, new_tier_fine.
  - by apply kept_fine.
  - destruct (handleAddCondition i _) as [tiers|] eqn:E; [|exact H]. by apply (added_condition_fine i _ _ Hf).
Qed.

(** Adding a tier to tiers that read back. *)
Lemma vars_kept cs t : tier_vars (with_conditions cs t) = tier_vars t.
Proof.
  unfold tier_vars. apply map_ext. intros cv. destruct t. unfold tier_field, with_conditions. members. reflexivity.
Qed.

Lemma guarded_ok cs t : tier_ok t → Forall condition_ok cs → tier_ok (with_conditions cs t).
Proof.
  intros [Hl _ Hi Ho He Hn] Hcs. split; [exact Hl|exact Hcs|exact Hi|exact Ho|by rewrite vars_kept|]. clear He.
  destruct t as [l cs0 x y m a1 a2 a3 a4 a5 a6 a7].
  unfold normalizeVisualTier, getTierCacheMode, with_conditions in *.
  members.
  injection Hn as H0 H1 H2 H3 H4 H5 H6 H7. by rewrite H0, H1, H2, H3, H4, H5, H6, H7.
Qed.

Lemma bounded_ok t :
  tier_ok t → tier_ok (normalizeVisualTier (partial (with_conditions [default_bound VarLen] t))).
Proof.
  intros Ht. rewrite conditions_normal by (by apply tier_normal). apply guarded_ok; [done|].
  apply Forall_singleton, conditionb_ok. by vm_compute.
Qed.

Lemma new_tier_ok n : tier_ok (new_tier n).
Proof.
  assert (readable nzero) as Hz by (apply readableb_ok; by vm_compute).
  split; [split; [done|]|by apply Forall_nil|done|done| |done].
  - apply Forall_app. split; [repeat (apply Forall_cons; split; [done|]); by apply Forall_nil|].
    eapply Forall_impl; [apply dec_digits|]. intros c Hc. unfold is_digit in Hc. bool_to_prop.
    apply negb_true_iff, N.eqb_neq. lia.
  - repeat (apply Forall_cons; split; [exact Hz|]). by apply Forall_nil.
Qed.

Lemma bound_last_ok tiers :
  Forall tier_ok tiers → tiers ≠ [] →
  Forall tier_ok (bound_last tiers) ∧
  ((guards_ok tiers ∨ ∃ t, tiers = [t]) → Forall (λ t, tier_conditions t ≠ []) (bound_last tiers)).
Proof.
  induction 1 as [|t rest Ht H IH]; [done|]. intros _. destruct rest as [|t' rest].
  - cbn [bound_last]. destruct (tier_conditions t) eqn:Ec.
    + split; [by apply Forall_singleton, bounded_ok|]. intros _. by apply Forall_singleton.
    + split; [by apply Forall_singleton|]. intros _. apply Forall_singleton. by rewrite Ec.
  - rewrite bound_last_cons. destruct IH as [IH1 IH2]; [done|]. split; [by apply Forall_cons|].
    intros [[Hc Hg]|[t0 ?]]; [|done]. apply Forall_cons. split; [done|]. apply IH2. by left.
Qed.

Lemma guards_last tiers t :
  Forall (λ t, tier_conditions t ≠ []) tiers → tier_conditions t = [] → guards_ok (tiers ++ [t]).
Proof.
  intros H Ht. induction H as [|t' rest Ht' _ IH]; [done|]. change ((t' :: rest) ++ [t]) with (t' :: (rest ++ [t])).
  destruct (rest ++ [t]) eqn:E; [by destruct rest|]. by split.
Qed.

(** ** Properties *)

(** C27. Whatever is typed and clicked in the form of tiers, it stays in order:
    there is at least one tier, a tier has at most two conditions, all prices
    and all bounds are finite numbers, and every tier is as
    normalizeVisualTier leaves it, so that what is written is what is shown. *)
Theorem form_stays_in_order (visualConfig : option VisualConfig) (edits : list form_edit) :
  form_ok visualConfig → form_ok (fold_left edit_form edits visualConfig).
Proof.
  revert visualConfig. induction edits as [|e edits IH]; intros c H; [done|]. by apply IH, edit_form_ok.
Qed.

(** A tier can be added to any saved configuration: the catch-all tier gets
    a bound, the new tier becomes the catch-all, and the expression of the
    longer configuration reads back. *)
Theorem added_tier_reads_back (tiers : VisualConfig) :
  config_ok tiers →
  let next := handleAddTier (normalizeVisualConfig (Some tiers)) in
  length next = S (length tiers) ∧ guards_ok next ∧
  tryParseVisualConfig (Some (generateExprFromVisualConfig (Some next))) = Ok (Some next).
Proof.
  intros [H Hs] next. assert (tiers ≠ []) as Hne by (by destruct tiers, Hs as [?|[? ?]]).
  unfold next. rewrite normal_config by done. destruct (bound_last_ok tiers H Hne) as [Hb Hg].
  assert (guards_ok (handleAddTier tiers)) as Hk by (apply guards_last; [by apply Hg|done]).
  split_and!; [|done|].
  - unfold handleAddTier. rewrite length_app, bound_last_length. cbn [length]. lia.
  - apply config_back. split; [|by left]. apply Forall_app. split; [done|]. apply Forall_singleton, new_tier_ok.
Qed.

Lemma form_stays_in_order_witness :
  form_ok (Some createDefaultVisualConfig) ∧
  form_ok (fold_left edit_form [AddTier; EditTier 0 (EditValue 0 (js "128000")); AddCondition 0;
    EditTier 1 (EditPrice (js "input_unit_cost") (js "2.5")); RemoveTier 0] (Some createDefaultVisualConfig)).
Proof.
  assert (form_ok (Some createDefaultVisualConfig)) as H by exact (shown_fine None I).
  split; [exact H|]. apply form_stays_in_order. exact H.
Defined.

Lemma added_tier_reads_back_witness :
  let next := handleAddTier (normalizeVisualConfig (Some sample_tiers)) in
  length next = 3%nat ∧ guards_ok next ∧
  tryParseVisualConfig (Some (generateExprFromVisualConfig (Some next))) = Ok (Some next).
Proof. exact (added_tier_reads_back sample_tiers sample_tiers_ok). Defined.
