(* ===== verification/TierSplit.v ===== *)
(** * Tier expressions with request rules

    The expression of tiers is the base of a billing expression: it is
    balanced, is not a rule, and is found again when a combined expression is
    split, with or without rules. *)
From S2P Require Import Prelude JsString JsNumber Regex JsValue BillingRules BillingRuleFacts TierExpr TierFacts TierRoundtrip.

Open Scope N_scope.

(** ** Texts without an asterisk outside parentheses *)

Inductive calm : jsstr → Prop :=
  | calm_flat x : Forall (λ c, no_paren c ∧ c ≠ 42) x → calm x
  | calm_app x y : calm x → calm y → calm (x ++ y)
  | calm_paren x : Forall no_paren x → calm ([40] ++ x ++ [41]).

Lemma calm_bal x : calm x → bal x.
Proof.
  induction 1 as [x Hx|x y _ IHx _ IHy|x Hx].
  - apply bal_flat. eapply Forall_impl; [exact Hx|]. by intros c [].
  - by apply bal_app.
  - by apply bal_paren, bal_flat.
Qed.

Lemma calm_star x y z : calm x → x = y ++ 42 :: z → (0 < depth y 0)%Z.
Proof.
  intros H. revert y z. induction H as [x Hx|x1 x2 Hx1 IH1 Hx2 IH2|x Hx]; intros y z E.
  - rewrite E in Hx. apply Forall_app in Hx as [_ Hx]. apply Forall_cons in Hx as [[_ Hx] _]. done.
  - apply app_eq_app in E as (t & [[-> Et]|[-> ->]]).
    + destruct t as [|c t].
      * specialize (IH2 [] z (eq_sym Et)). cbn in IH2. lia.
      * injection Et as <- ->. by apply (IH1 y t).
    + rewrite depth_app, (depth_bal x1) by (by apply calm_bal). by apply (IH2 t z).
  - destruct y as [|c y]; [done|]. injection E as <- E.
    change (depth (40 :: y) 0) with (depth y 1).
    assert (Forall no_paren y) as Hy.
    { apply app_eq_app in E as (t & [[-> _]|[-> E]]).
      - by apply Forall_app in Hx as [Hx _].
      - destruct t as [|c t]; [by rewrite app_nil_r|]. injection E as _ E. by destruct t. }
    rewrite depth_flat by done. lia.
Qed.

Lemma calm_part x : calm x → x ≠ [] → trim x = x → part (js " * ") x.
Proof.
  intros Hc Hne Ht. split_and!; [done|done|by apply depth_bal, calm_bal|].
  intros y c z s E. destruct (decide (c = 32)) as [-> |Hn]; [|right; by apply starts_cons_ne].
  destruct z as [|d z]; [rewrite E in Ht; by apply trimmed_last in Ht|].
  destruct (decide (d = 42)) as [-> |Hd].
  - left. change (32 :: 42 :: z) with ([32] ++ 42 :: z) in E. rewrite app_assoc in E.
    apply calm_star in E; [|done]. lia.
  - right. change (true && starts_with [42; 32] (d :: z ++ s) = false). cbn [andb]. by apply starts_cons_ne.
Qed.

(** ** The expression of tiers *)

(** A label without parentheses. *)
Definition labels_plain (tiers : VisualConfig) : Prop :=
  Forall (λ t, Forall no_paren (tier_label t)) tiers.

#[local] Instance no_paren_dec c : Decision (no_paren c) := ltac:(unfold no_paren; apply _).

Lemma numeral_no_paren x : numeral x → Forall no_paren x.
Proof.
  intros (_ & H & _). eapply Forall_impl; [exact H|]. intros c Hc%num_char_facts. unfold no_paren. tauto.
Qed.

Lemma price_no_paren v x :
  Forall no_paren v → numeral (num_to_str x) → Forall no_paren (price_part v x).
Proof. intros Hv Hx. repeat apply Forall_app_2; [done|concrete|by apply numeral_no_paren]. Qed.

Lemma body_no_paren t : prices_ok t → Forall no_paren (buildTierBodyExpr t).
Proof.
  intros [[Hi _] [Ho _] He]. rewrite body_text.
  apply Forall_app_2; [apply price_no_paren; [concrete|done]|]. apply Forall_app_2; [concrete|].
  apply Forall_app_2; [apply price_no_paren; [concrete|done]|].
  assert (Forall (λ v, Forall no_paren v) (map fst (tier_vars t))) as Hv by (rewrite tier_vars_keys; concrete).
  revert He Hv. generalize (tier_vars t). intros vs He Hv.
  induction He as [|[v x] vs [Hx _] Hvs IH]; [constructor|]. cbn [map fst] in Hv.
  apply Forall_cons in Hv as [Hv Hvs']. rewrite extra_text_cons. destruct (neqb x nzero); [by apply IH|].
  apply Forall_app_2; [concrete|]. apply Forall_app_2; [by apply price_no_paren|by apply IH].
Qed.

Lemma call_calm label t : prices_ok t → Forall no_paren label → calm (tier_call label t).
Proof.
  intros Ht Hl. unfold tier_call.
  replace (jsq "tier('" ++ label ++ jsq "', " ++ buildTierBodyExpr t ++ js ")")
    with (js "tier" ++ [40] ++ ([34] ++ label ++ jsq "', " ++ buildTierBodyExpr t) ++ [41])
    by (rewrite <- !app_assoc; reflexivity).
  apply calm_app; [apply calm_flat; concrete|]. apply calm_paren.
  apply Forall_app_2; [concrete|]. apply Forall_app_2; [done|]. apply Forall_app_2; [concrete|].
  by apply body_no_paren.
Qed.

Lemma condition_calm c : condition_ok c → calm (condition_str c).
Proof.
  intros [[_ Hx] _]. apply calm_flat. unfold condition_str.
  apply Forall_app_2; [destruct (tc_var c); concrete|]. apply Forall_app_2; [concrete|].
  apply Forall_app_2; [destruct (tc_op c); concrete|]. apply Forall_app_2; [concrete|].
  eapply Forall_impl; [exact Hx|]. intros d Hd. pose proof (num_char_facts d (cond_char_num d Hd)) as Hf.
  split; [unfold no_paren; tauto|]. intros ->. done.
Qed.

Lemma cond_calm cs : Forall condition_ok cs → calm (cond_text cs).
Proof.
  intros H. destruct H as [|c cs Hc Hcs]; [apply calm_flat; constructor|]. cbn [cond_text].
  apply calm_app; [by apply condition_calm|].
  induction Hcs as [|d ds Hd Hds IH]; [apply calm_flat; constructor|].
  change (more_text (d :: ds)) with ((js " && " ++ condition_str d) ++ more_text ds).
  apply calm_app; [|done]. apply calm_app; [apply calm_flat; concrete|by apply condition_calm].
Qed.

Lemma tier_calm t : tier_ok t → Forall no_paren (tier_label t) → calm (tier_text t).
Proof.
  intros Ht Hl. pose proof (call_calm (tier_label t) t (tier_prices_ok t Ht) Hl) as Hc.
  pose proof (cond_calm _ (to_conditions t Ht)) as Hcs. unfold tier_text, guarded.
  destruct (tier_conditions t); [done|]. apply calm_app; [done|]. apply calm_app; [|done].
  apply calm_flat. concrete.
Qed.

Lemma tiers_calm tiers :
  Forall tier_ok tiers → labels_plain tiers → calm (join (js " : ") (map tier_text tiers)).
Proof.
  intros H. induction H as [|t rest Ht Hrest IH]; intros Hl; [apply calm_flat; constructor|].
  apply Forall_cons in Hl as [Hlt Hl]. destruct rest as [|t' rest]; [by apply tier_calm|].
  change (join (js " : ") (map tier_text (t :: t' :: rest)))
    with (tier_text t ++ js " : " ++ join (js " : ") (map tier_text (t' :: rest))).
  apply calm_app; [by apply tier_calm|]. apply calm_app; [|by apply IH]. apply calm_flat. concrete.
Qed.

Lemma tier_text_end t : ∃ y, tier_text t = y ++ js ")".
Proof.
  unfold tier_text, guarded, tier_call. destruct (tier_conditions t) as [|c cs].
  - exists (jsq "tier('" ++ tier_label t ++ jsq "', " ++ buildTierBodyExpr t). by rewrite <- !app_assoc.
  - exists (cond_text (c :: cs) ++ js " ? " ++ jsq "tier('" ++ tier_label t ++ jsq "', "
            ++ buildTierBodyExpr t). by rewrite <- !app_assoc.
Qed.

Lemma tiers_end tiers : tiers ≠ [] → ∃ y, join (js " : ") (map tier_text tiers) = y ++ js ")".
Proof.
  intros Hne. induction tiers as [|t rest IH]; [done|]. destruct rest as [|t' rest].
  - apply tier_text_end.
  - destruct IH as [y Ey]; [done|]. exists (tier_text t ++ js " : " ++ y).
    change (join (js " : ") (map tier_text (t :: t' :: rest)))
      with (tier_text t ++ js " : " ++ join (js " : ") (map tier_text (t' :: rest))).
    by rewrite Ey, <- !app_assoc.
Qed.

(** The parts of the expression at the top level, none of which is a rule. *)
Record plain_parts (xs : list jsstr) : Prop := {
  pp_ne : xs ≠ [];
  pp_parts : Forall (part (js " * ")) xs;
  pp_open : Forall (λ x, starts_with (js "(") x = false) xs;
  pp_end : ∃ y c, join (js " * ") xs = y ++ [c] ∧ c ≠ 49;
  pp_bal : bal (join (js " * ") xs);
}.

Lemma start_solid t s y c : tier_text t ++ s = y ++ [c] → is_ws c = false → trim (tier_text t ++ s) = tier_text t ++ s.
Proof.
  intros E Hc. apply trim_id. split; intros d u Ed.
  - destruct (tier_text_head t s) as (e & v & Ee & He & _). rewrite Ee in Ed. injection Ed as <- _.
    assert (Forall (λ c, is_ws c = false) [112; 99; 108; 116]) as Hf by concrete.
    rewrite Forall_forall in Hf. by apply Hf.
  - rewrite E in Ed. by apply app_inj_tail in Ed as [_ <-].
Qed.

Lemma start_open t s : starts_with (js "(") (tier_text t ++ s) = false.
Proof.
  destruct (tier_text_head t s) as (e & v & -> & He & _). apply starts_cons_ne. intros ->.
  apply (bool_decide_eq_true_2 _) in He. vm_compute in He. discriminate He.
Qed.

Lemma tier_text_ne t s : tier_text t ++ s ≠ [].
Proof. destruct (tier_text_head t s) as (e & v & -> & _). done. Qed.

Lemma single_parts t :
  tier_ok t → Forall no_paren (tier_label t) →
  plain_parts [tier_text t ++ js " : p"; js "0 + c"; js "0"].
Proof.
  intros Ht Hl. pose proof (tier_calm t Ht Hl) as Hc. split.
  - done.
  - apply Forall_cons; split; [|apply Forall_cons; split; [|apply Forall_cons; split; [|by apply Forall_nil]]].
    + apply calm_part; [|apply tier_text_ne|].
      * apply calm_app; [done|]. apply calm_flat. concrete.
      * apply (start_solid _ _ (tier_text t ++ js " : ") 112); [by rewrite <- app_assoc|done].
    + apply calm_part; [apply calm_flat; concrete|done|reflexivity].
    + apply calm_part; [apply calm_flat; concrete|done|reflexivity].
  - apply Forall_cons; split; [apply start_open|]. apply Forall_cons; split; [reflexivity|].
    apply Forall_cons; split; [reflexivity|]. by apply Forall_nil.
  - exists (tier_text t ++ js " : p * 0 + c * "), 48. split; [|done]. cbn [join]. by rewrite <- !app_assoc.
  - cbn [join]. apply calm_bal in Hc. rewrite <- app_assoc. apply bal_app; [done|]. apply bal_flat. concrete.
Qed.

Lemma several_parts tiers :
  Forall tier_ok tiers → labels_plain tiers → tiers ≠ [] →
  plain_parts [join (js " : ") (map tier_text tiers)].
Proof.
  intros H Hl Hne. pose proof (tiers_calm tiers H Hl) as Hc. destruct (tiers_end tiers Hne) as [y Ey].
  assert (∃ t s, join (js " : ") (map tier_text tiers) = tier_text t ++ s) as (t & s & Es).
  { destruct tiers as [|t [|t' rest]]; [done|exists t, []; by rewrite app_nil_r|by do 2 eexists]. }
  split.
  - done.
  - apply Forall_singleton, calm_part; [done|rewrite Es; apply tier_text_ne|].
    rewrite Es. apply (start_solid _ _ y 41); [by rewrite <- Es|done].
  - apply Forall_singleton. rewrite Es. apply start_open.
  - by exists y, 41.
  - by apply calm_bal.
Qed.

Lemma expression_parts (tiers : VisualConfig) :
  config_ok tiers → labels_plain tiers →
  ∃ xs, generateExprFromVisualConfig (Some tiers) = join (js " * ") xs ∧ plain_parts xs.
Proof.
  intros [H Hs] Hl. destruct tiers as [|t rest]; [by destruct Hs as [?|[? ?]]|].
  assert (guards_ok (t :: rest) → ∃ xs, generateExprFromVisualConfig (Some (t :: rest) : option VisualConfig)
    = join (js " * ") xs ∧ plain_parts xs) as Hg.
  { intros Hg. eexists [_]. split; [by apply several_text|]. by apply several_parts. }
  destruct rest as [|t' rest]; [|destruct Hs as [Hs|[? ?]]; [by apply Hg|done]].
  destruct (tier_conditions t) as [|c cs] eqn:Ec; [by apply Hg|].
  pose proof (proj1 (Forall_singleton _ _) H) as Ht. pose proof (proj1 (Forall_singleton _ _) Hl) as Hlt.
  exists [tier_text t ++ js " : p"; js "0 + c"; js "0"]. split; [|by apply single_parts].
  rewrite single_text by (done || by rewrite Ec). cbn [join]. unfold last_part. by rewrite <- !app_assoc.
Qed.

(** ** Splitting *)

Lemma factor_open x : starts_with (js "(") x = false → rx_match factor_re x = None.
Proof. intros H. unfold rx_match, factor_re. by rewrite rseq_cons, run_lit_fail. Qed.

Lemma factor_closed x : rx_match factor_re x ≠ None → ∃ y, x = y ++ js " : 1)".
Proof.
  intros H. destruct (rx_match factor_re x) as [g|] eqn:E; [|done]. unfold rx_match, factor_re in E.
  change [RLit (js "("); ?a; ?b; ?c; ?d; REnd] with ([RLit (js "("); a; b; c] ++ [d; REnd]) in E.
  rewrite rseq_app in E. apply run_lang in E as (y & s & p & g1 & -> & _ & E). exists y. f_equal.
  cbn [rseq] in E. rewrite run_seq in E. cbn [run] in E. unfold run_lit in E.
  destruct (starts_with (js " : 1)") s) eqn:Es; [|done]. apply starts_with_spec in Es as [t ->].
  rewrite drop_app_length in E. destruct t; [by rewrite app_nil_r|done].
Qed.

Lemma not_rule x : part (js " * ") x → rx_match factor_re x = None → is_rule x = Ok false.
Proof.
  intros Hx Hf. pose proof Hx as (Hne & Ht & _). unfold is_rule, tryParseRequestRuleExpr.
  rewrite Ht, truthy_ne by done. cbn [negb].
  assert (splitTopLevelMultiply x = [x]) as ->
    by (apply (multiply_parts [x]); [done|by apply Forall_singleton]).
  cbn [parse_factors]. unfold tryParseRuleGroupFactor. by rewrite Hf.
Qed.

Lemma plain_solid xs : plain_parts xs → solid (join (js " * ") xs).
Proof. intros [Hne Hp _ _ _]. by apply parts_solid. Qed.

(** Nothing is split off an expression without rules. *)
Lemma split_plain xs :
  plain_parts xs →
  splitBillingExprAndRequestRules (join (js " * ") xs) = Ok (join (js " * ") xs, []).
Proof.
  intros Hxs. destruct (plain_solid xs Hxs) as [Hne Ht]. destruct Hxs as [Hx Hp Ho _ _].
  unfold splitBillingExprAndRequestRules. rewrite Ht, truthy_ne, multiply_parts by done. cbn [negb].
  destruct (length xs <=? 1)%nat; [done|].
  assert (partition_parts xs = Ok ([], xs)) as ->; [|done]. clear Hx Hne Ht.
  induction Hp as [|x xs Hx Hp IH]; [done|]. apply Forall_cons in Ho as [Hox Ho]. cbn [partition_parts].
  rewrite not_rule, IH; [done|done|done|by apply factor_open].
Qed.

Lemma not_wrapped_rule xs :
  plain_parts xs → is_rule (js "(" ++ join (js " * ") xs ++ js ")") = Ok false.
Proof.
  intros [_ _ _ (y & c & E & Hc) Hb]. apply not_rule; [by apply mul_part|].
  destruct (rx_match factor_re _) as [g|] eqn:Em; [|done]. exfalso.
  destruct (factor_closed _ ltac:(by rewrite Em)) as [z Ez]. rewrite E in Ez.
  change (js " : 1)") with ((js " : " ++ [49]) ++ js ")") in Ez.
  rewrite !app_assoc in Ez. apply app_inj_tail in Ez as [Ez _].
  by apply app_inj_tail in Ez as [_ ->].
Qed.

Lemma plain_unwrapped xs : plain_parts xs → hasFullOuterParens (join (js " * ") xs) = false.
Proof.
  intros [Hne _ Ho _ _]. unfold hasFullOuterParens. apply andb_false_iff. left. apply andb_false_iff. left.
  destruct Ho as [|x [|x' xs] Hx Ho]; [done|done|].
  change (join (js " * ") (x :: x' :: xs)) with (x ++ js " * " ++ join (js " * ") (x' :: xs)).
  destruct x as [|c x]; [done|]. change (js "(") with [40] in *. cbn in *. by destruct (c =? 40).
Qed.

Lemma combined_or base rules : solid base → str_or (combineBillingExpr base rules) base = combineBillingExpr base rules.
Proof.
  intros [Hne Ht]. unfold combineBillingExpr. rewrite Ht, truthy_ne by done. cbn [negb].
  destruct (truthy (trim rules)); cbn [negb]; [done|]. unfold str_or. by destruct (truthy base).
Qed.

(** An expression with rules, or with none, is split into what was combined. *)
Lemma combined_split xs groups :
  plain_parts xs → Forall faithful_group groups →
  splitBillingExprAndRequestRules (combineBillingExpr (join (js " * ") xs) (buildRequestRuleExpr groups))
  = Ok (join (js " * ") xs, buildRequestRuleExpr groups).
Proof.
  intros Hxs Hg. destruct (plain_solid xs Hxs) as [Hne Ht]. destruct groups as [|g groups].
  - change (buildRequestRuleExpr []) with ([] : jsstr). unfold combineBillingExpr.
    rewrite Ht, truthy_ne by done. cbn [negb trim]. by apply split_plain.
  - apply combine_split; [done|by apply Hxs|done|by apply plain_unwrapped|by apply not_wrapped_rule|done|done].
Qed.

(** With a rule that compares a parameter, the whole expression is taken for
    the base. *)
Lemma combined_unsplit xs groups :
  plain_parts xs → Forall written_group groups → existsb compares groups = true →
  let text := combineBillingExpr (join (js " * ") xs) (buildRequestRuleExpr groups) in
  splitBillingExprAndRequestRules text = Ok (text, []).
Proof.
  intros Hxs Hw Hc. destruct (plain_solid xs Hxs) as [Hne Ht].
  apply combine_unsplit; [done|by apply Hxs|done|by apply not_wrapped_rule|done|done].
Qed.

(** The same for both kinds of rules. *)
Lemma combined_read xs groups :
  plain_parts xs → Forall written_group groups →
  let text := combineBillingExpr (join (js " * ") xs) (buildRequestRuleExpr groups) in
  splitBillingExprAndRequestRules text
  = Ok (if existsb compares groups then (text, []) else (join (js " * ") xs, buildRequestRuleExpr groups)).
Proof.
  intros Hxs Hw text. destruct (existsb compares groups) eqn:Hc; [by apply combined_unsplit|].
  destruct groups as [|g groups]; [by apply combined_split|].
  destruct (plain_solid xs Hxs) as [Hne Ht].
  apply combine_split_written; [done|by apply Hxs|done|by apply plain_unwrapped|by apply not_wrapped_rule|done|done|done].
Qed.
