(* ===== verification/TierEditor.v ===== *)
(** * The editor of tiered prices

    Model of the state of the component TieredPricingEditor in
    src/web/default/src/features/system-settings/models/tiered-pricing-editor.tsx:
    its state, the values it gets from and publishes to the form around it,
    its event handlers and its effects.

    React runs the effects of a component in their order after a rendering,
    each with the values of that rendering; what they set is the state of the
    next rendering.  An effect runs after the first rendering and whenever one
    of its dependencies has changed.  The two effects that publish only
    compare and set, so running them after every rendering is the same. *)
From S2P Require Import Prelude JsString JsNumber Regex JsValue BillingRules BillingRuleFacts TierExpr TierFacts TierRoundtrip TierSplit.

Open Scope N_scope.

(** ** State *)

Inductive EditorMode := Visual | Raw.

(** The properties of the component; [modelName] may be missing. *)
Record editor_props := Props {
  modelName : option jsstr;
  currentExpr : jsstr;
  currentRequestRuleExpr : jsstr;
}.

Record editor := Editor {
  editorMode : EditorMode;
  visualConfig : option VisualConfig;
  rawExpr : jsstr;
  requestRuleGroups : list RequestRuleGroup;
  initRef : bool;
}.

Definition with_rule (rule : jsstr) (ps : editor_props) : editor_props :=
  Props (modelName ps) (currentExpr ps) rule.
Definition with_expr (e : jsstr) (ps : editor_props) : editor_props :=
  Props (modelName ps) e (currentRequestRuleExpr ps).

(** The rules of the properties, [[]] if they are not recognised. *)
Definition read_groups (rule : jsstr) : exc (list RequestRuleGroup) :=
  o ← tryParseRequestRuleExpr rule; Ok (from_opt [] o).

(** The initial values of [useState]. *)
Definition mount (ps : editor_props) : exc editor :=
  cfg ← tryParseVisualConfig (Some (currentExpr ps));
  gs ← read_groups (currentRequestRuleExpr ps);
  Ok (Editor Visual cfg (combineBillingExpr (currentExpr ps) (currentRequestRuleExpr ps)) gs false).

(** ** Effects *)

(** The first effect: the state of new properties. *)
Definition init_effect (ps : editor_props) (s : editor) : exc editor :=
  if initRef s then Ok s
  else
    parsedConfig ← tryParseVisualConfig (Some (currentExpr ps));
    gs ← read_groups (currentRequestRuleExpr ps);
    let raw := combineBillingExpr (currentExpr ps) (currentRequestRuleExpr ps) in
    Ok match parsedConfig with
       | Some cfg => Editor Visual (Some cfg) raw gs true
       | None =>
           if truthy (currentExpr ps) then Editor Raw None raw gs true
           else Editor (editorMode s) (Some createDefaultVisualConfig) raw gs true
       end.

(** The second effect. *)
Definition model_effect (s : editor) : editor :=
  Editor (editorMode s) (visualConfig s) (rawExpr s) (requestRuleGroups s) false.

Definition effectiveExpr (s : editor) : exc jsstr :=
  match editorMode s with
  | Visual => Ok (generateExprFromVisualConfig (visualConfig s))
  | Raw => r ← splitBillingExprAndRequestRules (rawExpr s); Ok r.1
  end.

(** The third and the fourth effect. *)
Definition publish_expr (s : editor) (ps : editor_props) : exc editor_props :=
  e ← effectiveExpr s; Ok (if str_eqb e (currentExpr ps) then ps else with_expr e ps).
Definition publish_rules (s : editor) (ps : editor_props) : editor_props :=
  match editorMode s with
  | Raw => ps
  | Visual =>
      let ruleExpr := buildRequestRuleExpr (requestRuleGroups s) in
      if str_eqb ruleExpr (currentRequestRuleExpr ps) then ps else with_rule ruleExpr ps
  end.

(** The properties whose change runs the first and the second effect. *)
Definition exprs_changed (prev : option editor_props) (ps : editor_props) : bool :=
  match prev with
  | None => true
  | Some q => negb (str_eqb (currentExpr q) (currentExpr ps)
                    && str_eqb (currentRequestRuleExpr q) (currentRequestRuleExpr ps))
  end.
Definition model_changed (prev : option editor_props) (ps : editor_props) : bool :=
  match prev with None => true | Some q => negb (bool_decide (modelName q = modelName ps)) end.

(** A rendering with properties [ps] after one with [prev], and its effects:
    the next state and the next properties. *)
Definition commit (prev : option editor_props) (ps : editor_props) (s : editor)
    : exc (editor * editor_props) :=
  s1 ← (if exprs_changed prev ps then init_effect ps s else Ok s);
  let s2 := if model_changed prev ps then model_effect s1 else s1 in
  ps1 ← publish_expr s ps;
  Ok (s2, publish_rules s ps1).

(** ** Handlers *)

Definition handleVisualChange (next : VisualConfig) (s : editor) : editor :=
  Editor (editorMode s) (Some next) (rawExpr s) (requestRuleGroups s) (initRef s).

Definition handleRuleGroupsChange (next : list RequestRuleGroup) (s : editor) : editor :=
  Editor (editorMode s) (visualConfig s) (rawExpr s) next (initRef s).

Definition handleRawChange (value : jsstr) (s : editor) (ps : editor_props) : exc (editor * editor_props) :=
  r ← splitBillingExprAndRequestRules value;
  Ok (Editor (editorMode s) (visualConfig s) value (requestRuleGroups s) (initRef s), with_rule r.2 ps).

Definition handleModeChange (next : EditorMode) (s : editor) (ps : editor_props)
    : exc (editor * editor_props) :=
  match next with
  | Visual =>
      r ← splitBillingExprAndRequestRules (rawExpr s);
      let '(billingExpr, ruleStr) := r in
      parsed ← tryParseVisualConfig (Some billingExpr);
      gs ← read_groups ruleStr;
      Ok (Editor Visual (Some (from_opt createDefaultVisualConfig parsed)) (rawExpr s) gs (initRef s),
          with_rule ruleStr ps)
  | Raw =>
      let expr := generateExprFromVisualConfig (visualConfig s) in
      let ruleExpr := buildRequestRuleExpr (requestRuleGroups s) in
      Ok (Editor Raw (visualConfig s) (str_or (combineBillingExpr expr ruleExpr) expr)
            (requestRuleGroups s) (initRef s), ps)
  end.

(** The presets that can be applied. *)
Record Preset := PresetOf {
  preset_key : jsstr;
  preset_label : jsstr;
  preset_expr : jsstr;
  preset_requestRules : option (list RequestRuleGroup);
}.
Record PresetGroup := PresetGroupOf { preset_group : jsstr; presets : list Preset }.

Definition PRESET_GROUPS : list PresetGroup := [
   PresetGroupOf (js "Fixed price") [
     PresetOf (js "flat") (js "Flat")
       (jsq "tier('base', p * 2 + c * 4)")
       None;
     PresetOf (js "claude-opus") (js "Claude Opus 4.6")
       (jsq "tier('base', p * 5 + c * 25 + cr * 0.5 + cc * 6.25 + cc1h * 10)")
       None;
     PresetOf (js "gpt-5.4") (js "GPT-5.4")
       (jsq "len <= 272000 ? tier('standard', p * 2.5 + c * 15 + cr * 0.25) : tier('long_context', p * 5 + c * 22.5 + cr * 0.5)")
       None];
   PresetGroupOf (js "Tiered") [
     PresetOf (js "claude-sonnet") (js "Claude Sonnet 4.5")
       (jsq "len <= 200000 ? tier('standard', p * 3 + c * 15 + cr * 0.3 + cc * 3.75 + cc1h * 6) : tier('long_context', p * 6 + c * 22.5 + cr * 0.6 + cc * 7.5 + cc1h * 12)")
       None;
     PresetOf (js "qwen3-max") (js "Qwen3 Max")
       (jsq "len <= 32000 ? tier('short', p * 1.2 + c * 6 + cr * 0.24 + cc * 1.5) : len <= 128000 ? tier('mid', p * 2.4 + c * 12 + cr * 0.48 + cc * 3) : tier('long', p * 3 + c * 15 + cr * 0.6 + cc * 3.75)")
       None;
     PresetOf (js "glm-4.5-air") (js "GLM-4.5 Air")
       (jsq "len < 32000 && c < 200 ? tier('short_output', p * 0.8 + c * 2 + cr * 0.16) : len < 32000 && c >= 200 ? tier('long_output', p * 0.8 + c * 6 + cr * 0.16) : tier('mid_context', p * 1.2 + c * 8 + cr * 0.24)")
       None;
     PresetOf (js "doubao-seed-1.8") (js "Doubao Seed 1.8")
       (jsq "len <= 32000 && c <= 200 ? tier('discount', p * 0.8 + c * 2 + cr * 0.16 + cc * 0.17) : len <= 32000 ? tier('short', p * 0.8 + c * 8 + cr * 0.16 + cc * 0.17) : len <= 128000 ? tier('mid', p * 1.2 + c * 16 + cr * 0.16 + cc * 0.17) : tier('long', p * 2.4 + c * 24 + cr * 0.16 + cc * 0.17)")
       None];
   PresetGroupOf (js "Multimodal") [
     PresetOf (js "gpt-image-1-mini") (js "GPT Image 1 Mini")
       (jsq "tier('base', p * 2 + c * 8 + img * 2.5)")
       None;
     PresetOf (js "gemini-2.5-flash") (js "Gemini 2.5 Flash")
       (jsq "tier('base', p * 0.3 + c * 2.5 + cr * 0.03 + ai * 1.0)")
       None;
     PresetOf (js "gemini-3-pro-image") (js "Gemini 3 Pro Image")
       (jsq "tier('base', p * 2 + c * 12 + img_o * 120)")
       None;
     PresetOf (js "qwen3-omni-flash") (js "Qwen3 Omni Flash")
       (jsq "tier('base', p * 0.43 + c * 3.06 + img * 0.78 + ai * 3.81 + ao * 15.11)")
       None];
   PresetGroupOf (js "Request rule") [
     PresetOf (js "claude-opus-fast") (js "Claude Opus 4.6 Fast")
       (jsq "tier('base', p * 5 + c * 25 + cr * 0.5 + cc * 6.25 + cc1h * 10)")
       (Some [RuleGroup [ParamHeaderCondition Header (js "anthropic-beta") MATCH_CONTAINS (js "fast-mode-2026-02-01")] (js "6")]);
     PresetOf (js "gpt-5.4-tiers") (js "GPT-5.4 Priority/Flex")
       (jsq "len <= 272000 ? tier('standard', p * 2.5 + c * 15 + cr * 0.25) : tier('long_context', p * 5 + c * 22.5 + cr * 0.5)")
       (Some [RuleGroup [ParamHeaderCondition Param (js "service_tier") MATCH_EQ (js "priority")] (js "2");
         RuleGroup [ParamHeaderCondition Param (js "service_tier") MATCH_EQ (js "flex")] (js "0.5")])];
   PresetGroupOf (js "Time-based") [
     PresetOf (js "night-discount") (js "Night discount (50%)")
       (jsq "tier('base', p * 3 + c * 15)")
       (Some [RuleGroup [TimeCondition Hour (js "Asia/Shanghai") MATCH_RANGE [] (js "21") (js "6")] (js "0.5")]);
     PresetOf (js "weekend-discount") (js "Weekend discount (80%)")
       (jsq "tier('base', p * 3 + c * 15)")
       (Some [RuleGroup [TimeCondition Weekday (js "Asia/Shanghai") MATCH_EQ (js "0") [] []] (js "0.8");
         RuleGroup [TimeCondition Weekday (js "Asia/Shanghai") MATCH_EQ (js "6") [] []] (js "0.8")])]
].

Definition preset_groups (p : Preset) : list RequestRuleGroup := from_opt [] (preset_requestRules p).

Definition applyPreset (preset : Preset) (s : editor) (ps : editor_props) : exc (editor * editor_props) :=
  let presetGroups := preset_groups preset in
  let ruleExpr := buildRequestRuleExpr presetGroups in
  let combined := str_or (combineBillingExpr (preset_expr preset) ruleExpr) (preset_expr preset) in
  parsed ← tryParseVisualConfig (Some (preset_expr preset));
  Ok (match parsed with
      | Some cfg => Editor Visual (Some cfg) combined presetGroups (initRef s)
      | None => Editor Raw None combined presetGroups (initRef s)
      end, with_rule ruleExpr ps).

(** Renderings one after the other without an event between them. *)
Fixpoint commits (n : nat) (prev : option editor_props) (ps : editor_props) (s : editor)
    : exc (editor * editor_props) :=
  match n with
  | O => Ok (s, ps)
  | S n => r ← commit prev ps s; commits n (Some ps) r.2 r.1
  end.

(** ** Lemmas *)

(** The form holds what the visual editor shows. *)
Definition saved (name : option jsstr) (tiers : VisualConfig) (groups : list RequestRuleGroup) : editor_props :=
  Props name (generateExprFromVisualConfig (Some tiers)) (buildRequestRuleExpr groups).

Lemma exprs_same ps : exprs_changed (Some ps) ps = false.
Proof. unfold exprs_changed, str_eqb. by rewrite !bool_decide_eq_true_2. Qed.

Lemma model_same q ps : modelName q = modelName ps → model_changed (Some q) ps = false.
Proof. intros H. unfold model_changed. by rewrite bool_decide_eq_true_2. Qed.

(** What the visual mode publishes. *)
Definition published (s : editor) (ps : editor_props) : editor_props :=
  Props (modelName ps) (generateExprFromVisualConfig (visualConfig s))
    (buildRequestRuleExpr (requestRuleGroups s)).

Lemma commit_visual prev ps s :
  editorMode s = Visual →
  commit prev ps s =
    (s1 ← (if exprs_changed prev ps then init_effect ps s else Ok s);
     Ok (if model_changed prev ps then model_effect s1 else s1, published s ps)).
Proof.
  intros Hm. unfold commit. destruct (if exprs_changed prev ps then _ else _) as [s1| |]; try done.
  unfold publish_expr, publish_rules, effectiveExpr, published, str_eqb, mbind, exc_bind. rewrite Hm.
  do 2 f_equal. destruct ps as [name e r]. cbn [currentExpr].
  repeat case_bool_decide; unfold with_rule, with_expr in *;
    cbn [modelName currentExpr currentRequestRuleExpr] in *; congruence.
Qed.

Lemma commit_again ps s : editorMode s = Visual → commit (Some ps) ps s = Ok (s, published s ps).
Proof. intros H. by rewrite commit_visual, exprs_same, model_same. Qed.

(** Nothing happens any more once the form holds what is shown. *)
Lemma commits_rest n ps s :
  editorMode s = Visual → published s ps = ps → commits n (Some ps) ps s = Ok (s, ps).
Proof.
  intros Hm Hp. induction n as [|n IH]; [done|]. cbn [commits]. rewrite commit_again, Hp by done. exact IH.
Qed.

Lemma init_skipped (b : bool) ps s : initRef s = true → (if b then init_effect ps s else Ok s) = Ok s.
Proof. intros H. unfold init_effect. rewrite H. by destruct b. Qed.

Lemma commits_done n q ps s :
  editorMode s = Visual → initRef s = true → published s ps = ps → modelName q = modelName ps →
  commits n (Some q) ps s = Ok (s, ps).
Proof.
  intros Hm Hi Hp Hq. destruct n as [|n]; [done|]. cbn [commits]. rewrite commit_visual, model_same, Hp, init_skipped by done.
  by apply commits_rest.
Qed.

Lemma read_back groups :
  Forall faithful_group groups → read_groups (buildRequestRuleExpr groups) = Ok groups.
Proof. intros H. unfold read_groups. by rewrite groups_back. Qed.

(** Tiers and rules that the readers of their expressions return. *)
Definition reads_back (tiers : VisualConfig) (groups : list RequestRuleGroup) : Prop :=
  tryParseVisualConfig (Some (generateExprFromVisualConfig (Some tiers))) = Ok (Some tiers) ∧
  read_groups (buildRequestRuleExpr groups) = Ok groups.

Lemma ok_reads_back tiers groups :
  config_ok tiers → Forall faithful_group groups → reads_back tiers groups.
Proof. intros Ht Hg. split; [by apply config_back|by apply read_back]. Qed.

Lemma mount_read name tiers rule groups :
  tryParseVisualConfig (Some (generateExprFromVisualConfig (Some tiers))) = Ok (Some tiers) →
  read_groups rule = Ok groups →
  ∃ raw, mount (Props name (generateExprFromVisualConfig (Some tiers)) rule)
         = Ok (Editor Visual (Some tiers) raw groups false).
Proof.
  intros Ht Hg. unfold mount. cbn [currentExpr currentRequestRuleExpr]. rewrite Ht, Hg. by eexists.
Qed.

(** The first effect finds the tiers and the rules of the form. *)
Lemma init_read name tiers rule groups s :
  tryParseVisualConfig (Some (generateExprFromVisualConfig (Some tiers))) = Ok (Some tiers) →
  read_groups rule = Ok groups → initRef s = false →
  ∃ raw, init_effect (Props name (generateExprFromVisualConfig (Some tiers)) rule) s
         = Ok (Editor Visual (Some tiers) raw groups true).
Proof.
  intros Ht Hg Hi. unfold init_effect. rewrite Hi. cbn [currentExpr currentRequestRuleExpr].
  rewrite Ht, Hg. by eexists.
Qed.

Lemma init_saved name tiers groups raw i :
  reads_back tiers groups →
  ∃ raw' i', init_effect (saved name tiers groups) (Editor Visual (Some tiers) raw groups i)
             = Ok (Editor Visual (Some tiers) raw' groups i').
Proof.
  intros [Ht Hg]. destruct i; [by do 2 eexists|].
  destruct (init_read name tiers _ groups (Editor Visual (Some tiers) raw groups false) Ht Hg)
    as [raw' H]; [done|]. by exists raw', true.
Qed.

(** Once the form holds what the editor shows, both stay. *)
Lemma saved_stays name tiers raw groups i n q :
  reads_back tiers groups → modelName q = name →
  ∃ raw' i', commits n (Some q) (saved name tiers groups) (Editor Visual (Some tiers) raw groups i)
             = Ok (Editor Visual (Some tiers) raw' groups i', saved name tiers groups).
Proof.
  intros Hb Hq. destruct n as [|n]; [by do 2 eexists|]. cbn [commits].
  rewrite commit_visual, model_same by done.
  assert (∃ raw' i', (if exprs_changed (Some q) (saved name tiers groups)
    then init_effect (saved name tiers groups) (Editor Visual (Some tiers) raw groups i)
    else Ok (Editor Visual (Some tiers) raw groups i)) = Ok (Editor Visual (Some tiers) raw' groups i'))
    as (raw' & i' & ->).
  { destruct (exprs_changed _ _); [by apply init_saved|by do 2 eexists]. }
  exists raw', i'. by apply commits_rest.
Qed.

(** The editor on the expression of tiers that read back: it shows them with
    the rules that it recognises, which the form then holds. *)
Lemma opened name tiers rule groups n :
  reads_back tiers groups → read_groups rule = Ok groups →
  ∃ s0, mount (Props name (generateExprFromVisualConfig (Some tiers)) rule) = Ok s0 ∧
  ∃ raw i, commits (S n) None (Props name (generateExprFromVisualConfig (Some tiers)) rule) s0
           = Ok (Editor Visual (Some tiers) raw groups i, saved name tiers groups).
Proof.
  intros Hb Hg. pose proof Hb as [Ht _]. destruct (mount_read name tiers rule groups Ht Hg) as [raw Hm].
  eexists. split; [exact Hm|]. cbn [commits]. rewrite commit_visual by done. cbn [exprs_changed model_changed].
  edestruct (init_read name) as [raw' ->]; [done..|]. by apply (saved_stays _ _ raw').
Qed.

(** Edits are published by the next rendering. *)
Lemma edits_published tiers groups raw i ps n :
  reads_back tiers groups →
  ∃ raw' i', commits (S n) (Some ps) ps (Editor Visual (Some tiers) raw groups i)
             = Ok (Editor Visual (Some tiers) raw' groups i', saved (modelName ps) tiers groups).
Proof.
  intros Hb. cbn [commits]. rewrite commit_again by done. by apply (saved_stays _ _ raw _ i).
Qed.

(** ** Presets *)

#[local] Instance exc_eq_dec {A} `{EqDecision A} : EqDecision (exc A).
Proof. solve_decision. Defined.
#[local] Instance config_eq_dec : EqDecision VisualConfig := list_eq_dec.

(** What the check of a preset computes. *)
Definition preset_readable (p : Preset) : bool :=
  match tryParseVisualConfig (Some (preset_expr p)) with
  | Ok (Some tiers) =>
      bool_decide (tryParseVisualConfig (Some (generateExprFromVisualConfig (Some tiers))) = Ok (Some tiers))
      && bool_decide (read_groups (buildRequestRuleExpr (preset_groups p)) = Ok (preset_groups p))
  | _ => false
  end.

Lemma presets_readable : forallb (λ g, forallb preset_readable (presets g)) PRESET_GROUPS = true.
Proof. vm_compute. reflexivity. Qed.

(** A preset is shown in the visual mode, as it can be read back. *)
Lemma preset_applied g p s ps :
  g ∈ PRESET_GROUPS → p ∈ presets g →
  ∃ tiers raw, tryParseVisualConfig (Some (preset_expr p)) = Ok (Some tiers) ∧
  reads_back tiers (preset_groups p) ∧
  applyPreset p s ps = Ok (Editor Visual (Some tiers) raw (preset_groups p) (initRef s),
                           with_rule (buildRequestRuleExpr (preset_groups p)) ps).
Proof.
  intros Hg Hp. pose proof presets_readable as H. rewrite forallb_forall in H.
  specialize (H g ltac:(by apply list_elem_of_In)). rewrite forallb_forall in H.
  specialize (H p ltac:(by apply list_elem_of_In)). unfold preset_readable in H. unfold applyPreset.
  destruct (tryParseVisualConfig (Some (preset_expr p))) as [[tiers|]| |]; try done.
  apply andb_true_iff in H as [H1%bool_decide_eq_true H2%bool_decide_eq_true].
  by do 2 eexists.
Qed.

(** ** Properties *)

(** Opening the editor on a saved model changes nothing: for tiers and
    rules that read back, the editor shows the saved tiers and the saved rules
    in the visual mode and, however often it is rendered, neither what it
    shows nor the expressions of the form change. *)
Theorem editor_opens_saved (name : option jsstr) (tiers : VisualConfig) (groups : list RequestRuleGroup) n :
  config_ok tiers → Forall faithful_group groups →
  ∃ s0, mount (saved name tiers groups) = Ok s0 ∧
  ∃ raw i, commits (S n) None (saved name tiers groups) s0
           = Ok (Editor Visual (Some tiers) raw groups i, saved name tiers groups).
Proof.
  intros Ht Hg. pose proof (ok_reads_back _ _ Ht Hg) as Hb. apply opened; [done|apply Hb].
Qed.

(** C26. Edits of the visual editor are saved: whatever the form holds and
    whatever was edited before, once the visual editor shows tiers and rules
    that read back, the next rendering puts their expressions into the form,
    and from then on the editor goes on showing them and the form holding
    them. *)
Theorem visual_edits_saved (next : VisualConfig) (nextGroups : list RequestRuleGroup) s ps n :
  editorMode s = Visual → config_ok next → Forall faithful_group nextGroups →
  ∃ raw i, commits (S n) (Some ps) ps (handleRuleGroupsChange nextGroups (handleVisualChange next s))
           = Ok (Editor Visual (Some next) raw nextGroups i, saved (modelName ps) next nextGroups).
Proof.
  intros Hm Ht Hg. destruct s as [mode cfg raw gs i]. cbn in Hm. subst mode.
  apply edits_published. by apply ok_reads_back.
Qed.

(** Switching to the text editor and back keeps the configuration: for
    tiers and rules that read back, with labels free of parentheses, the text
    has the tiers as its billing expression, and the visual mode is back with
    the same tiers and the same rules, which the form still holds. *)
Theorem mode_switch_roundtrip (tiers : VisualConfig) (groups : list RequestRuleGroup) mode raw i ps :
  config_ok tiers → labels_plain tiers → Forall faithful_group groups →
  ∃ s1 raw', handleModeChange Raw (Editor mode (Some tiers) raw groups i) ps = Ok (s1, ps) ∧
  effectiveExpr s1 = Ok (generateExprFromVisualConfig (Some tiers)) ∧
  handleModeChange Visual s1 ps
  = Ok (Editor Visual (Some tiers) raw' groups i, with_rule (buildRequestRuleExpr groups) ps).
Proof.
  intros Ht Hl Hg. destruct (expression_parts tiers Ht Hl) as (xs & E & Hxs).
  set (text := str_or (combineBillingExpr (generateExprFromVisualConfig (Some tiers)) (buildRequestRuleExpr groups))
                 (generateExprFromVisualConfig (Some tiers))).
  assert (splitBillingExprAndRequestRules text
    = Ok (generateExprFromVisualConfig (Some tiers), buildRequestRuleExpr groups)) as Hs.
  { unfold text. rewrite E, combined_or by (by apply plain_solid). by apply combined_split. }
  exists (Editor Raw (Some tiers) text groups i), text. split; [done|]. split.
  - unfold effectiveExpr. cbn [editorMode rawExpr]. by rewrite Hs.
  - unfold handleModeChange. cbn [rawExpr initRef]. rewrite Hs. cbn [mbind exc_bind].
    by rewrite config_back, read_back by done.
Qed.

(** Opening a model erases rules that the visual editor cannot show: when
    the tiers read back but the rules are not recognised, the editor opens in
    the visual mode with no rules and publishes them, so the form's rules
    become empty although nothing was edited. *)
Theorem unread_rules_erased (name : option jsstr) (tiers : VisualConfig) (rule : jsstr) n :
  config_ok tiers → tryParseRequestRuleExpr rule = Ok None →
  ∃ s0, mount (Props name (generateExprFromVisualConfig (Some tiers)) rule) = Ok s0 ∧
  ∃ raw i, commits (S n) None (Props name (generateExprFromVisualConfig (Some tiers)) rule) s0
           = Ok (Editor Visual (Some tiers) raw [] i, saved name tiers []).
Proof.
  intros Ht Hr. apply opened; [by apply ok_reads_back, Forall_nil|].
  unfold read_groups. by rewrite Hr.
Qed.

(** A preset is applied completely once the editor has initialised itself
    (or when it leaves the rules of the form as they are): each preset is read
    by the visual editor, and the next renderings put its tiers and its rules
    into the form, where they stay. *)
Theorem presets_saved g p s ps n :
  g ∈ PRESET_GROUPS → p ∈ presets g →
  initRef s = true ∨ currentRequestRuleExpr ps = buildRequestRuleExpr (preset_groups p) →
  ∃ tiers s1 ps1, tryParseVisualConfig (Some (preset_expr p)) = Ok (Some tiers) ∧
  applyPreset p s ps = Ok (s1, ps1) ∧
  ∃ raw i, commits (S n) (Some ps) ps1 s1
           = Ok (Editor Visual (Some tiers) raw (preset_groups p) i, saved (modelName ps) tiers (preset_groups p)).
Proof.
  intros Hg Hp Hi. destruct (preset_applied g p s ps Hg Hp) as (tiers & raw & Ht & Hb & Ha).
  exists tiers. do 2 eexists. split; [exact Ht|]. split; [exact Ha|]. destruct Hi as [Hi|Hr].
  - cbn [commits]. rewrite commit_visual, model_same by done. rewrite init_skipped by done.
    by apply (saved_stays _ _ raw _ (initRef s)).
  - rewrite <- Hr. assert (with_rule (currentRequestRuleExpr ps) ps = ps) as -> by (by destruct ps).
    by apply edits_published.
Qed.

(** A preset with rules that is applied first after the editor was opened
    is applied by half: its rules are kept, but its tiers are replaced by
    those of the model, since the rules reach the form before the tiers, and
    the first effect, which has not been told that the editor is initialised,
    reads the tiers of the form. *)
Theorem preset_reverted g p name (tiers : VisualConfig) (groups : list RequestRuleGroup) n :
  g ∈ PRESET_GROUPS → p ∈ presets g →
  config_ok tiers → Forall faithful_group groups →
  buildRequestRuleExpr groups ≠ buildRequestRuleExpr (preset_groups p) →
  ∃ s0 s1 s2 ps2,
    mount (saved name tiers groups) = Ok s0 ∧
    commit None (saved name tiers groups) s0 = Ok (s1, saved name tiers groups) ∧
    applyPreset p s1 (saved name tiers groups) = Ok (s2, ps2) ∧
    ∃ raw, commits (S (S n)) (Some (saved name tiers groups)) ps2 s2
    = Ok (Editor Visual (Some tiers) raw (preset_groups p) true, saved name tiers (preset_groups p)).
Proof.
  intros Hg Hp Hc Hf Hne. destruct (ok_reads_back _ _ Hc Hf) as [Ht Hr].
  destruct (mount_read name tiers _ groups Ht Hr) as [raw0 Hm].
  assert (∃ raw1, init_effect (saved name tiers groups) (Editor Visual (Some tiers) raw0 groups false)
    = Ok (Editor Visual (Some tiers) raw1 groups true)) as [raw1 Hi] by (by apply init_read).
  set (s1 := Editor Visual (Some tiers) raw1 groups false).
  destruct (preset_applied g p s1 (saved name tiers groups) Hg Hp) as (pt & raw2 & Hpt & [_ Hpr] & Ha).
  eexists _, s1, _, _. split; [exact Hm|]. split.
  { rewrite commit_visual by done. cbn [exprs_changed model_changed]. by rewrite Hi. }
  split; [exact Ha|]. cbn [commits]. rewrite commit_visual, model_same by done.
  assert (exprs_changed (Some (saved name tiers groups))
    (with_rule (buildRequestRuleExpr (preset_groups p)) (saved name tiers groups)) = true) as ->.
  { unfold exprs_changed, str_eqb. cbn [with_rule saved currentExpr currentRequestRuleExpr].
    by rewrite (bool_decide_eq_false_2 _ Hne), andb_false_r. }
  change (with_rule _ (saved name tiers groups)) with (saved name tiers (preset_groups p)).
  set (s2 := Editor Visual (Some pt) raw2 (preset_groups p) (initRef s1)).
  assert (∃ raw3, init_effect (saved name tiers (preset_groups p)) s2
    = Ok (Editor Visual (Some tiers) raw3 (preset_groups p) true)) as [raw3 ->] by (by apply init_read).
  cbn [mbind exc_bind fst snd]. rewrite commit_visual, model_same, init_skipped by done. exists raw3.
  by apply commits_done.
Qed.

(** ** Witnesses *)

Lemma editor_opens_saved_witness :
  ∃ s0, mount (saved None sample_tiers [sample_rule]) = Ok s0 ∧
  ∃ raw i, commits 3 None (saved None sample_tiers [sample_rule]) s0
           = Ok (Editor Visual (Some sample_tiers) raw [sample_rule] i, saved None sample_tiers [sample_rule]).
Proof. apply editor_opens_saved; [exact sample_tiers_ok|apply Forall_singleton, sample_faithful]. Defined.

Lemma visual_edits_saved_witness :
  ∃ raw i, commits 2 (Some (Props None [] [])) (Props None [] [])
             (handleRuleGroupsChange [sample_rule] (handleVisualChange sample_tiers
                (Editor Visual (Some createDefaultVisualConfig) [] [] false)))
           = Ok (Editor Visual (Some sample_tiers) raw [sample_rule] i, saved None sample_tiers [sample_rule]).
Proof.
  apply visual_edits_saved; [done|exact sample_tiers_ok|apply Forall_singleton, sample_faithful].
Defined.

Lemma sample_labels_plain : labels_plain sample_tiers.
Proof. repeat (apply Forall_cons; split; [concrete|]). apply Forall_nil. done. Qed.

Lemma mode_switch_roundtrip_witness :
  ∃ s1 raw', handleModeChange Raw (Editor Visual (Some sample_tiers) [] [sample_rule] true)
               (saved None sample_tiers [sample_rule]) = Ok (s1, saved None sample_tiers [sample_rule]) ∧
  effectiveExpr s1 = Ok (generateExprFromVisualConfig (Some sample_tiers)) ∧
  handleModeChange Visual s1 (saved None sample_tiers [sample_rule])
  = Ok (Editor Visual (Some sample_tiers) raw' [sample_rule] true,
        with_rule (buildRequestRuleExpr [sample_rule]) (saved None sample_tiers [sample_rule])).
Proof.
  apply mode_switch_roundtrip;
    [exact sample_tiers_ok|exact sample_labels_plain|apply Forall_singleton, sample_faithful].
Defined.

(** A rule that the editor itself writes. *)
Definition sample_comparison : jsstr :=
  buildRequestRuleExpr [RuleGroup [ParamHeaderCondition Param (js "n") MATCH_GTE (js "5")] (js "2")].

Lemma unread_rules_erased_witness :
  sample_comparison ≠ [] ∧
  ∃ s0, mount (Props None (generateExprFromVisualConfig (Some sample_tiers)) sample_comparison) = Ok s0 ∧
  ∃ raw i, commits 2 None (Props None (generateExprFromVisualConfig (Some sample_tiers)) sample_comparison) s0
           = Ok (Editor Visual (Some sample_tiers) raw [] i, saved None sample_tiers []).
Proof.
  split; [by vm_compute|]. apply unread_rules_erased; [exact sample_tiers_ok|vm_compute; reflexivity].
Defined.

(** The preset of a discount at night. *)
Definition night_group : PresetGroup := List.nth 4 PRESET_GROUPS (PresetGroupOf [] []).
Definition night_preset : Preset := List.nth 0 (presets night_group) (PresetOf [] [] [] None).

Lemma presets_saved_witness :
  ∃ tiers s1 ps1, tryParseVisualConfig (Some (preset_expr night_preset)) = Ok (Some tiers) ∧
  applyPreset night_preset (Editor Raw None [] [] true) (Props None [] []) = Ok (s1, ps1) ∧
  ∃ raw i, commits 2 (Some (Props None [] [])) ps1 s1
           = Ok (Editor Visual (Some tiers) raw (preset_groups night_preset) i,
                 saved None tiers (preset_groups night_preset)).
Proof.
  apply (presets_saved night_group); [apply list_elem_of_In; right; right; right; right; left; reflexivity
    |apply list_elem_of_In; left; reflexivity|left; reflexivity].
Defined.

Lemma preset_reverted_witness :
  ∃ s0 s1 s2 ps2,
    mount (saved None sample_tiers []) = Ok s0 ∧
    commit None (saved None sample_tiers []) s0 = Ok (s1, saved None sample_tiers []) ∧
    applyPreset night_preset s1 (saved None sample_tiers []) = Ok (s2, ps2) ∧
    ∃ raw, commits 2 (Some (saved None sample_tiers [])) ps2 s2
    = Ok (Editor Visual (Some sample_tiers) raw (preset_groups night_preset) true,
          saved None sample_tiers (preset_groups night_preset)).
Proof.
  apply (preset_reverted night_group); [apply list_elem_of_In; right; right; right; right; left; reflexivity
    |apply list_elem_of_In; left; reflexivity|exact sample_tiers_ok|apply Forall_nil; done|vm_compute; discriminate].
Defined.
