(* ===== verification/Prices.v ===== *)
(** * Displayed prices

    Model of src/web/default/src/features/pricing/lib/price.ts, dynamic-price.ts
    and model-helpers.ts (the prices of the model square) and of
    features/creation-center/cost.ts (the cost shown beside a model of the
    creation centre).  The currency settings of the store are an argument of
    what shows an amount; the order of strings in the language of the browser
    is a parameter. *)
From S2P Require Import Prelude JsString JsNumber Regex JsValue JsFixed Currency BillingRules TierExpr.
From Stdlib Require Import SpecFloat.

Open Scope N_scope.

(** [a.localeCompare(b)]. *)
Class LocaleOrder := locale_compare : jsstr → jsstr → Z.

(** ** Models *)

(** A plain object with numbers, its members in the order of [Object.keys]. *)
Abbreviation ratios := (list (jsstr * num)).

Definition member_of (k : jsstr) (o : ratios) : option num := snd <$> find_first (λ e, str_eqb e.1 k) o.

(** The members of a model that prices depend on; [enable_groups] is missing
    when it is no array. *)
Record PricedModel := Pricing {
  quota_type : num;
  model_ratio : num;
  completion_ratio : num;
  model_price : option num;
  cache_ratio : option num;
  create_cache_ratio : option num;
  image_ratio : option num;
  audio_ratio : option num;
  audio_completion_ratio : option num;
  enable_groups : option (list jsstr);
  group_ratio : option ratios;
  billing_mode : option jsstr;
  billing_expr : option jsstr;
  video_billing_mode : option jsstr;
  price_configured : option bool;
  video_resolution_prices : option ratios;
}.

Inductive PriceType := PInput | POutput | PCache | PCreateCache | PImage | PAudioInput | PAudioOutput.
Inductive TokenUnit := UnitM | UnitK.

Definition TOKEN_UNIT_DIVISORS (u : TokenUnit) : num := match u with UnitM => n1 | UnitK => n1000 end.
Definition QUOTA_TYPE_TOKEN : num := of_Z 0.
Definition QUOTA_TYPE_REQUEST : num := of_Z 1.
Definition EXCLUDED_GROUPS : list jsstr := [[]; js "auto"].

Definition mode_is (o : option jsstr) (s : string) : bool :=
  match o with Some m => str_eqb m (js s) | None => false end.

(** ** price.ts *)

Definition VIDEO_RESOLUTION_PRICE_ORDER : list jsstr :=
  [js "480p"; js "720p"; js "1080p"; js "1k"; js "2k"; js "4k"].

(** The patterns of stripTrailingZeros: a symbol, a number and an optional k;
    the zeros at the end. *)
Definition formatted_price_re : re :=
  rseq [RGrp 1 (RStar (RChr (λ c, negb (is_digit c || (c =? 45)))));
        RGrp 2 (rseq [RPlus (RChr (λ c, (c =? 45) || is_digit c || (c =? 44))); ROpt (RLit (js "."));
                      RStar (RChr is_digit)]);
        RGrp 3 (ROpt (RLit (js "k"))); REnd].
Definition end_zeros_re : re := rseq [ROpt (RLit (js ".")); RPlus (RChr (N.eqb 48)); REnd].

Definition stripTrailingZeros (formatted : jsstr) : jsstr :=
  match rx_match formatted_price_re formatted with
  | None => formatted
  | Some g =>
      let cleanNumber := replace_class (N.eqb 44) [] (grp 2 g) in
      let parsed := parse_float cleanNumber in
      if is_nan parsed then formatted
      else
        let result := num_to_str parsed in
        let result :=
          if str_includes (js "e") result then rx_replace_first end_zeros_re (λ _, []) (to_fixed 20 parsed)
          else result in
        grp 1 g ++ result ++ grp 3 g
  end.

(** The loop of getMinGroupRatio and of getDynamicDisplayGroupRatio. *)
Definition smaller_ratio (groupRatio : ratios) (minRatio : num) (group : jsstr) : num :=
  match member_of group groupRatio with
  | Some ratio => if nltb ratio minRatio then ratio else minRatio
  | None => minRatio
  end.

Definition getMinGroupRatio (enableGroups : list jsstr) (groupRatio : ratios) : num :=
  match enableGroups with
  | [] => n1
  | _ =>
      let minRatio := fold_left (smaller_ratio groupRatio) enableGroups nInf in
      if neqb minRatio nInf then n1 else minRatio
  end.

Definition hasRatio (o : option num) : bool := match o with Some x => is_finite x | None => false end.

(** [Number(o)] of a member that is there. *)
Definition ratio_num (o : option num) : num := from_opt nNaN o.

Definition calculateTokenPrice (model : PricedModel) (type : PriceType) (ratio : num) : num :=
  let base := nmul (nmul (model_ratio model) (of_Z 2)) ratio in
  let by_ratio o := if hasRatio o then nmul base (ratio_num o) else nNaN in
  match type with
  | PInput => base
  | POutput => nmul base (completion_ratio model)
  | PCache => by_ratio (cache_ratio model)
  | PCreateCache => by_ratio (create_cache_ratio model)
  | PImage => by_ratio (image_ratio model)
  | PAudioInput => by_ratio (audio_ratio model)
  | PAudioOutput =>
      if hasRatio (audio_ratio model) && hasRatio (audio_completion_ratio model) then
        nmul (nmul base (ratio_num (audio_ratio model))) (ratio_num (audio_completion_ratio model))
      else nNaN
  end.

Definition applyRechargeRate (price : num) (showWithRecharge : bool) (priceRate usdRate : num) : num :=
  if negb showWithRecharge then price else ndiv (nmul price priceRate) usdRate.

Section Prices.
Context `{NumberApi} `{LocaleOrder}.
Implicit Types (store : option StoredCurrency) (model : PricedModel).

Definition getVideoResolutionPriceKeys model : list jsstr :=
  let prices := from_opt [] (video_resolution_prices model) in
  let usable r := hasRatio (member_of r prices) in
  let orderedKeys := filterb usable VIDEO_RESOLUTION_PRICE_ORDER in
  let extraKeys :=
    sort_by (λ a b, (locale_compare a b <=? 0)%Z)
      (filterb usable (filterb (λ r, negb (includes r VIDEO_RESOLUTION_PRICE_ORDER)) (map fst prices))) in
  orderedKeys ++ extraKeys.

Definition isVideoResolutionTierModel model : bool :=
  (mode_is (video_billing_mode model) "tiered_seconds" || mode_is (video_billing_mode model) "tiered_request")
  && (0 <? length (getVideoResolutionPriceKeys model))%nat.

Definition getVideoResolutionTierUnitLabelKey model : jsstr :=
  if mode_is (video_billing_mode model) "tiered_seconds" then js "per second" else js "per request".
Definition getVideoResolutionTierShortUnitLabelKey model : jsstr :=
  if mode_is (video_billing_mode model) "tiered_seconds" then js "seconds" else js "times".
Definition getMediaPriceShortUnitLabelKey model : jsstr :=
  if mode_is (video_billing_mode model) "dynamic" then js "seconds" else js "times".
Definition getVideoResolutionTierModeLabelKey model : jsstr :=
  if mode_is (video_billing_mode model) "tiered_seconds" then js "Tiered by second" else js "Tiered by request".

Record TierPriceEntry := TierPrice { tp_resolution : jsstr; tp_price : num; tp_formatted : jsstr }.

Record TierPriceOptions := TierPriceOptionsOf {
  tpo_showWithRecharge : option bool;
  tpo_priceRate : option num;
  tpo_usdExchangeRate : option num;
  tpo_groupRatioMultiplier : option num;
}.

(** Options of the formatter: four digits, or six below one; no k. *)
Definition price_digits (small : nat) : option CurrencyFormatOptions :=
  Some (PartialOptions (Some 4%nat) (Some small) (Some false) None).

Definition min_ratio_of model : num :=
  getMinGroupRatio (from_opt [] (enable_groups model)) (from_opt [] (group_ratio model)).

Definition getVideoResolutionTierPriceEntries store model (options : TierPriceOptions) : list TierPriceEntry :=
  if negb (isVideoResolutionTierModel model) then []
  else
    let multiplier := from_opt (min_ratio_of model) (tpo_groupRatioMultiplier options) in
    map (λ resolution,
      let basePrice := from_opt n0 (member_of resolution (from_opt [] (video_resolution_prices model))) in
      let price := applyRechargeRate (nmul basePrice multiplier) (from_opt false (tpo_showWithRecharge options))
                     (from_opt n1 (tpo_priceRate options)) (from_opt n1 (tpo_usdExchangeRate options)) in
      TierPrice resolution price (formatCurrencyFromUSD store (Some price) (price_digits 4)))
    (getVideoResolutionPriceKeys model).

(** The end of formatPrice and formatGroupPrice. *)
Definition token_price store model (type : PriceType) (ratio : num) (unit : TokenUnit) (show : bool)
    (priceRate usdRate : num) : jsstr :=
  let priceInUSD := applyRechargeRate (calculateTokenPrice model type ratio) show priceRate usdRate in
  formatCurrencyFromUSD store (Some (ndiv priceInUSD (TOKEN_UNIT_DIVISORS unit))) (price_digits 6).

Definition formatPrice store model (type : PriceType) (unit : TokenUnit) (show : bool) (priceRate usdRate : num)
    : jsstr :=
  if neqb (quota_type model) QUOTA_TYPE_REQUEST then dash
  else token_price store model type (min_ratio_of model) unit show priceRate usdRate.

(** [groupRatio[group] || 1]. *)
Definition group_ratio_or_one (group : jsstr) (groupRatio : ratios) : num :=
  num_or (from_opt nNaN (member_of group groupRatio)) n1.

Definition formatGroupPrice store model (group : jsstr) (type : PriceType) (unit : TokenUnit) (show : bool)
    (priceRate usdRate : num) (groupRatio : ratios) : jsstr :=
  if neqb (quota_type model) QUOTA_TYPE_REQUEST then dash
  else token_price store model type (group_ratio_or_one group groupRatio) unit show priceRate usdRate.

(** The end of formatFixedPrice and formatRequestPrice. *)
Definition request_price_text store model (ratio : num) (show : bool) (priceRate usdRate : num) : jsstr :=
  let priceInUSD := nmul (num_or (from_opt nNaN (model_price model)) n0) ratio in
  formatCurrencyFromUSD store (Some (applyRechargeRate priceInUSD show priceRate usdRate)) (price_digits 4).

Definition not_configured model : bool := bool_decide (price_configured model = Some false).

Definition formatFixedPrice store model (group : jsstr) (show : bool) (priceRate usdRate : num)
    (groupRatio : ratios) : jsstr :=
  if not_configured model then js "—"
  else if negb (neqb (quota_type model) QUOTA_TYPE_REQUEST) then dash
  else request_price_text store model (group_ratio_or_one group groupRatio) show priceRate usdRate.

Definition formatRequestPrice store model (show : bool) (priceRate usdRate : num) : jsstr :=
  if not_configured model then js "—"
  else if negb (neqb (quota_type model) QUOTA_TYPE_REQUEST) then dash
  else request_price_text store model (min_ratio_of model) show priceRate usdRate.

(** ** model-helpers.ts *)

Definition getAvailableGroups model (usableGroup : list jsstr) : list jsstr :=
  filterb (λ g, includes g (from_opt [] (enable_groups model)))
    (filterb (λ g, negb (includes g EXCLUDED_GROUPS)) usableGroup).

Definition isTokenBasedModel model : bool :=
  negb (not_configured model) && neqb (quota_type model) QUOTA_TYPE_TOKEN && negb (isVideoResolutionTierModel model).

(** ** dynamic-price.ts *)

Record DynamicPriceOptions := DynamicOptions {
  tokenUnit : TokenUnit;
  showRechargePrice : option bool;
  do_priceRate : option num;
  do_usdExchangeRate : option num;
  groupRatioMultiplier : option num;
}.

Record DynamicPriceEntry := PriceEntry {
  pe_key : jsstr;
  pe_field : jsstr;
  pe_label : jsstr;
  pe_shortLabel : jsstr;
  pe_value : num;
  pe_formatted : jsstr;
  pe_variable : BillingVar;
}.

Record DynamicPricingSummary := Summary {
  tiers : list ParsedTier;
  tier : option ParsedTier;
  tierCount : nat;
  hasRequestRules : bool;
  isSpecialExpression : bool;
  rawExpression : jsstr;
  entries : list DynamicPriceEntry;
  primaryEntries : list DynamicPriceEntry;
  secondaryEntries : list DynamicPriceEntry;
}.

Definition PRIMARY_DYNAMIC_FIELDS : list jsstr := [js "inputPrice"; js "outputPrice"].

Definition isDynamicPricingModel model : bool :=
  mode_is (billing_mode model) "tiered_expr" && truthy (from_opt [] (billing_expr model)).

Definition getDynamicDisplayGroupRatio model : num :=
  let groups := from_opt [] (enable_groups model) in
  let ratios := from_opt [] (group_ratio model) in
  if (length groups =? 0)%nat then n1
  else
    let minRatio := fold_left (smaller_ratio ratios) groups nInf in
    if neqb minRatio nInf then n1 else minRatio.

Definition formatDynamicUnitPrice store (valuePerMillionTokens : num) (options : DynamicPriceOptions) : jsstr :=
  let groupRatio := from_opt n1 (groupRatioMultiplier options) in
  let priceRate := from_opt n1 (do_priceRate options) in
  let usdRate := from_opt n1 (do_usdExchangeRate options) in
  let priceUSD := ndiv (nmul valuePerMillionTokens groupRatio) (TOKEN_UNIT_DIVISORS (tokenUnit options)) in
  let displayPrice := applyRechargeRate priceUSD (from_opt false (showRechargePrice options)) priceRate usdRate in
  formatBillingCurrencyFromUSD store (Some displayPrice) (price_digits 6).

Definition getDynamicPricingTiers model : exc (list ParsedTier) :=
  if negb (isDynamicPricingModel model) then Ok []
  else
    parts ← splitBillingExprAndRequestRules (from_opt [] (billing_expr model));
    parseTiersFromExpr parts.1.

Definition hasDynamicRequestRules model : exc bool :=
  if negb (isDynamicPricingModel model) then Ok false
  else
    parts ← splitBillingExprAndRequestRules (from_opt [] (billing_expr model));
    groups ← tryParseRequestRuleExpr parts.2;
    Ok (match groups with Some (_ :: _) => true | _ => false end).

(** [Number(tier[field])]. *)
Definition tier_price (t : ParsedTier) (field : jsstr) : num :=
  ratio_num (member_of field (parsed_prices t)).

Definition price_entry store (options : DynamicPriceOptions) (t : ParsedTier) (v : BillingVar)
    : list DynamicPriceEntry :=
  match var_field v with
  | None => []
  | Some field =>
      let x := tier_price t field in
      if negb (is_finite x) || nleb x n0 then []
      else [PriceEntry (var_key v) field (var_label v) (var_shortLabel v) x
              (formatDynamicUnitPrice store x options) v]
  end.

Definition is_primary (e : DynamicPriceEntry) : bool := includes (pe_field e) PRIMARY_DYNAMIC_FIELDS.

Definition getDynamicPriceEntries store (t : option ParsedTier) (options : DynamicPriceOptions)
    : list DynamicPriceEntry :=
  match t with
  | None => []
  | Some t =>
      sort_by (λ a b, is_primary a || negb (is_primary b))
        (concat (map (price_entry store options t) BILLING_PRICING_VARS))
  end.

Definition getDynamicPricingSummary store model (options : DynamicPriceOptions)
    : exc (option DynamicPricingSummary) :=
  if negb (isDynamicPricingModel model) then Ok None
  else
    tiers ← getDynamicPricingTiers model;
    let tier := head tiers in
    let entries := getDynamicPriceEntries store tier options in
    let rawExpression := from_opt [] (billing_expr model) in
    rules ← hasDynamicRequestRules model;
    Ok (Some (Summary tiers tier (length tiers) rules
      (truthy (trim rawExpression) && (length tiers =? 0)%nat) rawExpression entries
      (filterb is_primary entries) (filterb (λ e, negb (is_primary e)) entries))).

End Prices.

(** ** The cost of a model of the creation centre *)

Inductive CreationMode := ModeChat | ModeImage | ModeVideo.
Inductive CostMode := PerToken | PerRequest | DynamicCost | TieredSeconds | TieredRequest.

Record CreationModelCost := CreationCost {
  cost_billing_mode : CostMode;
  input_price_per_million : option num;
  output_price_per_million : option num;
  cost_request_price : option num;
  request_quota : option num;
  cost_resolution_prices : option ratios;
  video_resolution_quotas : option ratios;
  cost_group_ratio : option num;
}.

Definition formatCostNumber (x : num) : jsstr := num_to_str (parse_float (to_fixed 6 x)).

(** The switch of normalizeVideoResolution. *)
Definition resolution_named (normalized : jsstr) : option jsstr :=
  let named (names : list string) := includes normalized (map js names) in
  if named ["480"; "480p"]%string then Some (js "480p")
  else if named ["720"; "720p"]%string then Some (js "720p")
  else if named ["1080"; "1080p"]%string then Some (js "1080p")
  else if named ["1k"; "1024"; "1024p"]%string then Some (js "1k")
  else if named ["2k"; "1440"; "1440p"; "2048"; "2048p"]%string then Some (js "2k")
  else if named ["2160"; "2160p"; "4k"]%string then Some (js "4k")
  else None.

Section Cost.
Context `{NumberApi} `{CaseMap} (t : jsstr → jsstr) (store : option StoredCurrency).

(** [value?.trim().toLowerCase().replace(/\s+/g, '')], and the resolution it
    names. *)
Definition normalizeVideoResolution (v : option jsstr) : option jsstr :=
  v ← v; resolution_named (replace_class is_ws [] (to_lower (trim v))).

Definition getVideoResolutionCostUnit (cost : CreationModelCost) : jsstr :=
  match cost_billing_mode cost with TieredSeconds => t (js "seconds") | _ => t (js "times") end.

Definition quota_of (r : jsstr) (cost : CreationModelCost) : option num :=
  member_of r (from_opt [] (video_resolution_quotas cost)).
Definition price_of (r : jsstr) (cost : CreationModelCost) : option num :=
  member_of r (from_opt [] (cost_resolution_prices cost)).

Record CostEntry := CostOf { ce_resolution : jsstr; ce_quota : option num; ce_price : option num }.

(** The loop over the resolutions, with the set of those already seen. *)
Fixpoint cost_entries (cost : CreationModelCost) (seen : list jsstr) (resolutions : list jsstr) : list CostEntry :=
  match resolutions with
  | [] => []
  | resolution :: resolutions =>
      match normalizeVideoResolution (Some resolution) with
      | None => cost_entries cost seen resolutions
      | Some r =>
          if includes r seen then cost_entries cost seen resolutions
          else
            match quota_of r cost, price_of r cost with
            | None, None => cost_entries cost (r :: seen) resolutions
            | quota, price => CostOf r quota price :: cost_entries cost (r :: seen) resolutions
            end
      end
  end.

Definition getVideoResolutionCostEntries (cost : CreationModelCost) : list CostEntry :=
  cost_entries cost []
    (VIDEO_RESOLUTION_PRICE_ORDER ++ map fst (from_opt [] (video_resolution_quotas cost))
     ++ map fst (from_opt [] (cost_resolution_prices cost))).

Definition cost_amount (price : option num) : jsstr := formatCurrencyFromUSD store price (price_digits 6).

(** Quota before price; nothing when there is neither. *)
Definition cost_text (quota price : option num) : option jsstr :=
  match quota, price with
  | Some q, _ => Some (formatQuota store q)
  | None, Some p => Some (cost_amount (Some p))
  | None, None => None
  end.

Definition formatVideoResolutionTierCost (cost : CreationModelCost) (mode : option CreationMode)
    (selectedResolution : option jsstr) : jsstr :=
  let unit := getVideoResolutionCostUnit cost in
  let summary :=
    str_or (join (js " · ") (map (λ e,
        ce_resolution e ++ js " " ++
        match ce_quota e with Some q => formatQuota store q | None => cost_amount (ce_price e) end ++ js "/" ++ unit)
      (getVideoResolutionCostEntries cost))) (t (js "Pricing pending")) in
  match mode, normalizeVideoResolution selectedResolution with
  | Some ModeVideo, Some r =>
      match cost_text (quota_of r cost) (price_of r cost) with
      | Some text => text ++ js "/" ++ unit ++ js " · " ++ r
      | None => summary
      end
  | _, _ => summary
  end.

Definition formatCreationModelCost (cost : option CreationModelCost) (mode : option CreationMode)
    (selectedResolution : option jsstr) : jsstr :=
  match cost with
  | None => t (js "Pricing pending")
  | Some cost =>
      let groupSuffix :=
        match cost_group_ratio cost with
        | Some g =>
            if num_truthy g && negb (neqb g n1) then js " · " ++ t (js "Group") ++ js " x" ++ formatCostNumber g
            else []
        | None => []
        end in
      match cost_billing_mode cost with
      | DynamicCost => t (js "Dynamic pricing") ++ groupSuffix
      | PerRequest =>
          match request_quota cost with
          | Some q => formatQuota store q ++ js "/" ++ t (js "times")
          | None => cost_amount (cost_request_price cost) ++ js "/" ++ t (js "times")
          end
      | PerToken =>
          t (js "Input") ++ js " " ++ cost_amount (input_price_per_million cost) ++ js "/1M · " ++
          t (js "Output") ++ js " " ++ cost_amount (output_price_per_million cost) ++ js "/1M" ++ groupSuffix
      | TieredSeconds | TieredRequest => formatVideoResolutionTierCost cost mode selectedResolution
      end
  end.

End Cost.
