(* ===== verification/PriceProps.v ===== *)
(** * Properties of displayed prices

    The smallest ratio of a group, prices by resolution, the summary of dynamic
    prices of a saved expression, and the cost of video models. *)
From S2P Require Import Prelude JsString JsNumber Regex JsValue JsFixed Currency CurrencyFacts BillingRules BillingRuleFacts TierExpr TierFacts TierRoundtrip TierSplit TierEditor Prices.
From Stdlib Require Import SpecFloat.

Open Scope N_scope.

(** ** The smallest ratio *)

Lemma rank_inj x y : rank x = rank y → num_truthy x = true → x = y.
Proof.
  destruct x as [[]|[]| |[] m e], y as [[]|[]| |[] m' e']; cbn; intros E Hx; try done;
    injection E; intros; f_equal; lia.
Qed.

Lemma num_antisym x y :
  is_nan x = false → is_nan y = false → num_truthy x = true → nltb x y = false → nltb y x = false → x = y.
Proof.
  intros Hx Hy Ht H1 H2. apply rank_inj; [|done].
  assert (∃ a, rank x = Some a) as [a Ea] by (destruct x as [[]|[]| |[]]; try done; by eexists).
  assert (∃ b, rank y = Some b) as [b Eb] by (destruct y as [[]|[]| |[]]; try done; by eexists).
  rewrite Ea, Eb. f_equal. apply not_true_iff_false in H1. apply not_true_iff_false in H2. rewrite nltb_rank in H1, H2.
  assert (¬ rank_lt a b) as Ha by (intros ?; apply H1; by exists a, b).
  assert (¬ rank_lt b a) as Hb by (intros ?; apply H2; by exists b, a).
  unfold rank_lt in *. destruct a as [[a1 a2] a3], b as [[b1 b2] b3]. cbn in *.
  assert (a1 = b1) by lia. assert (a2 = b2) by lia. assert (a3 = b3) by lia. by subst.
Qed.

Lemma nltb_not_nan x y : nltb x y = true → is_nan x = false ∧ is_nan y = false.
Proof. by destruct x as [| | |[]], y as [| | |[]]. Qed.

(** What the loop returns: not NaN, at most every ratio, and a ratio or the
    number it starts with. *)
Lemma min_ratio_loop rs gs acc :
  is_nan acc = false →
  let m := fold_left (smaller_ratio rs) gs acc in
  is_nan m = false ∧ nltb acc m = false ∧
  (∀ g r, g ∈ gs → member_of g rs = Some r → nltb r m = false) ∧
  (m = acc ∨ ∃ g, g ∈ gs ∧ member_of g rs = Some m).
Proof.
  revert acc. induction gs as [|g gs IH]; intros acc Ha; cbn [fold_left].
  - split_and!; [done|apply nltb_irrefl|by intros g r H%elem_of_nil|by left].
  - set (acc' := smaller_ratio rs acc g).
    assert (is_nan acc' = false ∧ nltb acc acc' = false ∧ (∀ r, member_of g rs = Some r → nltb r acc' = false) ∧
      (acc' = acc ∨ member_of g rs = Some acc')) as (Hn & Hl & Hr & Hc).
    { unfold acc', smaller_ratio. destruct (member_of g rs) as [r|]; [|split_and!; try done; [apply nltb_irrefl|by left]].
      destruct (nltb r acc) eqn:E.
      - split_and!; [by apply nltb_not_nan in E as [E _]|by apply nltb_asym|intros ? [= <-]; apply nltb_irrefl|by right].
      - split_and!; [done|apply nltb_irrefl|by intros ? [= <-]|by left]. }
    destruct (IH acc' Hn) as (H1 & H2 & H3 & H4). set (m := fold_left (smaller_ratio rs) gs acc') in *.
    split_and!.
    + done.
    + by apply (not_lt_trans m acc').
    + intros g' r [-> |Hg]%elem_of_cons Er; [|by apply (H3 g')]. apply (not_lt_trans m acc'); auto.
    + destruct H4 as [-> |(g' & Hg & Eg)]; [destruct Hc as [-> |Hc]; [by left|]|].
      * right. exists g. split; [by left|done].
      * right. exists g'. split; [by right|done].
Qed.

(** A group with the smallest ratio among the enabled ones. *)
Definition cheapest (gs : list jsstr) (rs : ratios) (g : jsstr) (r : num) : Prop :=
  g ∈ gs ∧ member_of g rs = Some r ∧ (∀ g' r', g' ∈ gs → member_of g' rs = Some r' → nltb r' r = false).

Lemma same_number x r :
  is_nan x = false → is_finite r = true → nltb r x = false → nltb x r = false →
  neqb x r = true ∧ (num_truthy r = true → x = r).
Proof.
  intros Hx Hr H1 H2. assert (num_truthy r = true → x = r) as Ht.
  { intros Ht. symmetry. apply num_antisym; [by destruct r|done..]. }
  split; [|done]. destruct (num_truthy r) eqn:Er.
  - rewrite (Ht eq_refl). destruct r as [|[]| |[]]; try done; cbn; unfold neqb, SFeqb; cbn; by rewrite Z.compare_refl, Pos.compare_cont_refl.
  - destruct r as [s| | |]; try done. by destruct x as [|[]| |[]].
Qed.

(** The smallest ratio is that of the cheapest group, or a zero of another
    sign. *)
Lemma min_ratio_cheapest gs rs g r :
  cheapest gs rs g r → is_finite r = true →
  let m := fold_left (smaller_ratio rs) gs nInf in
  neqb m r = true ∧ (num_truthy r = true → m = r) ∧ getMinGroupRatio gs rs = m ∧ gs ≠ [].
Proof.
  intros (Hg & Hr & Hmin) Hf m. assert (gs ≠ []) as Hne by (by destruct gs; [apply elem_of_nil in Hg|]).
  destruct (min_ratio_loop rs gs nInf eq_refl) as (H1 & _ & H3 & H4). fold m in H1, H3, H4. specialize (H3 g r Hg Hr).
  assert (nltb m r = false ∧ neqb m nInf = false) as [H5 H6].
  { destruct H4 as [E|(g' & Hg' & Er')]; [rewrite E in H3; by destruct r as [| | |[]]|].
    pose proof (Hmin g' m Hg' Er') as H5. split; [done|]. destruct m as [|[]| |[]]; try done. by destruct r as [| | |[]]. }
  destruct (same_number m r H1 Hf H3 H5) as [H7 H8]. split_and!; [done|done| |done].
  unfold getMinGroupRatio. destruct gs as [|g0 gs]; [done|]. fold m. by rewrite H6.
Qed.

(** C13. The price on a model's card is the price of its cheapest group: where
    the smallest ratio among the enabled groups is that of a group and is
    finite, the card multiplies by that ratio (of prices per token, per request,
    by resolution and dynamic ones).  If the ratio is not zero, the card shows
    what the row of the group shows, for every kind of price, unit and recharge
    rate.  If it is zero, the card shows a price multiplied by zero while the row
    of the group shows the price without any ratio. *)
Theorem cheapest_group_shown `{NumberApi} `{LocaleOrder} (store : option StoredCurrency) (model : PricedModel) gs rs g r :
  enable_groups model = Some gs → group_ratio model = Some rs → cheapest gs rs g r → is_finite r = true →
  neqb (min_ratio_of model) r = true ∧ getDynamicDisplayGroupRatio model = min_ratio_of model ∧
  (num_truthy r = true →
   (∀ type unit show priceRate usdRate,
      formatPrice store model type unit show priceRate usdRate
      = formatGroupPrice store model g type unit show priceRate usdRate rs) ∧
   (∀ show priceRate usdRate,
      formatRequestPrice store model show priceRate usdRate
      = formatFixedPrice store model g show priceRate usdRate rs) ∧
   (∀ show priceRate usdRate,
      getVideoResolutionTierPriceEntries store model (TierPriceOptionsOf show priceRate usdRate None)
      = getVideoResolutionTierPriceEntries store model
          (TierPriceOptionsOf show priceRate usdRate (Some (group_ratio_or_one g rs)))) ∧
   (∀ t unit show priceRate usdRate,
      getDynamicPriceEntries store t
        (DynamicOptions unit show priceRate usdRate (Some (getDynamicDisplayGroupRatio model)))
      = getDynamicPriceEntries store t
          (DynamicOptions unit show priceRate usdRate (Some (group_ratio_or_one g rs))))) ∧
  (num_truthy r = false →
   group_ratio_or_one g rs = n1 ∧
   (∀ type unit show priceRate usdRate, neqb (quota_type model) QUOTA_TYPE_REQUEST = false →
      formatPrice store model type unit show priceRate usdRate
      = token_price store model type (min_ratio_of model) unit show priceRate usdRate ∧
      formatGroupPrice store model g type unit show priceRate usdRate rs
      = token_price store model type n1 unit show priceRate usdRate)).
Proof.
  intros Hgs Hrs Hc Hf. destruct (min_ratio_cheapest gs rs g r Hc Hf) as (H1 & H2 & H3 & Hne). destruct Hc as (Hg & Hr & _).
  assert (min_ratio_of model = fold_left (smaller_ratio rs) gs nInf) as Em by (unfold min_ratio_of; by rewrite Hgs, Hrs).
  assert (getDynamicDisplayGroupRatio model = min_ratio_of model) as Ed.
  { unfold getDynamicDisplayGroupRatio, min_ratio_of. rewrite Hgs, Hrs. cbn [from_opt]. rewrite H3. destruct gs; [done|].
    cbn [length Nat.eqb]. destruct (neqb _ nInf) eqn:E; [|done]. destruct (fold_left _ _ _) as [|[]| |[]]; try done. by destruct r. }
  rewrite <- Em in H1, H2. split_and!; [done|done| |].
  - intros Ht. assert (group_ratio_or_one g rs = min_ratio_of model) as Eg.
    { rewrite H2 by done. unfold group_ratio_or_one, num_or. rewrite Hr. cbn [from_opt]. by rewrite Ht. }
    split_and!; intros.
    + unfold formatPrice, formatGroupPrice. by rewrite Eg.
    + unfold formatRequestPrice, formatFixedPrice. by rewrite Eg.
    + unfold getVideoResolutionTierPriceEntries. cbn [tpo_groupRatioMultiplier from_opt]. by rewrite Eg.
    + by rewrite Ed, Eg.
  - intros Ht. assert (group_ratio_or_one g rs = n1) as Eg.
    { unfold group_ratio_or_one, num_or. rewrite Hr. cbn [from_opt]. by rewrite Ht. }
    split; [done|]. intros * Hq. unfold formatPrice, formatGroupPrice. by rewrite Hq, Eg.
Qed.

(** ** Prices by resolution *)

Section Resolutions.
Context `{LocaleOrder}.

Lemma member_of_elem k (o : ratios) x : member_of k o = Some x → k ∈ map fst o.
Proof.
  unfold member_of. intros E. apply fmap_Some in E as ([k' x'] & E & _). apply find_first_Some in E as [Hin E].
  apply bool_decide_eq_true in E. cbn in E. subst. by apply (list_elem_of_fmap_2 fst) in Hin.
Qed.

Lemma price_keys_elem model r :
  r ∈ getVideoResolutionPriceKeys model ↔
  hasRatio (member_of r (from_opt [] (video_resolution_prices model))) = true.
Proof.
  unfold getVideoResolutionPriceKeys. set (prices := from_opt [] _).
  rewrite elem_of_app, sort_by_elem, !filterb_elem, negb_true_iff. split; [tauto|]. intros Hr.
  destruct (includes r VIDEO_RESOLUTION_PRICE_ORDER) eqn:E; [left; split; [by apply includes_elem|done]|].
  right. split; [split; [|done]|done]. destruct (member_of r prices) as [x|] eqn:Ex; [|done].
  by apply member_of_elem in Ex.
Qed.

Lemma price_keys_nodup model :
  NoDup (map fst (from_opt [] (video_resolution_prices model))) → NoDup (getVideoResolutionPriceKeys model).
Proof.
  intros Hn. unfold getVideoResolutionPriceKeys. set (prices := from_opt [] _) in *. apply NoDup_app. split_and!.
  - eapply sublist_NoDup; [|apply filterb_sublist]. concrete.
  - intros r Hr Hx. rewrite sort_by_elem, !filterb_elem in Hx. rewrite filterb_elem in Hr.
    destruct Hx as [[_ Hx] _], Hr as [Hr _]. apply includes_elem in Hr. by rewrite Hr in Hx.
  - rewrite sort_by_Permutation. do 2 (eapply sublist_NoDup; [|apply filterb_sublist]). done.
Qed.

(** Every usable price by resolution is shown once: for a model that is
    billed by resolution, the entries are those of the resolutions with a finite
    price, none twice, the well-known resolutions first in their order, and each
    entry has the price of its resolution times the ratio of the group, with the
    recharge rate applied. *)
Theorem resolution_prices_complete `{NumberApi} (store : option StoredCurrency) (model : PricedModel)
    (prices : ratios) (options : TierPriceOptions) :
  video_resolution_prices model = Some prices → NoDup (map fst prices) →
  mode_is (video_billing_mode model) "tiered_seconds" || mode_is (video_billing_mode model) "tiered_request" = true →
  let shown := getVideoResolutionTierPriceEntries store model options in
  let multiplier := from_opt (min_ratio_of model) (tpo_groupRatioMultiplier options) in
  NoDup (map tp_resolution shown) ∧
  (∀ r x, member_of r prices = Some x → is_finite x = true → r ∈ map tp_resolution shown) ∧
  (∀ e, e ∈ shown → ∃ x, member_of (tp_resolution e) prices = Some x ∧ is_finite x = true ∧
     tp_price e = applyRechargeRate (nmul x multiplier) (from_opt false (tpo_showWithRecharge options))
                    (from_opt n1 (tpo_priceRate options)) (from_opt n1 (tpo_usdExchangeRate options))) ∧
  ∃ known extra, map tp_resolution shown = known ++ extra ∧ known `sublist_of` VIDEO_RESOLUTION_PRICE_ORDER ∧
    Forall (λ r, r ∉ VIDEO_RESOLUTION_PRICE_ORDER) extra.
Proof.
  intros Hp Hn Hm shown multiplier.
  assert (map tp_resolution shown = getVideoResolutionPriceKeys model) as Ek.
  { unfold shown, getVideoResolutionTierPriceEntries, isVideoResolutionTierModel. rewrite Hm. cbn [andb].
    destruct (getVideoResolutionPriceKeys model) as [|k ks]; [done|]. cbn [length Nat.ltb Nat.leb negb].
    rewrite map_map. apply map_id. }
  rewrite Ek. split_and!.
  - apply price_keys_nodup. by rewrite Hp.
  - intros r x Er Hx. apply price_keys_elem. rewrite Hp. cbn [from_opt]. by rewrite Er.
  - intros e He. assert (tp_resolution e ∈ getVideoResolutionPriceKeys model) as Hk.
    { rewrite <- Ek. by apply (list_elem_of_fmap_2 tp_resolution). }
    apply price_keys_elem in Hk. rewrite Hp in Hk. cbn [from_opt] in Hk.
    destruct (member_of (tp_resolution e) prices) as [x|] eqn:Ex; [|done]. exists x. split; [done|]. split; [done|].
    unfold shown, getVideoResolutionTierPriceEntries in He.
    destruct (negb _); [by apply elem_of_nil in He|]. apply list_elem_of_fmap in He as (r & -> & _). cbn in *.
    rewrite Hp. cbn [from_opt]. by rewrite Ex.
  - unfold getVideoResolutionPriceKeys. rewrite Hp. cbn [from_opt]. eexists _, _. split; [done|].
    split; [apply filterb_sublist|]. apply Forall_forall. intros r Hr.
    rewrite sort_by_elem, !filterb_elem, negb_true_iff in Hr. destruct Hr as [[_ Hr] _].
    intros Hin%includes_elem. congruence.
Qed.

End Resolutions.

(** ** Dynamic prices *)

Section Dynamic.
Context `{NumberApi} (store : option StoredCurrency) (options : DynamicPriceOptions).

Definition positive_price (x : num) : bool := is_finite x && nltb n0 x.

Lemma not_positive x : negb (is_finite x) || nleb x n0 = negb (positive_price x).
Proof. by destruct x as [[]|[]| |[]]. Qed.

(** The variables with their fields and the prices of a tier. *)
Definition priced (t : ParsedTier) (vars : list BillingVar) : list (jsstr * num) :=
  map (λ v, (from_opt [] (var_field v), tier_price t (from_opt [] (var_field v)))) vars.

Lemma price_entries_fields t vars :
  Forall (λ v, is_some (var_field v) = true) vars →
  map (λ e, (pe_field e, pe_value e)) (concat (map (price_entry store options t) vars))
  = filterb (λ e, positive_price e.2) (priced t vars).
Proof.
  intros Hv. induction Hv as [|v vars Hv Hvs IH]; [done|]. cbn [map concat]. rewrite map_app, IH.
  unfold price_entry at 1. unfold priced, filterb. cbn [map List.filter snd]. destruct (var_field v) as [f|]; [|done].
  cbn [from_opt]. rewrite not_positive. by destruct (positive_price (tier_price t f)).
Qed.

Lemma entry_field t v e : e ∈ price_entry store options t v → var_field v = Some (pe_field e).
Proof.
  unfold price_entry. destruct (var_field v) as [f|]; [|by intros ?%elem_of_nil].
  destruct (negb _ || _); [by intros ?%elem_of_nil|]. by intros ->%list_elem_of_singleton.
Qed.

Lemma entries_primary t b vars :
  Forall (λ v, from_opt (negb b) ((λ f, includes f PRIMARY_DYNAMIC_FIELDS) <$> var_field v) = b) vars →
  Forall (λ e, is_primary e = b) (concat (map (price_entry store options t) vars)).
Proof.
  intros Hv. apply Forall_concat, Forall_fmap. eapply Forall_impl; [exact Hv|]. intros v. cbv beta.
  intros Ev. apply Forall_forall. intros e He%entry_field. rewrite He in Ev. exact Ev.
Qed.

(** The entries are in the order of the variables: the primary ones come first
    already. *)
Lemma entries_in_order t :
  getDynamicPriceEntries store (Some t) options = concat (map (price_entry store options t) BILLING_PRICING_VARS) ∧
  ∃ a b, concat (map (price_entry store options t) BILLING_PRICING_VARS) = a ++ b ∧
    Forall (λ e, is_primary e = true) a ∧ Forall (λ e, is_primary e = false) b.
Proof.
  set (vars := BILLING_PRICING_VARS).
  assert (concat (map (price_entry store options t) vars)
    = concat (map (price_entry store options t) (take 2 vars)) ++ concat (map (price_entry store options t) (drop 2 vars)))
    as E by (rewrite <- concat_app, <- map_app, take_drop; done).
  pose proof (entries_primary t true (take 2 vars) ltac:(concrete)) as Ha.
  pose proof (entries_primary t false (drop 2 vars) ltac:(concrete)) as Hb.
  split; [|by eexists _, _]. unfold getDynamicPriceEntries. apply sort_by_id. fold vars. rewrite E.
  revert Ha Hb. generalize (concat (map (price_entry store options t) (take 2 vars))) as a.
  generalize (concat (map (price_entry store options t) (drop 2 vars))) as b. intros b a Ha Hb.
  induction Ha as [|e a He Ha IH]; cbn [app].
  - induction Hb as [|e b He Hb IH]; [constructor|]. constructor; [done|].
    eapply Forall_impl; [exact Hb|]. intros e' He'. unfold rel_of. rewrite He'. by rewrite orb_true_r.
  - constructor; [done|]. apply Forall_forall. intros e' _. unfold rel_of. by rewrite He.
Qed.

Lemma priced_all (t : VisualTier) : priced (shown_tier t) BILLING_PRICING_VARS = parsed_prices (shown_tier t).
Proof. vm_compute. reflexivity. Qed.

End Dynamic.

Lemma filterb_parts {A} (f : A → bool) a b :
  Forall (λ x, f x = true) a → Forall (λ x, f x = false) b →
  filterb f (a ++ b) = a ∧ filterb (λ x, negb (f x)) (a ++ b) = b.
Proof.
  intros Ha Hb. unfold filterb. induction Ha as [|x a Hx Ha [IH1 IH2]]; cbn [app List.filter].
  - induction Hb as [|x b Hx Hb [IH1 IH2]]; [done|]. cbn [List.filter]. rewrite Hx. cbn [negb]. split; congruence.
  - rewrite Hx. cbn [negb]. split; congruence.
Qed.

Lemma combined_truthy base groups : solid base → truthy (combineBillingExpr base (buildRequestRuleExpr groups)) = true.
Proof.
  intros [Hne Ht]. unfold combineBillingExpr. rewrite Ht, (truthy_ne base) by done. cbn [negb].
  destruct (truthy (trim _)); cbn [negb]; [done|]. by apply truthy_ne.
Qed.

(** The display reads every expression. *)
Lemma tiers_returned text : returns (parseTiersFromExpr text).
Proof.
  unfold parseTiersFromExpr. destruct (truthy text); [|by eexists].
  destruct (matches_return display_tier_re (stripExprVersion text).2) as [ms ->]; [vm_compute; reflexivity|].
  unfold mbind, exc_bind. induction ms as [|m ms [l IH]]; [by eexists|]. cbn [parse_tiers].
  assert (returns (read_conditions (grp 1 m))) as [cs ->].
  { unfold read_conditions. destruct (truthy _); [|by eexists].
    destruct (split_returns and_re (grp 1 m)) as [ps ->]; [vm_compute; reflexivity|]. by eexists. }
  assert (returns (parseTierBody (grp 3 m))) as [ps ->].
  { unfold parseTierBody. destruct (matches_return BILLING_VAR_REGEX (grp 3 m)) as [qs ->]; [vm_compute; reflexivity|].
    by eexists. }
  unfold mbind, exc_bind. rewrite IH. by eexists.
Qed.

(** C12. The model square shows the prices that were saved: for a model whose
    billing expression combines the tiers and the request rules of the visual
    editor, the summary of its dynamic prices has every saved tier in order with
    its label, conditions and prices, says whether there are request rules, and
    lists the finite positive prices of the first tier in the order of the
    variables, the input and output price first.  The tiers are in order once
    saved (as for their round trip) with labels free of quotes, parentheses and
    separators, and the rules are complete; when a rule compares a parameter
    with a number or asks whether it contains a text, the summary says that
    there are no request rules, and nothing is claimed of the prices. *)
Theorem dynamic_prices_shown `{NumberApi} (store : option StoredCurrency) (options : DynamicPriceOptions)
    (model : PricedModel) (ts : VisualConfig) (groups : list RequestRuleGroup) :
  config_ok (saved_config ts) → labels_plain (saved_config ts) → Forall written_group groups →
  billing_mode model = Some (js "tiered_expr") →
  billing_expr model = Some (combineBillingExpr (generateExprFromVisualConfig (Some ts)) (buildRequestRuleExpr groups)) →
  ∃ s, getDynamicPricingSummary store model options = Ok (Some s) ∧
    hasRequestRules s = negb (bool_decide (groups = [])) && negb (existsb compares groups) ∧
    (existsb compares groups = false →
     tiers s = map shown_tier (saved_config ts) ∧ tier s = shown_tier <$> head (saved_config ts) ∧
     tierCount s = length ts ∧ isSpecialExpression s = false ∧
     map (λ e, (pe_field e, pe_value e)) (entries s)
     = filterb (λ e, positive_price e.2) (from_opt [] (parsed_prices <$> tier s)) ∧
     entries s = primaryEntries s ++ secondaryEntries s).
Proof.
  rewrite <- saved_text. intros Hok Hl Hg Hm He. destruct (expression_parts _ Hok Hl) as (xs & Ex & Hxs).
  pose proof (tiers_displayed _ Hok) as Hd. rewrite Ex in *.
  assert (isDynamicPricingModel model = true) as Hdyn.
  { unfold isDynamicPricingModel, mode_is. rewrite Hm, He. cbn [from_opt]. rewrite combined_truthy by (by apply plain_solid).
    unfold str_eqb. by rewrite bool_decide_eq_true_2. }
  unfold getDynamicPricingSummary, getDynamicPricingTiers, hasDynamicRequestRules. rewrite Hdyn, He.
  cbn [negb from_opt]. rewrite combined_read by done. unfold mbind, exc_bind.
  destruct (existsb compares groups) eqn:Hc; cbn [fst snd].
  { destruct (tiers_returned (combineBillingExpr (join (js " * ") xs) (buildRequestRuleExpr groups))) as [l ->].
    change (tryParseRequestRuleExpr []) with (Ok (Some []) : exc (option (list RequestRuleGroup))).
    eexists. split; [reflexivity|]. split; [|done]. by rewrite andb_false_r. }
  rewrite Hd, written_back by done. unfold groups_read. rewrite Hc.
  eexists. split; [reflexivity|]. cbn [tiers tier tierCount hasRequestRules isSpecialExpression entries
    primaryEntries secondaryEntries]. rewrite length_map, saved_length.
  split; [by destruct groups|]. intros _. destruct (saved_config ts) as [|t l] eqn:Et.
  { destruct Hok as [_ [?|[? ?]]]; done. }
  cbn [map head fmap option_fmap option_map]. rewrite <- saved_length, Et. cbn [length].
  split_and!; [done|done|done|apply andb_false_r|..].
  - destruct (entries_in_order store options (shown_tier t)) as [-> _].
    rewrite price_entries_fields by concrete. by rewrite priced_all.
  - destruct (entries_in_order store options (shown_tier t)) as (-> & a & b & -> & Ha & Hb).
    by destruct (filterb_parts is_primary a b Ha Hb) as [-> ->].
Qed.

(** ** Findings *)

(** A formatter without separators, and powers of ten. *)
#[local] Instance sample_numbers : NumberApi := {
  intl_currency code digits x := code ++ js " " ++ removeTrailingZeros (to_fixed digits x);
  intl_decimal digits x := removeTrailingZeros (to_fixed digits x);
  math_pow x y :=
    match to_Z y with
    | Some (Zneg e) => ndiv n1 (of_Z (10 ^ Zpos e))
    | Some e => of_Z (10 ^ e)
    | None => nNaN
    end;
}.

#[local] Instance sample_order : LocaleOrder := λ a b, if str_leb a b then (-1)%Z else 1%Z.

Definition sample_ratios : ratios := [(js "vip", str_to_num (js "0.5")); (js "default", n1); (js "free", n0)].

Definition sample_pricing (groups : list jsstr) : PricedModel :=
  Pricing QUOTA_TYPE_TOKEN (str_to_num (js "1.25")) (of_Z 4) None None None None None None
    (Some groups) (Some sample_ratios) None None None None None.

(** A group whose ratio is zero is shown with the full price, as if it had no
    ratio, while the card of a model of that group shows that it is free. *)
Lemma free_group_full_price `{NumberApi} store model g type unit show priceRate usdRate rs s :
  member_of g rs = Some (S754_zero s) →
  formatGroupPrice store model g type unit show priceRate usdRate rs
  = formatGroupPrice store model g type unit show priceRate usdRate [].
Proof. intros E. unfold formatGroupPrice, group_ratio_or_one. by rewrite E. Qed.

Example free_group_shown :
  (formatPrice None (sample_pricing [js "free"]) PInput UnitM false n1 n1,
   formatGroupPrice None (sample_pricing [js "free"]) (js "free") PInput UnitM false n1 n1 sample_ratios)
  = (js "USD 0", js "USD 2.5").
Proof. vm_compute. reflexivity. Qed.

(** With the display in tokens, the prices of models are shown as numbers of
    tokens, which the documentation of the formatters rules out for prices. *)
Lemma prices_as_tokens `{NumberApi} store model type unit show priceRate usdRate :
  is_tokens (getDisplayMeta (getConfig store)) = true → neqb (quota_type model) QUOTA_TYPE_REQUEST = false →
  let price := ndiv (applyRechargeRate (calculateTokenPrice model type (min_ratio_of model)) show priceRate usdRate)
                 (TOKEN_UNIT_DIVISORS unit) in
  is_nan price = false →
  formatPrice store model type unit show priceRate usdRate
  = formatNumberWithSuffix (nmul price (quotaPerUnit (getConfig store))) 0 6 false.
Proof.
  intros Ht Hq price Hp. unfold formatPrice. rewrite Hq. unfold token_price, formatCurrencyFromUSD. fold price.
  rewrite Hp. unfold getCurrencyDisplay. by destruct (getDisplayMeta (getConfig store)).
Qed.

(** A very large price loses digits of its exponent. *)
Lemma large_price_stripped : stripTrailingZeros (js "$1000000000000000000000000000000") = js "$1e+3".
Proof. vm_compute. reflexivity. Qed.

Example price_stripped : stripTrailingZeros (js "$1,234.5000") = js "$1234.5". Proof. vm_compute. reflexivity. Qed.
Example small_price_stripped : stripTrailingZeros (js "$0.0000001") = js "$0.0000001". Proof. vm_compute. reflexivity. Qed.

(** ** The cost by resolution *)

Section Cost.
Context `{CaseMap}.

Lemma normalize_known v r : normalizeVideoResolution v = Some r → r ∈ VIDEO_RESOLUTION_PRICE_ORDER.
Proof.
  destruct v as [v|]; [|done]. unfold normalizeVideoResolution, mbind, option_bind, resolution_named. cbv zeta.
  repeat (destruct (includes _ _); [intros [= <-]; concrete|]). done.
Qed.

Lemma normalize_same r : r ∈ VIDEO_RESOLUTION_PRICE_ORDER → normalizeVideoResolution (Some r) = Some r.
Proof.
  intros Hr. unfold normalizeVideoResolution, mbind, option_bind.
  assert (Forall (λ r, Forall (λ c, c < 128) r ∧ trim r = r ∧ replace_class is_ws [] (map ascii_lower r) = r ∧
    resolution_named r = Some r) VIDEO_RESOLUTION_PRICE_ORDER) as Hf by concrete.
  rewrite Forall_forall in Hf. destruct (Hf r Hr) as (Ha & Et & El & Er). by rewrite Et, to_lower_ascii, El.
Qed.

(** What is shown of one resolution. *)
Definition cost_entry (cost : CreationModelCost) (r : jsstr) : list CostEntry :=
  match quota_of r cost, price_of r cost with
  | None, None => []
  | quota, price => [CostOf r quota price]
  end.

Lemma cost_entries_seen cost seen rs :
  (∀ r, r ∈ VIDEO_RESOLUTION_PRICE_ORDER → r ∈ seen) → cost_entries cost seen rs = [].
Proof.
  intros Hs. induction rs as [|r rs IH]; [done|]. cbn [cost_entries].
  destruct (normalizeVideoResolution (Some r)) as [r'|] eqn:E; [|done].
  apply normalize_known in E. by rewrite (proj2 (includes_elem _ _) (Hs _ E)).
Qed.

Lemma cost_entries_known cost seen ks rs :
  NoDup ks → (∀ k, k ∈ ks → k ∈ VIDEO_RESOLUTION_PRICE_ORDER ∧ k ∉ seen) →
  cost_entries cost seen (ks ++ rs) = concat (map (cost_entry cost) ks) ++ cost_entries cost (rev ks ++ seen) rs.
Proof.
  intros Hn. revert seen. induction Hn as [|k ks Hk Hn IH]; intros seen Hs; [done|].
  cbn [app cost_entries map concat rev]. destruct (Hs k ltac:(by left)) as [Ho Hns].
  rewrite normalize_same by done. assert (includes k seen = false) as ->.
  { apply not_true_iff_false. by rewrite includes_elem. }
  assert (cost_entries cost (k :: seen) (ks ++ rs)
    = concat (map (cost_entry cost) ks) ++ cost_entries cost (rev (k :: ks) ++ seen) rs) as E.
  { rewrite IH; [cbn [rev]; by rewrite <- app_assoc|]. intros k' Hk'. split; [apply Hs; by right|].
    intros [-> |Hin]%elem_of_cons; [done|]. by apply (proj2 (Hs k' ltac:(by right))). }
  cbn [rev] in E. unfold cost_entry at 1. destruct (quota_of k cost), (price_of k cost); cbn [app]; by rewrite E.
Qed.

(** The cost of a video model lists every resolution once: the entries are
    those of the six well-known resolutions, in their order, that have a quota or
    a price under their own name; what is stored under another name of a
    resolution (1440p for 2k, or 720P) is not shown, although those names are
    recognised. *)
Theorem tier_costs_exact (cost : CreationModelCost) :
  getVideoResolutionCostEntries cost = concat (map (cost_entry cost) VIDEO_RESOLUTION_PRICE_ORDER).
Proof.
  unfold getVideoResolutionCostEntries. rewrite cost_entries_known.
  - rewrite cost_entries_seen; [by rewrite app_nil_r|]. intros r Hr. rewrite app_nil_r.
    by rewrite list_elem_of_In, <- in_rev, <- list_elem_of_In.
  - concrete.
  - intros k Hk. split; [done|by apply not_elem_of_nil].
Qed.

End Cost.

(** ** Witnesses *)

Lemma sample_cheapest :
  cheapest [js "default"; js "vip"] sample_ratios (js "vip") (str_to_num (js "0.5")).
Proof.
  split; [concrete|]. split; [vm_compute; reflexivity|].
  intros g r [-> |[-> |[]%elem_of_nil]%elem_of_cons]%elem_of_cons E; vm_compute in E; injection E as <-;
    vm_compute; reflexivity.
Qed.

Lemma cheapest_group_shown_witness :
  formatPrice None (sample_pricing [js "default"; js "vip"]) POutput UnitK false n1 n1
  = formatGroupPrice None (sample_pricing [js "default"; js "vip"]) (js "vip") POutput UnitK false n1 n1 sample_ratios ∧
  neqb (min_ratio_of (sample_pricing [js "free"])) n0 = true ∧ group_ratio_or_one (js "free") sample_ratios = n1.
Proof.
  split.
  - destruct (cheapest_group_shown None (sample_pricing [js "default"; js "vip"]) _ _ _ _ eq_refl eq_refl
      sample_cheapest eq_refl) as (_ & _ & H & _). apply (H eq_refl).
  - assert (cheapest [js "free"] sample_ratios (js "free") n0) as Hc.
    { split; [concrete|]. split; [vm_compute; reflexivity|].
      intros g r [-> |[]%elem_of_nil]%elem_of_cons E; vm_compute in E; injection E as <-; vm_compute; reflexivity. }
    destruct (cheapest_group_shown None (sample_pricing [js "free"]) _ _ _ _ eq_refl eq_refl Hc eq_refl)
      as (H1 & _ & _ & H2). split; [exact H1|apply (H2 eq_refl)].
Defined.

Definition sample_resolutions : ratios :=
  [(js "1080p", str_to_num (js "0.5")); (js "8k", of_Z 2); (js "720p", str_to_num (js "0.25")); (js "540p", nNaN)].

Definition sample_video : PricedModel :=
  Pricing QUOTA_TYPE_REQUEST n1 n1 None None None None None None (Some []) None None None
    (Some (js "tiered_seconds")) None (Some sample_resolutions).

Lemma resolution_prices_complete_witness :
  NoDup (map tp_resolution (getVideoResolutionTierPriceEntries None sample_video
    (TierPriceOptionsOf None None None None))).
Proof.
  refine (proj1 (resolution_prices_complete None sample_video sample_resolutions
    (TierPriceOptionsOf None None None None) eq_refl _ eq_refl)). concrete.
Defined.

Definition sample_dynamic : PricedModel :=
  Pricing QUOTA_TYPE_TOKEN n1 n1 None None None None None None None None (Some (js "tiered_expr"))
    (Some (combineBillingExpr (generateExprFromVisualConfig (Some sample_tiers)) (buildRequestRuleExpr [sample_rule])))
    None None None.

Lemma dynamic_prices_shown_witness :
  ∃ s, getDynamicPricingSummary None sample_dynamic (DynamicOptions UnitM None None None None) = Ok (Some s) ∧
    tierCount s = 2%nat ∧ hasRequestRules s = true.
Proof.
  destruct (dynamic_prices_shown None (DynamicOptions UnitM None None None None) sample_dynamic sample_tiers
    [sample_rule]) as (s & E & Hr & Hc).
  - rewrite saved_in_order by exact sample_tiers_ok. exact sample_tiers_ok.
  - rewrite saved_in_order by exact sample_tiers_ok. exact sample_labels_plain.
  - apply Forall_singleton, faithful_written, sample_faithful.
  - reflexivity.
  - reflexivity.
  - exists s. split; [exact E|]. split; [apply (Hc eq_refl)|exact Hr].
Defined.
