(* ===== verification/ModelFilters.v ===== *)
(** * Filters of the model square

    Model of src/web/default/src/features/pricing/lib/filters.ts (the filters
    and the order of the models), of hooks/use-filters.ts (the state of the
    filters of the page and what the page lists), of the options with their
    counts in components/pricing-sidebar.tsx, and of the models that
    hooks/use-pricing-data.ts makes of the answer of the server. *)
From Stdlib Require Import QArith SpecFloat.
From S2P Require Import Prelude JsString JsNumber Regex JsValue JsFixed Currency FloatError Prices.

Open Scope N_scope.

(** A model of the list: what prices depend on, and what it is found by. *)
Record ListedModel := Listed {
  listed_price : PricedModel;
  model_name : option jsstr;
  description : option jsstr;
  tags : option jsstr;
  vendor_id : option num;
  vendor_name : option jsstr;
  supported_endpoint_types : option (list jsstr);
}.

Definition FILTER_ALL : jsstr := js "all".
Definition SORT_NAME : jsstr := js "name".
Definition SORT_PRICE_LOW : jsstr := js "price-low".
Definition SORT_PRICE_HIGH : jsstr := js "price-high".
Definition QUOTA_TYPES_ALL : jsstr := js "all".
Definition QUOTA_TYPES_TOKEN : jsstr := js "token".
Definition QUOTA_TYPES_TIERED_SECONDS : jsstr := js "tiered_seconds".
Definition QUOTA_TYPES_TIERED_REQUEST : jsstr := js "tiered_request".
Definition ENDPOINT_TYPES_ALL : jsstr := js "all".

(** [s.split(/[f]+/)] for a class [f] of code units: the text between maximal
    runs; [run] tells that the last code unit was in the class. *)
Fixpoint split_runs (f : N → bool) (run : bool) (piece s : jsstr) : list jsstr :=
  match s with
  | [] => [piece]
  | c :: s =>
      if f c then if run then split_runs f true piece s else piece :: split_runs f true [] s
      else split_runs f false (piece ++ [c]) s
  end.

(** The class of the separators of tags: a comma, a semicolon, a bar, white
    space. *)
Definition is_tag_separator (c : N) : bool := (c =? 44) || (c =? 59) || (c =? 124) || is_ws c.

Definition parseTags (tagsString : option jsstr) : list jsstr :=
  match tagsString with
  | None => []
  | Some s => if negb (truthy s) then [] else filterb truthy (map trim (split_runs is_tag_separator false [] s))
  end.

(** [Math.min(...l)]. *)
Definition math_min (l : list num) : num := fold_left nmin l nInf.

Record Filters := FiltersOf {
  search : jsstr;
  vendor : jsstr;
  group : jsstr;
  quotaType : jsstr;
  endpointType : jsstr;
  tag : jsstr;
  sortBy : jsstr;
}.

Section Filters.
Context `{CaseMap} `{NumberApi} `{LocaleOrder} (store : option StoredCurrency).
Implicit Types (models : list ListedModel) (m : ListedModel).

Definition filterBySearch models (query : jsstr) : list ListedModel :=
  if negb (truthy query) then models
  else
    let lowerQuery := to_lower query in
    let found (o : option jsstr) := match o with Some s => str_includes lowerQuery (to_lower s) | None => false end in
    filterb (λ m, found (model_name m) || found (description m) || found (tags m) || found (vendor_name m)) models.

Definition filterByVendor models (vendor : jsstr) : list ListedModel :=
  if str_eqb vendor FILTER_ALL then models
  else filterb (λ m, match vendor_name m with Some v => str_eqb v vendor | None => false end) models.

Definition filterByGroup models (group : jsstr) : list ListedModel :=
  if str_eqb group FILTER_ALL then models
  else filterb (λ m, match enable_groups (listed_price m) with Some l => includes group l | None => false end) models.

Definition filterByQuotaType models (quotaType : jsstr) : list ListedModel :=
  if str_eqb quotaType QUOTA_TYPES_ALL then models
  else if str_eqb quotaType QUOTA_TYPES_TIERED_SECONDS then
    filterb (λ m, isVideoResolutionTierModel (listed_price m)
                  && mode_is (video_billing_mode (listed_price m)) "tiered_seconds") models
  else if str_eqb quotaType QUOTA_TYPES_TIERED_REQUEST then
    filterb (λ m, isVideoResolutionTierModel (listed_price m)
                  && mode_is (video_billing_mode (listed_price m)) "tiered_request") models
  else if str_eqb quotaType QUOTA_TYPES_TOKEN then
    filterb (λ m, isTokenBasedModel (listed_price m)) models
  else
    filterb (λ m, neqb (quota_type (listed_price m)) QUOTA_TYPE_REQUEST
                  && negb (isVideoResolutionTierModel (listed_price m))) models.

Definition filterByEndpointType models (endpointType : jsstr) : list ListedModel :=
  if str_eqb endpointType ENDPOINT_TYPES_ALL then models
  else filterb (λ m, match supported_endpoint_types m with Some l => includes endpointType l | None => false end) models.

Definition filterByTag models (tag : jsstr) : list ListedModel :=
  if str_eqb tag FILTER_ALL then models
  else
    let tagLower := to_lower tag in
    filterb (λ m,
      match tags m with
      | None => false
      | Some s => if negb (truthy s) then false else includes tagLower (map to_lower (parseTags (Some s)))
      end) models.

Definition getModelPrice m : num :=
  let p := listed_price m in
  if isVideoResolutionTierModel p then
    math_min (map tp_price (getVideoResolutionTierPriceEntries store p (TierPriceOptionsOf None None None None)))
  else if isTokenBasedModel p then model_ratio p
  else num_or (from_opt nNaN (model_price p)) n0.

Definition name_of m : jsstr := from_opt [] (model_name m).

Definition sortModels models (sortBy : jsstr) : list ListedModel :=
  if str_eqb sortBy SORT_NAME then
    sort_by (λ a b, (locale_compare (name_of a) (name_of b) <=? 0)%Z) models
  else if str_eqb sortBy SORT_PRICE_LOW then
    sort_by (λ a b, negb (nltb n0 (nsub (getModelPrice a) (getModelPrice b)))) models
  else if str_eqb sortBy SORT_PRICE_HIGH then
    sort_by (λ a b, negb (nltb n0 (nsub (getModelPrice b) (getModelPrice a)))) models
  else models.

Definition filterAndSortModels models (filters : Filters) : list ListedModel :=
  let result := filterBySearch models (search filters) in
  let result := filterByVendor result (vendor filters) in
  let result := filterByGroup result (group filters) in
  let result := filterByQuotaType result (quotaType filters) in
  let result := filterByEndpointType result (endpointType filters) in
  let result := filterByTag result (tag filters) in
  sortModels result (sortBy filters).

Definition extractAllTags models : list jsstr :=
  let tagSet :=
    uniq (concat (map (λ m,
      match tags m with
      | None => []
      | Some s => if truthy s then map to_lower (parseTags (Some s)) else []
      end) models)) in
  sort_by (λ a b, (locale_compare a b <=? 0)%Z) tagSet.

End Filters.

(** ** The models of the page *)

Record PricingVendor := VendorOf { vendor_key : num; vendor_label : jsstr }.

(** [new Map(vendors.map(v => [v.id, v])).get(id)]: the last vendor with the
    id. *)
Definition vendor_of (vendors : list PricingVendor) (id : num) : option PricingVendor :=
  find_first (λ v, neqb (vendor_key v) id) (rev vendors).

Definition with_group_ratio (p : PricedModel) (r : option ratios) : PricedModel :=
  Pricing (quota_type p) (model_ratio p) (completion_ratio p) (model_price p) (cache_ratio p) (create_cache_ratio p)
    (image_ratio p) (audio_ratio p) (audio_completion_ratio p) (enable_groups p) r (billing_mode p) (billing_expr p)
    (video_billing_mode p) (price_configured p) (video_resolution_prices p).

(** One model of the answer with its vendor and the ratios of the groups. *)
Definition priced_model (vendors : list PricingVendor) (groupRatio : option ratios) (m : ListedModel) : ListedModel :=
  let vendor := id ← vendor_id m; if num_truthy id then vendor_of vendors id else None in
  Listed (with_group_ratio (listed_price m) groupRatio) (model_name m) (description m) (tags m) (vendor_id m)
    (vendor_label <$> vendor) (supported_endpoint_types m).

Definition pricing_models (data : option (list ListedModel)) (vendors : option (list PricingVendor))
    (groupRatio : option ratios) : list ListedModel :=
  match data, vendors with
  | Some models, Some vendors => map (priced_model vendors groupRatio) models
  | _, _ => []
  end.

Definition min_rate : num := parse_float (js "0.001").
Definition page_priceRate (status : option num) : num := nmax (from_opt n1 status) min_rate.
Definition page_usdExchangeRate (rate status : option num) : num :=
  nmax (from_opt (page_priceRate status) rate) min_rate.

(** ** The state of the filters *)

Inductive FilterKey := KeySearch | KeyVendor | KeyGroup | KeyTag | KeyView.

(** A member that is missing or undefined is [None]. *)
Record FilterState := FilterStateOf {
  fs_search : option jsstr;
  fs_vendor : option jsstr;
  fs_group : option jsstr;
  fs_tag : option jsstr;
  fs_view : option jsstr;
}.

Definition VIEW_MODES_CARD : jsstr := js "card".
Definition VIEW_MODES_TABLE : jsstr := js "table".

Definition normalizeViewMode (v : option jsstr) : jsstr :=
  if bool_decide (v = Some VIEW_MODES_TABLE) then VIEW_MODES_TABLE else VIEW_MODES_CARD.

Definition searchInput (st : FilterState) : jsstr := from_opt [] (fs_search st).
Definition vendorFilter (st : FilterState) : jsstr := str_or (from_opt [] (fs_vendor st)) FILTER_ALL.
Definition groupFilter (st : FilterState) : jsstr := str_or (from_opt [] (fs_group st)) FILTER_ALL.
Definition tagFilter (st : FilterState) : jsstr := str_or (from_opt [] (fs_tag st)) FILTER_ALL.
Definition viewMode (st : FilterState) : jsstr := normalizeViewMode (fs_view st).

Definition set_member (st : FilterState) (u : FilterKey * option jsstr) : FilterState :=
  let '(k, v) := u in
  match k with
  | KeySearch => FilterStateOf v (fs_vendor st) (fs_group st) (fs_tag st) (fs_view st)
  | KeyVendor => FilterStateOf (fs_search st) v (fs_group st) (fs_tag st) (fs_view st)
  | KeyGroup => FilterStateOf (fs_search st) (fs_vendor st) v (fs_tag st) (fs_view st)
  | KeyTag => FilterStateOf (fs_search st) (fs_vendor st) (fs_group st) v (fs_view st)
  | KeyView => FilterStateOf (fs_search st) (fs_vendor st) (fs_group st) (fs_tag st) v
  end.

Definition updateFilters (updates : list (FilterKey * option jsstr)) (prev : FilterState) : FilterState :=
  fold_left set_member updates prev.

Definition unless (default v : jsstr) : option jsstr := if str_eqb v default then None else Some v.

Definition setSearchInput (v : jsstr) : FilterState → FilterState :=
  updateFilters [(KeySearch, if truthy v then Some v else None)].
Definition setVendorFilter (v : jsstr) : FilterState → FilterState := updateFilters [(KeyVendor, unless FILTER_ALL v)].
Definition setGroupFilter (v : jsstr) : FilterState → FilterState := updateFilters [(KeyGroup, unless FILTER_ALL v)].
Definition setTagFilter (v : jsstr) : FilterState → FilterState := updateFilters [(KeyTag, unless FILTER_ALL v)].
Definition setViewMode (v : jsstr) : FilterState → FilterState := updateFilters [(KeyView, unless VIEW_MODES_CARD v)].
Definition clearFilters : FilterState → FilterState :=
  updateFilters [(KeyVendor, None); (KeyGroup, None); (KeyTag, None)].
Definition clearSearch : FilterState → FilterState := updateFilters [(KeySearch, None)].
Definition handleClearAll (st : FilterState) : FilterState := clearSearch (clearFilters st).

Definition hasActiveFilters (st : FilterState) : bool :=
  negb (str_eqb (vendorFilter st) FILTER_ALL) || negb (str_eqb (groupFilter st) FILTER_ALL)
  || negb (str_eqb (tagFilter st) FILTER_ALL).

Definition activeFilterCount (st : FilterState) : nat :=
  let one v := if negb (str_eqb v FILTER_ALL) then 1%nat else 0%nat in
  (one (vendorFilter st) + one (groupFilter st) + one (tagFilter st))%nat.

(** What a user does on the page. *)
Inductive FilterAction :=
| TypeSearch (v : jsstr)
| ChooseVendor (v : jsstr)
| ChooseGroup (v : jsstr)
| ChooseTag (v : jsstr)
| ChooseView (v : jsstr)
| ClearFilters
| ClearSearch
| ClearAll.

Definition filter_action (a : FilterAction) : FilterState → FilterState :=
  match a with
  | TypeSearch v => setSearchInput v
  | ChooseVendor v => setVendorFilter v
  | ChooseGroup v => setGroupFilter v
  | ChooseTag v => setTagFilter v
  | ChooseView v => setViewMode v
  | ClearFilters => clearFilters
  | ClearSearch => clearSearch
  | ClearAll => handleClearAll
  end.

Section Page.
Context `{CaseMap} `{NumberApi} `{LocaleOrder} (store : option StoredCurrency).
Implicit Types (models : list ListedModel) (m : ListedModel) (st : FilterState).

Definition page_filters st : Filters :=
  FiltersOf (searchInput st) (vendorFilter st) (groupFilter st) QUOTA_TYPES_ALL ENDPOINT_TYPES_ALL (tagFilter st)
    SORT_NAME.

Definition filteredModels models st : list ListedModel :=
  match models with [] => [] | _ => filterAndSortModels store models (page_filters st) end.

Definition availableTags models : list jsstr := match models with [] => [] | _ => extractAllTags models end.

(** ** The options of the sidebar *)

Record FilterOption := OptionOf { opt_value : jsstr; opt_count : nat }.

Definition countBy models (predicate : ListedModel → bool) : nat :=
  fold_left (λ count m, (count + (if predicate m then 1 else 0))%nat) models 0%nat.

Definition zeros_at_end_re : re := rseq [RPlus (RChr (N.eqb 48)); REnd].
Definition point_at_end_re : re := rseq [RLit (js "."); REnd].

Definition formatGroupRatio (ratio : option num) : option jsstr :=
  ratio ← ratio;
  let formatted :=
    if is_integer ratio then num_to_str ratio
    else rx_replace_first point_at_end_re (λ _, []) (rx_replace_first zeros_at_end_re (λ _, []) (to_fixed 3 ratio)) in
  Some (js "x" ++ formatted).

Definition vendorOptions models (vendors : list PricingVendor) : list FilterOption :=
  OptionOf FILTER_ALL (length models) ::
  filterb (λ o, (0 <? opt_count o)%nat)
    (map (λ v, OptionOf (vendor_label v)
      (countBy models (λ m, match vendor_name m with Some n => str_eqb n (vendor_label v) | None => false end))) vendors).

Definition tagOptions models (tags_shown : list jsstr) : list FilterOption :=
  OptionOf FILTER_ALL (length models) ::
  map (λ t, OptionOf t
    (countBy models (λ m, includes (to_lower t) (map to_lower (parseTags (tags m)))))) tags_shown.

(** A group is shown with its ratio, not with a count. *)
Definition groupOptions (groups : list jsstr) (groupRatios : option ratios) : list (jsstr * option jsstr) :=
  (FILTER_ALL, None) :: map (λ g, (g, formatGroupRatio (member_of g (from_opt [] groupRatios)))) groups.

End Page.

(** ** What is listed *)

Section Spec.
Context `{CaseMap} `{LocaleOrder}.
Implicit Types (f : Filters) (m : ListedModel).

Definition quota_matches (q : jsstr) (p : PricedModel) : Prop :=
  q = QUOTA_TYPES_ALL ∨
  (q = QUOTA_TYPES_TIERED_SECONDS ∧ isVideoResolutionTierModel p = true
   ∧ video_billing_mode p = Some QUOTA_TYPES_TIERED_SECONDS) ∨
  (q = QUOTA_TYPES_TIERED_REQUEST ∧ isVideoResolutionTierModel p = true
   ∧ video_billing_mode p = Some QUOTA_TYPES_TIERED_REQUEST) ∨
  (q = QUOTA_TYPES_TOKEN ∧ isTokenBasedModel p = true) ∨
  ((q ∉ [QUOTA_TYPES_ALL; QUOTA_TYPES_TIERED_SECONDS; QUOTA_TYPES_TIERED_REQUEST; QUOTA_TYPES_TOKEN])
   ∧ neqb (quota_type p) QUOTA_TYPE_REQUEST = true ∧ isVideoResolutionTierModel p = false).

(** A model that a choice of filters asks for. *)
Record matches f m : Prop := {
  by_search : search f = [] ∨
    ∃ text a b, (Some text ∈ [model_name m; description m; tags m; vendor_name m])
                ∧ to_lower text = a ++ to_lower (search f) ++ b;
  by_vendor : vendor f = FILTER_ALL ∨ vendor_name m = Some (vendor f);
  by_group : group f = FILTER_ALL ∨ ∃ l, enable_groups (listed_price m) = Some l ∧ group f ∈ l;
  by_quota : quota_matches (quotaType f) (listed_price m);
  by_endpoint : endpointType f = ENDPOINT_TYPES_ALL ∨
    ∃ l, supported_endpoint_types m = Some l ∧ endpointType f ∈ l;
  by_tag : tag f = FILTER_ALL ∨ ∃ t, t ∈ parseTags (tags m) ∧ to_lower t = to_lower (tag f);
}.

End Spec.

(** A function on lists that keeps the elements with [P], in their order. *)
Definition keeps {A} (F : list A → list A) (P : A → Prop) : Prop :=
  ∃ p : A → bool, (∀ x, p x = true ↔ P x) ∧ ∀ l, F l = filterb p l.

Lemma keeps_filterb {A} (p : A → bool) P : (∀ x, p x = true ↔ P x) → keeps (filterb p) P.
Proof. intros Hp. by exists p. Qed.

Lemma keeps_id {A} (P : A → Prop) : (∀ x, P x) → keeps (λ l, l) P.
Proof. intros HP. exists (λ _, true). split; [done|]. intros l. symmetry. by apply filterb_all. Qed.

Lemma filterb_and {A} (p q : A → bool) l : filterb q (filterb p l) = filterb (λ x, p x && q x) l.
Proof.
  induction l as [|x l IH]; [done|]. cbn. destruct (p x); cbn; [|done]. destruct (q x); [by f_equal|done].
Qed.

Lemma keeps_comp {A} (F G : list A → list A) P Q : keeps F P → keeps G Q → keeps (λ l, G (F l)) (λ x, P x ∧ Q x).
Proof.
  intros (p & Hp & EF) (q & Hq & EG). exists (λ x, p x && q x). split.
  - intros x. by rewrite andb_true_iff, Hp, Hq.
  - intros l. by rewrite EG, EF, filterb_and.
Qed.

Lemma keeps_iff {A} (F : list A → list A) P Q : (∀ x, P x ↔ Q x) → keeps F P → keeps F Q.
Proof. intros HPQ (p & Hp & HF). exists p. split; [|done]. intros x. by rewrite Hp. Qed.

Lemma str_eqb_true s t : str_eqb s t = true ↔ s = t.
Proof. apply bool_decide_eq_true. Qed.

Lemma str_includes_true p s : str_includes p s = true ↔ ∃ a b, s = a ++ p ++ b.
Proof.
  destruct (str_includes p s) eqn:E; split; try done.
  - intros _. unfold str_includes in E. destruct (index_of p s) as [i|] eqn:Ei; [|done].
    apply index_of_Some in Ei as [Ei _]. by eauto.
  - intros (a & b & Es). rewrite str_includes_false in E. by destruct (E a b).
Qed.

(** A filter that one value switches off. *)
Lemma keeps_unless {A} (v all : jsstr) (p : A → bool) (P : A → Prop) :
  (∀ x, p x = true ↔ P x) →
  keeps (λ l, if str_eqb v all then l else filterb p l) (λ x, v = all ∨ P x).
Proof.
  intros Hp. destruct (str_eqb v all) eqn:E.
  - apply keeps_id. intros x. left. by apply str_eqb_true.
  - apply keeps_filterb. intros x. rewrite Hp. split; [by right|]. intros [Ev |HP]; [|done].
    apply str_eqb_true in Ev. congruence.
Qed.

Lemma match_true {A} (o : option A) (p : A → bool) :
  match o with Some x => p x | None => false end = true ↔ ∃ x, o = Some x ∧ p x = true.
Proof. destruct o; naive_solver. Qed.

Section FilterFacts.
Context `{CaseMap} `{NumberApi} `{LocaleOrder} (store : option StoredCurrency).
Implicit Types (models : list ListedModel) (m : ListedModel) (f : Filters).

Lemma search_keeps q :
  keeps (λ l, filterBySearch l q) (λ m, q = [] ∨
    ∃ text a b, (Some text ∈ [model_name m; description m; tags m; vendor_name m])
                ∧ to_lower text = a ++ to_lower q ++ b).
Proof.
  unfold filterBySearch. destruct q as [|c q]; cbn [truthy negb]; [apply keeps_id; by left|].
  apply keeps_filterb. intros m. rewrite !orb_true_iff, !match_true. setoid_rewrite str_includes_true.
  setoid_rewrite list_elem_of_In. cbn [In]. split; [|intros [?|?]; [done|]]; naive_solver.
Qed.

Lemma quota_keeps q :
  keeps (λ l, filterByQuotaType l q) (λ m, quota_matches q (listed_price m)).
Proof.
  unfold filterByQuotaType, quota_matches, mode_is.
  destruct (str_eqb q QUOTA_TYPES_ALL) eqn:E1; [apply keeps_id; left; by apply str_eqb_true|].
  destruct (str_eqb q QUOTA_TYPES_TIERED_SECONDS) eqn:E2.
  { apply str_eqb_true in E2 as ->. apply keeps_filterb. intros m.
    rewrite andb_true_iff, match_true. setoid_rewrite str_eqb_true. set_solver. }
  destruct (str_eqb q QUOTA_TYPES_TIERED_REQUEST) eqn:E3.
  { apply str_eqb_true in E3 as ->. apply keeps_filterb. intros m.
    rewrite andb_true_iff, match_true. setoid_rewrite str_eqb_true. set_solver. }
  apply bool_decide_eq_false in E1, E2, E3.
  destruct (str_eqb q QUOTA_TYPES_TOKEN) eqn:E4; apply keeps_filterb; intros m.
  - apply str_eqb_true in E4. subst. set_solver.
  - apply bool_decide_eq_false in E4. rewrite andb_true_iff, negb_true_iff. set_solver.
Qed.

Lemma tag_keeps t :
  keeps (λ l, filterByTag l t) (λ m, t = FILTER_ALL ∨ ∃ t', t' ∈ parseTags (tags m) ∧ to_lower t' = to_lower t).
Proof.
  apply keeps_unless. intros m. destruct (tags m) as [s|]; [|cbn; split; [done|]; by intros (? & ?%elem_of_nil & _)].
  destruct (truthy s) eqn:E; cbn [negb].
  - rewrite includes_elem, list_elem_of_fmap. naive_solver.
  - cbn [parseTags]. rewrite E. cbn. split; [done|]. by intros (? & ?%elem_of_nil & _).
Qed.

Definition selected models f : list ListedModel :=
  filterByTag (filterByEndpointType (filterByQuotaType (filterByGroup (filterByVendor
    (filterBySearch models (search f)) (vendor f)) (group f)) (quotaType f)) (endpointType f)) (tag f).

Lemma vendor_keeps v : keeps (λ l, filterByVendor l v) (λ m, v = FILTER_ALL ∨ vendor_name m = Some v).
Proof. apply keeps_unless. intros m. rewrite match_true. setoid_rewrite str_eqb_true. naive_solver. Qed.

Lemma group_keeps g :
  keeps (λ l, filterByGroup l g) (λ m, g = FILTER_ALL ∨ ∃ l, enable_groups (listed_price m) = Some l ∧ g ∈ l).
Proof. apply keeps_unless. intros m. rewrite match_true. by setoid_rewrite includes_elem. Qed.

Lemma endpoint_keeps t :
  keeps (λ l, filterByEndpointType l t)
    (λ m, t = ENDPOINT_TYPES_ALL ∨ ∃ l, supported_endpoint_types m = Some l ∧ t ∈ l).
Proof. apply keeps_unless. intros m. rewrite match_true. by setoid_rewrite includes_elem. Qed.

Lemma selected_keeps f : keeps (λ l, selected l f) (matches f).
Proof.
  pose proof (keeps_comp _ _ _ _ (search_keeps (search f)) (vendor_keeps (vendor f))) as K.
  pose proof (keeps_comp _ _ _ _ K (group_keeps (group f))) as K2.
  pose proof (keeps_comp _ _ _ _ K2 (quota_keeps (quotaType f))) as K3.
  pose proof (keeps_comp _ _ _ _ K3 (endpoint_keeps (endpointType f))) as K4.
  pose proof (keeps_comp _ _ _ _ K4 (tag_keeps (tag f))) as K5.
  revert K5. apply keeps_iff. intros m. split; [|intros [H2 H3 H4 H5 H6 H7]; split_and!; assumption].
  intros [[[[[H2 H3] H4] H5] H6] H7]. by split.
Qed.

(** What the order of names in the language of the browser is: total and
    transitive. *)
Class LocaleLaws : Prop := {
  locale_total : ∀ x y : jsstr, (locale_compare x y <= 0)%Z ∨ (locale_compare y x <= 0)%Z;
  locale_trans : ∀ x y z : jsstr,
    (locale_compare x y <= 0)%Z → (locale_compare y z <= 0)%Z → (locale_compare x z <= 0)%Z;
}.

Lemma sort_models_perm models by_option : sortModels store models by_option ≡ₚ models.
Proof. unfold sortModels. repeat case_match; first [apply sort_by_Permutation|done]. Qed.

Lemma sorted_by_name `{!LocaleLaws} models :
  StronglySorted (λ a b, (locale_compare (name_of a) (name_of b) <= 0)%Z) (sortModels store models SORT_NAME).
Proof.
  apply (sorted_by_key _ _ (λ _, True)).
  - intros. apply Z.leb_le.
  - intros. apply locale_total.
  - intros ???. apply locale_trans.
  - by apply Forall_true.
Qed.

Lemma sorted_by_price models :
  Forall (λ m, regular (getModelPrice store m)) models →
  StronglySorted (λ a b, (qval (getModelPrice store a) <= qval (getModelPrice store b))%Q)
    (sortModels store models SORT_PRICE_LOW) ∧
  StronglySorted (λ a b, (qval (getModelPrice store b) <= qval (getModelPrice store a))%Q)
    (sortModels store models SORT_PRICE_HIGH).
Proof.
  intros Hr. split; apply (sorted_by_key _ _ (λ m, regular (getModelPrice store m))); try done.
  - intros. by apply difference_le.
  - intros. destruct (Qlt_le_dec (qval (getModelPrice store x)) (qval (getModelPrice store y))); [left|right]; [by apply Qlt_le_weak|done].
  - intros ???. apply Qle_trans.
  - intros. by apply difference_le.
  - intros. destruct (Qlt_le_dec (qval (getModelPrice store x)) (qval (getModelPrice store y))); [right|left]; [by apply Qlt_le_weak|done].
  - intros x y z ??. by apply (Qle_trans _ (qval (getModelPrice store y))).
Qed.

(** C31. The list of models is exactly the models that match every filter, each
    as often as it occurs among the models; it is ordered by name, by rising or
    by falling price as chosen, and keeps its order when no order is chosen.
    The prices compared are those of getModelPrice as real numbers: that the
    comparison is the sign of a rounded difference changes nothing. *)
Theorem filters_exact `{!LocaleLaws} models f :
  Forall (λ m, regular (getModelPrice store m)) models →
  let result := filterAndSortModels store models f in
  ∃ keep : ListedModel → bool,
    (∀ m, keep m = true ↔ matches f m) ∧ result ≡ₚ filterb keep models ∧
    (sortBy f = SORT_NAME →
       StronglySorted (λ a b, (locale_compare (name_of a) (name_of b) <= 0)%Z) result) ∧
    (sortBy f = SORT_PRICE_LOW →
       StronglySorted (λ a b, (qval (getModelPrice store a) <= qval (getModelPrice store b))%Q) result) ∧
    (sortBy f = SORT_PRICE_HIGH →
       StronglySorted (λ a b, (qval (getModelPrice store b) <= qval (getModelPrice store a))%Q) result) ∧
    (sortBy f ∉ [SORT_NAME; SORT_PRICE_LOW; SORT_PRICE_HIGH] → result = filterb keep models).
Proof.
  intros Hr result. destruct (selected_keeps f) as (keep & Hk & Hf). exists keep.
  assert (result = sortModels store (filterb keep models) (sortBy f)) as -> by (rewrite <- Hf; done).
  assert (Forall (λ m, regular (getModelPrice store m)) (filterb keep models)) as Hr'.
  { rewrite Forall_forall in *. intros m [Hm _]%filterb_elem. auto. }
  pose proof (sorted_by_price _ Hr') as [Hl Hh]. split_and!; [done|apply sort_models_perm|..].
  - intros ->. apply sorted_by_name.
  - by intros ->.
  - by intros ->.
  - rewrite !not_elem_of_cons. intros (E1 & E2 & E3 & _). unfold sortModels. by rewrite !str_eqb_neq.
Qed.

End FilterFacts.

(** ** The counts of the sidebar *)

Lemma count_from {A} (p : A → bool) l n :
  fold_left (λ count x, (count + (if p x then 1 else 0))%nat) l n = (n + length (filterb p l))%nat.
Proof.
  revert n. induction l as [|x l IH]; intros n; cbn; [lia|]. rewrite IH. unfold filterb. destruct (p x); cbn; lia.
Qed.

Lemma filterb_nonempty {A} (p : A → bool) l x : x ∈ l → p x = true → (0 < length (filterb p l))%nat.
Proof.
  intros Hx Hp. assert (x ∈ filterb p l) as Hin by (by apply filterb_elem).
  destruct (filterb p l); [by apply elem_of_nil in Hin|cbn; lia].
Qed.

Lemma filterb_eq {A} (p q : A → bool) l : (∀ x, p x = q x) → filterb p l = filterb q l.
Proof. intros E. by apply List.filter_ext. Qed.

Section SidebarFacts.
Context `{CaseMap} `{NumberApi} `{LocaleOrder} (store : option StoredCurrency).
Implicit Types (models : list ListedModel) (m : ListedModel) (st : FilterState) (o : FilterOption).

Definition has_tag (t : jsstr) m : bool := includes (to_lower t) (map to_lower (parseTags (tags m))).
Definition has_vendor (v : jsstr) m : bool := match vendor_name m with Some n => str_eqb n v | None => false end.

Lemma listed_length models st :
  length (filteredModels store models st) = length (selected models (page_filters st)).
Proof.
  destruct models as [|m models]; [|apply (Permutation_length (sort_models_perm store _ _))].
  pose proof (selected_keeps (page_filters st)) as (keep & _ & E). cbn. by rewrite (E []).
Qed.

(** Only a tag, only a vendor is chosen. *)
Lemma tag_alone models st t :
  t ≠ [] → t ≠ FILTER_ALL →
  selected models (page_filters (setTagFilter t (handleClearAll st))) = filterb (has_tag t) models.
Proof.
  intros Ht Ha. unfold setTagFilter, unless. rewrite str_eqb_neq by done. cbn -[FILTER_ALL js].
  unfold selected, page_filters, tagFilter, vendorFilter, groupFilter. cbn -[FILTER_ALL js].
  destruct t as [|c t]; [done|]. change (str_or (c :: t) FILTER_ALL) with (c :: t).
  unfold filterByTag. rewrite str_eqb_neq by done. apply filterb_eq. intros m. unfold has_tag, parseTags.
  destruct (tags m) as [s|]; [|done]. by destruct (truthy s).
Qed.

Lemma vendor_alone models st v :
  v ≠ [] → v ≠ FILTER_ALL →
  selected models (page_filters (setVendorFilter v (handleClearAll st))) = filterb (has_vendor v) models.
Proof.
  intros Ht Ha. unfold setVendorFilter, unless. rewrite str_eqb_neq by done. cbn -[FILTER_ALL js].
  unfold selected, page_filters, tagFilter, vendorFilter, groupFilter. cbn -[FILTER_ALL js].
  destruct v as [|c v]; [done|]. change (str_or (c :: v) FILTER_ALL) with (c :: v).
  unfold filterByVendor. by rewrite str_eqb_neq.
Qed.

Lemma tag_of_some_model models t : t ∈ availableTags models → ∃ m, m ∈ models ∧ has_tag t m = true.
Proof.
  intros Ht. assert (t ∈ extractAllTags models) as Ht' by (by destruct models). clear Ht.
  unfold extractAllTags in Ht'. apply sort_by_elem, uniq_elem, list_elem_of_In, in_concat in Ht' as (l & Hl & Ht).
  apply in_map_iff in Hl as (m & <- & Hm). exists m. split; [by apply list_elem_of_In|].
  unfold has_tag. apply includes_elem. destruct (tags m) as [s|]; [|done]. destruct (truthy s) eqn:E; [|done].
  apply in_map_iff in Ht as (w & <- & Hw). rewrite to_lower_idemp.
  apply list_elem_of_In, in_map_iff. by exists w.
Qed.

(** The counts of the sidebar are right: choosing a vendor or a tag from
    it, with the search and the other filters cleared, lists as many models as
    the option says, and at least one. *)
Theorem sidebar_counts models vendors st o :
  opt_value o ≠ [] → opt_value o ≠ FILTER_ALL →
  (o ∈ tagOptions models (availableTags models) →
     length (filteredModels store models (setTagFilter (opt_value o) (handleClearAll st))) = opt_count o
     ∧ (0 < opt_count o)%nat) ∧
  (o ∈ vendorOptions models vendors →
     length (filteredModels store models (setVendorFilter (opt_value o) (handleClearAll st))) = opt_count o
     ∧ (0 < opt_count o)%nat).
Proof.
  intros Hn Ha. split; intros [-> |Ho]%elem_of_cons; try done; rewrite listed_length.
  - rewrite tag_alone by done. apply list_elem_of_fmap in Ho as (t & -> & Ht). cbn. unfold countBy. rewrite count_from.
    split; [done|]. apply tag_of_some_model in Ht as (m & Hm & Hp). by apply (filterb_nonempty _ _ m).
  - rewrite vendor_alone by done. apply filterb_elem in Ho as [(v & -> & _)%list_elem_of_fmap Hc].
    apply Nat.ltb_lt in Hc. cbn [opt_value opt_count] in *. unfold countBy in *. rewrite count_from in *. split; [done|]. lia.
Qed.

End SidebarFacts.

(** ** A small list of models *)

#[local] Instance filter_numbers : NumberApi := {
  intl_currency c d x := c ++ to_fixed d x;
  intl_decimal d x := to_fixed d x;
  math_pow x y := x;
}.
#[local] Instance code_unit_order : LocaleOrder := λ a b, if str_leb a b then (-1)%Z else 1%Z.

#[local] Instance code_unit_order_laws : LocaleLaws.
Proof.
  split; unfold locale_compare, code_unit_order.
  - intros x y. destruct (str_leb_total x y) as [-> | ->]; [by left|by right].
  - intros x y z Hx Hy. destruct (str_leb x y) eqn:E1, (str_leb y z) eqn:E2; try done.
    by rewrite (str_leb_trans x y z).
Qed.

Definition sample_model (name : string) (quota ratio : Z) (price : option Z) (vendor : option string) (ts : string)
    : ListedModel :=
  Listed (Pricing (of_Z quota) (of_Z ratio) n1 (of_Z <$> price) None None None None None (Some [js "default"]) None None
    None None None None) (Some (js name)) None (Some (js ts)) None (js <$> vendor) (Some [js "openai"]).

Definition sample_models : list ListedModel :=
  [sample_model "gpt-b" 0 30 None (Some "OpenAI"%string) "Chat, Vision"; sample_model "claude" 0 15 None (Some "Anthropic"%string) "chat";
   sample_model "flux" 1 0 (Some 2%Z) None "image"].

Definition sample_choice (option_chosen : jsstr) : Filters :=
  FiltersOf [] FILTER_ALL (js "default") QUOTA_TYPES_ALL ENDPOINT_TYPES_ALL (js "CHAT") option_chosen.

Lemma filters_exact_witness :
  StronglySorted (λ a b, (qval (getModelPrice None a) <= qval (getModelPrice None b))%Q)
    (filterAndSortModels None sample_models (sample_choice SORT_PRICE_LOW)) ∧
  map name_of (filterAndSortModels None sample_models (sample_choice SORT_PRICE_LOW)) = [js "claude"; js "gpt-b"].
Proof.
  split; [|by vm_compute].
  assert (Forall (λ m, regular (getModelPrice None m)) sample_models) as Hr.
  { repeat constructor; vm_compute; discriminate. }
  destruct (filters_exact None sample_models (sample_choice SORT_PRICE_LOW) Hr) as (keep & _ & _ & _ & Hl & _).
  by apply Hl.
Defined.

Lemma sidebar_counts_witness :
  availableTags sample_models = [js "chat"; js "image"; js "vision"] ∧
  length (filteredModels None sample_models
    (setTagFilter (js "chat") (handleClearAll (FilterStateOf (Some (js "flux")) None None None None)))) = 2%nat.
Proof.
  split; [by vm_compute|].
  destruct (sidebar_counts None sample_models [] (FilterStateOf (Some (js "flux")) None None None None)
    (OptionOf (js "chat") 2)) as [Ht _]; [by vm_compute|by vm_compute|].
  apply Ht. vm_compute. right. left.
Defined.
