(* ===== verification/ParamOverride.v ===== *)
(** * Parameter overrides

    Model of the logic of
    src/web/default/src/features/channels/components/dialogs/param-override-editor-dialog.tsx:
    the operations that change the parameters of a request before it is
    relayed, how they are read from and written to the JSON text of a channel,
    how they are checked, the drafts of two of them, and the state of the
    editor with its handlers.

    Every operation and every condition gets an identifier from the counter
    localIdSeed of the module, which the functions pass along. *)
From S2P Require Import Prelude JsString JsNumber JsValue.

Open Scope N_scope.

(** ** Data *)

Record ParamOverrideCondition := Condition {
  c_id : jsstr;
  c_path : jsstr;
  c_mode : jsstr;
  c_value_text : jsstr;
  c_invert : bool;
  c_pass_missing_key : bool;
}.

Record ParamOverrideOperation := Operation {
  op_id : jsstr;
  op_description : jsstr;
  op_path : jsstr;
  op_mode : jsstr;
  op_from : jsstr;
  op_to : jsstr;
  op_value_text : jsstr;
  op_keep_origin : bool;
  op_logic : jsstr;
  op_conditions : list ParamOverrideCondition;
}.

Definition OPERATION_MODE_OPTIONS : list (jsstr * jsstr) := [
  (js "Set Field", js "set"); (js "Delete Field", js "delete"); (js "Append to End", js "append");
  (js "Prepend to Start", js "prepend"); (js "Copy Field", js "copy"); (js "Move Field", js "move");
  (js "String Replace", js "replace"); (js "Regex Replace", js "regex_replace");
  (js "Trim Prefix", js "trim_prefix"); (js "Trim Suffix", js "trim_suffix");
  (js "Ensure Prefix", js "ensure_prefix"); (js "Ensure Suffix", js "ensure_suffix");
  (js "Trim Space", js "trim_space"); (js "To Lowercase", js "to_lower"); (js "To Uppercase", js "to_upper");
  (js "Return Custom Error", js "return_error"); (js "Prune Object Items", js "prune_objects");
  (js "Pass Through Headers", js "pass_headers"); (js "Sync Fields", js "sync_fields");
  (js "Set Request Header", js "set_header"); (js "Delete Request Header", js "delete_header");
  (js "Copy Request Header", js "copy_header"); (js "Move Request Header", js "move_header")].
Definition OPERATION_MODE_VALUES : list jsstr := map snd OPERATION_MODE_OPTIONS.

Definition CONDITION_MODE_OPTIONS : list (jsstr * jsstr) := [
  (js "Exact Match", js "full"); (js "Prefix", js "prefix"); (js "Suffix", js "suffix");
  (js "Contains", js "contains"); (js "Greater Than", js "gt"); (js "Greater Than or Equal", js "gte");
  (js "Less Than", js "lt"); (js "Less Than or Equal", js "lte")].
Definition CONDITION_MODE_VALUES : list jsstr := map snd CONDITION_MODE_OPTIONS.

(** What a mode uses; [pathOptional] and [pathAlias] are rare. *)
Record ModeMeta := Meta {
  m_path : bool;
  m_pathOptional : bool;
  m_value : bool;
  m_from : bool;
  m_to : bool;
  m_keepOrigin : bool;
  m_pathAlias : bool;
}.

Definition only_path : ModeMeta := Meta true false false false false false false.
Definition path_value : ModeMeta := Meta true false true false false false false.
Definition path_value_keep : ModeMeta := Meta true false true false false true false.
Definition from_to : ModeMeta := Meta false false false true true false false.
Definition path_from : ModeMeta := Meta true false false true false false false.
Definition header_from_to : ModeMeta := Meta false false false true true true true.

Definition MODE_META : list (jsstr * ModeMeta) := [
  (js "delete", only_path);
  (js "set", path_value_keep);
  (js "append", path_value_keep);
  (js "prepend", path_value_keep);
  (js "copy", from_to);
  (js "move", from_to);
  (js "replace", path_from);
  (js "regex_replace", path_from);
  (js "trim_prefix", path_value);
  (js "trim_suffix", path_value);
  (js "ensure_prefix", path_value);
  (js "ensure_suffix", path_value);
  (js "trim_space", only_path);
  (js "to_lower", only_path);
  (js "to_upper", only_path);
  (js "return_error", Meta false false true false false false false);
  (js "prune_objects", Meta false true true false false false false);
  (js "pass_headers", Meta false false true false false true false);
  (js "sync_fields", from_to);
  (js "set_header", path_value_keep);
  (js "delete_header", only_path);
  (js "copy_header", header_from_to);
  (js "move_header", header_from_to)].

(** [MODE_META[mode] || MODE_META.set]; a mode is one of the options. *)
Definition meta_of (mode : jsstr) : ModeMeta :=
  from_opt path_value_keep (snd <$> find_first (λ e, str_eqb e.1 mode) MODE_META).

Definition VALUE_REQUIRED_MODES : list jsstr :=
  [js "trim_prefix"; js "trim_suffix"; js "ensure_prefix"; js "ensure_suffix"; js "set_header";
   js "return_error"; js "prune_objects"; js "pass_headers"].
Definition FROM_REQUIRED_MODES : list jsstr :=
  [js "copy"; js "move"; js "replace"; js "regex_replace"; js "copy_header"; js "move_header"; js "sync_fields"].
Definition TO_REQUIRED_MODES : list jsstr :=
  [js "copy"; js "move"; js "copy_header"; js "move_header"; js "sync_fields"].

(** ** Values *)

Definition toValueText (v : value) : jsstr :=
  match v with
  | VUndef => []
  | VStr s => s
  | _ => from_opt [] (stringify v)
  end.

Definition parseLooseValue (valueText : jsstr) : value :=
  let raw := trim valueText in
  if str_eqb raw [] then VStr []
  else match json_parse raw with Some v => v | None => VStr raw end.

Definition verifyJSON (text : jsstr) : bool := is_some (json_parse text).

(** [v.k] for a member that no prototype has. *)
Definition get_member (k : jsstr) (v : value) : exc value :=
  match v with
  | VUndef | VNull => Throw
  | VObj o => Ok (prop k o)
  | _ => Ok VUndef
  end.

Definition string_or_empty (v : value) : jsstr := match v with VStr s => s | _ => [] end.
Definition is_true (v : value) : bool := match v with VBool b => b | _ => false end.
Definition mode_or (modes : list jsstr) (d : jsstr) (v : value) : jsstr :=
  match v with VStr s => if includes s modes then s else d | _ => d end.

(** [String(v)] where an exception ends the caller. *)
Definition string_of (v : value) : exc jsstr := match to_string v with Some s => Ok s | None => Throw end.
(** [String(v || d)]. *)
Definition string_or (d : jsstr) (v : value) : exc jsstr := if val_truthy v then string_of v else Ok d.

(** An argument that is left out is an empty object. *)
Definition default_empty (v : value) : value := match v with VUndef => VObj [] | _ => v end.

Section Overrides.
Context `{UpperMap}.
(** [Date.now()] when the identifier with a number is made. *)
Context (clock : N → N).

Definition nextLocalId (seed : N) : jsstr := js "po_" ++ dec (clock seed) ++ js "_" ++ dec seed.

(** [l.map(f)] with the counter. *)
Fixpoint map_seed {A} (f : value → N → exc (A * N)) (l : list value) (seed : N) : exc (list A * N) :=
  match l with
  | [] => Ok ([], seed)
  | v :: l => r ← f v seed; rs ← map_seed f l r.2; Ok (r.1 :: rs.1, rs.2)
  end.

Definition normalizeOverrideCondition (condition : value) (seed : N) : exc (ParamOverrideCondition * N) :=
  let c := default_empty condition in
  path ← get_member (js "path") c;
  mode ← get_member (js "mode") c;
  val ← get_member (js "value") c;
  invert ← get_member (js "invert") c;
  pass ← get_member (js "pass_missing_key") c;
  Ok (Condition (nextLocalId seed) (string_or_empty path) (mode_or CONDITION_MODE_VALUES (js "full") mode)
        (toValueText val) (is_true invert) (is_true pass), seed + 1).

Definition createDefaultCondition (seed : N) : ParamOverrideCondition * N :=
  (Condition (nextLocalId seed) [] (js "full") [] false false, seed + 1).

Definition normalizeOperation (operation : value) (seed : N) : exc (ParamOverrideOperation * N) :=
  let o := default_empty operation in
  description ← get_member (js "description") o;
  path ← get_member (js "path") o;
  mode ← get_member (js "mode") o;
  val ← get_member (js "value") o;
  keep ← get_member (js "keep_origin") o;
  from ← get_member (js "from") o;
  to ← get_member (js "to") o;
  logic ← get_member (js "logic") o;
  logicText ← string_or (js "OR") logic;
  conds ← get_member (js "conditions") o;
  cs ← match conds with
       | VArr l => map_seed normalizeOverrideCondition l (seed + 1)
       | _ => Ok ([], seed + 1)
       end;
  Ok (Operation (nextLocalId seed) (string_or_empty description) (string_or_empty path)
        (mode_or OPERATION_MODE_VALUES (js "set") mode) (string_or_empty from) (string_or_empty to)
        (toValueText val) (is_true keep)
        (if str_eqb (to_upper logicText) (js "AND") then js "AND" else js "OR") cs.1, cs.2).

Definition createDefaultOperation (seed : N) : ParamOverrideOperation * N :=
  (Operation (nextLocalId seed) [] [] (js "set") [] [] [] false (js "OR") [], seed + 1).

(** ** Operations *)

Inductive position := Before | After.

Definition reorderOperations (ops : list ParamOverrideOperation) (sourceId targetId : jsstr) (pos : position)
    : list ParamOverrideOperation :=
  if negb (truthy sourceId) || negb (truthy targetId) || str_eqb sourceId targetId then ops
  else
    match find_index (λ o, str_eqb (op_id o) sourceId) ops with
    | None => ops
    | Some srcIdx =>
        match ops !! srcIdx with
        | None => ops
        | Some moved =>
            let next := base.delete srcIdx ops in
            match find_index (λ o, str_eqb (op_id o) targetId) next with
            | None => ops
            | Some insertIdx =>
                let i := match pos with Before => insertIdx | After => S insertIdx end in
                take i next ++ moved :: drop i next
            end
        end
    end.

Definition condition_used (c : ParamOverrideCondition) : bool :=
  truthy (trim (c_path c)) || truthy (trim (c_value_text c)) || negb (str_eqb (c_mode c) (js "full"))
  || c_invert c || c_pass_missing_key c.

Definition isOperationBlank (op : ParamOverrideOperation) : bool :=
  str_eqb (op_mode op) (js "set") && negb (truthy (trim (op_path op))) && negb (truthy (trim (op_from op)))
  && negb (truthy (trim (op_to op))) && str_eqb (trim (op_value_text op)) []
  && negb (op_keep_origin op) && negb (existsb condition_used (op_conditions op)).

(** ** Header names *)

(** [String(i ?? '').trim()] of the elements, without the empty ones. *)
Fixpoint header_names (l : list value) : exc (list jsstr) :=
  match l with
  | [] => Ok []
  | v :: l =>
      s ← string_of (nullish (VStr []) v);
      names ← header_names l;
      Ok (if truthy (trim s) then trim s :: names else names)
  end.

Definition parsePassHeaderNames (rawValue : value) : exc (list jsstr) :=
  match rawValue with
  | VArr l => header_names l
  | VObj o =>
      match prop (js "headers") o with
      | VArr l => header_names l
      | _ =>
          match prop (js "header") o with
          | VUndef => Ok []
          | v => header_names [v]
          end
      end
  | VStr s => Ok (filterb truthy (map trim (split (js ",") s)))
  | _ => Ok []
  end.

(** ** Writing *)

Definition buildConditionPayload (c : ParamOverrideCondition) : option obj :=
  let path := trim (c_path c) in
  if negb (truthy path) then None
  else
    let payload := [(js "path", VStr path); (js "mode", VStr (str_or (c_mode c) (js "full")));
                    (js "value", parseLooseValue (c_value_text c))] in
    let payload := if c_invert c then obj_set (js "invert") (VBool true) payload else payload in
    Some (if c_pass_missing_key c then obj_set (js "pass_missing_key") (VBool true) payload else payload).

Inductive override_error :=
  | MissingTargetPath (line : nat)
  | MissingSourceField (line : nat)
  | MissingTargetField (line : nat)
  | MissingValue (line : nat)
  | MissingMessage (line : nat)
  | InvalidHeaders (line : nat)
  | InvalidJson
  | NotAnObject
  | TypeError.

(** The message member of a return_error value that is an object; an
    exception while it is read is caught. *)
Definition message_missing (raw : jsstr) : bool :=
  match json_parse raw with
  | Some (VObj o) =>
      match string_or [] (prop (js "message") o) with
      | Ok s => negb (truthy (trim s))
      | _ => false
      end
  | _ => false
  end.

(** The first problem of an operation; the empty value of return_error,
    prune_objects and pass_headers is found by the test of required values. *)
Definition validate_operation (line : nat) (op : ParamOverrideOperation) : option override_error :=
  let mode := str_or (op_mode op) (js "set") in
  let meta := meta_of mode in
  let pathValue := trim (op_path op) in
  let raw := trim (op_value_text op) in
  if m_path meta && negb (truthy pathValue) then Some (MissingTargetPath line)
  else if includes mode FROM_REQUIRED_MODES && negb (truthy (trim (op_from op)))
          && negb (m_pathAlias meta && truthy pathValue) then Some (MissingSourceField line)
  else if includes mode TO_REQUIRED_MODES && negb (truthy (trim (op_to op)))
          && negb (m_pathAlias meta && truthy pathValue) then Some (MissingTargetField line)
  else if includes mode VALUE_REQUIRED_MODES && str_eqb raw [] then Some (MissingValue line)
  else if str_eqb mode (js "return_error") && message_missing raw then Some (MissingMessage line)
  else if str_eqb mode (js "pass_headers") then
    match parsePassHeaderNames (parseLooseValue raw) with
    | Ok [] => Some (InvalidHeaders line)
    | Ok _ => None
    | _ => Some TypeError
    end
  else None.

Fixpoint validate_from (i : nat) (ops : list ParamOverrideOperation) : option override_error :=
  match ops with
  | [] => None
  | op :: ops => match validate_operation (S i) op with Some e => Some e | None => validate_from (S i) ops end
  end.
Definition validateOperations (ops : list ParamOverrideOperation) : option override_error := validate_from 0 ops.

(** [if (b) payload.k = v]. *)
Definition payload_set (b : bool) (k : jsstr) (v : value) (o : obj) : obj := if b then obj_set k v o else o.

Definition operation_payload (op : ParamOverrideOperation) : obj :=
  let mode := str_or (op_mode op) (js "set") in
  let meta := meta_of mode in
  let descriptionValue := trim (op_description op) in
  let pathValue := trim (op_path op) in
  let fromValue := trim (op_from op) in
  let toValue := trim (op_to op) in
  let payload := [(js "mode", VStr mode)] in
  let payload := payload_set (truthy descriptionValue) (js "description") (VStr descriptionValue) payload in
  let payload := payload_set (m_path meta) (js "path") (VStr pathValue) payload in
  let payload := payload_set (m_pathOptional meta && truthy pathValue) (js "path") (VStr pathValue) payload in
  let payload := payload_set (m_value meta) (js "value") (parseLooseValue (op_value_text op)) payload in
  let payload := payload_set (m_keepOrigin meta && op_keep_origin op) (js "keep_origin") (VBool true) payload in
  let payload := payload_set (m_from meta) (js "from") (VStr fromValue) payload in
  let payload := payload_set (negb (m_to meta) && truthy toValue) (js "to") (VStr toValue) payload in
  let payload := payload_set (m_to meta) (js "to") (VStr toValue) payload in
  let payload := payload_set (m_pathAlias meta && negb (val_truthy (prop (js "from") payload)) && truthy pathValue)
                   (js "from") (VStr pathValue) payload in
  let payload := payload_set (m_pathAlias meta && negb (val_truthy (prop (js "to") payload)) && truthy pathValue)
                   (js "to") (VStr pathValue) payload in
  let conditions := omap buildConditionPayload (op_conditions op) in
  let payload := payload_set (0 <? length conditions)%nat (js "conditions") (VArr (map VObj conditions)) payload in
  payload_set (0 <? length conditions)%nat (js "logic")
    (VStr (if str_eqb (op_logic op) (js "AND") then js "AND" else js "OR")) payload.

Definition operations_value (ops : list ParamOverrideOperation) : value :=
  VObj [(js "operations", VArr (map (λ op, VObj (operation_payload op)) ops))].

(** A text, or the error that is thrown. *)
Definition outcome : Type := override_error + jsstr.

Definition print (v : value) : jsstr := from_opt [] (stringify2 v).

Definition buildOperationsJson (ops : list ParamOverrideOperation) (validate : bool) : outcome :=
  let filteredOps := filterb (λ o, negb (isOperationBlank o)) ops in
  match filteredOps with
  | [] => inr []
  | _ =>
      match (if validate then validateOperations filteredOps else None) with
      | Some e => inl e
      | None => inr (print (operations_value filteredOps))
      end
  end.

(** ** Reading *)

Inductive EditMode := VisualEdit | JsonEdit.
Inductive VisualMode := OperationsMode | LegacyMode.

Record EditorState := State {
  editMode : EditMode;
  visualMode : VisualMode;
  legacyValue : jsstr;
  operations : list ParamOverrideOperation;
  jsonText : jsstr;
  jsonError : jsstr;
}.

(** The operations of a payload, or an empty one. *)
Definition read_operations (l : list value) (seed : N) : exc (list ParamOverrideOperation * N) :=
  match l with
  | [] => let '(op, seed) := createDefaultOperation seed in Ok ([op], seed)
  | _ => map_seed normalizeOperation l seed
  end.

Definition parseInitialState (rawValue : jsstr) (seed : N) : exc (EditorState * N) :=
  let trimmed := trim rawValue in
  let '(blank, seed1) := createDefaultOperation seed in
  if negb (truthy trimmed) then Ok (State VisualEdit OperationsMode [] [blank] [] [], seed1)
  else
    match json_parse trimmed with
    | None => Ok (State JsonEdit OperationsMode [] [blank] rawValue (js "Invalid JSON format"), seed1)
    | Some parsed =>
        let pretty := print parsed in
        match parsed with
        | VObj o =>
            match prop (js "operations") o with
            | VArr l =>
                r ← read_operations l seed;
                Ok (State VisualEdit OperationsMode [] r.1 pretty [], r.2)
            | _ => Ok (State VisualEdit LegacyMode pretty [blank] pretty [], seed1)
            end
        | _ => Ok (State JsonEdit OperationsMode [] [blank] pretty [], seed1)
        end
    end.

(** ** Drafts *)

Record SyncTarget := Target { st_type : jsstr; st_key : jsstr }.

Definition parseSyncTargetSpec `{CaseMap} (spec : jsstr) : SyncTarget :=
  let raw := trim spec in
  match index_of (js ":") raw with
  | None => Target (js "json") raw
  | Some idx =>
      let prefix := to_lower (trim (take idx raw)) in
      let key := trim (drop (S idx) raw) in
      if str_eqb prefix (js "header") then Target (js "header") key else Target (js "json") key
  end.

Definition buildSyncTargetSpec (type key : jsstr) : jsstr :=
  let normalizedType := if str_eqb type (js "header") then js "header" else js "json" in
  let normalizedKey := trim key in
  if negb (truthy normalizedKey) then [] else normalizedType ++ js ":" ++ normalizedKey.

(** [Number(v)]. *)
Definition number_of (v : value) : exc num :=
  match v with
  | VUndef => Ok nNaN
  | VNull => Ok (of_Z 0)
  | VBool b => Ok (if b then of_Z 1 else of_Z 0)
  | VNum x => Ok x
  | _ => s ← string_of v; Ok (str_to_num s)
  end.

Record ReturnErrorDraft := ErrorDraft {
  rd_message : jsstr;
  rd_statusCode : num;
  rd_code : jsstr;
  rd_type : jsstr;
  rd_skipRetry : bool;
  rd_simpleMode : bool;
}.

Definition status_or_400 (x : num) : num :=
  if is_integer x && nleb (of_Z 100) x && nleb x (of_Z 599) then x else of_Z 400.

(** The draft of an object; an exception makes it a plain text. *)
Definition read_error (parsed : obj) : exc ReturnErrorDraft :=
  statusValue ← number_of (match prop (js "status_code") parsed with
                           | VUndef => prop (js "status") parsed
                           | v => v
                           end);
  message ← string_or [] (if val_truthy (prop (js "message") parsed) then prop (js "message") parsed
                          else prop (js "msg") parsed);
  code ← string_or [] (prop (js "code") parsed);
  type ← string_or [] (prop (js "type") parsed);
  Ok (ErrorDraft (trim message) (status_or_400 statusValue) (trim code) (trim type)
        (match prop (js "skip_retry") parsed with VBool false => false | _ => true end) false).

Definition parseReturnErrorDraft (valueText : jsstr) : ReturnErrorDraft :=
  let raw := trim valueText in
  let plain := ErrorDraft raw (of_Z 400) [] [] true true in
  if negb (truthy raw) then ErrorDraft [] (of_Z 400) [] [] true true
  else
    match json_parse raw with
    | Some (VObj parsed) => match read_error parsed with Ok d => d | _ => plain end
    | _ => plain
    end.

Definition buildReturnErrorValueText (draft : ReturnErrorDraft) : jsstr :=
  let message := trim (rd_message draft) in
  if rd_simpleMode draft then message
  else
    let code := trim (rd_code draft) in
    let type := trim (rd_type draft) in
    let payload := [(js "message", VStr message);
                    (js "status_code", VNum (status_or_400 (rd_statusCode draft)))] in
    let payload := payload_set (truthy code) (js "code") (VStr code) payload in
    let payload := payload_set (truthy type) (js "type") (VStr type) payload in
    let payload := payload_set (negb (rd_skipRetry draft)) (js "skip_retry") (VBool false) payload in
    from_opt [] (stringify (VObj payload)).

(** The rules of prune_objects have the members of conditions. *)
Definition PruneRule : Type := ParamOverrideCondition.
Definition normalizePruneRule : value → N → exc (PruneRule * N) := normalizeOverrideCondition.

Record PruneObjectsDraft := PruneDraft {
  pd_simpleMode : bool;
  pd_typeText : jsstr;
  pd_logic : jsstr;
  pd_recursive : bool;
  pd_rules : list PruneRule;
}.

Definition full_rule (kv : jsstr * value) : value :=
  VObj [(js "path", VStr kv.1); (js "mode", VStr (js "full")); (js "value", kv.2)].

(** The values that become rules: the members of [where], then the
    conditions. *)
Definition where_rules (parsed : obj) : list value :=
  match prop (js "where") parsed with VObj o => map full_rule o | _ => [] end.
Definition condition_rules (parsed : obj) : list value :=
  match prop (js "conditions") parsed with
  | VArr l => filterb (λ v, match v with VObj _ | VArr _ => true | _ => false end) l
  | VObj o => map full_rule o
  | _ => []
  end.

Definition is_undefined (v : value) : bool := match v with VUndef => true | _ => false end.

(** The rules of an object, made before anything can throw. *)
Definition read_rules (parsed : obj) (seed : N) : list PruneRule * N :=
  match map_seed normalizePruneRule (where_rules parsed ++ condition_rules parsed) seed with
  | Ok r => r
  | _ => ([], seed)
  end.

Definition read_prune (parsed : obj) (rules : list PruneRule) : exc PruneObjectsDraft :=
  typeText ← (if is_undefined (prop (js "type") parsed) then Ok []
              else s ← string_of (prop (js "type") parsed); Ok (trim s));
  logic ← string_or (js "AND") (prop (js "logic") parsed);
  Ok (PruneDraft
        (is_undefined (prop (js "logic") parsed) && is_undefined (prop (js "recursive") parsed)
         && is_undefined (prop (js "where") parsed) && is_undefined (prop (js "conditions") parsed))
        typeText (if str_eqb (to_upper logic) (js "OR") then js "OR" else js "AND")
        (match prop (js "recursive") parsed with VBool false => false | _ => true end) rules).

Definition simple_prune (typeText : jsstr) : PruneObjectsDraft := PruneDraft true typeText (js "AND") true [].

Definition parsePruneObjectsDraft (valueText : jsstr) (seed : N) : PruneObjectsDraft * N :=
  let raw := trim valueText in
  if negb (truthy raw) then (simple_prune [], seed)
  else
    match json_parse raw with
    | None => (simple_prune raw, seed)
    | Some (VStr s) => (simple_prune (trim s), seed)
    | Some (VObj parsed) =>
        let '(rules, seed1) := read_rules parsed seed in
        (match read_prune parsed rules with Ok d => d | _ => simple_prune raw end, seed1)
    | Some v =>
        (match string_of (nullish (VStr []) v) with Ok s => simple_prune (trim s) | _ => simple_prune raw end, seed)
    end.

Definition prune_condition (rule : PruneRule) : obj :=
  let valueRaw := trim (c_value_text rule) in
  let payload := [(js "path", VStr (trim (c_path rule)));
                  (js "mode", VStr (if includes (c_mode rule) CONDITION_MODE_VALUES then c_mode rule else js "full"))] in
  let payload := payload_set (negb (str_eqb valueRaw [])) (js "value") (parseLooseValue valueRaw) payload in
  let payload := payload_set (c_invert rule) (js "invert") (VBool true) payload in
  payload_set (c_pass_missing_key rule) (js "pass_missing_key") (VBool true) payload.

Definition buildPruneObjectsValueText (draft : PruneObjectsDraft) : jsstr :=
  let typeText := trim (pd_typeText draft) in
  if pd_simpleMode draft then typeText
  else
    let conditions := map prune_condition (filterb (λ r, truthy (trim (c_path r))) (pd_rules draft)) in
    let payload : obj := payload_set (truthy typeText) (js "type") (VStr typeText) [] in
    let payload := payload_set (str_eqb (to_upper (str_or (pd_logic draft) (js "AND"))) (js "OR"))
                     (js "logic") (VStr (js "OR")) payload in
    let payload := payload_set (negb (pd_recursive draft)) (js "recursive") (VBool false) payload in
    let payload := payload_set (0 <? length conditions)%nat (js "conditions") (VArr (map VObj conditions)) payload in
    if negb (val_truthy (prop (js "type") payload)) && negb (val_truthy (prop (js "conditions") payload))
    then from_opt [] (stringify (VObj [(js "logic", VStr (js "AND"))]))
    else from_opt [] (stringify (VObj payload)).

End Overrides.
