(* ===== verification/ParamOverrideEditor.v ===== *)
(** * The editor of parameter overrides

    Model of the component ParamOverrideEditorDialog of
    src/web/default/src/features/channels/components/dialogs/param-override-editor-dialog.tsx:
    its state, the templates, and its handlers.  The search text and the
    expanded conditions only concern what is displayed and are left out.  An
    updater that is passed to a setter runs at once. *)
From S2P Require Import Prelude JsString JsNumber JsValue JsonFacts ParamOverride.

Open Scope N_scope.

(** ** Templates *)

Definition LEGACY_TEMPLATE : value :=
  VObj [(js "temperature", VNum (of_Z 0)); (js "max_tokens", VNum (of_Z 1000))].

Definition condition_value (path mode val : jsstr) : value :=
  VObj [(js "path", VStr path); (js "mode", VStr mode); (js "value", VStr val)].

Definition OPERATION_TEMPLATE : value :=
  VObj [(js "operations", VArr [
    VObj [(js "description", VStr (js "Set default temperature for openai/* models."));
          (js "path", VStr (js "temperature")); (js "mode", VStr (js "set"));
          (js "value", VNum (str_to_num (js "0.7")));
          (js "conditions", VArr [condition_value (js "model") (js "prefix") (js "openai/")]);
          (js "logic", VStr (js "AND"))]])].

Definition HEADER_PASSTHROUGH_TEMPLATE : value :=
  VObj [(js "operations", VArr [
    VObj [(js "description", VStr (js "Pass through X-Request-Id header to upstream."));
          (js "mode", VStr (js "pass_headers")); (js "value", VArr [VStr (js "X-Request-Id")]);
          (js "keep_origin", VBool true)]])].

Definition GEMINI_IMAGE_4K_TEMPLATE : value :=
  VObj [(js "operations", VArr [
    VObj [(js "description", VStr (js "Set imageSize to 4K when model contains gemini/image and ends with 4k."));
          (js "mode", VStr (js "set")); (js "path", VStr (js "generationConfig.imageConfig.imageSize"));
          (js "value", VStr (js "4K"));
          (js "conditions", VArr [condition_value (js "original_model") (js "contains") (js "gemini");
                                  condition_value (js "original_model") (js "contains") (js "image");
                                  condition_value (js "original_model") (js "suffix") (js "4k")]);
          (js "logic", VStr (js "AND"))]])].

Definition CODEX_CLI_HEADER_PASSTHROUGH_HEADERS : list jsstr :=
  [js "Originator"; js "Session_id"; js "User-Agent"; js "X-Codex-Beta-Features"; js "X-Codex-Turn-Metadata"].

Definition CLAUDE_CLI_HEADER_PASSTHROUGH_HEADERS : list jsstr :=
  [js "X-Stainless-Arch"; js "X-Stainless-Lang"; js "X-Stainless-Os"; js "X-Stainless-Package-Version";
   js "X-Stainless-Retry-Count"; js "X-Stainless-Runtime"; js "X-Stainless-Runtime-Version";
   js "X-Stainless-Timeout"; js "User-Agent"; js "X-App"; js "Anthropic-Beta";
   js "Anthropic-Dangerous-Direct-Browser-Access"; js "Anthropic-Version"].

Definition buildPassHeadersTemplate (headers : list jsstr) : value :=
  VObj [(js "operations", VArr [
    VObj [(js "mode", VStr (js "pass_headers")); (js "value", VArr (map VStr headers));
          (js "keep_origin", VBool true)]])].

Definition CODEX_CLI_HEADER_PASSTHROUGH_TEMPLATE : value :=
  buildPassHeadersTemplate CODEX_CLI_HEADER_PASSTHROUGH_HEADERS.
Definition CLAUDE_CLI_HEADER_PASSTHROUGH_TEMPLATE : value :=
  buildPassHeadersTemplate CLAUDE_CLI_HEADER_PASSTHROUGH_HEADERS.

Definition AWS_BEDROCK_ANTHROPIC_COMPAT_TEMPLATE : value :=
  VObj [(js "operations", VArr [
    VObj [(js "description", VStr (js "Normalize anthropic-beta header tokens for Bedrock compatibility."));
          (js "mode", VStr (js "set_header")); (js "path", VStr (js "anthropic-beta"));
          (js "value", VObj [
             (js "advanced-tool-use-2025-11-20", VStr (js "tool-search-tool-2025-10-19"));
             (js "bash_20241022", VNull);
             (js "bash_20250124", VNull);
             (js "code-execution-2025-08-25", VNull);
             (js "compact-2026-01-12", VStr (js "compact-2026-01-12"));
             (js "computer-use-2025-01-24", VStr (js "computer-use-2025-01-24"));
             (js "computer-use-2025-11-24", VStr (js "computer-use-2025-11-24"));
             (js "context-1m-2025-08-07", VStr (js "context-1m-2025-08-07"));
             (js "context-management-2025-06-27", VStr (js "context-management-2025-06-27"));
             (js "effort-2025-11-24", VNull);
             (js "fast-mode-2026-02-01", VNull);
             (js "files-api-2025-04-14", VNull);
             (js "fine-grained-tool-streaming-2025-05-14", VNull);
             (js "interleaved-thinking-2025-05-14", VStr (js "interleaved-thinking-2025-05-14"));
             (js "mcp-client-2025-11-20", VNull);
             (js "mcp-client-2025-04-04", VNull);
             (js "mcp-servers-2025-12-04", VNull);
             (js "output-128k-2025-02-19", VNull);
             (js "structured-output-2024-03-01", VNull);
             (js "prompt-caching-scope-2026-01-05", VNull);
             (js "skills-2025-10-02", VNull);
             (js "structured-outputs-2025-11-13", VNull);
             (js "text_editor_20241022", VNull);
             (js "text_editor_20250124", VNull);
             (js "token-efficient-tools-2025-02-19", VNull);
             (js "tool-search-tool-2025-10-19", VStr (js "tool-search-tool-2025-10-19"));
             (js "web-fetch-2025-09-10", VNull);
             (js "web-search-2025-03-05", VNull);
             (js "oauth-2025-04-20", VNull)])];
    VObj [(js "description", VStr (js "Remove all tools[*].custom.input_examples before upstream relay."));
          (js "mode", VStr (js "delete")); (js "path", VStr (js "tools.*.custom.input_examples"))]])].

Inductive TemplateKind := OperationsTemplate | LegacyTemplate.
Record TemplatePresetConfig := Template { tp_label : jsstr; tp_kind : TemplateKind; tp_payload : value }.

Definition TEMPLATE_PRESET_CONFIG : list (jsstr * TemplatePresetConfig) := [
  (js "operations_default", Template (js "New Format Template") OperationsTemplate OPERATION_TEMPLATE);
  (js "legacy_default", Template (js "Legacy Format Template") LegacyTemplate LEGACY_TEMPLATE);
  (js "pass_headers_auth",
   Template (js "Header Passthrough (X-Request-Id)") OperationsTemplate HEADER_PASSTHROUGH_TEMPLATE);
  (js "gemini_image_4k", Template (js "Gemini Image 4K") OperationsTemplate GEMINI_IMAGE_4K_TEMPLATE);
  (js "claude_cli_headers_passthrough",
   Template (js "Claude CLI Header Passthrough") OperationsTemplate CLAUDE_CLI_HEADER_PASSTHROUGH_TEMPLATE);
  (js "codex_cli_headers_passthrough",
   Template (js "Codex CLI Header Passthrough") OperationsTemplate CODEX_CLI_HEADER_PASSTHROUGH_TEMPLATE);
  (js "aws_bedrock_anthropic_beta_override",
   Template (js "AWS Bedrock Claude Compat") OperationsTemplate AWS_BEDROCK_ANTHROPIC_COMPAT_TEMPLATE)].

(** ** State *)

Record dialog := Dialog {
  d_state : EditorState;
  d_selected : jsstr;
  d_preset : jsstr;
  d_dragged : jsstr;
  d_dragOver : jsstr;
  d_dragPosition : position;
  d_seed : N;
}.

Section Handlers.
Context `{UpperMap}.
Context (clock : N → N).

Definition first_id (ops : list ParamOverrideOperation) : jsstr :=
  match ops with op :: _ => op_id op | [] => [] end.

(** The effect that runs when the dialog opens on a text. *)
Definition open_dialog (value : jsstr) (seed : N) : exc dialog :=
  r ← parseInitialState clock value seed;
  Ok (Dialog r.1 (first_id (operations r.1))
        (match visualMode r.1 with LegacyMode => js "legacy_default" | OperationsMode => js "operations_default" end)
        [] [] Before r.2).

(** The effect that keeps the selection valid. *)
Definition keep_selected (d : dialog) : dialog :=
  let ops := operations (d_state d) in
  let sel :=
    if existsb (λ o, str_eqb (op_id o) (d_selected d)) ops then d_selected d else first_id ops in
  Dialog (d_state d) sel (d_preset d) (d_dragged d) (d_dragOver d) (d_dragPosition d) (d_seed d).

Definition with_operations (ops : list ParamOverrideOperation) (s : EditorState) : EditorState :=
  State (editMode s) (visualMode s) (legacyValue s) ops (jsonText s) (jsonError s).

Definition set_operations (f : list ParamOverrideOperation → list ParamOverrideOperation) (d : dialog) : dialog :=
  Dialog (with_operations (f (operations (d_state d))) (d_state d)) (d_selected d) (d_preset d)
    (d_dragged d) (d_dragOver d) (d_dragPosition d) (d_seed d).
Definition with_seed (n : N) (d : dialog) : dialog :=
  Dialog (d_state d) (d_selected d) (d_preset d) (d_dragged d) (d_dragOver d) (d_dragPosition d) n.
Definition select (id : jsstr) (d : dialog) : dialog :=
  Dialog (d_state d) id (d_preset d) (d_dragged d) (d_dragOver d) (d_dragPosition d) (d_seed d).

(** [prev.map(o => o.id === id ? f(o) : o)]. *)
Definition at_id (id : jsstr) (f : ParamOverrideOperation → ParamOverrideOperation)
    (ops : list ParamOverrideOperation) : list ParamOverrideOperation :=
  map (λ o, if str_eqb (op_id o) id then f o else o) ops.

(** The patches of an operation that the form makes. *)
Inductive op_patch :=
  | PatchDescription (s : jsstr)
  | PatchPath (s : jsstr)
  | PatchMode (s : jsstr)
  | PatchFrom (s : jsstr)
  | PatchTo (s : jsstr)
  | PatchValue (s : jsstr)
  | PatchKeep (b : bool)
  | PatchLogic (s : jsstr).

Definition apply_patch (p : op_patch) (o : ParamOverrideOperation) : ParamOverrideOperation :=
  let '(Operation id des path mode from to val keep logic cs) := o in
  match p with
  | PatchDescription s => Operation id s path mode from to val keep logic cs
  | PatchPath s => Operation id des s mode from to val keep logic cs
  | PatchMode s => Operation id des path s from to val keep logic cs
  | PatchFrom s => Operation id des path mode s to val keep logic cs
  | PatchTo s => Operation id des path mode from s val keep logic cs
  | PatchValue s => Operation id des path mode from to s keep logic cs
  | PatchKeep b => Operation id des path mode from to val b logic cs
  | PatchLogic s => Operation id des path mode from to val keep s cs
  end.

Definition updateOperation (id : jsstr) (p : op_patch) (d : dialog) : dialog :=
  set_operations (at_id id (apply_patch p)) d.

Definition addOperation (d : dialog) : dialog :=
  let '(created, seed) := createDefaultOperation clock (d_seed d) in
  select (op_id created) (with_seed seed (set_operations (λ prev, prev ++ [created]) d)).

Definition condition_copy (c : ParamOverrideCondition) : value :=
  VObj [(js "path", VStr (c_path c)); (js "mode", VStr (c_mode c)); (js "value", parseLooseValue (c_value_text c));
        (js "invert", VBool (c_invert c)); (js "pass_missing_key", VBool (c_pass_missing_key c))].
Definition operation_copy (o : ParamOverrideOperation) : value :=
  VObj [(js "description", VStr (op_description o)); (js "path", VStr (op_path o)); (js "mode", VStr (op_mode o));
        (js "value", parseLooseValue (op_value_text o)); (js "keep_origin", VBool (op_keep_origin o));
        (js "from", VStr (op_from o)); (js "to", VStr (op_to o)); (js "logic", VStr (op_logic o));
        (js "conditions", VArr (map condition_copy (op_conditions o)))].

Definition duplicateOperation (id : jsstr) (d : dialog) : exc dialog :=
  let prev := operations (d_state d) in
  match find_index (λ o, str_eqb (op_id o) id) prev with
  | None => Ok d
  | Some idx =>
      match prev !! idx with
      | None => Ok d
      | Some source =>
          r ← normalizeOperation clock (operation_copy source) (d_seed d);
          Ok (select (op_id r.1) (with_seed r.2
                (set_operations (λ prev, take (S idx) prev ++ r.1 :: drop (S idx) prev) d)))
      end
  end.

Definition removeOperation (id : jsstr) (d : dialog) : dialog :=
  if (length (operations (d_state d)) <=? 1)%nat then
    let '(created, seed) := createDefaultOperation clock (d_seed d) in
    with_seed seed (set_operations (λ _, [created]) d)
  else set_operations (filterb (λ o, negb (str_eqb (op_id o) id))) d.

(** *** Conditions *)

Definition map_conditions (f : list ParamOverrideCondition → list ParamOverrideCondition)
    (o : ParamOverrideOperation) : ParamOverrideOperation :=
  let '(Operation id des path mode from to val keep logic cs) := o in
  Operation id des path mode from to val keep logic (f cs).

Definition addCondition (id : jsstr) (d : dialog) : dialog :=
  let '(created, seed) := createDefaultCondition clock (d_seed d) in
  with_seed seed (set_operations (at_id id (map_conditions (λ cs, cs ++ [created]))) d).

Inductive condition_patch :=
  | PatchCPath (s : jsstr)
  | PatchCMode (s : jsstr)
  | PatchCValue (s : jsstr)
  | PatchInvert (b : bool)
  | PatchPassMissing (b : bool).

Definition patch_condition (p : condition_patch) (c : ParamOverrideCondition) : ParamOverrideCondition :=
  let '(Condition id path mode val inv pass) := c in
  match p with
  | PatchCPath s => Condition id s mode val inv pass
  | PatchCMode s => Condition id path s val inv pass
  | PatchCValue s => Condition id path mode s inv pass
  | PatchInvert b => Condition id path mode val b pass
  | PatchPassMissing b => Condition id path mode val inv b
  end.

(** [conditions.map(c => c.id === id ? {...c, ...patch} : c)]. *)
Definition patch_at (cid : jsstr) (p : condition_patch) (cs : list ParamOverrideCondition) : list ParamOverrideCondition :=
  map (λ c, if str_eqb (c_id c) cid then patch_condition p c else c) cs.
(** [conditions.filter(c => c.id !== id)]. *)
Definition remove_at (cid : jsstr) (cs : list ParamOverrideCondition) : list ParamOverrideCondition :=
  filterb (λ c, negb (str_eqb (c_id c) cid)) cs.

Definition updateCondition (id cid : jsstr) (p : condition_patch) (d : dialog) : dialog :=
  set_operations (at_id id (map_conditions (patch_at cid p))) d.

Definition removeCondition (id cid : jsstr) (d : dialog) : dialog :=
  set_operations (at_id id (map_conditions (remove_at cid))) d.

(** *** Drafts *)

Definition with_value_text (s : jsstr) (o : ParamOverrideOperation) : ParamOverrideOperation :=
  apply_patch (PatchValue s) o.

(** [f] merges the patch into the draft. *)
Definition updateReturnErrorDraft (id : jsstr) (f : ReturnErrorDraft → ReturnErrorDraft) (d : dialog) : dialog :=
  set_operations (at_id id (λ o,
    with_value_text (buildReturnErrorValueText (f (parseReturnErrorDraft (op_value_text o)))) o)) d.

(** The new text of a value; the draft is read again, with new identifiers. *)
Definition edit_prune (f : PruneObjectsDraft → N → PruneObjectsDraft * N) (text : jsstr) (seed : N) : jsstr * N :=
  let '(draft, seed1) := parsePruneObjectsDraft clock text seed in
  let '(next, seed2) := f draft seed1 in
  (buildPruneObjectsValueText next, seed2).

Fixpoint prune_at (id : jsstr) (f : PruneObjectsDraft → N → PruneObjectsDraft * N)
    (ops : list ParamOverrideOperation) (seed : N) : list ParamOverrideOperation * N :=
  match ops with
  | [] => ([], seed)
  | o :: ops =>
      let '(o1, seed1) :=
        if str_eqb (op_id o) id then
          let '(text, seed1) := edit_prune f (op_value_text o) seed in (with_value_text text o, seed1)
        else (o, seed) in
      let '(rest, seed2) := prune_at id f ops seed1 in
      (o1 :: rest, seed2)
  end.

Definition updatePruneObjectsDraft (id : jsstr) (f : PruneObjectsDraft → N → PruneObjectsDraft * N) (d : dialog)
    : dialog :=
  let '(ops, seed) := prune_at id f (operations (d_state d)) (d_seed d) in
  with_seed seed (set_operations (λ _, ops) d).

Definition with_rules (rules : list PruneRule) (p : PruneObjectsDraft) : PruneObjectsDraft :=
  PruneDraft (pd_simpleMode p) (pd_typeText p) (pd_logic p) (pd_recursive p) rules.

Definition add_rule (draft : PruneObjectsDraft) (seed : N) : PruneObjectsDraft * N :=
  let '(rule, seed1) := createDefaultCondition clock seed in
  (PruneDraft false (pd_typeText draft) (pd_logic draft) (pd_recursive draft) (pd_rules draft ++ [rule]), seed1).
Definition update_rule (rid : jsstr) (p : condition_patch) (draft : PruneObjectsDraft) (seed : N)
    : PruneObjectsDraft * N :=
  (with_rules (patch_at rid p (pd_rules draft)) draft, seed).
Definition remove_rule (rid : jsstr) (draft : PruneObjectsDraft) (seed : N) : PruneObjectsDraft * N :=
  (with_rules (remove_at rid (pd_rules draft)) draft, seed).

Definition addPruneRule (id : jsstr) (d : dialog) : dialog := updatePruneObjectsDraft id add_rule d.
Definition updatePruneRule (id rid : jsstr) (p : condition_patch) (d : dialog) : dialog :=
  updatePruneObjectsDraft id (update_rule rid p) d.
Definition removePruneRule (id rid : jsstr) (d : dialog) : dialog :=
  updatePruneObjectsDraft id (remove_rule rid) d.

(** *** Drag and drop *)

Definition resetDragState (d : dialog) : dialog :=
  Dialog (d_state d) (d_selected d) (d_preset d) [] [] Before (d_seed d).

Definition handleDragStart (id : jsstr) (d : dialog) : dialog :=
  Dialog (d_state d) id (d_preset d) id (d_dragOver d) (d_dragPosition d) (d_seed d).

(** [pos]: the half of the row that the pointer is in. *)
Definition handleDragOver (id : jsstr) (pos : position) (d : dialog) : dialog :=
  if negb (truthy (d_dragged d)) || str_eqb (d_dragged d) id then d
  else Dialog (d_state d) (d_selected d) (d_preset d) (d_dragged d) id pos (d_seed d).

(** [data]: the text of the data transfer. *)
Definition handleDrop (id data : jsstr) (d : dialog) : dialog :=
  let sourceId := str_or (d_dragged d) data in
  let pos := if str_eqb (d_dragOver d) id then d_dragPosition d else Before in
  resetDragState
    (if truthy sourceId && truthy id && negb (str_eqb sourceId id)
     then select sourceId (set_operations (λ prev, reorderOperations prev sourceId id pos) d)
     else d).

(** ** Modes and templates *)

Definition buildVisualJson (s : EditorState) : outcome :=
  match visualMode s with
  | LegacyMode =>
      let trimmed := trim (legacyValue s) in
      if negb (truthy trimmed) then inr []
      else
        match json_parse trimmed with
        | None => inl InvalidJson
        | Some (VObj o) => inr (print (VObj o))
        | Some _ => inl NotAnObject
        end
  | OperationsMode => buildOperationsJson (operations s) true
  end.

Definition set_state (s : EditorState) (d : dialog) : dialog :=
  Dialog s (d_selected d) (d_preset d) (d_dragged d) (d_dragOver d) (d_dragPosition d) (d_seed d).

(** [message]: the text of an error, which is not empty. *)
Definition switchToJsonMode (message : override_error → jsstr) (d : dialog) : dialog :=
  let s := d_state d in
  match editMode s with
  | JsonEdit => d
  | VisualEdit =>
      let '(text, err) :=
        match buildVisualJson s with
        | inr text => (text, [])
        | inl e =>
            (match visualMode s with
             | LegacyMode => legacyValue s
             | OperationsMode => match buildOperationsJson (operations s) false with inr text => text | inl _ => [] end
             end, message e)
        end in
      set_state (State JsonEdit (visualMode s) (legacyValue s) (operations s) text err) d
  end.

(** The state after reading operations, with the first one selected. *)
Definition show_operations (ops : list ParamOverrideOperation) (seed : N) (d : dialog) : dialog :=
  Dialog (State VisualEdit OperationsMode [] ops (jsonText (d_state d)) []) (first_id ops) (d_preset d)
    (d_dragged d) (d_dragOver d) (d_dragPosition d) seed.
Definition with_preset (p : jsstr) (d : dialog) : dialog :=
  Dialog (d_state d) (d_selected d) p (d_dragged d) (d_dragOver d) (d_dragPosition d) (d_seed d).

Definition switchToVisualMode (d : dialog) : exc dialog :=
  let s := d_state d in
  match editMode s with
  | VisualEdit => Ok d
  | JsonEdit =>
      let trimmed := trim (jsonText s) in
      let '(fallback, seed1) := createDefaultOperation clock (d_seed d) in
      if negb (truthy trimmed) then Ok (show_operations [fallback] seed1 d)
      else
        match json_parse trimmed with
        | Some (VObj o) =>
            match prop (js "operations") o with
            | VArr l =>
                r ← read_operations clock l (d_seed d);
                Ok (with_preset (js "operations_default") (show_operations r.1 r.2 d))
            | _ =>
                Ok (Dialog (State VisualEdit LegacyMode (print (VObj o)) [fallback] (jsonText s) [])
                      (op_id fallback) (js "legacy_default") (d_dragged d) (d_dragOver d) (d_dragPosition d) seed1)
            end
        | _ => Ok d
        end
  end.

Inductive fill_mode := Fill | Append.

(** The state of a legacy text. *)
Definition show_legacy (text : jsstr) (d : dialog) : dialog :=
  let '(fallback, seed) := createDefaultOperation clock (d_seed d) in
  Dialog (State VisualEdit LegacyMode text [fallback] text []) (d_selected d) (d_preset d)
    (d_dragged d) (d_dragOver d) (d_dragPosition d) seed.

Definition preset_of (key : jsstr) : TemplatePresetConfig :=
  from_opt (Template (js "New Format Template") OperationsTemplate OPERATION_TEMPLATE)
    (snd <$> find_first (λ e, str_eqb e.1 key) TEMPLATE_PRESET_CONFIG).

Definition members_of (v : value) : obj := match v with VObj o => o | _ => [] end.
Definition template_operations (payload : value) : list value :=
  match prop (js "operations") (members_of payload) with VArr l => l | _ => [] end.

(** The members that [...v] adds: arrays and strings have theirs by index. *)
Definition index_members (l : list value) : obj := imap (λ i v, (dec (N.of_nat i), v)) l.
Definition spread_members (v : value) : obj :=
  match v with
  | VObj o => o
  | VArr l => index_members l
  | VStr s => index_members (map (λ c, VStr [c]) s)
  | _ => []
  end.

Definition fill_legacy (mode : fill_mode) (payload : value) (d : dialog) : dialog :=
  let s := d_state d in
  match mode, visualMode s with
  | Append, LegacyMode =>
      let trimmed := trim (legacyValue s) in
      if negb (truthy trimmed) then show_legacy (print payload) d
      else
        match json_parse trimmed with
        | None => d
        | Some current => show_legacy (print (VObj (spread (members_of payload) (spread_members current)))) d
        end
  | _, _ => show_legacy (print payload) d
  end.

Definition fill_operations (mode : fill_mode) (payload : value) (d : dialog) : exc dialog :=
  let s := d_state d in
  r ← map_seed (normalizeOperation clock) (template_operations payload) (d_seed d);
  let '(appended, seed) := r in
  match mode with
  | Append =>
      let existing :=
        match visualMode s with
        | OperationsMode => filterb (λ o, negb (isOperationBlank o)) (operations s)
        | LegacyMode => []
        end in
      let nextOps := existing ++ appended in
      Ok (Dialog (State VisualEdit OperationsMode [] nextOps [] []) (first_id nextOps) (d_preset d)
            (d_dragged d) (d_dragOver d) (d_dragPosition d) seed)
  | Fill =>
      let '(finalOps, seed) :=
        match appended with
        | [] => let '(op, seed) := createDefaultOperation clock seed in ([op], seed)
        | _ => (appended, seed)
        end in
      Ok (Dialog (State VisualEdit OperationsMode (legacyValue s) finalOps
                    (print (VObj [(js "operations", VArr (template_operations payload))])) [])
            (first_id finalOps) (d_preset d) (d_dragged d) (d_dragOver d) (d_dragPosition d) seed)
  end.

Definition fillTemplate (mode : fill_mode) (d : dialog) : exc dialog :=
  let preset := preset_of (d_preset d) in
  match tp_kind preset with
  | LegacyTemplate => Ok (fill_legacy mode (tp_payload preset) d)
  | OperationsTemplate => fill_operations mode (tp_payload preset) d
  end.

Definition resetEditorState (d : dialog) : dialog :=
  let '(fallback, seed) := createDefaultOperation clock (d_seed d) in
  Dialog (State VisualEdit OperationsMode [] [fallback] [] []) (op_id fallback) (js "operations_default")
    (d_dragged d) (d_dragOver d) (d_dragPosition d) seed.

(** [message]: the translated text of the error. *)
Definition handleJsonChange (message nextValue : jsstr) (d : dialog) : dialog :=
  let s := d_state d in
  let trimmed := trim nextValue in
  let err := if negb (truthy trimmed) then [] else if verifyJSON trimmed then [] else message in
  set_state (State (editMode s) (visualMode s) (legacyValue s) (operations s) nextValue err) d.

Definition formatJson (d : dialog) : dialog :=
  let s := d_state d in
  let trimmed := trim (jsonText s) in
  match json_parse trimmed with
  | Some v => set_state (State (editMode s) (visualMode s) (legacyValue s) (operations s) (print v) []) d
  | None => d
  end.

Definition handleLegacyChange (text : jsstr) (d : dialog) : dialog :=
  let s := d_state d in
  set_state (State (editMode s) (visualMode s) text (operations s) (jsonText s) (jsonError s)) d.

(** The text that is saved, or the error that is shown. *)
Definition handleSave (s : EditorState) : outcome :=
  match editMode s with
  | JsonEdit =>
      let trimmed := trim (jsonText s) in
      if negb (truthy trimmed) then inr []
      else match json_parse trimmed with Some v => inr (print v) | None => inl InvalidJson end
  | VisualEdit => buildVisualJson s
  end.

(** ** Events *)

Inductive editor_event :=
  | Open (text : jsstr)
  | Update (id : jsstr) (p : op_patch)
  | Add
  | Duplicate (id : jsstr)
  | Remove (id : jsstr)
  | AddCond (id : jsstr)
  | UpdateCond (id cid : jsstr) (p : condition_patch)
  | RemoveCond (id cid : jsstr)
  | EditError (id : jsstr) (f : ReturnErrorDraft → ReturnErrorDraft)
  | EditPrune (id : jsstr) (f : PruneObjectsDraft → PruneObjectsDraft)
  | AddRule (id : jsstr)
  | UpdateRule (id rid : jsstr) (p : condition_patch)
  | RemoveRule (id rid : jsstr)
  | DragStart (id : jsstr)
  | DragOver (id : jsstr) (pos : position)
  | Drop (id data : jsstr)
  | ToJson
  | ToVisual
  | FillTemplate (mode : fill_mode)
  | ChoosePreset (key : jsstr)
  | ResetEditor
  | ChangeJson (text : jsstr)
  | FormatJson
  | ChangeLegacy (text : jsstr).

Context (message : override_error → jsstr) (json_message : jsstr).

Definition dispatch (e : editor_event) (d : dialog) : exc dialog :=
  match e with
  | Open text => open_dialog text (d_seed d)
  | Update id p => Ok (updateOperation id p d)
  | Add => Ok (addOperation d)
  | Duplicate id => duplicateOperation id d
  | Remove id => Ok (removeOperation id d)
  | AddCond id => Ok (addCondition id d)
  | UpdateCond id cid p => Ok (updateCondition id cid p d)
  | RemoveCond id cid => Ok (removeCondition id cid d)
  | EditError id f => Ok (updateReturnErrorDraft id f d)
  | EditPrune id f => Ok (updatePruneObjectsDraft id (λ draft seed, (f draft, seed)) d)
  | AddRule id => Ok (addPruneRule id d)
  | UpdateRule id rid p => Ok (updatePruneRule id rid p d)
  | RemoveRule id rid => Ok (removePruneRule id rid d)
  | DragStart id => Ok (handleDragStart id d)
  | DragOver id pos => Ok (handleDragOver id pos d)
  | Drop id data => Ok (handleDrop id data d)
  | ToJson => Ok (switchToJsonMode message d)
  | ToVisual => switchToVisualMode d
  | FillTemplate mode => fillTemplate mode d
  | ChoosePreset key => Ok (with_preset (str_or key (js "operations_default")) d)
  | ResetEditor => Ok (resetEditorState d)
  | ChangeJson text => Ok (handleJsonChange json_message text d)
  | FormatJson => Ok (formatJson d)
  | ChangeLegacy text => Ok (handleLegacyChange text d)
  end.

(** An event, and the effect on the selection; a handler that throws sets
    nothing. *)
Definition editor_handle (d : dialog) (e : editor_event) : dialog :=
  match dispatch e d with Ok d' => keep_selected d' | _ => d end.

End Handlers.
