(* ===== verification/ParamOverrideFacts.v ===== *)
(** * Parameter overrides: theorems

    The identifiers of operations and conditions, the invariant of the editor,
    what a checked text contains, and what happens to a saved text that is
    opened again. *)
From S2P Require Import Prelude JsString JsNumber JsValue JsonFacts BillingRuleFacts ParamOverride ParamOverrideEditor.

Open Scope N_scope.

(** ** Identifiers *)

Lemma app_sep_inj {A} (x x' y y' : list A) c :
  c ∉ x → c ∉ x' → x ++ c :: y = x' ++ c :: y' → x = x' ∧ y = y'.
Proof.
  revert x'. induction x as [|a x IH]; intros [|a' x'] Hx Hx' E; cbn in E.
  - by injection E.
  - injection E as -> _. by destruct Hx'; left.
  - injection E as <- _. by destruct Hx; left.
  - injection E as -> E. destruct (IH x') as [-> ->]; [..|done]; set_solver.
Qed.

Lemma dec_no_underscore n : 95 ∉ dec n.
Proof.
  intros H. pose proof (dec_digits n) as Hd. rewrite Forall_forall in Hd. by specialize (Hd 95 H).
Qed.

Lemma local_id_inj clock m n : nextLocalId clock m = nextLocalId clock n → m = n.
Proof.
  unfold nextLocalId. intros E%app_inv_head. change (js "_") with [95] in E. cbn [app] in E.
  apply app_sep_inj in E as [_ E]; [|apply dec_no_underscore..].
  by rewrite <- (dec_value m), E, dec_value.
Qed.

Section Invariant.
Context `{UpperMap}.
Context (clock : N → N).

(** Identifiers that were given out before [seed]. *)
Definition given (seed : N) (id : jsstr) : Prop := ∃ k, k < seed ∧ id = nextLocalId clock k.

Lemma given_mono m n id : m ≤ n → given m id → given n id.
Proof. intros Hmn (k & Hk & ->). exists k. split; [lia|done]. Qed.

Lemma given_fresh n : ¬ given n (nextLocalId clock n).
Proof. intros (k & Hk & E%local_id_inj). lia. Qed.

Lemma given_new n : given (n + 1) (nextLocalId clock n).
Proof. exists n. split; [lia|done]. Qed.

(** ** Well-formed operations *)

Record condition_wf (seed : N) (c : ParamOverrideCondition) : Prop := {
  cw_id : given seed (c_id c);
  cw_mode : c_mode c ∈ CONDITION_MODE_VALUES;
}.

Record operation_wf (seed : N) (o : ParamOverrideOperation) : Prop := {
  ow_id : given seed (op_id o);
  ow_mode : op_mode o ∈ OPERATION_MODE_VALUES;
  ow_logic : op_logic o = js "AND" ∨ op_logic o = js "OR";
  ow_conditions : Forall (condition_wf seed) (op_conditions o);
  ow_distinct : NoDup (map c_id (op_conditions o));
}.

Record operations_wf (seed : N) (ops : list ParamOverrideOperation) : Prop := {
  os_all : Forall (operation_wf seed) ops;
  os_distinct : NoDup (map op_id ops);
}.

(** The state of the editor: at least one operation, and the selected one is
    among them. *)
Record dialog_wf (d : dialog) : Prop := {
  dw_operations : operations_wf (d_seed d) (operations (d_state d));
  dw_some : operations (d_state d) ≠ [];
  dw_selected : d_selected d ∈ map op_id (operations (d_state d));
}.

Lemma condition_wf_mono m n c : m ≤ n → condition_wf m c → condition_wf n c.
Proof. intros Hmn []. split; [by eapply given_mono|done]. Qed.

Lemma operation_wf_mono m n o : m ≤ n → operation_wf m o → operation_wf n o.
Proof.
  intros Hmn []. split; [by eapply given_mono|done|done| |done].
  eapply Forall_impl; [done|]. intros c. by apply condition_wf_mono.
Qed.

Lemma operations_wf_mono m n ops : m ≤ n → operations_wf m ops → operations_wf n ops.
Proof. intros Hmn []. split; [|done]. eapply Forall_impl; [done|]. intros o. by apply operation_wf_mono. Qed.

(** *** Reading *)

(** Results of a reader that takes identifiers from [m] on. *)
Record made {A} (id : A → jsstr) (wf : N → A → Prop) (m : N) (l : list A) (n : N) : Prop := {
  md_seed : m ≤ n;
  md_wf : Forall (wf n) l;
  md_distinct : NoDup (map id l);
  md_new : Forall (λ x, ∃ k, m ≤ k < n ∧ id x = nextLocalId clock k) l;
}.

Lemma map_seed_made {A} (id : A → jsstr) (wf : N → A → Prop) f :
  (∀ i j x, i ≤ j → wf i x → wf j x) →
  (∀ v m x n, f v m = Ok (x, n) → m < n ∧ wf n x ∧ id x = nextLocalId clock m) →
  ∀ l m r n, map_seed f l m = Ok (r, n) → made id wf m r n.
Proof.
  intros Hmono Hf l. induction l as [|v l IH]; intros m r n E; cbn [map_seed] in E.
  { injection E as <- <-. split; [lia|by apply Forall_nil|constructor|by apply Forall_nil]. }
  apply exc_bind_Ok in E as ([x m1] & Ex & E). apply exc_bind_Ok in E as ([xs m2] & Exs & E).
  injection E as <- <-. cbn [fst snd] in *. destruct (Hf _ _ _ _ Ex) as (Hm & Hx & Hid).
  destruct (IH _ _ _ Exs) as [Hs Hw Hd Hn]. split.
  - lia.
  - apply Forall_cons. split; [by apply (Hmono m1)|done].
  - cbn [map]. constructor; [|done]. rewrite Hid. intros (y & E & Hy)%list_elem_of_fmap.
    rewrite Forall_forall in Hn. destruct (Hn y Hy) as (k & Hk & Ek). rewrite Ek in E. apply local_id_inj in E. lia.
  - apply Forall_cons. split; [exists m; split; [lia|done]|].
    eapply Forall_impl; [exact Hn|]. intros y (k & Hk & Ek). exists k. split; [lia|done].
Qed.

Lemma mode_or_elem modes d v : d ∈ modes → mode_or modes d v ∈ modes.
Proof.
  intros Hd. destruct v; try done. cbn. destruct (includes s modes) eqn:E; [|done]. by apply includes_elem.
Qed.

Lemma normalize_condition_wf v m c n :
  normalizeOverrideCondition clock v m = Ok (c, n) → m < n ∧ condition_wf n c ∧ c_id c = nextLocalId clock m.
Proof.
  unfold normalizeOverrideCondition. intros E. repeat (apply exc_bind_Ok in E as (? & _ & E)). injection E as <- <-.
  split; [lia|]. split; [|done]. split; [apply given_new|]. apply mode_or_elem. concrete.
Qed.

Lemma normalize_operation_wf v m o n :
  normalizeOperation clock v m = Ok (o, n) → m < n ∧ operation_wf n o ∧ op_id o = nextLocalId clock m.
Proof.
  unfold normalizeOperation. intros E.
  do 10 (apply exc_bind_Ok in E as (? & _ & E)). apply exc_bind_Ok in E as ([cs k] & Ec & E). injection E as <- <-.
  assert (made c_id condition_wf (m + 1) cs k) as [Hk Hw Hd _].
  { destruct x8; try (injection Ec as <- <-; split; [lia|by apply Forall_nil|constructor|by apply Forall_nil]).
    eapply map_seed_made; [apply condition_wf_mono|apply normalize_condition_wf|exact Ec]. }
  cbn [fst snd]. split; [lia|]. split; [|done]. split.
  - apply (given_mono (m + 1)); [lia|apply given_new].
  - apply mode_or_elem. concrete.
  - cbn [op_logic]. destruct (str_eqb _ _); [by left|by right].
  - done.
  - done.
Qed.

Lemma default_operation_wf m :
  operation_wf (m + 1) (createDefaultOperation clock m).1.
Proof. split; [apply given_new|concrete|by right|by apply Forall_nil|constructor]. Qed.

Lemma made_operations m l n : made op_id operation_wf m l n → operations_wf n l.
Proof. intros []. by split. Qed.

Lemma read_operations_made l m r n :
  read_operations clock l m = Ok (r, n) → made op_id operation_wf m r n ∧ r ≠ [].
Proof.
  destruct l as [|v l].
  - intros [= <- <-]. split; [|done]. split; [lia| | |].
    + apply Forall_singleton, default_operation_wf.
    + apply NoDup_singleton.
    + apply Forall_singleton. exists m. split; [lia|done].
  - intros E. split.
    + eapply map_seed_made; [apply operation_wf_mono|apply normalize_operation_wf|exact E].
    + cbn [read_operations map_seed] in E. apply exc_bind_Ok in E as (? & _ & E).
      apply exc_bind_Ok in E as (? & _ & E). by injection E as <- _.
Qed.

(** *** Handlers *)

Lemma at_id_wf seed id f ops :
  operations_wf seed ops → (∀ o, operation_wf seed o → operation_wf seed (f o) ∧ op_id (f o) = op_id o) →
  operations_wf seed (at_id id f ops) ∧ map op_id (at_id id f ops) = map op_id ops.
Proof.
  intros [Ha Hd] Hf. assert (map op_id (at_id id f ops) = map op_id ops) as E.
  { unfold at_id. rewrite map_map. clear Hd. induction Ha as [|o ops Ho _ IH]; [done|]. cbn [map]. rewrite IH. f_equal.
    destruct (str_eqb _ _); [by apply Hf|done]. }
  split; [|done]. split; [|by rewrite E]. apply Forall_map. eapply Forall_impl; [exact Ha|].
  intros o Ho. cbn. destruct (str_eqb _ _); [by apply Hf|done].
Qed.

Lemma reorder_perm ops src dst pos : reorderOperations ops src dst pos ≡ₚ ops.
Proof.
  unfold reorderOperations. destruct (_ || _); [done|].
  destruct (find_index _ ops) as [i|] eqn:Ei; [|done]. destruct (ops !! i) as [moved|] eqn:Em; [|done].
  destruct (find_index _ (base.delete i ops)) as [j|]; [|done].
  rewrite <- Permutation_middle, take_drop. symmetry. by apply delete_Permutation.
Qed.

Lemma operations_wf_perm seed ops ops' : ops' ≡ₚ ops → operations_wf seed ops → operations_wf seed ops'.
Proof.
  intros Hp [Ha Hd]. split.
  - by rewrite Hp.
  - by rewrite (fmap_Permutation op_id _ _ Hp).
Qed.

Lemma operations_wf_sublist seed ops ops' : ops' `sublist_of` ops → operations_wf seed ops → operations_wf seed ops'.
Proof.
  intros Hs [Ha Hd]. split.
  - rewrite Forall_forall in *. intros o Ho. eapply Ha, elem_of_sublist; done.
  - eapply sublist_NoDup; [exact Hd|]. by apply fmap_sublist.
Qed.

Lemma conditions_kept seed f o :
  operation_wf seed o →
  Forall (condition_wf seed) (f (op_conditions o)) → NoDup (map c_id (f (op_conditions o))) →
  operation_wf seed (map_conditions f o) ∧ op_id (map_conditions f o) = op_id o.
Proof. destruct o. intros []. by split. Qed.

Lemma patch_condition_id p c : c_id (patch_condition p c) = c_id c.
Proof. by destruct c, p. Qed.

(** The events of the form: its selects offer only the modes. *)
Definition patch_ok (p : op_patch) : Prop :=
  match p with
  | PatchMode s => s ∈ OPERATION_MODE_VALUES
  | PatchLogic s => s = js "AND" ∨ s = js "OR"
  | _ => True
  end.
Definition condition_patch_ok (p : condition_patch) : Prop :=
  match p with PatchCMode s => s ∈ CONDITION_MODE_VALUES | _ => True end.
Definition event_ok (e : editor_event) : Prop :=
  match e with
  | Update _ p => patch_ok p
  | UpdateCond _ _ p | UpdateRule _ _ p => condition_patch_ok p
  | _ => True
  end.

Definition core (d : dialog) : Prop :=
  operations_wf (d_seed d) (operations (d_state d)) ∧ operations (d_state d) ≠ [].

Lemma patch_wf seed p o :
  patch_ok p → operation_wf seed o → operation_wf seed (apply_patch p o) ∧ op_id (apply_patch p o) = op_id o.
Proof. destruct o, p; intros Hp []; by split. Qed.

Lemma patch_at_wf seed cid p o :
  condition_patch_ok p → operation_wf seed o →
  operation_wf seed (map_conditions (patch_at cid p) o) ∧ op_id (map_conditions (patch_at cid p) o) = op_id o.
Proof.
  intros Hp Ho. pose proof Ho as [_ _ _ Hc Hd]. apply conditions_kept; [done| |].
  - apply Forall_map. eapply Forall_impl; [exact Hc|]. intros c [Hi Hm]. cbn. destruct (str_eqb _ _); [|done].
    split; [by rewrite patch_condition_id|]. destruct c, p; done.
  - unfold patch_at. rewrite map_map. erewrite map_ext; [exact Hd|]. intros c. cbn.
    destruct (str_eqb _ _); [apply patch_condition_id|done].
Qed.

Lemma remove_at_wf seed cid o :
  operation_wf seed o →
  operation_wf seed (map_conditions (remove_at cid) o) ∧ op_id (map_conditions (remove_at cid) o) = op_id o.
Proof.
  intros Ho. pose proof Ho as [_ _ _ Hc Hd]. apply conditions_kept; [done| |].
  - rewrite Forall_forall in *. intros c Hx. eapply Hc, elem_of_sublist; [apply Hx|apply filterb_sublist].
  - eapply sublist_NoDup; [exact Hd|]. apply fmap_sublist, filterb_sublist.
Qed.

Lemma add_condition_wf seed o :
  operation_wf seed o →
  let f cs := cs ++ [(createDefaultCondition clock seed).1] in
  operation_wf (seed + 1) (map_conditions f o) ∧ op_id (map_conditions f o) = op_id o.
Proof.
  intros Ho f. pose proof Ho as [_ _ _ Hc Hd]. apply conditions_kept; [apply (operation_wf_mono seed); [lia|done]| |].
  - apply Forall_app. split.
    + eapply Forall_impl; [exact Hc|]. intros c. apply condition_wf_mono. lia.
    + apply Forall_singleton. split; [apply given_new|concrete].
  - unfold f. rewrite map_app. apply NoDup_app. split; [done|]. split; [|apply NoDup_singleton].
    intros x (c & -> & Hx)%list_elem_of_fmap Hi%list_elem_of_singleton.
    rewrite Forall_forall in Hc. destruct (Hc c Hx) as [Hg _]. rewrite Hi in Hg. by apply given_fresh in Hg.
Qed.

(** Operations joined with new ones. *)
Lemma joined_wf m n old new k :
  operations_wf m old → made op_id operation_wf m new n → n ≤ k → operations_wf k (old ++ new).
Proof.
  intros [Ha Hd] [Hs Hw Hn Hf] Hk. split.
  - apply Forall_app. split; eapply Forall_impl; [exact Ha| |exact Hw|]; intros o; apply operation_wf_mono; lia.
  - rewrite map_app. apply NoDup_app. split; [done|]. split; [|done].
    intros x (o & -> & Ho)%list_elem_of_fmap (o' & E & Ho')%list_elem_of_fmap.
    rewrite Forall_forall in Ha, Hf. destruct (Ha o Ho) as [(i & Hi & Ei) _ _ _ _].
    destruct (Hf o' Ho') as (j & Hj & Ej). rewrite Ei, Ej in E. apply local_id_inj in E. lia.
Qed.

Lemma default_made m : made op_id operation_wf m [(createDefaultOperation clock m).1] (m + 1).
Proof.
  split; [lia|apply Forall_singleton, default_operation_wf|apply NoDup_singleton|].
  apply Forall_singleton. exists m. split; [lia|done].
Qed.

Lemma read_rules_seed parsed s : s ≤ (read_rules clock parsed s).2.
Proof.
  unfold read_rules. destruct (map_seed _ _ s) as [[r n]| |] eqn:E; [|done|done].
  apply (map_seed_made c_id condition_wf) in E; [by destruct E|apply condition_wf_mono|apply normalize_condition_wf].
Qed.

Lemma parse_prune_seed text s : s ≤ (parsePruneObjectsDraft clock text s).2.
Proof.
  unfold parsePruneObjectsDraft. destruct (negb _); [done|]. destruct (json_parse _) as [[]|]; try done.
  pose proof (read_rules_seed o s). by destruct (read_rules clock o s).
Qed.

Lemma prune_at_wf id f ops seed :
  operations_wf seed ops → (∀ d s, s ≤ (f d s).2) →
  seed ≤ (prune_at clock id f ops seed).2 ∧
  operations_wf (prune_at clock id f ops seed).2 (prune_at clock id f ops seed).1 ∧
  map op_id (prune_at clock id f ops seed).1 = map op_id ops.
Proof.
  intros [Ha Hd] Hf.
  assert (∀ s, seed ≤ s → s ≤ (prune_at clock id f ops s).2 ∧
    Forall (operation_wf (prune_at clock id f ops s).2) (prune_at clock id f ops s).1 ∧
    map op_id (prune_at clock id f ops s).1 = map op_id ops) as Hp.
  { clear Hd. induction Ha as [|o ops Ho _ IH]; intros s Hs; [split; [done|]; by split|]. cbn [prune_at].
    set (r := if str_eqb (op_id o) id then _ else _).
    assert (s ≤ r.2 ∧ operation_wf s r.1 ∧ op_id r.1 = op_id o) as (H1 & H2 & H3).
    { apply (operation_wf_mono _ s) in Ho; [|done]. unfold r. destruct (str_eqb (op_id o) id); [|done].
      unfold edit_prune. pose proof (parse_prune_seed (op_value_text o) s) as Hq.
      destruct (parsePruneObjectsDraft clock (op_value_text o) s) as [draft s1]. specialize (Hf draft s1).
      destruct (f draft s1) as [next s2]. cbn in *. split; [lia|]. by apply patch_wf. }
    destruct r as [o1 s1]. cbn [fst snd] in *. destruct (IH s1) as (H4 & H5 & H6); [lia|].
    destruct (prune_at clock id f ops s1) as [rest s2]. cbn [fst snd map] in *. split; [lia|]. split.
    - apply Forall_cons. split; [|done]. by apply (operation_wf_mono s); [lia|].
    - by rewrite H3, H6. }
  destruct (Hp seed) as (H1 & H2 & H3); [done|]. split; [done|]. split; [|done]. split; [done|by rewrite H3].
Qed.

Lemma at_id_core id f d n :
  core d → d_seed d ≤ n →
  (∀ o, operation_wf (d_seed d) o → operation_wf n (f o) ∧ op_id (f o) = op_id o) →
  core (with_seed n (set_operations (at_id id f) d)).
Proof.
  intros [Hw Hne] Hn Hf. split; cbn [with_seed set_operations with_operations d_state d_seed operations].
  - assert (map op_id (at_id id f (operations (d_state d))) = map op_id (operations (d_state d))) as E.
    { unfold at_id. rewrite map_map. apply map_ext_in. intros o Ho%list_elem_of_In.
      destruct (str_eqb _ _); [|done]. apply Hf. destruct Hw as [Ha _]. rewrite Forall_forall in Ha. by apply Ha. }
    destruct Hw as [Ha Hd]. split; [|by rewrite E]. apply Forall_map. eapply Forall_impl; [exact Ha|].
    intros o Ho. cbn. destruct (str_eqb _ _); [by apply Hf|]. by apply (operation_wf_mono (d_seed d)).
  - unfold at_id. by destruct (operations (d_state d)).
Qed.

Lemma updates_core id f d :
  core d → (∀ o, operation_wf (d_seed d) o → operation_wf (d_seed d) (f o) ∧ op_id (f o) = op_id o) →
  core (set_operations (at_id id f) d).
Proof. intros Hc Hf. by apply (at_id_core id f d (d_seed d)). Qed.

Lemma prune_core id f d : core d → (∀ p s, s ≤ (f p s).2) → core (updatePruneObjectsDraft clock id f d).
Proof.
  intros [Hw Hne] Hf. unfold updatePruneObjectsDraft.
  destruct (prune_at_wf id f _ _ Hw Hf) as (_ & H2 & H3).
  destruct (prune_at clock id f (operations (d_state d)) (d_seed d)) as [ops n]. cbn [fst snd] in *.
  split; [done|]. cbn. by destruct ops, (operations (d_state d)).
Qed.

Lemma drop_core id data d : core d → core (handleDrop id data d).
Proof.
  intros [Hw Hne]. unfold handleDrop. destruct (_ && _ && _); [|by split]. split; cbn.
  - eapply operations_wf_perm; [apply reorder_perm|done].
  - intros E. apply Hne. apply Permutation_nil. rewrite <- E. apply reorder_perm.
Qed.

Lemma remove_core id d : core d → core (removeOperation clock id d).
Proof.
  intros [Hw Hne]. unfold removeOperation. destruct (_ <=? 1)%nat eqn:El.
  - split; [|done]. apply made_operations with (d_seed d), default_made.
  - apply Nat.leb_gt in El. split.
    + eapply operations_wf_sublist; [apply filterb_sublist|done].
    + cbn. destruct Hw as [_ Hd]. destruct (operations (d_state d)) as [|o [|o' rest]]; [done|cbn in El; lia|].
      cbn [filterb List.filter]. destruct (str_eqb (op_id o) id) eqn:E1; [|done].
      destruct (str_eqb (op_id o') id) eqn:E2; [|done]. cbn. exfalso.
      apply bool_decide_eq_true in E1, E2. cbn [map] in Hd. apply NoDup_cons in Hd as [Hd _].
      apply Hd. rewrite E1, E2. by left.
Qed.

Lemma duplicate_core id d d' : core d → duplicateOperation clock id d = Ok d' → core d'.
Proof.
  intros Hc. pose proof Hc as [Hw Hne]. unfold duplicateOperation. destruct (find_index _ _) as [i|]; [|by intros [= <-]].
  destruct (operations (d_state d) !! i) as [o|]; [|by intros [= <-]].
  intros E. apply exc_bind_Ok in E as ([c n] & Ec & E). injection E as <-. cbn [fst snd].
  apply normalize_operation_wf in Ec as (Hn & Hcw & Hid). split.
  - cbn. apply (operations_wf_perm _ (operations (d_state d) ++ [c])).
    { rewrite <- Permutation_middle, take_drop. by rewrite Permutation_app_comm. }
    apply (joined_wf (d_seed d) n); [done| |done].
    split; [lia|by apply Forall_singleton|apply NoDup_singleton|].
    apply Forall_singleton. exists (d_seed d). split; [lia|done].
  - cbn. by destruct (take _ _).
Qed.

Lemma open_core text seed d : open_dialog clock text seed = Ok d → core d ∧ seed ≤ d_seed d.
Proof.
  unfold open_dialog. intros E. apply exc_bind_Ok in E as ([s n] & Es & E). injection E as <-. cbn [fst snd].
  assert (core (Dialog (State VisualEdit OperationsMode [] [(createDefaultOperation clock seed).1] [] [])
    [] [] [] [] Before (seed + 1))) as [Hb _].
  { split; [|done]. apply made_operations with seed, default_made. }
  unfold core. cbn [d_state d_seed] in *. unfold parseInitialState in Es. cbn [createDefaultOperation] in Es.
  destruct (negb _); [injection Es as <- <-; cbn; split; [done|lia]|].
  destruct (json_parse (trim text)) as [v|]; [|injection Es as <- <-; cbn; split; [done|lia]].
  destruct v; try (injection Es as <- <-; cbn; split; [done|lia]).
  destruct (prop (js "operations") o); try (injection Es as <- <-; cbn; split; [done|lia]).
  apply exc_bind_Ok in Es as ([ops k] & Eo & Es). injection Es as <- <-. cbn [fst snd].
  apply read_operations_made in Eo as [Hm Hne]. split; [|by destruct Hm]. split; [by apply made_operations in Hm|done].
Qed.

Lemma default_core s sel p g o q m :
  operations s = [(createDefaultOperation clock m).1] → core (Dialog s sel p g o q (m + 1)).
Proof.
  intros E. split; cbn [d_state d_seed]; rewrite E; [|done]. apply made_operations with m, default_made.
Qed.

Lemma visual_core d d' : core d → switchToVisualMode clock d = Ok d' → core d'.
Proof.
  intros Hc. unfold switchToVisualMode. destruct (editMode (d_state d)); [by intros [= <-]|].
  cbn [createDefaultOperation]. destruct (negb _); [intros [= <-]; by apply default_core|].
  destruct (json_parse _) as [v|]; [|by intros [= <-]]. destruct v; try (by intros [= <-]).
  destruct (prop (js "operations") o); try (intros [= <-]; by apply default_core).
  intros E. apply exc_bind_Ok in E as ([ops n] & Eo & E). injection E as <-.
  apply read_operations_made in Eo as [Hm Hne]. split; [by apply made_operations in Hm|done].
Qed.

Definition template_filled (p : TemplatePresetConfig) : bool :=
  match tp_kind p, template_operations (tp_payload p) with OperationsTemplate, [] => false | _, _ => true end.

Lemma templates_filled : forallb (λ e, template_filled e.2) TEMPLATE_PRESET_CONFIG = true.
Proof. vm_compute. reflexivity. Qed.

Lemma default_filled :
  template_filled (Template (js "New Format Template") OperationsTemplate OPERATION_TEMPLATE) = true.
Proof. vm_compute. reflexivity. Qed.

Lemma preset_filled key : template_filled (preset_of key) = true.
Proof.
  unfold preset_of. pose proof templates_filled as Hall. rewrite forallb_forall in Hall.
  destruct (find_first (λ e, str_eqb e.1 key) TEMPLATE_PRESET_CONFIG) as [e|] eqn:E; [|exact default_filled].
  apply (Hall e). apply find_first_Some in E as [He _]. by apply list_elem_of_In.
Qed.

Lemma filled_operations p :
  template_filled p = true → tp_kind p = OperationsTemplate → template_operations (tp_payload p) ≠ [].
Proof. destruct p as [l k v]. unfold template_filled. cbn [tp_kind tp_payload]. intros Hf -> E. by rewrite E in Hf. Qed.

Lemma fill_core mode d d' : core d → fillTemplate clock mode d = Ok d' → core d'.
Proof.
  intros [Hw Hne]. unfold fillTemplate. destruct (tp_kind (preset_of (d_preset d))) eqn:Ek.
  - unfold fill_operations. intros E. apply exc_bind_Ok in E as ([ops n] & Eo & E).
    assert (ops ≠ []) as Ho.
    { pose proof (filled_operations _ (preset_filled _) Ek) as Ht. destruct (template_operations _); [done|].
      cbn [map_seed] in Eo. apply exc_bind_Ok in Eo as (? & _ & Eo). apply exc_bind_Ok in Eo as (? & _ & Eo).
      by injection Eo as <- _. }
    apply (map_seed_made op_id operation_wf) in Eo; [|apply operation_wf_mono|apply normalize_operation_wf].
    destruct mode.
    + destruct ops as [|o ops]; [done|]. injection E as <-. split; [by apply made_operations in Eo|done].
    + injection E as <-. split; cbn [d_state d_seed operations].
      * apply (joined_wf (d_seed d) n); [|done|done]. destruct (visualMode _).
        -- eapply operations_wf_sublist; [apply filterb_sublist|done].
        -- split; [by apply Forall_nil|constructor].
      * by destruct (match visualMode (d_state d) with OperationsMode => _ | _ => _ end).
  - intros [= <-]. unfold fill_legacy, show_legacy. cbn [createDefaultOperation].
    destruct mode, (visualMode (d_state d)); try (by apply default_core).
    destruct (negb _); [by apply default_core|]. destruct (json_parse _); [by apply default_core|by split].
Qed.

Lemma dispatch_core m1 m2 e d d' : core d → event_ok e → dispatch clock m1 m2 e d = Ok d' → core d'.
Proof.
  intros Hc He. pose proof Hc as [Hw Hne]. destruct e; cbn [dispatch]; try intros [= <-]; cbn in He.
  - intros E. by apply open_core in E as [? _].
  - apply updates_core; [done|]. intros o. by apply patch_wf.
  - split; [|cbn; by intros [_ ?]%app_eq_nil]. cbn. apply (joined_wf (d_seed d) (d_seed d + 1)); [done| |done].
    apply default_made.
  - by apply duplicate_core.
  - by apply remove_core.
  - apply at_id_core; [done|lia|]. intros o. apply add_condition_wf.
  - apply updates_core; [done|]. intros o. by apply patch_at_wf.
  - apply updates_core; [done|]. intros o. apply remove_at_wf.
  - apply updates_core; [done|]. intros o. by apply patch_wf.
  - by apply prune_core.
  - apply prune_core; [done|]. intros p s. cbn. lia.
  - by apply prune_core.
  - by apply prune_core.
  - done.
  - unfold handleDragOver. by destruct (_ || _).
  - by apply drop_core.
  - unfold switchToJsonMode. destruct (editMode _); [|done].
    by destruct (match buildVisualJson (d_state d) with inl _ => _ | inr _ => _ end).
  - by apply visual_core.
  - by apply fill_core.
  - done.
  - by apply default_core.
  - done.
  - unfold formatJson. by destruct (json_parse _).
  - done.
Qed.

Lemma selected_wf d : core d → dialog_wf (keep_selected d).
Proof.
  intros [Hw Hne]. split; [done|done|]. cbn. destruct (existsb _ _) eqn:E.
  - apply existsb_exists in E as (o & Ho & E%bool_decide_eq_true). rewrite <- E.
    apply list_elem_of_fmap. exists o. split; [done|]. by apply list_elem_of_In.
  - destruct (operations (d_state d)); [done|]. by left.
Qed.

End Invariant.

(** ** Properties *)

(** C19. The state of the editor of parameter overrides stays well typed: after
    it was opened on any text and after any sequence of the events of its
    form, there is at least one operation, the selected one exists, all modes
    are modes of the relay, the logic is AND or OR, and no two operations, and
    no two conditions of an operation, share an identifier. *)
Theorem override_editor_typed `{UpperMap} clock message json_message text seed d (events : list editor_event) :
  open_dialog clock text seed = Ok d → Forall event_ok events →
  dialog_wf clock (fold_left (editor_handle clock message json_message) events (keep_selected d)).
Proof.
  intros Ho He. apply open_core in Ho as [Hc _]. apply selected_wf in Hc. generalize dependent (keep_selected d).
  induction He as [|e events Hev _ IH]; intros d0 Hd; [done|]. cbn [fold_left]. apply IH. unfold editor_handle.
  destruct (dispatch _ _ _ e d0) as [d'| |] eqn:E; [|done|done].
  apply selected_wf. eapply dispatch_core; [|exact Hev|exact E]. by destruct Hd; split.
Qed.

Lemma override_editor_typed_witness :
  ∃ d, open_dialog (λ _, 7) (jsq "{'operations': [{'mode': 'copy_header', 'path': 'X-Id'}]}") 0 = Ok d ∧
    dialog_wf (λ _, 7)
      (fold_left (editor_handle (λ _, 7) (λ _, js "error") (js "error"))
         [Add; Duplicate (nextLocalId (λ _, 7) 0); Update (nextLocalId (λ _, 7) 1) (PatchMode (js "delete"));
          Remove (nextLocalId (λ _, 7) 0); ToJson; ToVisual; FillTemplate Append]
         (keep_selected d)).
Proof.
  destruct (open_dialog (λ _, 7) (jsq "{'operations': [{'mode': 'copy_header', 'path': 'X-Id'}]}") 0) as [d| |] eqn:E;
    [|vm_compute in E; discriminate..].
  exists d. split; [reflexivity|]. apply (override_editor_typed _ _ _ _ _ _ _ E).
  repeat constructor; concrete.
Defined.
