(* ===== verification/ParamOverrideRoundtrip.v ===== *)
(** * Parameter overrides: saving and opening again

    The text that the editor saves, read back by the dialog: every operation
    comes back with its value texts replaced by what the editor shows of the
    saved values.  Without quoted JSON strings the payloads are the same, pass
    the same checks and are saved as the same text; a quoted string loses its
    quotes, which is shown separately. *)
From S2P Require Import Prelude JsString JsNumber JsValue JsonFacts BillingRuleFacts ParamOverride ParamOverrideEditor ParamOverrideFacts.

Open Scope N_scope.

(** ** Value texts *)

(** The text of a value that the editor shows again as it was: anything but a
    quoted string. *)
Definition plain_text (text : jsstr) : Prop :=
  json_ok (parseLooseValue text) ∧ ∀ s, json_parse (trim text) ≠ Some (VStr s).

Definition shown_again (text : jsstr) : jsstr := toValueText (parseLooseValue text).

Lemma str_eqb_nil s : str_eqb s [] = negb (truthy s).
Proof. by destruct s. Qed.

Lemma shown_trim text : plain_text text → trim (shown_again text) = shown_again text.
Proof.
  intros [Hj Hs]. unfold shown_again, parseLooseValue in *. rewrite str_eqb_nil in *.
  destruct (truthy (trim text)); cbn [negb] in *; [|apply trim_nil].
  destruct (json_parse (trim text)) as [v|]; [|apply trim_idemp].
  destruct (json_parse_stringify v Hj) as (s & E & _).
  assert (toValueText v = s) as ->; [|by eapply stringify_trim].
  destruct v; cbn [toValueText]; rewrite ?E; try done. by destruct (Hs s0).
Qed.

Lemma shown_parse text : plain_text text → json_parse (shown_again text) = json_parse (trim text).
Proof.
  intros [Hj Hs]. unfold shown_again, parseLooseValue in *. rewrite str_eqb_nil in *.
  destruct (truthy (trim text)) eqn:Et; cbn [negb] in *.
  - destruct (json_parse (trim text)) as [v|] eqn:Ep; [|done].
    destruct (json_parse_stringify v Hj) as (s & E & Hp).
    assert (toValueText v = s) as ->; [|done]. destruct v; cbn [toValueText]; rewrite ?E; try done. by destruct (Hs s0).
  - by destruct (trim text).
Qed.

Lemma shown_truthy text : plain_text text → truthy (shown_again text) = truthy (trim text).
Proof.
  intros Hp. pose proof (shown_parse text Hp) as E. destruct (trim text) as [|c t] eqn:Et.
  - unfold shown_again, parseLooseValue. by rewrite Et.
  - destruct (shown_again text) eqn:Es; [|done]. unfold shown_again, parseLooseValue in Es.
    rewrite Et, <- E, str_eqb_nil in Es. done.
Qed.

Lemma shown_value text : plain_text text → parseLooseValue (shown_again text) = parseLooseValue text.
Proof.
  intros Hp. unfold parseLooseValue at 1. rewrite shown_trim, shown_parse, str_eqb_nil, shown_truthy by done.
  unfold shown_again, parseLooseValue. rewrite str_eqb_nil. destruct (truthy (trim text)); [|done].
  cbn [negb]. by destruct (json_parse (trim text)).
Qed.

(** ** Members that are set under a condition *)

Lemma prop_payload_set b k v o : prop k (payload_set b k v o) = if b then v else prop k o.
Proof. destruct b; [apply prop_set|done]. Qed.

Lemma prop_payload_ne b k k' v o : str_eqb k' k = false → prop k' (payload_set b k v o) = prop k' o.
Proof. intros E%bool_decide_eq_false. destruct b; [by apply prop_set_ne|done]. Qed.

Lemma payload_set_eq b b' k v v' o o' :
  b = b' → (b = true → v = v') → o = o' → payload_set b k v o = payload_set b' k v' o'.
Proof. intros <- Hv <-. destruct b; [|done]. by rewrite Hv. Qed.

Lemma wf_payload_set b k v o : wf_obj o → wf_obj (payload_set b k v o).
Proof. destruct b; [apply wf_set|done]. Qed.

Lemma members_payload_set b k v o :
  unitsb k = true → (b = true → json_ok v) → members_ok o → members_ok (payload_set b k v o).
Proof. intros Hk Hv Ho. destruct b; [|done]. apply members_ok_set; [by apply unitsb_ok|by apply Hv|done]. Qed.

(** Reading a member behind others. *)
Ltac skip_members := repeat (rewrite prop_payload_ne by (vm_compute; reflexivity)).

Section Reopen.
Context `{UpperMap}.
Context (clock : N → N).

(** ** Conditions *)

Record condition_saves (c : ParamOverrideCondition) : Prop := {
  cs_path : units_ok (c_path c);
  cs_mode : c_mode c ∈ CONDITION_MODE_VALUES;
  cs_value : json_ok (parseLooseValue (c_value_text c));
}.

(** The condition with the value text that the editor shows of its saved
    value. *)
Definition shown_condition (c : ParamOverrideCondition) : ParamOverrideCondition :=
  Condition (c_id c) (c_path c) (c_mode c) (shown_again (c_value_text c)) (c_invert c) (c_pass_missing_key c).

Lemma trim_units s : units_ok s → units_ok (trim s).
Proof. unfold units_ok. rewrite !Forall_forall. intros Hs c Hc. by apply Hs, trim_elem. Qed.

Lemma table_mode (modes : list jsstr) m :
  forallb (λ s, truthy s && unitsb s) modes = true → m ∈ modes →
  str_or m (js "set") = m ∧ str_or m (js "full") = m ∧ units_ok m ∧ ∀ d, mode_or modes d (VStr m) = m.
Proof.
  intros Ha Hm. rewrite forallb_forall in Ha. specialize (Ha m). apply andb_true_iff in Ha as [Ht Hu].
  - unfold str_or. destruct m; [done|]. split; [done|]. split; [done|]. split; [by apply unitsb_ok|].
    intros d. cbn. by apply includes_elem in Hm as ->.
  - by apply list_elem_of_In.
Qed.

Lemma condition_modes_ok : forallb (λ s, truthy s && unitsb s) CONDITION_MODE_VALUES = true.
Proof. vm_compute. reflexivity. Qed.
Lemma operation_modes_ok : forallb (λ s, truthy s && unitsb s) OPERATION_MODE_VALUES = true.
Proof. vm_compute. reflexivity. Qed.

Definition condition_members (path mode : jsstr) (v : value) (inv pass : bool) : obj :=
  payload_set pass (js "pass_missing_key") (VBool true)
    (payload_set inv (js "invert") (VBool true)
       [(js "path", VStr path); (js "mode", VStr mode); (js "value", v)]).

Lemma build_condition c :
  buildConditionPayload c =
  if truthy (trim (c_path c)) then
    Some (condition_members (trim (c_path c)) (str_or (c_mode c) (js "full")) (parseLooseValue (c_value_text c))
            (c_invert c) (c_pass_missing_key c))
  else None.
Proof. unfold buildConditionPayload. by destruct (truthy _). Qed.

Lemma condition_members_ok path mode v inv pass :
  units_ok path → units_ok mode → json_ok v → json_ok (VObj (condition_members path mode v inv pass)).
Proof.
  intros Hp Hm Hv. apply members_json_ok.
  - apply wf_payload_set, wf_payload_set, wf_decide. vm_compute. reflexivity.
  - do 2 (apply members_payload_set; [vm_compute; reflexivity|done|]).
    assert (units_ok (js "path") ∧ units_ok (js "mode") ∧ units_ok (js "value")) as (H1 & H2 & H3)
      by (split_and!; by apply unitsb_ok).
    intros k v'. rewrite !elem_of_cons, elem_of_nil. intros Hin. by destruct_or! Hin; simplify_eq.
Qed.

Lemma condition_reads path mode v inv pass seed :
  mode ∈ CONDITION_MODE_VALUES →
  normalizeOverrideCondition clock (VObj (condition_members path mode v inv pass)) seed =
  Ok (Condition (nextLocalId clock seed) path mode (toValueText v) inv pass, seed + 1).
Proof.
  intros Hm. destruct (table_mode _ _ condition_modes_ok Hm) as (_ & _ & _ & E).
  unfold normalizeOverrideCondition, condition_members. cbn [default_empty get_member mbind exc_bind].
  skip_members. rewrite !prop_payload_set. skip_members.
  replace (prop (js "path") _) with (VStr path) by reflexivity.
  replace (prop (js "mode") _) with (VStr mode) by reflexivity.
  replace (prop (js "value") _) with v by reflexivity.
  rewrite E. by destruct inv, pass.
Qed.

Lemma override_condition_back c p seed :
  condition_saves c → buildConditionPayload c = Some p →
  json_ok (VObj p) ∧
  ∃ c', normalizeOverrideCondition clock (VObj p) seed = Ok (c', seed + 1) ∧
    buildConditionPayload c' = buildConditionPayload (shown_condition c).
Proof.
  intros [Hp Hm Hv]. rewrite !build_condition. destruct (truthy (trim (c_path c))) eqn:Et; [|done]. intros [= <-].
  destruct (table_mode _ _ condition_modes_ok Hm) as (_ & -> & Hu & _). split.
  - apply condition_members_ok; [by apply trim_units|done|apply Hv].
  - eexists. split; [by apply condition_reads|]. rewrite build_condition. unfold shown_condition, shown_again.
    cbn [c_path c_mode c_value_text c_invert c_pass_missing_key]. by rewrite trim_idemp.
Qed.

Lemma shown_condition_none c : buildConditionPayload c = None → buildConditionPayload (shown_condition c) = None.
Proof. rewrite !build_condition. unfold shown_condition. cbn [c_path]. by destruct (truthy _). Qed.

Lemma shown_conditions_nil cs :
  omap buildConditionPayload cs = [] → omap buildConditionPayload (map shown_condition cs) = [].
Proof.
  induction cs as [|c cs IH]; cbn [omap list_omap map]; [done|].
  destruct (buildConditionPayload c) eqn:E; [done|]. by rewrite shown_condition_none.
Qed.

Lemma override_conditions_back cs seed :
  Forall condition_saves cs →
  let ps := omap buildConditionPayload cs in
  json_ok (VArr (map VObj ps)) ∧
  ∃ cs' n, map_seed (normalizeOverrideCondition clock) (map VObj ps) seed = Ok (cs', n) ∧
           omap buildConditionPayload cs' = omap buildConditionPayload (map shown_condition cs).
Proof.
  intros Hc. revert seed. induction Hc as [|c cs Hc _ IH]; intros seed; cbn [omap list_omap map].
  { split; [done|]. by exists [], seed. }
  destruct (buildConditionPayload c) as [p|] eqn:Ep; [|rewrite shown_condition_none by done; apply IH].
  destruct (override_condition_back c p seed Hc Ep) as (Hj & c' & En & Ec').
  destruct (IH (seed + 1)) as (Hjs & cs' & n & Es & Ecs). split; [by split|].
  exists (c' :: cs'), n. cbn [map map_seed mbind exc_bind]. rewrite En. cbn [mbind exc_bind fst snd].
  rewrite Es. split; [done|]. cbn [omap list_omap]. by rewrite Ec', Ecs.
Qed.

(** ** Payloads of operations *)

(** The members before the aliases. *)
Definition main_members (meta : ModeMeta) (mode des path : jsstr) (v : value) (keep : bool) (from to : jsstr) : obj :=
  payload_set (m_to meta) (js "to") (VStr to)
    (payload_set (negb (m_to meta) && truthy to) (js "to") (VStr to)
      (payload_set (m_from meta) (js "from") (VStr from)
        (payload_set (m_keepOrigin meta && keep) (js "keep_origin") (VBool true)
          (payload_set (m_value meta) (js "value") v
            (payload_set (m_pathOptional meta && truthy path) (js "path") (VStr path)
              (payload_set (m_path meta) (js "path") (VStr path)
                (payload_set (truthy des) (js "description") (VStr des) [(js "mode", VStr mode)]))))))).

Definition alias_members (meta : ModeMeta) (path : jsstr) (o : obj) : obj :=
  let o := payload_set (m_pathAlias meta && negb (val_truthy (prop (js "from") o)) && truthy path)
             (js "from") (VStr path) o in
  payload_set (m_pathAlias meta && negb (val_truthy (prop (js "to") o)) && truthy path) (js "to") (VStr path) o.

Definition condition_part (logic : jsstr) (ps : list obj) (o : obj) : obj :=
  payload_set (0 <? length ps)%nat (js "logic") (VStr logic)
    (payload_set (0 <? length ps)%nat (js "conditions") (VArr (map VObj ps)) o).

Definition saved_mode (o : ParamOverrideOperation) : jsstr := str_or (op_mode o) (js "set").
Definition saved_logic (o : ParamOverrideOperation) : jsstr :=
  if str_eqb (op_logic o) (js "AND") then js "AND" else js "OR".

Lemma payload_parts o :
  operation_payload o =
  condition_part (saved_logic o) (omap buildConditionPayload (op_conditions o))
    (alias_members (meta_of (saved_mode o)) (trim (op_path o))
      (main_members (meta_of (saved_mode o)) (saved_mode o) (trim (op_description o)) (trim (op_path o))
         (parseLooseValue (op_value_text o)) (op_keep_origin o) (trim (op_from o)) (trim (op_to o)))).
Proof. reflexivity. Qed.

(** The tables: an alias stands for two fields and has no path. *)
Definition meta_sane (meta : ModeMeta) : bool :=
  (if m_pathAlias meta then m_from meta && m_to meta && negb (m_path meta) && negb (m_pathOptional meta) else true)
  && (if m_path meta then negb (m_pathOptional meta) else true).

Lemma meta_table : forallb (λ m, meta_sane (meta_of m)) OPERATION_MODE_VALUES = true.
Proof. vm_compute. reflexivity. Qed.

Lemma meta_of_sane m : m ∈ OPERATION_MODE_VALUES → meta_sane (meta_of m) = true.
Proof.
  intros Hm. pose proof meta_table as Ht. rewrite forallb_forall in Ht. apply (Ht m). by apply list_elem_of_In.
Qed.

(** What the members of an operation read back as. *)
Definition back_path (meta : ModeMeta) (path : jsstr) : jsstr :=
  if m_path meta || m_pathOptional meta then path else [].
Definition back_from (meta : ModeMeta) (path from : jsstr) : jsstr :=
  if m_pathAlias meta then str_or from path else if m_from meta then from else [].
Definition back_to (meta : ModeMeta) (path to : jsstr) : jsstr :=
  if m_pathAlias meta then str_or to path else to.

Section Members.
Context (meta : ModeMeta) (mode des path : jsstr) (v : value) (keep : bool) (from to : jsstr).
Context (Hmeta : meta_sane meta = true).

Let main := main_members meta mode des path v keep from to.
Let full := alias_members meta path main.

Lemma truthy_text (s : jsstr) : string_or_empty (if truthy s then VStr s else VUndef) = s.
Proof. by destruct s. Qed.

Lemma prop_alias k : str_eqb k (js "from") = false → str_eqb k (js "to") = false → prop k full = prop k main.
Proof. intros H1 H2. unfold full, alias_members. by rewrite !prop_payload_ne. Qed.

Lemma main_mode : prop (js "mode") full = VStr mode.
Proof. rewrite prop_alias by reflexivity. unfold main, main_members. by skip_members. Qed.

Lemma main_description : string_or_empty (prop (js "description") full) = des.
Proof.
  rewrite prop_alias by reflexivity. unfold main, main_members. skip_members. rewrite prop_payload_set. apply truthy_text.
Qed.

Lemma main_path : string_or_empty (prop (js "path") full) = back_path meta path.
Proof.
  rewrite prop_alias by reflexivity. unfold main, main_members, back_path. skip_members.
  rewrite !prop_payload_set. skip_members. replace (prop (js "path") _) with VUndef by reflexivity.
  destruct (m_path meta), (m_pathOptional meta), path; done.
Qed.

Lemma main_value : prop (js "value") full = if m_value meta then v else VUndef.
Proof.
  rewrite prop_alias by reflexivity. unfold main, main_members. skip_members. rewrite prop_payload_set. by skip_members.
Qed.

Lemma main_keep : is_true (prop (js "keep_origin") full) = m_keepOrigin meta && keep.
Proof.
  rewrite prop_alias by reflexivity. unfold main, main_members. skip_members. rewrite prop_payload_set. skip_members.
  replace (prop (js "keep_origin") _) with VUndef by reflexivity. by destruct (_ && _).
Qed.

Lemma main_from : prop (js "from") main = if m_from meta then VStr from else VUndef.
Proof. unfold main, main_members. skip_members. rewrite prop_payload_set. by skip_members. Qed.

Lemma main_to : prop (js "to") main = if m_to meta || truthy to then VStr to else VUndef.
Proof.
  unfold main, main_members. rewrite !prop_payload_set. skip_members.
  replace (prop (js "to") _) with VUndef by reflexivity. by destruct (m_to meta), (truthy to).
Qed.

Lemma full_from : string_or_empty (prop (js "from") full) = back_from meta path from.
Proof.
  unfold full, alias_members. rewrite prop_payload_ne by reflexivity. rewrite prop_payload_set, main_from.
  unfold back_from, str_or. unfold meta_sane in Hmeta.
  destruct (m_pathAlias meta), (m_from meta), from, path; done.
Qed.

Lemma full_to : string_or_empty (prop (js "to") full) = back_to meta path to.
Proof.
  unfold full, alias_members. rewrite prop_payload_set, prop_payload_ne, main_to by reflexivity.
  unfold back_to, str_or. unfold meta_sane in Hmeta.
  destruct (m_pathAlias meta), (m_from meta), (m_to meta), to, path; done.
Qed.

End Members.

Definition full_members (meta : ModeMeta) (mode des path : jsstr) (v : value) (keep : bool) (from to : jsstr) : obj :=
  alias_members meta path (main_members meta mode des path v keep from to).

Lemma full_alias_again value keepOrigin mode des path v keep from to v' :
  let meta := Meta false false value true true keepOrigin true in
  (value = true → v' = v) →
  full_members meta mode des (back_path meta path) v' (keepOrigin && keep) (back_from meta path from) (back_to meta path to)
  = full_members meta mode des path v keep from to.
Proof.
  intros meta Hv. assert (value = false ∨ v' = v) as Hv' by (destruct value; auto). clear Hv. unfold meta.
  destruct Hv' as [->| ->]; destruct (truthy des) eqn:Ed, keepOrigin, keep; try destruct value;
    destruct from as [|f from], to as [|t to], path as [|p path];
    unfold full_members, main_members; rewrite Ed; vm_compute; reflexivity.
Qed.

Lemma no_alias meta path o : m_pathAlias meta = false → alias_members meta path o = o.
Proof. intros E. unfold alias_members. by rewrite E. Qed.

Lemma full_again meta mode des path v keep from to v' :
  meta_sane meta = true → (m_value meta = true → v' = v) →
  full_members meta mode des (back_path meta path) v' (m_keepOrigin meta && keep)
    (back_from meta path from) (back_to meta path to)
  = full_members meta mode des path v keep from to.
Proof.
  intros Hs Hv. destruct (m_pathAlias meta) eqn:Ea.
  - destruct meta as [p po vl f t k a]. unfold meta_sane in Hs. cbn [m_pathAlias m_from m_to m_path m_pathOptional] in *.
    subst a. destruct f, t, p, po; try done. by apply full_alias_again.
  - unfold full_members. rewrite !no_alias by done. unfold main_members, back_path, back_from, back_to. rewrite Ea.
    repeat (apply payload_set_eq; [..|intros Hb|]); try done;
      try (by rewrite Hv); unfold meta_sane in Hs;
      destruct (m_path meta), (m_pathOptional meta), (m_from meta), (m_keepOrigin meta); done.
Qed.

(** ** Operations *)

Record operation_saves (o : ParamOverrideOperation) : Prop := {
  os_description : units_ok (op_description o);
  os_path : units_ok (op_path o);
  os_mode : op_mode o ∈ OPERATION_MODE_VALUES;
  os_from : units_ok (op_from o);
  os_to : units_ok (op_to o);
  os_value : json_ok (parseLooseValue (op_value_text o));
  os_conditions : Forall condition_saves (op_conditions o);
}.

(** The operation with the value texts that the editor shows of its saved
    values. *)
Definition shown_operation (o : ParamOverrideOperation) : ParamOverrideOperation :=
  Operation (op_id o) (op_description o) (op_path o) (op_mode o) (op_from o) (op_to o) (shown_again (op_value_text o))
    (op_keep_origin o) (op_logic o) (map shown_condition (op_conditions o)).

(** No value text is a quoted JSON string. *)
Definition operation_plain (o : ParamOverrideOperation) : Prop :=
  plain_text (op_value_text o) ∧ Forall (λ c, plain_text (c_value_text c)) (op_conditions o).

Lemma shown_plain o : operation_plain o → operation_payload (shown_operation o) = operation_payload o.
Proof.
  intros [Hv Hc]. rewrite !payload_parts. unfold shown_operation, saved_logic, saved_mode.
  cbn [op_description op_path op_mode op_from op_to op_value_text op_keep_origin op_logic op_conditions].
  rewrite shown_value by done. f_equal. induction Hc as [|c cs Hc _ IH]; [done|]. cbn [omap list_omap map].
  assert (buildConditionPayload (shown_condition c) = buildConditionPayload c) as ->; [|by rewrite IH].
  rewrite !build_condition. unfold shown_condition.
  cbn [c_path c_mode c_value_text c_invert c_pass_missing_key]. by rewrite shown_value.
Qed.

Lemma prop_conditions logic ps o :
  prop (js "conditions") (condition_part logic ps o)
  = if (0 <? length ps)%nat then VArr (map VObj ps) else prop (js "conditions") o.
Proof. unfold condition_part. rewrite prop_payload_ne by reflexivity. apply prop_payload_set. Qed.

Lemma prop_logic logic ps o :
  prop (js "logic") (condition_part logic ps o)
  = if (0 <? length ps)%nat then VStr logic else prop (js "logic") o.
Proof. unfold condition_part. rewrite prop_payload_set. by rewrite prop_payload_ne. Qed.

Lemma prop_condition_part k logic ps o :
  str_eqb k (js "logic") = false → str_eqb k (js "conditions") = false →
  prop k (condition_part logic ps o) = prop k o.
Proof. intros. unfold condition_part. by rewrite !prop_payload_ne. Qed.

Lemma full_no_conditions meta mode des path v keep from to :
  prop (js "conditions") (full_members meta mode des path v keep from to) = VUndef ∧
  prop (js "logic") (full_members meta mode des path v keep from to) = VUndef.
Proof.
  unfold full_members. rewrite !prop_alias by reflexivity. unfold main_members. by skip_members.
Qed.

Lemma logic_back o : ∃ t, string_or (js "OR") (VStr (saved_logic o)) = Ok t ∧
  (if str_eqb (to_upper t) (js "AND") then js "AND" else js "OR") = saved_logic o.
Proof.
  exists (saved_logic o). unfold saved_logic.
  destruct (str_eqb (op_logic o) _); (split; [reflexivity|]); (rewrite to_upper_ascii; [reflexivity|concrete]).
Qed.

Lemma no_logic_back : ∃ t, string_or (js "OR") VUndef = Ok t.
Proof. by exists (js "OR"). Qed.

Lemma saved_logic_idem id des path mode from to val keep o cs :
  saved_logic (Operation id des path mode from to val keep (saved_logic o) cs) = saved_logic o.
Proof. unfold saved_logic. cbn [op_logic]. by destruct (str_eqb (op_logic o) _). Qed.

(** The operation [o'] that [o] is read back as. *)
Record reopened (o o' : ParamOverrideOperation) : Prop := {
  ro_mode : op_mode o' = op_mode o;
  ro_description : op_description o' = trim (op_description o);
  ro_path : op_path o' = back_path (meta_of (op_mode o)) (trim (op_path o));
  ro_from : op_from o' = back_from (meta_of (op_mode o)) (trim (op_path o)) (trim (op_from o));
  ro_to : op_to o' = back_to (meta_of (op_mode o)) (trim (op_path o)) (trim (op_to o));
  ro_value : op_value_text o' = if m_value (meta_of (op_mode o)) then shown_again (op_value_text o) else [];
  ro_keep : op_keep_origin o' = m_keepOrigin (meta_of (op_mode o)) && op_keep_origin o;
  ro_conditions : omap buildConditionPayload (op_conditions o') =
    omap buildConditionPayload (map shown_condition (op_conditions o));
  ro_logic : omap buildConditionPayload (op_conditions o) ≠ [] → saved_logic o' = saved_logic o;
}.

Lemma saved_mode_eq o : op_mode o ∈ OPERATION_MODE_VALUES → saved_mode o = op_mode o.
Proof. intros Hm. by destruct (table_mode _ _ operation_modes_ok Hm) as (? & _). Qed.

Lemma conditions_read o ps seed :
  Forall condition_saves (op_conditions o) → ps = omap buildConditionPayload (op_conditions o) →
  ∃ cs n t, match (if (0 <? length ps)%nat then VArr (map VObj ps) else VUndef) with
            | VArr l => map_seed (normalizeOverrideCondition clock) l seed
            | _ => Ok ([], seed)
            end = Ok (cs, n) ∧
    omap buildConditionPayload cs = omap buildConditionPayload (map shown_condition (op_conditions o)) ∧
    string_or (js "OR") (if (0 <? length ps)%nat then VStr (saved_logic o) else VUndef) = Ok t ∧
    (ps ≠ [] → (if str_eqb (to_upper t) (js "AND") then js "AND" else js "OR") = saved_logic o).
Proof.
  intros Hc ->. destruct (override_conditions_back _ seed Hc) as (_ & cs & n & Es & Ec).
  destruct (omap buildConditionPayload (op_conditions o)) as [|p ps] eqn:E.
  - destruct no_logic_back as [t Ht]. rewrite shown_conditions_nil by done. by exists [], seed, t.
  - destruct (logic_back o) as (t & Ht & El). by exists cs, n, t.
Qed.

Lemma operation_reads o seed :
  operation_saves o →
  ∃ o' n, normalizeOperation clock (VObj (operation_payload o)) seed = Ok (o', n) ∧ reopened o o'.
Proof.
  intros []. pose proof (saved_mode_eq o os_mode0) as Em. pose proof (meta_of_sane _ os_mode0) as Hs.
  destruct (table_mode _ _ operation_modes_ok os_mode0) as (_ & _ & _ & Eo).
  destruct (conditions_read o _ (seed + 1) os_conditions0 eq_refl) as (cs & n & t & Ec & Eb & Et & El).
  unfold normalizeOperation. rewrite payload_parts, Em.
  set (ps := omap buildConditionPayload (op_conditions o)) in *.
  cbn [default_empty get_member mbind exc_bind].
  rewrite prop_logic, prop_conditions, !prop_condition_part by reflexivity.
  fold (full_members (meta_of (op_mode o)) (op_mode o) (trim (op_description o)) (trim (op_path o))
         (parseLooseValue (op_value_text o)) (op_keep_origin o) (trim (op_from o)) (trim (op_to o))).
  destruct (full_no_conditions (meta_of (op_mode o)) (op_mode o) (trim (op_description o)) (trim (op_path o))
    (parseLooseValue (op_value_text o)) (op_keep_origin o) (trim (op_from o)) (trim (op_to o))) as [-> ->].
  rewrite Et. cbn [mbind exc_bind]. rewrite Ec. cbn [mbind exc_bind fst snd]. eexists _, _. split; [reflexivity|].
  unfold full_members. rewrite main_mode, main_description, main_path, main_value, main_keep, full_from, full_to, Eo by done.
  split; try done.
  - cbn [op_value_text]. by destruct (m_value _).
  - intros Hne. rewrite (El Hne). apply saved_logic_idem.
Qed.

Lemma back_trim meta x y z :
  trim (back_path meta (trim x)) = back_path meta (trim x) ∧
  trim (back_from meta (trim x) (trim y)) = back_from meta (trim x) (trim y) ∧
  trim (back_to meta (trim x) (trim z)) = back_to meta (trim x) (trim z).
Proof.
  unfold back_path, back_from, back_to, str_or.
  destruct (_ || _), (m_pathAlias meta), (m_from meta), (truthy (trim y)), (truthy (trim z));
    by rewrite ?trim_idemp, ?trim_nil.
Qed.

Lemma reopened_payload o o' :
  operation_saves o → reopened o o' → operation_payload o' = operation_payload (shown_operation o).
Proof.
  intros [] []. assert (saved_mode o' = op_mode o) as Em by (rewrite saved_mode_eq; by rewrite ro_mode0).
  rewrite !payload_parts, ro_conditions0, Em, ro_description0, ro_path0, ro_from0, ro_to0, ro_keep0, trim_idemp by done.
  destruct (back_trim (meta_of (op_mode o)) (op_path o) (op_from o) (op_to o)) as (-> & -> & ->).
  change (saved_mode (shown_operation o)) with (saved_mode o). change (saved_logic (shown_operation o)) with (saved_logic o).
  cbn [shown_operation op_description op_path op_from op_to op_value_text op_keep_origin op_conditions].
  rewrite (saved_mode_eq o) by done.
  match goal with |- condition_part _ _ ?a = condition_part _ _ ?b => assert (a = b) as -> end.
  - apply full_again; [by apply meta_of_sane|]. rewrite ro_value0. by intros ->.
  - destruct (omap buildConditionPayload (op_conditions o)) eqn:E; [by rewrite shown_conditions_nil|]. by rewrite ro_logic0.
Qed.

(** ** Checks *)

(** What a mode requires is what its payload has. *)
Definition required_sane (m : jsstr) : bool :=
  (negb (includes m FROM_REQUIRED_MODES) || m_from (meta_of m))
  && (negb (includes m TO_REQUIRED_MODES) || m_to (meta_of m))
  && (negb (includes m VALUE_REQUIRED_MODES) || m_value (meta_of m)).

Lemma required_table : forallb required_sane OPERATION_MODE_VALUES = true.
Proof. vm_compute. reflexivity. Qed.

Lemma mode_required m :
  m ∈ OPERATION_MODE_VALUES →
  (includes m FROM_REQUIRED_MODES = true → m_from (meta_of m) = true) ∧
  (includes m TO_REQUIRED_MODES = true → m_to (meta_of m) = true) ∧
  (includes m VALUE_REQUIRED_MODES = true → m_value (meta_of m) = true).
Proof.
  intros Hm. pose proof required_table as Ht. rewrite forallb_forall in Ht.
  specialize (Ht m (proj1 (list_elem_of_In _ _) Hm)). unfold required_sane in Ht.
  destruct (includes m FROM_REQUIRED_MODES), (includes m TO_REQUIRED_MODES), (includes m VALUE_REQUIRED_MODES),
    (m_from (meta_of m)), (m_to (meta_of m)), (m_value (meta_of m)); done.
Qed.

Lemma loose_trim text : parseLooseValue (trim text) = parseLooseValue text.
Proof. unfold parseLooseValue. by rewrite trim_idemp. Qed.

(** The parts of a check that passed. *)
Record checked (meta : ModeMeta) (mode path from to raw : jsstr) : Prop := {
  ck_path : m_path meta && negb (truthy path) = false;
  ck_from : includes mode FROM_REQUIRED_MODES && negb (truthy from) && negb (m_pathAlias meta && truthy path) = false;
  ck_to : includes mode TO_REQUIRED_MODES && negb (truthy to) && negb (m_pathAlias meta && truthy path) = false;
  ck_value : includes mode VALUE_REQUIRED_MODES && negb (truthy raw) = false;
  ck_message : str_eqb mode (js "return_error") && message_missing raw = false;
  ck_headers : str_eqb mode (js "pass_headers") = true →
    ∃ h hs, parsePassHeaderNames (parseLooseValue raw) = Ok (h :: hs);
}.

Lemma validate_checked i o :
  validate_operation i o = None ↔
  checked (meta_of (saved_mode o)) (saved_mode o) (trim (op_path o)) (trim (op_from o)) (trim (op_to o))
    (trim (op_value_text o)).
Proof.
  unfold validate_operation. fold (saved_mode o). rewrite str_eqb_nil. split.
  - destruct (_ && negb (truthy (trim (op_path o)))) eqn:E1; [done|]. destruct (_ && _ && _) eqn:E2; [done|].
    destruct (includes _ TO_REQUIRED_MODES && _ && _) eqn:E3; [done|].
    destruct (includes _ VALUE_REQUIRED_MODES && _) eqn:E4; [done|].
    destruct (str_eqb _ _ && message_missing _) eqn:E5; [done|]. intros E. split; try done.
    intros E6. rewrite E6 in E. destruct (parsePassHeaderNames _) as [[|h hs]| |]; try done. by exists h, hs.
  - intros []. rewrite ck_path0, ck_from0, ck_to0, ck_value0, ck_message0.
    destruct (str_eqb _ (js "pass_headers")); [|done]. by destruct ck_headers0 as (h & hs & ->).
Qed.

Lemma required_values m :
  str_eqb m (js "return_error") = true ∨ str_eqb m (js "pass_headers") = true →
  includes m VALUE_REQUIRED_MODES = true.
Proof. intros [->%bool_decide_eq_true| ->%bool_decide_eq_true]; vm_compute; reflexivity. Qed.

Lemma reopened_text o o' :
  operation_saves o → operation_plain o → reopened o o' → includes (op_mode o) VALUE_REQUIRED_MODES = true →
  trim (op_value_text o') = shown_again (op_value_text o).
Proof.
  intros [] [Hp _] [] Hr. destruct (mode_required _ os_mode0) as (_ & _ & Hv). rewrite ro_value0, (Hv Hr).
  by apply shown_trim.
Qed.

Lemma reopened_checked i j o o' :
  operation_saves o → operation_plain o → reopened o o' → validate_operation i o = None →
  validate_operation j o' = None.
Proof.
  intros Hs Hpl Hr. pose proof Hpl as [Hval _]. rewrite !validate_checked. pose proof Hs as []. pose proof Hr as [].
  assert (saved_mode o' = op_mode o) as -> by (rewrite saved_mode_eq; by rewrite ro_mode0).
  rewrite (saved_mode_eq o) by done. destruct (mode_required _ os_mode0) as (Hf & _ & _).
  pose proof (meta_of_sane _ os_mode0) as Hm. pose proof (reopened_text o o' Hs Hpl Hr) as Ht.
  rewrite ro_path0, ro_from0, ro_to0. unfold meta_sane in Hm.
  destruct (back_trim (meta_of (op_mode o)) (op_path o) (op_from o) (op_to o)) as (-> & -> & ->).
  unfold back_path, back_from, back_to, str_or. intros []. split.
  - destruct (m_path _), (m_pathOptional _); done.
  - destruct (includes _ FROM_REQUIRED_MODES); [|done]. rewrite (Hf eq_refl).
    destruct (m_pathAlias _), (truthy (trim (op_from o))) eqn:E1, (truthy (trim (op_path o))) eqn:E2; rewrite ?E1, ?E2; done.
  - destruct (includes _ TO_REQUIRED_MODES); [|done].
    destruct (m_pathAlias _), (truthy (trim (op_to o))) eqn:E1, (truthy (trim (op_path o))) eqn:E2; rewrite ?E1, ?E2; done.
  - destruct (includes _ VALUE_REQUIRED_MODES); [|done]. by rewrite Ht, shown_truthy.
  - destruct (str_eqb _ (js "return_error")) eqn:E; [|done]. cbn [andb] in *. rewrite Ht by (apply required_values; by left).
    unfold message_missing. by rewrite shown_parse.
  - intros E. rewrite Ht by (apply required_values; by right). rewrite shown_value, <- loose_trim by done. by apply ck_headers0.
Qed.

Lemma checked_not_blank i o o' :
  operation_saves o → operation_plain o → reopened o o' → validate_operation i o = None →
  isOperationBlank o' = false.
Proof.
  intros Hs Hpl Hr Hv. pose proof (reopened_checked i i o o' Hs Hpl Hr Hv) as [Hp _ _ _ _ _]%validate_checked.
  unfold isOperationBlank. destruct (str_eqb (op_mode o') (js "set")) eqn:E; [|done].
  apply bool_decide_eq_true in E. unfold saved_mode in Hp. rewrite E in Hp.
  change (m_path (meta_of (str_or (js "set") (js "set")))) with true in Hp.
  by destruct (truthy (trim (op_path o'))).
Qed.

(** ** Texts *)

Lemma members_single k v : unitsb k = true → json_ok v → members_ok [(k, v)].
Proof.
  intros Hk Hv k' v'. rewrite list_elem_of_singleton. intros [= -> ->]. split; [by apply unitsb_ok|done].
Qed.

Lemma payload_json_ok o : operation_saves o → json_ok (VObj (operation_payload o)).
Proof.
  intros Hs. pose proof Hs as []. rewrite payload_parts. unfold condition_part, alias_members, main_members.
  destruct (override_conditions_back _ 0 os_conditions0) as (Hc & _).
  destruct (table_mode _ _ operation_modes_ok os_mode0) as (_ & _ & Hm & _). rewrite <- (saved_mode_eq o) in Hm by done.
  apply members_json_ok.
  - do 12 (apply wf_payload_set). apply wf_decide. vm_compute. reflexivity.
  - assert (units_ok (saved_logic o)) as Hl by (unfold saved_logic; destruct (str_eqb _ _); by apply unitsb_ok).
    repeat (apply members_payload_set; [vm_compute; reflexivity|intros _; first
      [exact Hl|exact Hc|exact os_value0|exact I|by apply (trim_units (op_path o))|by apply (trim_units (op_from o))
      |by apply (trim_units (op_to o))|by apply (trim_units (op_description o))]|]).
    by apply members_single.
Qed.

Lemma operations_json_ok ops : Forall operation_saves ops → json_ok (operations_value ops).
Proof.
  intros Ha. apply members_json_ok; [apply wf_decide; vm_compute; reflexivity|].
  apply members_single; [vm_compute; reflexivity|].
  induction Ha as [|o ops Ho _ IH]; [done|]. split; [by apply payload_json_ok|exact IH].
Qed.

Lemma stringify2_braces o s : stringify2 (VObj o) = Some s → ∃ x, s = 123 :: x ++ [125].
Proof.
  unfold stringify2. cbn [stringify_at].
  destruct ((fix go (o : obj) : list jsstr := _) o) as [|m ms]; intros E%(inj Some); subst s; [by exists []|].
  set (a := line _). set (b := join _ _). exists (a ++ b ++ line []). by rewrite <- !app_assoc.
Qed.

Lemma print_operations ops :
  Forall operation_saves ops →
  let text := print (operations_value ops) in
  trim text = text ∧ truthy text = true ∧ json_parse text = Some (operations_value ops).
Proof.
  intros Ha. destruct (json_parse_stringify2 _ (operations_json_ok ops Ha)) as (s & Es & Hr).
  unfold print. rewrite Es. cbn [from_opt]. destruct (stringify2_braces _ _ Es) as [x ->].
  split; [by apply trim_ends|]. split; [done|]. by apply reads_parse.
Qed.

Lemma operations_read ops seed :
  Forall operation_saves ops →
  ∃ ops' n, map_seed (normalizeOperation clock) (map (λ o, VObj (operation_payload o)) ops) seed = Ok (ops', n) ∧
            Forall2 reopened ops ops'.
Proof.
  intros Ha. revert seed. induction Ha as [|o ops Ho _ IH]; intros seed; [by exists [], seed|].
  destruct (operation_reads o seed Ho) as (o' & m & En & Hr). destruct (IH m) as (ops' & n & Es & Hrs).
  exists (o' :: ops'), n. split; [|by constructor].
  cbn [map map_seed mbind exc_bind]. rewrite En. cbn [mbind exc_bind fst snd]. by rewrite Es.
Qed.

Lemma validate_from_all i ops : validate_from i ops = None → Forall (λ o, ∃ j, validate_operation j o = None) ops.
Proof.
  revert i. induction ops as [|o ops IH]; intros i; [constructor|]. cbn [validate_from].
  destruct (validate_operation (S i) o) eqn:E; [done|]. intros Hv. constructor; [by exists (S i)|by apply (IH (S i))].
Qed.

Lemma validate_from_none i ops : Forall (λ o, ∀ j, validate_operation j o = None) ops → validate_from i ops = None.
Proof. intros Ha. revert i. induction Ha as [|o ops Ho _ IH]; intros i; [done|]. cbn [validate_from]. by rewrite Ho. Qed.

(** The operations that are saved. *)
Definition kept_operations (ops : list ParamOverrideOperation) : list ParamOverrideOperation :=
  filterb (λ o, negb (isOperationBlank o)) ops.

Lemma build_checked ops text :
  buildOperationsJson ops true = inr text → text ≠ [] →
  kept_operations ops ≠ [] ∧ validateOperations (kept_operations ops) = None ∧
  text = print (operations_value (kept_operations ops)).
Proof.
  unfold buildOperationsJson. fold (kept_operations ops). destruct (kept_operations ops) as [|o l] eqn:E.
  - by intros [= <-].
  - destruct (validateOperations _) eqn:Ev; [done|]. by intros [= <-].
Qed.

Lemma payloads_again ops ops' :
  Forall operation_saves ops → Forall2 reopened ops ops' →
  map operation_payload ops' = map operation_payload (map shown_operation ops).
Proof.
  intros Ha Hr. induction Hr as [|o o' ops ops' Ho _ IH]; [done|]. apply Forall_cons in Ha as [Hs Ha].
  cbn [map]. rewrite IH by done. by rewrite (reopened_payload o o').
Qed.

Lemma payloads_plain ops :
  Forall operation_plain ops → map operation_payload (map shown_operation ops) = map operation_payload ops.
Proof. induction 1 as [|o ops Ho _ IH]; [done|]. cbn [map]. by rewrite shown_plain, IH. Qed.

Lemma build_again ops ops' :
  Forall operation_saves ops → Forall operation_plain ops → Forall2 reopened ops ops' → ops ≠ [] →
  validateOperations ops = None → buildOperationsJson ops' true = inr (print (operations_value ops)).
Proof.
  intros Ha Hpl Hr Hne Hv%validate_from_all. pose proof (payloads_again ops ops' Ha Hr) as Ep.
  rewrite payloads_plain in Ep by done.
  assert (Forall (λ o, isOperationBlank o = false ∧ ∀ j, validate_operation j o = None) ops') as Hc.
  { clear Ep Hne. induction Hr as [|o o' ops ops' Ho _ IH]; [done|].
    apply Forall_cons in Ha as [Hs Ha], Hpl as [Hp Hpl], Hv as [[i Hi] Hv]. constructor; [|by apply IH].
    split; [by apply (checked_not_blank i o)|]. intros j. by apply (reopened_checked i j o). }
  unfold buildOperationsJson. rewrite filterb_all.
  2: { intros o Ho. rewrite Forall_forall in Hc. by destruct (Hc o Ho) as [-> _]. }
  assert (operations_value ops' = operations_value ops) as ->.
  { unfold operations_value. do 4 f_equal. rewrite <- !(map_map operation_payload VObj). by rewrite Ep. }
  destruct ops' as [|o' ops']; [by inversion Hr; subst|]. unfold validateOperations.
  rewrite validate_from_none; [done|]. eapply Forall_impl; [exact Hc|]. by intros ? [].
Qed.

End Reopen.

(** ** Complete payloads *)

Definition nonempty_at (k : jsstr) (p : obj) : Prop := ∃ s, prop k p = VStr s ∧ s ≠ [].

(** The value that a text spells: its JSON value, or else the text itself. *)
Definition spells (text : jsstr) (v : value) : Prop :=
  json_parse text = Some v ∨ (json_parse text = None ∧ v = VStr text).

(** What the relay needs of the payload [p] of the operation [o]. *)
Record complete_payload (o : ParamOverrideOperation) (p : obj) : Prop := {
  cp_mode : prop (js "mode") p ∈ map VStr OPERATION_MODE_VALUES;
  cp_path : ∀ m, prop (js "mode") p = VStr m → m_path (meta_of m) = true → nonempty_at (js "path") p;
  cp_from : ∀ m, prop (js "mode") p = VStr m → m ∈ FROM_REQUIRED_MODES → nonempty_at (js "from") p;
  cp_to : ∀ m, prop (js "mode") p = VStr m → m ∈ TO_REQUIRED_MODES → nonempty_at (js "to") p;
  cp_value : ∀ m, prop (js "mode") p = VStr m → m ∈ VALUE_REQUIRED_MODES →
    trim (op_value_text o) ≠ [] ∧ spells (trim (op_value_text o)) (prop (js "value") p);
  cp_message : prop (js "mode") p = VStr (js "return_error") →
    ∀ e s, prop (js "value") p = VObj e → string_or [] (prop (js "message") e) = Ok s → trim s ≠ [];
  cp_headers : prop (js "mode") p = VStr (js "pass_headers") →
    ∃ h hs, parsePassHeaderNames (prop (js "value") p) = Ok (h :: hs);
}.

Lemma loose_spells text : trim text ≠ [] → spells (trim text) (parseLooseValue text).
Proof.
  intros Hne. unfold spells, parseLooseValue. rewrite str_eqb_nil. destruct (trim text) as [|c t]; [done|]. cbn [truthy negb].
  destruct (json_parse (c :: t)); auto.
Qed.

Lemma message_present text e s :
  message_missing (trim text) = false → parseLooseValue text = VObj e → string_or [] (prop (js "message") e) = Ok s →
  trim s ≠ [].
Proof.
  unfold message_missing, parseLooseValue. destruct (str_eqb (trim text) []); [done|].
  destruct (json_parse (trim text)); [|done]. intros Hm -> E Es. by rewrite E, Es in Hm.
Qed.

Lemma member_text_at k p s : string_or_empty (prop k p) = s → s ≠ [] → nonempty_at k p.
Proof. intros E Hs. exists s. split; [|done]. destruct (prop k p); cbn in E; by subst. Qed.

Lemma truthy_or (s t : jsstr) : truthy s = true ∨ truthy t = true → str_or s t ≠ [].
Proof. unfold str_or. destruct s; [|done]. intros [?|?]; [done|]. by destruct t. Qed.

Lemma payload_complete i o :
  op_mode o ∈ OPERATION_MODE_VALUES → validate_operation i o = None → complete_payload o (operation_payload o).
Proof.
  intros Hmode [Hp Hf Ht Hv He Hh]%validate_checked. rewrite (saved_mode_eq o) in * by done.
  pose proof (meta_of_sane _ Hmode) as Hs. destruct (mode_required _ Hmode) as (Rf & Rt & Rv).
  rewrite payload_parts, (saved_mode_eq o) by done.
  assert (∀ k, str_eqb k (js "logic") = false → str_eqb k (js "conditions") = false → ∀ l ps x,
    prop k (condition_part l ps x) = prop k x) as Hk by (intros; by apply prop_condition_part).
  split; unfold nonempty_at; rewrite ?Hk by reflexivity; rewrite main_mode.
  - by apply list_elem_of_fmap_2.
  - intros m [= <-] Hm. rewrite Hm in Hp. eapply member_text_at; [apply main_path|]. unfold back_path. rewrite Hm.
    cbn [orb]. by destruct (trim (op_path o)).
  - intros m [= <-] Hm%includes_elem. rewrite Hm in Hf. specialize (Rf Hm).
    eapply member_text_at; [by apply full_from|]. unfold back_from. rewrite Rf.
    destruct (m_pathAlias _); [apply truthy_or|destruct (trim (op_from o)); [|done]];
      destruct (truthy (trim (op_from o))), (truthy (trim (op_path o))); auto; done.
  - intros m [= <-] Hm%includes_elem. rewrite Hm in Ht.
    eapply member_text_at; [by apply full_to|]. unfold back_to.
    destruct (m_pathAlias _); [apply truthy_or|destruct (trim (op_to o)); [|done]];
      destruct (truthy (trim (op_to o))), (truthy (trim (op_path o))); auto; done.
  - intros m [= <-] Hm%includes_elem. rewrite Hm in Hv. rewrite main_value, (Rv Hm).
    assert (trim (op_value_text o) ≠ []) as Hne by (by destruct (trim (op_value_text o))). split; [done|by apply loose_spells].
  - intros [= Hm] e s. rewrite main_value, Rv by (rewrite Hm; vm_compute; reflexivity).
    apply message_present. rewrite Hm in He. by rewrite str_eqb_refl in He.
  - intros [= Hm]. rewrite main_value, Rv by (rewrite Hm; vm_compute; reflexivity). rewrite <- loose_trim.
    apply Hh. rewrite Hm. vm_compute. reflexivity.
Qed.

(** ** Rules of prune_objects *)

Section Prune.
Context `{UpperMap}.
Context (clock : N → N).

(** All identifiers are [seed] or later. *)
Definition later (seed : N) (rules : list PruneRule) : Prop :=
  Forall (λ r, ∃ k, seed ≤ k ∧ c_id r = nextLocalId clock k) rules.

Lemma parse_prune_later text seed : later seed (pd_rules (parsePruneObjectsDraft clock text seed).1).
Proof.
  unfold parsePruneObjectsDraft. destruct (negb _); [constructor|]. destruct (json_parse _) as [[| | | | | |o]|];
    try constructor; try (by destruct (string_of _); constructor).
  assert (later seed (read_rules clock o seed).1) as Hl.
  { unfold read_rules. destruct (map_seed _ _ seed) as [[r n]| |] eqn:E; [|constructor..].
    apply (map_seed_made clock c_id (condition_wf clock)) in E; [|apply condition_wf_mono|apply normalize_condition_wf].
    destruct E as [_ _ _ Hn]. eapply Forall_impl; [exact Hn|]. intros r' (k & Hk & Ek). exists k. split; [lia|done]. }
  destruct (read_rules clock o seed) as [rules seed1]. cbn [fst] in *.
  destruct (read_prune o rules) as [d| |] eqn:E; [|constructor..]. unfold read_prune in E.
  do 2 (apply exc_bind_Ok in E as (? & _ & E)). by injection E as <-.
Qed.

Lemma later_old seed rules rid :
  later seed rules → given clock seed rid → Forall (λ r, str_eqb (c_id r) rid = false) rules.
Proof.
  intros Hl (j & Hj & ->). eapply Forall_impl; [exact Hl|]. intros r (k & Hk & ->). apply bool_decide_eq_false.
  intros E%local_id_inj. lia.
Qed.

Lemma prune_at_ext id f g ops seed :
  (∀ d s, s ≤ (g d s).2) →
  (∀ text s, seed ≤ s → let r := parsePruneObjectsDraft clock text s in f r.1 r.2 = g r.1 r.2) →
  prune_at clock id f ops seed = prune_at clock id g ops seed.
Proof.
  intros Hg Hfg. assert (∀ s, seed ≤ s → prune_at clock id f ops s = prune_at clock id g ops s) as Hp; [|by apply Hp].
  induction ops as [|o ops IH]; intros s Hs; [done|]. cbn [prune_at]. destruct (str_eqb (op_id o) id).
  - unfold edit_prune. specialize (Hfg (op_value_text o) s Hs).
    pose proof (parse_prune_seed clock (op_value_text o) s) as Hq.
    destruct (parsePruneObjectsDraft clock (op_value_text o) s) as [d s1]. cbn [fst snd] in *. rewrite Hfg.
    specialize (Hg d s1). destruct (g d s1) as [d2 s2]. cbn [snd] in *. by rewrite IH by lia.
  - by rewrite IH.
Qed.

(** The draft as it is. *)
Definition same_draft (draft : PruneObjectsDraft) (seed : N) : PruneObjectsDraft * N := (draft, seed).

Lemma patch_none rid p rules : Forall (λ r, str_eqb (c_id r) rid = false) rules → patch_at rid p rules = rules.
Proof. induction 1 as [|r rules E _ IH]; [done|]. cbn. rewrite E. by f_equal. Qed.

Lemma remove_none rid rules : Forall (λ r, str_eqb (c_id r) rid = false) rules → remove_at rid rules = rules.
Proof. induction 1 as [|r rules E _ IH]; [done|]. cbn. rewrite E. cbn. by f_equal. Qed.

Lemma with_rules_same d : with_rules (pd_rules d) d = d.
Proof. by destruct d. Qed.

End Prune.

(** ** Properties *)

(** C18. Saving and opening again: the text that passes the checks and is
    saved opens in the visual editor with the saved operations, aliased headers
    included, in which every value text is what the editor shows of the saved
    value (of a string its bare text).  When no value text is a quoted JSON
    string the payloads are those that were saved, they pass the checks again
    and the same text is saved.  The modes are those of the selects and the
    values are ones that JSON prints and reads back. *)
Theorem override_reopen `{UpperMap} clock ops text seed :
  Forall operation_saves (kept_operations ops) → buildOperationsJson ops true = inr text → text ≠ [] →
  ∃ s n, parseInitialState clock text seed = Ok (s, n) ∧
    editMode s = VisualEdit ∧ visualMode s = OperationsMode ∧ jsonText s = text ∧
    map operation_payload (operations s) = map operation_payload (map shown_operation (kept_operations ops)) ∧
    (Forall operation_plain (kept_operations ops) →
     map operation_payload (operations s) = map operation_payload (kept_operations ops) ∧ handleSave s = inr text).
Proof.
  intros Ha Hb Hne. destruct (build_checked ops text Hb Hne) as (Hk & Hv & ->).
  destruct (print_operations clock _ Ha) as (Et & Ht & Ep). destruct (operations_read clock _ seed Ha) as (ops' & n & Er & Hr).
  pose proof (payloads_again _ _ Ha Hr) as Epay.
  unfold parseInitialState. cbn [createDefaultOperation]. rewrite Et, Ht. cbn [negb]. rewrite Ep.
  unfold operations_value at 1. change (prop (js "operations") _)
    with (VArr (map (λ op, VObj (operation_payload op)) (kept_operations ops))).
  assert (read_operations clock (map (λ op, VObj (operation_payload op)) (kept_operations ops)) seed = Ok (ops', n)) as E.
  { rewrite <- Er. by destruct (kept_operations ops). }
  unfold operations_value at 1. rewrite E.
  exists (State VisualEdit OperationsMode [] ops' (print (operations_value (kept_operations ops))) []), n.
  split_and!; try done. intros Hpl. split; [|by apply (build_again _ _ Ha Hpl Hr)].
  rewrite <- (payloads_plain _ Hpl). exact Epay.
Qed.


(** C21. The rules of prune_objects cannot be edited one by one: every handler
    reads the value text again, which gives the rules new identifiers, so
    updating or removing a rule that was displayed leaves the rules as they
    are, and the empty rule that is added is not written into the text. *)
Theorem prune_rule_edits_lost `{UpperMap} clock id rid p d :
  given clock (d_seed d) rid →
  updatePruneRule clock id rid p d = updatePruneObjectsDraft clock id same_draft d ∧
  removePruneRule clock id rid d = updatePruneObjectsDraft clock id same_draft d ∧
  ∀ text seed, (edit_prune clock (add_rule clock) text seed).1 =
    (edit_prune clock (λ r s, (PruneDraft false (pd_typeText r) (pd_logic r) (pd_recursive r) (pd_rules r), s)) text seed).1.
Proof.
  intros Hg. unfold updatePruneRule, removePruneRule, updatePruneObjectsDraft.
  assert (∀ text s, d_seed d ≤ s →
    Forall (λ r, str_eqb (c_id r) rid = false) (pd_rules (parsePruneObjectsDraft clock text s).1)) as Hn.
  { intros text s Hs. apply (later_old clock s); [apply parse_prune_later|by eapply given_mono]. }
  split_and!.
  - rewrite (prune_at_ext clock id _ same_draft); [done|done|]. intros text s Hs. unfold update_rule, same_draft.
    by rewrite patch_none, with_rules_same by (by apply Hn).
  - rewrite (prune_at_ext clock id _ same_draft); [done|done|]. intros text s Hs. unfold remove_rule, same_draft.
    by rewrite remove_none, with_rules_same by (by apply Hn).
  - intros text seed. unfold edit_prune. destruct (parsePruneObjectsDraft clock text seed) as [r s].
    unfold add_rule. cbn [createDefaultCondition fst]. unfold buildPruneObjectsValueText.
    cbn [pd_simpleMode pd_typeText pd_logic pd_recursive pd_rules]. unfold filterb. rewrite List.filter_app.
    replace (List.filter _ [Condition _ _ _ _ _ _]) with (@nil PruneRule) by reflexivity. by rewrite app_nil_r.
Qed.

(** The document that sets the value of [path]. *)
Definition set_members (path : jsstr) (v : value) : obj :=
  [(js "mode", VStr (js "set")); (js "path", VStr path); (js "value", v)].
Definition set_document (path : jsstr) (v : value) : value :=
  VObj [(js "operations", VArr [VObj (set_members path v)])].

Lemma set_document_ok path v : units_ok path → json_ok v → json_ok (set_document path v).
Proof.
  intros Hu Hv.
  assert (units_ok (js "mode") ∧ units_ok (js "path") ∧ units_ok (js "value") ∧ units_ok (js "set"))
    as (H1 & H2 & H3 & H4) by (split_and!; by apply unitsb_ok).
  apply members_json_ok; [apply wf_decide; vm_compute; reflexivity|]. apply members_single; [vm_compute; reflexivity|].
  split; [|done]. apply members_json_ok; [apply wf_decide; vm_compute; reflexivity|].
  intros k w. unfold set_members. rewrite !elem_of_cons, elem_of_nil. intros Hin. by destruct_or! Hin; simplify_eq.
Qed.

Definition set_operation (id path text : jsstr) : ParamOverrideOperation :=
  Operation id [] path (js "set") [] [] text false (js "OR") [].

Lemma set_operation_read `{UpperMap} clock path v seed :
  normalizeOperation clock (VObj (set_members path v)) seed =
  Ok (set_operation (nextLocalId clock seed) path (toValueText v), seed + 1).
Proof.
  unfold normalizeOperation. cbn [default_empty get_member mbind exc_bind].
  change (prop (js "logic") (set_members path v)) with VUndef. cbn [string_or val_truthy mbind exc_bind].
  rewrite to_upper_ascii by concrete. reflexivity.
Qed.

Lemma set_operation_saved id path text :
  path ≠ [] → trim path = path →
  buildOperationsJson [set_operation id path text] true = inr (print (set_document path (parseLooseValue text))).
Proof.
  intros Hne Ht. assert (truthy path = true) as Hp by by destruct path. set (o := set_operation id path text).
  assert (isOperationBlank o = false) as Hb.
  { unfold isOperationBlank, o, set_operation. cbn [op_path op_mode]. rewrite Ht, Hp. by rewrite andb_false_r. }
  assert (validate_operation 1 o = None) as Hv.
  { apply validate_checked. unfold o, set_operation, saved_mode. cbn [op_path op_mode op_from op_to op_value_text].
    rewrite Ht. split; [rewrite Hp; apply andb_false_r|reflexivity..|]. intros E. by vm_compute in E. }
  unfold buildOperationsJson. cbn [filterb List.filter]. rewrite Hb. cbn [negb].
  unfold validateOperations. cbn [validate_from]. rewrite Hv. unfold operations_value. cbn [map].
  assert (operation_payload o = set_members path (parseLooseValue text)) as ->; [|reflexivity].
  unfold operation_payload, o, set_operation. cbn [op_path op_mode op_from op_to op_value_text op_description op_keep_origin op_conditions op_logic].
  rewrite Ht. generalize (parseLooseValue text). intros v. vm_compute. reflexivity.
Qed.

(** A string whose text is JSON changes its type: a document that sets a
    path to the string is opened and saved, unchanged by the user, as the
    document that sets the path to the parsed value. *)
Theorem string_value_retyped `{UpperMap} clock path s v seed :
  units_ok path → units_ok s → path ≠ [] → trim path = path → json_parse (trim s) = Some v →
  ∃ st n, parseInitialState clock (print (set_document path (VStr s))) seed = Ok (st, n) ∧
    handleSave st = inr (print (set_document path v)).
Proof.
  intros Hu Hs Hne Ht Hv. assert (json_ok (set_document path (VStr s))) as Hj by (by apply set_document_ok).
  destruct (json_parse_stringify2 _ Hj) as (text & Es & Hr). unfold print at 1. rewrite Es. cbn [from_opt].
  destruct (stringify2_braces _ _ Es) as [x Ex].
  assert (trim text = text) as Et by (rewrite Ex; by apply trim_ends).
  unfold parseInitialState. cbn [createDefaultOperation]. rewrite Et, (reads_parse _ _ Hr).
  assert (truthy text = true) as -> by (by rewrite Ex). cbn [negb]. unfold set_document at 1.
  change (prop (js "operations") _) with (VArr [VObj (set_members path (VStr s))]).
  cbn [read_operations map_seed mbind exc_bind]. rewrite set_operation_read. cbn [mbind exc_bind fst snd].
  eexists _, _. split; [reflexivity|]. unfold handleSave, buildVisualJson. cbn [editMode visualMode operations toValueText].
  rewrite set_operation_saved by done. unfold parseLooseValue. rewrite Hv, str_eqb_nil.
  by destruct (trim s).
Qed.

(** ** Examples *)

Definition sample_operations : list ParamOverrideOperation :=
  [Operation (js "a") [] (js "") (js "set") [] [] [] false (js "OR") [];
   Operation (js "b") [] (js " X-Id ") (js "copy_header") [] (js "X-To") [] true (js "AND")
     [Condition (js "c") (js "model") (js "prefix") (js "3") true false];
   Operation (js "d") (js "note") (js "n") (js "set") [] [] (jsq "{'x': [1, null]}") false (js "OR") []].

Lemma sample_texts : plain_text [] ∧ plain_text (js "3") ∧ plain_text (jsq "{'x': [1, null]}").
Proof.
  assert (∀ s, unitsb s = true → units_ok s) as Hu by apply unitsb_ok.
  split_and!; (split; [|intros s; vm_compute; discriminate]).
  - by apply Hu.
  - vm_compute. split; reflexivity.
  - apply members_json_ok; [apply wf_decide; vm_compute; reflexivity|].
    apply members_single; [vm_compute; reflexivity|]. vm_compute. split; [split; reflexivity|done].
Qed.

Lemma sample_plain : Forall operation_plain (kept_operations sample_operations).
Proof.
  destruct sample_texts as (H1 & H2 & H3).
  change (kept_operations sample_operations) with (tail sample_operations). by repeat constructor.
Qed.

Lemma sample_saves : Forall operation_saves (kept_operations sample_operations).
Proof.
  assert (∀ s, unitsb s = true → units_ok s) as Hu by apply unitsb_ok. destruct sample_texts as ([H1 _] & [H2 _] & [H3 _]).
  change (kept_operations sample_operations) with (tail sample_operations).
  repeat constructor; try (apply Hu; vm_compute; reflexivity); try concrete; done.
Qed.

Lemma override_reopen_witness :
  match buildOperationsJson sample_operations true with
  | inr text => ∃ s n, parseInitialState (λ _, 7) text 5 = Ok (s, n) ∧
      map operation_payload (operations s) = map operation_payload (kept_operations sample_operations) ∧
      handleSave s = inr text
  | inl _ => False
  end.
Proof.
  destruct (buildOperationsJson sample_operations true) as [e|text] eqn:E; [vm_compute in E; discriminate|].
  destruct (override_reopen (λ _, 7) sample_operations text 5 sample_saves E) as (s & n & H1 & _ & _ & _ & _ & H2).
  - intros ->. vm_compute in E. discriminate.
  - exists s, n. split; [exact H1|]. apply (H2 sample_plain).
Defined.


(** A dialog on an operation with two rules. *)
Definition prune_dialog : dialog :=
  Dialog (State VisualEdit OperationsMode []
            [Operation (nextLocalId (λ _, 7) 0) [] [] (js "prune_objects") [] []
               (jsq "{'conditions': [{'path': 'type', 'mode': 'full', 'value': 'a'}, {'path': 'id', 'mode': 'full', 'value': 'b'}]}")
               false (js "OR") []] [] [])
    (nextLocalId (λ _, 7) 0) (js "operations_default") [] [] Before 3.

Lemma prune_rule_edits_lost_witness :
  removePruneRule (λ _, 7) (nextLocalId (λ _, 7) 0) (nextLocalId (λ _, 7) 1) prune_dialog
  = updatePruneObjectsDraft (λ _, 7) (nextLocalId (λ _, 7) 0) same_draft prune_dialog ∧
  map op_value_text (operations (d_state
    (removePruneRule (λ _, 7) (nextLocalId (λ _, 7) 0) (nextLocalId (λ _, 7) 1) prune_dialog)))
  = [jsq "{'conditions':[{'path':'type','mode':'full','value':'a'},{'path':'id','mode':'full','value':'b'}]}"].
Proof.
  split; [|vm_compute; reflexivity].
  apply (prune_rule_edits_lost (λ _, 7) (nextLocalId (λ _, 7) 0) (nextLocalId (λ _, 7) 1) (PatchInvert true) prune_dialog).
  exists 1. split; [done|reflexivity].
Defined.

Lemma string_value_retyped_witness :
  ∃ st n, parseInitialState (λ _, 7) (print (set_document (js "stop") (VStr (js "4")))) 0 = Ok (st, n) ∧
    handleSave st = inr (print (set_document (js "stop") (VNum (of_Z 4)))).
Proof.
  apply (string_value_retyped (λ _, 7) (js "stop") (js "4")); [by apply unitsb_ok|by apply unitsb_ok|done|..];
    vm_compute; reflexivity.
Defined.
