(* ===== verification/Mp4.v ===== *)
(** * Reference media files

    Model of src/web/default/src/features/creation-center/video-reference-files.ts:
    the MIME type of a reference file from its name, and the MP4 reader that
    finds the [moov] box of a file and extracts codec and frame rate of the
    first complete video track.

    A file and a [DataView] are lists of bytes.  Reads outside a view throw
    ([Throw]); loops carry fuel ([Fuel] when it is too small), bounded by the
    number of bytes because every box is at least eight bytes long.  Offsets
    and sizes are integers: a 64-bit size is exact below 2^53 and rejected by
    [Number.isSafeInteger] above, and the sums compared with a limit are
    below 2^54.  The frame rate is a binary64 number, accumulated as the
    source does.  Reading the duration of a media element (a DOM event) is
    not modelled. *)
From S2P Require Import Prelude JsString JsNumber.

Open Scope Z_scope.

(** ** MIME types *)

Section Mime.
Context `{CaseMap}.

Record ReferenceFileLike := FileLike { name : jsstr; type_ : jsstr }.

Definition mime_table := list (jsstr * jsstr).
Definition mk_table (l : list (string * string)) : mime_table :=
  map (λ kv, (js kv.1, js kv.2)) l.

Definition IMAGE_MIME_BY_EXTENSION : mime_table :=
  mk_table [("avif", "image/avif"); ("gif", "image/gif"); ("jpeg", "image/jpeg");
            ("jpg", "image/jpeg"); ("png", "image/png"); ("webp", "image/webp")]%string.

Definition SEEDANCE_25_IMAGE_MIME_BY_EXTENSION : mime_table :=
  mk_table [("jpeg", "image/jpeg"); ("jpg", "image/jpeg"); ("png", "image/png");
            ("webp", "image/webp")]%string.

Definition VIDEO_MIME_BY_EXTENSION : mime_table := mk_table [("mp4", "video/mp4")]%string.

Definition AUDIO_MIME_BY_EXTENSION : mime_table :=
  mk_table [("mp3", "audio/mpeg"); ("wav", "audio/wav")]%string.

Definition MINIMAX_H3_AUDIO_MIME_BY_EXTENSION : mime_table :=
  AUDIO_MIME_BY_EXTENSION ++
  mk_table [("m4a", "audio/mp4"); ("aac", "audio/aac"); ("ogg", "audio/ogg");
            ("webm", "audio/webm")]%string.

Definition AUDIO_MIME_TYPES : list jsstr :=
  map js ["audio/mpeg"; "audio/mp3"; "audio/wav"; "audio/wave"; "audio/x-wav"]%string.

Definition MINIMAX_H3_AUDIO_MIME_TYPES : list jsstr :=
  AUDIO_MIME_TYPES ++
  map js ["audio/mp4"; "audio/x-m4a"; "audio/aac"; "audio/x-aac"; "audio/ogg";
          "application/ogg"; "audio/webm"]%string.

Inductive ReferenceAudioProfile := AudioDefault | AudioMinimaxH3.
Inductive ReferenceImageProfile := ImageDefault | ImageSeedance25.

(** What a lookup returns: a MIME string, the value inherited from
    [Object.prototype] (truthy, but not a string), or [undefined]. *)
Inductive mime := Mime (s : jsstr) | MimeInherited | NoMime.

Definition getReferenceMime (file : ReferenceFileLike) (table : mime_table)
    (mimeTypes : list jsstr) : mime :=
  let extension := to_lower (from_opt [] (last (split (js ".") (name file)))) in
  match (if truthy extension then table_get table extension else Missing) with
  | Own m => Mime m
  | Inherited => MimeInherited
  | Missing => if includes (type_ file) mimeTypes then Mime (type_ file) else NoMime
  end.

Definition getReferenceImageMime (file : ReferenceFileLike)
    (profile : ReferenceImageProfile) : mime :=
  let table := match profile with
               | ImageSeedance25 => SEEDANCE_25_IMAGE_MIME_BY_EXTENSION
               | ImageDefault => IMAGE_MIME_BY_EXTENSION
               end in
  getReferenceMime file table (map snd table).

Definition getReferenceVideoMime (file : ReferenceFileLike) : mime :=
  getReferenceMime file VIDEO_MIME_BY_EXTENSION (map snd VIDEO_MIME_BY_EXTENSION).

Definition getReferenceAudioMime (file : ReferenceFileLike)
    (profile : ReferenceAudioProfile) : mime :=
  match profile with
  | AudioMinimaxH3 =>
      getReferenceMime file MINIMAX_H3_AUDIO_MIME_BY_EXTENSION MINIMAX_H3_AUDIO_MIME_TYPES
  | AudioDefault => getReferenceMime file AUDIO_MIME_BY_EXTENSION AUDIO_MIME_TYPES
  end.

(** [!!mime]. *)
Definition has_mime (m : mime) : bool :=
  match m with Mime s => truthy s | MimeInherited => true | NoMime => false end.

Definition isReferenceImageFile file profile := has_mime (getReferenceImageMime file profile).
Definition isReferenceVideoFile file := has_mime (getReferenceVideoMime file).
Definition isReferenceAudioFile file profile := has_mime (getReferenceAudioMime file profile).
End Mime.

(** ** Byte views *)

Abbreviation view := (list N).

Definition byteLength (v : view) : Z := Z.of_nat (length v).

Definition getUint8 (v : view) (off : Z) : exc Z :=
  if off <? 0 then Throw
  else match v !! Z.to_nat off with Some b => Ok (Z.of_N b) | None => Throw end.

Definition getUint32 (v : view) (off : Z) : exc Z :=
  b0 ← getUint8 v off; b1 ← getUint8 v (off + 1);
  b2 ← getUint8 v (off + 2); b3 ← getUint8 v (off + 3);
  Ok (((b0 * 256 + b1) * 256 + b2) * 256 + b3).

Definition readFourCC (v : view) (offset : Z) : exc jsstr :=
  if (offset <? 0) || (byteLength v <? offset + 4) then Ok []
  else
    b0 ← getUint8 v offset; b1 ← getUint8 v (offset + 1);
    b2 ← getUint8 v (offset + 2); b3 ← getUint8 v (offset + 3);
    Ok (map Z.to_N [b0; b1; b2; b3]).

(** ** Boxes *)

Record Mp4Box := Box { box_type : jsstr; box_start : Z; contentStart : Z; box_end : Z }.

Definition isSafeInteger (z : Z) : bool := Z.abs z <=? MAX_SAFE_INTEGER.

Definition readMp4Box (v : view) (offset limit : Z) : exc (option Mp4Box) :=
  if (offset <? 0) || (limit <? offset + 8) || (byteLength v <? limit) then Ok None
  else
    size32 ← getUint32 v offset;
    type ← readFourCC v (offset + 4);
    let finish headerSize size :=
      if negb (truthy type) || negb (isSafeInteger size) || (size <? headerSize)
         || (limit <? offset + size)
      then Ok None
      else Ok (Some (Box type offset (offset + headerSize) (offset + size))) in
    if size32 =? 1 then
      if limit <? offset + 16 then Ok None
      else
        high ← getUint32 v (offset + 8);
        low ← getUint32 v (offset + 12);
        finish 16 (high * 2 ^ 32 + low)
    else if size32 =? 0 then finish 8 (limit - offset)
    else finish 8 size32.

Fixpoint children_loop (fuel : nat) (v : view) (pend offset : Z) : exc (list Mp4Box) :=
  match fuel with
  | O => Fuel
  | S fuel =>
      if offset + 8 <=? pend then
        child ← readMp4Box v offset pend;
        match child with
        | None => Ok []
        | Some child =>
            if box_end child <=? offset then Ok [child]
            else rest ← children_loop fuel v pend (box_end child); Ok (child :: rest)
        end
      else Ok []
  end.

Definition getMp4Children (v : view) (parent : Mp4Box) : exc (list Mp4Box) :=
  children_loop (S (length v)) v (box_end parent) (contentStart parent).

Definition getMp4Child (v : view) (parent : Mp4Box) (type : jsstr) : exc (option Mp4Box) :=
  children ← getMp4Children v parent;
  Ok (find_first (λ b, str_eqb (box_type b) type) children).

Definition getMp4TrackTimescale (v : view) (mdhd : Mp4Box) : exc (option Z) :=
  if box_end mdhd <? contentStart mdhd + 4 then Ok None
  else
    version ← getUint8 v (contentStart mdhd);
    let timescaleOffset := contentStart mdhd + (if version =? 1 then 20 else 12) in
    if box_end mdhd <? timescaleOffset + 4 then Ok None
    else
      timescale ← getUint32 v timescaleOffset;
      Ok (if 0 <? timescale then Some timescale else None).

Definition getMp4SampleEntryCodec (v : view) (stsd : Mp4Box) : exc (option jsstr) :=
  let entryCountOffset := contentStart stsd + 4 in
  let firstEntryOffset := contentStart stsd + 8 in
  if (box_end stsd <? entryCountOffset + 4) || (box_end stsd <? firstEntryOffset + 8)
  then Ok None
  else
    entryCount ← getUint32 v entryCountOffset;
    if entryCount <? 1 then Ok None
    else
      firstEntry ← readMp4Box v firstEntryOffset (box_end stsd);
      Ok (option_map box_type firstEntry).

(** The loop over the time-to-sample entries; [None] when the table is cut
    short. *)
Fixpoint stts_loop (fuel : nat) (v : view) (pend : Z) (remaining offset : Z)
    (sampleCount totalTicks : num) : exc (option (num * num)) :=
  match fuel with
  | O => Fuel
  | S fuel =>
      if remaining <=? 0 then Ok (Some (sampleCount, totalTicks))
      else if pend <? offset + 8 then Ok None
      else
        count ← getUint32 v offset;
        delta ← getUint32 v (offset + 4);
        stts_loop fuel v pend (remaining - 1) (offset + 8)
          (nadd sampleCount (of_Z count))
          (nadd totalTicks (nmul (of_Z count) (of_Z delta)))
  end.

Definition getMp4AverageFrameRate (v : view) (stts : Mp4Box) (timescale : Z)
    : exc (option num) :=
  let entryCountOffset := contentStart stts + 4 in
  if box_end stts <? entryCountOffset + 4 then Ok None
  else
    entryCount ← getUint32 v entryCountOffset;
    sums ← stts_loop (S (S (length v))) v (box_end stts) entryCount (contentStart stts + 8)
             (of_Z 0) (of_Z 0);
    match sums with
    | None => Ok None
    | Some (sampleCount, totalTicks) =>
        if nleb sampleCount (of_Z 0) || nleb totalTicks (of_Z 0) then Ok None
        else Ok (Some (ndiv (nmul sampleCount (of_Z timescale)) totalTicks))
    end.

Record ReferenceMp4VideoMetadata := Metadata { codec : jsstr; frameRate : num }.

(** One iteration over a [trak] box: [None] is [continue]. *)
Definition track_metadata (v : view) (track : Mp4Box)
    : exc (option ReferenceMp4VideoMetadata) :=
  mdia ← getMp4Child v track (js "mdia");
  match mdia with
  | None => Ok None
  | Some mdia =>
      hdlr ← getMp4Child v mdia (js "hdlr");
      match hdlr with
      | None => Ok None
      | Some hdlr =>
          handler ← readFourCC v (contentStart hdlr + 8);
          if negb (str_eqb handler (js "vide")) then Ok None
          else
            mdhd ← getMp4Child v mdia (js "mdhd");
            minf ← getMp4Child v mdia (js "minf");
            stbl ← match minf with Some minf => getMp4Child v minf (js "stbl") | None => Ok None end;
            stsd ← match stbl with Some stbl => getMp4Child v stbl (js "stsd") | None => Ok None end;
            stts ← match stbl with Some stbl => getMp4Child v stbl (js "stts") | None => Ok None end;
            match mdhd, stsd, stts with
            | Some mdhd, Some stsd, Some stts =>
                timescale ← getMp4TrackTimescale v mdhd;
                codec ← getMp4SampleEntryCodec v stsd;
                rate ← match timescale with
                       | Some ts => getMp4AverageFrameRate v stts ts
                       | None => Ok None
                       end;
                match codec, rate with
                | Some codec, Some rate =>
                    if negb (truthy codec) || negb (num_truthy rate) || negb (is_finite rate)
                    then Ok None else Ok (Some (Metadata codec rate))
                | _, _ => Ok None
                end
            | _, _, _ => Ok None
            end
      end
  end.

Fixpoint tracks_loop (v : view) (tracks : list Mp4Box)
    : exc (option ReferenceMp4VideoMetadata) :=
  match tracks with
  | [] => Ok None
  | t :: tracks =>
      r ← track_metadata v t;
      match r with Some m => Ok (Some m) | None => tracks_loop v tracks end
  end.

Definition parseReferenceMp4VideoMetadata (buffer : view)
    : exc (option ReferenceMp4VideoMetadata) :=
  moov ← readMp4Box buffer 0 (byteLength buffer);
  match moov with
  | None => Ok None
  | Some moov =>
      if negb (str_eqb (box_type moov) (js "moov")) then Ok None
      else
        children ← getMp4Children buffer moov;
        tracks_loop buffer (filterb (λ b, str_eqb (box_type b) (js "trak")) children)
  end.

(** [file.slice(a, b).arrayBuffer()]. *)
Definition file_slice (a b : Z) (file : view) : view :=
  take (Z.to_nat (b - a)) (drop (Z.to_nat a) file).

(** The scan over the top-level boxes of the file. *)
Fixpoint moov_loop (fuel : nat) (file : view) (offset : Z) : exc (option view) :=
  match fuel with
  | O => Fuel
  | S fuel =>
      let size := byteLength file in
      if offset + 8 <=? size then
        let header := file_slice offset (Z.min (offset + 16) size) file in
        size32 ← getUint32 header 0;
        type ← readFourCC header 4;
        let continue headerSize boxSize :=
          if negb (truthy type) || negb (isSafeInteger boxSize) || (boxSize <? headerSize)
             || (size <? offset + boxSize)
          then Ok None
          else if str_eqb type (js "moov") then
            if 32 * 1024 * 1024 <? boxSize then Ok None
            else Ok (Some (file_slice offset (offset + boxSize) file))
          else if boxSize <=? 0 then Ok None
          else moov_loop fuel file (offset + boxSize) in
        if size32 =? 1 then
          if byteLength header <? 16 then Ok None
          else
            high ← getUint32 header 8;
            low ← getUint32 header 12;
            continue 16 (high * 2 ^ 32 + low)
        else if size32 =? 0 then continue 8 (size - offset)
        else continue 8 size32
      else Ok None
  end.

Definition findMp4MoovBox (file : view) : exc (option view) :=
  moov_loop (S (length file)) file 0.

Definition getReferenceMp4VideoMetadata (file : view)
    : exc (option ReferenceMp4VideoMetadata) :=
  moov ← findMp4MoovBox file;
  match moov with
  | Some moov => parseReferenceMp4VideoMetadata moov
  | None => Ok None
  end.

Definition isSeedance25ReferenceVideoMetadata (m : option ReferenceMp4VideoMetadata) : bool :=
  match m with
  | None => false
  | Some m =>
      includes (codec m) [js "avc1"; js "avc3"] &&
      existsb (λ r, nleb (nabs (nsub (frameRate m) (of_Z r))) (str_to_num (js "0.1")))
        [24; 25; 30]
  end.

(** ** No read is out of range *)

Lemma getUint8_returns v o : 0 ≤ o < byteLength v → returns (getUint8 v o).
Proof.
  unfold getUint8, byteLength. intros H. destruct (Z.ltb_spec o 0); [lia|].
  destruct (lookup_lt_is_Some_2 v (Z.to_nat o)) as [b ->]; [lia|]. by eexists.
Qed.

Lemma getUint8_nonneg v o b : getUint8 v o = Ok b → 0 ≤ b.
Proof.
  unfold getUint8. intros H. repeat case_split_in H; simplify_eq. lia.
Qed.

Lemma getUint32_returns v o : 0 ≤ o → o + 4 ≤ byteLength v → returns (getUint32 v o).
Proof.
  intros. unfold getUint32.
  repeat (apply returns_bind; [apply getUint8_returns; lia|intros ? ?]). ret.
Qed.

Lemma readFourCC_returns v o : returns (readFourCC v o).
Proof.
  unfold readFourCC.
  destruct (Z.ltb_spec o 0); [ret|].
  destruct (Z.ltb_spec (byteLength v) (o + 4)); [ret|]. simpl.
  repeat (apply returns_bind; [apply getUint8_returns; lia|intros ? ?]). ret.
Qed.

Lemma readMp4Box_returns v o l : returns (readMp4Box v o l).
Proof.
  unfold readMp4Box.
  destruct (Z.ltb_spec o 0); [ret|].
  destruct (Z.ltb_spec l (o + 8)); [ret|].
  destruct (Z.ltb_spec (byteLength v) l); [ret|]. simpl.
  apply returns_bind; [apply getUint32_returns; lia|intros size _].
  apply returns_bind; [apply readFourCC_returns|intros ty _].
  destruct (size =? 1); [|destruct (size =? 0); case_split; ret].
  destruct (Z.ltb_spec l (o + 16)); [ret|].
  apply returns_bind; [apply getUint32_returns; lia|intros hi _].
  apply returns_bind; [apply getUint32_returns; lia|intros lo _].
  case_split; ret.
Qed.

(** A box lies inside the view, its content inside the box. *)
Definition box_in (v : view) (b : Mp4Box) : Prop :=
  0 ≤ box_start b ∧ box_start b + 8 ≤ contentStart b ∧
  contentStart b ≤ box_end b ∧ box_end b ≤ byteLength v.

Lemma readMp4Box_bounds v o l b :
  readMp4Box v o l = Ok (Some b) →
  box_in v b ∧ box_start b = o ∧ box_end b ≤ l.
Proof.
  unfold readMp4Box. intros H.
  destruct (_ || _ || _) eqn:E; [done|]. bool_to_prop.
  destruct (getUint32 v o) as [size| |]; [|done|done]. simpl in H.
  destruct (readFourCC v (o + 4)) as [ty| |]; [|done|done]. simpl in H.
  assert (∀ h s, 8 ≤ h →
    (if negb (truthy ty) || negb (isSafeInteger s) || (s <? h) || (l <? o + s)
     then Ok None else Ok (Some (Box ty o (o + h) (o + s)))) = Ok (Some b) →
    box_in v b ∧ box_start b = o ∧ box_end b ≤ l) as Hfin.
  { intros h s Hh Hb. destruct (_ || _ || _ || _) eqn:F in Hb; [done|]. bool_to_prop.
    simplify_eq. unfold box_in. simpl. lia. }
  destruct (size =? 1); [|destruct (size =? 0); by eapply Hfin in H].
  destruct (l <? o + 16); [done|].
  destruct (getUint32 v (o + 8)) as [hi| |]; [|done|done]. simpl in H.
  destruct (getUint32 v (o + 12)) as [lo| |]; [|done|done]. simpl in H.
  by eapply Hfin in H.
Qed.

Lemma children_loop_returns fuel v pend off :
  (Z.to_nat (byteLength v - off) < fuel)%nat → returns (children_loop fuel v pend off).
Proof.
  revert off; induction fuel as [|fuel IH]; intros off Hf; [lia|]. simpl.
  destruct (off + 8 <=? pend); [|ret].
  apply returns_bind; [apply readMp4Box_returns|]. intros [b|] Hb; [|ret].
  destruct (readMp4Box_bounds _ _ _ _ Hb) as ((?&?&?&?)&?&?).
  destruct (box_end b <=? off); [ret|].
  apply returns_bind; [apply IH; lia|ret].
Qed.

Lemma getMp4Children_returns v p : 0 ≤ contentStart p → returns (getMp4Children v p).
Proof. intros. apply children_loop_returns. unfold byteLength. lia. Qed.

(** Consecutive boxes from [off] that stay below [pend]. *)
Fixpoint tiled (off pend : Z) (bs : list Mp4Box) : Prop :=
  match bs with
  | [] => True
  | b :: bs => box_start b = off ∧ off + 8 ≤ contentStart b ∧
               contentStart b ≤ box_end b ≤ pend ∧ tiled (box_end b) pend bs
  end.

Lemma children_loop_tiled fuel v pend off bs :
  children_loop fuel v pend off = Ok bs → tiled off pend bs ∧ Forall (box_in v) bs.
Proof.
  revert off bs; induction fuel as [|fuel IH]; intros off bs H; [done|]. simpl in H.
  destruct (off + 8 <=? pend); [|by simplify_eq].
  destruct (readMp4Box v off pend) as [[b|]| |] eqn:Hb; simpl in H; [|by simplify_eq|done|done].
  destruct (readMp4Box_bounds _ _ _ _ Hb) as (Hin&?&?). pose proof Hin as (?&?&?&?).
  destruct (box_end b <=? off) eqn:E.
  { bool_to_prop. lia. }
  destruct (children_loop fuel v pend (box_end b)) as [rest| |] eqn:Hr; [|done|done].
  simpl in H. simplify_eq. destruct (IH _ _ Hr) as [Ht HF]. simpl.
  split; [|by constructor]. repeat split; try done; lia.
Qed.

Lemma getMp4Child_returns v p t : 0 ≤ contentStart p → returns (getMp4Child v p t).
Proof.
  intros. unfold getMp4Child.
  apply returns_bind; [by apply getMp4Children_returns|ret].
Qed.

Lemma getMp4Child_in v p t b : getMp4Child v p t = Ok (Some b) → box_in v b.
Proof.
  unfold getMp4Child. destruct (getMp4Children v p) as [bs| |] eqn:E; [|done|done].
  simpl. intros [= Hb]. apply find_first_Some in Hb as [Hb _].
  apply children_loop_tiled in E as [_ HF]. rewrite Forall_forall in HF. by apply HF.
Qed.

Lemma timescale_returns v b : box_in v b → returns (getMp4TrackTimescale v b).
Proof.
  intros (?&?&?&?). unfold getMp4TrackTimescale. destruct (_ <? _) eqn:E; [ret|].
  bool_to_prop. apply returns_bind; [apply getUint8_returns; lia|]. intros ver _.
  destruct (_ <? _ + 4) eqn:F; [ret|]. bool_to_prop.
  apply returns_bind; [apply getUint32_returns; destruct (ver =? 1); lia|ret].
Qed.

Lemma codec_returns v b : box_in v b → returns (getMp4SampleEntryCodec v b).
Proof.
  intros (?&?&?&?). unfold getMp4SampleEntryCodec. destruct (_ || _) eqn:E; [ret|].
  bool_to_prop. apply returns_bind; [apply getUint32_returns; lia|]. intros n _.
  destruct (n <? 1); [ret|].
  apply returns_bind; [apply readMp4Box_returns|ret].
Qed.

Lemma stts_loop_returns fuel v pend k off a t :
  0 ≤ off → pend ≤ byteLength v → (Z.to_nat (pend - off) < fuel)%nat →
  returns (stts_loop fuel v pend k off a t).
Proof.
  revert k off a t; induction fuel as [|fuel IH]; intros k off a t H0 Hp Hf; [lia|]. simpl.
  destruct (k <=? 0); [ret|].
  destruct (pend <? off + 8) eqn:E; [ret|]. bool_to_prop.
  apply returns_bind; [apply getUint32_returns; lia|intros c _].
  apply returns_bind; [apply getUint32_returns; lia|intros d _].
  apply IH; lia.
Qed.

Lemma rate_returns v b ts : box_in v b → returns (getMp4AverageFrameRate v b ts).
Proof.
  intros (?&?&?&?). unfold getMp4AverageFrameRate. destruct (_ <? _) eqn:E; [ret|].
  bool_to_prop. apply returns_bind; [apply getUint32_returns; lia|]. intros n _.
  apply returns_bind; [apply stts_loop_returns; unfold byteLength in *; lia|].
  intros [[s t]|] _; [|ret]. destruct (_ || _); ret.
Qed.

(** An optional child of an optional parent. *)
Lemma opt_child_returns v (p : option Mp4Box) t :
  (∀ b, p = Some b → box_in v b) →
  returns (match p with Some b => getMp4Child v b t | None => Ok None end).
Proof.
  intros H. destruct p as [b|]; [|ret].
  destruct (H b eq_refl) as (?&?&?&?). apply getMp4Child_returns. lia.
Qed.

Lemma track_metadata_returns v t : box_in v t → returns (track_metadata v t).
Proof.
  intros (?&?&?&?). unfold track_metadata.
  apply returns_bind; [apply getMp4Child_returns; lia|].
  intros [mdia|] Hmdia; [|ret].
  apply getMp4Child_in in Hmdia as Hm. pose proof Hm as (?&?&?&?).
  apply returns_bind; [apply getMp4Child_returns; lia|].
  intros [hdlr|] Hh; [|ret]. 
  apply returns_bind; [apply readFourCC_returns|intros hd _].
  destruct (negb _); [ret|].
  apply returns_bind; [apply getMp4Child_returns; lia|intros mdhd Hmdhd].
  apply returns_bind; [apply getMp4Child_returns; lia|intros minf Hminf].
  apply returns_bind; [apply opt_child_returns; intros ? ->; by eapply getMp4Child_in|].
  intros stbl Hstbl.
  assert (∀ b, stbl = Some b → box_in v b) as Hst.
  { intros b ->. destruct minf; [by eapply getMp4Child_in|done]. }
  apply returns_bind; [by apply opt_child_returns|intros stsd Hstsd].
  apply returns_bind; [by apply opt_child_returns|intros stts Hstts].
  destruct mdhd as [mdhd|], stsd as [stsd|], stts as [stts|]; try ret.
  assert (box_in v stsd) by (destruct stbl; [by eapply getMp4Child_in|done]).
  assert (box_in v stts) by (destruct stbl; [by eapply getMp4Child_in|done]).
  apply returns_bind; [apply timescale_returns; by eapply getMp4Child_in|intros ts _].
  apply returns_bind; [by apply codec_returns|intros co _].
  apply returns_bind; [destruct ts; [by apply rate_returns|ret]|intros ra _].
  destruct co, ra; try ret. destruct (_ || _ || _); ret.
Qed.

Lemma tracks_loop_returns v ts : Forall (box_in v) ts → returns (tracks_loop v ts).
Proof.
  induction 1 as [|t ts Ht _ IH]; simpl; [ret|].
  apply returns_bind; [by apply track_metadata_returns|]. intros [m|] _; [ret|done].
Qed.

Lemma parse_returns b : returns (parseReferenceMp4VideoMetadata b).
Proof.
  unfold parseReferenceMp4VideoMetadata.
  apply returns_bind; [apply readMp4Box_returns|]. intros [moov|] Hm; [|ret].
  destruct (readMp4Box_bounds _ _ _ _ Hm) as ((?&?&?&?)&_&_).
  destruct (negb _); [ret|].
  apply returns_bind; [apply getMp4Children_returns; lia|]. intros bs Hbs.
  apply tracks_loop_returns. apply children_loop_tiled in Hbs as [_ HF].
  rewrite Forall_forall in *. intros x Hx. apply HF. by apply filterb_elem in Hx as [? _].
Qed.

Lemma file_slice_length a b file :
  0 ≤ a ≤ b → b ≤ byteLength file → byteLength (file_slice a b file) = b - a.
Proof.
  unfold byteLength, file_slice. intros. rewrite length_take, length_drop. lia.
Qed.

Lemma moov_loop_returns fuel file off :
  0 ≤ off → (Z.to_nat (byteLength file - off) < fuel)%nat →
  returns (moov_loop fuel file off).
Proof.
  revert off; induction fuel as [|fuel IH]; intros off H0 Hf; [lia|]. simpl.
  destruct (off + 8 <=? byteLength file) eqn:E; [|ret]. bool_to_prop.
  set (header := file_slice _ _ _).
  assert (byteLength header = Z.min (off + 16) (byteLength file) - off) as Hh
    by (apply file_slice_length; lia).
  apply returns_bind; [apply getUint32_returns; lia|intros size _].
  apply returns_bind; [apply readFourCC_returns|intros ty _].
  assert (∀ h s, 8 ≤ h → returns
    (if negb (truthy ty) || negb (isSafeInteger s) || (s <? h)
        || (byteLength file <? off + s) then Ok None
     else if str_eqb ty (js "moov") then
       if 32 * 1024 * 1024 <? s then Ok None
       else Ok (Some (file_slice off (off + s) file))
     else if s <=? 0 then Ok None else moov_loop fuel file (off + s))) as Hfin.
  { intros h s Hs. destruct (_ || _ || _ || _) eqn:F; [ret|]. bool_to_prop.
    destruct (str_eqb _ _); [case_split; ret|].
    destruct (s <=? 0); [ret|]. apply IH; lia. }
  destruct (size =? 1); [|destruct (size =? 0); by apply Hfin].
  destruct (byteLength header <? 16) eqn:F; [ret|]. bool_to_prop.
  apply returns_bind; [apply getUint32_returns; lia|intros hi _].
  apply returns_bind; [apply getUint32_returns; lia|intros lo _]. by apply Hfin.
Qed.

(** ** Encoded boxes *)

Definition be32 (z : Z) : view :=
  map (λ k, Z.to_N (z / 2 ^ k mod 256)) [24; 16; 8; 0].

#[local] Arguments be32 : simpl never.

(** The three ways a box header gives the size of its box: 32 bits, 64 bits
    after the type, or zero for a box that ends with what contains it. *)
Inductive size_form := Size32 | Size64 | ToEnd.

Record mp4_box := Encoded { e_form : size_form; e_type : jsstr; e_payload : view }.

Definition header_size (f : size_form) : Z := match f with Size64 => 16 | _ => 8 end.
Definition box_size (b : mp4_box) : Z := header_size (e_form b) + byteLength (e_payload b).

Definition encode_header (b : mp4_box) : view :=
  match e_form b with
  | Size32 => be32 (box_size b) ++ e_type b
  | Size64 => be32 1 ++ e_type b ++ be32 (box_size b / 2 ^ 32) ++ be32 (box_size b mod 2 ^ 32)
  | ToEnd => be32 0 ++ e_type b
  end.
Definition encode_box (b : mp4_box) : view := encode_header b ++ e_payload b.
Definition encode_boxes (bs : list mp4_box) : view := concat (map encode_box bs).

Definition box_ok (b : mp4_box) : Prop :=
  length (e_type b) = 4%nat ∧
  match e_form b with Size32 => box_size b < 2 ^ 32 | _ => box_size b ≤ MAX_SAFE_INTEGER end.

(** Only the last box may end with its container. *)
Fixpoint boxes_ok (bs : list mp4_box) : Prop :=
  match bs with
  | [] => True
  | b :: bs => box_ok b ∧ (e_form b = ToEnd → bs = []) ∧ boxes_ok bs
  end.

(** The payload of [b] is [p], at its place in [v]. *)
Definition holds (v : view) (b : Mp4Box) (p : view) : Prop :=
  ∃ pre post, v = pre ++ p ++ post ∧ contentStart b = byteLength pre ∧
              box_end b = byteLength pre + byteLength p.

Lemma byteLength_app a b : byteLength (a ++ b) = byteLength a + byteLength b.
Proof. unfold byteLength. rewrite length_app. lia. Qed.

Lemma byteLength_nonneg v : 0 ≤ byteLength v.
Proof. unfold byteLength. lia. Qed.

Lemma byteLength_be32 z : byteLength (be32 z) = 4.
Proof. done. Qed.

Lemma byteLength_header b :
  length (e_type b) = 4%nat → byteLength (encode_header b) = header_size (e_form b).
Proof.
  intros H. assert (byteLength (e_type b) = 4) as Ht by (unfold byteLength; lia).
  unfold encode_header. by destruct (e_form b);
    rewrite !byteLength_app, ?byteLength_be32, Ht.
Qed.

Lemma byteLength_encode b : length (e_type b) = 4%nat → byteLength (encode_box b) = box_size b.
Proof. intros H. unfold encode_box. by rewrite byteLength_app, byteLength_header. Qed.

Lemma header_size_bounds f : 8 ≤ header_size f ≤ 16.
Proof. by destruct f. Qed.

Lemma box_size_bounds b : header_size (e_form b) ≤ box_size b.
Proof. unfold box_size. pose proof (byteLength_nonneg (e_payload b)). lia. Qed.

Lemma getUint8_app pre b post :
  getUint8 (pre ++ b :: post) (byteLength pre) = Ok (Z.of_N b).
Proof.
  unfold getUint8. pose proof (byteLength_nonneg pre). destruct (Z.ltb_spec (byteLength pre) 0); [lia|].
  unfold byteLength. rewrite Nat2Z.id, lookup_app_r, Nat.sub_diag by done. done.
Qed.

(** Four consecutive bytes read one after the other. *)
Lemma getUint8_four pre b0 b1 b2 b3 post :
  let v := pre ++ b0 :: b1 :: b2 :: b3 :: post in
  let o := byteLength pre in
  getUint8 v o = Ok (Z.of_N b0) ∧ getUint8 v (o + 1) = Ok (Z.of_N b1) ∧
  getUint8 v (o + 2) = Ok (Z.of_N b2) ∧ getUint8 v (o + 3) = Ok (Z.of_N b3).
Proof.
  intros v o. subst v o. split; [apply getUint8_app|].
  split; [|split].
  - rewrite cons_middle, app_assoc.
    replace (byteLength pre + 1) with (byteLength (pre ++ [b0]))
      by (rewrite byteLength_app; done). apply getUint8_app.
  - replace (pre ++ b0 :: b1 :: b2 :: b3 :: post) with ((pre ++ [b0; b1]) ++ b2 :: b3 :: post)
      by by rewrite <- app_assoc.
    replace (byteLength pre + 2) with (byteLength (pre ++ [b0; b1]))
      by (rewrite byteLength_app; done). apply getUint8_app.
  - replace (pre ++ b0 :: b1 :: b2 :: b3 :: post)
      with ((pre ++ [b0; b1; b2]) ++ b3 :: post) by by rewrite <- app_assoc.
    replace (byteLength pre + 3) with (byteLength (pre ++ [b0; b1; b2]))
      by (rewrite byteLength_app; done). apply getUint8_app.
Qed.

Lemma getUint32_be32 pre z post :
  0 ≤ z < 2 ^ 32 → getUint32 (pre ++ be32 z ++ post) (byteLength pre) = Ok z.
Proof.
  intros Hz. unfold be32. cbn [map app].
  destruct (getUint8_four pre (Z.to_N (z / 2 ^ 24 mod 256)) (Z.to_N (z / 2 ^ 16 mod 256))
    (Z.to_N (z / 2 ^ 8 mod 256)) (Z.to_N (z / 2 ^ 0 mod 256)) post) as (H0&H1&H2&H3).
  unfold getUint32. rewrite H0. cbn [mbind exc_bind]. rewrite H1. cbn [mbind exc_bind].
  rewrite H2. cbn [mbind exc_bind]. rewrite H3. cbn [mbind exc_bind]. f_equal.
  rewrite !Z2N.id by (apply Z.mod_pos_bound; lia).
  change (2 ^ 0) with 1. rewrite Z.div_1_r.
  change (2 ^ 24) with 16777216. change (2 ^ 16) with 65536. change (2 ^ 8) with 256.
  Z.div_mod_to_equations. lia.
Qed.

Lemma readFourCC_app pre t post :
  length t = 4%nat → readFourCC (pre ++ t ++ post) (byteLength pre) = Ok t.
Proof.
  intros Ht. destruct t as [|b0 [|b1 [|b2 [|b3 [|]]]]]; try done. cbn [app].
  destruct (getUint8_four pre b0 b1 b2 b3 post) as (H0&H1&H2&H3).
  unfold readFourCC. pose proof (byteLength_nonneg pre). pose proof (byteLength_nonneg post).
  destruct (_ || _) eqn:E.
  { apply orb_true_iff in E as [E|E]; bool_to_prop; [lia|].
    rewrite byteLength_app in E. unfold byteLength in E. simpl in E. lia. }
  rewrite H0. cbn [mbind exc_bind]. rewrite H1. cbn [mbind exc_bind].
  rewrite H2. cbn [mbind exc_bind]. rewrite H3. cbn [mbind exc_bind].
  cbn [map]. by rewrite !N2Z.id.
Qed.

(** The value of the 32-bit size field. *)
Definition size_field (b : mp4_box) : Z :=
  match e_form b with Size32 => box_size b | Size64 => 1 | ToEnd => 0 end.

(** Reading the fields of a header. *)
Lemma header_read pre b post :
  box_ok b →
  let v := pre ++ encode_header b ++ post in
  let o := byteLength pre in
  getUint32 v o = Ok (size_field b) ∧ readFourCC v (o + 4) = Ok (e_type b) ∧
  (e_form b = Size64 → getUint32 v (o + 8) = Ok (box_size b / 2 ^ 32) ∧
                       getUint32 v (o + 12) = Ok (box_size b mod 2 ^ 32)).
Proof.
  intros [Ht Hsz] v o. subst v o. pose proof (box_size_bounds b) as B.
  pose proof (header_size_bounds (e_form b)) as B2.
  assert (∃ rest, encode_header b ++ post = be32 (size_field b) ++ e_type b ++ rest ∧
    (e_form b = Size64 → rest = be32 (box_size b / 2 ^ 32) ++ be32 (box_size b mod 2 ^ 32) ++ post))
    as (rest & -> & Hrest).
  { unfold encode_header, size_field.
    destruct (e_form b); rewrite <- !app_assoc; eexists; split; done. }
  assert (0 ≤ size_field b < 2 ^ 32) by (unfold size_field; destruct (e_form b); lia).
  split; [by apply getUint32_be32|]. split.
  - pose proof (readFourCC_app (pre ++ be32 (size_field b)) (e_type b) rest Ht) as R0.
    by rewrite <- app_assoc, byteLength_app in R0.
  - intros E. rewrite (Hrest E). rewrite E in Hsz. unfold MAX_SAFE_INTEGER in Hsz.
    assert (byteLength (e_type b) = 4) as Hl by (unfold byteLength; lia).
    set (hi := box_size b / 2 ^ 32). set (lo := box_size b mod 2 ^ 32).
    assert (0 ≤ hi < 2 ^ 32) by (subst hi; change (2 ^ 32) with 4294967296 in *;
      Z.div_mod_to_equations; lia).
    assert (0 ≤ lo < 2 ^ 32) by (apply Z.mod_pos_bound; lia).
    pose proof (getUint32_be32 (pre ++ be32 (size_field b) ++ e_type b) hi (be32 lo ++ post)) as R1.
    pose proof (getUint32_be32 (pre ++ be32 (size_field b) ++ e_type b ++ be32 hi) lo post) as R2.
    rewrite <- !app_assoc, !byteLength_app, !byteLength_be32, Hl in R1.
    rewrite <- !app_assoc, !byteLength_app, !byteLength_be32, Hl in R2.
    split; [by apply R1|by apply R2].
Qed.

(** The size computed from the fields. *)
Lemma size_joined b : box_size b / 2 ^ 32 * 2 ^ 32 + box_size b mod 2 ^ 32 = box_size b.
Proof. pose proof (Z.div_mod (box_size b) (2 ^ 32)). lia. Qed.

(** A well-formed box passes the checks on its size. *)
Lemma size_accepted b off limit :
  box_ok b → off + box_size b ≤ limit →
  negb (truthy (e_type b)) || negb (isSafeInteger (box_size b)) ||
  (box_size b <? header_size (e_form b)) || (limit <? off + box_size b) = false.
Proof.
  intros [Ht Hsz] Hl. pose proof (box_size_bounds b). pose proof (header_size_bounds (e_form b)).
  assert (truthy (e_type b) = true) as -> by by destruct (e_type b).
  assert (isSafeInteger (box_size b) = true) as ->.
  { unfold isSafeInteger, MAX_SAFE_INTEGER in *. apply Z.leb_le. destruct (e_form b); lia. }
  destruct (Z.ltb_spec (box_size b) (header_size (e_form b))); [lia|].
  by destruct (Z.ltb_spec limit (off + box_size b)); [lia|].
Qed.

(** Reading an encoded box. *)
Lemma readMp4Box_encoded pre b post limit :
  box_ok b → byteLength pre + box_size b ≤ limit ≤ byteLength (pre ++ encode_box b ++ post) →
  (e_form b = ToEnd → limit = byteLength pre + box_size b) →
  readMp4Box (pre ++ encode_box b ++ post) (byteLength pre) limit =
  Ok (Some (Box (e_type b) (byteLength pre) (byteLength pre + header_size (e_form b))
              (byteLength pre + box_size b))).
Proof.
  intros Hok Hl Hend. pose proof (byteLength_nonneg pre). pose proof (box_size_bounds b) as B.
  pose proof (header_size_bounds (e_form b)) as B2.
  pose proof (header_read pre b (e_payload b ++ post) Hok) as (R1 & R2 & R3).
  unfold readMp4Box. destruct (_ || _ || _) eqn:E.
  { rewrite !orb_true_iff in E. destruct E as [[E|E]|E]; bool_to_prop; lia. }
  clear E. unfold encode_box in *. rewrite <- !app_assoc in *.
  pose proof (size_accepted b (byteLength pre) limit Hok ltac:(lia)) as Hacc.
  rewrite R1. cbn [mbind exc_bind]. rewrite R2. cbn [mbind exc_bind].
  unfold size_field. destruct (e_form b) eqn:Ef; cbn [header_size] in *.
  - destruct (Z.eqb_spec (box_size b) 1); [lia|].
    destruct (Z.eqb_spec (box_size b) 0); [lia|]. by rewrite Hacc.
  - change (1 =? 1) with true. cbv iota.
    destruct (Z.ltb_spec limit (byteLength pre + 16)); [lia|].
    destruct (R3 eq_refl) as [-> ->]. cbn [mbind exc_bind]. by rewrite size_joined, Hacc.
  - change (0 =? 1) with false. change (0 =? 0) with true. cbv iota.
    replace (limit - byteLength pre) with (box_size b) by (rewrite Hend by done; lia).
    by rewrite Hacc.
Qed.

(** Where the boxes of a sequence are. *)
Fixpoint locate (off : Z) (bs : list mp4_box) : list Mp4Box :=
  match bs with
  | [] => []
  | b :: bs =>
      Box (e_type b) off (off + header_size (e_form b)) (off + box_size b)
        :: locate (off + box_size b) bs
  end.

Lemma children_loop_encoded fuel pre bs post :
  boxes_ok bs → (length (encode_boxes bs) < fuel)%nat →
  children_loop fuel (pre ++ encode_boxes bs ++ post)
    (byteLength pre + byteLength (encode_boxes bs)) (byteLength pre)
  = Ok (locate (byteLength pre) bs).
Proof.
  revert fuel pre; induction bs as [|b bs IH]; intros fuel pre Hok Hf;
    (destruct fuel as [|fuel]; [lia|]); cbn [children_loop].
  { destruct (Z.leb_spec (byteLength pre + 8) (byteLength pre + byteLength (encode_boxes [])));
      [|done]. unfold byteLength in *. simpl in *. lia. }
  destruct Hok as (Hb & Hlast & Hok).
  change (encode_boxes (b :: bs)) with (encode_box b ++ encode_boxes bs) in *.
  rewrite length_app in Hf. pose proof (byteLength_encode b (proj1 Hb)) as Hlen.
  pose proof (byteLength_nonneg (encode_boxes bs)). pose proof (box_size_bounds b).
  pose proof (header_size_bounds (e_form b)).
  rewrite byteLength_app, Hlen.
  destruct (Z.leb_spec (byteLength pre + 8)
    (byteLength pre + (box_size b + byteLength (encode_boxes bs)))); [|lia].
  rewrite <- app_assoc. rewrite readMp4Box_encoded; [|done| |].
  2: { rewrite !byteLength_app, Hlen. pose proof (byteLength_nonneg post). lia. }
  2: { intros E. rewrite (Hlast E). change (byteLength (encode_boxes [])) with 0. lia. }
  cbn [mbind exc_bind box_end].
  destruct (Z.leb_spec (byteLength pre + box_size b) (byteLength pre)); [lia|].
  specialize (IH fuel (pre ++ encode_box b) Hok).
  rewrite byteLength_app, Hlen, <- app_assoc in IH. rewrite Z.add_assoc.
  rewrite IH; [done|]. unfold byteLength in Hlen. lia.
Qed.

(** A payload made of boxes gives those boxes as children. *)
Lemma getMp4Children_encoded v p bs :
  holds v p (encode_boxes bs) → boxes_ok bs →
  getMp4Children v p = Ok (locate (contentStart p) bs).
Proof.
  intros (pre & post & -> & Hc & He) Hok. unfold getMp4Children. rewrite Hc, He.
  apply children_loop_encoded; [done|]. rewrite !length_app. lia.
Qed.

(** An encoded box holds its payload, after its header. *)
Lemma holds_encoded pre b post :
  length (e_type b) = 4%nat →
  holds (pre ++ encode_box b ++ post)
    (Box (e_type b) (byteLength pre) (byteLength pre + header_size (e_form b))
       (byteLength pre + box_size b)) (e_payload b).
Proof.
  intros Ht. exists (pre ++ encode_header b), post. unfold encode_box, box_size.
  rewrite <- !app_assoc, byteLength_app, byteLength_header by done.
  split; [done|]. cbn [contentStart box_end]. lia.
Qed.

(** Every located box holds its payload. *)
Lemma locate_holds pre bs post :
  boxes_ok bs →
  Forall2 (λ c b, box_type c = e_type b ∧ holds (pre ++ encode_boxes bs ++ post) c (e_payload b))
    (locate (byteLength pre) bs) bs.
Proof.
  revert pre; induction bs as [|b bs IH]; intros pre Hok; cbn [locate]; [constructor|].
  destruct Hok as ([Ht _] & _ & Hok).
  change (encode_boxes (b :: bs)) with (encode_box b ++ encode_boxes bs).
  rewrite <- app_assoc. constructor; [split; [done|by apply holds_encoded]|].
  specialize (IH (pre ++ encode_box b) Hok).
  by rewrite byteLength_app, byteLength_encode, <- app_assoc in IH.
Qed.

(** The first payload of a type among boxes. *)
Definition child (bs : list mp4_box) (t : jsstr) : option view :=
  option_map e_payload (find_first (λ b, str_eqb (e_type b) t) bs).

(** The first box of a type among the children is found, with its payload. *)
Lemma find_held v t cs bs :
  Forall2 (λ c b, box_type c = e_type b ∧ holds v c (e_payload b)) cs bs →
  match child bs t with
  | Some pl => ∃ c, find_first (λ c, str_eqb (box_type c) t) cs = Some c ∧ holds v c pl
  | None => find_first (λ c, str_eqb (box_type c) t) cs = None
  end.
Proof.
  unfold child. induction 1 as [|c b cs bs [Hty Hh] _ IH]; [done|]. simpl. rewrite Hty.
  destruct (str_eqb (e_type b) t); simpl; eauto.
Qed.

(** Payloads made of well-formed boxes. *)
Definition container (p : view) (bs : list mp4_box) : Prop := p = encode_boxes bs ∧ boxes_ok bs.

Lemma child_read v p q bs t :
  holds v p q → container q bs →
  match child bs t with
  | Some pl => ∃ c, getMp4Child v p t = Ok (Some c) ∧ holds v c pl
  | None => getMp4Child v p t = Ok None
  end.
Proof.
  intros Hh [-> Hok]. unfold getMp4Child. rewrite (getMp4Children_encoded v p bs) by done.
  destruct Hh as (pre & post & -> & Hc & He). rewrite Hc. cbn [mbind exc_bind].
  pose proof (find_held _ t _ _ (locate_holds pre bs post Hok)) as H.
  destruct (child bs t).
  - destruct H as (c & -> & Hh). eauto.
  - by rewrite H.
Qed.

Lemma child_found v p q bs t pl :
  holds v p q → container q bs → child bs t = Some pl →
  ∃ b, getMp4Child v p t = Ok (Some b) ∧ holds v b pl.
Proof. intros Hh Hq Hc. pose proof (child_read v p q bs t Hh Hq) as H. by rewrite Hc in H. Qed.

Lemma child_absent v p q bs t :
  holds v p q → container q bs → child bs t = None → getMp4Child v p t = Ok None.
Proof. intros Hh Hq Hc. pose proof (child_read v p q bs t Hh Hq) as H. by rewrite Hc in H. Qed.

(** ** The scan for the [moov] box *)

Lemma drop_byteLength pre (x : view) : drop (Z.to_nat (byteLength pre)) (pre ++ x) = x.
Proof. unfold byteLength. by rewrite Nat2Z.id, drop_app_length. Qed.

Lemma file_slice_app pre mid post :
  file_slice (byteLength pre) (byteLength pre + byteLength mid) (pre ++ mid ++ post) = mid.
Proof.
  unfold file_slice. rewrite drop_byteLength.
  replace (Z.to_nat _) with (length mid) by (unfold byteLength; lia). apply take_app_length.
Qed.

(** The sixteen bytes read at a box contain its header. *)
Lemma header_sliced pre b post :
  box_ok b →
  let file := pre ++ encode_box b ++ post in
  ∃ rest, file_slice (byteLength pre) (Z.min (byteLength pre + 16) (byteLength file)) file
          = encode_header b ++ rest.
Proof.
  intros [Ht _] file. subst file. unfold file_slice. rewrite drop_byteLength.
  set (k := Z.to_nat _). unfold encode_box. rewrite <- app_assoc.
  exists (take (k - length (encode_header b)) (e_payload b ++ post)).
  apply take_app_ge. pose proof (byteLength_header b Ht) as Hh.
  pose proof (header_size_bounds (e_form b)).
  subst k. rewrite !byteLength_app, (byteLength_encode b Ht).
  pose proof (byteLength_nonneg post). pose proof (box_size_bounds b).
  unfold byteLength in Hh. lia.
Qed.

(** One step of the scan. *)
Lemma moov_loop_step fuel pre b post :
  box_ok b → (e_form b = ToEnd → post = []) →
  moov_loop (S fuel) (pre ++ encode_box b ++ post) (byteLength pre) =
    if str_eqb (e_type b) (js "moov")
    then Ok (if 32 * 1024 * 1024 <? box_size b then None else Some (encode_box b))
    else moov_loop fuel (pre ++ encode_box b ++ post) (byteLength pre + box_size b).
Proof.
  intros Hok Hend. pose proof (byteLength_nonneg pre). pose proof (byteLength_nonneg post).
  pose proof (box_size_bounds b). pose proof (header_size_bounds (e_form b)).
  pose proof (byteLength_encode b (proj1 Hok)) as Hl.
  set (file := pre ++ encode_box b ++ post).
  assert (byteLength file = byteLength pre + box_size b + byteLength post) as Hf
    by (subst file; rewrite !byteLength_app; lia).
  assert (file_slice (byteLength pre) (byteLength pre + box_size b) file = encode_box b) as Hslice
    by (rewrite <- Hl; apply file_slice_app).
  destruct (header_sliced pre b post Hok) as [rest Hr]. fold file in Hr.
  destruct (header_read [] b rest Hok) as (R1 & R2 & R3).
  change (byteLength []) with 0 in *. cbn [app] in R1, R2, R3.
  pose proof (size_accepted b (byteLength pre) (byteLength file) Hok ltac:(lia)) as Hacc.
  cbn [moov_loop]. destruct (Z.leb_spec (byteLength pre + 8) (byteLength file)); [|lia].
  rewrite Hr. rewrite R1. cbn [mbind exc_bind]. change (0 + 4) with 4 in R2. rewrite R2.
  cbn [mbind exc_bind]. unfold size_field.
  assert ((box_size b <=? 0) = false) as Hpos by (apply Z.leb_gt; lia).
  destruct (e_form b) eqn:Ef; cbn [header_size] in *.
  - destruct (Z.eqb_spec (box_size b) 1); [lia|]. destruct (Z.eqb_spec (box_size b) 0); [lia|].
    rewrite Hacc, Hpos, Hslice. by destruct (str_eqb _ _), (32 * 1024 * 1024 <? box_size b).
  - change (1 =? 1) with true. cbv iota.
    destruct (Z.ltb_spec (byteLength (encode_header b ++ rest)) 16) as [Hlt|_].
    { rewrite byteLength_app, (byteLength_header b (proj1 Hok)), Ef in Hlt. cbn in Hlt.
      pose proof (byteLength_nonneg rest). lia. }
    change (0 + 8) with 8 in R3. change (0 + 12) with 12 in R3.
    destruct (R3 eq_refl) as [-> ->]. cbn [mbind exc_bind].
    rewrite size_joined, Hacc, Hpos, Hslice. by destruct (str_eqb _ _), (32 * 1024 * 1024 <? box_size b).
  - change (0 =? 1) with false. change (0 =? 0) with true. cbv iota.
    replace (byteLength file - byteLength pre) with (box_size b)
      by (rewrite Hf, (Hend eq_refl); change (byteLength []) with 0; lia).
    rewrite Hacc, Hpos, Hslice. by destruct (str_eqb _ _), (32 * 1024 * 1024 <? box_size b).
Qed.

(** A box that other boxes may follow and that is not [moov]. *)
Definition plain_box (b : mp4_box) : Prop :=
  box_ok b ∧ e_form b ≠ ToEnd ∧ e_type b ≠ js "moov".

Lemma moov_loop_encoded fuel pre bs moov post :
  Forall plain_box bs → box_ok moov → e_type moov = js "moov" →
  (e_form moov = ToEnd → post = []) → (length bs < fuel)%nat →
  moov_loop fuel (pre ++ encode_boxes bs ++ encode_box moov ++ post) (byteLength pre)
  = Ok (if 32 * 1024 * 1024 <? box_size moov then None else Some (encode_box moov)).
Proof.
  intros Hbs Hm Hty Hend. revert fuel pre; induction Hbs as [|b bs (Hb & Hf & Hne) _ IH];
    intros fuel pre Hfu; (destruct fuel as [|fuel]; [simpl in Hfu; lia|]).
  - change (encode_boxes [] ++ ?x) with x. rewrite moov_loop_step by done. rewrite Hty.
    done.
  - change (encode_boxes (b :: bs)) with (encode_box b ++ encode_boxes bs).
    rewrite <- app_assoc, moov_loop_step by done.
    unfold str_eqb. rewrite bool_decide_false by done.
    specialize (IH fuel (pre ++ encode_box b) ltac:(simpl in Hfu; lia)).
    by rewrite byteLength_app, (byteLength_encode b (proj1 Hb)), <- app_assoc in IH.
Qed.

(** ** A video track, written and read back *)

(** Reads inside the payload of a box. *)
Lemma holds_getUint32 v b a z c :
  holds v b (a ++ be32 z ++ c) → 0 ≤ z < 2 ^ 32 →
  getUint32 v (contentStart b + byteLength a) = Ok z.
Proof.
  intros (pre & post & -> & Hc & _) Hz. rewrite Hc, <- byteLength_app, <- !app_assoc.
  rewrite (app_assoc pre). by apply getUint32_be32.
Qed.

Lemma holds_getUint8 v b a z c :
  holds v b (a ++ z :: c) → getUint8 v (contentStart b + byteLength a) = Ok (Z.of_N z).
Proof.
  intros (pre & post & -> & Hc & _). rewrite Hc, <- byteLength_app, <- !app_assoc.
  rewrite (app_assoc pre). apply getUint8_app.
Qed.

Lemma holds_readFourCC v b a t c :
  holds v b (a ++ t ++ c) → length t = 4%nat →
  readFourCC v (contentStart b + byteLength a) = Ok t.
Proof.
  intros (pre & post & -> & Hc & _) Ht. rewrite Hc, <- byteLength_app, <- !app_assoc.
  rewrite (app_assoc pre). by apply readFourCC_app.
Qed.

Lemma holds_length v b p : holds v b p → box_end b = contentStart b + byteLength p.
Proof. intros (pre & post & -> & Hc & He). lia. Qed.

Definition u32 (z : Z) : Prop := 0 ≤ z < 2 ^ 32.

(** The tables of a track: [mdhd] (a version byte and flags, the two times in
    four or eight bytes each, the time scale), [hdlr], [stsd] with its first
    sample entry, [stts] with its (count, delta) entries. *)
Definition mdhd_payload (version : N) (flags times : view) (timescale : Z) (rest : view) : view :=
  version :: flags ++ times ++ be32 timescale ++ rest.
Definition mdhd_ok (version : N) (flags times : view) (timescale : Z) : Prop :=
  length flags = 3%nat ∧ length times = (if (version =? 1)%N then 16 else 8)%nat ∧ u32 timescale.
Definition hdlr_payload (start : view) (handler : jsstr) (rest : view) : view :=
  start ++ handler ++ rest.
Definition stsd_payload (flags : view) (entries : Z) (entry : mp4_box) (rest : view) : view :=
  flags ++ be32 entries ++ encode_box entry ++ rest.
Definition stsd_ok (flags : view) (entries : Z) (entry : mp4_box) (rest : view) : Prop :=
  length flags = 4%nat ∧ u32 entries ∧ 1 ≤ entries ∧ box_ok entry ∧
  (e_form entry = ToEnd → rest = []).
Definition stts_entries (es : list (Z * Z)) : view :=
  concat (map (λ e, be32 e.1 ++ be32 e.2) es).
Definition stts_payload (flags : view) (es : list (Z * Z)) (rest : view) : view :=
  flags ++ be32 (Z.of_nat (length es)) ++ stts_entries es ++ rest.
Definition stts_ok (flags : view) (es : list (Z * Z)) : Prop :=
  length flags = 4%nat ∧ Forall (λ e, u32 e.1 ∧ u32 e.2) es ∧ u32 (Z.of_nat (length es)).

(** The sums over the entries and the rate they give. *)
Definition stts_sums (es : list (Z * Z)) (acc : num * num) : num * num :=
  fold_left (λ a e, (nadd a.1 (of_Z e.1), nadd a.2 (nmul (of_Z e.1) (of_Z e.2)))) es acc.
Definition stts_rate (es : list (Z * Z)) (timescale : Z) : option num :=
  let s := stts_sums es (of_Z 0, of_Z 0) in
  if nleb s.1 (of_Z 0) || nleb s.2 (of_Z 0) then None
  else Some (ndiv (nmul s.1 (of_Z timescale)) s.2).

Lemma byteLength_known (v : view) n : length v = n → byteLength v = Z.of_nat n.
Proof. by intros <-. Qed.

Lemma timescale_encoded v b ver flags times ts rest :
  holds v b (mdhd_payload ver flags times ts rest) → mdhd_ok ver flags times ts →
  getMp4TrackTimescale v b = Ok (if 0 <? ts then Some ts else None).
Proof.
  intros Hh (Hf & Ht & Hts). pose proof (holds_length _ _ _ Hh) as He.
  unfold mdhd_payload in *.
  set (tail := flags ++ times ++ be32 ts ++ rest) in *.
  assert (byteLength (ver :: tail) = (if (ver =? 1)%N then 24 else 16) + byteLength rest) as Hlen.
  { change (ver :: tail) with ([ver] ++ flags ++ times ++ be32 ts ++ rest).
    rewrite !byteLength_app, byteLength_be32, (byteLength_known flags _ Hf),
      (byteLength_known times _ Ht). change (byteLength [ver]) with 1.
    destruct (ver =? 1)%N; lia. }
  rewrite Hlen in He. pose proof (byteLength_nonneg rest). unfold getMp4TrackTimescale.
  destruct (Z.ltb_spec (box_end b) (contentStart b + 4)); [destruct (ver =? 1)%N; lia|].
  pose proof (holds_getUint8 v b [] ver tail Hh) as H8.
  change (byteLength []) with 0 in H8. rewrite Z.add_0_r in H8. rewrite H8.
  cbn [mbind exc_bind]. cbv zeta.
  assert ((Z.of_N ver =? 1) = (ver =? 1)%N) as ->
    by (destruct (N.eqb_spec ver 1), (Z.eqb_spec (Z.of_N ver) 1); lia).
  pose proof (holds_getUint32 v b ((ver :: flags) ++ times) ts rest) as H32.
  rewrite <- app_assoc in H32. specialize (H32 Hh Hts).
  rewrite byteLength_app, (byteLength_known times _ Ht),
    (byteLength_known (ver :: flags) 4) in H32 by (simpl; by rewrite Hf).
  destruct (ver =? 1)%N;
    (match goal with |- context [box_end b <? ?x] => destruct (Z.ltb_spec (box_end b) x) end; [lia|]).
  - change (Z.of_nat 4 + Z.of_nat 16) with 20 in H32. by rewrite H32.
  - change (Z.of_nat 4 + Z.of_nat 8) with 12 in H32. by rewrite H32.
Qed.

Lemma codec_encoded v b flags n entry rest :
  holds v b (stsd_payload flags n entry rest) → stsd_ok flags n entry rest →
  getMp4SampleEntryCodec v b = Ok (Some (e_type entry)).
Proof.
  intros Hh (Hfl & Hn & Hpos & Hok & Hlast). pose proof (holds_length _ _ _ Hh) as He.
  pose proof (byteLength_encode entry (proj1 Hok)) as Hl.
  pose proof (byteLength_known flags _ Hfl) as Hf4. change (Z.of_nat 4) with 4 in Hf4.
  unfold stsd_payload in *. rewrite !byteLength_app, byteLength_be32, Hl, Hf4 in He.
  pose proof (byteLength_nonneg rest). pose proof (box_size_bounds entry).
  pose proof (header_size_bounds (e_form entry)).
  unfold getMp4SampleEntryCodec. destruct (_ || _) eqn:E.
  { apply orb_true_iff in E as [E|E]; bool_to_prop; lia. }
  rewrite <- Hf4 at 1.
  rewrite (holds_getUint32 v b flags n (encode_box entry ++ rest)) by done.
  cbn [mbind exc_bind]. destruct (Z.ltb_spec n 1); [lia|].
  destruct Hh as (pre & post & -> & Hc & Hend).
  replace (contentStart b + 8) with (byteLength (pre ++ flags ++ be32 n))
    by (rewrite !byteLength_app, byteLength_be32, Hf4; lia).
  replace (pre ++ (flags ++ be32 n ++ encode_box entry ++ rest) ++ post)
    with ((pre ++ flags ++ be32 n) ++ encode_box entry ++ (rest ++ post))
    by by rewrite <- !app_assoc.
  rewrite readMp4Box_encoded; [done|done| |].
  - rewrite !byteLength_app, !byteLength_be32, Hl. pose proof (byteLength_nonneg post). lia.
  - intros Et. rewrite !byteLength_app, !byteLength_be32. rewrite (Hlast Et) in He.
    change (byteLength []) with 0 in He. lia.
Qed.

Lemma stts_entries_length es : byteLength (stts_entries es) = 8 * Z.of_nat (length es).
Proof.
  induction es as [|e es IH]; [done|].
  change (stts_entries (e :: es)) with ((be32 e.1 ++ be32 e.2) ++ stts_entries es).
  rewrite byteLength_app, IH, byteLength_app, !byteLength_be32. simpl length. lia.
Qed.

Lemma stts_loop_encoded fuel v b a es rest s t :
  holds v b (a ++ stts_entries es ++ rest) → Forall (λ e, u32 e.1 ∧ u32 e.2) es →
  (length es < fuel)%nat →
  stts_loop fuel v (box_end b) (Z.of_nat (length es)) (contentStart b + byteLength a) s t
  = Ok (Some (stts_sums es (s, t))).
Proof.
  revert fuel a s t; induction es as [|[c d] es IH]; intros fuel a s t Hh Hu Hf;
    (destruct fuel as [|fuel]; [simpl in Hf; lia|]); cbn [stts_loop length].
  { done. }
  apply Forall_cons in Hu as [[Hc Hd] Hu]. cbn [fst snd] in *.
  destruct (Z.leb_spec (Z.of_nat (S (length es))) 0); [lia|].
  pose proof (holds_length _ _ _ Hh) as He. rewrite !byteLength_app, stts_entries_length in He.
  pose proof (byteLength_nonneg rest).
  cbn [length] in He. destruct (Z.ltb_spec (box_end b) (contentStart b + byteLength a + 8)); [lia|].
  change (stts_entries ((c, d) :: es)) with ((be32 c ++ be32 d) ++ stts_entries es) in Hh.
  rewrite <- !app_assoc in Hh.
  rewrite (holds_getUint32 v b a c _ Hh Hc). cbn [mbind exc_bind].
  pose proof (holds_getUint32 v b (a ++ be32 c) d (stts_entries es ++ rest)) as H2.
  rewrite <- app_assoc, byteLength_app, byteLength_be32, Z.add_assoc in H2.
  rewrite (H2 Hh Hd). cbn [mbind exc_bind].
  specialize (IH fuel (a ++ be32 c ++ be32 d)). rewrite !byteLength_app, !byteLength_be32 in IH.
  rewrite <- !app_assoc in IH.
  replace (Z.of_nat (S (length es)) - 1) with (Z.of_nat (length es)) by lia.
  replace (contentStart b + byteLength a + 8) with (contentStart b + (byteLength a + (4 + 4))) by lia.
  rewrite IH; [done|done|done|simpl in Hf; lia].
Qed.

Lemma rate_encoded v b flags es rest ts :
  holds v b (stts_payload flags es rest) → stts_ok flags es →
  getMp4AverageFrameRate v b ts = Ok (stts_rate es ts).
Proof.
  intros Hh (Hfl & Hu & Hn). pose proof (holds_length _ _ _ Hh) as He. unfold stts_payload in *.
  pose proof (byteLength_known flags _ Hfl) as Hf4. change (Z.of_nat 4) with 4 in Hf4.
  rewrite !byteLength_app, byteLength_be32, stts_entries_length, Hf4 in He.
  pose proof (byteLength_nonneg rest).
  unfold getMp4AverageFrameRate. destruct (Z.ltb_spec (box_end b) (contentStart b + 4 + 4)); [lia|].
  rewrite <- Hf4 at 1.
  rewrite (holds_getUint32 v b flags _ (stts_entries es ++ rest)) by done. cbn [mbind exc_bind].
  pose proof (stts_loop_encoded (S (S (length v))) v b (flags ++ be32 (Z.of_nat (length es))) es rest
    (of_Z 0) (of_Z 0)) as Hl.
  rewrite <- app_assoc, byteLength_app, byteLength_be32, Hf4 in Hl. change (4 + 4) with 8 in Hl.
  rewrite Hl; [|done|done|].
  - cbn [mbind exc_bind]. unfold stts_rate. destruct (stts_sums _ _) as [x y]. cbn [fst snd].
    by destruct (_ || _).
  - destruct Hh as (pre & post & -> & _). rewrite !length_app.
    pose proof (stts_entries_length es) as Hsl. unfold byteLength in Hsl. lia.
Qed.

Lemma handler_read v b start h rest :
  holds v b (hdlr_payload start h rest) → length start = 8%nat → length h = 4%nat →
  readFourCC v (contentStart b + 8) = Ok h.
Proof.
  intros Hh Hs Hl. pose proof (holds_readFourCC v b start h rest Hh Hl) as H.
  by rewrite (byteLength_known start _ Hs) in H.
Qed.

(** ** What the tracks of a file say *)

(** [p] is a track with media boxes [mb]. *)
Definition media (p : view) (mb : list mp4_box) : Prop :=
  ∃ tb q, container p tb ∧ child tb (js "mdia") = Some q ∧ container q mb.

(** The media boxes name the handler [h]. *)
Definition handled_by (mb : list mp4_box) (h : jsstr) : Prop :=
  ∃ start rest, child mb (js "hdlr") = Some (hdlr_payload start h rest) ∧
                length start = 8%nat ∧ length h = 4%nat.

(** The boxes of the sample table among the media boxes; none when there is
    no table. *)
Inductive sample_table (mb : list mp4_box) : list mp4_box → Prop :=
| NoInformation : child mb (js "minf") = None → sample_table mb []
| NoTable q nb : child mb (js "minf") = Some q → container q nb →
    child nb (js "stbl") = None → sample_table mb []
| Table q nb q' sb : child mb (js "minf") = Some q → container q nb →
    child nb (js "stbl") = Some q' → container q' sb → sample_table mb sb.

(** A rate is used when there is one and it is a finite number other than
    zero. *)
Definition usable (codec : jsstr) (rate : option num) : option ReferenceMp4VideoMetadata :=
  match rate with
  | Some r => if num_truthy r && is_finite r then Some (Metadata codec r) else None
  | None => None
  end.

(** What one track says: its codec and rate when it is a complete video track
    with a usable rate, otherwise nothing. *)
Inductive track_says (p : view) : option ReferenceMp4VideoMetadata → Prop :=
| NoMedia tb : container p tb → child tb (js "mdia") = None → track_says p None
| NoHandler mb : media p mb → child mb (js "hdlr") = None → track_says p None
| OtherHandler mb h : media p mb → handled_by mb h → h ≠ js "vide" → track_says p None
| IncompleteVideo mb sb : media p mb → handled_by mb (js "vide") → sample_table mb sb →
    (child mb (js "mdhd") = None ∨ child sb (js "stsd") = None ∨ child sb (js "stts") = None) →
    track_says p None
| VideoTrack mb sb version flags times ts rest flags' n entry rest' flags'' es rest'' :
    media p mb → handled_by mb (js "vide") → sample_table mb sb →
    child mb (js "mdhd") = Some (mdhd_payload version flags times ts rest) →
    child sb (js "stsd") = Some (stsd_payload flags' n entry rest') →
    child sb (js "stts") = Some (stts_payload flags'' es rest'') →
    mdhd_ok version flags times ts → stsd_ok flags' n entry rest' → stts_ok flags'' es →
    track_says p (usable (e_type entry) (if 0 <? ts then stts_rate es ts else None)).

(** What a list of boxes says: the first track with something to say. *)
Inductive tracks_say : list mp4_box → option ReferenceMp4VideoMetadata → Prop :=
| SayNothing : tracks_say [] None
| SkipBox b bs r : e_type b ≠ js "trak" → tracks_say bs r → tracks_say (b :: bs) r
| SkipTrack b bs r : e_type b = js "trak" → track_says (e_payload b) None →
    tracks_say bs r → tracks_say (b :: bs) r
| FirstTrack b bs m : e_type b = js "trak" → track_says (e_payload b) (Some m) →
    tracks_say (b :: bs) (Some m).

Lemma media_read v b p mb :
  holds v b p → media p mb →
  ∃ mdia q, getMp4Child v b (js "mdia") = Ok (Some mdia) ∧ holds v mdia q ∧ container q mb.
Proof.
  intros Hh (tb & q & Htb & Hc & Hq).
  destruct (child_found _ _ _ _ _ _ Hh Htb Hc) as (mdia & ? & ?). eauto.
Qed.

Lemma handled_read v mdia q mb h :
  holds v mdia q → container q mb → handled_by mb h →
  ∃ hdlr, getMp4Child v mdia (js "hdlr") = Ok (Some hdlr) ∧
          readFourCC v (contentStart hdlr + 8) = Ok h.
Proof.
  intros Hh Hq (start & rest & Hc & Hs & Hl).
  destruct (child_found _ _ _ _ _ _ Hh Hq Hc) as (hdlr & ? & Hd).
  exists hdlr. split; [done|]. by eapply handler_read.
Qed.

(** The children of an optional box. *)
Definition opt_child (v : view) (p : option Mp4Box) (t : jsstr) : exc (option Mp4Box) :=
  match p with Some p => getMp4Child v p t | None => Ok None end.

Lemma sample_table_read v mdia q mb sb :
  holds v mdia q → container q mb → sample_table mb sb →
  ∃ minf stbl, getMp4Child v mdia (js "minf") = Ok minf ∧
    opt_child v minf (js "stbl") = Ok stbl ∧
    ∀ t, match child sb t with
         | Some pl => ∃ c, opt_child v stbl t = Ok (Some c) ∧ holds v c pl
         | None => opt_child v stbl t = Ok None
         end.
Proof.
  intros Hh Hq [Hm|q1 nb Hm Hn Hs|q1 nb q2 sb' Hm Hn Hs Hsb].
  - exists None, None. split; [by eapply child_absent|done].
  - destruct (child_found _ _ _ _ _ _ Hh Hq Hm) as (minf & E1 & H1).
    exists (Some minf), None. split; [done|]. split; [by eapply child_absent|done].
  - destruct (child_found _ _ _ _ _ _ Hh Hq Hm) as (minf & E1 & H1).
    destruct (child_found _ _ _ _ _ _ H1 Hn Hs) as (stbl & E2 & H2).
    exists (Some minf), (Some stbl). split; [done|]. split; [done|].
    intros t. by apply (child_read v stbl q2 sb').
Qed.

(** A child that is absent, or present with some payload. *)
Lemma opt_read v (p : option Mp4Box) bs t :
  match child bs t with
  | Some pl => ∃ c, opt_child v p t = Ok (Some c) ∧ holds v c pl
  | None => opt_child v p t = Ok None
  end →
  ∃ r, opt_child v p t = Ok r ∧ (child bs t = None → r = None).
Proof.
  destruct (child bs t).
  - intros (c & -> & _). by eexists.
  - intros ->. by eexists.
Qed.

(** The part of the loop body after the handler test. *)
Lemma track_metadata_video v b mdia hdlr :
  getMp4Child v b (js "mdia") = Ok (Some mdia) →
  getMp4Child v mdia (js "hdlr") = Ok (Some hdlr) →
  readFourCC v (contentStart hdlr + 8) = Ok (js "vide") →
  track_metadata v b =
    (mdhd ← getMp4Child v mdia (js "mdhd");
     minf ← getMp4Child v mdia (js "minf");
     stbl ← opt_child v minf (js "stbl");
     stsd ← opt_child v stbl (js "stsd");
     stts ← opt_child v stbl (js "stts");
     match mdhd, stsd, stts with
     | Some mdhd, Some stsd, Some stts =>
         timescale ← getMp4TrackTimescale v mdhd;
         codec ← getMp4SampleEntryCodec v stsd;
         rate ← match timescale with
                | Some ts => getMp4AverageFrameRate v stts ts
                | None => Ok None
                end;
         match codec, rate with
         | Some codec, Some rate =>
             if negb (truthy codec) || negb (num_truthy rate) || negb (is_finite rate)
             then Ok None else Ok (Some (Metadata codec rate))
         | _, _ => Ok None
         end
     | _, _, _ => Ok None
     end).
Proof.
  intros E1 E2 E3. unfold track_metadata. rewrite E1. cbn [mbind exc_bind].
  rewrite E2. cbn [mbind exc_bind]. rewrite E3. cbn [mbind exc_bind].
  by change (negb (str_eqb (js "vide") (js "vide"))) with false.
Qed.

Lemma incomplete_skipped v b p mb sb :
  holds v b p → media p mb → handled_by mb (js "vide") → sample_table mb sb →
  (child mb (js "mdhd") = None ∨ child sb (js "stsd") = None ∨ child sb (js "stts") = None) →
  track_metadata v b = Ok None.
Proof.
  intros Hh Hm Hhd Hst Hmiss. destruct (media_read _ _ _ _ Hh Hm) as (mdia & q & E1 & H1 & Hq).
  destruct (handled_read _ _ _ _ _ H1 Hq Hhd) as (hdlr & E2 & E3).
  destruct (sample_table_read _ _ _ _ _ H1 Hq Hst) as (minf & stbl & E4 & E5 & Hch).
  destruct (opt_read v (Some mdia) mb (js "mdhd") (child_read _ _ _ _ _ H1 Hq)) as (mdhd & E6 & N1).
  destruct (opt_read _ _ _ _ (Hch (js "stsd"))) as (stsd & E7 & N2).
  destruct (opt_read _ _ _ _ (Hch (js "stts"))) as (stts & E8 & N3).
  rewrite (track_metadata_video v b mdia hdlr E1 E2 E3). cbn [opt_child] in E6.
  rewrite E6. cbn [mbind exc_bind]. rewrite E4. cbn [mbind exc_bind]. rewrite E5.
  cbn [mbind exc_bind]. rewrite E7. cbn [mbind exc_bind]. rewrite E8. cbn [mbind exc_bind].
  destruct Hmiss as [M|[M|M]]; [rewrite (N1 M)|rewrite (N2 M)|rewrite (N3 M)];
    by destruct mdhd, stsd.
Qed.

(** One track is read as it says. *)
Lemma track_read v b p r : holds v b p → track_says p r → track_metadata v b = Ok r.
Proof.
  intros Hh [tb Htb Hc|mb Hm Hc|mb h Hm Hhd Hne|mb sb Hm Hhd Hst Hmiss|
    mb sb ver fl tm ts rest fl' n entry rest' fl'' es rest'' Hm Hhd Hst C1 C2 C3 O1 O2 O3].
  - unfold track_metadata. by rewrite (child_absent _ _ _ _ _ Hh Htb Hc).
  - destruct (media_read _ _ _ _ Hh Hm) as (mdia & q & E1 & H1 & Hq).
    unfold track_metadata. rewrite E1. cbn [mbind exc_bind].
    by rewrite (child_absent _ _ _ _ _ H1 Hq Hc).
  - destruct (media_read _ _ _ _ Hh Hm) as (mdia & q & E1 & H1 & Hq).
    destruct (handled_read _ _ _ _ _ H1 Hq Hhd) as (hdlr & E2 & E3).
    unfold track_metadata. rewrite E1. cbn [mbind exc_bind]. rewrite E2. cbn [mbind exc_bind].
    rewrite E3. cbn [mbind exc_bind]. unfold str_eqb. by rewrite bool_decide_false.
  - by eapply incomplete_skipped.
  - destruct (media_read _ _ _ _ Hh Hm) as (mdia & q & E1 & H1 & Hq).
    destruct (handled_read _ _ _ _ _ H1 Hq Hhd) as (hdlr & E2 & E3).
    destruct (sample_table_read _ _ _ _ _ H1 Hq Hst) as (minf & stbl & E4 & E5 & Hch).
    destruct (child_found _ _ _ _ _ _ H1 Hq C1) as (mdhd & E6 & H6).
    pose proof (Hch (js "stsd")) as H7. rewrite C2 in H7. destruct H7 as (stsd & E7 & H7).
    pose proof (Hch (js "stts")) as H8. rewrite C3 in H8. destruct H8 as (stts & E8 & H8).
    rewrite (track_metadata_video v b mdia hdlr E1 E2 E3).
    rewrite E6. cbn [mbind exc_bind]. rewrite E4. cbn [mbind exc_bind]. rewrite E5.
    cbn [mbind exc_bind]. rewrite E7. cbn [mbind exc_bind]. rewrite E8. cbn [mbind exc_bind].
    rewrite (timescale_encoded _ _ _ _ _ _ _ H6 O1). cbn [mbind exc_bind].
    rewrite (codec_encoded _ _ _ _ _ _ H7 O2). cbn [mbind exc_bind].
    destruct (0 <? ts); [|done]. rewrite (rate_encoded _ _ _ _ _ _ H8 O3). cbn [mbind exc_bind].
    destruct O2 as (_ & _ & _ & [Ht _] & _). unfold usable.
    destruct (stts_rate es ts) as [rate|]; [|done].
    assert (truthy (e_type entry) = true) as -> by by destruct (e_type entry).
    by destruct (num_truthy rate), (is_finite rate).
Qed.

(** The first track with something to say decides. *)
Lemma tracks_read v cs bs r :
  Forall2 (λ c b, box_type c = e_type b ∧ holds v c (e_payload b)) cs bs → tracks_say bs r →
  tracks_loop v (filterb (λ b, str_eqb (box_type b) (js "trak")) cs) = Ok r.
Proof.
  intros HF Hs. revert cs HF; induction Hs as [|b bs r Hne _ IH|b bs r Hty Ht _ IH|b bs m Hty Ht];
    intros cs HF.
  { by apply Forall2_nil_inv_r in HF as ->. }
  all: apply Forall2_cons_inv_r in HF as (c & cs' & [Hc Hh] & HF & ->);
    unfold filterb; simpl; rewrite Hc; unfold str_eqb at 1.
  - rewrite bool_decide_false by done. by apply IH.
  - rewrite bool_decide_true by done. simpl. rewrite (track_read _ _ _ _ Hh Ht).
    cbn [mbind exc_bind]. by apply IH.
  - rewrite bool_decide_true by done. simpl. by rewrite (track_read _ _ _ _ Hh Ht).
Qed.

(** ** Properties *)

(** A file: boxes, the [moov] box with its own boxes, whatever follows. *)
Definition moov_file (before : list mp4_box) (form : size_form) (moov : list mp4_box)
    (after : view) : view :=
  encode_boxes before ++ encode_box (Encoded form (js "moov") (encode_boxes moov)) ++ after.

Lemma moov_found before form moov after :
  let m := Encoded form (js "moov") (encode_boxes moov) in
  Forall plain_box before → box_ok m → (form = ToEnd → after = []) →
  findMp4MoovBox (moov_file before form moov after) =
    Ok (if 32 * 1024 * 1024 <? box_size m then None else Some (encode_box m)).
Proof.
  intros m Hb Hm Hend. unfold findMp4MoovBox, moov_file.
  apply (moov_loop_encoded _ []); [done..|].
  rewrite !length_app. assert (length before ≤ length (encode_boxes before))%nat; [|lia].
  clear Hend. induction Hb as [|b bs ([Hl _] & _) _ IH]; [done|].
  change (encode_boxes (b :: bs)) with (encode_box b ++ encode_boxes bs).
  rewrite length_app. pose proof (byteLength_encode b Hl). pose proof (box_size_bounds b).
  pose proof (header_size_bounds (e_form b)). unfold byteLength in *. simpl length. lia.
Qed.

Lemma moov_box_read m :
  box_ok m →
  readMp4Box (encode_box m) 0 (byteLength (encode_box m)) =
    Ok (Some (Box (e_type m) 0 (header_size (e_form m)) (box_size m))).
Proof.
  intros Hm. pose proof (readMp4Box_encoded [] m [] (byteLength (encode_box m)) Hm) as H.
  rewrite app_nil_r in H. cbn [app] in H. change (byteLength []) with 0 in H.
  rewrite (byteLength_encode m (proj1 Hm)) in *. rewrite !Z.add_0_l in H. by apply H.
Qed.

(** Reading a file never throws and always terminates: whatever the
    bytes of the file, no read is outside its view, the scans for the [moov]
    box, for children and for time-to-sample entries end within their
    bounds, and the result is the metadata or nothing. *)
Theorem mp4_metadata_total (file : view) :
  ∃ m, getReferenceMp4VideoMetadata file = Ok m.
Proof.
  change (returns (getReferenceMp4VideoMetadata file)).
  unfold getReferenceMp4VideoMetadata. apply returns_bind.
  - apply moov_loop_returns; [done|]. unfold byteLength. lia.
  - intros [moov|] _; [apply parse_returns|ret].
Qed.

(** The children of a box that starts inside the view are read without
    an exception, tile its content from the start without gap or overlap,
    never leave the parent, and each lies inside the view with its content
    after its header. *)
Theorem mp4_children_tile (v : view) (parent : Mp4Box) :
  0 ≤ contentStart parent →
  ∃ bs, getMp4Children v parent = Ok bs ∧
        tiled (contentStart parent) (box_end parent) bs ∧ Forall (box_in v) bs.
Proof.
  intros H. destruct (getMp4Children_returns v parent H) as [bs Hbs].
  exists bs. split; [done|]. by eapply children_loop_tiled.
Qed.

Definition sample_boxes : list mp4_box :=
  [Encoded Size32 (js "free") [1; 2]%N; Encoded Size64 (js "moov") [];
   Encoded ToEnd (js "mdat") [7; 7; 7]%N].

Lemma mp4_children_tile_witness :
  ∃ bs, getMp4Children (encode_boxes sample_boxes) (Box (js "root") 0 0 37) = Ok bs ∧
        tiled 0 37 bs ∧ Forall (box_in (encode_boxes sample_boxes)) bs.
Proof. apply (mp4_children_tile _ (Box (js "root") 0 0 37)). done. Defined.

(** Boxes written one after the other are read back: the children of a
    box whose payload is a sequence of encoded boxes are those boxes, with
    their types, in order, each at the place of its payload. *)
Theorem mp4_children_roundtrip (v : view) (parent : Mp4Box) (bs : list mp4_box) :
  holds v parent (encode_boxes bs) → boxes_ok bs →
  ∃ cs, getMp4Children v parent = Ok cs ∧
        Forall2 (λ c b, box_type c = e_type b ∧ holds v c (e_payload b)) cs bs.
Proof.
  intros Hh Hok. exists (locate (contentStart parent) bs).
  split; [by apply getMp4Children_encoded|].
  destruct Hh as (pre & post & -> & -> & _). by apply locate_holds.
Qed.

(** Small boxes are well formed by evaluation. *)
Ltac boxes_by_computation :=
  repeat match goal with
  | |- boxes_ok _ => cbn [boxes_ok map app]
  | |- _ ∧ _ => split
  | |- box_ok _ => split; [reflexivity|vm_compute; first [reflexivity|discriminate]]
  | |- True => exact I
  | |- _ → _ => intros E; first [discriminate E|reflexivity]
  end.

Lemma mp4_children_roundtrip_witness :
  ∃ cs, getMp4Children (encode_boxes sample_boxes) (Box (js "root") 0 0 37) = Ok cs ∧
        Forall2 (λ c b, box_type c = e_type b ∧
                        holds (encode_boxes sample_boxes) c (e_payload b)) cs sample_boxes.
Proof.
  apply mp4_children_roundtrip.
  - exists [], []. split; [by rewrite app_nil_r|]. split; vm_compute; reflexivity.
  - unfold sample_boxes. boxes_by_computation.
Defined.

(** C2.  End to end, for a file that is a sequence of boxes (32-bit, 64-bit or
    to-the-end sizes, below 2^53) up to its first [moov] box, whose own boxes
    and those of its tracks are well formed.  A [moov] box of more than
    32 MiB gives nothing.  Otherwise the reader returns the codec and the
    average rate sampleCount * timescale / totalTicks of the first video
    track that is complete and has a usable rate: tracks of another kind,
    without media, handler or tables, with a zero time scale (at the place
    the version of [mdhd] gives) or without samples, as in fragmented files,
    are skipped, and nothing is returned when no track is left. *)
Theorem mp4_metadata_correct (before moov : list mp4_box) (form : size_form) (after : view)
    (said : option ReferenceMp4VideoMetadata) :
  let m := Encoded form (js "moov") (encode_boxes moov) in
  Forall plain_box before → box_ok m → boxes_ok moov → (form = ToEnd → after = []) →
  tracks_say moov said →
  getReferenceMp4VideoMetadata (moov_file before form moov after) =
    Ok (if 32 * 1024 * 1024 <? box_size m then None else said).
Proof.
  intros m Hb Hm Hok Hend Hs. unfold getReferenceMp4VideoMetadata.
  rewrite moov_found by done. fold m. cbn [mbind exc_bind].
  destruct (32 * 1024 * 1024 <? box_size m); [done|]. unfold parseReferenceMp4VideoMetadata.
  rewrite (moov_box_read m Hm). cbn [mbind exc_bind box_type].
  change (negb (str_eqb (e_type m) (js "moov"))) with false. cbv iota.
  pose proof (byteLength_header m (proj1 Hm)) as Hh.
  assert (encode_box m = encode_header m ++ encode_boxes moov ++ []) as ->
    by (unfold encode_box; by rewrite app_nil_r).
  rewrite (getMp4Children_encoded _ _ moov); [|by exists (encode_header m), []; rewrite Hh|done].
  cbn [mbind exc_bind contentStart]. rewrite <- Hh. eapply tracks_read; [|done].
  by apply (locate_holds (encode_header m) moov []).
Qed.

(** A file with a sound track, a fragmented video track and a video track
    written with 64-bit sizes and times. *)
Definition sample_stbl (flags : view) (es : list (Z * Z)) : list mp4_box :=
  [Encoded Size32 (js "stts") (stts_payload flags es []);
   Encoded ToEnd (js "stsd") (stsd_payload flags 1 (Encoded ToEnd (js "avc1") (replicate 8 0%N)) [])].
Definition sample_mdia (flags : view) (es : list (Z * Z)) : list mp4_box :=
  [Encoded Size32 (js "mdhd") (mdhd_payload 1 [0; 0; 0]%N (replicate 16 7%N) 15360 []);
   Encoded Size32 (js "hdlr") (hdlr_payload (replicate 8 0%N) (js "vide") []);
   Encoded Size64 (js "minf")
     (encode_boxes [Encoded Size32 (js "stbl") (encode_boxes (sample_stbl flags es))])].
Definition sample_trak (es : list (Z * Z)) : mp4_box :=
  Encoded Size64 (js "trak")
    (encode_boxes [Encoded Size32 (js "mdia") (encode_boxes (sample_mdia [0; 0; 0; 0]%N es))]).
Definition sample_sound : mp4_box :=
  Encoded Size32 (js "trak") (encode_boxes [Encoded Size32 (js "mdia")
    (encode_boxes [Encoded Size32 (js "hdlr") (hdlr_payload (replicate 8 0%N) (js "soun") [])])]).

Definition sample_moov : list mp4_box :=
  [Encoded Size32 (js "mvhd") [1]%N; sample_sound; sample_trak [];
   sample_trak [(100, 512); (20, 512)]].

Lemma sample_says es :
  es ∈ [[]; [(100, 512); (20, 512)]] →
  track_says (e_payload (sample_trak es)) (usable (js "avc1") (stts_rate es 15360)).
Proof.
  intros Hes.
  eapply (VideoTrack _ (sample_mdia [0; 0; 0; 0]%N es) (sample_stbl [0; 0; 0; 0]%N es)
    1 [0; 0; 0]%N (replicate 16 7%N) 15360 [] [0; 0; 0; 0]%N 1
    (Encoded ToEnd (js "avc1") (replicate 8 0%N)) [] [0; 0; 0; 0]%N es []).
  all: try reflexivity.
  - do 2 eexists. split; [split; [reflexivity|]|split; [reflexivity|split; [reflexivity|]]];
      set_unfold; destruct Hes as [->|[->|[]]]; boxes_by_computation.
  - exists (replicate 8 0%N), []. done.
  - eapply (Table _ _ [Encoded Size32 (js "stbl") (encode_boxes (sample_stbl [0; 0; 0; 0]%N es))]); [reflexivity| |reflexivity|]; (split; [reflexivity|]);
      set_unfold; destruct Hes as [->|[->|[]]]; boxes_by_computation.
  - split; [done|]. split; [done|]. split; [lia|vm_compute; reflexivity].
  - split; [done|]. split; [split; [lia|vm_compute; reflexivity]|]. boxes_by_computation. lia.
  - split; [done|]. set_unfold. destruct Hes as [->|[->|[]]];
      (split; [repeat constructor; vm_compute; done|split; [lia|vm_compute; reflexivity]]).
Qed.

Lemma mp4_metadata_correct_witness :
  ∃ rate, getReferenceMp4VideoMetadata
    (moov_file [Encoded Size32 (js "ftyp") [0]%N; Encoded Size64 (js "mdat") [9; 9]%N] Size64
       sample_moov [1; 2; 3]%N) = Ok (Some (Metadata (js "avc1") rate)) ∧ rate = of_Z 30 ∧
    isSeedance25ReferenceVideoMetadata (Some (Metadata (js "avc1") rate)) = true.
Proof.
  exists (of_Z 30). split; [|split; vm_compute; reflexivity].
  refine (eq_trans (mp4_metadata_correct _ sample_moov Size64 _
    (usable (js "avc1") (stts_rate [(100, 512); (20, 512)] 15360)) _ _ _ _ _) _).
  - repeat constructor; vm_compute; done.
  - boxes_by_computation.
  - unfold sample_moov. boxes_by_computation.
  - done.
  - apply SkipBox; [by vm_compute|].
    apply SkipTrack; [reflexivity| |apply SkipTrack; [reflexivity| |]].
    + apply (OtherHandler _
        [Encoded Size32 (js "hdlr") (hdlr_payload (replicate 8 0%N) (js "soun") [])] (js "soun")).
      * do 2 eexists. split; [split; [reflexivity|boxes_by_computation]|].
        split; [reflexivity|split; [reflexivity|boxes_by_computation]].
      * exists (replicate 8 0%N), []. split; reflexivity || (split; reflexivity).
      * by vm_compute.
    + apply (sample_says []). set_solver.
    + apply FirstTrack; [reflexivity|]. apply (sample_says [(100, 512); (20, 512)]). set_solver.
  - vm_compute. reflexivity.
Defined.

(** The extension table is read as a plain object, so names that
    objects inherit pass as file types: a file whose name ends in
    [.constructor] or [.__proto__] is accepted as an image, a video and an
    audio reference, whatever its MIME type. *)
Theorem inherited_extension_accepted `{CaseMap} (stem type : jsstr) (ext : jsstr)
    (ip : ReferenceImageProfile) (ap : ReferenceAudioProfile) :
  ext ∈ [js "constructor"; js "__proto__"] →
  let file := FileLike (join (js ".") [stem; ext]) type in
  46%N ∉ stem →
  isReferenceImageFile file ip = true ∧ isReferenceVideoFile file = true ∧
  isReferenceAudioFile file ap = true.
Proof.
  intros Hext file Hdot.
  assert (split (js ".") (name file) = [stem; ext]) as Hsplit.
  { apply split_join; [done|]. repeat constructor; [done|].
    set_unfold. destruct Hext as [->|[->|[]]]; vm_compute; set_solver. }
  assert (to_lower ext = ext) as Hlow.
  { rewrite to_lower_ascii; set_unfold; destruct Hext as [->|[->|[]]];
      try (vm_compute; reflexivity); repeat constructor. }
  assert (truthy ext = true) as Ht by (set_unfold; by destruct Hext as [->|[->|[]]]).
  unfold isReferenceImageFile, isReferenceVideoFile, isReferenceAudioFile,
    getReferenceImageMime, getReferenceVideoMime, getReferenceAudioMime, getReferenceMime.
  rewrite Hsplit. cbn [last from_opt]. rewrite Hlow, Ht.
  set_unfold. destruct ip, ap, Hext as [->|[->|[]]]; vm_compute; repeat split.
Qed.

Lemma inherited_extension_accepted_witness :
  isReferenceVideoFile (FileLike (js "notes.constructor") (js "text/plain")) = true.
Proof.
  apply (inherited_extension_accepted (js "notes") (js "text/plain") (js "constructor")
    ImageDefault AudioDefault).
  - apply list_elem_of_In. simpl. by left.
  - apply index_of_char. vm_compute. reflexivity.
Defined.
