(* ===== verification/XjzModels.v ===== *)
(** * Catalogue of XJZ video models

    Model of src/web/default/src/features/media-generation/xjz-video-models.ts:
    the specification of each model, the alias table, and the lookup, which
    uses own properties only. *)
From S2P Require Import Prelude JsString.

Open Scope Z_scope.

Inductive CreationVideoReferenceMode :=
  | Text | Image | Video | Multimodal | Frames | ImageAudio.

#[export] Instance mode_eq_dec : EqDecision CreationVideoReferenceMode.
Proof. solve_decision. Defined.

Record XJZVideoModelSpec := {
  durations : list jsstr;
  resolutions : list jsstr;
  ratios : list jsstr;
  referenceModes : list CreationVideoReferenceMode;
  maxImages : Z;
  minImages : option Z;
  maxVideos : Z;
  maxAudios : Z;
  imageField : option jsstr;
  videoField : option jsstr;
  audioField : option jsstr;
  ratioField : option jsstr;
  resolutionField : option jsstr;
  audioRequiresImage : bool;
  requestResolution : option jsstr;
  selectableResolution : bool;
  audioNeedsVisualReference : bool;
  allowFrames : bool;
}.

Definition strs (l : list string) : list jsstr := map js l.
Arguments strs l%_string.

(** [Array.from({ length: max - min + 1 }, (_, i) => String(min + i))]. *)
Definition seconds (min max : N) : list jsstr :=
  map (λ i, dec (min + N.of_nat i)) (seq 0 (N.to_nat (max - min + 1))).

Definition RATIOS_WIDE : list jsstr := strs ["16:9"; "9:16"; "1:1"; "4:3"; "3:4"; "21:9"].
Definition RATIOS_STANDARD : list jsstr := strs ["16:9"; "9:16"; "1:1"].
Definition DURATIONS_4_TO_15 : list jsstr := seconds 4 15.
Definition DURATIONS_5_TO_15 : list jsstr := seconds 5 15.
Definition DURATIONS_4_TO_30 : list jsstr := seconds 4 30.

Definition XJZ_VIDEO_MODELS_a : list (jsstr * XJZVideoModelSpec) := [
  (js "特价dola2.5-900-720P-固定30s",
   {| durations := strs ["30"];
      resolutions := strs ["720p"];
      ratios := RATIOS_WIDE;
      referenceModes := [Image];
      maxImages := 9; minImages := Some 1; maxVideos := 0; maxAudios := 0;
      imageField := Some (js "images"); videoField := None;
      audioField := None; ratioField := None;
      resolutionField := None; audioRequiresImage := false;
      requestResolution := Some (js "720p"); selectableResolution := false;
      audioNeedsVisualReference := false; allowFrames := false |});
  (js "特价dola-sd2.0-900-720p",
   {| durations := strs ["5"; "10"; "15"];
      resolutions := strs ["720p"];
      ratios := RATIOS_WIDE;
      referenceModes := [Image];
      maxImages := 1; minImages := Some 1; maxVideos := 0; maxAudios := 0;
      imageField := Some (js "images"); videoField := None;
      audioField := None; ratioField := None;
      resolutionField := None; audioRequiresImage := false;
      requestResolution := Some (js "720p"); selectableResolution := false;
      audioNeedsVisualReference := false; allowFrames := false |});
  (js "TTP-grok",
   {| durations := seconds 6 15;
      resolutions := strs ["720p"; "480p"];
      ratios := RATIOS_STANDARD;
      referenceModes := [Text; Image];
      maxImages := 7; minImages := None; maxVideos := 0; maxAudios := 0;
      imageField := Some (js "images"); videoField := None;
      audioField := None; ratioField := None;
      resolutionField := None; audioRequiresImage := false;
      requestResolution := None; selectableResolution := true;
      audioNeedsVisualReference := false; allowFrames := false |});
  (js "gz稳定sd2.0-903-720P",
   {| durations := DURATIONS_5_TO_15;
      resolutions := strs ["720p"];
      ratios := RATIOS_WIDE;
      referenceModes := [Text; Image; ImageAudio];
      maxImages := 9; minImages := None; maxVideos := 0; maxAudios := 3;
      imageField := Some (js "images"); videoField := None;
      audioField := Some (js "reference_audios"); ratioField := None;
      resolutionField := None; audioRequiresImage := false;
      requestResolution := Some (js "720p"); selectableResolution := false;
      audioNeedsVisualReference := false; allowFrames := false |});
  (js "Xminimex-h3-2K-933",
   {| durations := DURATIONS_5_TO_15;
      resolutions := strs ["2k"];
      ratios := RATIOS_WIDE;
      referenceModes := [Text; Image; Video; Multimodal];
      maxImages := 9; minImages := None; maxVideos := 3; maxAudios := 3;
      imageField := Some (js "images"); videoField := Some (js "reference_videos");
      audioField := Some (js "reference_audios"); ratioField := None;
      resolutionField := None; audioRequiresImage := false;
      requestResolution := Some (js "2k"); selectableResolution := false;
      audioNeedsVisualReference := false; allowFrames := false |});
  (js "特价sd2.0-720p-933-过脸",
   {| durations := DURATIONS_5_TO_15;
      resolutions := strs ["720p"];
      ratios := RATIOS_WIDE;
      referenceModes := [Text; Image; Video; Multimodal];
      maxImages := 9; minImages := None; maxVideos := 3; maxAudios := 3;
      imageField := Some (js "images"); videoField := Some (js "reference_videos");
      audioField := Some (js "reference_audios"); ratioField := None;
      resolutionField := None; audioRequiresImage := false;
      requestResolution := Some (js "720p"); selectableResolution := false;
      audioNeedsVisualReference := false; allowFrames := false |});
  (js "特价稳sd-2.5-30s-720P可10图",
   {| durations := strs ["30"];
      resolutions := strs ["720p"];
      ratios := RATIOS_WIDE;
      referenceModes := [Text; Image];
      maxImages := 10; minImages := None; maxVideos := 0; maxAudios := 0;
      imageField := Some (js "reference_images"); videoField := None;
      audioField := None; ratioField := None;
      resolutionField := None; audioRequiresImage := false;
      requestResolution := Some (js "720p"); selectableResolution := false;
      audioNeedsVisualReference := false; allowFrames := false |});
  (js "特价稳sd2.0-933-720p",
   {| durations := DURATIONS_5_TO_15;
      resolutions := strs ["720p"];
      ratios := RATIOS_WIDE;
      referenceModes := [Text; Image; Video; Multimodal];
      maxImages := 9; minImages := None; maxVideos := 3; maxAudios := 3;
      imageField := Some (js "reference_images"); videoField := Some (js "reference_videos");
      audioField := Some (js "reference_audios"); ratioField := None;
      resolutionField := None; audioRequiresImage := false;
      requestResolution := Some (js "720P"); selectableResolution := false;
      audioNeedsVisualReference := false; allowFrames := false |});
  (js "gz稳定sd2.5-720全参过脸",
   {| durations := DURATIONS_4_TO_30;
      resolutions := strs ["720p"];
      ratios := RATIOS_WIDE;
      referenceModes := [Text; Image; Video; Multimodal];
      maxImages := 30; minImages := None; maxVideos := 10; maxAudios := 10;
      imageField := Some (js "reference_images"); videoField := Some (js "reference_videos");
      audioField := Some (js "reference_audios"); ratioField := None;
      resolutionField := None; audioRequiresImage := false;
      requestResolution := Some (js "720P"); selectableResolution := false;
      audioNeedsVisualReference := false; allowFrames := false |});
  (js "gz稳定sd2.5-480全参过脸",
   {| durations := DURATIONS_4_TO_30;
      resolutions := strs ["480p"];
      ratios := RATIOS_WIDE;
      referenceModes := [Text; Image; Video; Multimodal];
      maxImages := 30; minImages := None; maxVideos := 10; maxAudios := 10;
      imageField := Some (js "reference_images"); videoField := Some (js "reference_videos");
      audioField := Some (js "reference_audios"); ratioField := None;
      resolutionField := None; audioRequiresImage := false;
      requestResolution := Some (js "480P"); selectableResolution := false;
      audioNeedsVisualReference := false; allowFrames := false |})].

Definition XJZ_VIDEO_MODELS_b : list (jsstr * XJZVideoModelSpec) := [
  (js "gz稳定sd2.5-1080全参过脸",
   {| durations := DURATIONS_4_TO_30;
      resolutions := strs ["1080p"];
      ratios := RATIOS_WIDE;
      referenceModes := [Text; Image; Video; Multimodal];
      maxImages := 30; minImages := None; maxVideos := 10; maxAudios := 10;
      imageField := Some (js "reference_images"); videoField := Some (js "reference_videos");
      audioField := Some (js "reference_audios"); ratioField := None;
      resolutionField := None; audioRequiresImage := false;
      requestResolution := Some (js "1080p"); selectableResolution := false;
      audioNeedsVisualReference := false; allowFrames := false |});
  (js "特价sd2.0-933-过脸",
   {| durations := DURATIONS_4_TO_15;
      resolutions := strs ["720p"];
      ratios := strs ["16:9"; "9:16"; "1:1"; "4:3"];
      referenceModes := [Text; Image; Video; Multimodal];
      maxImages := 9; minImages := None; maxVideos := 3; maxAudios := 3;
      imageField := Some (js "image_urls"); videoField := Some (js "video_urls");
      audioField := Some (js "audio_urls"); ratioField := None;
      resolutionField := None; audioRequiresImage := false;
      requestResolution := Some (js "720p"); selectableResolution := false;
      audioNeedsVisualReference := true; allowFrames := false |});
  (js "MiniMaxH3",
   {| durations := DURATIONS_4_TO_15;
      resolutions := strs ["2k"];
      ratios := RATIOS_STANDARD;
      referenceModes := [Text; Image; Frames; ImageAudio];
      maxImages := 9; minImages := None; maxVideos := 0; maxAudios := 3;
      imageField := Some (js "image_urls"); videoField := None;
      audioField := Some (js "audio_reference"); ratioField := None;
      resolutionField := None; audioRequiresImage := false;
      requestResolution := Some (js "2K"); selectableResolution := false;
      audioNeedsVisualReference := true; allowFrames := true |});
  (js "minimax-h3-2K-933",
   {| durations := seconds 4 15;
      resolutions := strs ["2k"];
      ratios := strs ["16:9"; "9:16"; "1:1"; "4:3"; "3:4"; "21:9"];
      referenceModes := [Text; Image; Video; Multimodal];
      maxImages := 9; minImages := None; maxVideos := 3; maxAudios := 3;
      imageField := Some (js "reference_images"); videoField := Some (js "reference_videos");
      audioField := Some (js "reference_audios"); ratioField := None;
      resolutionField := None; audioRequiresImage := false;
      requestResolution := Some (js "2k"); selectableResolution := false;
      audioNeedsVisualReference := false; allowFrames := false |});
  (js "sd2.5-全参过真人-30-10-10",
   {| durations := seconds 5 30;
      resolutions := strs ["480p"; "720p"; "1080p"];
      ratios := strs ["16:9"; "9:16"; "1:1"; "4:3"; "3:4"; "21:9"];
      referenceModes := [Text; Image; Video; Multimodal];
      maxImages := 30; minImages := None; maxVideos := 10; maxAudios := 10;
      imageField := Some (js "reference_images"); videoField := Some (js "reference_videos");
      audioField := Some (js "reference_audios"); ratioField := None;
      resolutionField := None; audioRequiresImage := false;
      requestResolution := None; selectableResolution := true;
      audioNeedsVisualReference := false; allowFrames := false |});
  (js "sd2.0-全参过真人-720p",
   {| durations := seconds 5 15;
      resolutions := strs ["720p"];
      ratios := strs ["16:9"; "9:16"; "1:1"; "4:3"; "3:4"; "21:9"];
      referenceModes := [Text; Image; Video; Multimodal];
      maxImages := 9; minImages := None; maxVideos := 3; maxAudios := 3;
      imageField := Some (js "reference_images"); videoField := Some (js "reference_videos");
      audioField := Some (js "reference_audios"); ratioField := None;
      resolutionField := None; audioRequiresImage := false;
      requestResolution := Some (js "720p"); selectableResolution := false;
      audioNeedsVisualReference := false; allowFrames := false |});
  (js "grok-1.5-700",
   {| durations := seconds 3 15;
      resolutions := strs ["720p"];
      ratios := strs ["16:9"; "9:16"; "1:1"; "4:3"; "3:4"; "21:9"];
      referenceModes := [Text; Image];
      maxImages := 7; minImages := None; maxVideos := 0; maxAudios := 0;
      imageField := Some (js "reference_images"); videoField := None;
      audioField := None; ratioField := None;
      resolutionField := None; audioRequiresImage := false;
      requestResolution := Some (js "720p"); selectableResolution := false;
      audioNeedsVisualReference := false; allowFrames := false |});
  (js "dola-sd-2.5",
   {| durations := seconds 5 30;
      resolutions := strs ["480p"; "720p"; "1080p"];
      ratios := strs ["16:9"; "9:16"; "1:1"; "4:3"; "3:4"; "21:9"];
      referenceModes := [Text; Image; Video; Multimodal];
      maxImages := 30; minImages := None; maxVideos := 10; maxAudios := 10;
      imageField := Some (js "reference_images"); videoField := Some (js "reference_videos");
      audioField := Some (js "reference_audios"); ratioField := None;
      resolutionField := None; audioRequiresImage := false;
      requestResolution := None; selectableResolution := true;
      audioNeedsVisualReference := false; allowFrames := false |});
  (js "dola-sd-2.0-900",
   {| durations := seconds 4 15;
      resolutions := strs ["720p"];
      ratios := strs ["16:9"; "9:16"; "1:1"; "4:3"; "3:4"; "21:9"];
      referenceModes := [Text; Image];
      maxImages := 9; minImages := None; maxVideos := 0; maxAudios := 0;
      imageField := Some (js "reference_images"); videoField := None;
      audioField := None; ratioField := None;
      resolutionField := None; audioRequiresImage := false;
      requestResolution := Some (js "720p"); selectableResolution := false;
      audioNeedsVisualReference := false; allowFrames := false |});
  (js "dola-sd-2.0",
   {| durations := seconds 4 15;
      resolutions := strs ["720p"];
      ratios := strs ["16:9"; "9:16"; "1:1"; "4:3"; "3:4"; "21:9"];
      referenceModes := [Text; Image; ImageAudio];
      maxImages := 9; minImages := None; maxVideos := 0; maxAudios := 3;
      imageField := Some (js "reference_images"); videoField := None;
      audioField := Some (js "reference_audios"); ratioField := None;
      resolutionField := None; audioRequiresImage := false;
      requestResolution := Some (js "720p"); selectableResolution := false;
      audioNeedsVisualReference := false; allowFrames := false |})].

Definition XJZ_VIDEO_MODELS_c : list (jsstr * XJZVideoModelSpec) := [
  (js "sd-2.0-933-720-fast-原生真人",
   {| durations := seconds 4 15;
      resolutions := strs ["720p"];
      ratios := strs ["16:9"; "9:16"; "1:1"; "4:3"; "3:4"; "21:9"];
      referenceModes := [Text; Image; Video; Multimodal];
      maxImages := 9; minImages := None; maxVideos := 3; maxAudios := 3;
      imageField := Some (js "reference_images"); videoField := Some (js "reference_videos");
      audioField := Some (js "reference_audios"); ratioField := None;
      resolutionField := None; audioRequiresImage := false;
      requestResolution := Some (js "720p"); selectableResolution := false;
      audioNeedsVisualReference := false; allowFrames := false |});
  (js "gz-sd2.5-1080p",
   {| durations := seconds 4 30;
      resolutions := strs ["1080p"];
      ratios := strs ["16:9"; "9:16"; "1:1"; "4:3"; "3:4"; "21:9"];
      referenceModes := [Text; Image; Video; Multimodal];
      maxImages := 30; minImages := None; maxVideos := 10; maxAudios := 10;
      imageField := Some (js "images"); videoField := Some (js "reference_videos");
      audioField := Some (js "reference_audios"); ratioField := None;
      resolutionField := None; audioRequiresImage := false;
      requestResolution := Some (js "1080P"); selectableResolution := false;
      audioNeedsVisualReference := false; allowFrames := false |});
  (js "gz-sd2.5-720p",
   {| durations := seconds 4 30;
      resolutions := strs ["720p"];
      ratios := strs ["16:9"; "9:16"; "1:1"; "4:3"; "3:4"; "21:9"];
      referenceModes := [Text; Image; Video; Multimodal];
      maxImages := 30; minImages := None; maxVideos := 10; maxAudios := 10;
      imageField := Some (js "images"); videoField := Some (js "reference_videos");
      audioField := Some (js "reference_audios"); ratioField := None;
      resolutionField := None; audioRequiresImage := false;
      requestResolution := Some (js "720P"); selectableResolution := false;
      audioNeedsVisualReference := false; allowFrames := false |});
  (js "gz-sd2.5-480p",
   {| durations := seconds 4 30;
      resolutions := strs ["480p"];
      ratios := strs ["16:9"; "9:16"; "1:1"; "4:3"; "3:4"; "21:9"];
      referenceModes := [Text; Image; Video; Multimodal];
      maxImages := 30; minImages := None; maxVideos := 10; maxAudios := 0;
      imageField := Some (js "images"); videoField := Some (js "reference_videos");
      audioField := None; ratioField := None;
      resolutionField := None; audioRequiresImage := false;
      requestResolution := Some (js "480P"); selectableResolution := false;
      audioNeedsVisualReference := false; allowFrames := false |});
  (js "gz-sd4k",
   {| durations := seconds 4 15;
      resolutions := strs ["4k"];
      ratios := strs ["16:9"; "9:16"; "1:1"; "4:3"; "3:4"; "2:3"; "3:2"; "21:9"];
      referenceModes := [Text; Image; Video; Multimodal];
      maxImages := 9; minImages := None; maxVideos := 3; maxAudios := 3;
      imageField := Some (js "images"); videoField := Some (js "reference_videos");
      audioField := Some (js "reference_audios"); ratioField := None;
      resolutionField := None; audioRequiresImage := true;
      requestResolution := Some (js "4K"); selectableResolution := false;
      audioNeedsVisualReference := false; allowFrames := false |});
  (js "gz-sd1080p",
   {| durations := seconds 4 15;
      resolutions := strs ["1080p"];
      ratios := strs ["16:9"; "9:16"; "1:1"; "4:3"; "3:4"; "2:3"; "3:2"; "21:9"];
      referenceModes := [Text; Image; Video; Multimodal];
      maxImages := 9; minImages := None; maxVideos := 3; maxAudios := 3;
      imageField := Some (js "images"); videoField := Some (js "reference_videos");
      audioField := Some (js "reference_audios"); ratioField := None;
      resolutionField := None; audioRequiresImage := true;
      requestResolution := Some (js "1080P"); selectableResolution := false;
      audioNeedsVisualReference := false; allowFrames := false |});
  (js "gz-sd720p",
   {| durations := seconds 4 15;
      resolutions := strs ["720p"];
      ratios := strs ["16:9"; "9:16"; "1:1"; "4:3"; "3:4"; "2:3"; "3:2"; "21:9"];
      referenceModes := [Text; Image; Video; Multimodal];
      maxImages := 9; minImages := None; maxVideos := 3; maxAudios := 3;
      imageField := Some (js "images"); videoField := Some (js "reference_videos");
      audioField := Some (js "reference_audios"); ratioField := None;
      resolutionField := None; audioRequiresImage := true;
      requestResolution := Some (js "720p"); selectableResolution := false;
      audioNeedsVisualReference := false; allowFrames := false |});
  (js "gz-sd480p",
   {| durations := seconds 4 15;
      resolutions := strs ["480p"];
      ratios := strs ["16:9"; "9:16"; "1:1"; "4:3"; "3:4"; "2:3"; "3:2"; "21:9"];
      referenceModes := [Text; Image; Video; Multimodal];
      maxImages := 9; minImages := None; maxVideos := 3; maxAudios := 3;
      imageField := Some (js "images"); videoField := Some (js "reference_videos");
      audioField := Some (js "reference_audios"); ratioField := None;
      resolutionField := None; audioRequiresImage := true;
      requestResolution := Some (js "480p"); selectableResolution := false;
      audioNeedsVisualReference := false; allowFrames := false |});
  (js "sd2.5-720p-ch1",
   {| durations := strs ["30"];
      resolutions := strs ["720p"];
      ratios := strs ["16:9"; "9:16"; "1:1"; "4:3"; "3:4"; "2:3"; "3:2"; "21:9"];
      referenceModes := [Text; Image];
      maxImages := 9; minImages := None; maxVideos := 0; maxAudios := 0;
      imageField := Some (js "images"); videoField := None;
      audioField := None; ratioField := None;
      resolutionField := None; audioRequiresImage := false;
      requestResolution := Some (js "720p"); selectableResolution := false;
      audioNeedsVisualReference := false; allowFrames := false |})].

Definition XJZ_VIDEO_MODELS_d : list (jsstr * XJZVideoModelSpec) := [
  (js "viraldance900",
   {| durations := seconds 4 15;
      resolutions := strs ["720p"];
      ratios := strs ["16:9"; "9:16"; "1:1"; "4:3"];
      referenceModes := [Text; Image];
      maxImages := 9; minImages := None; maxVideos := 0; maxAudios := 0;
      imageField := Some (js "image_urls"); videoField := None;
      audioField := None; ratioField := Some (js "aspect_ratio");
      resolutionField := Some (js "size"); audioRequiresImage := false;
      requestResolution := Some (js "720p"); selectableResolution := false;
      audioNeedsVisualReference := false; allowFrames := false |});
  (js "viraldance933",
   {| durations := seconds 4 15;
      resolutions := strs ["720p"];
      ratios := strs ["16:9"; "9:16"; "1:1"; "4:3"];
      referenceModes := [Text; Image; Video; Multimodal];
      maxImages := 9; minImages := None; maxVideos := 3; maxAudios := 3;
      imageField := Some (js "image_urls"); videoField := Some (js "video_urls");
      audioField := Some (js "audio_urls"); ratioField := None;
      resolutionField := None; audioRequiresImage := false;
      requestResolution := Some (js "720p"); selectableResolution := false;
      audioNeedsVisualReference := true; allowFrames := false |});
  (js "viraldance933-fast",
   {| durations := seconds 4 15;
      resolutions := strs ["720p"];
      ratios := strs ["16:9"; "9:16"; "1:1"; "4:3"];
      referenceModes := [Text; Image; Video; Multimodal];
      maxImages := 9; minImages := None; maxVideos := 3; maxAudios := 3;
      imageField := Some (js "image_urls"); videoField := Some (js "video_urls");
      audioField := Some (js "audio_urls"); ratioField := None;
      resolutionField := None; audioRequiresImage := false;
      requestResolution := Some (js "720p"); selectableResolution := false;
      audioNeedsVisualReference := true; allowFrames := false |});
  (js "viraldance933x-fast",
   {| durations := seconds 4 14;
      resolutions := strs ["720p"];
      ratios := strs ["16:9"; "9:16"; "1:1"];
      referenceModes := [Text; Image; Video; Multimodal];
      maxImages := 1; minImages := None; maxVideos := 1; maxAudios := 1;
      imageField := Some (js "image_url"); videoField := Some (js "video_url");
      audioField := Some (js "audio_url"); ratioField := Some (js "aspect_ratio");
      resolutionField := None; audioRequiresImage := false;
      requestResolution := Some (js "720p"); selectableResolution := false;
      audioNeedsVisualReference := false; allowFrames := false |});
  (js "viraldance2.5-15-stable",
   {| durations := seconds 4 15;
      resolutions := strs ["720p"];
      ratios := strs ["16:9"; "9:16"; "1:1"; "4:3"];
      referenceModes := [Text; Image; ImageAudio];
      maxImages := 30; minImages := None; maxVideos := 0; maxAudios := 3;
      imageField := Some (js "image_urls"); videoField := None;
      audioField := Some (js "audio_urls"); ratioField := None;
      resolutionField := None; audioRequiresImage := false;
      requestResolution := Some (js "720p"); selectableResolution := false;
      audioNeedsVisualReference := false; allowFrames := false |});
  (js "viraldance2.5-480p-15-stable",
   {| durations := seconds 4 15;
      resolutions := strs ["480p"];
      ratios := strs ["16:9"; "9:16"; "1:1"; "4:3"];
      referenceModes := [Text; Image; ImageAudio];
      maxImages := 30; minImages := None; maxVideos := 0; maxAudios := 3;
      imageField := Some (js "image_urls"); videoField := None;
      audioField := Some (js "audio_urls"); ratioField := None;
      resolutionField := None; audioRequiresImage := false;
      requestResolution := Some (js "480p"); selectableResolution := false;
      audioNeedsVisualReference := false; allowFrames := false |});
  (js "viraldance2.5x-30",
   {| durations := seconds 4 30;
      resolutions := strs ["720p"];
      ratios := strs ["16:9"; "9:16"; "1:1"; "4:3"];
      referenceModes := [Text; Image; ImageAudio];
      maxImages := 30; minImages := None; maxVideos := 0; maxAudios := 3;
      imageField := Some (js "image_urls"); videoField := None;
      audioField := Some (js "audio_urls"); ratioField := None;
      resolutionField := None; audioRequiresImage := false;
      requestResolution := Some (js "720p"); selectableResolution := false;
      audioNeedsVisualReference := false; allowFrames := false |});
  (js "viraldance2.5x-480p-30",
   {| durations := seconds 4 30;
      resolutions := strs ["480p"];
      ratios := strs ["16:9"; "9:16"; "1:1"; "4:3"];
      referenceModes := [Text; Image; ImageAudio];
      maxImages := 30; minImages := None; maxVideos := 0; maxAudios := 3;
      imageField := Some (js "image_urls"); videoField := None;
      audioField := Some (js "audio_urls"); ratioField := None;
      resolutionField := None; audioRequiresImage := false;
      requestResolution := Some (js "480p"); selectableResolution := false;
      audioNeedsVisualReference := false; allowFrames := false |});
  (js "quanneng2.0",
   {| durations := strs ["15"];
      resolutions := strs ["720p"];
      ratios := strs ["16:9"; "9:16"; "1:1"; "4:3"; "3:4"; "2:3"; "3:2"; "21:9"];
      referenceModes := [Text; Image; Video; Multimodal];
      maxImages := 9; minImages := None; maxVideos := 3; maxAudios := 3;
      imageField := Some (js "images"); videoField := Some (js "reference_videos");
      audioField := Some (js "reference_audios"); ratioField := None;
      resolutionField := None; audioRequiresImage := false;
      requestResolution := Some (js "720P"); selectableResolution := false;
      audioNeedsVisualReference := false; allowFrames := false |})].

Definition XJZ_VIDEO_MODELS : list (jsstr * XJZVideoModelSpec) :=
  XJZ_VIDEO_MODELS_a ++ XJZ_VIDEO_MODELS_b ++ XJZ_VIDEO_MODELS_c ++ XJZ_VIDEO_MODELS_d.

Definition XJZ_VIDEO_ALIASES : list (jsstr * jsstr) := [
  (js "sd2.5-全参过真人-30-10-10-B", js "sd2.5-全参过真人-30-10-10");
  (js "sd2.0-全参过真人-720p-B", js "sd2.0-全参过真人-720p");
  (js "grok-1.5-700-B", js "grok-1.5-700");
  (js "dola-sd-2.5-B", js "dola-sd-2.5");
  (js "dola-sd-2.0-900-B", js "dola-sd-2.0-900");
  (js "dola-sd-2.0-B", js "dola-sd-2.0");
  (js "sd-2.0-933-720-fast-原生真人-B", js "sd-2.0-933-720-fast-原生真人");
  (js "gz稳定sd2.0-903-720P-C", js "gz稳定sd2.0-903-720P");
  (js "特价sd2.0-720p-933-过脸-C", js "特价sd2.0-720p-933-过脸");
  (js "特价sd2.0-933-过脸-D", js "特价sd2.0-933-过脸")].

(** [Object.hasOwn(table, key) ? table[key] : undefined]. *)
Definition own {A} (table : list (jsstr * A)) (key : jsstr) : option A :=
  option_map snd (find_first (λ kv, str_eqb kv.1 key) table).

Definition getXJZVideoModelSpec (modelId : jsstr) : option XJZVideoModelSpec :=
  match own XJZ_VIDEO_MODELS modelId with
  | Some spec => Some spec
  | None =>
      match own XJZ_VIDEO_ALIASES modelId with
      | Some alias => own XJZ_VIDEO_MODELS alias
      | None => None
      end
  end.
