(* ===== verification/VideoCapabilities.v ===== *)
(** * Video model capabilities

    Model of the first half of
    src/web/default/src/features/media-generation/video-options.ts: the
    capability tables, the resolution of a model to its capability (Sanbao
    metadata, the XJZ catalogue and mapped endpoints, the static tables), the
    options offered for it and their normalisation.

    Counts, sizes and limits that come from the gateway are integers: it
    serialises them from Go [int] fields.  [VIDEO_CAPABILITIES[candidate]] and
    [VIDEO_MODEL_ID_ALIASES[candidate]] read plain objects, so the candidates
    ["constructor"] and ["__proto__"] find an inherited member: the lookup
    has the values [Own], [Inherited] and [Missing], and a candidate that is
    an inherited member itself is [CInherited]. *)
From S2P Require Import Prelude JsString JsNumber XjzModels.

Open Scope Z_scope.

(** ** Types *)

Record CreationVideoOptions := Options {
  resolution : jsstr;
  duration : jsstr;
  aspectRatio : option jsstr;
}.

Inductive num_or_str := FromNum (n : num) | FromStr (s : jsstr).

Record CreationModelMetadataLike := Meta {
  provider : option jsstr;
  meta_id : option jsstr;
  upstream_model_id : option jsstr;
  meta_type : option jsstr;
  category : option jsstr;
  model_type : option jsstr;
  meta_resolutions : option (list jsstr);
  meta_ratios : option (list jsstr);
  aspect_ratios : option (list jsstr);
  meta_durations : option (list num_or_str);
  max_prompt_length : option Z;
  max_images : option Z;
  max_videos : option Z;
  max_audios : option Z;
  max_media_files : option Z;
  max_image_size_mb : option Z;
  max_video_size_mb : option Z;
  max_audio_size_mb : option Z;
  min_reference_video_duration_seconds : option Z;
  max_reference_video_duration_seconds : option Z;
  concurrency_options : option (list Z);
}.

(** [IntegrationParameters.image_options], the members that the requests
    depend on. *)
Record ImageOptionLimits := ImageLimits {
  io_qualities : list jsstr;
  io_output_formats : list jsstr;
  io_backgrounds : list jsstr;
  io_max_outputs : Z;
  io_min_pixels : Z;
  io_max_pixels : Z;
  io_max_edge : Z;
  io_size_multiple : Z;
  io_max_aspect_ratio : Z;
}.

(** The fields of [IntegrationParameters] that the requests depend on. *)
Record IntegrationParameters := Parameters_ {
  p_image_options : option ImageOptionLimits;
  p_duration_field : option jsstr;
  p_durations : option (list num);
  p_resolutions : option (list jsstr);
  p_ratios : option (list jsstr);
  p_omit_ratio : bool;
  p_ratio_field : option jsstr;
  p_resolution_field : option jsstr;
  p_request_resolution : option jsstr;
  p_image_field : option jsstr;
  p_video_field : option jsstr;
  p_audio_field : option jsstr;
  p_min_images : option Z;
  p_max_images : Z;
  p_max_videos : Z;
  p_max_audios : Z;
  p_audio_needs_image : bool;
  p_audio_requires_image : bool;
  p_allow_frames : bool;
  p_max_image_size_mb : option Z;
  p_max_video_size_mb : option Z;
  p_max_audio_size_mb : option Z;
}.

Record MappedEndpoint := Endpoint {
  endpoint_kind : jsstr;
  endpoint_path : jsstr;
  parameters : option IntegrationParameters;
}.

Record CreationModelLike := ModelLike {
  model_id : option jsstr;
  metadata : option CreationModelMetadataLike;
  mapped_endpoints : option (list MappedEndpoint);
}.

Inductive CreationModelInput :=
  | ModelName (s : jsstr)
  | ModelObject (m : CreationModelLike)
  | ModelUndefined.

Record CreationVideoReferenceLimits := Limits {
  l_maxImages : Z;
  l_maxVideos : Z;
  l_maxAudios : Z;
  l_maxMediaFiles : option Z;
  l_maxImageSizeBytes : Z;
  l_maxVideoSizeBytes : Z;
  l_maxAudioSizeBytes : Z;
  l_maxImageSizeMB : Z;
  l_maxVideoSizeMB : Z;
  l_maxAudioSizeMB : Z;
  l_minReferenceVideoDurationSeconds : option Z;
  l_maxReferenceVideoDurationSeconds : option Z;
  l_maxReferenceVideoTotalDurationSeconds : option Z;
  l_minReferenceAudioDurationSeconds : option Z;
  l_maxReferenceAudioDurationSeconds : option Z;
  l_maxReferenceAudioTotalDurationSeconds : option Z;
}.

Inductive CapabilityKind :=
  | KSora2 | KVideo2 | KVideos | KSanbao | KMinimaxH3 | KXjz | KMapped.

#[export] Instance kind_eq_dec : EqDecision CapabilityKind.
Proof. solve_decision. Defined.

Inductive DurationControl := Menu | Select.
Inductive UploadTipProfile := TipSeedance25 | TipVideo25.

Record CreationVideoCapability := Capability {
  c_kind : CapabilityKind;
  c_durations : list jsstr;
  c_resolutions : list jsstr;
  c_aspectRatios : list jsstr;
  c_referenceModes : list CreationVideoReferenceMode;
  c_showResolution : bool;
  c_includeResolutionInRequest : bool;
  c_durationControl : DurationControl;
  c_referenceLimits : CreationVideoReferenceLimits;
  c_uploadTipProfile : option UploadTipProfile;
  c_maxPromptLength : option Z;
  c_concurrencyOptions : option (list Z);
}.

Record ResolutionOption := ResOption {
  r_value : jsstr;
  r_label : jsstr;
  r_size : jsstr;
  r_estimateMultiplier : num;
}.

Record DurationOption := DurOption {
  d_value : jsstr;
  d_label : jsstr;
  d_seconds : jsstr;
  d_estimateSeconds : num;
}.

(** A numeric literal of the source. *)
Definition lit (s : string) : num := str_to_num (js s).
Arguments lit s%_string.

(** ** Tables *)

Definition CREATION_VIDEO_IMAGE_REFERENCE_MAX_COUNT : Z := 4.
Definition CREATION_VIDEO_IMAGE_REFERENCE_MAX_BYTES : Z := 20 * 1024 * 1024.
Definition CREATION_VIDEO_VIDEO_REFERENCE_MAX_COUNT : Z := 3.
Definition CREATION_VIDEO_VIDEO_REFERENCE_MAX_BYTES : Z := 200 * 1024 * 1024.
Definition CREATION_VIDEO_AUDIO_REFERENCE_MAX_BYTES : Z := 15 * 1024 * 1024.

Definition VIDEO2_REFERENCE_LIMITS : CreationVideoReferenceLimits := {|
  l_maxImages := CREATION_VIDEO_IMAGE_REFERENCE_MAX_COUNT;
  l_maxVideos := CREATION_VIDEO_VIDEO_REFERENCE_MAX_COUNT;
  l_maxAudios := 1;
  l_maxMediaFiles := None;
  l_maxImageSizeBytes := CREATION_VIDEO_IMAGE_REFERENCE_MAX_BYTES;
  l_maxVideoSizeBytes := CREATION_VIDEO_VIDEO_REFERENCE_MAX_BYTES;
  l_maxAudioSizeBytes := CREATION_VIDEO_AUDIO_REFERENCE_MAX_BYTES;
  l_maxImageSizeMB := 20;
  l_maxVideoSizeMB := 200;
  l_maxAudioSizeMB := 15;
  l_minReferenceVideoDurationSeconds := None;
  l_maxReferenceVideoDurationSeconds := None;
  l_maxReferenceVideoTotalDurationSeconds := None;
  l_minReferenceAudioDurationSeconds := None;
  l_maxReferenceAudioDurationSeconds := None;
  l_maxReferenceAudioTotalDurationSeconds := None;
|}.

Definition VIDEO25_REFERENCE_LIMITS : CreationVideoReferenceLimits := {|
  l_maxImages := 30;
  l_maxVideos := 10;
  l_maxAudios := 10;
  l_maxMediaFiles := Some 50;
  l_maxImageSizeBytes := l_maxImageSizeBytes VIDEO2_REFERENCE_LIMITS;
  l_maxVideoSizeBytes := l_maxVideoSizeBytes VIDEO2_REFERENCE_LIMITS;
  l_maxAudioSizeBytes := l_maxAudioSizeBytes VIDEO2_REFERENCE_LIMITS;
  l_maxImageSizeMB := l_maxImageSizeMB VIDEO2_REFERENCE_LIMITS;
  l_maxVideoSizeMB := l_maxVideoSizeMB VIDEO2_REFERENCE_LIMITS;
  l_maxAudioSizeMB := l_maxAudioSizeMB VIDEO2_REFERENCE_LIMITS;
  l_minReferenceVideoDurationSeconds := Some 3;
  l_maxReferenceVideoDurationSeconds := Some 10;
  l_maxReferenceVideoTotalDurationSeconds := Some 30;
  l_minReferenceAudioDurationSeconds := Some 3;
  l_maxReferenceAudioDurationSeconds := Some 30;
  l_maxReferenceAudioTotalDurationSeconds := Some 30;
|}.

Definition VIDEOS_API_REFERENCE_LIMITS : CreationVideoReferenceLimits := {|
  l_maxImages := 9;
  l_maxVideos := 3;
  l_maxAudios := 3;
  l_maxMediaFiles := Some 15;
  l_maxImageSizeBytes := CREATION_VIDEO_IMAGE_REFERENCE_MAX_BYTES;
  l_maxVideoSizeBytes := CREATION_VIDEO_VIDEO_REFERENCE_MAX_BYTES;
  l_maxAudioSizeBytes := 50 * 1024 * 1024;
  l_maxImageSizeMB := 20;
  l_maxVideoSizeMB := 200;
  l_maxAudioSizeMB := 50;
  l_minReferenceVideoDurationSeconds := None;
  l_maxReferenceVideoDurationSeconds := None;
  l_maxReferenceVideoTotalDurationSeconds := None;
  l_minReferenceAudioDurationSeconds := None;
  l_maxReferenceAudioDurationSeconds := None;
  l_maxReferenceAudioTotalDurationSeconds := None;
|}.

Definition SEEDANCE_25_REFERENCE_LIMITS : CreationVideoReferenceLimits := {|
  l_maxImages := 30;
  l_maxVideos := 0;
  l_maxAudios := 10;
  l_maxMediaFiles := Some 50;
  l_maxImageSizeBytes := 5 * 1024 * 1024;
  l_maxVideoSizeBytes := CREATION_VIDEO_VIDEO_REFERENCE_MAX_BYTES;
  l_maxAudioSizeBytes := CREATION_VIDEO_AUDIO_REFERENCE_MAX_BYTES;
  l_maxImageSizeMB := 5;
  l_maxVideoSizeMB := 200;
  l_maxAudioSizeMB := 15;
  l_minReferenceVideoDurationSeconds := Some 2;
  l_maxReferenceVideoDurationSeconds := Some 30;
  l_maxReferenceVideoTotalDurationSeconds := Some 30;
  l_minReferenceAudioDurationSeconds := Some 2;
  l_maxReferenceAudioDurationSeconds := Some 30;
  l_maxReferenceAudioTotalDurationSeconds := Some 30;
|}.

(** [{ ...VIDEO2_REFERENCE_LIMITS, maxImages, maxVideos, maxAudios, ... }]. *)
Definition MINIMAX_H3_REFERENCE_LIMITS : CreationVideoReferenceLimits := {|
  l_maxImages := 5;
  l_maxVideos := 0;
  l_maxAudios := 1;
  l_maxMediaFiles := None;
  l_maxImageSizeBytes := l_maxImageSizeBytes VIDEO2_REFERENCE_LIMITS;
  l_maxVideoSizeBytes := l_maxVideoSizeBytes VIDEO2_REFERENCE_LIMITS;
  l_maxAudioSizeBytes := l_maxAudioSizeBytes VIDEO2_REFERENCE_LIMITS;
  l_maxImageSizeMB := l_maxImageSizeMB VIDEO2_REFERENCE_LIMITS;
  l_maxVideoSizeMB := l_maxVideoSizeMB VIDEO2_REFERENCE_LIMITS;
  l_maxAudioSizeMB := l_maxAudioSizeMB VIDEO2_REFERENCE_LIMITS;
  l_minReferenceVideoDurationSeconds := None;
  l_maxReferenceVideoDurationSeconds := None;
  l_maxReferenceVideoTotalDurationSeconds := None;
  l_minReferenceAudioDurationSeconds := Some 2;
  l_maxReferenceAudioDurationSeconds := Some 15;
  l_maxReferenceAudioTotalDurationSeconds := None;
|}.

Definition SORA2_REFERENCE_LIMITS : CreationVideoReferenceLimits := {|
  l_maxImages := 1;
  l_maxVideos := 0;
  l_maxAudios := 0;
  l_maxMediaFiles := None;
  l_maxImageSizeBytes := l_maxImageSizeBytes VIDEO2_REFERENCE_LIMITS;
  l_maxVideoSizeBytes := l_maxVideoSizeBytes VIDEO2_REFERENCE_LIMITS;
  l_maxAudioSizeBytes := l_maxAudioSizeBytes VIDEO2_REFERENCE_LIMITS;
  l_maxImageSizeMB := l_maxImageSizeMB VIDEO2_REFERENCE_LIMITS;
  l_maxVideoSizeMB := l_maxVideoSizeMB VIDEO2_REFERENCE_LIMITS;
  l_maxAudioSizeMB := l_maxAudioSizeMB VIDEO2_REFERENCE_LIMITS;
  l_minReferenceVideoDurationSeconds := None;
  l_maxReferenceVideoDurationSeconds := None;
  l_maxReferenceVideoTotalDurationSeconds := None;
  l_minReferenceAudioDurationSeconds := None;
  l_maxReferenceAudioDurationSeconds := None;
  l_maxReferenceAudioTotalDurationSeconds := None;
|}.

Definition CREATION_RESOLUTION_OPTIONS : list ResolutionOption := [
  ResOption (js "1080p") (js "1080") (js "1920x1080") (of_Z 1);
  ResOption (js "2k") (js "2K") (js "2560x1440") (lit "1.35");
  ResOption (js "4k") (js "4K") (js "3840x2160") (lit "1.75")].

Definition VIDEO2_720P_CREATION_RESOLUTION_OPTIONS : list ResolutionOption :=
  [ResOption (js "720p") (js "720p") (js "720x1280") (of_Z 1)].

Definition VIDEO2_480P_CREATION_RESOLUTION_OPTIONS : list ResolutionOption :=
  [ResOption (js "480p") (js "480p") (js "496x864") (of_Z 1)].

Definition VIDEOS_API_CREATION_RESOLUTION_OPTIONS : list ResolutionOption := [
  ResOption (js "720p") (js "720p") (js "1280x720") (of_Z 1);
  ResOption (js "480p") (js "480p") (js "864x496") (of_Z 1)].

Definition CREATION_DURATION_OPTIONS : list DurationOption := [
  DurOption (js "5") (js "5s") (js "5") (of_Z 90);
  DurOption (js "10") (js "10s") (js "10") (of_Z 150);
  DurOption (js "15") (js "15s") (js "15") (of_Z 210)].

Definition SORA2_CREATION_DURATION_OPTIONS : list DurationOption := [
  DurOption (js "4") (js "4s") (js "4") (of_Z 75);
  DurOption (js "8") (js "8s") (js "8") (of_Z 135);
  DurOption (js "12") (js "12s") (js "12") (of_Z 195)].

Definition SORA2_CREATION_RESOLUTION_OPTIONS : list ResolutionOption :=
  [ResOption (js "720p") (js "720p") (js "720x1280") (of_Z 1)].

(** [Array.from({ length }, (_, index) => String(index + first))]. *)
Definition duration_range (length first : nat) : list jsstr :=
  map (λ i, dec (N.of_nat (i + first))) (seq 0 length).

Definition VIDEO2_DURATIONS : list jsstr := duration_range 12 4.
Definition VIDEO25_DURATIONS : list jsstr := duration_range 27 4.
Definition SEEDANCE_25_DURATIONS : list jsstr := duration_range 26 4.
Definition MINIMAX_H3_DURATIONS : list jsstr := duration_range 11 5.

Definition SORA2_VIDEO_CAPABILITY : CreationVideoCapability := {|
  c_kind := KSora2;
  c_durations := strs ["4"; "8"; "12"];
  c_resolutions := strs ["720p"];
  c_aspectRatios := strs ["9:16"; "16:9"];
  c_referenceModes := [Image];
  c_showResolution := false;
  c_includeResolutionInRequest := false;
  c_durationControl := Select;
  c_referenceLimits := SORA2_REFERENCE_LIMITS;
  c_uploadTipProfile := None;
  c_maxPromptLength := None;
  c_concurrencyOptions := None;
|}.

Definition VIDEO2_720P_CAPABILITY : CreationVideoCapability := {|
  c_kind := KVideo2;
  c_durations := VIDEO2_DURATIONS;
  c_resolutions := strs ["720p"];
  c_aspectRatios := strs ["9:16"; "16:9"; "1:1"];
  c_referenceModes := [Image; Video; Multimodal];
  c_showResolution := true;
  c_includeResolutionInRequest := true;
  c_durationControl := Menu;
  c_referenceLimits := VIDEO2_REFERENCE_LIMITS;
  c_uploadTipProfile := None;
  c_maxPromptLength := None;
  c_concurrencyOptions := None;
|}.

(** Object spread with other resolutions, and with or without the
    resolution control. *)
Definition with_resolutions (c : CreationVideoCapability) (rs : list jsstr)
    (show include : bool) : CreationVideoCapability := {|
  c_kind := c_kind c; c_durations := c_durations c; c_resolutions := rs;
  c_aspectRatios := c_aspectRatios c; c_referenceModes := c_referenceModes c;
  c_showResolution := show; c_includeResolutionInRequest := include;
  c_durationControl := c_durationControl c; c_referenceLimits := c_referenceLimits c;
  c_uploadTipProfile := c_uploadTipProfile c; c_maxPromptLength := c_maxPromptLength c;
  c_concurrencyOptions := c_concurrencyOptions c;
|}.

Definition VIDEO2_480P_CAPABILITY : CreationVideoCapability :=
  with_resolutions VIDEO2_720P_CAPABILITY (strs ["480p"])
    (c_showResolution VIDEO2_720P_CAPABILITY)
    (c_includeResolutionInRequest VIDEO2_720P_CAPABILITY).

Definition VIDEO25_720P_CAPABILITY : CreationVideoCapability := {|
  c_kind := c_kind VIDEO2_720P_CAPABILITY;
  c_durations := VIDEO25_DURATIONS;
  c_resolutions := c_resolutions VIDEO2_720P_CAPABILITY;
  c_aspectRatios := c_aspectRatios VIDEO2_720P_CAPABILITY;
  c_referenceModes := [Text; Image; Frames; Video; Multimodal];
  c_showResolution := c_showResolution VIDEO2_720P_CAPABILITY;
  c_includeResolutionInRequest := c_includeResolutionInRequest VIDEO2_720P_CAPABILITY;
  c_durationControl := c_durationControl VIDEO2_720P_CAPABILITY;
  c_referenceLimits := VIDEO25_REFERENCE_LIMITS;
  c_uploadTipProfile := Some TipVideo25;
  c_maxPromptLength := Some 5000;
  c_concurrencyOptions := c_concurrencyOptions VIDEO2_720P_CAPABILITY;
|}.

Definition VIDEO25_480P_CAPABILITY : CreationVideoCapability :=
  with_resolutions VIDEO25_720P_CAPABILITY (strs ["480p"]) false
    (c_includeResolutionInRequest VIDEO25_720P_CAPABILITY).

Definition VIDEOS_API_CAPABILITY : CreationVideoCapability := {|
  c_kind := KVideos;
  c_durations := VIDEO2_DURATIONS;
  c_resolutions := strs ["720p"; "480p"];
  c_aspectRatios := strs ["16:9"; "9:16"; "1:1"];
  c_referenceModes := [Image; Video; Multimodal];
  c_showResolution := true;
  c_includeResolutionInRequest := true;
  c_durationControl := Menu;
  c_referenceLimits := VIDEOS_API_REFERENCE_LIMITS;
  c_uploadTipProfile := None;
  c_maxPromptLength := None;
  c_concurrencyOptions := None;
|}.

Definition VIDEOS_4_API_CAPABILITY : CreationVideoCapability := {|
  c_kind := c_kind VIDEOS_API_CAPABILITY;
  c_durations := c_durations VIDEOS_API_CAPABILITY;
  c_resolutions := c_resolutions VIDEOS_API_CAPABILITY;
  c_aspectRatios := c_aspectRatios VIDEOS_API_CAPABILITY;
  c_referenceModes := c_referenceModes VIDEOS_API_CAPABILITY;
  c_showResolution := c_showResolution VIDEOS_API_CAPABILITY;
  c_includeResolutionInRequest := c_includeResolutionInRequest VIDEOS_API_CAPABILITY;
  c_durationControl := c_durationControl VIDEOS_API_CAPABILITY;
  c_referenceLimits := VIDEO2_REFERENCE_LIMITS;
  c_uploadTipProfile := c_uploadTipProfile VIDEOS_API_CAPABILITY;
  c_maxPromptLength := c_maxPromptLength VIDEOS_API_CAPABILITY;
  c_concurrencyOptions := c_concurrencyOptions VIDEOS_API_CAPABILITY;
|}.

Definition SD2_1080P_API_CAPABILITY : CreationVideoCapability :=
  with_resolutions VIDEOS_API_CAPABILITY (strs ["1080p"]) false false.

Definition SD2_4K_API_CAPABILITY : CreationVideoCapability :=
  with_resolutions VIDEOS_API_CAPABILITY (strs ["4k"]) false false.

Definition SD2_720P_API_CAPABILITY : CreationVideoCapability :=
  with_resolutions VIDEOS_API_CAPABILITY (strs ["720p"; "480p"])
    (c_showResolution VIDEOS_API_CAPABILITY)
    (c_includeResolutionInRequest VIDEOS_API_CAPABILITY).

Definition SEEDANCE_2_API_CAPABILITY : CreationVideoCapability := {|
  c_kind := c_kind VIDEOS_API_CAPABILITY;
  c_durations := c_durations VIDEOS_API_CAPABILITY;
  c_resolutions := strs ["720p"];
  c_aspectRatios := strs ["16:9"; "9:16"; "1:1"; "4:3"; "3:4"];
  c_referenceModes := [Text; Image; Frames; Multimodal];
  c_showResolution := false;
  c_includeResolutionInRequest := true;
  c_durationControl := c_durationControl VIDEOS_API_CAPABILITY;
  c_referenceLimits := c_referenceLimits VIDEOS_API_CAPABILITY;
  c_uploadTipProfile := c_uploadTipProfile VIDEOS_API_CAPABILITY;
  c_maxPromptLength := c_maxPromptLength VIDEOS_API_CAPABILITY;
  c_concurrencyOptions := c_concurrencyOptions VIDEOS_API_CAPABILITY;
|}.

Definition SEEDANCE_25_API_CAPABILITY : CreationVideoCapability := {|
  c_kind := c_kind SEEDANCE_2_API_CAPABILITY;
  c_durations := SEEDANCE_25_DURATIONS;
  c_resolutions := strs ["720p"; "480p"];
  c_aspectRatios := strs ["16:9"; "9:16"; "1:1"];
  c_referenceModes := [Text; Image; ImageAudio];
  c_showResolution := true;
  c_includeResolutionInRequest := c_includeResolutionInRequest SEEDANCE_2_API_CAPABILITY;
  c_durationControl := c_durationControl SEEDANCE_2_API_CAPABILITY;
  c_referenceLimits := SEEDANCE_25_REFERENCE_LIMITS;
  c_uploadTipProfile := Some TipSeedance25;
  c_maxPromptLength := c_maxPromptLength SEEDANCE_2_API_CAPABILITY;
  c_concurrencyOptions := c_concurrencyOptions SEEDANCE_2_API_CAPABILITY;
|}.

Definition MINIMAX_H3_CAPABILITY : CreationVideoCapability := {|
  c_kind := KMinimaxH3;
  c_durations := MINIMAX_H3_DURATIONS;
  c_resolutions := strs ["2k"];
  c_aspectRatios := strs ["16:9"; "9:16"; "1:1"; "4:3"; "3:4"; "21:9"];
  c_referenceModes := [Text; Image; Frames; ImageAudio];
  c_showResolution := false;
  c_includeResolutionInRequest := false;
  c_durationControl := Menu;
  c_referenceLimits := MINIMAX_H3_REFERENCE_LIMITS;
  c_uploadTipProfile := None;
  c_maxPromptLength := Some 2000;
  c_concurrencyOptions := None;
|}.

Definition VIDEO_MODEL_ID_ALIASES : list (jsstr * jsstr) := [
  (js "sd2-mini", js "videos-mini");
  (js "sd2-fast", js "videos-fast");
  (js "sd2满血", js "videos-standard")].

Definition VIDEO_CAPABILITIES : list (jsstr * CreationVideoCapability) := [
  (js "sora2", SORA2_VIDEO_CAPABILITY);
  (js "sora-2", SORA2_VIDEO_CAPABILITY);
  (js "sora-2-pro", SORA2_VIDEO_CAPABILITY);
  (js "video-2.0", VIDEO2_720P_CAPABILITY);
  (js "video-2.0-fast", VIDEO2_720P_CAPABILITY);
  (js "video-2.0-mini", VIDEO2_720P_CAPABILITY);
  (js "video-2.0-480p", VIDEO2_480P_CAPABILITY);
  (js "video-2.0-fast-480p", VIDEO2_480P_CAPABILITY);
  (js "video-2.0-mini-480p", VIDEO2_480P_CAPABILITY);
  (js "video-2.5", VIDEO25_720P_CAPABILITY);
  (js "video-2.5-480p", VIDEO25_480P_CAPABILITY);
  (js "videos-standard", VIDEOS_API_CAPABILITY);
  (js "videos-fast", VIDEOS_API_CAPABILITY);
  (js "videos-mini", VIDEOS_API_CAPABILITY);
  (js "videos-4", VIDEOS_4_API_CAPABILITY);
  (js "videos-4-fast", VIDEOS_4_API_CAPABILITY);
  (js "videos-4-mini", VIDEOS_4_API_CAPABILITY);
  (js "sd2-mini", VIDEOS_API_CAPABILITY);
  (js "sd2-fast", VIDEOS_API_CAPABILITY);
  (js "sd2满血", VIDEOS_API_CAPABILITY);
  (js "sd2-1080p", SD2_1080P_API_CAPABILITY);
  (js "sd2-4k", SD2_4K_API_CAPABILITY);
  (js "sd2-720p", SD2_720P_API_CAPABILITY);
  (js "sd-2.0-933", SEEDANCE_2_API_CAPABILITY);
  (js "sd-2-c8", SEEDANCE_2_API_CAPABILITY);
  (js "seedance-2.0", SEEDANCE_2_API_CAPABILITY);
  (js "seedance-2.5", SEEDANCE_25_API_CAPABILITY);
  (js "minimax-h3", MINIMAX_H3_CAPABILITY)].

Definition DEFAULT_CREATION_VIDEO_OPTIONS : CreationVideoOptions :=
  Options (js "720p") (js "5") None.

(** ** From a model to its capability *)

Section Capabilities.
Context `{CaseMap}.

Definition getModelId (model : CreationModelInput) : jsstr :=
  match model with
  | ModelName s => s
  | ModelObject m => from_opt [] (model_id m)
  | ModelUndefined => []
  end.

Definition getModelMetadata (model : CreationModelInput) : option CreationModelMetadataLike :=
  match model with ModelObject m => metadata m | _ => None end.

Definition normalizeModelId (model : CreationModelInput) : jsstr :=
  to_lower (trim (getModelId model)).

Definition is_open (c : N) : bool := bool_decide (c ∈ [40; 65288]%N).
Definition is_close (c : N) : bool := bool_decide (c ∈ [41; 65289]%N).

(** [\s*[(（][^()（）]*[)）]\s*] at the start of [s]: the rest after the
    match.  The classes are disjoint, so the match is unique. *)
Definition match_parens (s : jsstr) : option jsstr :=
  match drop_while is_ws s with
  | c :: s1 =>
      if is_open c then
        match drop_while (λ c, negb (is_open c || is_close c)) s1 with
        | d :: s2 => if is_close d then Some (drop_while is_ws s2) else None
        | [] => None
        end
      else None
  | [] => None
  end.

(** [s.replace(/^\s*[(（][^()（）]*[)）]\s*/u, '')]. *)
Definition strip_prefix (s : jsstr) : jsstr := from_opt s (match_parens s).

(** [s.replace(/\s*[(（][^()（）]*[)）]\s*$/u, '')]: the leftmost match that
    reaches the end of the string. *)
Fixpoint strip_suffix (s : jsstr) : jsstr :=
  match s with
  | [] => []
  | c :: s' =>
      if bool_decide (match_parens s = Some []) then [] else c :: strip_suffix s'
  end.

(** [set.add(x)] on a set in insertion order. *)
Definition set_add (l : list jsstr) (x : jsstr) : list jsstr :=
  if includes x l then l else l ++ [x].

Definition variants_step (variants : list jsstr) (candidate : jsstr) : list jsstr :=
  let withoutPrefix := trim (strip_prefix candidate) in
  let withoutSuffix := trim (strip_suffix candidate) in
  let variants := if truthy withoutPrefix then set_add variants withoutPrefix else variants in
  if truthy withoutSuffix then set_add variants withoutSuffix else variants.

Definition variants_pass (variants : list jsstr) : list jsstr :=
  fold_left variants_step variants variants.

Definition getNormalizedModelIdVariants (value : option jsstr) : list jsstr :=
  let normalized := match value with Some v => to_lower (trim v) | None => [] end in
  if truthy normalized then filterb truthy (variants_pass (variants_pass [normalized])) else [].

(** A candidate id: a string, or the inherited member that the alias table
    gave for a key. *)
Inductive candidate := Cand (s : jsstr) | CInherited (key : jsstr).

#[export] Instance candidate_eq_dec : EqDecision candidate.
Proof. solve_decision. Defined.

Definition cand_truthy (c : candidate) : bool :=
  match c with Cand s => truthy s | CInherited _ => true end.

Definition alias_candidates (c : jsstr) : list candidate :=
  match table_get VIDEO_MODEL_ID_ALIASES c with
  | Own mapped => if truthy mapped then [Cand mapped] else []
  | Inherited => [CInherited c]
  | Missing => []
  end.

Definition getCreationModelIdCandidates (model : CreationModelInput) : list candidate :=
  let metadata := getModelMetadata model in
  let candidates :=
    getNormalizedModelIdVariants (Some (normalizeModelId model))
    ++ getNormalizedModelIdVariants (metadata ≫= upstream_model_id)
    ++ getNormalizedModelIdVariants (metadata ≫= meta_id) in
  uniq (filterb cand_truthy (map Cand candidates ++ concat (map alias_candidates candidates))).

(** [VIDEO_CAPABILITIES[candidate]]; the text of an inherited member is not
    a key of the table. *)
Definition capability_of (c : candidate) : looked CreationVideoCapability :=
  match c with Cand s => table_get VIDEO_CAPABILITIES s | CInherited _ => Missing end.

Definition hasStaticVideoCapabilityKind (model : CreationModelInput) (kind : CapabilityKind)
    : bool :=
  existsb (λ c, match capability_of c with
                | Own cap => bool_decide (c_kind cap = kind)
                | _ => false
                end) (getCreationModelIdCandidates model).

Definition isVideosApiModel model := hasStaticVideoCapabilityKind model KVideos.
Definition isMiniMaxH3Model model := hasStaticVideoCapabilityKind model KMinimaxH3.

(** [/^sd-2-c\d+$/u]. *)
Definition is_sd2_c (s : jsstr) : bool :=
  let p := js "sd-2-c" in
  starts_with p s && truthy (drop (length p) s) && forallb is_digit (drop (length p) s).

(** [candidate.startsWith] throws when the candidate is not a string. *)
Definition is_seedance2_candidate (c : candidate) : exc bool :=
  match c with
  | Cand s => Ok (str_eqb s (js "seedance-2.0") || str_eqb s (js "seedance-2.5")
                  || starts_with (js "sd-2.0-") s || is_sd2_c s)
  | CInherited _ => Throw
  end.

(** [Array.prototype.some] with a callback that can throw. *)
Fixpoint some_exc {A} (f : A → exc bool) (l : list A) : exc bool :=
  match l with
  | [] => Ok false
  | x :: l => b ← f x; if (b : bool) then Ok true else some_exc f l
  end.

Definition isSeedance2Model (model : CreationModelInput) : exc bool :=
  some_exc is_seedance2_candidate (getCreationModelIdCandidates model).

Definition isSeedance25Model (model : CreationModelInput) : bool :=
  includes (Cand (js "seedance-2.5")) (getCreationModelIdCandidates model).

Definition isVideo25Model (model : CreationModelInput) : bool :=
  existsb (λ c, includes c [Cand (js "video-2.5"); Cand (js "video-2.5-480p")])
    (getCreationModelIdCandidates model).

(** *** Sanbao metadata *)

Definition isSanbaoMetadata (m : option CreationModelMetadataLike) : bool :=
  match m ≫= provider with
  | Some p => str_eqb (to_lower (trim p)) (js "sanbao")
  | None => false
  end.

Definition getSanbaoMediaType (m : option CreationModelMetadataLike) : option jsstr :=
  find_first truthy
    (map (λ v, match v with Some v => to_lower (trim v) | None => [] end)
       [m ≫= meta_type; m ≫= category; m ≫= model_type]).

(** The values that are non-empty after trimming, without repetition. *)
Fixpoint clean_strings (seen values : list jsstr) : list jsstr :=
  match values with
  | [] => []
  | v :: values =>
      let normalized := trim v in
      if negb (truthy normalized) || includes normalized seen then clean_strings seen values
      else normalized :: clean_strings (normalized :: seen) values
  end.

Definition cleanStringOptions (values : option (list jsstr)) : list jsstr :=
  clean_strings [] (from_opt [] values).

Definition to_number (v : num_or_str) : num :=
  match v with FromNum n => n | FromStr s => str_to_num s end.

Fixpoint clean_integers (seen : list jsstr) (values : list num_or_str) : list jsstr :=
  match values with
  | [] => []
  | v :: values =>
      let parsed := to_number v in
      if negb (is_integer parsed) || nleb parsed (of_Z 0) then clean_integers seen values
      else
        let normalized := num_to_str parsed in
        if includes normalized seen then clean_integers seen values
        else normalized :: clean_integers (normalized :: seen) values
  end.

Definition cleanPositiveIntegers (values : option (list num_or_str)) : list jsstr :=
  clean_integers [] (from_opt [] values).

Definition buildSanbaoReferenceLimits (m : CreationModelMetadataLike)
    : CreationVideoReferenceLimits :=
  let maxImageSizeMB := from_opt 20 (max_image_size_mb m) in
  let maxVideoSizeMB := from_opt 200 (max_video_size_mb m) in
  let maxAudioSizeMB := from_opt 15 (max_audio_size_mb m) in
  {| l_maxImages := from_opt 0 (max_images m);
     l_maxVideos := from_opt 0 (max_videos m);
     l_maxAudios := from_opt 0 (max_audios m);
     l_maxMediaFiles := max_media_files m;
     l_maxImageSizeMB := maxImageSizeMB;
     l_maxVideoSizeMB := maxVideoSizeMB;
     l_maxAudioSizeMB := maxAudioSizeMB;
     l_maxImageSizeBytes := maxImageSizeMB * 1024 * 1024;
     l_maxVideoSizeBytes := maxVideoSizeMB * 1024 * 1024;
     l_maxAudioSizeBytes := maxAudioSizeMB * 1024 * 1024;
     l_minReferenceVideoDurationSeconds := min_reference_video_duration_seconds m;
     l_maxReferenceVideoDurationSeconds := max_reference_video_duration_seconds m;
     l_maxReferenceVideoTotalDurationSeconds := None;
     l_minReferenceAudioDurationSeconds := None;
     l_maxReferenceAudioDurationSeconds := None;
     l_maxReferenceAudioTotalDurationSeconds := None |}.

(** [l.length ? l : d]. *)
Definition list_or {A} (l d : list A) : list A := match l with [] => d | _ => l end.

Definition sanbao_reference_modes (l : CreationVideoReferenceLimits)
    : list CreationVideoReferenceMode :=
  (if 0 <? l_maxImages l then [Image] else [])
  ++ (if 0 <? l_maxVideos l then [Video] else [])
  ++ (if (0 <? l_maxImages l) && ((0 <? l_maxVideos l) || (0 <? l_maxAudios l))
      then [Multimodal] else []).

Definition getSanbaoVideoCapability (model : CreationModelInput)
    : option CreationVideoCapability :=
  if isVideosApiModel model || isMiniMaxH3Model model then None
  else
    let metadata := getModelMetadata model in
    if negb (isSanbaoMetadata metadata) then None
    else
      match metadata, getSanbaoMediaType metadata with
      | Some m, Some mediaType =>
          if negb (str_includes (js "video") mediaType) then None
          else
            let referenceLimits := buildSanbaoReferenceLimits m in
            let ratios := match meta_ratios m with
                          | Some (r :: rs) => Some (r :: rs)
                          | _ => aspect_ratios m
                          end in
            Some {|
              c_kind := KSanbao;
              c_durations := list_or (cleanPositiveIntegers (meta_durations m)) VIDEO2_DURATIONS;
              c_resolutions := list_or (cleanStringOptions (meta_resolutions m)) (strs ["720p"]);
              c_aspectRatios := list_or (cleanStringOptions ratios) (strs ["9:16"; "16:9"; "1:1"]);
              c_referenceModes := list_or (sanbao_reference_modes referenceLimits) [Image];
              c_showResolution := true;
              c_includeResolutionInRequest := true;
              c_durationControl := Select;
              c_referenceLimits := referenceLimits;
              c_uploadTipProfile := None;
              c_maxPromptLength := None;
              c_concurrencyOptions := concurrency_options m |}
      | _, _ => None
      end.

(** *** The XJZ catalogue and mapped endpoints *)

(** [model.mapped_endpoints?.find((entry) => entry.kind === 'video')?.parameters]. *)
Definition endpoint_parameters (model : CreationModelInput) : option IntegrationParameters :=
  match model with
  | ModelObject m =>
      match mapped_endpoints m with
      | Some entries =>
          match find_first (λ e, str_eqb (endpoint_kind e) (js "video")) entries with
          | Some e => parameters e
          | None => None
          end
      | None => None
      end
  | _ => None
  end.

Definition mapped_reference_modes (p : IntegrationParameters)
    : list CreationVideoReferenceMode :=
  (match p_min_images p with Some n => if n =? 0 then [Text] else [] | None => [Text] end)
  ++ (if p_max_images p =? 0 then [] else [Image])
  ++ (if p_max_videos p =? 0
      then if p_max_audios p =? 0 then [] else [ImageAudio]
      else [Video; Multimodal])
  ++ (if p_allow_frames p then [Frames] else []).

Definition mapped_spec (p : IntegrationParameters) (ds : list num) : XJZVideoModelSpec := {|
  durations := map num_to_str ds;
  resolutions := map to_lower (from_opt (strs ["720p"]) (p_resolutions p));
  ratios := if p_omit_ratio p then [] else from_opt (strs ["16:9"]) (p_ratios p);
  referenceModes := mapped_reference_modes p;
  minImages := p_min_images p;
  maxImages := p_max_images p;
  maxVideos := p_max_videos p;
  maxAudios := p_max_audios p;
  imageField := p_image_field p;
  videoField := p_video_field p;
  audioField := p_audio_field p;
  ratioField := p_ratio_field p;
  resolutionField := p_resolution_field p;
  requestResolution := p_request_resolution p;
  selectableResolution := (1 <? length (from_opt [] (p_resolutions p)))%nat;
  audioNeedsVisualReference := p_audio_needs_image p;
  audioRequiresImage := p_audio_requires_image p;
  allowFrames := p_allow_frames p;
|}.

Definition getVideoModelSpec (model : CreationModelInput) : option XJZVideoModelSpec :=
  match endpoint_parameters model with
  | Some p =>
      match p_durations p with
      | Some (d :: ds) => Some (mapped_spec p (d :: ds))
      | _ => getXJZVideoModelSpec (getModelId model)
      end
  | None => getXJZVideoModelSpec (getModelId model)
  end.

Definition spec_capability (isXJZ : bool) (p : option IntegrationParameters)
    (spec : XJZVideoModelSpec) : CreationVideoCapability :=
  let size (own : IntegrationParameters → option Z) (default : Z) :=
    from_opt (if isXJZ then 10 else default) (p ≫= own) in
  let imageSizeMB := size p_max_image_size_mb (l_maxImageSizeMB VIDEO2_REFERENCE_LIMITS) in
  let videoSizeMB := size p_max_video_size_mb (l_maxVideoSizeMB VIDEO2_REFERENCE_LIMITS) in
  let audioSizeMB := size p_max_audio_size_mb (l_maxAudioSizeMB VIDEO2_REFERENCE_LIMITS) in
  {| c_kind := if isXJZ then KXjz else KMapped;
     c_durations := durations spec;
     c_resolutions := resolutions spec;
     c_aspectRatios := ratios spec;
     c_referenceModes := referenceModes spec;
     c_showResolution := selectableResolution spec;
     c_includeResolutionInRequest := true;
     c_durationControl := Select;
     c_referenceLimits := {|
       l_maxImages := maxImages spec;
       l_maxVideos := maxVideos spec;
       l_maxAudios := maxAudios spec;
       l_maxMediaFiles := None;
       l_maxImageSizeBytes := imageSizeMB * 1024 * 1024;
       l_maxVideoSizeBytes := videoSizeMB * 1024 * 1024;
       l_maxAudioSizeBytes := audioSizeMB * 1024 * 1024;
       l_maxImageSizeMB := imageSizeMB;
       l_maxVideoSizeMB := videoSizeMB;
       l_maxAudioSizeMB := audioSizeMB;
       l_minReferenceVideoDurationSeconds := None;
       l_maxReferenceVideoDurationSeconds := None;
       l_maxReferenceVideoTotalDurationSeconds := None;
       l_minReferenceAudioDurationSeconds := None;
       l_maxReferenceAudioDurationSeconds := None;
       l_maxReferenceAudioTotalDurationSeconds := None |};
     c_uploadTipProfile := None;
     c_maxPromptLength := None;
     c_concurrencyOptions := None |}.

Definition getXJZVideoCapability (model : CreationModelInput)
    : option CreationVideoCapability :=
  match getVideoModelSpec model with
  | None => None
  | Some spec =>
      let isXJZ := is_some (getXJZVideoModelSpec (getModelId model)) in
      Some (spec_capability isXJZ (endpoint_parameters model) spec)
  end.

(** *** The lookup *)

(** The first candidate with an entry in the static table. *)
Fixpoint static_capability (cs : list candidate) : looked CreationVideoCapability :=
  match cs with
  | [] => Missing
  | c :: cs => match capability_of c with Missing => static_capability cs | found => found end
  end.

(** Sanbao metadata come first when the provider is exactly [sanbao]. *)
Definition sanbao_first (model : CreationModelInput) : option CreationVideoCapability :=
  match getModelMetadata model ≫= provider with
  | Some p => if str_eqb (to_lower p) (js "sanbao") then getSanbaoVideoCapability model else None
  | None => None
  end.

(** [isSeedance2Model] is asked only when no candidate has an entry; a
    candidate with an alias that is not a string has an (inherited) entry. *)
Definition getCreationVideoCapabilities (model : CreationModelInput)
    : exc (looked CreationVideoCapability) :=
  match sanbao_first model with
  | Some c => Ok (Own c)
  | None =>
      match getXJZVideoCapability model with
      | Some c => Ok (Own c)
      | None =>
          match getSanbaoVideoCapability model with
          | Some c => Ok (Own c)
          | None =>
              match static_capability (getCreationModelIdCandidates model) with
              | Own c => Ok (Own c)
              | Inherited => Ok Inherited
              | Missing =>
                  seedance ← isSeedance2Model model;
                  if (seedance : bool) then Ok (Own SEEDANCE_2_API_CAPABILITY) else Ok Missing
              end
          end
      end
  end.
End Capabilities.
