(* ===== verification/VideoOptions.v ===== *)
(** * Options of a video model

    Model of the option functions of
    src/web/default/src/features/media-generation/video-options.ts: the
    resolutions and durations offered for a model, the normalisation of a
    selection and its validation.  Each operation on a model first looks up
    the capability; the rest is a function of the result of that lookup. *)
From S2P Require Import Prelude JsString JsNumber XjzModels VideoCapabilities.

Open Scope Z_scope.

Definition getResolutionOption (value : jsstr) : ResolutionOption :=
  from_opt (ResOption value value value (of_Z 1))
    (find_first (λ o, str_eqb (r_value o) value)
       (CREATION_RESOLUTION_OPTIONS ++ VIDEO2_720P_CREATION_RESOLUTION_OPTIONS
        ++ VIDEO2_480P_CREATION_RESOLUTION_OPTIONS)).

Definition getDurationOption (value : jsstr) : DurationOption :=
  let seconds := str_to_num value in
  DurOption value (value ++ js "s") value
    (if is_finite seconds then nadd (of_Z 60) (nmul seconds (of_Z 15)) else of_Z 120).

(** [CREATION_RESOLUTION_OPTIONS] is also the answer for an inherited member,
    whose [kind] is undefined. *)
Definition resolution_options (cap : looked CreationVideoCapability) : list ResolutionOption :=
  match cap with
  | Own c =>
      match c_kind c with
      | KXjz | KMapped => map getResolutionOption (c_resolutions c)
      | KSanbao =>
          match c_resolutions c with
          | [] => CREATION_RESOLUTION_OPTIONS
          | rs => map getResolutionOption rs
          end
      | KVideos =>
          map (λ v, from_opt (getResolutionOption v)
                 (find_first (λ o, str_eqb (r_value o) v) VIDEOS_API_CREATION_RESOLUTION_OPTIONS))
            (c_resolutions c)
      | KVideo2 =>
          if includes (js "480p") (c_resolutions c)
          then VIDEO2_480P_CREATION_RESOLUTION_OPTIONS
          else VIDEO2_720P_CREATION_RESOLUTION_OPTIONS
      | KMinimaxH3 => map getResolutionOption (c_resolutions c)
      | KSora2 => SORA2_CREATION_RESOLUTION_OPTIONS
      end
  | _ => CREATION_RESOLUTION_OPTIONS
  end.

Definition duration_options (cap : looked CreationVideoCapability) : list DurationOption :=
  match cap with
  | Own c =>
      match c_kind c with
      | KXjz | KMapped | KVideos | KVideo2 | KMinimaxH3 => map getDurationOption (c_durations c)
      | KSanbao =>
          match c_durations c with
          | [] => CREATION_DURATION_OPTIONS
          | ds => map getDurationOption ds
          end
      | KSora2 => SORA2_CREATION_DURATION_OPTIONS
      end
  | _ => CREATION_DURATION_OPTIONS
  end.

(** [options.find(...) ?? options[0]], then a property of the result, which
    throws when there is no option. *)
Definition pick {A} (f : A → bool) (l : list A) : exc A :=
  match find_first f l with
  | Some x => Ok x
  | None => match l with x :: _ => Ok x | [] => Throw end
  end.

(** The selection for a capability: an inherited member has no
    [aspectRatios] and throws. *)
Definition normalize_options (cap : looked CreationVideoCapability)
    (options : CreationVideoOptions) : exc CreationVideoOptions :=
  match cap with
  | Missing =>
      r ← pick (λ o, str_eqb (r_value o) (resolution options)) (resolution_options cap);
      d ← pick (λ o, str_eqb (d_value o) (duration options)) (duration_options cap);
      Ok (Options (r_value r) (d_value d) None)
  | Inherited => Throw
  | Own c =>
      r ← pick (λ o, str_eqb (r_value o) (resolution options)) (resolution_options cap);
      d ← pick (λ o, str_eqb (d_value o) (duration options)) (duration_options cap);
      Ok (Options (r_value r) (d_value d)
            (match aspectRatio options with
             | Some a => if includes a (c_aspectRatios c) then Some a
                         else head (c_aspectRatios c)
             | None => head (c_aspectRatios c)
             end))
  end.

Section Options.
Context `{CaseMap}.

Definition isVideo2Model (model : CreationModelInput) : exc bool :=
  cap ← getCreationVideoCapabilities model;
  Ok (match cap with Own c => bool_decide (c_kind c = KVideo2) | _ => false end).

Definition getCreationPromptMaxLength (model : CreationModelInput) : exc Z :=
  cap ← getCreationVideoCapabilities model;
  let capabilityLimit := match cap with Own c => from_opt 0 (c_maxPromptLength c) | _ => 0 end in
  if negb (capabilityLimit =? 0) then Ok capabilityLimit
  else
    match getModelMetadata model ≫= max_prompt_length with
    | Some n => if 0 <? n then Ok n else Ok 5000
    | None => Ok 5000
    end.

Definition getCreationResolutionOptions (model : CreationModelInput)
    : exc (list ResolutionOption) :=
  cap ← getCreationVideoCapabilities model; Ok (resolution_options cap).

Definition getCreationDurationOptions (model : CreationModelInput) : exc (list DurationOption) :=
  cap ← getCreationVideoCapabilities model; Ok (duration_options cap).

Definition normalizeCreationVideoOptions (options : CreationVideoOptions)
    (model : CreationModelInput) : exc CreationVideoOptions :=
  cap ← getCreationVideoCapabilities model; normalize_options cap options.

(** The message for a duration outside the capability's list. *)
Definition duration_error (model : CreationModelInput) (kind : option CapabilityKind) : jsstr :=
  if includes kind [Some KSanbao; Some KMinimaxH3; Some KXjz; Some KMapped] then
    js "This model does not support the selected duration."
  else if isSeedance25Model model then
    js "Seedance 2.5 duration must be between 4 and 29 seconds."
  else if isVideo25Model model then
    js "Video 2.5 duration must be between 4 and 30 seconds."
  else js "Duration must be between 4 and 15 seconds.".

Definition getCreationVideoOptionsError (options : CreationVideoOptions)
    (model : CreationModelInput) : exc (option jsstr) :=
  cap ← getCreationVideoCapabilities model;
  let d := str_to_num (duration options) in
  match cap with
  | Missing => Ok None
  | Inherited =>
      if negb (is_integer d) then Ok (Some (duration_error model None)) else Throw
  | Own c =>
      if negb (is_integer d) || negb (includes (num_to_str d) (c_durations c))
      then Ok (Some (duration_error model (Some (c_kind c)))) else Ok None
  end.

Definition getCreationVideoReferenceLimits (model : CreationModelInput)
    : exc CreationVideoReferenceLimits :=
  cap ← getCreationVideoCapabilities model;
  Ok (match cap with Own c => c_referenceLimits c | _ => VIDEO2_REFERENCE_LIMITS end).

(** ** The lookup never throws *)

Lemma filterb_truthy_elem s l : s ∈ filterb truthy l → truthy s = true.
Proof. rewrite filterb_elem. tauto. Qed.

(** A non-string candidate comes from a string candidate with an inherited
    entry in the static table. *)
Lemma inherited_candidate model key :
  CInherited key ∈ getCreationModelIdCandidates model →
  Cand key ∈ getCreationModelIdCandidates model ∧ capability_of (Cand key) = Inherited.
Proof.
  unfold getCreationModelIdCandidates. set (cs := _ ++ _ ++ _).
  rewrite !uniq_elem, !filterb_elem, !elem_of_app.
  intros [[Hin|Hin] _]; [apply list_elem_of_fmap in Hin as (? & ? & ?); done|].
  apply list_elem_of_In, in_concat in Hin as (l & Hl & Hin).
  apply in_map_iff in Hl as (c & <- & Hc). apply list_elem_of_In in Hc, Hin.
  unfold alias_candidates in Hin.
  destruct (table_get VIDEO_MODEL_ID_ALIASES c) as [m| |] eqn:E.
  - destruct (truthy m); set_solver.
  - apply list_elem_of_singleton in Hin. simplify_eq.
    unfold table_get in E. case_split_in E; [done|]. case_split_in E; [|done].
    apply includes_elem in E1. split.
    + split; [left; by apply list_elem_of_fmap_2|].
      unfold object_prototype_keys in E1.
      repeat (apply elem_of_cons in E1 as [->|E1]; [done|]). by apply elem_of_nil in E1.
    + unfold object_prototype_keys in E1.
      repeat (apply elem_of_cons in E1 as [->|E1]; [vm_compute; reflexivity|]).
      by apply elem_of_nil in E1.
  - set_solver.
Qed.

Lemma static_missing cs c : static_capability cs = Missing → c ∈ cs → capability_of c = Missing.
Proof.
  induction cs as [|d cs IH]; simpl; [set_solver|].
  destruct (capability_of d) eqn:E; [done|done|]. intros Hs [->|Hc]%elem_of_cons; auto.
Qed.

Lemma some_exc_returns {A} (f : A → exc bool) l :
  (∀ x, x ∈ l → returns (f x)) → returns (some_exc f l).
Proof.
  induction l as [|x l IH]; intros Hf; simpl; [ret|].
  apply returns_bind; [apply Hf; set_solver|]. intros [] _; [ret|]. apply IH. set_solver.
Qed.

Lemma getCreationVideoCapabilities_returns model :
  returns (getCreationVideoCapabilities model).
Proof.
  unfold getCreationVideoCapabilities. destruct (sanbao_first model); [ret|].
  destruct (getXJZVideoCapability model); [ret|].
  destruct (getSanbaoVideoCapability model); [ret|].
  destruct (static_capability _) eqn:E; [ret|ret|].
  apply returns_bind; [|intros [] _; ret]. apply some_exc_returns.
  intros [s|key] Hc; [ret|]. apply inherited_candidate in Hc as [Hc Hi].
  rewrite (static_missing _ _ E Hc) in Hi. done.
Qed.

(** ** Where the capability of a named model comes from *)

Definition catalogue_capability (c : CreationVideoCapability) : Prop :=
  (∃ k spec, (k, spec) ∈ XJZ_VIDEO_MODELS ∧ c = spec_capability true None spec) ∨
  (∃ k, (k, c) ∈ VIDEO_CAPABILITIES).

Lemma own_elem {A} (t : list (jsstr * A)) k x : own t k = Some x → ∃ k', (k', x) ∈ t.
Proof.
  unfold own. destruct (find_first _ t) as [[k' y]|] eqn:E; [|done]. simpl. intros [= <-].
  apply find_first_Some in E as [? _]. eauto.
Qed.

Lemma table_get_elem {A} (t : list (jsstr * A)) k x : table_get t k = Own x → ∃ k', (k', x) ∈ t.
Proof.
  unfold table_get. destruct (find_first _ t) as [[k' y]|] eqn:E; [|by case_split].
  simpl. intros [= <-]. apply find_first_Some in E as [? _]. eauto.
Qed.

Lemma getXJZVideoModelSpec_elem id spec :
  getXJZVideoModelSpec id = Some spec → ∃ k, (k, spec) ∈ XJZ_VIDEO_MODELS.
Proof.
  unfold getXJZVideoModelSpec. destruct (own XJZ_VIDEO_MODELS id) eqn:E.
  - intros [= <-]. by eapply own_elem.
  - destruct (own XJZ_VIDEO_ALIASES id); [apply own_elem|done].
Qed.

Lemma static_capability_elem cs c :
  static_capability cs = Own c → ∃ k, (k, c) ∈ VIDEO_CAPABILITIES.
Proof.
  induction cs as [|d cs IH]; simpl; [done|].
  destruct (capability_of d) eqn:E; [|done|done]. intros [= <-].
  destruct d; simpl in E; [by eapply table_get_elem|done].
Qed.

Lemma sanbao_named s : getSanbaoVideoCapability (ModelName s) = None.
Proof. unfold getSanbaoVideoCapability. by destruct (_ || _). Qed.

Lemma xjz_named s :
  getXJZVideoCapability (ModelName s)
  = option_map (spec_capability true None) (getXJZVideoModelSpec s).
Proof.
  unfold getXJZVideoCapability, getVideoModelSpec, endpoint_parameters, getModelId.
  by destruct (getXJZVideoModelSpec s).
Qed.

Lemma seedance2_elem : ∃ k, (k, SEEDANCE_2_API_CAPABILITY) ∈ VIDEO_CAPABILITIES.
Proof. apply (table_get_elem _ (js "seedance-2.0")). vm_compute. reflexivity. Qed.

Lemma named_capability s c :
  getCreationVideoCapabilities (ModelName s) = Ok (Own c) → catalogue_capability c.
Proof.
  unfold getCreationVideoCapabilities, sanbao_first. cbn [getModelMetadata mbind option_bind].
  rewrite sanbao_named, xjz_named.
  destruct (getXJZVideoModelSpec s) as [spec|] eqn:Es; cbn [option_map].
  - intros [= <-]. apply getXJZVideoModelSpec_elem in Es as [k ?]. left. eauto.
  - destruct (static_capability _) eqn:E; intros Hc.
    + simplify_eq. right. by eapply static_capability_elem.
    + done.
    + destruct (isSeedance2Model _) as [[]| |]; try done. cbn [mbind exc_bind] in Hc.
      injection Hc as <-. right. apply seedance2_elem.
Qed.

(** *** What every catalogue capability satisfies *)

Definition canonical_duration (d : jsstr) : bool :=
  is_integer (str_to_num d) && str_eqb (num_to_str (str_to_num d)) d.

Definition capability_ok (c : CreationVideoCapability) : bool :=
  forallb canonical_duration (c_durations c) &&
  forallb (λ o, includes (d_value o) (c_durations c)) (duration_options (Own c)) &&
  negb (bool_decide (map r_value (resolution_options (Own c)) = [])) &&
  negb (bool_decide (map d_value (duration_options (Own c)) = [])).

Lemma catalogue_capability_ok c : catalogue_capability c → capability_ok c = true.
Proof.
  assert (forallb (λ ks : jsstr * XJZVideoModelSpec, capability_ok (spec_capability true None ks.2))
    XJZ_VIDEO_MODELS = true) as Hx by (vm_compute; reflexivity).
  assert (forallb (λ kc : jsstr * CreationVideoCapability, capability_ok kc.2)
    VIDEO_CAPABILITIES = true) as Hs by (vm_compute; reflexivity).
  rewrite forallb_forall in Hx, Hs.
  intros [(k & spec & Hin & ->)|(k & Hin)]; apply list_elem_of_In in Hin.
  - exact (Hx _ Hin).
  - exact (Hs _ Hin).
Qed.

(** ** Selections *)

Lemma pick_elem {A} (f : A → bool) l x : pick f l = Ok x → x ∈ l.
Proof.
  unfold pick. destruct (find_first f l) eqn:E.
  - intros [= <-]. by apply find_first_Some in E as [? _].
  - destruct l; [done|]. intros [= <-]. set_solver.
Qed.

Lemma pick_returns {A} (f : A → bool) l : l ≠ [] → returns (pick f l).
Proof. intros. unfold pick. destruct (find_first f l); [ret|]. destruct l; [done|ret]. Qed.

(** Picking the value that was picked gives an option with that value. *)
Lemma pick_again {A} (g : A → jsstr) l x :
  x ∈ l → ∃ y, pick (λ o, str_eqb (g o) (g x)) l = Ok y ∧ g y = g x.
Proof.
  intros Hx. unfold pick. destruct (find_first _ l) as [y|] eqn:E.
  - apply find_first_Some in E as [_ E]. exists y. split; [done|]. by apply bool_decide_eq_true in E.
  - rewrite find_first_None in E. specialize (E x Hx). unfold str_eqb in E.
    by rewrite bool_decide_true in E.
Qed.

Definition ratio_of (cap : looked CreationVideoCapability) (o : option jsstr) : Prop :=
  match cap with
  | Own c => match o with Some a => a ∈ c_aspectRatios c | None => c_aspectRatios c = [] end
  | _ => o = None
  end.

(** A selection the model offers. *)
Definition offered (cap : looked CreationVideoCapability) (o : CreationVideoOptions) : Prop :=
  resolution o ∈ map r_value (resolution_options cap) ∧
  duration o ∈ map d_value (duration_options cap) ∧
  ratio_of cap (aspectRatio o).

Lemma normalize_offered cap o o' : normalize_options cap o = Ok o' → offered cap o'.
Proof.
  unfold normalize_options. destruct cap as [c| |]; [|done|]; intros E;
    destruct (pick _ (resolution_options _)) as [r| |] eqn:Er; try done; cbn [mbind exc_bind] in E;
    destruct (pick _ (duration_options _)) as [d| |] eqn:Ed; try done; cbn [mbind exc_bind] in E;
    injection E as <-; apply pick_elem in Er, Ed;
    (split; [by apply (list_elem_of_fmap_2 r_value)|
     split; [by apply (list_elem_of_fmap_2 d_value)|]]); [|done].
  simpl. destruct (aspectRatio o) as [a|].
  - destruct (includes a _) eqn:Ha; [by apply includes_elem|].
    destruct (c_aspectRatios c); simpl; [done|set_solver].
  - destruct (c_aspectRatios c); simpl; [done|set_solver].
Qed.

Lemma normalize_keeps cap o : cap ≠ Inherited → offered cap o → normalize_options cap o = Ok o.
Proof.
  destruct o as [r d a]. intros Hc (Hr & Hd & Ha). cbn [resolution duration aspectRatio] in *.
  apply list_elem_of_fmap in Hr as (ro & -> & Hr), Hd as (do' & -> & Hd).
  destruct (pick_again r_value _ ro Hr) as (r' & Er & Hr').
  destruct (pick_again d_value _ do' Hd) as (d' & Ed & Hd').
  unfold normalize_options. cbn [resolution duration aspectRatio].
  destruct cap as [c| |]; [|done|]; rewrite Er; cbn [mbind exc_bind]; rewrite Ed;
    cbn [mbind exc_bind]; rewrite Hr', Hd'; simpl in Ha; [|by subst].
  destruct a as [a|]; [|by rewrite Ha].
  by apply includes_elem in Ha as ->.
Qed.
End Options.

(** A named model's selection is normalised and valid. *)
Lemma named_selection `{CaseMap} (name : jsstr) (o : CreationVideoOptions) :
  getCreationVideoCapabilities (ModelName name) ≠ Ok Inherited →
  ∃ o', normalizeCreationVideoOptions o (ModelName name) = Ok o' ∧
        getCreationVideoOptionsError o' (ModelName name) = Ok None.
Proof.
  intros Hi. destruct (getCreationVideoCapabilities_returns (ModelName name)) as [cap Hcap].
  unfold normalizeCreationVideoOptions, getCreationVideoOptionsError. rewrite Hcap in *.
  cbn [mbind exc_bind]. destruct cap as [c| |]; [|done|].
  - apply named_capability, catalogue_capability_ok in Hcap as Hok.
    unfold capability_ok in Hok. bool_to_prop. rewrite forallb_forall in *.
    assert (returns (normalize_options (Own c) o)) as [o' Ho'].
    { unfold normalize_options. apply returns_bind; [apply pick_returns; by intros E; rewrite E in *|].
      intros r _. apply returns_bind; [apply pick_returns; by intros E; rewrite E in *|ret]. }
    exists o'. split; [done|]. apply normalize_offered in Ho' as (_ & Hd & _).
    apply list_elem_of_fmap in Hd as (d & Hd & Hin). rewrite Hd.
    assert (d_value d ∈ c_durations c) as Hdin.
    { apply includes_elem. apply H3. by apply list_elem_of_In. }
    assert (canonical_duration (d_value d) = true) as Hcan.
    { apply H0. by apply list_elem_of_In. }
    unfold canonical_duration in Hcan. bool_to_prop. unfold str_eqb in *. bool_to_prop.
    rewrite H4, H5. apply includes_elem in Hdin. by rewrite Hdin.
  - assert (returns (normalize_options Missing o)) as [o' Ho']; [|eauto].
    unfold normalize_options. apply returns_bind; [by apply pick_returns|].
    intros r _. apply returns_bind; [by apply pick_returns|ret].
Qed.

(** ** Properties *)

(** Normalising a selection yields a selection the model offers: its
    resolution and duration are among the options shown for the model and
    its aspect ratio among the capability's (absent only when it has none);
    and it changes nothing about a selection that is already offered, so
    normalisation is idempotent. *)
Theorem normalize_options_offered `{CaseMap} (model : CreationModelInput)
    (cap : looked CreationVideoCapability) (o o' : CreationVideoOptions) :
  getCreationVideoCapabilities model = Ok cap →
  normalizeCreationVideoOptions o model = Ok o' →
  offered cap o' ∧ normalizeCreationVideoOptions o' model = Ok o' ∧
  (offered cap o → o' = o).
Proof.
  unfold normalizeCreationVideoOptions. intros ->. cbn [mbind exc_bind]. intros E.
  assert (cap ≠ Inherited) as Hc by (by intros ->).
  apply normalize_offered in E as Ho. split; [done|].
  split; [by apply normalize_keeps|]. intros H1. apply (normalize_keeps _ _ Hc) in H1. congruence.
Qed.

Lemma normalize_options_offered_witness :
  normalizeCreationVideoOptions (Options (js "8k") (js "7") (Some (js "2:1")))
    (ModelName (js "Seedance-2.5 (beta)"))
  = Ok (Options (js "720p") (js "7") (Some (js "16:9"))) ∧
  normalizeCreationVideoOptions (Options (js "720p") (js "7") (Some (js "16:9")))
    (ModelName (js "Seedance-2.5 (beta)"))
  = Ok (Options (js "720p") (js "7") (Some (js "16:9"))).
Proof.
  split; [vm_compute; reflexivity|].
  apply (normalize_options_offered (ModelName (js "Seedance-2.5 (beta)"))
    (Own SEEDANCE_25_API_CAPABILITY) (Options (js "8k") (js "7") (Some (js "2:1"))));
    vm_compute; reflexivity.
Defined.

(** C4.  For a model given by its name, unless the name resolves to a member
    of [Object.prototype], normalising any selection succeeds and the result
    passes the duration check: the options offered for the static tables and
    the XJZ catalogue are exactly values the validation accepts. *)
Theorem normalized_selection_valid `{CaseMap} (name : jsstr) (o : CreationVideoOptions) :
  getCreationVideoCapabilities (ModelName name) ≠ Ok Inherited →
  ∃ o', normalizeCreationVideoOptions o (ModelName name) = Ok o' ∧
        getCreationVideoOptionsError o' (ModelName name) = Ok None.
Proof. apply named_selection. Qed.

Lemma normalized_selection_valid_witness :
  ∃ o', normalizeCreationVideoOptions (Options [] [] None) (ModelName (js "gz-sd4k")) = Ok o' ∧
        getCreationVideoOptionsError o' (ModelName (js "gz-sd4k")) = Ok None.
Proof. apply normalized_selection_valid. vm_compute. discriminate. Defined.

(** A model named [constructor] or [__proto__] makes the option
    normalisation throw: the capability table is read as a plain object and
    the member inherited from [Object.prototype] is taken for a capability. *)
Theorem inherited_capability_throws `{CaseMap} (name : jsstr) (o : CreationVideoOptions) :
  name ∈ [js "constructor"; js "__proto__"] →
  normalizeCreationVideoOptions o (ModelName name) = Throw.
Proof.
  intros Hn. unfold normalizeCreationVideoOptions.
  assert (getCreationVideoCapabilities (ModelName name) = Ok Inherited) as ->; [|done].
  assert (to_lower name = name) as Hl.
  { rewrite to_lower_ascii; set_unfold; destruct Hn as [->|[->|[]]];
      try (vm_compute; reflexivity); repeat constructor. }
  assert (trim name = name) as Ht by (set_unfold; by destruct Hn as [->|[->|[]]]).
  assert (getNormalizedModelIdVariants (Some (normalizeModelId (ModelName name))) = [name]) as Hv.
  { unfold getNormalizedModelIdVariants, normalizeModelId. cbn [getModelId].
    rewrite Ht, Hl, Ht, Hl. set_unfold. by destruct Hn as [->|[->|[]]]. }
  unfold getCreationVideoCapabilities, sanbao_first. cbn [getModelMetadata mbind option_bind].
  rewrite sanbao_named.
  assert (static_capability (getCreationModelIdCandidates (ModelName name)) = Inherited) as ->.
  { unfold getCreationModelIdCandidates. rewrite Hv. cbn [getModelMetadata mbind option_bind].
    set_unfold. by destruct Hn as [->|[->|[]]]. }
  rewrite xjz_named.
  assert (getXJZVideoModelSpec name = None) as ->; [|done].
  set_unfold. destruct Hn as [->|[->|[]]]; vm_compute; reflexivity.
Qed.

Lemma inherited_capability_throws_witness :
  normalizeCreationVideoOptions DEFAULT_CREATION_VIDEO_OPTIONS (ModelName (js "constructor")) = Throw.
Proof.
  apply (inherited_capability_throws (js "constructor") DEFAULT_CREATION_VIDEO_OPTIONS).
  apply list_elem_of_In. simpl. by left.
Defined.
