(* ===== verification/VideoReferences.v ===== *)
(** * Reference media of a video request

    Model of the reference functions of
    src/web/default/src/features/media-generation/video-options.ts: the
    normalisation of image, video and audio references for a model, their
    selection by mentions in the prompt, and their validation.

    [new URL(value)] is a parameter ([UrlApi]); [toLocaleLowerCase] depends
    on the locale and is the parameter [to_locale_lower]. *)
From S2P Require Import Prelude JsString JsNumber XjzModels VideoCapabilities VideoOptions.

Open Scope Z_scope.

(** Parsing a URL: its protocol and path, or an exception. *)
Class UrlApi := parse_url : jsstr → option (jsstr * jsstr).

Record CreationVideoReferenceObject := RefObject {
  url : jsstr;
  previewUrl : option jsstr;
  sizeBytes : option num;
  durationSeconds : option num;
}.

Inductive CreationVideoReferenceValue :=
  | RefString (s : jsstr)
  | RefObj (o : CreationVideoReferenceObject).

Record CreationVideoReferences := References {
  referenceMode : CreationVideoReferenceMode;
  imageUrls : list CreationVideoReferenceValue;
  startImageUrl : jsstr;
  endImageUrl : jsstr;
  videoUrls : list CreationVideoReferenceValue;
  audioUrls : list CreationVideoReferenceValue;
  audioUrl : CreationVideoReferenceValue;
}.

(** [Partial<CreationVideoReferences> | undefined]: every field optional. *)
Record PartialReferences := Partial {
  o_referenceMode : option CreationVideoReferenceMode;
  o_imageUrls : option (list CreationVideoReferenceValue);
  o_startImageUrl : option jsstr;
  o_endImageUrl : option jsstr;
  o_videoUrls : option (list CreationVideoReferenceValue);
  o_audioUrls : option (list CreationVideoReferenceValue);
  o_audioUrl : option CreationVideoReferenceValue;
}.

Definition whole (r : CreationVideoReferences) : PartialReferences :=
  Partial (Some (referenceMode r)) (Some (imageUrls r)) (Some (startImageUrl r))
    (Some (endImageUrl r)) (Some (videoUrls r)) (Some (audioUrls r)) (Some (audioUrl r)).

Definition emptyCreationVideoReferences : CreationVideoReferences :=
  References Text [] [] [] [] [] (RefString []).
Definition EMPTY_CREATION_VIDEO_REFERENCES : CreationVideoReferences :=
  References Text [] [] [] [] [] (RefString []).

(** ** Reading a reference *)

Definition url_of (v : CreationVideoReferenceValue) : jsstr :=
  match v with RefString s => trim s | RefObj o => trim (url o) end.

Definition getCreationReferenceURL (v : option CreationVideoReferenceValue) : jsstr :=
  match v with Some v => url_of v | None => [] end.

Definition getCreationReferencePreviewURL (v : option CreationVideoReferenceValue) : jsstr :=
  match v with
  | None => []
  | Some (RefString s) => trim s
  | Some (RefObj o) =>
      str_or (match previewUrl o with Some p => trim p | None => [] end) (trim (url o))
  end.

(** [Number.isFinite(x) && Number(x) > 0 ? Number(x) : 0]. *)
Definition positive_or_zero (x : option num) : num :=
  match x with
  | Some x => if is_finite x && nltb (of_Z 0) x then x else of_Z 0
  | None => of_Z 0
  end.

Definition getCreationReferenceSizeBytes (v : option CreationVideoReferenceValue) : num :=
  match v with Some (RefObj o) => positive_or_zero (sizeBytes o) | _ => of_Z 0 end.

Definition getCreationReferenceDurationSeconds (v : option CreationVideoReferenceValue) : num :=
  match v with Some (RefObj o) => positive_or_zero (durationSeconds o) | _ => of_Z 0 end.

Definition cleanReferenceValues (values : option (list CreationVideoReferenceValue))
    : list CreationVideoReferenceValue :=
  filterb (λ v, truthy (getCreationReferenceURL (Some v))) (from_opt [] values).

Definition mergeReferenceValues (values : option (list CreationVideoReferenceValue))
    (fallback : option CreationVideoReferenceValue) : list CreationVideoReferenceValue :=
  let items := cleanReferenceValues values in
  match fallback with
  | Some f =>
      let fallbackURL := url_of f in
      if truthy fallbackURL && negb (existsb (λ v, str_eqb (url_of v) fallbackURL) items)
      then items ++ [f] else items
  | None => items
  end.

Definition normalizeReferenceString (value : option jsstr) : jsstr :=
  match value with Some v => trim v | None => [] end.

(** [l.slice(0, k)]. *)
Definition slice_to {A} (k : Z) (l : list A) : list A :=
  if 0 <=? k then take (Z.to_nat k) l else take (Z.to_nat (Z.of_nat (length l) + k)) l.

(** ** Normalisation *)

(** [getCreationReferenceURL(l[0]) ? l[0] : '']. *)
Definition first_audio (l : list CreationVideoReferenceValue) : CreationVideoReferenceValue :=
  match l with
  | v :: _ => if truthy (url_of v) then v else RefString []
  | [] => RefString []
  end.

Definition is_spec_kind (k : CapabilityKind) : bool :=
  match k with KXjz | KMapped => true | _ => false end.

Section References.
Context `{CaseMap}.

Definition normalizeReferenceMode (value : option CreationVideoReferenceMode)
    (capability : CreationVideoCapability) (model : CreationModelInput)
    : CreationVideoReferenceMode :=
  let default := from_opt Text (head (c_referenceModes capability)) in
  match value with
  | Some v =>
      if includes v (c_referenceModes capability) then v
      else if isSeedance25Model model && bool_decide (v = Multimodal)
              && includes ImageAudio (c_referenceModes capability)
      then ImageAudio else default
  | None => default
  end.

Definition supports_multi_media (mode : CreationVideoReferenceMode)
    (c : CreationVideoCapability) : bool :=
  bool_decide (mode = Multimodal) &&
  ((0 <? l_maxAudios (c_referenceLimits c)) ||
   (is_spec_kind (c_kind c) && (0 <? l_maxVideos (c_referenceLimits c)))).

Definition supports_image_audio (mode : CreationVideoReferenceMode)
    (c : CreationVideoCapability) : bool :=
  bool_decide (mode = ImageAudio) && (0 <? l_maxAudios (c_referenceLimits c)).

(** The image, video and audio values that the mode admits. *)
Definition mode_images (mode : CreationVideoReferenceMode) (c : CreationVideoCapability)
    (refs : PartialReferences) : list CreationVideoReferenceValue :=
  if bool_decide (mode = Image) || supports_multi_media mode c || supports_image_audio mode c
  then cleanReferenceValues (o_imageUrls refs) else [].

Definition mode_videos (mode : CreationVideoReferenceMode) (c : CreationVideoCapability)
    (refs : PartialReferences) : list CreationVideoReferenceValue :=
  if bool_decide (mode = Video) || supports_multi_media mode c
  then cleanReferenceValues (o_videoUrls refs) else [].

Definition mode_audios (mode : CreationVideoReferenceMode) (c : CreationVideoCapability)
    (refs : PartialReferences) : list CreationVideoReferenceValue :=
  if (supports_multi_media mode c || supports_image_audio mode c)
     && (0 <? l_maxAudios (c_referenceLimits c))
  then mergeReferenceValues (o_audioUrls refs) (o_audioUrl refs) else [].

(** The references for a capability, in the normalised mode. *)
Definition references_in_mode (mode : CreationVideoReferenceMode)
    (c : CreationVideoCapability) (refs : PartialReferences) : CreationVideoReferences :=
  let limits := c_referenceLimits c in
  let images := mode_images mode c refs in
  let videos := mode_videos mode c refs in
  let audios := mode_audios mode c refs in
  if bool_decide (mode = Frames) then
    References mode [] (normalizeReferenceString (o_startImageUrl refs))
      (normalizeReferenceString (o_endImageUrl refs)) [] [] (RefString [])
  else if bool_decide (mode = Image) then
    References mode images [] [] [] [] (RefString [])
  else
    match c_kind c with
    | KVideos =>
        let limitedAudioUrls := slice_to (l_maxAudios limits) audios in
        let limitedImageUrls := slice_to (l_maxImages limits) images in
        let limitedVideoUrls := slice_to (l_maxVideos limits) videos in
        References mode limitedImageUrls [] [] limitedVideoUrls limitedAudioUrls
          (first_audio limitedAudioUrls)
    | KMinimaxH3 =>
        let limitedAudioUrls := slice_to (l_maxAudios limits) audios in
        References mode images [] [] [] limitedAudioUrls (first_audio limitedAudioUrls)
    | _ =>
        let frame s := if bool_decide (mode = Multimodal) then normalizeReferenceString s else [] in
        References mode images (frame (o_startImageUrl refs)) (frame (o_endImageUrl refs)) videos
          (slice_to (if l_maxAudios limits =? 0 then 1 else l_maxAudios limits) audios)
          (from_opt (RefString []) (head audios))
    end.

(** An inherited member has no [referenceModes] and throws. *)
Definition normalize_references (cap : looked CreationVideoCapability)
    (refs : PartialReferences) (model : CreationModelInput) : exc CreationVideoReferences :=
  match cap with
  | Missing => Ok emptyCreationVideoReferences
  | Inherited => Throw
  | Own c =>
      Ok (references_in_mode (normalizeReferenceMode (o_referenceMode refs) c model) c refs)
  end.

Definition normalizeCreationVideoReferences (refs : PartialReferences)
    (model : CreationModelInput) : exc CreationVideoReferences :=
  cap ← getCreationVideoCapabilities model; normalize_references cap refs model.

(** ** Mentions in the prompt *)

Context (to_locale_lower : jsstr → jsstr).

(** [/[a-z0-9_-]/i] of one code unit. *)
Definition isReferenceMentionBoundary (c : N) : bool :=
  let l := ascii_lower c in
  negb (((97 <=? l)%N && (l <=? 122)%N) || is_digit c || (c =? 95)%N || (c =? 45)%N).

(** The [while] loop of [hasPromptMention] from an index on. *)
Fixpoint mention_loop (fuel : nat) (mention prompt : jsstr) (index : option nat) : exc bool :=
  match fuel with
  | O => Fuel
  | S fuel =>
      match index with
      | None => Ok false
      | Some i =>
          match prompt !! (i + length mention)%nat with
          | None => Ok true
          | Some next =>
              if isReferenceMentionBoundary next then Ok true
              else mention_loop fuel mention prompt (index_from mention prompt (i + length mention))
          end
      end
  end.

Definition has_mention (prompt alias : jsstr) : exc bool :=
  let mention := js "@" ++ to_locale_lower alias in
  mention_loop (S (S (length prompt))) mention prompt (index_of mention prompt).

Definition hasPromptMention (prompt : jsstr) (aliases : list jsstr) : exc bool :=
  some_exc (has_mention (to_locale_lower prompt)) aliases.

Inductive MentionKind := MImage | MVideo | MAudio.

(** [`${prefix}${number}`] for each prefix. *)
Definition numbered (prefixes : list jsstr) (number : nat) : list jsstr :=
  map (λ p, p ++ dec (N.of_nat number)) prefixes.

Definition getReferenceMentionAliases (kind : MentionKind) (index : option nat) : list jsstr :=
  match kind with
  | MAudio =>
      match index with
      | None => strs ["参考音频"; "音频"; "reference audio"; "audio"]
      | Some number =>
          numbered (strs ["参考音频"; "音频"; "reference audio "; "reference audio";
                          "audio"; "audio-"]) number
      end
  | MVideo =>
      numbered (strs ["参考视频"; "视频"; "reference video "; "reference video"; "video";
                      "video-"]) (from_opt 1%nat index)
  | MImage =>
      numbered (strs ["参考图片"; "参考图"; "图片"; "reference image "; "reference image";
                      "image"; "image-"]) (from_opt 1%nat index)
  end.

(** [l.filter((_, index) => f(index + 1))]. *)
Fixpoint filter_index {A} (f : nat → exc bool) (i : nat) (l : list A) : exc (list A) :=
  match l with
  | [] => Ok []
  | x :: l =>
      b ← f i; rest ← filter_index f (S i) l;
      Ok (if (b : bool) then x :: rest else rest)
  end.

Definition mentioned {A} (prompt : jsstr) (kind : MentionKind) (l : list A) : exc (list A) :=
  filter_index (λ i, hasPromptMention prompt (getReferenceMentionAliases kind (Some i))) 1 l.

Definition filterCreationVideoReferencesByPromptMentions (prompt : jsstr)
    (refs : CreationVideoReferences) (model : CreationModelInput) : exc CreationVideoReferences :=
  normalized ← normalizeCreationVideoReferences (whole refs) model;
  mentionedImageUrls ← mentioned prompt MImage (imageUrls normalized);
  mentionedVideoUrls ← mentioned prompt MVideo (videoUrls normalized);
  genericAudioMention ← hasPromptMention prompt (getReferenceMentionAliases MAudio None);
  mentionedAudioUrls ←
    (if (genericAudioMention : bool) then Ok (audioUrls normalized)
     else mentioned prompt MAudio (audioUrls normalized));
  match mentionedImageUrls, mentionedVideoUrls, mentionedAudioUrls with
  | [], [], [] => Ok normalized
  | _, _, _ =>
      normalizeCreationVideoReferences
        (whole (References (referenceMode normalized) mentionedImageUrls [] []
                  mentionedVideoUrls mentionedAudioUrls
                  (from_opt (RefString []) (head mentionedAudioUrls)))) model
  end.
End References.

(** ** Validation *)

Definition VIDEO_REFERENCE_IMAGE_EXTENSIONS : list jsstr :=
  strs ["avif"; "gif"; "jpeg"; "jpg"; "png"; "webp"].
Definition VIDEO_REFERENCE_VIDEO_EXTENSIONS : list jsstr := strs ["mp4"].
Definition VIDEO_REFERENCE_AUDIO_EXTENSIONS : list jsstr := strs ["mp3"; "wav"].
Definition MINIMAX_H3_REFERENCE_AUDIO_EXTENSIONS : list jsstr :=
  strs ["mp3"; "wav"; "m4a"; "aac"; "ogg"; "webm"].
Definition VIDEO_REFERENCE_IMAGE_MIME_TYPES : list jsstr :=
  strs ["image/avif"; "image/gif"; "image/jpeg"; "image/png"; "image/webp"].
Definition SEEDANCE_25_REFERENCE_IMAGE_EXTENSIONS : list jsstr :=
  strs ["jpeg"; "jpg"; "png"; "webp"].
Definition SEEDANCE_25_REFERENCE_IMAGE_MIME_TYPES : list jsstr :=
  strs ["image/jpeg"; "image/png"; "image/webp"].
Definition VIDEO_REFERENCE_VIDEO_MIME_TYPES : list jsstr := strs ["video/mp4"].
Definition VIDEO_REFERENCE_AUDIO_MIME_TYPES : list jsstr :=
  strs ["audio/mpeg"; "audio/mp3"; "audio/wav"; "audio/wave"; "audio/x-wav"].
Definition MINIMAX_H3_REFERENCE_AUDIO_MIME_TYPES : list jsstr :=
  VIDEO_REFERENCE_AUDIO_MIME_TYPES ++
  strs ["audio/mp4"; "audio/x-m4a"; "audio/aac"; "audio/x-aac"; "audio/ogg";
        "application/ogg"; "audio/webm"].

(** An early return with a message, or the rest of the function. *)
Definition reject (condition : bool) (message : exc jsstr) (rest : exc (option jsstr))
    : exc (option jsstr) :=
  if condition then m ← message; Ok (Some m) else rest.

Lemma reject_none c m r : reject c m r = Ok None ↔ c = false ∧ r = Ok None.
Proof. unfold reject. destruct c; [|tauto]. destruct m; naive_solver. Qed.

Section Validation.
Context `{CaseMap} `{UrlApi}.

Definition isHTTPURL (value : jsstr) : bool :=
  match parse_url value with
  | Some (protocol, _) => includes protocol [js "http:"; js "https:"]
  | None => false
  end.

(** The MIME type of a data URL: [data:] in any case, a non-empty run without
    [;] and [,], then either [,] or [;] and, further on, a [,]. *)
Definition getDataURLMime (value : jsstr) : option jsstr :=
  if negb (str_eqb (map ascii_lower (take 5 value)) (js "data:")) then None
  else
    let stop c := bool_decide (c ∈ [59; 44]%N) in
    let body := drop 5 value in
    let rest := drop_while (λ c, negb (stop c)) body in
    let mime := take (length body - length rest) body in
    if negb (truthy mime) then None
    else
      match rest with
      | 44%N :: _ => Some (to_lower mime)
      | 59%N :: params => if includes 44%N params then Some (to_lower mime) else None
      | _ => None
      end.

Definition isReferenceImage (value : jsstr) : bool :=
  isHTTPURL value ||
  match getDataURLMime value with Some m => starts_with (js "image/") m | None => false end.
Definition isReferenceVideo (value : jsstr) : bool := isHTTPURL value.
Definition isReferenceAudio (value : jsstr) : bool := isHTTPURL value.

Definition getURLFileExtension (value : jsstr) : jsstr :=
  match parse_url value with
  | Some (_, pathname) =>
      let filename := from_opt [] (last (split (js "/") pathname)) in
      if str_includes (js ".") filename
      then to_lower (from_opt [] (last (split (js ".") filename))) else to_lower []
  | None => []
  end.

Definition hasAllowedURLFileExtension (value : jsstr) (extensions : list jsstr) : bool :=
  let extension := getURLFileExtension value in
  truthy extension && includes extension extensions.

Definition hasAllowedReferenceFormat (value : jsstr) (extensions mimeTypes : list jsstr) : bool :=
  let mime := from_opt [] (getDataURLMime value) in
  if truthy mime then includes mime mimeTypes else hasAllowedURLFileExtension value extensions.

Context (model : CreationModelInput) (c : CreationVideoCapability).

(** A message that depends on [isSeedance2Model]. *)
Definition by_seedance (seedance25 seedance2 other : string) : exc jsstr :=
  if isSeedance25Model model then Ok (js seedance25)
  else b ← isSeedance2Model model; Ok (js (if (b : bool) then seedance2 else other)).

Definition images_message : exc jsstr :=
  match c_kind c with
  | KXjz | KMapped => Ok (js "Videos API accepts too many reference assets.")
  | KSanbao => Ok (js "Sanbao accepts too many reference images.")
  | KVideos =>
      by_seedance "Seedance 2.5 accepts at most 30 image references."
        "Seedance accepts at most 9 image references."
        "Videos API accepts at most 9 image references."
  | KMinimaxH3 => Ok (js "MiniMax H3 accepts at most 5 image references.")
  | _ =>
      Ok (js (if isVideo25Model model then "Video 2.5 accepts at most 30 image references."
              else "Video2 accepts at most 4 image references."))
  end.

Definition videos_message : exc jsstr :=
  match c_kind c with
  | KXjz | KMapped => Ok (js "Videos API accepts too many reference assets.")
  | KSanbao => Ok (js "Sanbao accepts too many reference videos.")
  | KVideos =>
      by_seedance "Seedance 2.5 accepts at most 10 reference videos."
        "Seedance accepts at most 3 reference videos."
        "Videos API accepts at most 3 reference videos."
  | _ =>
      Ok (js (if isVideo25Model model then "Video 2.5 accepts at most 10 reference videos."
              else "Video2 accepts at most 3 video references."))
  end.

Definition audios_message : exc jsstr :=
  match c_kind c with
  | KXjz | KMapped => Ok (js "Videos API accepts too many reference assets.")
  | KVideos =>
      by_seedance "Seedance 2.5 accepts at most 10 reference audios."
        "Seedance accepts at most 3 reference audios."
        "Videos API accepts at most 3 reference audios."
  | KSanbao => Ok (js "Sanbao accepts too many reference audios.")
  | _ =>
      Ok (js (if isVideo25Model model then "Video 2.5 accepts at most 10 reference audios."
              else "Video2 accepts at most 1 audio reference."))
  end.

Definition media_message : exc jsstr :=
  match c_kind c with
  | KVideos =>
      by_seedance "Seedance 2.5 accepts too many reference assets."
        "Seedance accepts too many reference assets."
        "Videos API accepts too many reference assets."
  | _ =>
      Ok (js (if isVideo25Model model then "Video 2.5 accepts too many reference assets."
              else "Sanbao accepts too many reference assets."))
  end.

Context (refs : CreationVideoReferences).

Definition image_count : Z :=
  Z.of_nat (length (imageUrls refs)) + (if truthy (startImageUrl refs) then 1 else 0)
  + (if truthy (endImageUrl refs) then 1 else 0).
Definition video_count : Z := Z.of_nat (length (videoUrls refs)).
Definition audio_count : Z := Z.of_nat (length (audioUrls refs)).

(** What the mode and the model's specification require. *)
Definition mode_error (rest : exc (option jsstr)) : exc (option jsstr) :=
  let spec := if is_spec_kind (c_kind c) then getVideoModelSpec model else None in
  let minimax (m : CreationVideoReferenceMode) :=
    bool_decide (c_kind c = KMinimaxH3) && bool_decide (referenceMode refs = m) in
  reject (match spec ≫= minImages with
          | Some n => negb (n =? 0) && (image_count <? n)
          | None => false
          end) (Ok (js "Image reference mode requires at least one image reference."))
  (reject (match spec with
           | Some s => audioNeedsVisualReference s && (0 <? audio_count)
                       && (image_count + video_count =? 0)
           | None => false
           end) (Ok (js "Audio reference requires at least one image reference."))
  (reject (match spec with
           | Some s => audioRequiresImage s && (0 <? audio_count) && (image_count =? 0)
           | None => false
           end) (Ok (js "Audio reference requires at least one image reference."))
  (reject (minimax Image && bool_decide (imageUrls refs = []))
     (Ok (js "Image reference mode requires at least one image reference."))
  (reject (minimax Frames && (negb (truthy (startImageUrl refs)) || negb (truthy (endImageUrl refs))))
     (Ok (js "Start/end frame mode requires both a start frame and an end frame."))
  (reject (minimax ImageAudio && (0 <? audio_count) && bool_decide (imageUrls refs = []))
     (Ok (js "Audio reference requires at least one image reference."))
  (reject (minimax ImageAudio && (bool_decide (imageUrls refs = []) || (audio_count =? 0)))
     (Ok (js "Image and audio mode requires at least one image and one audio reference."))
  rest)))))).

Definition count_error (rest : exc (option jsstr)) : exc (option jsstr) :=
  let limits := c_referenceLimits c in
  reject (bool_decide (c_kind c = KSora2) && (1 <? image_count))
     (Ok (js "Sora2 accepts at most 1 reference image."))
  (reject (l_maxImages limits <? image_count) images_message
  (reject (l_maxVideos limits <? video_count) videos_message
  (reject (l_maxAudios limits <? audio_count) audios_message
  (reject (match l_maxMediaFiles limits with
           | Some n => negb (n =? 0) && (n <? image_count + video_count + audio_count)
           | None => false
           end) media_message
  rest)))).

(** A known duration outside the limits; an unknown one counts as 0. *)
Definition bad_duration (low high : option Z) (v : CreationVideoReferenceValue) : bool :=
  let duration := getCreationReferenceDurationSeconds (Some v) in
  nltb (of_Z 0) duration &&
  (nltb duration (of_Z (from_opt 0 low)) ||
   nltb (match high with Some h => of_Z h | None => nInf end) duration).

Definition total_duration (l : list CreationVideoReferenceValue) : num :=
  fold_left (λ total v, nadd total (getCreationReferenceDurationSeconds (Some v))) l (of_Z 0).

Definition exceeds (limit : option Z) (total : num) : bool :=
  match limit with Some n => negb (n =? 0) && nltb (of_Z n) total | None => false end.

Definition duration_errors (rest : exc (option jsstr)) : exc (option jsstr) :=
  let limits := c_referenceLimits c in
  let timed := isSeedance25Model model || isVideo25Model model in
  let msg (video25 seedance : string) : exc jsstr :=
    Ok (js (if isVideo25Model model then video25 else seedance)) in
  reject (timed && existsb (bad_duration (l_minReferenceVideoDurationSeconds limits)
                              (l_maxReferenceVideoDurationSeconds limits)) (videoUrls refs))
    (msg "Video 2.5 reference videos must be between 3 and 10 seconds each."
         "Seedance 2.5 reference videos must be between 2 and 30 seconds each.")
  (reject (timed && existsb (bad_duration (l_minReferenceAudioDurationSeconds limits)
                              (l_maxReferenceAudioDurationSeconds limits)) (audioUrls refs))
    (msg "Video 2.5 reference audios must be between 3 and 30 seconds each."
         "Seedance 2.5 reference audios must be between 2 and 30 seconds each.")
  (reject (exceeds (l_maxReferenceVideoTotalDurationSeconds limits) (total_duration (videoUrls refs)))
    (msg "Video 2.5 reference videos must not exceed 30 seconds in total."
         "Seedance 2.5 reference videos must not exceed 30 seconds in total.")
  (reject (exceeds (l_maxReferenceAudioTotalDurationSeconds limits) (total_duration (audioUrls refs)))
    (msg "Video 2.5 reference audios must not exceed 30 seconds in total."
         "Seedance 2.5 reference audios must not exceed 30 seconds in total.")
  rest))).

Definition image_values : list jsstr :=
  filterb truthy (map url_of (imageUrls refs) ++ [startImageUrl refs; endImageUrl refs]).
Definition url_values (l : list CreationVideoReferenceValue) : list jsstr :=
  filterb truthy (map url_of l).

(** Some value that fails [f]. *)
Definition some_not (f : jsstr → bool) (l : list jsstr) : bool := existsb (λ u, negb (f u)) l.

Definition format_error : exc (option jsstr) :=
  let minimax := bool_decide (c_kind c = KMinimaxH3) in
  reject (some_not isReferenceImage image_values)
    (Ok (js "Reference images must be images or HTTP URLs."))
  (seedance2 ← isSeedance2Model model;
   reject ((seedance2 : bool) && some_not isHTTPURL image_values)
    (Ok (js "Reference URL must use HTTP or HTTPS."))
  (reject (isSeedance25Model model &&
           some_not (λ u, hasAllowedReferenceFormat u SEEDANCE_25_REFERENCE_IMAGE_EXTENSIONS
                            SEEDANCE_25_REFERENCE_IMAGE_MIME_TYPES) image_values)
    (Ok (js "Seedance 2.5 reference image format must be JPG, PNG, or WebP."))
  (reject ((bool_decide (c_kind c = KVideo2) || bool_decide (c_kind c = KSanbao)) &&
           some_not (λ u, hasAllowedReferenceFormat u VIDEO_REFERENCE_IMAGE_EXTENSIONS
                            VIDEO_REFERENCE_IMAGE_MIME_TYPES) image_values)
    (Ok (js "Reference image format must be PNG, JPEG, WebP, GIF, or AVIF."))
  (reject (some_not isReferenceVideo (url_values (videoUrls refs)) ||
           some_not isReferenceAudio (url_values (audioUrls refs)))
    (Ok (js "Reference URL must use HTTP or HTTPS."))
  (reject (some_not (λ u, hasAllowedReferenceFormat u VIDEO_REFERENCE_VIDEO_EXTENSIONS
                            VIDEO_REFERENCE_VIDEO_MIME_TYPES) (url_values (videoUrls refs)))
    (Ok (js "Reference video format must be MP4."))
  (reject (some_not (λ u, hasAllowedReferenceFormat u
             (if minimax then MINIMAX_H3_REFERENCE_AUDIO_EXTENSIONS
              else VIDEO_REFERENCE_AUDIO_EXTENSIONS)
             (if minimax then MINIMAX_H3_REFERENCE_AUDIO_MIME_TYPES
              else VIDEO_REFERENCE_AUDIO_MIME_TYPES)) (url_values (audioUrls refs)))
    (Ok (if minimax then js "Reference audio format must be MP3, WAV, M4A, AAC, OGG, or WebM."
         else js "Reference audio format must be MP3 or WAV."))
  (Ok None))))))).

Definition reference_error : exc (option jsstr) :=
  mode_error (count_error (duration_errors format_error)).
End Validation.

Definition getCreationVideoReferenceError `{CaseMap} `{UrlApi} (model : CreationModelInput)
    (refs : CreationVideoReferences) : exc (option jsstr) :=
  cap ← getCreationVideoCapabilities model;
  match cap with
  | Missing => Ok None
  | _ =>
      normalized ← normalize_references cap (whole refs) model;
      match cap with
      | Own c => reference_error model c normalized
      | _ => Throw
      end
  end.

(** * Properties of the reference functions *)

(** ** Lists of references *)

Definition has_url (v : CreationVideoReferenceValue) : Prop := truthy (url_of v) = true.

Lemma clean_has_url l : Forall has_url (cleanReferenceValues l).
Proof.
  apply Forall_forall. intros x Hx. unfold cleanReferenceValues in Hx.
  by apply filterb_elem in Hx as [_ Hx].
Qed.

Lemma clean_id l : Forall has_url l → cleanReferenceValues (Some l) = l.
Proof.
  intros Hl. apply filterb_all. rewrite Forall_forall in Hl. intros x Hx. by apply Hl.
Qed.

Lemma merge_has_url l f : Forall has_url (mergeReferenceValues l f).
Proof.
  unfold mergeReferenceValues. pose proof (clean_has_url l) as Hc.
  destruct f as [f|]; [|done]. destruct (truthy (url_of f)) eqn:E; [|done]. simpl.
  destruct (existsb _ _); [done|]. simpl. apply Forall_app. by repeat constructor.
Qed.

Lemma slice_has_url k l : Forall has_url l → Forall has_url (slice_to k l).
Proof. intros. unfold slice_to. destruct (0 <=? k); by apply Forall_take. Qed.

Lemma slice_slice {A} k (l : list A) : 0 ≤ k → slice_to k (slice_to k l) = slice_to k l.
Proof.
  intros Hk. unfold slice_to. destruct (Z.leb_spec 0 k); [|lia]. by rewrite take_take, Nat.min_id.
Qed.

Lemma slice_nil {A} k : slice_to k (@nil A) = [].
Proof. unfold slice_to. destruct (0 <=? k); apply take_nil. Qed.

Lemma slice_length {A} k (l : list A) : 0 ≤ k → Z.of_nat (length (slice_to k l)) ≤ k.
Proof.
  intros Hk. unfold slice_to. destruct (Z.leb_spec 0 k); [|lia]. rewrite length_take. lia.
Qed.

Lemma slice_head {A} k (l : list A) : 0 < k → head (slice_to k l) = head l.
Proof.
  intros Hk. unfold slice_to. destruct (Z.leb_spec 0 k); [|lia].
  destruct (Z.to_nat k) eqn:E; [lia|]. by destruct l.
Qed.

Lemma first_audio_head l : Forall has_url l → first_audio l = from_opt (RefString []) (head l).
Proof. destruct l as [|v l]; [done|]. simpl. intros [Hv _]%Forall_cons. by rewrite Hv. Qed.

(** Merging a list with its own first element adds nothing. *)
Lemma merge_head l :
  Forall has_url l →
  mergeReferenceValues (Some l) (Some (from_opt (RefString []) (head l))) = l.
Proof.
  intros Hl. unfold mergeReferenceValues. rewrite clean_id by done.
  destruct l as [|v l]; [done|]. simpl.
  assert (str_eqb (url_of v) (url_of v) = true) as -> by by apply bool_decide_eq_true.
  simpl. by rewrite andb_false_r.
Qed.

Section Normalise.
Context `{CaseMap}.

Lemma mode_idemp v c model :
  let m := normalizeReferenceMode v c model in normalizeReferenceMode (Some m) c model = m.
Proof.
  assert (∀ m, m ∈ c_referenceModes c → normalizeReferenceMode (Some m) c model = m) as Hin.
  { intros m Hm. simpl. apply includes_elem in Hm. by rewrite Hm. }
  set (d := from_opt Text (head (c_referenceModes c))).
  assert (normalizeReferenceMode (Some d) c model = d) as Hd.
  { subst d. destruct (c_referenceModes c) as [|m ms] eqn:E.
    - simpl. rewrite E. simpl. by rewrite andb_false_r.
    - apply Hin. set_solver. }
  cbv zeta. unfold normalizeReferenceMode at 2 3. fold d.
  destruct v as [v|]; [|done]. destruct (includes v (c_referenceModes c)) eqn:E.
  - apply Hin. by apply includes_elem.
  - destruct (_ && _) eqn:F; [|done]. bool_to_prop. apply Hin. by apply includes_elem.
Qed.

(** The limits by which the [videos] kind cuts lists are not negative. *)
Definition limits_ok (c : CreationVideoCapability) : Prop :=
  c_kind c = KVideos →
  0 ≤ l_maxImages (c_referenceLimits c) ∧ 0 ≤ l_maxVideos (c_referenceLimits c) ∧
  0 ≤ l_maxAudios (c_referenceLimits c).

Lemma sanbao_kind model c : getSanbaoVideoCapability model = Some c → c_kind c = KSanbao.
Proof.
  unfold getSanbaoVideoCapability. destruct (_ || _); [done|].
  destruct (negb _); [done|]. destruct (getModelMetadata model) as [m|]; [|done].
  destruct (getSanbaoMediaType _); [|done]. destruct (negb _); [done|].
  by intros [= <-].
Qed.

Lemma sanbao_first_kind model c : sanbao_first model = Some c → c_kind c = KSanbao.
Proof.
  unfold sanbao_first. destruct (_ ≫= provider); [|done].
  destruct (str_eqb _ _); [apply sanbao_kind|done].
Qed.

Lemma spec_kind model c : getXJZVideoCapability model = Some c → is_spec_kind (c_kind c) = true.
Proof.
  unfold getXJZVideoCapability. destruct (getVideoModelSpec model) as [spec|]; [|done].
  generalize (is_some (getXJZVideoModelSpec (getModelId model))). intros b [= <-]. by destruct b.
Qed.

Lemma videos_kind_static model c :
  getCreationVideoCapabilities model = Ok (Own c) → c_kind c = KVideos →
  ∃ k, (k, c) ∈ VIDEO_CAPABILITIES.
Proof.
  unfold getCreationVideoCapabilities. intros E Hk.
  destruct (sanbao_first model) as [c'|] eqn:E1.
  { injection E as ->. apply sanbao_first_kind in E1. congruence. }
  destruct (getXJZVideoCapability model) as [c'|] eqn:E2.
  { injection E as ->. apply spec_kind in E2. by rewrite Hk in E2. }
  destruct (getSanbaoVideoCapability model) as [c'|] eqn:E3.
  { injection E as ->. apply sanbao_kind in E3. congruence. }
  destruct (static_capability _) eqn:E4; [injection E as ->; by eapply static_capability_elem|done|].
  destruct (isSeedance2Model model) as [[]| |]; try done. cbn [mbind exc_bind] in E.
  injection E as <-. apply seedance2_elem.
Qed.

Lemma capability_limits_ok model c :
  getCreationVideoCapabilities model = Ok (Own c) → limits_ok c.
Proof.
  intros E Hk. destruct (videos_kind_static model c E Hk) as [k Hin].
  assert (forallb (λ kc : jsstr * CreationVideoCapability,
    let l := c_referenceLimits kc.2 in
    (0 <=? l_maxImages l) && (0 <=? l_maxVideos l) && (0 <=? l_maxAudios l)) VIDEO_CAPABILITIES
    = true) as Hs by (vm_compute; reflexivity).
  rewrite forallb_forall in Hs. apply list_elem_of_In in Hin. specialize (Hs _ Hin).
  cbn [snd] in Hs. cbv zeta in Hs. bool_to_prop. done.
Qed.

(** Normalising again the values that were kept keeps them. *)
Lemma mode_images_fix mode c refs r n :
  imageUrls r = take n (mode_images mode c refs) → mode_images mode c (whole r) = imageUrls r.
Proof.
  unfold mode_images. intros E. cbn [whole o_imageUrls]. rewrite E.
  destruct (_ || _ || _); [|by rewrite take_nil]. apply clean_id, Forall_take, clean_has_url.
Qed.

Lemma mode_videos_fix mode c refs r n :
  videoUrls r = take n (mode_videos mode c refs) → mode_videos mode c (whole r) = videoUrls r.
Proof.
  unfold mode_videos. intros E. cbn [whole o_videoUrls]. rewrite E.
  destruct (_ || _); [|by rewrite take_nil]. apply clean_id, Forall_take, clean_has_url.
Qed.

Lemma mode_audios_fix mode c refs r n :
  audioUrls r = take n (mode_audios mode c refs) →
  audioUrl r = from_opt (RefString []) (head (audioUrls r)) →
  mode_audios mode c (whole r) = audioUrls r.
Proof.
  unfold mode_audios. intros E Eu. cbn [whole o_audioUrls o_audioUrl]. rewrite Eu, E.
  destruct (_ && _); [|by rewrite take_nil]. apply merge_head, Forall_take, merge_has_url.
Qed.

Lemma slice_take {A} k (l : list A) : ∃ n, slice_to k l = take n l.
Proof. unfold slice_to. destruct (0 <=? k); eauto. Qed.

Lemma mode_audios_has_url mode c refs : Forall has_url (mode_audios mode c refs).
Proof. unfold mode_audios. case_split; [apply merge_has_url|constructor]. Qed.

(** The general branch keeps the first audio: there is one only if the
    model admits audio. *)
Lemma general_head mode c refs (k := l_maxAudios (c_referenceLimits c)) :
  head (slice_to (if k =? 0 then 1 else k) (mode_audios mode c refs))
  = head (mode_audios mode c refs).
Proof.
  unfold mode_audios. destruct (_ && _) eqn:E; [|by rewrite slice_nil].
  bool_to_prop. fold k in H1. apply slice_head. destruct (k =? 0) eqn:F; bool_to_prop; lia.
Qed.

Lemma general_slice mode c refs (k := l_maxAudios (c_referenceLimits c)) (l := mode_audios mode c refs) :
  let k' := if k =? 0 then 1 else k in slice_to k' (slice_to k' l) = slice_to k' l.
Proof.
  intros k'. subst l k'. unfold mode_audios. destruct (_ && _) eqn:E; [|by rewrite !slice_nil].
  bool_to_prop. fold k in H1. apply slice_slice. destruct (k =? 0) eqn:F; bool_to_prop; lia.
Qed.

Lemma audio_slice mode c refs (k := l_maxAudios (c_referenceLimits c)) :
  slice_to k (slice_to k (mode_audios mode c refs)) = slice_to k (mode_audios mode c refs).
Proof.
  unfold mode_audios. destruct (_ && _) eqn:E; [|by rewrite !slice_nil].
  bool_to_prop. fold k in H1. apply slice_slice. lia.
Qed.

Lemma trim_frame (b : bool) s :
  (if b then trim (if b then normalizeReferenceString s else []) else [])
  = (if b then normalizeReferenceString s else []).
Proof. destruct b; [|done]. destruct s; [apply trim_idemp|done]. Qed.

Lemma references_idemp mode c refs :
  limits_ok c →
  references_in_mode mode c (whole (references_in_mode mode c refs))
  = references_in_mode mode c refs.
Proof.
  intros Hlim. set (r := references_in_mode mode c refs).
  assert (∀ k, ∃ n, slice_to k (mode_images mode c refs) = take n (mode_images mode c refs)) as Hsi
    by (intros; apply slice_take).
  unfold references_in_mode at 1.
  destruct (bool_decide_reflect (mode = Frames)) as [->|Hf].
  { subst r. unfold references_in_mode. simpl. f_equal; apply (trim_frame true). }
  destruct (bool_decide_reflect (mode = Image)) as [->|Him].
  { assert (r = References Image (mode_images Image c refs) [] [] [] [] (RefString [])) as Hr by done.
    rewrite (mode_images_fix _ _ refs _ (length (mode_images Image c refs))); [by rewrite Hr|].
    rewrite Hr. simpl. by rewrite take_ge. }
  pose proof (mode_audios_has_url mode c refs) as Hau.
  assert (r = references_in_mode mode c refs) as Er by done.
  unfold references_in_mode in Er. rewrite (bool_decide_false _ Hf), (bool_decide_false _ Him) in Er.
  assert (∀ A (l : list A), ∃ n, l = take n l) as Hfull
    by (intros A l; exists (length l); by rewrite take_ge).
  assert (imageUrls r = mode_images mode c (whole r)) as Ei.
  { symmetry. destruct (slice_take (l_maxImages (c_referenceLimits c)) (mode_images mode c refs)) as [n1 E1].
    destruct (Hfull _ (mode_images mode c refs)) as [n2 E2].
    destruct (c_kind c); (eapply mode_images_fix; rewrite Er; simpl; first [exact E1|exact E2]). }
  assert (audioUrls r = mode_audios mode c (whole r)) as Ea.
  { symmetry.
    destruct (slice_take (l_maxAudios (c_referenceLimits c)) (mode_audios mode c refs)) as [n1 E1].
    set (k' := if l_maxAudios (c_referenceLimits c) =? 0 then 1 else l_maxAudios (c_referenceLimits c)).
    destruct (slice_take k' (mode_audios mode c refs)) as [n2 E2].
    destruct (c_kind c); (eapply mode_audios_fix;
      [rewrite Er; simpl; first [exact E1|exact E2]|]); rewrite Er; simpl;
      first [by rewrite general_head | by apply first_audio_head, slice_has_url]. }
  assert (c_kind c ≠ KMinimaxH3 → videoUrls r = mode_videos mode c (whole r)) as Ev.
  { intros Hk. symmetry.
    destruct (slice_take (l_maxVideos (c_referenceLimits c)) (mode_videos mode c refs)) as [n1 E1].
    destruct (Hfull _ (mode_videos mode c refs)) as [n2 E2].
    destruct (c_kind c); try done; (eapply mode_videos_fix; rewrite Er; simpl;
      first [exact E1|exact E2]). }
  rewrite <- Ei, <- Ea. unfold limits_ok in Hlim.
  destruct (c_kind c) eqn:K; try (rewrite <- Ev by done); rewrite Er; simpl;
    rewrite ?general_slice, ?general_head, ?audio_slice, ?trim_frame; try done.
  destruct Hlim as (?&?&?); [done|]. by rewrite !slice_slice.
Qed.
End Normalise.

(** ** The mention search *)

(** The end of a mention: the end of the prompt or a boundary. *)
Definition mention_end (post : jsstr) : Prop :=
  match post with [] => True | c :: _ => isReferenceMentionBoundary c = true end.

(** [mention] occurs at [q] and ends there. *)
Definition mention_at (mention p : jsstr) (q : nat) : Prop :=
  ∃ pre post, p = pre ++ mention ++ post ∧ length pre = q ∧ mention_end post.

Lemma index_from_Some mention p k i :
  index_from mention p k = Some i → mention ≠ [] →
  (k ≤ i)%nat ∧ p = take i p ++ mention ++ drop (i + length mention) p ∧
  (i + length mention ≤ length p)%nat.
Proof.
  unfold index_from. intros E Hm. apply fmap_Some in E as (j & E & ->).
  apply index_of_Some in E as [E Hl]. rewrite length_drop in Hl.
  destruct mention as [|c m]; [done|]. cbn [length] in *.
  assert (Nat.min k (length p) = k) as -> by lia. split; [lia|]. split; [|lia].
  rewrite <- (take_drop k p) at 1. rewrite E at 1. rewrite drop_drop.
  rewrite app_assoc. f_equal; [|f_equal; f_equal; lia].
  by rewrite take_take_drop.
Qed.

(** No occurrence lies before the index that the search returns. *)
Lemma index_from_first mention p k q pre post :
  p = pre ++ mention ++ post → length pre = q → (k ≤ q)%nat →
  ∃ i, index_from mention p k = Some i ∧ (i ≤ q)%nat.
Proof.
  intros -> <- Hk. unfold index_from.
  rewrite drop_app_le by done.
  destruct (index_of_first mention (drop k pre) post) as (j & -> & Hj).
  rewrite length_drop in Hj. eexists. split; [done|]. rewrite length_app. lia.
Qed.

Lemma no_overlap m p i q :
  64%N ∉ m → p = take i p ++ (64%N :: m) ++ drop (i + S (length m)) p →
  (i + S (length m) ≤ length p)%nat →
  p !! q = Some 64%N → (i < q)%nat → (i + S (length m) ≤ q)%nat.
Proof.
  intros Hm E Hl Hq Hi. destruct (decide (i + S (length m) ≤ q)%nat) as [|Hlt]; [done|exfalso].
  rewrite E in Hq. rewrite lookup_app_r in Hq by (rewrite length_take; lia).
  rewrite length_take, Nat.min_l in Hq by lia.
  rewrite lookup_app_l in Hq by (simpl; lia).
  destruct (q - i)%nat as [|d] eqn:D; [lia|]. simpl in Hq.
  by apply list_elem_of_lookup_2 in Hq.
Qed.

Lemma mention_loop_spec fuel m p k :
  64%N ∉ m → (length p - k < fuel)%nat → (k ≤ length p)%nat →
  ∃ b, mention_loop fuel (64%N :: m) p (index_from (64%N :: m) p k) = Ok b ∧
       (b = true ↔ ∃ q, (k ≤ q)%nat ∧ mention_at (64%N :: m) p q).
Proof.
  intros Hm. revert k; induction fuel as [|fuel IH]; intros k Hf Hk; [lia|]. cbn [mention_loop].
  destruct (index_from (64%N :: m) p k) as [i|] eqn:E.
  2: { exists false. split; [done|]. split; [done|]. intros (q & Hq & pre & post & Hp & Hl & _).
       destruct (index_from_first _ _ k q pre post Hp Hl Hq) as (i & Hi & _). congruence. }
  apply index_from_Some in E as Hi; [|done]. destruct Hi as (Hki & Hp & Hil). cbn [length] in *.
  assert (length (take i p) = i) as Hti by (rewrite length_take; lia).
  destruct (p !! (i + S (length m))%nat) as [next|] eqn:Hn.
  - assert (∃ t, drop (i + S (length m)) p = next :: t) as [t Ht].
    { exists (drop (S (i + S (length m))) p). by rewrite (drop_S p next). }
    destruct (isReferenceMentionBoundary next) eqn:Hb.
    + exists true. split; [done|]. split; [|done]. intros _. exists i. split; [done|].
      exists (take i p), (drop (i + S (length m)) p). rewrite Ht. simpl.
      split; [rewrite <- Ht; exact Hp|]. done.
    + destruct (IH (i + S (length m))%nat) as (b & Hb1 & Hb2); [lia|lia|].
      exists b. split; [exact Hb1|]. rewrite Hb2. split.
      * intros (q & Hq & Ho). exists q. split; [lia|done].
      * intros (q & Hq & Ho). exists q. split; [|done].
        destruct Ho as (pre & post & Hpp & Hl & He).
        destruct (index_from_first _ _ k q pre post Hpp Hl Hq) as (i' & Hi' & Hle).
        assert (i' = i) as -> by congruence.
        assert (i ≠ q) as Hne.
        { intros ->. rewrite Hpp in Hn, Ht. rewrite <- Hl in Ht.
          rewrite app_assoc in Ht. rewrite drop_app_length' in Ht by (rewrite length_app; simpl; lia).
          subst post. simpl in He. congruence. }
        apply (no_overlap m p i q); [done|exact Hp|lia| |lia].
        rewrite Hpp, lookup_app_r by lia. by rewrite Hl, Nat.sub_diag.
  - exists true. split; [done|]. split; [|done]. intros _. exists i. split; [done|].
    exists (take i p), (drop (i + S (length m)) p). split; [exact Hp|]. split; [done|].
    apply lookup_ge_None in Hn. by rewrite drop_ge.
Qed.

Lemma has_mention_spec (lower : jsstr → jsstr) prompt alias :
  64%N ∉ lower alias →
  ∃ b, has_mention lower prompt alias = Ok b ∧
       (b = true ↔ ∃ q, mention_at (js "@" ++ lower alias) prompt q).
Proof.
  intros Hm. unfold has_mention. change (js "@" ++ lower alias) with (64%N :: lower alias).
  rewrite index_of_from.
  destruct (mention_loop_spec (S (S (length prompt))) (lower alias) prompt 0 Hm) as (b & H1 & H2);
    [lia|lia|].
  exists b. split; [exact H1|]. rewrite H2. split; intros (q & Hq); exists q; [by destruct Hq|].
  split; [lia|done].
Qed.

Lemma some_exc_spec {A} (f : A → exc bool) (P : A → Prop) l :
  (∀ x, x ∈ l → ∃ b, f x = Ok b ∧ (b = true ↔ P x)) →
  ∃ b, some_exc f l = Ok b ∧ (b = true ↔ ∃ x, x ∈ l ∧ P x).
Proof.
  induction l as [|x l IH]; intros Hf; simpl.
  { exists false. split; [done|]. set_solver. }
  destruct (Hf x) as (b & -> & Hb); [set_solver|]. cbn [mbind exc_bind]. destruct b.
  - exists true. split; [done|]. split; [|done]. intros _. exists x. split; [set_solver|tauto].
  - destruct IH as (b & H1 & H2); [intros; apply Hf; set_solver|].
    exists b. split; [done|]. rewrite H2. split.
    + intros (y & Hy & HP). exists y. set_solver.
    + intros (y & [->|Hy]%elem_of_cons & HP); [|by exists y]. apply Hb in HP. done.
Qed.

(** ** Selecting by mentions *)

Lemma filter_index_sublist {A} (f : nat → exc bool) i (l : list A) :
  (∀ j, returns (f j)) → ∃ l', filter_index f i l = Ok l' ∧ l' `sublist_of` l.
Proof.
  intros Hf. revert i; induction l as [|x l IH]; intros i; simpl; [by exists []|].
  destruct (Hf i) as [b ->]. cbn [mbind exc_bind].
  destruct (IH (S i)) as (l' & -> & Hl). cbn [mbind exc_bind].
  destruct b; eexists; (split; [done|]); by constructor.
Qed.

Lemma Forall_sublist {A} (P : A → Prop) (l1 l2 : list A) :
  l1 `sublist_of` l2 → Forall P l2 → Forall P l1.
Proof. induction 1; rewrite ?Forall_cons; naive_solver. Qed.

Section Mentions.
Context `{CaseMap} (lower : jsstr → jsstr).
(** Lower-casing a string without [@] gives a string without [@]. *)
Context (lower_at : ∀ s, 64%N ∈ lower s → 64%N ∈ s).

Lemma aliases_no_at kind i a : a ∈ getReferenceMentionAliases kind i → 64%N ∉ lower a.
Proof.
  intros Ha Hat. apply lower_at in Hat.
  assert (∀ ps n, Forall (λ p, 64%N ∉ p) ps → a ∈ numbered ps n → False) as Hnum.
  { intros ps n Hps Hin. apply list_elem_of_fmap in Hin as (p & -> & Hp).
    rewrite Forall_forall in Hps. apply elem_of_app in Hat as [Hat|Hat]; [by eapply Hps|].
    pose proof (dec_digits (N.of_nat n)) as Hd. rewrite Forall_forall in Hd.
    apply Hd in Hat. done. }
  assert (∀ l : list jsstr, forallb (λ p, negb (includes 64%N p)) l = true →
    Forall (λ p, 64%N ∉ p) l) as Hchk.
  { intros l Hl. rewrite Forall_forall. rewrite forallb_forall in Hl. intros p Hp Hin.
    apply list_elem_of_In, Hl in Hp. apply includes_elem in Hin. by rewrite Hin in Hp. }
  destruct kind, i as [i|]; unfold getReferenceMentionAliases in Ha;
    try (eapply Hnum; [|exact Ha]; apply Hchk; vm_compute; done).
  assert (Forall (λ p, 64%N ∉ p) (strs ["参考音频"; "音频"; "reference audio"; "audio"]%string)) as Hs
    by (apply Hchk; vm_compute; done).
  rewrite Forall_forall in Hs. by eapply Hs.
Qed.

Lemma hasPromptMention_returns prompt kind i :
  returns (hasPromptMention lower prompt (getReferenceMentionAliases kind i)).
Proof.
  apply some_exc_returns. intros a Ha.
  destruct (has_mention_spec lower (lower prompt) a) as (b & -> & _);
    [by eapply aliases_no_at|ret].
Qed.

Lemma mentioned_sublist {A} prompt kind (l : list A) :
  ∃ l', mentioned lower prompt kind l = Ok l' ∧ l' `sublist_of` l.
Proof. apply filter_index_sublist. intros j. apply hasPromptMention_returns. Qed.

Lemma take_sublist {A} n (l : list A) : take n l `sublist_of` l.
Proof. apply sublist_take. Qed.

Lemma slice_sublist {A} k (l : list A) : slice_to k l `sublist_of` l.
Proof. destruct (slice_take k l) as [n ->]. apply take_sublist. Qed.

Lemma mode_images_sublist mode c r : mode_images mode c (whole r) `sublist_of` imageUrls r.
Proof. unfold mode_images. case_split; [apply filterb_sublist|apply sublist_nil_l]. Qed.

Lemma mode_videos_sublist mode c r : mode_videos mode c (whole r) `sublist_of` videoUrls r.
Proof. unfold mode_videos. case_split; [apply filterb_sublist|apply sublist_nil_l]. Qed.

(** Normalisation of whole references selects among them, provided the
    single audio is the first of the list. *)
Lemma references_select mode c r :
  Forall has_url (audioUrls r) → audioUrl r = from_opt (RefString []) (head (audioUrls r)) →
  let r' := references_in_mode mode c (whole r) in
  imageUrls r' `sublist_of` imageUrls r ∧ videoUrls r' `sublist_of` videoUrls r ∧
  audioUrls r' `sublist_of` audioUrls r.
Proof.
  intros Hu Ha. assert (mode_audios mode c (whole r) `sublist_of` audioUrls r) as Hs.
  { unfold mode_audios. cbn [whole o_audioUrls o_audioUrl]. rewrite Ha.
    case_split; [by rewrite merge_head|apply sublist_nil_l]. }
  pose proof (mode_images_sublist mode c r). pose proof (mode_videos_sublist mode c r).
  unfold references_in_mode. destruct (bool_decide (mode = Frames));
    [repeat split; apply sublist_nil_l|].
  destruct (bool_decide (mode = Image)); [split; [done|split; apply sublist_nil_l]|].
  destruct (c_kind c); cbn [imageUrls videoUrls audioUrls]; repeat split;
    try done; try apply sublist_nil_l; (etransitivity; [apply slice_sublist|done]).
Qed.

Lemma references_audio_has_url mode c refs :
  Forall has_url (audioUrls (references_in_mode mode c refs)).
Proof.
  pose proof (mode_audios_has_url mode c refs).
  unfold references_in_mode. destruct (bool_decide _); [constructor|].
  destruct (bool_decide _); [constructor|]. destruct (c_kind c); by apply slice_has_url.
Qed.

Lemma normalized_audio_has_url cap refs model r :
  normalize_references cap refs model = Ok r → Forall has_url (audioUrls r).
Proof.
  destruct cap; simpl; intros [= <-]; [apply references_audio_has_url|constructor].
Qed.
End Mentions.

(** What a passed validation says. *)
Lemma accepted_facts `{CaseMap} `{UrlApi} (model : CreationModelInput)
    (c : CreationVideoCapability) (refs : CreationVideoReferences) :
  getCreationVideoCapabilities model = Ok (Own c) →
  getCreationVideoReferenceError model refs = Ok None →
  (∃ s2, isSeedance2Model model = Ok s2) ∧
  ∃ n, normalizeCreationVideoReferences (whole refs) model = Ok n ∧
    let l := c_referenceLimits c in
    image_count n ≤ l_maxImages l ∧ video_count n ≤ l_maxVideos l ∧
    audio_count n ≤ l_maxAudios l ∧
    (∀ k, l_maxMediaFiles l = Some k → k ≠ 0 →
       image_count n + video_count n + audio_count n ≤ k) ∧
    (∀ u, u ∈ image_values n → isReferenceImage u = true) ∧
    (∀ u, u ∈ url_values (videoUrls n) → isHTTPURL u = true ∧
       hasAllowedReferenceFormat u VIDEO_REFERENCE_VIDEO_EXTENSIONS
         VIDEO_REFERENCE_VIDEO_MIME_TYPES = true) ∧
    (∀ u, u ∈ url_values (audioUrls n) → isHTTPURL u = true).
Proof.
  intros Hcap. unfold getCreationVideoReferenceError, normalizeCreationVideoReferences.
  rewrite Hcap. cbn [mbind exc_bind].
  destruct (normalize_references (Own c) (whole refs) model) as [n| |] eqn:En; [|done|done].
  cbn [mbind exc_bind]. intros He.
  assert (∀ f l, some_not f l = false → ∀ u, u ∈ l → f u = true) as Hsome.
  { intros f l Hf u Hu. destruct (f u) eqn:E; [done|]. exfalso.
    assert (some_not f l = true); [|congruence]. apply existsb_exists.
    exists u. rewrite E. split; [by apply list_elem_of_In|done]. }
  unfold reference_error, mode_error, count_error, duration_errors, format_error in He.
  cbv zeta in He. rewrite !reject_none in He.
  destruct (isSeedance2Model model) as [sd| |]; cbn [mbind exc_bind] in He; [|naive_solver..].
  split; [by exists sd|]. exists n. split; [done|].
  rewrite !reject_none in He. destruct_and! He. cbv zeta.
  repeat match goal with H : orb _ _ = false |- _ => apply orb_false_iff in H as [? ?] end.
  repeat match goal with H : (_ <? _) = false |- _ => apply Z.ltb_ge in H end.
  split; [done|]. split; [done|]. split; [done|]. split; [|split; [|split]].
  2: by eapply Hsome.
  2: { intros u Hu. split; [by apply (Hsome isReferenceVideo (url_values (videoUrls n)))|].
       match goal with H : some_not (λ u, hasAllowedReferenceFormat u VIDEO_REFERENCE_VIDEO_EXTENSIONS _) _ = _ |- _ =>
         exact (Hsome _ _ H u Hu) end. }
  2: by apply (Hsome isReferenceAudio).
  intros k Hk Hne. match goal with H : context [l_maxMediaFiles] |- _ => rewrite Hk in H;
    apply andb_false_iff in H as [H|H] end; bool_to_prop; [done|lia].
Qed.

(** ** Properties *)

(** Normalising references is idempotent: what is kept for the model's
    mode and limits is kept again, whatever the model. *)
Theorem normalize_references_idempotent `{CaseMap} (model : CreationModelInput)
    (refs : PartialReferences) (r : CreationVideoReferences) :
  normalizeCreationVideoReferences refs model = Ok r →
  normalizeCreationVideoReferences (whole r) model = Ok r.
Proof.
  unfold normalizeCreationVideoReferences.
  destruct (getCreationVideoCapabilities model) as [cap| |] eqn:E; [|done|done].
  cbn [mbind exc_bind]. destruct cap as [c| |]; [|done|done]. simpl. intros [= <-]. f_equal.
  set (m := normalizeReferenceMode _ c model).
  assert (referenceMode (references_in_mode m c refs) = m) as ->.
  { unfold references_in_mode. repeat (destruct (bool_decide _); [done|]). by destruct (c_kind c). }
  pose proof (mode_idemp (o_referenceMode refs) c model) as Hm. cbv zeta in Hm. fold m in Hm.
  simpl in Hm. rewrite Hm. apply references_idemp. by eapply capability_limits_ok.
Qed.

Definition sample_refs : PartialReferences :=
  Partial (Some Multimodal) (Some [RefString (js " https://a/x.png "); RefString (js " ")]) None None
    None (Some [RefString (js "https://a/1.mp3")]) (Some (RefString (js "https://a/2.mp3"))).

Lemma normalize_references_idempotent_witness :
  ∃ r, normalizeCreationVideoReferences sample_refs (ModelName (js "seedance-2.5")) = Ok r ∧
       referenceMode r = ImageAudio ∧ length (audioUrls r) = 2%nat ∧
       normalizeCreationVideoReferences (whole r) (ModelName (js "seedance-2.5")) = Ok r.
Proof.
  eexists. split; [vm_compute; reflexivity|]. split; [done|]. split; [done|].
  apply (normalize_references_idempotent (ModelName (js "seedance-2.5")) sample_refs).
  vm_compute. reflexivity.
Defined.

(** References that pass the validation respect the model: after
    normalisation the numbers of images, videos and audios, and of all media
    together, are within the limits of the capability, every image is an
    image data URL or an HTTP URL, every video is an HTTP URL of an MP4 file
    and every audio an HTTP URL. *)
Theorem accepted_references_within_limits `{CaseMap} `{UrlApi} (model : CreationModelInput)
    (c : CreationVideoCapability) (refs : CreationVideoReferences) :
  getCreationVideoCapabilities model = Ok (Own c) →
  getCreationVideoReferenceError model refs = Ok None →
  ∃ n, normalizeCreationVideoReferences (whole refs) model = Ok n ∧
    let l := c_referenceLimits c in
    image_count n ≤ l_maxImages l ∧ video_count n ≤ l_maxVideos l ∧
    audio_count n ≤ l_maxAudios l ∧
    (∀ k, l_maxMediaFiles l = Some k → k ≠ 0 →
       image_count n + video_count n + audio_count n ≤ k) ∧
    (∀ u, u ∈ image_values n → isReferenceImage u = true) ∧
    (∀ u, u ∈ url_values (videoUrls n) → isHTTPURL u = true ∧
       hasAllowedReferenceFormat u VIDEO_REFERENCE_VIDEO_EXTENSIONS
         VIDEO_REFERENCE_VIDEO_MIME_TYPES = true) ∧
    (∀ u, u ∈ url_values (audioUrls n) → isHTTPURL u = true).
Proof. intros Hc He. by destruct (accepted_facts model c refs Hc He). Qed.

Definition sample_url : UrlApi := λ u,
  match index_of (js "://") u with
  | Some i => Some (take i u ++ js ":", drop (i + 3) u)
  | None => None
  end.

Definition accepted_sample : CreationVideoReferences :=
  References Multimodal [RefString (js "https://a/x.png")] [] []
    [RefString (js "https://a/v.mp4")] [RefString (js "https://a/1.mp3")] (RefString []).

Lemma accepted_references_within_limits_witness :
  ∃ n, normalizeCreationVideoReferences (whole accepted_sample) (ModelName (js "video-2.0")) = Ok n ∧
       video_count n ≤ 3 ∧ video_count n = 1.
Proof.
  destruct (@accepted_references_within_limits _ sample_url (ModelName (js "video-2.0"))
    VIDEO2_720P_CAPABILITY accepted_sample) as (n & Hn & _ & Hv & _);
    [vm_compute; reflexivity|vm_compute; reflexivity|].
  exists n. split; [done|]. split; [exact Hv|].
  vm_compute in Hn. injection Hn as <-. reflexivity.
Defined.

(** The mention search is exact: for aliases without [@], it ends and
    finds a mention exactly when the lower-cased prompt contains [@] and an
    alias, followed by the end of the prompt or by a character that is
    neither a letter, a digit, [_] nor [-]. *)
Theorem prompt_mention_correct (lower : jsstr → jsstr) (prompt : jsstr) (aliases : list jsstr) :
  Forall (λ a, 64%N ∉ lower a) aliases →
  ∃ b, hasPromptMention lower prompt aliases = Ok b ∧
       (b = true ↔ ∃ a q, a ∈ aliases ∧ mention_at (js "@" ++ lower a) (lower prompt) q).
Proof.
  rewrite Forall_forall. intros Ha. unfold hasPromptMention.
  destruct (some_exc_spec (has_mention lower (lower prompt))
    (λ a, ∃ q, mention_at (js "@" ++ lower a) (lower prompt) q) aliases) as (b & H1 & H2).
  - intros a Hin. apply has_mention_spec. by apply Ha.
  - exists b. split; [done|]. rewrite H2. naive_solver.
Qed.

Lemma prompt_mention_correct_witness :
  hasPromptMention (map ascii_lower) (js "use @Image10 here") [js "image1"] = Ok false ∧
  ¬ ∃ a q, a ∈ [js "image1"] ∧
      mention_at (js "@" ++ map ascii_lower a) (map ascii_lower (js "use @Image10 here")) q.
Proof.
  destruct (prompt_mention_correct (map ascii_lower) (js "use @Image10 here") [js "image1"])
    as (b & H1 & H2).
  - repeat constructor. apply index_of_char. vm_compute. reflexivity.
  - assert (b = false) as Hb by (vm_compute in H1; congruence).
    rewrite Hb in *. split; [exact H1|]. intros Hx. apply H2 in Hx. discriminate.
Defined.

(** Selecting references by the mentions of a prompt ends and only
    selects: the images, videos and audios of the result are, in order, among
    the normalised ones. *)
Theorem mention_filter_selects `{CaseMap} (lower : jsstr → jsstr) (prompt : jsstr)
    (refs n : CreationVideoReferences) (model : CreationModelInput) :
  (∀ s, 64%N ∈ lower s → 64%N ∈ s) →
  normalizeCreationVideoReferences (whole refs) model = Ok n →
  ∃ r, filterCreationVideoReferencesByPromptMentions lower prompt refs model = Ok r ∧
       imageUrls r `sublist_of` imageUrls n ∧ videoUrls r `sublist_of` videoUrls n ∧
       audioUrls r `sublist_of` audioUrls n.
Proof.
  intros Hlow Hn. unfold filterCreationVideoReferencesByPromptMentions. rewrite Hn.
  cbn [mbind exc_bind].
  destruct (mentioned_sublist lower Hlow prompt MImage (imageUrls n)) as (li & -> & Hi).
  destruct (mentioned_sublist lower Hlow prompt MVideo (videoUrls n)) as (lv & -> & Hv).
  cbn [mbind exc_bind].
  destruct (hasPromptMention_returns lower Hlow prompt MAudio None) as [g ->]. cbn [mbind exc_bind].
  assert (∃ la, (if g then Ok (audioUrls n) else mentioned lower prompt MAudio (audioUrls n)) = Ok la
    ∧ la `sublist_of` audioUrls n) as (la & -> & Ha)
    by (destruct g; [by eexists|by apply mentioned_sublist]).
  cbn [mbind exc_bind].
  unfold normalizeCreationVideoReferences in *.
  destruct (getCreationVideoCapabilities model) as [cap| |]; [|done|done]. cbn [mbind exc_bind] in *.
  pose proof (normalized_audio_has_url _ _ _ _ Hn) as Hu.
  assert (Forall has_url la) as Hla.
  { by eapply Forall_sublist. }
  set (rest := References (referenceMode n) li [] [] lv la (from_opt (RefString []) (head la))).
  assert (∃ r, normalize_references cap (whole rest) model = Ok r ∧
    imageUrls r `sublist_of` imageUrls n ∧ videoUrls r `sublist_of` videoUrls n ∧
    audioUrls r `sublist_of` audioUrls n) as Hr.
  { destruct cap as [c| |]; [|done|]; simpl.
    - eexists. split; [done|].
      destruct (references_select (normalizeReferenceMode (Some (referenceMode n)) c model) c rest)
        as (H1 & H2 & H3); [done|done|].
      split; [by etransitivity|]. split; by etransitivity.
    - exists emptyCreationVideoReferences. split; [done|]. repeat split; apply sublist_nil_l. }
  destruct li; [|exact Hr]. destruct lv; [|exact Hr]. destruct la; [|exact Hr].
  exists n. done.
Qed.

Definition two_images : CreationVideoReferences :=
  References Image [RefString (js "https://a/x.png"); RefString (js "https://a/y.png")] [] []
    [] [] (RefString []).

Lemma mention_filter_selects_witness :
  ∃ r, filterCreationVideoReferencesByPromptMentions (map ascii_lower)
         (js "animate @image2, please") two_images (ModelName (js "video-2.0")) = Ok r ∧
       imageUrls r = [RefString (js "https://a/y.png")] ∧
       imageUrls r `sublist_of` imageUrls two_images.
Proof.
  destruct (mention_filter_selects (map ascii_lower) (js "animate @image2, please") two_images
    two_images (ModelName (js "video-2.0"))) as (r & Hr & Hi & _).
  - intros s Hs. apply list_elem_of_fmap in Hs as (c & Hc & Hin). unfold ascii_lower in Hc.
    destruct ((65 <=? c)%N && (c <=? 90)%N) eqn:E; bool_to_prop; [lia|by subst].
  - vm_compute. reflexivity.
  - exists r. split; [exact Hr|]. split; [|exact Hi]. vm_compute in Hr. by injection Hr as <-.
Defined.
