(* ===== verification/VideoRequest.v ===== *)
(** * The request of a video generation

    Model of [getCreationVideoRequestOptions] in
    src/web/default/src/features/media-generation/video-options.ts.  A
    request is a plain object, built in the order of the source; a property
    that the source sets conditionally is set by [set_if]. *)
From S2P Require Import Prelude JsString JsNumber JsValue XjzModels VideoCapabilities VideoOptions VideoReferences.

Open Scope Z_scope.

Definition SORA2_VIDEO_SIZES : list (jsstr * jsstr) :=
  [(js "9:16", js "720x1280"); (js "16:9", js "1280x720")].

Definition str_value (o : option jsstr) : value :=
  match o with Some s => VStr s | None => VUndef end.
Definition strs_value (l : list jsstr) : value := VArr (map VStr l).
Definition url_objects (l : list jsstr) : value :=
  VArr (map (λ u, VObj [(js "url", VStr u)]) l).

Definition set_if (b : bool) (k : jsstr) (v : value) (o : obj) : obj :=
  if b then obj_set k v o else o.

(** [if (l.length) request[k] = l]. *)
Definition set_list (k : jsstr) (l : list jsstr) (o : obj) : obj :=
  set_if (negb (bool_decide (l = []))) k (strs_value l) o.

(** [if (s) request[k] = s]. *)
Definition set_str (k : jsstr) (s : jsstr) (o : obj) : obj := set_if (truthy s) k (VStr s) o.

(** The single value under one key, several under another. *)
Definition set_one_or_many (one many : jsstr) (f : list jsstr → value) (l : list jsstr)
    (o : obj) : obj :=
  match l with
  | [] => o
  | [x] => obj_set one (VStr x) o
  | _ => obj_set many (f l) o
  end.

Section Request.
Context (c : CreationVideoCapability) (opts : CreationVideoOptions) (d : DurationOption)
  (refs : CreationVideoReferences).

(** [normalizedOptions.aspectRatio ?? capability.aspectRatios[0]]. *)
Definition request_ratio : value :=
  str_value (match aspectRatio opts with Some a => Some a | None => head (c_aspectRatios c) end).
Definition request_duration : value := VNum (str_to_num (duration opts)).
Definition request_estimate : value := VNum (d_estimateSeconds d).

Let images := url_values (imageUrls refs).
Let videos := url_values (videoUrls refs).
Let audios := url_values (audioUrls refs).

Definition frame_fields (o : obj) : obj :=
  set_str (js "end_image_url") (endImageUrl refs)
    (set_str (js "start_image_url") (startImageUrl refs) o).

Definition sora2_request : obj :=
  let aspectRatio :=
    match aspectRatio opts with
    | Some a => if str_eqb a (js "16:9") then js "16:9" else js "9:16"
    | None => js "9:16"
    end in
  set_str (js "input_reference") (getCreationReferenceURL (head (imageUrls refs)))
    (obj_of_list [
      (js "seconds", VStr (d_seconds d));
      (js "size", str_value (own SORA2_VIDEO_SIZES aspectRatio));
      (js "aspect_ratio", VStr aspectRatio);
      (js "estimateSeconds", request_estimate)]).

Definition sanbao_request : obj :=
  let concurrency := from_opt 1 (c_concurrencyOptions c ≫= head) in
  let audioUrl := from_opt [] (head audios) in
  let request := obj_of_list [
    (js "duration", request_duration);
    (js "ratio", request_ratio);
    (js "resolution", VStr (resolution opts));
    (js "concurrency", VNum (of_Z concurrency));
    (js "estimateSeconds", request_estimate)] in
  let request := set_list (js "images") images request in
  let request := set_list (js "videos") videos request in
  let request := set_if (truthy audioUrl) (js "audios") (strs_value [audioUrl]) request in
  set_if (negb (bool_decide (images = [])) || negb (bool_decide (videos = [])) || truthy audioUrl)
    (js "reference") (VStr (js "all")) request.

(** A field name that is given and not empty. *)
Definition field (f : option jsstr) : option jsstr :=
  match f with Some f => if truthy f then Some f else None | None => None end.

Definition spec_images (spec : XJZVideoModelSpec) (o : obj) : obj :=
  match field (imageField spec), images with
  | Some f, u :: us =>
      if allowFrames spec && str_eqb f (js "image_urls") then
        match us with
        | [] => obj_set (js "image_url") (VStr u) o
        | _ => obj_set (js "image_urls") (strs_value images) o
        end
      else obj_set f (if str_eqb f (js "image_url") then VStr u else strs_value images) o
  | _, _ => o
  end.

Definition spec_videos (spec : XJZVideoModelSpec) (o : obj) : obj :=
  match field (videoField spec), videos with
  | Some f, u :: _ => obj_set f (if str_eqb f (js "video_url") then VStr u else strs_value videos) o
  | _, _ => o
  end.

Definition spec_audios (spec : XJZVideoModelSpec) (o : obj) : obj :=
  match field (audioField spec), audios with
  | Some f, u :: us =>
      if allowFrames spec && str_eqb f (js "audio_reference") && bool_decide (us = [])
      then obj_set (js "audio_url") (VStr u) o
      else obj_set f (if str_eqb f (js "audio_url") then VStr u else strs_value audios) o
  | _, _ => o
  end.

Definition spec_request (spec : XJZVideoModelSpec) : obj :=
  let request := obj_of_list [
    (js "duration", request_duration);
    (from_opt (js "ratio") (ratioField spec), request_ratio);
    (from_opt (js "resolution") (resolutionField spec),
     VStr (if selectableResolution spec then resolution opts
           else from_opt (resolution opts) (requestResolution spec)));
    (js "estimateSeconds", request_estimate)] in
  let request := spec_audios spec (spec_videos spec (spec_images spec request)) in
  if bool_decide (referenceMode refs = Frames) then frame_fields request else request.

Definition videos_request (seedance25 : bool) (seedance2 : exc bool) : exc obj :=
  let request := obj_of_list [
    (js "duration", request_duration);
    (js "ratio", request_ratio);
    (js "estimateSeconds", request_estimate)] in
  let request :=
    set_if (c_includeResolutionInRequest c) (js "resolution")
      (VStr (if str_eqb (resolution opts) (js "480p") then js "480p" else js "720p")) request in
  let all := set_list (js "referenceAudios") audios
    (set_list (js "referenceVideos") videos (set_list (js "referenceImages") images request)) in
  if seedance25 then
    Ok (set_list (js "referenceAudios") audios (set_list (js "referenceImages") images request))
  else
    s2 ← seedance2;
    Ok (if (s2 : bool) then
          match referenceMode refs with
          | Image =>
              set_list (js "referenceImages") (tail images)
                (set_str (js "start_image_url") (from_opt [] (head images)) request)
          | Frames => frame_fields request
          | _ => all
          end
        else all).

Definition minimax_request : obj :=
  let request := obj_of_list [
    (js "duration", request_duration);
    (js "aspect_ratio", request_ratio);
    (js "estimateSeconds", request_estimate)] in
  if bool_decide (referenceMode refs = Frames) then frame_fields request
  else
    let request := set_one_or_many (js "image_url") (js "image_urls") strs_value images request in
    match audios with
    | u :: _ => set_if (bool_decide (referenceMode refs = ImageAudio)) (js "audio_url") (VStr u) request
    | [] => request
    end.

Definition video2_request : obj :=
  let request := obj_of_list [
    (js "duration", request_duration);
    (js "aspect_ratio", request_ratio);
    (js "resolution", VStr (if str_eqb (resolution opts) (js "480p") then js "480p" else js "720p"));
    (js "async", VBool true);
    (js "estimateSeconds", request_estimate)] in
  let request := set_one_or_many (js "image_url") (js "image_urls") strs_value images request in
  let request := set_one_or_many (js "video_url") (js "video_reference") url_objects videos request in
  set_one_or_many (js "audio_url") (js "audio_reference") url_objects audios (frame_fields request).
End Request.

(** The request without a capability. *)
Definition legacy_request (opts : CreationVideoOptions) (d : DurationOption) : exc obj :=
  r ← pick (λ o, str_eqb (r_value o) (resolution opts)) (resolution_options Missing);
  Ok (obj_of_list [
    (js "seconds", VStr (d_seconds d));
    (js "size", VStr (r_size r));
    (js "estimateSeconds", VNum (nceil (nmul (d_estimateSeconds d) (r_estimateMultiplier r))))]).

Definition getCreationVideoRequestOptions `{CaseMap} (options : CreationVideoOptions)
    (model : CreationModelInput) (references : CreationVideoReferences) : exc obj :=
  opts ← normalizeCreationVideoOptions options model;
  cap ← getCreationVideoCapabilities model;
  d ← pick (λ o, str_eqb (d_value o) (duration opts)) (duration_options cap);
  match cap with
  | Missing => legacy_request opts d
  | Inherited => Throw
  | Own c =>
      refs ← normalize_references cap (whole references) model;
      match c_kind c with
      | KSora2 => Ok (sora2_request opts d refs)
      | KSanbao => Ok (sanbao_request c opts d refs)
      | KXjz | KMapped =>
          match getVideoModelSpec model with
          | Some spec => Ok (spec_request c opts d refs spec)
          | None => Throw
          end
      | KVideos => videos_request c opts d refs (isSeedance25Model model) (isSeedance2Model model)
      | KMinimaxH3 => Ok (minimax_request c opts d refs)
      | KVideo2 => Ok (video2_request c opts d refs)
      end
  end.

(** ** What a request carries *)

(** [u] occurs in the property [k] of [o]; in one of the properties [ks]. *)
Definition sends_at (o : obj) (k u : jsstr) : Prop := u ∈ strings_of (prop k o).
Definition sends_in (ks : list jsstr) (o : obj) (u : jsstr) : Prop :=
  ∃ k, k ∈ ks ∧ sends_at o k u.
Definition sends (o : obj) (u : jsstr) : Prop := ∃ k, sends_at o k u.

Lemma sends_in_sends ks o u : sends_in ks o u → sends o u.
Proof. intros (k & _ & Hk). by exists k. Qed.

Lemma sends_at_set k v o u : u ∈ strings_of v → sends_at (obj_set k v o) k u.
Proof. unfold sends_at, prop. by rewrite obj_get_set. Qed.

Lemma sends_at_set_ne k k' v o u : k ≠ k' → sends_at o k u → sends_at (obj_set k' v o) k u.
Proof. unfold sends_at, prop. intros. by rewrite obj_get_set_ne. Qed.

Definition disjointb (ks1 ks2 : list jsstr) : bool :=
  forallb (λ k, negb (includes k ks2)) ks1.

(** A step of the construction that writes only the properties [ks]. *)
Definition writes (ks : list jsstr) (f : obj → obj) : Prop :=
  ∀ o k u, k ∉ ks → sends_at o k u → sends_at (f o) k u.

Lemma writes_keep ks f ks' o u :
  writes ks f → disjointb ks' ks = true → sends_in ks' o u → sends_in ks' (f o) u.
Proof.
  intros Hw Hd (k & Hk & Hs). exists k. split; [done|]. apply Hw; [|done].
  unfold disjointb in Hd. rewrite forallb_forall in Hd.
  apply list_elem_of_In, Hd in Hk. intros Hin. apply includes_elem in Hin. by rewrite Hin in Hk.
Qed.

Lemma writes_set k v : writes [k] (obj_set k v).
Proof. intros o k' u Hk Hs. apply sends_at_set_ne; [set_solver|done]. Qed.

Lemma writes_set_if b k v : writes [k] (set_if b k v).
Proof. destruct b; [apply writes_set|by intros o k' u]. Qed.

Lemma writes_one_or_many one many f l : writes [one; many] (set_one_or_many one many f l).
Proof.
  intros o k u Hk Hs. destruct l as [|x [|y l]]; [done|..]; simpl;
    (apply sends_at_set_ne; [set_solver|done]).
Qed.

Definition frame_keys : list jsstr := [js "start_image_url"; js "end_image_url"].

Lemma writes_frames refs : writes frame_keys (frame_fields refs).
Proof.
  intros o k u Hk Hs. unfold frame_fields, set_str, frame_keys in *.
  apply writes_set_if; [set_solver|]. apply writes_set_if; [set_solver|done].
Qed.

Lemma strs_value_strings l u : u ∈ strings_of (strs_value l) ↔ u ∈ l.
Proof.
  unfold strs_value. simpl. rewrite map_map. simpl.
  induction l as [|x l IH]; simpl; [done|]. rewrite !elem_of_cons. by rewrite IH.
Qed.

Lemma url_objects_strings l u : u ∈ strings_of (url_objects l) ↔ u ∈ l.
Proof.
  unfold url_objects. simpl. rewrite map_map. simpl.
  induction l as [|x l IH]; simpl; [done|]. rewrite !elem_of_cons. by rewrite IH.
Qed.

Lemma set_sends k v o u : u ∈ strings_of v → sends_in [k] (obj_set k v o) u.
Proof. intros Hu. exists k. split; [set_solver|]. by apply sends_at_set. Qed.

Lemma set_list_sends k l o u : u ∈ l → sends_in [k] (set_list k l o) u.
Proof.
  intros Hu. unfold set_list. rewrite bool_decide_false by (by intros ->; apply elem_of_nil in Hu).
  apply set_sends. by apply strs_value_strings.
Qed.

Lemma set_str_sends k s o : truthy s = true → sends_in [k] (set_str k s o) s.
Proof. intros Hs. unfold set_str. rewrite Hs. apply set_sends. simpl. set_solver. Qed.

Lemma one_or_many_sends one many f l o u :
  (∀ l' u', u' ∈ strings_of (f l') ↔ u' ∈ l') → u ∈ l →
  sends_in [one; many] (set_one_or_many one many f l o) u.
Proof.
  intros Hf Hu. destruct l as [|x [|y l]]; [by apply elem_of_nil in Hu|..]; simpl.
  - exists one. split; [set_solver|]. apply sends_at_set. simpl. set_solver.
  - exists many. split; [set_solver|]. apply sends_at_set. by apply Hf.
Qed.

Lemma frames_send refs o u :
  truthy u = true → u = startImageUrl refs ∨ u = endImageUrl refs →
  sends_in frame_keys (frame_fields refs o) u.
Proof.
  intros Ht [-> | ->]; unfold frame_fields.
  - assert (sends_in [js "start_image_url"]
      (set_str (js "start_image_url") (startImageUrl refs) o) (startImageUrl refs)) as Hs
      by by apply set_str_sends.
    apply (writes_keep [js "end_image_url"]
      (set_str (js "end_image_url") (endImageUrl refs))) in Hs as (k & Hk & Hs);
      [|apply writes_set_if|by vm_compute].
    exists k. split; [|done]. unfold frame_keys. set_solver.
  - destruct (set_str_sends (js "end_image_url") (endImageUrl refs)
      (set_str (js "start_image_url") (startImageUrl refs) o) Ht) as (k & Hk & Hs).
    exists k. split; [|done]. unfold frame_keys. set_solver.
Qed.

(** Pass a value through a later step that writes other properties. *)
Ltac keep :=
  lazymatch goal with
  | |- sends_in _ (?f ?o) _ =>
      eapply (writes_keep _ f);
      [first [apply writes_one_or_many | apply writes_set_if | apply writes_frames]
      |by vm_compute|]
  end.

(** A reference of the request: an image, a frame, a video or an audio. *)
Definition reference_of (refs : CreationVideoReferences) (u : jsstr) : Prop :=
  u ∈ image_values refs ∨ u ∈ url_values (videoUrls refs) ∨ u ∈ url_values (audioUrls refs).

Lemma image_values_cases refs u :
  u ∈ image_values refs →
  u ∈ url_values (imageUrls refs) ∨
  (truthy u = true ∧ (u = startImageUrl refs ∨ u = endImageUrl refs)).
Proof.
  unfold image_values, url_values. rewrite !filterb_elem, elem_of_app. set_solver.
Qed.

Lemma video2_sends c opts d refs u :
  reference_of refs u → sends (video2_request c opts d refs) u.
Proof.
  unfold reference_of, video2_request. cbv zeta.
  intros [[Hu|[Ht Hu]]%image_values_cases|[Hu|Hu]].
  - apply (sends_in_sends [js "image_url"; js "image_urls"]). do 3 keep.
    by apply one_or_many_sends; [apply strs_value_strings|].
  - apply (sends_in_sends frame_keys). keep. by apply frames_send.
  - apply (sends_in_sends [js "video_url"; js "video_reference"]). do 2 keep.
    by apply one_or_many_sends; [apply url_objects_strings|].
  - eapply sends_in_sends. by apply one_or_many_sends; [apply url_objects_strings|].
Qed.

(** Frames with the values of a request without frames. *)
Definition no_frames (refs : CreationVideoReferences) : Prop :=
  startImageUrl refs = [] ∧ endImageUrl refs = [].

Lemma no_frame_values refs u :
  no_frames refs → truthy u = true → ¬ (u = startImageUrl refs ∨ u = endImageUrl refs).
Proof. intros [-> ->] Ht [-> | ->]; done. Qed.

(** A start or end frame. *)
Definition frame_of (refs : CreationVideoReferences) (u : jsstr) : Prop :=
  truthy u = true ∧ (u = startImageUrl refs ∨ u = endImageUrl refs).

Lemma no_frame_of refs u : no_frames refs → ¬ frame_of refs u.
Proof. intros Hn [Ht Hu]. by apply (no_frame_values refs u Hn Ht). Qed.

Definition no_media (refs : CreationVideoReferences) : Prop :=
  imageUrls refs = [] ∧ videoUrls refs = [] ∧ audioUrls refs = [].

Lemma videos_sends c opts d refs s25 s2 u :
  (referenceMode refs = Frames → s2 = true ∧ no_media refs) →
  (referenceMode refs ≠ Frames → no_frames refs) →
  (referenceMode refs = Image → videoUrls refs = [] ∧ audioUrls refs = []) →
  reference_of refs u →
  ∃ o, videos_request c opts d refs s25 (Ok s2) = Ok o ∧
    (sends o u ∨ (s25 = true ∧ (frame_of refs u ∨ u ∈ url_values (videoUrls refs)))).
Proof.
  intros Hfr Hnf Him Hu. unfold videos_request. cbv zeta.
  set (o0 := set_if (c_includeResolutionInRequest c) _ _ _).
  destruct s25.
  { eexists. split; [done|]. destruct Hu as [[Hu|Hu]%image_values_cases|[Hu|Hu]].
    - left. apply (sends_in_sends [js "referenceImages"]). keep. by apply set_list_sends.
    - right. split; [done|by left].
    - right. split; [done|by right].
    - left. eapply sends_in_sends. by apply set_list_sends. }
  cbn [mbind exc_bind]. eexists. split; [done|]. left.
  assert (no_frames refs → sends (set_list (js "referenceAudios") (url_values (audioUrls refs))
    (set_list (js "referenceVideos") (url_values (videoUrls refs))
      (set_list (js "referenceImages") (url_values (imageUrls refs)) o0))) u) as Hall.
  { intros Hn. destruct Hu as [[Hu|[Ht Hu]]%image_values_cases|[Hu|Hu]].
    - apply (sends_in_sends [js "referenceImages"]). do 2 keep. by apply set_list_sends.
    - by apply no_frame_values in Hu.
    - apply (sends_in_sends [js "referenceVideos"]). keep. by apply set_list_sends.
    - eapply sends_in_sends. by apply set_list_sends. }
  destruct (decide (referenceMode refs = Frames)) as [Ef|Ef].
  { destruct (Hfr Ef) as [-> (Hi & Hv & Ha)]. rewrite Ef.
    destruct Hu as [[Hu|[Ht Hu]]%image_values_cases|[Hu|Hu]];
      [by rewrite Hi in Hu; apply elem_of_nil in Hu| |
       by rewrite Hv in Hu; apply elem_of_nil in Hu|by rewrite Ha in Hu; apply elem_of_nil in Hu].
    eapply sends_in_sends. by apply frames_send. }
  specialize (Hnf Ef). destruct s2; [|by apply Hall].
  destruct (referenceMode refs); try (by apply Hall); [|done].
  destruct (Him eq_refl) as [Hv Ha].
  destruct Hu as [[Hu|[Ht Hu]]%image_values_cases|[Hu|Hu]];
    [|by apply no_frame_values in Hu|by rewrite Hv in Hu; apply elem_of_nil in Hu|
     by rewrite Ha in Hu; apply elem_of_nil in Hu].
  assert (truthy u = true) as Ht by by apply filterb_elem in Hu as [_ ?].
  destruct (url_values (imageUrls refs)) as [|x l]; [by apply elem_of_nil in Hu|].
  cbn [tail head from_opt]. apply elem_of_cons in Hu as [->|Hu].
  - apply (sends_in_sends [js "start_image_url"]). keep. by apply set_str_sends.
  - eapply sends_in_sends. by apply set_list_sends.
Qed.

Lemma one_url l u : (length l ≤ 1)%nat → u ∈ url_values l → ∃ v, l = [v] ∧ u = url_of v ∧ truthy u = true.
Proof.
  intros Hl Hu. unfold url_values in Hu. apply filterb_elem in Hu as [Hu Ht].
  destruct l as [|v [|w l]]; simpl in *; [by apply elem_of_nil in Hu| |lia].
  apply list_elem_of_singleton in Hu as ->. eauto.
Qed.

Lemma sora2_sends opts d refs u :
  (length (imageUrls refs) ≤ 1)%nat → no_frames refs → videoUrls refs = [] → audioUrls refs = [] →
  reference_of refs u → sends (sora2_request opts d refs) u.
Proof.
  intros Hl Hn Hv Ha [[Hu|[Ht Hu]]%image_values_cases|[Hu|Hu]];
    [|by apply no_frame_values in Hu|by rewrite Hv in Hu; apply elem_of_nil in Hu|
     by rewrite Ha in Hu; apply elem_of_nil in Hu].
  destruct (one_url _ _ Hl Hu) as (v & Ev & -> & Ht). unfold sora2_request. cbv zeta.
  rewrite Ev. cbn [head getCreationReferenceURL]. eapply sends_in_sends. by apply set_str_sends.
Qed.

Lemma minimax_sends c opts d refs u :
  (referenceMode refs = Frames → no_media refs) →
  (referenceMode refs ≠ Frames → no_frames refs) →
  videoUrls refs = [] → (length (audioUrls refs) ≤ 1)%nat →
  (audioUrls refs ≠ [] → referenceMode refs = ImageAudio) →
  reference_of refs u → sends (minimax_request c opts d refs) u.
Proof.
  intros Hfr Hnf Hv Hl Ha Hu. unfold minimax_request. cbv zeta.
  destruct (bool_decide_reflect (referenceMode refs = Frames)) as [Ef|Ef].
  - destruct (Hfr Ef) as (Hi & _ & Hau).
    destruct Hu as [[Hu|[Ht Hu]]%image_values_cases|[Hu|Hu]];
      [by rewrite Hi in Hu; apply elem_of_nil in Hu| |
       by rewrite Hv in Hu; apply elem_of_nil in Hu|by rewrite Hau in Hu; apply elem_of_nil in Hu].
    eapply sends_in_sends. by apply frames_send.
  - destruct Hu as [[Hu|[Ht Hu]]%image_values_cases|[Hu|Hu]].
    + apply (sends_in_sends [js "image_url"; js "image_urls"]).
      destruct (url_values (audioUrls refs)); [|keep];
        by apply one_or_many_sends; [apply strs_value_strings|].
    + by apply no_frame_values in Hu; [|apply Hnf|].
    + by rewrite Hv in Hu; apply elem_of_nil in Hu.
    + destruct (one_url _ _ Hl Hu) as (v & Ev & Eu & Ht).
      assert (url_values (audioUrls refs) = [u]) as ->
        by (rewrite Ev; unfold url_values; simpl; rewrite <- Eu, Ht; done).
      rewrite (bool_decide_true (referenceMode refs = ImageAudio)) by (apply Ha; by rewrite Ev).
      eapply sends_in_sends. apply set_sends. simpl. set_solver.
Qed.

(** *** Models with a specification *)

Definition key_of (f : option jsstr) : jsstr := from_opt [] (field f).

(** What the fields of a specification must satisfy for every accepted
    reference to be sent: a field for each kind of reference that is
    admitted, several references only under an array field, and no property
    written twice. *)
Definition spec_ok (s : XJZVideoModelSpec) : bool :=
  let ki := [key_of (imageField s); js "image_url"; js "image_urls"] in
  let kv := [key_of (videoField s)] in
  let ka := [key_of (audioField s); js "audio_url"] in
  implb (0 <? maxImages s) (is_some (field (imageField s))) &&
  implb (0 <? maxVideos s) (is_some (field (videoField s))) &&
  implb (0 <? maxAudios s) (is_some (field (audioField s))) &&
  implb (str_eqb (key_of (imageField s)) (js "image_url")) (maxImages s <=? 1) &&
  implb (str_eqb (key_of (videoField s)) (js "video_url")) (maxVideos s <=? 1) &&
  implb (str_eqb (key_of (audioField s)) (js "audio_url")) (maxAudios s <=? 1) &&
  implb (0 <? maxVideos s) (disjointb ki kv) &&
  implb (0 <? maxAudios s) (disjointb ki ka && implb (0 <? maxVideos s) (disjointb kv ka)) &&
  disjointb ki frame_keys && disjointb kv frame_keys && disjointb ka frame_keys.

Section Spec.
Context (c : CreationVideoCapability) (opts : CreationVideoOptions) (d : DurationOption)
  (refs : CreationVideoReferences) (s : XJZVideoModelSpec).
Let ki := [key_of (imageField s); js "image_url"; js "image_urls"].
Let kv := [key_of (videoField s)].
Let ka := [key_of (audioField s); js "audio_url"].

Lemma writes_spec_videos : writes kv (spec_videos refs s).
Proof.
  intros o k u Hk Hs. unfold spec_videos. subst kv. unfold key_of in Hk.
  destruct (field (videoField s)); [|done]. destruct (url_values _); [done|].
  apply sends_at_set_ne; [set_solver|done].
Qed.

Lemma writes_spec_audios : writes ka (spec_audios refs s).
Proof.
  intros o k u Hk Hs. unfold spec_audios. subst ka. unfold key_of in Hk.
  destruct (field (audioField s)); [|done]. destruct (url_values _); [done|].
  destruct (_ && _); (apply sends_at_set_ne; [set_solver|done]).
Qed.

Lemma spec_no_videos o : videoUrls refs = [] → spec_videos refs s o = o.
Proof. intros E. unfold spec_videos. rewrite E. by destruct (field _). Qed.

Lemma spec_no_audios o : audioUrls refs = [] → spec_audios refs s o = o.
Proof. intros E. unfold spec_audios. rewrite E. by destruct (field _). Qed.

Lemma keep_videos ks o u :
  videoUrls refs = [] ∨ disjointb ks kv = true →
  sends_in ks o u → sends_in ks (spec_videos refs s o) u.
Proof.
  intros [E|Hd] Hs; [by rewrite spec_no_videos|]. by eapply writes_keep; [apply writes_spec_videos|..].
Qed.

Lemma keep_audios ks o u :
  audioUrls refs = [] ∨ disjointb ks ka = true →
  sends_in ks o u → sends_in ks (spec_audios refs s o) u.
Proof.
  intros [E|Hd] Hs; [by rewrite spec_no_audios|]. by eapply writes_keep; [apply writes_spec_audios|..].
Qed.

Lemma spec_images_send o u :
  is_some (field (imageField s)) = true →
  (key_of (imageField s) = js "image_url" → (length (imageUrls refs) ≤ 1)%nat) →
  u ∈ url_values (imageUrls refs) → sends_in ki (spec_images refs s o) u.
Proof.
  unfold spec_images. subst ki. unfold key_of. intros Hf Hone Hu.
  destruct (field (imageField s)) as [f|]; [|done]. cbn [from_opt] in *.
  destruct (url_values (imageUrls refs)) as [|x l] eqn:El; [by apply elem_of_nil in Hu|].
  destruct (allowFrames s && str_eqb f (js "image_urls")).
  - destruct l as [|y l].
    + exists (js "image_url"). split; [set_solver|]. apply sends_at_set. simpl. set_solver.
    + exists (js "image_urls"). split; [set_solver|]. apply sends_at_set. by apply strs_value_strings.
  - exists f. split; [set_solver|]. apply sends_at_set.
    destruct (str_eqb f (js "image_url")) eqn:E; [|by apply strs_value_strings].
    apply bool_decide_eq_true in E. rewrite <- El in Hu.
    destruct (one_url _ _ (Hone E) Hu) as (v & Ev & Eu & Ht).
    rewrite Ev in El. unfold url_values in El. simpl in El. rewrite <- Eu, Ht in El.
    injection El as <- <-. simpl. set_solver.
Qed.

Lemma spec_videos_send o u :
  is_some (field (videoField s)) = true →
  (key_of (videoField s) = js "video_url" → (length (videoUrls refs) ≤ 1)%nat) →
  u ∈ url_values (videoUrls refs) → sends_in kv (spec_videos refs s o) u.
Proof.
  unfold spec_videos. subst kv. unfold key_of. intros Hf Hone Hu.
  destruct (field (videoField s)) as [f|]; [|done]. cbn [from_opt] in *.
  destruct (url_values (videoUrls refs)) as [|x l] eqn:El; [by apply elem_of_nil in Hu|].
  apply set_sends. destruct (str_eqb f (js "video_url")) eqn:E; [|by apply strs_value_strings].
  apply bool_decide_eq_true in E. rewrite <- El in Hu.
  destruct (one_url _ _ (Hone E) Hu) as (v & Ev & Eu & Ht).
  rewrite Ev in El. unfold url_values in El. simpl in El. rewrite <- Eu, Ht in El.
  injection El as <- <-. simpl. set_solver.
Qed.

Lemma spec_audios_send o u :
  is_some (field (audioField s)) = true →
  (key_of (audioField s) = js "audio_url" → (length (audioUrls refs) ≤ 1)%nat) →
  u ∈ url_values (audioUrls refs) → sends_in ka (spec_audios refs s o) u.
Proof.
  unfold spec_audios. subst ka. unfold key_of. intros Hf Hone Hu.
  destruct (field (audioField s)) as [f|]; [|done]. cbn [from_opt] in *.
  destruct (url_values (audioUrls refs)) as [|x l] eqn:El; [by apply elem_of_nil in Hu|].
  destruct (allowFrames s && str_eqb f (js "audio_reference") && bool_decide (l = [])) eqn:Ea.
  - bool_to_prop. subst l. exists (js "audio_url"). split; [set_solver|].
    apply sends_at_set. simpl. set_solver.
  - exists f. split; [set_solver|]. apply sends_at_set.
    destruct (str_eqb f (js "audio_url")) eqn:E; [|by apply strs_value_strings].
    apply bool_decide_eq_true in E. rewrite <- El in Hu.
    destruct (one_url _ _ (Hone E) Hu) as (v & Ev & Eu & Ht).
    rewrite Ev in El. unfold url_values in El. simpl in El. rewrite <- Eu, Ht in El.
    injection El as <- <-. simpl. set_solver.
Qed.
End Spec.

Lemma nil_or_pos {A} (l : list A) n : Z.of_nat (length l) ≤ n → l = [] ∨ 0 < n.
Proof. destruct l; simpl; [by left|]. intros. right. lia. Qed.

Lemma spec_sends c opts d refs s u :
  spec_ok s = true →
  image_count refs ≤ maxImages s → video_count refs ≤ maxVideos s →
  audio_count refs ≤ maxAudios s →
  reference_of refs u → sends (spec_request c opts d refs s) u ∨ (referenceMode refs ≠ Frames ∧ frame_of refs u).
Proof.
  unfold spec_ok, image_count, video_count, audio_count. intros Hok Hi Hv Ha Hu.
  rewrite !andb_true_iff, !implb_true_iff in Hok.
  assert (∀ a b, str_eqb a b = true ↔ a = b) as Hse by (intros; apply bool_decide_eq_true).
  rewrite !Hse in Hok. rewrite !andb_true_iff, !implb_true_iff in Hok.
  destruct Hok as [[[[[[[[[[Fi Fv] Fa] Oi] Ov] Oa] Div] Da] Dif] Dvf] Daf].
  set (final := λ o : obj, if bool_decide (referenceMode refs = Frames) then frame_fields refs o else o).
  assert (writes frame_keys final) as Hfinal.
  { subst final. destruct (bool_decide _); [apply writes_frames|by intros o k x]. }
  unfold spec_request. cbv zeta. set (o0 := obj_of_list _).
  change (sends (final (spec_audios refs s (spec_videos refs s (spec_images refs s o0)))) u
    ∨ (referenceMode refs ≠ Frames ∧ frame_of refs u)).
  assert (Z.of_nat (length (imageUrls refs)) ≤ maxImages s) as Hi'
    by (destruct (truthy (startImageUrl refs)), (truthy (endImageUrl refs)); lia).
  assert (∀ (l : list CreationVideoReferenceValue) n x,
    Z.of_nat (length l) ≤ n → x ∈ url_values l → (0 <? n) = true) as Hpos.
  { intros l n x Hl Hx. apply Z.ltb_lt. destruct l; [by apply elem_of_nil in Hx|]. simpl in Hl. lia. }
  assert (∀ (l : list CreationVideoReferenceValue) n, Z.of_nat (length l) ≤ n →
    l = [] ∨ (0 <? n) = true) as Hnil.
  { intros l n Hl. destruct (nil_or_pos l n Hl); [by left|right]. by apply Z.ltb_lt. }
  destruct Hu as [[Hu|[Ht Hu]]%image_values_cases|[Hu|Hu]].
  - left. eapply sends_in_sends, (writes_keep frame_keys final); [exact Hfinal|exact Dif|].
    apply keep_audios; [destruct (Hnil _ _ Ha) as [|P]; [by left|right; apply Da, P]|].
    apply keep_videos; [destruct (Hnil _ _ Hv) as [|P]; [by left|right; apply Div, P]|].
    apply spec_images_send; [eauto| |done]. intros E. apply Oi in E. bool_to_prop. lia.
  - destruct (decide (referenceMode refs = Frames)) as [Ef|Ef]; [left|by right].
    eapply (sends_in_sends frame_keys). subst final. cbv beta. rewrite bool_decide_eq_true_2 by done. by apply frames_send.
  - left. eapply sends_in_sends, (writes_keep frame_keys final); [exact Hfinal|exact Dvf|].
    apply keep_audios; [destruct (Hnil _ _ Ha) as [|P]; [by left|right]; apply Da in P as [_ P];
      apply P; eauto|].
    apply spec_videos_send; [eauto| |done]. intros E. apply Ov in E. bool_to_prop. lia.
  - left. eapply sends_in_sends, (writes_keep frame_keys final); [exact Hfinal|exact Daf|].
    apply spec_audios_send; [eauto| |done]. intros E. apply Oa in E. bool_to_prop. lia.
Qed.

(** ** The request of a catalogue model *)

(** The lists and frames that a mode leaves. *)
Lemma references_shape mode c p (r := references_in_mode mode c p) :
  referenceMode r = mode ∧
  (mode = Frames → no_media r) ∧
  (mode = Image → no_frames r ∧ videoUrls r = [] ∧ audioUrls r = []) ∧
  (mode ≠ Frames → mode ≠ Multimodal ∨ c_kind c = KVideos ∨ c_kind c = KMinimaxH3 → no_frames r) ∧
  (c_kind c = KMinimaxH3 → videoUrls r = []) ∧
  (audioUrls r ≠ [] → mode = Multimodal ∨ mode = ImageAudio).
Proof.
  subst r. unfold references_in_mode, no_media, no_frames.
  assert (mode_audios mode c p ≠ [] → mode = Multimodal ∨ mode = ImageAudio) as Hau.
  { unfold mode_audios, supports_multi_media, supports_image_audio.
    case_bool_decide; [by left|]. case_bool_decide; [by right|]. done. }
  assert (∀ k, slice_to k (mode_audios mode c p) ≠ [] → mode = Multimodal ∨ mode = ImageAudio) as Hsl.
  { intros k Hk. apply Hau. intros E. rewrite E, slice_nil in Hk. done. }
  case_bool_decide as E1; [naive_solver|]. case_bool_decide as E2; [naive_solver|].
  destruct (c_kind c); cbn [referenceMode imageUrls startImageUrl endImageUrl videoUrls audioUrls];
    repeat split; try done; try (by apply Hsl); naive_solver (by rewrite bool_decide_false).
Qed.

Lemma mode_among `{CaseMap} v c model :
  c_referenceModes c ≠ [] → normalizeReferenceMode v c model ∈ c_referenceModes c.
Proof.
  intros Hne. assert (from_opt Text (head (c_referenceModes c)) ∈ c_referenceModes c) as Hd
    by (destruct (c_referenceModes c); [done|set_solver]).
  unfold normalizeReferenceMode. destruct v as [v|]; [|done].
  destruct (includes v _) eqn:E; [by apply includes_elem|].
  destruct (_ && _) eqn:F; [|done]. bool_to_prop. by apply includes_elem.
Qed.

(** What the static table guarantees, kind by kind. *)
Definition static_ok (k : jsstr) (c : CreationVideoCapability) : bool :=
  negb (bool_decide (c_referenceModes c = [])) &&
  match c_kind c with
  | KSora2 => bool_decide (c_referenceModes c = [Image]) && (l_maxImages (c_referenceLimits c) =? 1)
  | KMinimaxH3 =>
      negb (includes Multimodal (c_referenceModes c)) && (l_maxAudios (c_referenceLimits c) =? 1)
  | KVideos =>
      implb (includes Frames (c_referenceModes c))
        (match is_seedance2_candidate (Cand k) with Ok b => b | _ => false end)
  | KVideo2 => true
  | _ => false
  end.

Lemma static_table_ok k c : (k, c) ∈ VIDEO_CAPABILITIES → static_ok k c = true.
Proof.
  assert (forallb (λ kc : jsstr * CreationVideoCapability, static_ok kc.1 kc.2) VIDEO_CAPABILITIES
    = true) as Hs by (vm_compute; reflexivity).
  rewrite forallb_forall in Hs. intros Hin. apply list_elem_of_In in Hin. exact (Hs _ Hin).
Qed.

Lemma xjz_table_ok k s : (k, s) ∈ XJZ_VIDEO_MODELS → spec_ok s = true.
Proof.
  assert (forallb (λ ks : jsstr * XJZVideoModelSpec, spec_ok ks.2) XJZ_VIDEO_MODELS = true) as Hs
    by (vm_compute; reflexivity).
  rewrite forallb_forall in Hs. intros Hin. apply list_elem_of_In in Hin. exact (Hs _ Hin).
Qed.

Section Named.
Context `{CaseMap} `{UrlApi}.

Lemma static_capability_source cs c :
  static_capability cs = Own c → ∃ k, Cand k ∈ cs ∧ (k, c) ∈ VIDEO_CAPABILITIES.
Proof.
  induction cs as [|x cs IH]; simpl; [done|]. destruct (capability_of x) eqn:E; [|done|].
  - intros [= ->]. destruct x as [s|]; [|done]. simpl in E. unfold table_get in E.
    destruct (find_first _ VIDEO_CAPABILITIES) as [[k c']|] eqn:F; [|by case_split_in E].
    apply find_first_Some in F as [F1 F2]. cbn [fst snd] in *. injection E as ->.
    apply bool_decide_eq_true in F2 as ->. exists s. split; [by apply elem_of_cons; left|done].
  - intros Hc. destruct (IH Hc) as (k & Hk & Ht). exists k. split; [by apply elem_of_cons; right|done].
Qed.

Lemma some_exc_true {A} (f : A → exc bool) l b x :
  some_exc f l = Ok b → x ∈ l → f x = Ok true → b = true.
Proof.
  induction l as [|y l IH]; simpl; intros E Hx Hf; [by apply elem_of_nil in Hx|].
  apply elem_of_cons in Hx as [->|Hx].
  - rewrite Hf in E. cbn [mbind exc_bind] in E. congruence.
  - destruct (f y) as [[]| |]; cbn [mbind exc_bind] in E; [congruence|by apply IH|done|done].
Qed.

Lemma spec_named s : getVideoModelSpec (ModelName s) = getXJZVideoModelSpec s.
Proof. unfold getVideoModelSpec, endpoint_parameters, getModelId. reflexivity. Qed.

(** The capability of a named model: a specification, or an entry of the
    table whose candidates agree with the Seedance test. *)
Lemma named_source s c s2 :
  getCreationVideoCapabilities (ModelName s) = Ok (Own c) → isSeedance2Model (ModelName s) = Ok s2 →
  (∃ spec, getVideoModelSpec (ModelName s) = Some spec ∧ spec_ok spec = true ∧
           c = spec_capability true None spec) ∨
  (∃ k, (k, c) ∈ VIDEO_CAPABILITIES ∧ (is_seedance2_candidate (Cand k) = Ok true → s2 = true)).
Proof.
  unfold getCreationVideoCapabilities, sanbao_first. cbn [getModelMetadata mbind option_bind].
  rewrite sanbao_named, xjz_named. intros Hc Hs2.
  rewrite spec_named.
  destruct (getXJZVideoModelSpec s) as [spec|] eqn:Es; cbn [option_map] in Hc.
  - left. exists spec. injection Hc as <-. split; [done|].
    apply getXJZVideoModelSpec_elem in Es as [k Hk]. split; [by eapply xjz_table_ok|done].
  - right. destruct (static_capability _) eqn:E; [injection Hc as ->|done|].
    + apply static_capability_source in E as (k & Hk & Hin). exists k. split; [done|].
      intros Hx. by eapply some_exc_true.
    + rewrite Hs2 in Hc. cbn [mbind exc_bind] in Hc. destruct s2; [|done].
      injection Hc as <-. destruct seedance2_elem as [k Hk]. by exists k.
Qed.

Lemma count_length {A} (l : list A) n : Z.of_nat (length l) ≤ n → (length l ≤ Z.to_nat n)%nat.
Proof. lia. Qed.

(** What a request has no place for: the frames of a specification model in
    multimodal mode, and the videos and frames of a model that is taken for
    Seedance 2.5 although another capability was found. *)
Definition left_out (c : CreationVideoCapability) (seedance25 : bool) (n : CreationVideoReferences) (u : jsstr) : Prop :=
  (is_spec_kind (c_kind c) = true ∧ referenceMode n = Multimodal ∧ frame_of n u) ∨
  (seedance25 = true ∧ c ≠ SEEDANCE_25_API_CAPABILITY ∧ c_kind c = KVideos ∧
    (frame_of n u ∨ u ∈ url_values (videoUrls n))).

(** The request of a static entry. *)
Lemma static_request k c opts d p mode model s2 (n := references_in_mode mode c p) :
  (k, c) ∈ VIDEO_CAPABILITIES → (is_seedance2_candidate (Cand k) = Ok true → s2 = true) →
  isSeedance2Model model = Ok s2 → mode ∈ c_referenceModes c →
  image_count n ≤ l_maxImages (c_referenceLimits c) →
  video_count n ≤ l_maxVideos (c_referenceLimits c) →
  audio_count n ≤ l_maxAudios (c_referenceLimits c) →
  ∃ o, match c_kind c with
       | KSora2 => Ok (sora2_request opts d n)
       | KVideo2 => Ok (video2_request c opts d n)
       | KVideos => videos_request c opts d n (isSeedance25Model model) (isSeedance2Model model)
       | KMinimaxH3 => Ok (minimax_request c opts d n)
       | _ => Throw
       end = Ok o ∧ ∀ u, reference_of n u → sends o u ∨ left_out c (isSeedance25Model model) n u.
Proof.
  intros Hin Hk Hs2 Hm Hi Hv Ha. pose proof (static_table_ok k c Hin) as Hok.
  destruct (references_shape mode c p) as (Sm & Sf & Si & Sn & Sv & Sa). fold n in Sm, Sf, Si, Sn, Sv, Sa.
  unfold static_ok in Hok. apply andb_true_iff in Hok as [_ Hok].
  unfold image_count, video_count, audio_count in *.
  destruct (c_kind c) eqn:K; try done.
  - apply andb_true_iff in Hok as [Hmod Hmax]. bool_to_prop. rewrite Hmod in Hm. apply list_elem_of_singleton in Hm.
    destruct (Si Hm) as (Hnf & ? & ?). eexists. split; [done|]. intros u Hu. left. revert Hu.
    apply sora2_sends; try done.
    destruct (truthy (startImageUrl n)), (truthy (endImageUrl n)); lia.
  - eexists. split; [done|]. intros u Hu. left. by apply video2_sends.
  - rewrite Hs2. rewrite implb_true_iff, includes_elem in Hok.
    assert (c = SEEDANCE_25_API_CAPABILITY → videoUrls n = [] ∧ no_frames n) as H25.
    { intros ->. simpl in Hv. split.
      - destruct (videoUrls n); [done|]. simpl in Hv. lia.
      - apply Sn; [|by right; left]. intros ->. apply includes_elem in Hm.
        by vm_compute in Hm. }
    assert (referenceMode n = Frames → s2 = true ∧ no_media n) as Hfr.
    { rewrite Sm. intros ->. split; [|by apply Sf]. apply Hk. specialize (Hok Hm).
      destruct (is_seedance2_candidate (Cand k)); congruence. }
    assert (∀ u, reference_of n u → ∃ o, videos_request c opts d n (isSeedance25Model model) (Ok s2)
      = Ok o ∧ (sends o u ∨ left_out c (isSeedance25Model model) n u)) as Hu.
    { intros u Hu. destruct (videos_sends c opts d n (isSeedance25Model model) s2 u Hfr) as (o & Eo & [Ho|[E25 Ho]]); [| |done| |].
      - rewrite Sm. intros; apply Sn; [done|by right; left].
      - rewrite Sm. intros E; by destruct (Si E) as (_ & ? & ?).
      - exists o. split; [done|by left].
      - exists o. split; [done|]. right. right. split_and!; [done| |done|done]. intros Ec. destruct (H25 Ec) as [Hnv Hnf].
        destruct Ho as [Ho|Ho]; [by apply (no_frame_of n u Hnf)|]. rewrite Hnv in Ho. by apply elem_of_nil in Ho. }
    unfold videos_request in *. destruct (isSeedance25Model model); cbn [mbind exc_bind] in *;
      (eexists; split; [done|]); intros u Hr; destruct (Hu u Hr) as (o & [= <-] & Ho); exact Ho.
  - apply andb_true_iff in Hok as [Hmm Hmax]. bool_to_prop.
    eexists. split; [done|]. intros u Hu. left. revert Hu. apply minimax_sends; rewrite ?Sm.
    + exact Sf.
    + intros; apply Sn; [done|by right; right].
    + by apply Sv.
    + lia.
    + intros Hne. destruct (Sa Hne) as [->|]; [|done]. exfalso.
      assert (includes Multimodal (c_referenceModes c) = true) by by apply includes_elem. congruence.
Qed.
End Named.

#[local] Opaque getXJZVideoModelSpec getCreationVideoCapabilities isSeedance2Model isSeedance25Model.

(** ** Property *)

(** C3.  Nothing that was accepted is dropped, but for two cases: for a model
    name that has a capability, when the validation reports no error, the request is
    built and every normalised image, frame, video and audio reference occurs in
    one of its properties.  The exceptions are the start and end frames of a
    specification model in multimodal mode, which are accepted but have no field
    in its request, and the videos and frames of a model with the name of
    Seedance 2.5 for which a capability of another model of that kind was
    found. *)
Theorem accepted_references_sent `{CaseMap} `{UrlApi} (name : jsstr) (c : CreationVideoCapability)
    (options : CreationVideoOptions) (refs n : CreationVideoReferences) :
  getCreationVideoCapabilities (ModelName name) = Ok (Own c) →
  getCreationVideoReferenceError (ModelName name) refs = Ok None →
  normalizeCreationVideoReferences (whole refs) (ModelName name) = Ok n →
  ∃ o, getCreationVideoRequestOptions options (ModelName name) refs = Ok o ∧
       ∀ u, reference_of n u → sends o u ∨ left_out c (isSeedance25Model (ModelName name)) n u.
Proof.
  intros Hcap Herr Hn.
  destruct (accepted_facts _ _ _ Hcap Herr) as ([s2 Hs2] & n' & Hn' & Hi & Hv & Ha & _).
  assert (n' = n) as -> by congruence. clear Hn'.
  destruct (named_selection name options) as (opts & Hopts & _); [by rewrite Hcap|].
  unfold getCreationVideoRequestOptions. rewrite Hopts, Hcap. cbn [mbind exc_bind].
  unfold normalizeCreationVideoReferences in Hn. rewrite Hcap in Hn. cbn [mbind exc_bind] in Hn.
  unfold normalizeCreationVideoOptions in Hopts. rewrite Hcap in Hopts. cbn [mbind exc_bind] in Hopts.
  apply normalize_offered in Hopts as (_ & Hd & _). apply list_elem_of_fmap in Hd as (d0 & Hd0 & Hin0).
  destruct (pick_again d_value _ d0 Hin0) as (d & Ed & _). rewrite Hd0, Ed. cbn [mbind exc_bind].
  unfold normalize_references in *. cbn [mbind exc_bind].
  set (mode := normalizeReferenceMode _ c _) in *.
  apply (f_equal (λ e, match e with Ok x => x | _ => n end)) in Hn. cbv beta iota in Hn. rewrite Hn.
  destruct (named_source _ _ _ Hcap Hs2) as [(spec & Esp & Hok & Ec)|(k & Hk & Hsd)].
  - destruct (references_shape mode c (whole refs)) as (Sm & _ & _ & Sn & _). rewrite Hn in Sm, Sn.
    assert (is_spec_kind (c_kind c) = true) as Hkind by by subst c.
    rewrite Esp. exists (spec_request c opts d n spec). split; [destruct (c_kind c); solve [reflexivity | discriminate Hkind]|].
    intros u Hu. destruct (spec_sends c opts d n spec u) as [Hs|[Hnf Hfr]]; [done|by subst c..|done|by left|].
    right. left. split_and!; [done| |done]. destruct (decide (mode = Multimodal)) as [Em|Em]; [congruence|].
    rewrite Sm in Hnf. exfalso. by apply (no_frame_of n u); [apply Sn; [|left]|].
  - assert (c_referenceModes c ≠ []) as Hne.
    { apply static_table_ok in Hk. unfold static_ok in Hk. by bool_to_prop. }
    pose proof (mode_among (o_referenceMode (whole refs)) c (ModelName name) Hne) as Hm.
    fold mode in Hm. rewrite <- Hn in *.
    destruct (static_request k c opts d (whole refs) mode (ModelName name) s2) as (o & Eo & Ho);
      try done.
    exists o. split; [|exact Ho]. destruct (c_kind c); solve [exact Eo | discriminate Eo].
Qed.

Lemma accepted_references_sent_witness :
  ∃ o, @getCreationVideoRequestOptions _ (Options (js "720p") (js "6") None)
         (ModelName (js "video-2.0")) accepted_sample = Ok o ∧
       sends o (js "https://a/v.mp4") ∧ prop (js "video_url") o = VStr (js "https://a/v.mp4").
Proof.
  destruct (@accepted_references_sent _ sample_url (js "video-2.0") VIDEO2_720P_CAPABILITY
    (Options (js "720p") (js "6") None) accepted_sample
    (References Multimodal (imageUrls accepted_sample) [] [] (videoUrls accepted_sample)
       (audioUrls accepted_sample) (RefString (js "https://a/1.mp3")))) as (o & Ho & Hs).
  - vm_compute. reflexivity.
  - vm_compute. reflexivity.
  - vm_compute. reflexivity.
  - exists o. split; [exact Ho|]. split.
    + destruct (Hs (js "https://a/v.mp4")) as [Hu|[[Hk _]|[Hk _]]]; [|exact Hu|discriminate Hk|vm_compute in Hk; discriminate Hk].
      right. left. apply includes_elem. vm_compute. reflexivity.
    + vm_compute in Ho. injection Ho as <-. vm_compute. reflexivity.
Defined.

(** A start frame that the validation of a specification model in multimodal
    mode accepts, and that its request does not have. *)
Definition framed_sample : CreationVideoReferences :=
  References Multimodal [RefString (js "https://a/1.png")] (js "https://a/start.png") [] [] [] (RefString []).

Example multimodal_frame_dropped :
  let model := ModelName (js "Xminimex-h3-2K-933") in
  @getCreationVideoReferenceError _ sample_url model framed_sample = Ok None ∧
  match @getCreationVideoRequestOptions _ (Options (js "2k") (js "6") None) model framed_sample with
  | Ok o => forallb (λ kv, negb (includes (js "https://a/start.png") (strings_of kv.2))) o
  | _ => false
  end = true.
Proof. split; vm_compute; reflexivity. Qed.
