(* ===== verification/ImageOptions.v ===== *)
(** * Image options and requests

    Model of src/web/default/src/features/media-generation/image-options.ts
    and image-transport.ts: what an image model accepts, the normalisation of
    a selection, the check of its references and the request that is built.

    As in [VideoCapabilities], the table of capabilities is a plain object, so
    a model named [constructor] finds an inherited member ([Inherited]): its
    fields are [undefined], and a method call on such a field throws.
    [new URL] is the parameter [UrlApi], [fetch] an argument. *)
From S2P Require Import Prelude JsString JsNumber JsValue XjzModels VideoCapabilities VideoOptions VideoReferences.

Open Scope Z_scope.

(** ** Data *)

(** [outputResolution] is [undefined] when no resolution is chosen and the
    empty text is among the resolutions. *)
Record CreationImageOptions := ImageOptions_ {
  image_aspectRatio : jsstr;
  outputResolution : option jsstr;
}.

(** [Partial<CreationImageOptions>]. *)
Record PartialImageOptions := PartialImage {
  o_aspectRatio : option jsstr;
  o_outputResolution : option jsstr;
}.

(** [maxImages] is [undefined] for an inherited capability. *)
Record CreationImageReferenceLimits := ImageReferenceLimits {
  i_maxImages : option Z;
  i_maxImageSizeBytes : Z;
  i_maxImageSizeMB : Z;
}.

Definition CREATION_IMAGE_REFERENCE_MAX_COUNT : Z := 6.
Definition CREATION_IMAGE_REFERENCE_MAX_BYTES : Z := 20 * 1024 * 1024.
Definition CREATION_IMAGE_ASPECT_RATIO_OPTIONS : list jsstr :=
  strs ["1:1"; "16:9"; "9:16"; "4:3"; "3:4"; "3:2"; "2:3"].
Definition DEFAULT_CREATION_IMAGE_OPTIONS : CreationImageOptions := ImageOptions_ (js "1:1") (Some (js "1K")).

Record AsyncImageCapability := AsyncImage {
  ai_aspectRatios : list jsstr;
  ai_resolutions : list jsstr;
  ai_defaultResolution : jsstr;
  ai_maxImages : Z;
}.

Definition GPT_IMAGE_ASPECT_RATIOS : list jsstr :=
  strs ["3:1"; "21:9"; "2:1"; "16:9"; "3:2"; "4:3"; "5:4"; "1:1"; "4:5"; "3:4"; "2:3"; "9:16";
        "1:2"; "1:3"].
Definition NANO_BANANA_ASPECT_RATIOS : list jsstr :=
  strs ["21:9"; "16:9"; "3:2"; "4:3"; "5:4"; "1:1"; "4:5"; "3:4"; "2:3"; "9:16"].

Definition ASYNC_IMAGE_CAPABILITIES : list (jsstr * AsyncImageCapability) :=
  [(js "gpt-image-2", AsyncImage GPT_IMAGE_ASPECT_RATIOS (strs ["1K"; "2K"; "4K"]) (js "2K") 17);
   (js "gpt-image-2.5", AsyncImage GPT_IMAGE_ASPECT_RATIOS (strs ["1K"; "2K"; "4K"]) (js "2K") 17);
   (js "nano-banana-pro",
    AsyncImage NANO_BANANA_ASPECT_RATIOS (strs ["1K"; "2K"; "4K"]) (js "1K") 10);
   (js "nano-banana2", AsyncImage NANO_BANANA_ASPECT_RATIOS (strs ["1K"; "2K"; "4K"]) (js "1K") 14);
   (js "seedream-5-0",
    AsyncImage (strs ["16:9"; "4:3"; "1:1"; "3:4"; "9:16"]) (strs ["2K"; "3K"]) (js "2K") 14)].

Definition IMAGE_REFERENCE_EXTENSIONS : list jsstr := strs ["jpeg"; "jpg"; "png"; "webp"].
Definition IMAGE_REFERENCE_MIME_TYPES : list jsstr := strs ["image/jpeg"; "image/png"; "image/webp"].
Definition LEGACY_IMAGE_REFERENCE_EXTENSIONS : list jsstr :=
  strs ["avif"; "gif"] ++ IMAGE_REFERENCE_EXTENSIONS.
Definition LEGACY_IMAGE_REFERENCE_MIME_TYPES : list jsstr :=
  strs ["image/avif"; "image/gif"] ++ IMAGE_REFERENCE_MIME_TYPES.

(** ** From a model to its capability *)

Section Models.
Context `{CaseMap}.

Definition getAsyncImageCapability (model : CreationModelInput) : looked AsyncImageCapability :=
  match getModelMetadata model ≫= provider with
  | Some p =>
      if str_eqb (to_lower (trim p)) (js "linksky")
      then table_get ASYNC_IMAGE_CAPABILITIES (normalizeModelId model) else Missing
  | None => Missing
  end.

(** [Boolean] of a looked up object. *)
Definition found {A} (c : looked A) : bool := match c with Missing => false | _ => true end.

(** [model.mapped_endpoints?.find((endpoint) => endpoint.kind === 'image')]. *)
Definition image_endpoint (model : CreationModelInput) : option MappedEndpoint :=
  match model with
  | ModelObject m =>
      mapped_endpoints m ≫= find_first (λ e, str_eqb (endpoint_kind e) (js "image"))
  | _ => None
  end.

(** The contract of generations that takes its references from the contract
    of edits. *)
Definition with_edit_images (generation edit : IntegrationParameters) (image_field : jsstr)
    : IntegrationParameters := {|
  p_image_options := p_image_options generation;
  p_duration_field := p_duration_field generation;
  p_durations := p_durations generation;
  p_resolutions := p_resolutions generation;
  p_ratios := p_ratios generation;
  p_omit_ratio := p_omit_ratio generation;
  p_ratio_field := p_ratio_field generation;
  p_resolution_field := p_resolution_field generation;
  p_request_resolution := p_request_resolution generation;
  p_image_field := Some image_field;
  p_video_field := p_video_field generation;
  p_audio_field := p_audio_field generation;
  p_min_images := Some 0;
  p_max_images := p_max_images edit;
  p_max_videos := p_max_videos generation;
  p_max_audios := p_max_audios generation;
  p_audio_needs_image := p_audio_needs_image generation;
  p_audio_requires_image := p_audio_requires_image generation;
  p_allow_frames := p_allow_frames generation;
  p_max_image_size_mb := p_max_image_size_mb generation;
  p_max_video_size_mb := p_max_video_size_mb generation;
  p_max_audio_size_mb := p_max_audio_size_mb generation;
|}.

(** [edit?.image_field === 'image[]']. *)
Definition edits_images (edit : option IntegrationParameters) : bool :=
  bool_decide (edit ≫= p_image_field = Some (js "image[]")).

Definition getMappedImageParameters (model : CreationModelInput) : option IntegrationParameters :=
  if match getModelMetadata model ≫= provider with
     | Some p => str_eqb (to_lower p) (js "sanbao")
     | None => false
     end || found (getAsyncImageCapability model)
  then None
  else
    match model with
    | ModelObject m =>
        let generation := image_endpoint model ≫= parameters in
        let edit :=
          (mapped_endpoints m ≫= find_first (λ e, str_eqb (endpoint_path e) (js "/v1/images/edits")))
            ≫= parameters in
        match generation, edit with
        | Some g, Some e => if edits_images edit then Some (with_edit_images g e (js "image[]")) else Some g
        | g, _ => g
        end
    | _ => None
    end.

Definition usesAsyncCreationImageModel (model : CreationModelInput) : bool :=
  match image_endpoint model with
  | Some e => str_eqb (endpoint_path e) (js "/v1/images/async-generations")
  | None => false
  end || found (getAsyncImageCapability model).

Definition isSanbaoImageModel (model : CreationModelInput) : bool :=
  isSanbaoMetadata (getModelMetadata model) &&
  match getSanbaoMediaType (getModelMetadata model) with
  | Some t => str_includes (js "image") t
  | None => false
  end.

Definition cleanAspectRatioOptions (values : option (list jsstr)) : list jsstr :=
  clean_strings [] (from_opt [] values).

Definition supportsCreationImageReferences (model : CreationModelInput) : bool :=
  match getMappedImageParameters model ≫= p_image_field with Some f => truthy f | None => false end
  || usesAsyncCreationImageModel model
  || str_eqb (normalizeModelId model) (js "gpt-image2")
  || isSanbaoImageModel model.

Definition limits_of (maxImages : option Z) (mb : Z) : CreationImageReferenceLimits :=
  ImageReferenceLimits maxImages (mb * 1024 * 1024) mb.

Definition getCreationImageReferenceLimits (model : CreationModelInput)
    : CreationImageReferenceLimits :=
  match getMappedImageParameters model with
  | Some p => limits_of (Some (p_max_images p)) (from_opt 20 (p_max_image_size_mb p))
  | None =>
      if isSanbaoImageModel model then
        let m := getModelMetadata model in
        limits_of (Some (from_opt CREATION_IMAGE_REFERENCE_MAX_COUNT (m ≫= max_images)))
          (from_opt 20 (m ≫= max_image_size_mb))
      else
        let maxImages :=
          match getAsyncImageCapability model with
          | Own c => Some (ai_maxImages c)
          | Inherited => None
          | Missing => Some CREATION_IMAGE_REFERENCE_MAX_COUNT
          end in
        ImageReferenceLimits maxImages CREATION_IMAGE_REFERENCE_MAX_BYTES 20
  end.

(** [None] is [undefined]. *)
Definition getCreationImageAspectRatioOptions (model : CreationModelInput) : option (list jsstr) :=
  let other :=
    match getAsyncImageCapability model with
    | Own c => Some (ai_aspectRatios c)
    | Inherited => None
    | Missing => Some CREATION_IMAGE_ASPECT_RATIO_OPTIONS
    end in
  match getMappedImageParameters model ≫= p_ratios with
  | Some (r :: rs) => Some (r :: rs)
  | _ =>
      if isSanbaoImageModel model then
        let m := getModelMetadata model in
        match cleanAspectRatioOptions
                (match m ≫= aspect_ratios with Some (r :: rs) => Some (r :: rs) | _ => m ≫= meta_ratios end) with
        | [] => other
        | values => Some values
        end
      else other
  end.

Definition getCreationImageResolutionOptions (model : CreationModelInput) : list jsstr :=
  match getMappedImageParameters model ≫= p_resolutions with
  | Some l => l
  | None => match getAsyncImageCapability model with Own c => ai_resolutions c | _ => [] end
  end.

(** ** Normalisation *)

Definition accepts_options (model : CreationModelInput) : bool :=
  supportsCreationImageReferences model || is_some (getMappedImageParameters model).

Definition normalizeCreationImageReferences (references : option (list CreationVideoReferenceValue))
    (model : CreationModelInput) : list CreationVideoReferenceValue :=
  if accepts_options model then cleanReferenceValues references else [].

Definition defaultOutputResolution (model : CreationModelInput) : jsstr :=
  match getAsyncImageCapability model with
  | Own c => ai_defaultResolution c
  | _ =>
      match getMappedImageParameters model ≫= p_resolutions with
      | Some (r :: _) => r
      | _ => js "1K"
      end
  end.

Definition normalizeCreationImageOptions (options : PartialImageOptions) (model : CreationModelInput)
    : exc CreationImageOptions :=
  if negb (accepts_options model) then Ok DEFAULT_CREATION_IMAGE_OPTIONS
  else
    match getCreationImageAspectRatioOptions model with
    | None => Throw
    | Some ratios =>
        let d := image_aspectRatio DEFAULT_CREATION_IMAGE_OPTIONS in
        let defaultAspectRatio := if includes d ratios then d else from_opt d (head ratios) in
        let aspectRatio :=
          match o_aspectRatio options with
          | Some r => if includes r ratios then r else defaultAspectRatio
          | None => defaultAspectRatio
          end in
        let resolutions := getCreationImageResolutionOptions model in
        let wanted := from_opt [] (o_outputResolution options) in
        let outputResolution :=
          if includes wanted resolutions then o_outputResolution options
          else Some (defaultOutputResolution model) in
        Ok (ImageOptions_ aspectRatio outputResolution)
    end.

End Models.

(** ** References *)

Section References.
Context `{CaseMap} `{UrlApi}.

(** image-options.ts repeats these four functions of video-options.ts. *)
Definition isImageHTTPURL : jsstr → bool := VideoReferences.isHTTPURL.
Definition getImageDataURLMime : jsstr → option jsstr := VideoReferences.getDataURLMime.
Definition isImageReferenceImage : jsstr → bool := VideoReferences.isReferenceImage.
Definition getImageURLFileExtension : jsstr → jsstr := VideoReferences.getURLFileExtension.

Definition hasAllowedImageReferenceFormat (value : jsstr) (extensions mimeTypes : list jsstr) : bool :=
  let mime := from_opt [] (getImageDataURLMime value) in
  if truthy mime then includes mime mimeTypes
  else if isImageHTTPURL value then true
  else
    let extension := getImageURLFileExtension value in
    truthy extension && includes extension extensions.

(** [references.map(getCreationReferenceURL).filter(Boolean)]. *)
Definition image_urls (references : list CreationVideoReferenceValue) : list jsstr :=
  filterb truthy (map url_of references).

Definition strict_format (model : CreationModelInput) : bool :=
  usesAsyncCreationImageModel model
  || bool_decide (getMappedImageParameters model ≫= p_image_field = Some (js "image[]")).

(** [length > maxImages], which is false if [maxImages] is undefined. *)
Definition image_exceeds (n : nat) (maxImages : option Z) : bool :=
  match maxImages with Some m => m <? Z.of_nat n | None => false end.

Definition too_many_message (model : CreationModelInput) (maxImages : option Z) : jsstr :=
  if isSanbaoImageModel model then js "Sanbao accepts too many reference images."
  else if negb (usesAsyncCreationImageModel model) && negb (is_some (getMappedImageParameters model))
  then js "Gpt-image2 accepts at most 6 reference images."
  else js "This image model accepts at most " ++ dec_Z (from_opt 0 maxImages)
       ++ js " reference images.".

Definition getCreationImageReferenceError (model : CreationModelInput)
    (references : list CreationVideoReferenceValue) : option jsstr :=
  if negb (supportsCreationImageReferences model) then None
  else
    let normalized := normalizeCreationImageReferences (Some references) model in
    let maxImages := i_maxImages (getCreationImageReferenceLimits model) in
    if image_exceeds (length normalized) maxImages then Some (too_many_message model maxImages)
    else
      let urls := image_urls normalized in
      let strict := strict_format model in
      if existsb (λ u, negb (isImageReferenceImage u)) urls
      then Some (js "Reference images must be images or HTTP URLs.")
      else if existsb (λ u, negb (hasAllowedImageReferenceFormat u
                (if strict then IMAGE_REFERENCE_EXTENSIONS else LEGACY_IMAGE_REFERENCE_EXTENSIONS)
                (if strict then IMAGE_REFERENCE_MIME_TYPES else LEGACY_IMAGE_REFERENCE_MIME_TYPES)))
                urls
      then Some (if strict then js "Reference image format must be PNG, JPEG, or WebP."
                 else js "Reference image format must be PNG, JPEG, WebP, GIF, or AVIF.")
      else None.

End References.

(** ** The request *)

Section Request.
Context `{CaseMap}.

Definition strs_of (l : list jsstr) : value := VArr (map VStr l).
Definition opt_value (o : option jsstr) : value := match o with Some s => VStr s | None => VUndef end.

(** [if (field) request[field] = v]. *)
Definition set_field (field : option jsstr) (v : value) (o : obj) : obj :=
  match field with Some f => if truthy f then obj_set f v o else o | None => o end.

(** One text for a field that ends with [_url], all of them otherwise. *)
Definition urls_value (field : jsstr) (urls : list jsstr) : value :=
  if ends_with (js "_url") field then opt_value (head urls) else strs_of urls.

Definition mapped_image_request (p : IntegrationParameters) (o : CreationImageOptions)
    (urls : list jsstr) : obj :=
  let request := set_field (p_ratio_field p) (VStr (image_aspectRatio o)) [] in
  let request :=
    set_field (p_resolution_field p)
      (match p_request_resolution p with Some r => VStr r | None => opt_value (outputResolution o) end)
      request in
  match p_image_field p, urls with
  | Some f, _ :: _ => set_field (Some f) (urls_value f urls) request
  | _, _ => request
  end.

Definition when_urls {A} (urls : list jsstr) (l : list A) : list A :=
  match urls with [] => [] | _ => l end.

Definition user_content (prompt : jsstr) (urls : list jsstr) : value :=
  VArr (VObj [(js "type", VStr (js "text")); (js "text", VStr prompt)]
        :: map (λ u, VObj [(js "type", VStr (js "image_url"));
                           (js "image_url", VObj [(js "url", VStr u)])]) urls).

Definition getCreationImageRequestOptions (prompt : jsstr) (model : CreationModelInput)
    (references : list CreationVideoReferenceValue) (imageOptions : PartialImageOptions) : exc obj :=
  if negb (accepts_options model) then Ok []
  else
    o ← normalizeCreationImageOptions imageOptions model;
    let urls := image_urls (normalizeCreationImageReferences (Some references) model) in
    Ok (match getMappedImageParameters model with
        | Some p => mapped_image_request p o urls
        | None =>
            let ratio := (js "aspect_ratio", VStr (image_aspectRatio o)) in
            if isSanbaoImageModel model then
              ratio :: when_urls urls [(js "images", strs_of urls)]
              ++ [(js "quality", VStr (js "high")); (js "concurrency", VNum (of_Z 1))]
            else if usesAsyncCreationImageModel model then
              (js "output_resolution", opt_value (outputResolution o)) :: ratio
              :: when_urls urls [(js "image_urls", strs_of urls)]
            else
              (js "output_resolution", VStr (js "1K")) :: ratio
              :: when_urls urls
                   [(js "messages", VArr [VObj [(js "role", VStr (js "user"));
                                                (js "content", user_content prompt urls)]])]
        end).

End Request.

(** ** Transport *)

(** The parts of a multipart form: texts and files with their size and type. *)
Inductive form_part := FormText (key text : jsstr) | FormFile (key : jsstr) (blob : N) (name : jsstr).

Record blob_info := Blob { blob_ref : N; blob_size : Z; blob_type : jsstr }.

Inductive transport := Json (endpoint : jsstr) (payload : obj) | Form (endpoint : jsstr) (parts : list form_part).

Section Transport.
(** The answer of [fetch] for a URL: [None] for a failure or a status that is
    not a success. *)
Context (fetch : jsstr → option blob_info).

Definition text_parts (payload : obj) : exc (list form_part) :=
  foldr (λ kv r,
    l ← r;
    if str_eqb kv.1 (js "image[]") then Ok l
    else
      match kv.2 with
      | VUndef | VNull => Ok l
      | v => match to_string v with Some s => Ok (FormText kv.1 s :: l) | None => Throw end
      end) (Ok []) payload.

Definition file_part (n : nat) (reference : value) : exc form_part :=
  match reference with
  | VStr u =>
      match fetch u with
      | None => Throw
      | Some b =>
          if (50 * 1024 * 1024 <? blob_size b)
             || negb (includes (blob_type b) (strs ["image/png"; "image/jpeg"; "image/webp"]))
          then Throw
          else Ok (FormFile (js "image[]") (blob_ref b)
                 (js "reference-" ++ dec (N.of_nat (S n)) ++ js "."
                  ++ from_opt (js "undefined") (split (js "/") (blob_type b) !! 1%nat)))
      end
  | _ => Throw
  end.

Fixpoint file_parts (n : nat) (references : list value) : exc (list form_part) :=
  match references with
  | [] => Ok []
  | r :: references =>
      p ← file_part n r; l ← file_parts (S n) references; Ok (p :: l)
  end.

Definition prepareImageTransport (endpoint : jsstr) (payload : obj) : exc transport :=
  match prop (js "image[]") payload with
  | VArr (r :: references) =>
      if negb (str_eqb endpoint (js "/api/creation/images/generations")) then Ok (Json endpoint payload)
      else if (20 <? length (r :: references))%nat then Throw
      else
        texts ← text_parts payload;
        files ← file_parts 0 (r :: references);
        Ok (Form (js "/api/creation/images/edits") (texts ++ files))
  | _ => Ok (Json endpoint payload)
  end.

End Transport.

(** ** Selections *)

Section Selections.
Context `{CaseMap}.

(** Every capability of the table offers ratios, and its default resolution. *)
Definition capability_ok (c : AsyncImageCapability) : bool :=
  negb (bool_decide (ai_aspectRatios c = [])) && includes (ai_defaultResolution c) (ai_resolutions c).

Lemma table_capability_ok model c : getAsyncImageCapability model = Own c → capability_ok c = true.
Proof.
  unfold getAsyncImageCapability. destruct (getModelMetadata model ≫= provider) as [p|]; [|done].
  destruct (str_eqb _ _); [|done]. intros (k & E)%table_get_elem.
  assert (Forall (λ kc, capability_ok kc.2 = true) ASYNC_IMAGE_CAPABILITIES) as Ht
    by (repeat (apply Forall_cons; split; [vm_compute; reflexivity|]); apply Forall_nil; done).
  rewrite Forall_forall in Ht. by apply (Ht (k, c)).
Qed.

Lemma mapped_not_async model p c :
  getMappedImageParameters model = Some p → getAsyncImageCapability model ≠ Own c.
Proof.
  unfold getMappedImageParameters. intros E Ho. by rewrite Ho, orb_true_r in E.
Qed.

Lemma ratios_offered model :
  getAsyncImageCapability model ≠ Inherited →
  ∃ r rs, getCreationImageAspectRatioOptions model = Some (r :: rs).
Proof.
  intros Hi. unfold getCreationImageAspectRatioOptions.
  destruct (getMappedImageParameters model ≫= p_ratios) as [[|r rs]|]; [|by eauto|];
    (destruct (isSanbaoImageModel model); [destruct (cleanAspectRatioOptions _) as [|r rs]; [|by eauto]|]);
    (destruct (getAsyncImageCapability model) as [c| |] eqn:Ec; [|done|by repeat eexists]);
    apply table_capability_ok in Ec; unfold capability_ok in Ec; bool_to_prop;
    (destruct (ai_aspectRatios c); [done|by eauto]).
Qed.

Lemma default_resolution_offered model :
  getAsyncImageCapability model ≠ Inherited → getCreationImageResolutionOptions model ≠ [] →
  defaultOutputResolution model ∈ getCreationImageResolutionOptions model.
Proof.
  intros Hi. unfold getCreationImageResolutionOptions, defaultOutputResolution.
  destruct (getAsyncImageCapability model) as [c| |] eqn:Ec; [|done|].
  - destruct (getMappedImageParameters model) as [p|] eqn:Em; [by apply (mapped_not_async _ _ c) in Em|].
    intros _. cbn. apply table_capability_ok in Ec. unfold capability_ok in Ec. bool_to_prop.
    by apply includes_elem.
  - destruct (getMappedImageParameters model ≫= p_resolutions) as [[|r rs]|]; [done| |done].
    intros _. set_solver.
Qed.

(** Normalising the options of an image never fails for a model that is
    not the name of an inherited member: the ratio is one of those offered
    for the model, the resolution one of those offered if there are any, and
    normalising again changes nothing. *)
Theorem image_selection_offered (options : PartialImageOptions) (model : CreationModelInput) :
  getAsyncImageCapability model ≠ Inherited → accepts_options model = true →
  ∃ o ratios,
    normalizeCreationImageOptions options model = Ok o ∧
    getCreationImageAspectRatioOptions model = Some ratios ∧ image_aspectRatio o ∈ ratios ∧
    (getCreationImageResolutionOptions model ≠ [] →
       ∀ r, outputResolution o = Some r → r ∈ getCreationImageResolutionOptions model) ∧
    normalizeCreationImageOptions (PartialImage (Some (image_aspectRatio o)) (outputResolution o)) model
    = Ok o.
Proof.
  intros Hi Ha. destruct (ratios_offered model Hi) as (r & rs & Er).
  unfold normalizeCreationImageOptions. rewrite Ha, Er. cbn [negb head from_opt].
  set (ratios := r :: rs). set (d := image_aspectRatio _).
  set (dr := if includes d ratios then d else r).
  assert (dr ∈ ratios) as Hd.
  { subst dr. destruct (includes d ratios) eqn:E; [by apply includes_elem|set_solver]. }
  set (ratio := match o_aspectRatio options with Some _ => _ | None => _ end).
  assert (ratio ∈ ratios) as Hr.
  { subst ratio. destruct (o_aspectRatio options) as [x|]; [|done].
    destruct (includes x ratios) eqn:E; [by apply includes_elem|done]. }
  do 2 eexists. split; [reflexivity|]. cbn [image_aspectRatio outputResolution o_aspectRatio o_outputResolution].
  split_and!; [done|done| |].
  - intros Hne x. destruct (includes (from_opt [] (o_outputResolution options)) _) eqn:E.
    + intros Hx. rewrite Hx in E. by apply includes_elem.
    + intros [= <-]. by apply default_resolution_offered.
  - rewrite (proj2 (includes_elem ratio ratios) Hr). f_equal. f_equal.
    destruct (includes (from_opt [] (o_outputResolution options)) _) eqn:E; [by rewrite E|].
    destruct (includes (from_opt [] (Some _)) _); done.
Qed.

End Selections.

Lemma image_selection_offered_witness :
  ∃ o ratios,
    normalizeCreationImageOptions (H := ascii_case_map) (PartialImage (Some (js "7:7")) None)
      (ModelName (js "gpt-image2")) = Ok o ∧
    getCreationImageAspectRatioOptions (H := ascii_case_map) (ModelName (js "gpt-image2")) = Some ratios ∧
    image_aspectRatio o ∈ ratios.
Proof.
  destruct (image_selection_offered (H := ascii_case_map) (PartialImage (Some (js "7:7")) None)
    (ModelName (js "gpt-image2")) ltac:(vm_compute; discriminate) ltac:(vm_compute; reflexivity))
    as (o & ratios & E1 & E2 & E3 & _).
  exists o, ratios. split; [exact E1|]. split; [exact E2|exact E3].
Defined.
