(* ===== verification/Messages.v ===== *)
(** * Playground messages

    Model of src/web/default/src/features/playground/lib/message-utils.ts and
    payload-builder.ts with the types and constants they use: versions of a
    message, the split of a reply into visible text and [<think>] reasoning,
    the updates of the last assistant message, and the recovery of stored
    messages.

    An optional property is an [option]; [errorCode] can be absent, [null] or
    a string.  [nanoid()] is an argument: the fresh identifier. *)
From S2P Require Import Prelude JsString JsNumber JsValue.

Open Scope nat_scope.

(** ** Data *)

Inductive MessageRole := USER | ASSISTANT | SYSTEM.
Inductive MessageStatus := LOADING | STREAMING | COMPLETE | ERROR.

#[export] Instance role_eq_dec : EqDecision MessageRole.
Proof. solve_decision. Defined.
#[export] Instance status_eq_dec : EqDecision MessageStatus.
Proof. solve_decision. Defined.

Definition role_text (r : MessageRole) : jsstr :=
  match r with USER => js "user" | ASSISTANT => js "assistant" | SYSTEM => js "system" end.

Record MessageVersion := Version { version_id : jsstr; content : jsstr }.

Inductive MediaType := MediaImage | MediaVideo.
Record MessageMedia := Media {
  media_type : MediaType;
  media_url : jsstr;
  media_title : option jsstr;
  media_taskId : option jsstr;
  media_status : option jsstr;
}.

Record Reasoning := Reason { reasoning_content : jsstr; reasoning_duration : num }.

Record Message := Msg {
  key : jsstr;
  from : MessageRole;
  versions : list MessageVersion;
  media : option MessageMedia;
  sources : option (list (jsstr * jsstr));
  reasoning : option Reasoning;
  isReasoningStreaming : option bool;
  isReasoningComplete : option bool;
  isContentComplete : option bool;
  status : option MessageStatus;
  errorCode : option (option jsstr);
}.

(** Object spread with some properties replaced. *)
Definition with_versions (vs : list MessageVersion) (m : Message) : Message :=
  Msg (key m) (from m) vs (media m) (sources m) (reasoning m) (isReasoningStreaming m)
    (isReasoningComplete m) (isContentComplete m) (status m) (errorCode m).
Definition with_reasoning (r : option Reasoning) (b : bool) (m : Message) : Message :=
  Msg (key m) (from m) (versions m) (media m) (sources m) r (Some b)
    (isReasoningComplete m) (isContentComplete m) (status m) (errorCode m).
Definition with_status (s : MessageStatus) (m : Message) : Message :=
  Msg (key m) (from m) (versions m) (media m) (sources m) (reasoning m) (isReasoningStreaming m)
    (isReasoningComplete m) (isContentComplete m) (Some s) (errorCode m).
Definition with_error (code : option jsstr) (m : Message) : Message :=
  Msg (key m) (from m) (versions m) (media m) (sources m) (reasoning m) (Some false)
    (isReasoningComplete m) (isContentComplete m) (Some ERROR) (Some code).
Definition with_media (x : option MessageMedia) (m : Message) : Message :=
  Msg (key m) (from m) (versions m) x (sources m) (reasoning m) (isReasoningStreaming m)
    (isReasoningComplete m) (isContentComplete m) (status m) (errorCode m).

Definition API_REQUEST_ERROR : jsstr := js "Request error occurred".
Definition NETWORK_ERROR : jsstr := js "Network connection failed or server not responding".
Definition PARSE_ERROR : jsstr := js "Error parsing response data".
Definition STREAM_START_ERROR : jsstr := js "Error establishing connection".
Definition CONNECTION_CLOSED : jsstr := js "Connection closed".
Definition INTERRUPTED : jsstr := js "Generation was interrupted".

(** ** Versions *)

Definition createMessageVersion (id content : jsstr) : MessageVersion := Version id content.

Definition getCurrentVersion (m : Message) : MessageVersion :=
  match versions m with v :: _ => v | [] => Version (js "default") [] end.

Definition updateCurrentVersionContent (m : Message) (text : jsstr) : Message :=
  with_versions [Version (version_id (getCurrentVersion m)) text] m.

Definition createUserMessage (key_id version_id text : jsstr) : Message :=
  Msg key_id USER [createMessageVersion version_id text]
    None None None None None None None None.

Definition createLoadingAssistantMessage (key_id version_id : jsstr) : Message :=
  Msg key_id ASSISTANT [createMessageVersion version_id []]
    None None None (Some false) (Some false) (Some false) (Some LOADING) None.

(** ** Content of a request *)

Inductive ContentPart := TextPart (text : option jsstr) | ImagePart (url : jsstr).
Inductive MessageContent := ContentText (s : jsstr) | ContentParts (ps : list ContentPart).

Definition buildMessageContent (text : jsstr) (imageUrls : list jsstr) : MessageContent :=
  let validImages := filterb (λ u, negb (str_eqb (trim u) [])) imageUrls in
  match validImages with
  | [] => ContentText text
  | _ => ContentParts (TextPart (Some text) :: map (λ u, ImagePart (trim u)) validImages)
  end.

Definition getTextContent (c : MessageContent) : jsstr :=
  match c with
  | ContentText s => s
  | ContentParts ps =>
      match find_first (λ p, match p with TextPart _ => true | _ => false end) ps with
      | Some (TextPart (Some t)) => t
      | _ => []
      end
  end.

Record ChatCompletionMessage := ApiMessage { role : MessageRole; api_content : jsstr }.

Definition formatMessageForAPI (m : Message) : ChatCompletionMessage :=
  ApiMessage (from m) (content (getCurrentVersion m)).

Definition isValidMessage (m : Message) : bool :=
  match versions m with
  | [] => false
  | v :: _ => negb (bool_decide (from m = ASSISTANT) && negb (truthy (trim (content v))))
  end.

(** ** The [<think>] sections of a reply *)

Definition open_tag : jsstr := js "<think>".
Definition close_tag : jsstr := js "</think>".
Definition blank_line : jsstr := [10; 10]%N.

Record Parsed := ParsedThink {
  visibleContent : jsstr;
  parsed_reasoning : jsstr;
  hasUnclosedTag : bool;
}.

(** [content.substring(i)] and [content.substring(i, j)] for [i <= j]. *)
Definition substring_from (i : nat) (s : jsstr) : jsstr := drop i s.

(** The [while (true)] loop: the visible and the reasoning parts from
    [currentPos] on, and whether a section is left open. *)
Fixpoint think_loop (fuel : nat) (text : jsstr) (currentPos : nat)
    : exc (list jsstr * list jsstr * bool) :=
  match fuel with
  | O => Fuel
  | S fuel =>
      match index_from open_tag text currentPos with
      | None =>
          Ok (if currentPos <? length text then [substring_from currentPos text] else [], [], false)
      | Some openPos =>
          let visible := if currentPos <? openPos then [slice currentPos openPos text] else [] in
          match index_from close_tag text (openPos + 7) with
          | None => Ok (visible, [substring_from (openPos + 7) text], true)
          | Some closePos =>
              r ← think_loop fuel text (closePos + 8);
              let '(vs, rs, unclosed) := r in
              Ok (visible ++ vs, slice (openPos + 7) closePos text :: rs, unclosed)
          end
      end
  end.

Definition parseThinkTags (text : jsstr) : exc Parsed :=
  if negb (str_includes open_tag text) then Ok (ParsedThink text [] false)
  else
    r ← think_loop (S (length text)) text 0;
    let '(vs, rs, unclosed) := r in
    Ok (ParsedThink (trim (concat vs)) (trim (join blank_line rs)) unclosed).

(** ** Updates of the last assistant message *)

Definition updateLastAssistantMessage (messages : list Message) (updater : Message → exc Message)
    : exc (list Message) :=
  match last messages with
  | Some l =>
      if bool_decide (from l = ASSISTANT)
      then l' ← updater l; Ok (removelast messages ++ [l'])
      else Ok messages
  | None => Ok messages
  end.

Definition error_message (m : Message) (text : jsstr) (code : option jsstr) : Message :=
  with_error (match code with Some c => if truthy c then Some c else None | None => None end)
    (updateCurrentVersionContent m (API_REQUEST_ERROR ++ js ": " ++ text)).

Definition updateAssistantMessageWithError (messages : list Message) (text : jsstr)
    (code : option jsstr) : exc (list Message) :=
  updateLastAssistantMessage messages (λ m, Ok (error_message m text code)).

Definition processStreamingContent (m : Message) (chunk : option jsstr) : exc Message :=
  let current := content (getCurrentVersion m) in
  let fullContent := match chunk with Some c => current ++ c | None => current end in
  p ← parseThinkTags fullContent;
  let finalReasoning :=
    if truthy (parsed_reasoning p) then Some (Reason (parsed_reasoning p) (of_Z 0))
    else reasoning m in
  Ok (with_reasoning finalReasoning (hasUnclosedTag p) (updateCurrentVersionContent m fullContent)).

Definition finalizeMessage (m : Message) (apiReasoningContent : option jsstr) : exc Message :=
  p ← parseThinkTags (content (getCurrentVersion m));
  let own := match reasoning m with Some r => reasoning_content r | None => [] end in
  let finalReasoning := str_or (from_opt [] apiReasoningContent) (str_or own (parsed_reasoning p)) in
  let duration := match reasoning m with
                  | Some r => num_or (reasoning_duration r) (of_Z 0)
                  | None => of_Z 0
                  end in
  Ok (with_reasoning
        (if truthy finalReasoning then Some (Reason finalReasoning duration) else None) false
        (updateCurrentVersionContent m (visibleContent p))).

(** ** Messages loaded from storage *)

Definition is_stuck (m : Message) : bool :=
  bool_decide (from m = ASSISTANT) &&
  (bool_decide (status m = Some LOADING) || bool_decide (status m = Some STREAMING)).

(** The index of the last element that satisfies [f]. *)
Fixpoint find_last_index {A} (f : A → bool) (l : list A) : option nat :=
  match l with
  | [] => None
  | x :: l =>
      match find_last_index f l with
      | Some i => Some (S i)
      | None => if f x then Some 0 else None
      end
  end.

Definition sanitize_message (m : Message) : exc Message :=
  finalized ← finalizeMessage m None;
  let hasContent := truthy (trim (content (getCurrentVersion finalized))) in
  let hasReasoning :=
    match reasoning finalized with Some r => truthy (trim (reasoning_content r)) | None => false end in
  Ok (if hasContent || hasReasoning
      then with_status COMPLETE (with_reasoning (reasoning finalized) false finalized)
      else
        let m' := updateCurrentVersionContent finalized
                    (API_REQUEST_ERROR ++ js ": " ++ INTERRUPTED) in
        with_status ERROR (with_reasoning (reasoning m') false m')).

Definition sanitizeMessagesOnLoad (messages : list Message) : exc (list Message) :=
  match find_last_index is_stuck messages with
  | None => Ok messages
  | Some i =>
      match messages !! i with
      | Some m => m' ← sanitize_message m; Ok (<[i := m']> messages)
      | None => Ok messages
      end
  end.

(** ** The request payload *)

Record PlaygroundConfig := Config {
  cfg_model : jsstr;
  cfg_group : jsstr;
  temperature : num;
  top_p : num;
  max_tokens : num;
  frequency_penalty : num;
  presence_penalty : num;
  seed : option num;
  stream : bool;
}.

Record ParameterEnabled := Enabled {
  e_temperature : bool;
  e_top_p : bool;
  e_max_tokens : bool;
  e_frequency_penalty : bool;
  e_presence_penalty : bool;
  e_seed : bool;
}.

Definition api_message_value (m : ChatCompletionMessage) : value :=
  VObj [(js "role", VStr (role_text (role m))); (js "content", VStr (api_content m))].

(** The enabled parameters with a value, in the order of the source. *)
Definition enabled_parameters (c : PlaygroundConfig) (e : ParameterEnabled)
    : list (jsstr * value) :=
  let one (b : bool) (k : string) (v : option num) :=
    match b, v with true, Some x => [(js k, VNum x)] | _, _ => [] end in
  one (e_temperature e) "temperature" (Some (temperature c))
  ++ one (e_top_p e) "top_p" (Some (top_p c))
  ++ one (e_max_tokens e) "max_tokens" (Some (max_tokens c))
  ++ one (e_frequency_penalty e) "frequency_penalty" (Some (frequency_penalty c))
  ++ one (e_presence_penalty e) "presence_penalty" (Some (presence_penalty c))
  ++ one (e_seed e) "seed" (seed c).

Definition buildChatCompletionPayload (messages : list Message) (c : PlaygroundConfig)
    (e : ParameterEnabled) : obj :=
  obj_of_list
    ([(js "model", VStr (cfg_model c));
      (js "group", VStr (cfg_group c));
      (js "messages", VArr (map api_message_value
                              (map formatMessageForAPI (filterb isValidMessage messages))));
      (js "stream", VBool (stream c))]
     ++ enabled_parameters c e).

(** ** A reply as a sequence of sections *)

(** Text before a closed section and the section itself; the rest of the
    text; and the section left open at the end, if any. *)
Record reply := Reply {
  sections : list (jsstr * jsstr);
  rest : jsstr;
  unclosed : option jsstr;
}.

Definition render_sections (l : list (jsstr * jsstr)) : jsstr :=
  concat (map (λ vt, vt.1 ++ open_tag ++ vt.2 ++ close_tag) l).
Definition render_tail (r : jsstr) (u : option jsstr) : jsstr :=
  r ++ match u with Some t => open_tag ++ t | None => [] end.
Definition render (d : reply) : jsstr :=
  render_sections (sections d) ++ render_tail (rest d) (unclosed d).

(** Visible text has no opening tag, a section no closing tag. *)
Definition wf_tail (r : jsstr) (u : option jsstr) : Prop :=
  str_includes open_tag r = false ∧
  match u with Some t => str_includes close_tag t = false | None => True end.
Definition wf_reply (d : reply) : Prop :=
  Forall (λ vt, str_includes open_tag vt.1 = false ∧ str_includes close_tag vt.2 = false)
    (sections d) ∧
  wf_tail (rest d) (unclosed d).

Definition thoughts (d : reply) : list jsstr :=
  map snd (sections d) ++ match unclosed d with Some t => [t] | None => [] end.

Definition has_tag (d : reply) : bool :=
  negb (bool_decide (sections d = [])) || is_some (unclosed d).

(** What the parser returns for a reply. *)
Definition reply_parsed (d : reply) : Parsed :=
  if has_tag d then
    ParsedThink (trim (concat (map fst (sections d)) ++ rest d))
      (trim (join blank_line (thoughts d))) (is_some (unclosed d))
  else ParsedThink (rest d) [] false.

Lemma index_from_app p pre s :
  index_from p (pre ++ s) (length pre) = (λ i, length pre + i) <$> index_of p s.
Proof.
  unfold index_from. rewrite drop_app_length, length_app, Nat.min_l by lia. done.
Qed.

Lemma open_unbordered : open_tag ≠ [] ∧ unbordered open_tag = true.
Proof. split; [done|vm_compute; reflexivity]. Qed.
Lemma close_unbordered : close_tag ≠ [] ∧ unbordered close_tag = true.
Proof. split; [done|vm_compute; reflexivity]. Qed.

#[local] Opaque open_tag close_tag.

Lemma open_length : length open_tag = 7.
Proof. vm_compute. reflexivity. Qed.
Lemma close_length : length close_tag = 8.
Proof. vm_compute. reflexivity. Qed.

Lemma find_open pre v s :
  str_includes open_tag v = false →
  index_from open_tag (pre ++ v ++ open_tag ++ s) (length pre) = Some (length pre + length v).
Proof.
  intros. rewrite index_from_app, index_of_unbordered; [done|apply open_unbordered..|done].
Qed.

Lemma find_close pre v t s :
  str_includes close_tag t = false →
  index_from close_tag (pre ++ v ++ open_tag ++ t ++ close_tag ++ s) (length pre + length v + 7)
  = Some (length pre + length v + 7 + length t).
Proof.
  intros. replace (pre ++ v ++ open_tag ++ t ++ close_tag ++ s)
    with ((pre ++ v ++ open_tag) ++ t ++ close_tag ++ s) by by rewrite <- !app_assoc.
  replace (length pre + length v + 7) with (length (pre ++ v ++ open_tag))
    by (rewrite !length_app, open_length; lia).
  rewrite index_from_app, index_of_unbordered; [done|apply close_unbordered..|done].
Qed.

Lemma slice_app pre v s : slice (length pre) (length pre + length v) (pre ++ v ++ s) = v.
Proof.
  unfold slice. rewrite drop_app_length.
  replace (length pre + length v - length pre) with (length v) by lia. apply take_app_length.
Qed.

(** The optional visible part. *)
Lemma visible_part pre v s :
  concat (if length pre <? length pre + length v
          then [slice (length pre) (length pre + length v) (pre ++ v ++ s)] else []) = v.
Proof.
  destruct (Nat.ltb_spec (length pre) (length pre + length v)); simpl.
  - by rewrite slice_app, app_nil_r.
  - by destruct v; [|simpl in *; lia].
Qed.

Lemma think_loop_tail fuel pre r u :
  wf_tail r u → 0 < fuel →
  ∃ vs, think_loop fuel (pre ++ render_tail r u) (length pre)
        = Ok (vs, match u with Some t => [t] | None => [] end, is_some u) ∧ concat vs = r.
Proof.
  intros [Hr Hu] Hf. destruct fuel as [|fuel]; [lia|]. unfold render_tail.
  destruct u as [t|]; cbn [think_loop].
  - rewrite find_open by done.
    assert (index_from close_tag (pre ++ r ++ open_tag ++ t) (length pre + length r + 7) = None) as ->.
    { replace (pre ++ r ++ open_tag ++ t) with ((pre ++ r ++ open_tag) ++ t)
        by by rewrite <- !app_assoc.
      replace (length pre + length r + 7) with (length (pre ++ r ++ open_tag))
        by (rewrite !length_app, open_length; lia).
      rewrite index_from_app. unfold str_includes in Hu. by destruct (index_of close_tag t). }
    eexists. split; [|apply (visible_part pre r)]. do 2 f_equal. f_equal.
    unfold substring_from. rewrite !app_assoc, drop_app_length'; [done|].
    rewrite !length_app, open_length. lia.
  - rewrite app_nil_r, index_from_app. unfold str_includes in Hr.
    destruct (index_of open_tag r); [done|]. simpl. eexists. split; [done|].
    rewrite length_app. destruct (Nat.ltb_spec (length pre) (length pre + length r)); simpl.
    + unfold substring_from. by rewrite drop_app_length, app_nil_r.
    + by destruct r; [|simpl in *; lia].
Qed.

Lemma think_loop_reply fuel pre l r u :
  Forall (λ vt, str_includes open_tag vt.1 = false ∧ str_includes close_tag vt.2 = false) l →
  wf_tail r u → length l < fuel →
  ∃ vs, think_loop fuel (pre ++ render_sections l ++ render_tail r u) (length pre)
        = Ok (vs, map snd l ++ match u with Some t => [t] | None => [] end, is_some u) ∧
        concat vs = concat (map fst l) ++ r.
Proof.
  revert fuel pre; induction l as [|[v t] l IH]; intros fuel pre Hl Ht Hf.
  { by apply think_loop_tail. }
  apply Forall_cons in Hl as [[Hv Hc] Hl]. cbn [fst snd] in *.
  destruct fuel as [|fuel]; [simpl in Hf; lia|]. cbn [think_loop].
  set (s := render_sections l ++ render_tail r u) in *.
  assert (render_sections ((v, t) :: l) ++ render_tail r u = v ++ open_tag ++ t ++ close_tag ++ s) as ->.
  { unfold render_sections. cbn [map concat fst snd]. by rewrite <- !app_assoc. }
  rewrite find_open by done. rewrite find_close by done.
  set (pre' := pre ++ v ++ open_tag ++ t ++ close_tag).
  destruct (IH fuel pre' Hl Ht) as (vs & E & Hvs); [simpl in Hf; lia|].
  fold s in E. replace (pre' ++ s)
    with (pre ++ v ++ open_tag ++ t ++ close_tag ++ s) in E
    by (unfold pre'; by rewrite <- !app_assoc).
  replace (length pre') with (length pre + length v + 7 + length t + 8) in E
    by (unfold pre'; rewrite !length_app, open_length, close_length; lia).
  rewrite E. cbn [mbind exc_bind]. eexists. split.
  - cbn [map app]. do 3 f_equal. f_equal.
    replace (pre ++ v ++ open_tag ++ t ++ close_tag ++ s)
      with ((pre ++ v ++ open_tag) ++ t ++ (close_tag ++ s)) by by rewrite <- !app_assoc.
    replace (length pre + length v + 7) with (length (pre ++ v ++ open_tag))
      by (rewrite !length_app, open_length; lia).
    apply slice_app.
  - rewrite concat_app, visible_part, Hvs. cbn [map concat fst]. by rewrite <- app_assoc.
Qed.

Lemma render_sections_length l : length l ≤ length (render_sections l).
Proof.
  unfold render_sections. induction l as [|[v t] l IH]; simpl; [done|].
  rewrite !length_app, open_length. lia.
Qed.

Lemma has_tag_includes d :
  wf_reply d → str_includes open_tag (render d) = has_tag d.
Proof.
  intros (_ & Hr & _). destruct d as [l r u]. unfold has_tag, render, render_tail.
  cbn [sections rest unclosed] in *. destruct l as [|[v t] l].
  - destruct u as [t|]; simpl; [|by rewrite app_nil_r].
    destruct (str_includes open_tag (r ++ open_tag ++ t)) eqn:E; [done|].
    rewrite str_includes_false in E. by destruct (E r t).
  - change (negb _ || is_some u) with true. set (tail := r ++ _).
    destruct (str_includes open_tag (_ ++ tail)) eqn:E; [done|]. rewrite str_includes_false in E.
    edestruct (E v). unfold render_sections. cbn [map concat fst snd]. by rewrite <- !app_assoc.
Qed.

Lemma parse_rendered d : wf_reply d → parseThinkTags (render d) = Ok (reply_parsed d).
Proof.
  intros Hd. unfold parseThinkTags. rewrite (has_tag_includes d Hd). unfold reply_parsed.
  destruct (has_tag d) eqn:E; cbn [negb].
  - destruct Hd as [Hl Ht]. destruct d as [l r u]. cbn [sections rest unclosed] in *.
    unfold render. cbn [sections rest unclosed].
    destruct (think_loop_reply (S (length (render_sections l ++ render_tail r u))) [] l r u)
      as (vs & E1 & E2); [done|done|rewrite length_app; pose proof (render_sections_length l); lia|].
    change ([] ++ ?x) with x in E1. change (length []) with 0 in E1. rewrite E1.
    cbn [mbind exc_bind]. by rewrite E2.
  - unfold has_tag in E. apply orb_false_iff in E as [E1 E2]. apply negb_false_iff in E1.
    apply bool_decide_eq_true in E1. destruct d as [l r u]. cbn [sections rest unclosed] in *.
    subst l. destruct u; [done|]. unfold render, render_tail. simpl. by rewrite app_nil_r.
Qed.

(** Every text is a reply. *)
Lemma text_is_reply text : ∃ d, wf_reply d ∧ text = render d.
Proof.
  remember (length text) as n eqn:Hn. revert text Hn.
  induction n as [n IH] using lt_wf_ind. intros text ->.
  destruct (index_of open_tag text) as [i|] eqn:Ei.
  2: { exists (Reply [] text None). split.
       - split; [constructor|]. split; [|done]. unfold str_includes. simpl. by rewrite Ei.
       - unfold render, render_tail. simpl. by rewrite app_nil_r. }
  apply index_of_before in Ei as Hv; [|apply open_unbordered].
  apply index_of_Some in Ei as [Et Hl]. set (v := take i text) in *.
  set (s := drop (i + length open_tag) text) in *.
  destruct (index_of close_tag s) as [j|] eqn:Ej.
  2: { exists (Reply [] v (Some s)). split; [|exact Et].
       split; [constructor|]. split; [done|]. unfold str_includes. simpl. by rewrite Ej. }
  apply index_of_before in Ej as Ht; [|apply close_unbordered].
  apply index_of_Some in Ej as [Es Hj]. set (t := take j s) in *.
  set (s' := drop (j + length close_tag) s) in *.
  destruct (IH (length s')) with (text := s') as (d & Hd & Hs'); [|done|].
  { subst s' s. rewrite !length_drop, open_length, close_length in *. lia. }
  exists (Reply ((v, t) :: sections d) (rest d) (unclosed d)). split.
  - destruct Hd as [Hd1 Hd2]. split; [|exact Hd2]. by constructor.
  - unfold render, render_sections. cbn [sections rest unclosed map concat fst snd].
    rewrite <- !app_assoc. rewrite Et, Es, Hs'. done.
Qed.

Lemma parseThinkTags_returns text : returns (parseThinkTags text).
Proof.
  destruct (text_is_reply text) as (d & Hd & ->). rewrite parse_rendered by done. ret.
Qed.

(** ** Operations on messages return *)

Definition content_of (m : Message) : jsstr := content (getCurrentVersion m).

Lemma content_of_update m s : content_of (updateCurrentVersionContent m s) = s.
Proof. done. Qed.

Lemma finalize_returns m api : returns (finalizeMessage m api).
Proof.
  unfold finalizeMessage. apply returns_bind; [apply parseThinkTags_returns|ret].
Qed.

Lemma process_returns m c : returns (processStreamingContent m c).
Proof.
  unfold processStreamingContent. apply returns_bind; [apply parseThinkTags_returns|ret].
Qed.

Lemma sanitize_message_returns m : returns (sanitize_message m).
Proof. unfold sanitize_message. apply returns_bind; [apply finalize_returns|ret]. Qed.

(** What finalising does to a message. *)
Lemma finalize_spec m api m' :
  finalizeMessage m api = Ok m' →
  ∃ p, parseThinkTags (content_of m) = Ok p ∧ content_of m' = visibleContent p ∧
       from m' = from m ∧ status m' = status m ∧ isReasoningStreaming m' = Some false.
Proof.
  unfold finalizeMessage, content_of. destruct (parseThinkTags _) as [p| |] eqn:E; [|done|done].
  cbn [mbind exc_bind]. intros [= <-]. eauto 10.
Qed.

Lemma process_spec m c m' :
  processStreamingContent m (Some c) = Ok m' →
  content_of m' = content_of m ++ c ∧ from m' = from m ∧ key m' = key m ∧
  ∃ p, parseThinkTags (content_of m ++ c) = Ok p ∧
       isReasoningStreaming m' = Some (hasUnclosedTag p) ∧
       reasoning m' = if truthy (parsed_reasoning p)
                      then Some (Reason (parsed_reasoning p) (of_Z 0)) else reasoning m.
Proof.
  unfold processStreamingContent, content_of. destruct (parseThinkTags _) as [p| |] eqn:E; [|done|done].
  cbn [mbind exc_bind]. intros [= <-]. split; [done|]. split; [done|]. split; [done|].
  exists p. done.
Qed.

(** Streaming the chunks of a reply. *)
Fixpoint stream_chunks (m : Message) (chunks : list jsstr) : exc Message :=
  match chunks with
  | [] => Ok m
  | c :: cs => m' ← processStreamingContent m (Some c); stream_chunks m' cs
  end.

Lemma stream_chunks_content m cs :
  ∃ m', stream_chunks m cs = Ok m' ∧ content_of m' = content_of m ++ concat cs.
Proof.
  revert m; induction cs as [|c cs IH]; intros m; simpl.
  - exists m. by rewrite app_nil_r.
  - destruct (process_returns m (Some c)) as [m1 E]. rewrite E. cbn [mbind exc_bind].
    destruct (IH m1) as (m' & E' & Hc). exists m'. split; [done|].
    apply process_spec in E as (Hc1 & _). by rewrite Hc, Hc1, <- app_assoc.
Qed.

Lemma stream_chunks_snoc m cs c :
  stream_chunks m (cs ++ [c]) = (m' ← stream_chunks m cs; processStreamingContent m' (Some c)).
Proof.
  revert m; induction cs as [|x cs IH]; intros m; simpl.
  - by destruct (processStreamingContent m (Some c)).
  - destruct (processStreamingContent m (Some x)); cbn [mbind exc_bind]; [apply IH|done|done].
Qed.

(** *** Recovery of stored messages *)

Lemma find_last_index_Some {A} (f : A → bool) l i :
  find_last_index f l = Some i →
  (∃ x, l !! i = Some x ∧ f x = true) ∧ ∀ j y, l !! j = Some y → i < j → f y = false.
Proof.
  revert i; induction l as [|x l IH]; intros i; simpl; [done|].
  destruct (find_last_index f l) as [k|] eqn:E.
  - intros [= <-]. destruct (IH k eq_refl) as [Hx Hy]. split; [done|].
    intros [|j] y; simpl; [lia|]. intros. eapply Hy; [done|lia].
  - destruct (f x) eqn:Ex; [|done]. intros [= <-]. split; [by exists x|].
    intros [|j] y; simpl; [lia|]. intros Hj _. clear IH.
    revert j Hj. induction l as [|z l IH]; intros j Hj; simpl in *; [done|].
    destruct (find_last_index f l) eqn:E'; [done|]. destruct (f z) eqn:Ez; [done|].
    destruct j; simpl in Hj; [congruence|]. by eapply IH.
Qed.

Lemma find_last_index_None {A} (f : A → bool) l :
  find_last_index f l = None ↔ ∀ x, x ∈ l → f x = false.
Proof.
  induction l as [|x l IH]; simpl; [set_solver|].
  destruct (find_last_index f l).
  - split; [done|]. intros Hx. assert (∀ x, x ∈ l → f x = false) as Hl by set_solver.
    apply IH in Hl. done.
  - destruct (f x) eqn:E; split; try done.
    + intros Hx. specialize (Hx x). rewrite E in Hx. set_solver.
    + intros _ y [->|Hy]%elem_of_cons; [done|]. by apply IH.
Qed.

Lemma sanitize_message_settled m m' :
  sanitize_message m = Ok m' → is_stuck m' = false ∧ from m' = from m ∧
  (status m' = Some COMPLETE ∨ status m' = Some ERROR).
Proof.
  unfold sanitize_message. destruct (finalizeMessage m None) as [f| |] eqn:E; [|done|done].
  cbn [mbind exc_bind]. apply finalize_spec in E as (p & _ & _ & Hf & _).
  destruct (_ || _); intros [= <-]; unfold is_stuck; simpl; rewrite Hf;
    (split; [by destruct (bool_decide (from m = ASSISTANT))|]); auto.
Qed.

(** The result of the recovery. *)
Lemma sanitize_spec (messages : list Message) :
  ∃ result, sanitizeMessagesOnLoad messages = Ok result ∧
    length result = length messages ∧
    match find_last_index is_stuck messages with
    | None => result = messages
    | Some i => ∃ m, result !! i = Some m ∧ is_stuck m = false ∧
                     (status m = Some COMPLETE ∨ status m = Some ERROR) ∧
                     ∀ j, j ≠ i → result !! j = messages !! j
    end ∧
    (length (filterb is_stuck messages) ≤ 1 → filterb is_stuck result = []).
Proof.
  unfold sanitizeMessagesOnLoad. destruct (find_last_index is_stuck messages) as [i|] eqn:E.
  - apply find_last_index_Some in E as [(m & Hm & Hs) Hafter]. rewrite Hm.
    destruct (sanitize_message_returns m) as [m' E']. rewrite E'. cbn [mbind exc_bind].
    apply sanitize_message_settled in E' as (Hs' & _ & Hst). eexists. split; [done|].
    assert (i < length messages) as Hi by by eapply lookup_lt_Some.
    split; [apply length_insert|]. split.
    + exists m'. split; [by apply list_lookup_insert_eq|]. split; [done|]. split; [done|].
      intros j Hj. by apply list_lookup_insert_ne.
    + intros Hle. unfold filterb in *.
      rewrite <- (take_drop_middle messages i m Hm), List.filter_app, length_app in Hle.
      simpl in Hle. rewrite Hs in Hle. simpl in Hle.
      rewrite insert_take_drop by done. rewrite List.filter_app. simpl. rewrite Hs'.
      destruct (List.filter is_stuck (take i messages)); [|simpl in Hle; lia].
      by destruct (List.filter is_stuck (drop (S i) messages)); [|simpl in Hle; lia].
  - eexists. split; [done|]. split; [done|]. split; [done|]. intros _.
    rewrite find_last_index_None in E. unfold filterb. induction messages as [|m ms IH]; [done|].
    simpl. rewrite E by set_solver. apply IH. set_solver.
Qed.

(** ** Properties *)

(** C5.  [parseThinkTags] inverts the writing of a reply: every text is, in
    one reading, visible text interleaved with [<think>] sections of which
    the last may be open, and for a reply with at least one section the parser
    returns the trimmed visible text, the trimmed sections joined by blank
    lines and whether a section is open; a text without a section is returned
    as it is. *)
Theorem parse_think_tags_correct :
  (∀ text, ∃ d, wf_reply d ∧ text = render d) ∧
  (∀ d, wf_reply d → parseThinkTags (render d) = Ok (reply_parsed d)).
Proof. split; [apply text_is_reply|apply parse_rendered]. Qed.

(** C6.  The visible text does not depend on how a reply is cut into chunks:
    streaming the chunks and finalising gives the visible text of the whole
    reply, and, when the reply has reasoning in its sections, that reasoning.
*)
Theorem streaming_equals_whole (m : Message) (chunks : list jsstr) (last : jsstr) :
  content_of m = [] →
  let whole := concat (chunks ++ [last]) in
  ∃ p m' m'', parseThinkTags whole = Ok p ∧
    stream_chunks m (chunks ++ [last]) = Ok m' ∧ content_of m' = whole ∧
    finalizeMessage m' None = Ok m'' ∧ content_of m'' = visibleContent p ∧
    (truthy (parsed_reasoning p) = true →
       option_map reasoning_content (reasoning m'') = Some (parsed_reasoning p)).
Proof.
  intros Hm whole. destruct (parseThinkTags_returns whole) as [p Hp].
  destruct (stream_chunks_content m (chunks ++ [last])) as (m' & E & Hc).
  rewrite Hm in Hc. change (content_of m' = whole) in Hc.
  destruct (finalize_returns m' None) as [m'' Ef].
  exists p, m', m''. split; [done|]. split; [done|]. split; [done|]. split; [done|].
  pose proof Ef as Ef'. apply finalize_spec in Ef as (p' & Hp' & Hv & _).
  rewrite Hc, Hp in Hp'. injection Hp' as <-. split; [done|]. intros Ht.
  rewrite stream_chunks_snoc in E.
  destruct (stream_chunks m chunks) as [m1| |] eqn:E1; [|done|done]. cbn [mbind exc_bind] in E.
  apply process_spec in E as (Hc1 & _ & _ & p1 & Hp1 & _ & Hr).
  rewrite <- Hc1, Hc, Hp in Hp1. injection Hp1 as <-. rewrite Ht in Hr.
  unfold finalizeMessage in Ef'. unfold content_of in Hc. rewrite Hc, Hp in Ef'.
  cbn [mbind exc_bind] in Ef'. injection Ef' as <-. rewrite Hr. simpl.
  unfold str_or. by rewrite Ht; simpl; rewrite Ht.
Qed.

Lemma streaming_equals_whole_witness :
  ∃ p m' m'', parseThinkTags (js "a<think>why</think>b") = Ok p ∧
    stream_chunks (createLoadingAssistantMessage (js "k") (js "v"))
      ([js "a<thi"; js "nk>why</th"] ++ [js "ink>b"]) = Ok m' ∧
    finalizeMessage m' None = Ok m'' ∧ content_of m'' = visibleContent p ∧
    content_of m'' = js "ab".
Proof.
  destruct (streaming_equals_whole (createLoadingAssistantMessage (js "k") (js "v"))
    [js "a<thi"; js "nk>why</th"] (js "ink>b")) as (p & m' & m'' & H1 & H2 & _ & H4 & H5 & _);
    [reflexivity|].
  exists p, m', m''. split; [exact H1|]. split; [exact H2|]. split; [exact H4|].
  split; [exact H5|]. rewrite H5. vm_compute in H1. injection H1 as <-. reflexivity.
Defined.

(** Reasoning of an earlier chunk can outlive the text it came from: an
    empty section whose closing tag is cut between chunks leaves the cut tag
    as the reasoning of the final message, while the whole reply has none. *)
Theorem streaming_stale_reasoning :
  ∃ p m' m'', parseThinkTags (js "<think></think>hi") = Ok p ∧ parsed_reasoning p = [] ∧
    stream_chunks (createLoadingAssistantMessage (js "k") (js "v"))
      [js "<think>"; js "</"; js "think>hi"] = Ok m' ∧
    finalizeMessage m' None = Ok m'' ∧
    option_map reasoning_content (reasoning m'') = Some (js "</").
Proof.
  do 3 eexists. split; [vm_compute; reflexivity|]. split; [reflexivity|].
  split; [vm_compute; reflexivity|]. split; [vm_compute; reflexivity|]. reflexivity.
Qed.

(** Recovering stored messages changes at most one of them, the last one
    that was loading or streaming, and settles it as complete or failed; the
    others, their number and their order stay, and when at most one message
    was unfinished none is left unfinished. *)
Theorem sanitize_settles (messages : list Message) :
  ∃ result, sanitizeMessagesOnLoad messages = Ok result ∧
    length result = length messages ∧
    match find_last_index is_stuck messages with
    | None => result = messages
    | Some i => ∃ m, result !! i = Some m ∧ is_stuck m = false ∧
                     (status m = Some COMPLETE ∨ status m = Some ERROR) ∧
                     ∀ j, j ≠ i → result !! j = messages !! j
    end ∧
    (length (filterb is_stuck messages) ≤ 1 → filterb is_stuck result = []).
Proof. apply sanitize_spec. Qed.
