(* ===== verification/ResultParsers.v ===== *)
(** * Results of media generation

    Model of src/web/default/src/features/media-generation/result-parsers.ts:
    what the console reads out of the answer of the relay, an arbitrary JSON
    value, about an image or a video task.  None of the member names is the
    name of an inherited member, so reading a member is [prop]. *)
From S2P Require Import Prelude JsString JsNumber Regex JsValue.

Open Scope N_scope.

Inductive MediaTaskStatus := Queued | Processing | Completed | Failed | Unknown.

Definition task_status_text (s : MediaTaskStatus) : jsstr :=
  match s with
  | Queued => js "queued" | Processing => js "processing" | Completed => js "completed"
  | Failed => js "failed" | Unknown => js "unknown"
  end.

Record ParsedImageGenerationResult := ImageResult {
  image_id : option jsstr;
  image_taskId : option jsstr;
  image_status : MediaTaskStatus;
  image_imageUrl : option jsstr;
  image_revisedPrompt : option jsstr;
}.

Record ParsedVideoGenerationResult := VideoResult {
  video_id : option jsstr;
  video_taskId : option jsstr;
  video_status : MediaTaskStatus;
  video_upstreamStatus : option jsstr;
  video_videoUrl : option jsstr;
}.

(** ** Reading members *)

Definition asRecord (v : value) : obj := match v with VObj o => o | _ => [] end.

Definition getString (data : obj) (key : jsstr) : option jsstr :=
  match prop key data with VStr s => if truthy (trim s) then Some s else None | _ => None end.

(** [a || b] of optional texts; the texts here are never empty. *)
Definition or_else {A} (a b : option A) : option A := match a with Some x => Some x | None => b end.

(** The first defined one of a chain of alternatives. *)
Fixpoint first_of {A} (l : list (option A)) : option A :=
  match l with [] => None | a :: l => or_else a (first_of l) end.

(** A literal under the [i] flag. *)
Definition ci_lit (l : string) : re := rseq (map (λ d, RChr (λ c, ascii_lower c =? d)) (js l)).
Arguments ci_lit l%_string.

(** [/^https?:\/\/[^\s]+$/i]. *)
Definition http_url_re : re :=
  rseq [ci_lit "http"; ROpt (ci_lit "s"); RLit (js "://"); RPlus (RChr (λ c, negb (is_ws c))); REnd].

(** [/^failed:\s*(.+)$/i]. *)
Definition failed_re : re :=
  rseq [ci_lit "failed:"; RStar (RChr is_ws);
        RGrp 1 (RPlus (RChr (λ c, negb (bool_decide (c ∈ [10; 13; 8232; 8233]))))); REnd].

Fixpoint firstHTTPURL (data : obj) (keys : list jsstr) : option jsstr :=
  match keys with
  | [] => None
  | key :: keys =>
      match getString data key with
      | Some v => if rx_test http_url_re v then Some v else firstHTTPURL data keys
      | None => firstHTTPURL data keys
      end
  end.

Fixpoint first_image_url (l : list value) : option jsstr :=
  match l with
  | [] => None
  | item :: l =>
      let image := asRecord item in
      let url := first_of [getString image (js "url"); getString image (js "image_url");
                           getString image (js "download_url")] in
      match item, url with
      | VStr s, _ => if truthy (trim s) then Some s else first_image_url l
      | _, Some u => Some u
      | _, None => first_image_url l
      end
  end.

Definition getFirstImageArrayURL (v : value) : option jsstr :=
  match v with VArr l => first_image_url l | _ => None end.

Definition getImageURL (data : obj) : option jsstr :=
  first_of [getString data (js "result_url"); getString data (js "image_url");
            getString data (js "url"); getString data (js "output_url");
            getFirstImageArrayURL (prop (js "images") data);
            getFirstImageArrayURL (prop (js "data") data)].

(** ** Statuses *)

Section Parsers.
Context `{CaseMap}.

Definition normalizeMediaTaskStatus (status : option jsstr) : MediaTaskStatus :=
  match status with
  | None => Unknown
  | Some status =>
      let s := to_lower (trim status) in
      if starts_with (js "failed:") s then Failed
      else if includes s [js "queued"; js "pending"; js "submitted"] then Queued
      else if includes s [js "processing"; js "running"; js "in_progress"] then Processing
      else if includes s [js "completed"; js "succeeded"; js "success"] then Completed
      else if includes s [js "failed"; js "cancelled"; js "canceled"] then Failed
      else Unknown
  end.

(** [status?.match(/^failed:\s*(.+)$/i)?.[1]?.trim()], where an empty text
    counts as absent in the chain that uses it. *)
Definition failed_reason (status : option jsstr) : option jsstr :=
  match status with
  | None => None
  | Some s =>
      match rx_match failed_re s with
      | Some g =>
          let t := trim (from_opt [] (cap 1 g)) in if truthy t then Some t else None
      | None => None
      end
  end.

Definition extractMediaErrorMessage (raw : value) : option jsstr :=
  let data := asRecord raw in
  let envelopeData := asRecord (prop (js "data") data) in
  let error := asRecord (prop (js "error") data) in
  let envelopeError := asRecord (prop (js "error") envelopeData) in
  let status := or_else (getString envelopeData (js "status")) (getString data (js "status")) in
  first_of
    [getString error (js "message"); getString envelopeError (js "message");
     getString data (js "error"); getString envelopeData (js "error"); failed_reason status;
     if match prop (js "success") data with VBool false => true | _ => false end
        || match normalizeMediaTaskStatus status with Failed => true | _ => false end
     then first_of [getString data (js "message"); getString envelopeData (js "message");
                    Some (js "Media generation failed")]
     else None].

(** ** Results *)

Definition parseImageGenerationResult (raw : value) : ParsedImageGenerationResult :=
  let data := asRecord raw in
  let envelopeData := asRecord (prop (js "data") data) in
  let source := match envelopeData with [] => data | _ => envelopeData end in
  let firstImage := match prop (js "data") data with VArr (x :: _) => asRecord x | _ => [] end in
  let sourceData := asRecord (prop (js "data") source) in
  let nestedData := asRecord (prop (js "data") sourceData) in
  let b64 := getString firstImage (js "b64_json") in
  let status := or_else (getString source (js "status")) (getString data (js "status")) in
  ImageResult
    (or_else (getString source (js "id")) (getString data (js "id")))
    (first_of [getString source (js "task_id"); getString data (js "task_id");
               getString source (js "id"); getString data (js "id")])
    (normalizeMediaTaskStatus status)
    (first_of [getString firstImage (js "url"); getImageURL source; getImageURL sourceData;
               getImageURL nestedData; option_map (app (js "data:image/png;base64,")) b64])
    (getString firstImage (js "revised_prompt")).

Definition parseVideoGenerationResult (raw : value) : ParsedVideoGenerationResult :=
  let data := asRecord raw in
  let envelopeData := asRecord (prop (js "data") data) in
  let source := match envelopeData with [] => data | _ => envelopeData end in
  let metadata := asRecord (prop (js "metadata") source) in
  let status := or_else (getString source (js "status")) (getString data (js "status")) in
  VideoResult
    (or_else (getString source (js "id")) (getString data (js "id")))
    (first_of [getString source (js "task_id"); getString data (js "task_id");
               getString source (js "id"); getString data (js "id")])
    (normalizeMediaTaskStatus status)
    status
    (or_else
       (firstHTTPURL source [js "url"; js "object"; js "result_url"; js "output_url";
                             js "video_url"; js "content_url"])
       (firstHTTPURL metadata [js "url"; js "result_url"; js "output_url"; js "video_url";
                               js "content_url"])).

End Parsers.

(** ** Examples *)

Example failed_text :
  extractMediaErrorMessage (VObj [(js "status", VStr (js "Failed:  out of quota "))])
  = Some (js "out of quota").
Proof. vm_compute. reflexivity. Qed.

Example image_envelope :
  image_imageUrl (parseImageGenerationResult
    (VObj [(js "data", VObj [(js "images", VArr [VStr (js " "); VObj [(js "url", VStr (js "u"))]])])]))
  = Some (js "u").
Proof. vm_compute. reflexivity. Qed.

Example video_http :
  video_videoUrl (parseVideoGenerationResult
    (VObj [(js "url", VStr (js "javascript:x")); (js "object", VStr (js "video"));
           (js "metadata", VObj [(js "result_url", VStr (js "HTTPS://h/v.mp4"))])]))
  = Some (js "HTTPS://h/v.mp4").
Proof. vm_compute. reflexivity. Qed.

(** ** Facts *)

(** The text starts with [http://] or [https://] in some case and has no
    blanks after it. *)
Definition http_text (u : jsstr) : Prop :=
  ∃ scheme rest, u = scheme ++ js "://" ++ rest ∧ rest ≠ [] ∧
    map ascii_lower scheme ∈ [js "http"; js "https"] ∧ Forall (λ c, is_ws c = false) rest.

Lemma lang_ci l x : lang (rseq (map (λ d, RChr (λ c, ascii_lower c =? d)) l)) x → map ascii_lower x = l.
Proof.
  revert x. induction l as [|d l IH]; intros x Hx; [by rewrite Hx|].
  assert (∃ c y, x = c :: y ∧ ascii_lower c = d ∧
    lang (rseq (map (λ d, RChr (λ c, ascii_lower c =? d)) l)) y) as (c & y & -> & Hc & Hy).
  { destruct l as [|d' l].
    - destruct Hx as (c & -> & Hc). bool_to_prop. by exists c, [].
    - destruct Hx as (y & z & -> & (c & -> & Hc) & Hz). bool_to_prop. by exists c, z. }
  cbn. by rewrite Hc, IH.
Qed.

Lemma http_url_text u : rx_test http_url_re u = true → http_text u.
Proof.
  unfold rx_test. destruct (rx_match http_url_re u) as [g|] eqn:E; [|done]. intros _.
  unfold rx_match, http_url_re in E. cbn [rseq] in E.
  rewrite run_seq in E. apply run_lang in E as (x & s1 & p1 & g1 & -> & Hx & E).
  rewrite run_seq in E. apply run_lang in E as (y & s2 & p2 & g2 & -> & Hy & E).
  rewrite run_seq in E. apply run_lang in E as (z & s3 & p3 & g3 & -> & -> & E).
  rewrite run_seq in E. apply run_lang in E as (w & s4 & p4 & g4 & -> & Hw & E).
  destruct s4 as [|c s4]; [|done]. rewrite app_nil_r.
  apply lang_ci in Hx. exists (x ++ y), w. rewrite app_assoc. split; [done|].
  destruct Hw as (a & b & -> & (c & -> & Hc) & Hb). split; [done|]. split.
  - rewrite map_app, Hx. destruct Hy as [Hy| ->].
    + apply lang_ci in Hy. rewrite Hy. set_solver.
    + rewrite app_nil_r. set_solver.
  - apply Forall_app_2; [repeat constructor; by apply negb_true_iff in Hc|].
    eapply lang_star_all; [|exact Hb]. intros e He. by apply negb_true_iff in He.
Qed.

Lemma firstHTTPURL_text data keys u : firstHTTPURL data keys = Some u → http_text u.
Proof.
  induction keys as [|key keys IH]; [done|]. cbn [firstHTTPURL].
  destruct (getString data key) as [v|]; [|done]. destruct (rx_test http_url_re v) eqn:E; [|done].
  intros [= <-]. by apply http_url_text.
Qed.

Lemma video_url_text `{CaseMap} raw u : video_videoUrl (parseVideoGenerationResult raw) = Some u → http_text u.
Proof.
  unfold parseVideoGenerationResult. cbn [video_videoUrl]. unfold or_else.
  destruct (firstHTTPURL _ _) eqn:E; [intros [= <-]|]; by apply firstHTTPURL_text in E || apply firstHTTPURL_text.
Qed.
