(* ===== verification/ModelIntegration.v ===== *)
(** * What the relay publishes about a model

    Model of src/web/default/src/features/playground/lib/model-integration.ts
    and responses.ts: the endpoints of a model, the group it is used with,
    the reference URLs of a request and the payload of the responses API.

    [new URL] is [UrlApi]; whether a URL carries a user name or a password
    is [url_credentials].  Errors are [Throw]. *)
From S2P Require Import Prelude JsString JsNumber JsValue XjzModels VideoCapabilities VideoReferences ImageOptions Messages.

Open Scope Z_scope.

(** ** Data *)

Record PricingModel := Pricing {
  enable_groups : option (list jsstr);
  supported_endpoint_types : option (list jsstr);
  model_endpoints : option (list MappedEndpoint);
}.

(** [endpoints]: the paths by endpoint type; an inherited member of the
    object has no path. *)
Record PlaygroundModelInfo := ModelInfo {
  info_model : PricingModel;
  info_endpoints : list (jsstr * option jsstr);
}.

Record ModelOption := Option_ { option_value : jsstr; option_info : option PlaygroundModelInfo }.

(** [outputCompression] is [None] for the empty text too: the code treats it
    as absent. *)
Record PlaygroundReferenceSelection := Selection {
  s_quality : option jsstr;
  s_count : option num;
  s_size : option jsstr;
  s_outputFormat : option jsstr;
  s_background : option jsstr;
  s_outputCompression : option num;
  s_aspectRatio : option jsstr;
  s_resolution : option jsstr;
  s_images : option jsstr;
  s_videos : option jsstr;
  s_audios : option jsstr;
}.

(** ** Groups *)

Definition getPlaygroundGroupModels (models : list ModelOption) (group : jsstr) : list ModelOption :=
  if str_eqb group (js "auto") then models
  else filterb (λ m, match option_info m with
                     | Some i => match enable_groups (info_model i) with
                                 | Some groups => includes group groups
                                 | None => true
                                 end
                     | None => true
                     end) models.

(** [groups] are the values of the offered groups. *)
Definition resolvePlaygroundGroup (groups : list jsstr) (models : option (list ModelOption))
    (currentGroup : jsstr) (userGroup : option jsstr) : jsstr :=
  let allowed g := includes g groups in
  let hasModels g :=
    match models with Some ms => negb (bool_decide (getPlaygroundGroupModels ms g = [])) | None => true end in
  if allowed currentGroup && hasModels currentGroup then currentGroup
  else
    let candidates := filterb (λ g, truthy g && allowed g) (option_list userGroup ++ groups) in
    match find_first hasModels candidates with
    | Some g => g
    | None => if allowed currentGroup then currentGroup else from_opt currentGroup (head candidates)
    end.

(** ** Endpoints *)

Definition path_kind (path : jsstr) : jsstr :=
  if str_includes (js "/images/") path then js "image"
  else if str_includes (js "/video") path then js "video" else js "text".

Definition getPlaygroundIntegrations (info : option PlaygroundModelInfo) : list MappedEndpoint :=
  match info with
  | None => []
  | Some i =>
      match model_endpoints (info_model i) with
      | Some (e :: es) => e :: es
      | _ =>
          concat (map (λ type,
            match own (info_endpoints i) type with
            | Some (Some path) =>
                if truthy path then [Endpoint (path_kind path) path None] else []
            | _ => []
            end) (from_opt [] (supported_endpoint_types (info_model i))))
      end
  end.

(** [info?.model.mapped_endpoints?.length]. *)
Definition has_mapped (info : option PlaygroundModelInfo) : bool :=
  match info ≫= (λ i, model_endpoints (info_model i)) with Some (_ :: _) => true | _ => false end.

Definition is_media_kind (k : jsstr) : bool := includes k [js "image"; js "video"].

Definition by_path (path : jsstr) : list MappedEndpoint → option MappedEndpoint :=
  find_first (λ e, str_eqb (endpoint_path e) path).

Definition getPlaygroundIntegration (info : option PlaygroundModelInfo) (preferredPath : option jsstr)
    : option MappedEndpoint :=
  let integrations := getPlaygroundIntegrations info in
  let preferred := preferredPath ≫= λ p, by_path p integrations in
  let generation :=
    match preferred with Some e => Some e | None => by_path (js "/v1/images/generations") integrations end in
  let edit := by_path (js "/v1/images/edits") integrations ≫= parameters in
  let other :=
    match preferred with
    | Some e => Some e
    | None =>
        if has_mapped info then
          match find_first (λ e, is_media_kind (endpoint_kind e)) integrations with
          | Some e => Some e
          | None => head integrations
          end
        else head integrations
    end in
  match generation with
  | Some g =>
      match parameters g, edit with
      | Some gp, Some ep =>
          if str_eqb (endpoint_path g) (js "/v1/images/generations") && edits_images edit
          then Some (Endpoint (endpoint_kind g) (endpoint_path g)
                       (Some (with_edit_images gp ep (js "image[]"))))
          else other
      | _, _ => other
      end
  | None => other
  end.

(** ** References *)

(** [value.split(/\s+/).filter(Boolean)]: [word] is the word being read. *)
Fixpoint words_from (word s : jsstr) : list jsstr :=
  match s with
  | [] => if truthy word then [word] else []
  | c :: s =>
      if is_ws c then (if truthy word then [word] else []) ++ words_from [] s
      else words_from (word ++ [c]) s
  end.
Definition words (s : jsstr) : list jsstr := words_from [] s.

Class UrlCredentials := url_credentials : jsstr → bool.

Section References.
Context `{CaseMap} `{UrlApi} `{UrlCredentials}.

Definition plain_url (u : jsstr) : bool := VideoReferences.isHTTPURL u && negb (url_credentials u).

Definition parsePlaygroundReferenceURLs (value : option jsstr) : exc (list jsstr) :=
  let urls := words (from_opt [] value) in
  if forallb plain_url urls then Ok urls else Throw.

(** The URLs of one kind: the field, the largest number and the URLs. *)
Definition set_references (payload : obj) (r : list jsstr * option jsstr * Z) : exc obj :=
  let '(urls, field, max) := r in
  match urls with
  | [] => Ok payload
  | _ =>
      match field with
      | Some f =>
          if negb (truthy f) || (max <? Z.of_nat (length urls)) then Throw
          else Ok (obj_set f (urls_value f urls) payload)
      | None => Throw
      end
  end.

Definition nonempty {A} (l : list A) : bool := match l with [] => false | _ => true end.

Definition buildPlaygroundReferences (p : IntegrationParameters) (images videos audios : option jsstr)
    : exc obj :=
  images ← parsePlaygroundReferenceURLs images;
  videos ← parsePlaygroundReferenceURLs videos;
  audios ← parsePlaygroundReferenceURLs audios;
  if p_audio_requires_image p && nonempty audios && negb (nonempty images) then Throw
  else if Z.of_nat (length images) <? from_opt 0 (p_min_images p) then Throw
  else if p_audio_needs_image p && nonempty audios && negb (nonempty images) && negb (nonempty videos)
  then Throw
  else
    o ← set_references [] (images, p_image_field p, p_max_images p);
    o ← set_references o (videos, p_video_field p, p_max_videos p);
    set_references o (audios, p_audio_field p, p_max_audios p).

Definition resolveIntegrationChoice (value : option jsstr) (choices : option (list jsstr))
    : option jsstr :=
  match choices with
  | None => None
  | Some choices =>
      match value ≫= λ v, find_first (λ c, str_eqb (to_lower c) (to_lower v)) choices with
      | Some c => Some c
      | None => head choices
      end
  end.

End References.

(** ** The responses API *)

(** [{...extraBody, model, group, input, stream: false}]. *)
Definition buildPlaygroundResponsesPayload (model group : jsstr) (messages : list Message)
    (extraBody : obj) : obj :=
  fold_left (λ o kv, obj_set kv.1 kv.2 o)
    [(js "model", VStr model); (js "group", VStr group);
     (js "input", VArr (map api_message_value (map formatMessageForAPI (filterb isValidMessage messages))));
     (js "stream", VBool false)] extraBody.

(** [JSON.stringify(v, null, 2)] inside a text indented by [indent]. *)
Definition lines_between (indent opening closing : jsstr) (l : list jsstr) : jsstr :=
  match l with
  | [] => opening ++ closing
  | _ =>
      let inner := [10%N] ++ indent ++ js "  " in
      opening ++ inner ++ join (js "," ++ inner) l ++ [10%N] ++ indent ++ closing
  end.

Fixpoint stringify_lines (indent : jsstr) (v : value) : option jsstr :=
  match v with
  | VArr l =>
      Some (lines_between indent (js "[") (js "]")
              (map (λ v, from_opt (js "null") (stringify_lines (indent ++ js "  ") v)) l))
  | VObj o =>
      Some (lines_between indent (js "{") (js "}")
        ((fix go (o : obj) : list jsstr :=
            match o with
            | [] => []
            | (k, v) :: o =>
                match stringify_lines (indent ++ js "  ") v with
                | Some s => (quote k ++ js ": " ++ s) :: go o
                | None => go o
                end
            end) o))
  | _ => stringify v
  end.

(** The non-empty texts of the parts of an item of [output]. *)
Definition item_texts (item : value) : list jsstr :=
  match item with
  | VObj o =>
      match prop (js "content") o with
      | VArr parts =>
          concat (map (λ part,
            match part with
            | VObj p => match prop (js "text") p with VStr (c :: t) => [c :: t] | _ => [] end
            | _ => []
            end) parts)
      | _ => []
      end
  | _ => []
  end.

Definition response_texts (output : value) : list jsstr :=
  match output with VArr items => concat (map item_texts items) | _ => [] end.

Definition parsePlaygroundResponsesText (raw : value) : jsstr :=
  match raw with
  | VObj data =>
      match prop (js "output_text") data with
      | VStr (c :: t) => c :: t
      | _ =>
          match response_texts (prop (js "output") data) with
          | [] => from_opt [] (stringify_lines [] raw)
          | parts => join [10%N] parts
          end
      end
  | VArr _ => from_opt [] (stringify_lines [] raw)
  | _ => from_opt [] (stringify raw)
  end.

Example responses_parts :
  parsePlaygroundResponsesText
    (VObj [(js "output", VArr [VObj [(js "content", VArr [VObj [(js "text", VStr (js "a"))]; VNull])];
                               VObj [(js "content", VArr [VObj [(js "text", VStr (js "b"))]])]])])
  = js "a" ++ [10%N] ++ js "b".
Proof. reflexivity. Qed.

Example responses_other :
  parsePlaygroundResponsesText (VObj [(js "a", VArr [VNum (of_Z 1)]); (js "b", VObj [])])
  = js "{" ++ [10%N] ++ jsq "  'a': [" ++ [10%N] ++ js "    1" ++ [10%N] ++ js "  ]," ++ [10%N]
    ++ jsq "  'b': {}" ++ [10%N] ++ js "}".
Proof. vm_compute. reflexivity. Qed.
