(* ===== verification/MediaPolling.v ===== *)
(** * Polling of a media task

    Model of src/web/default/src/features/playground/lib/media-task-polling.ts:
    the loop that asks for the state of a submitted image or video task until
    it is finished, it fails for good, the request is aborted or half an hour
    has passed, with the delays between the questions.

    The clock, the timer, the abort signal and the HTTP call are the
    environment: a type of worlds with the operations of [Env].  What the
    theorems need of it is stated in [ClockLaws] and [AbortLaws].  Times are
    milliseconds.  The calls of [onProgress] and the waits are recorded in a
    log. *)
From S2P Require Import Prelude JsString JsNumber JsValue Messages.

Open Scope Z_scope.

(** ** Data *)

Record PlaygroundMediaResult := MediaResult {
  result_mode : MediaType;
  result_content : jsstr;
  result_taskId : option jsstr;
  result_status : option jsstr;
  result_mediaUrl : option jsstr;
}.

(** The fields of a failed call that the loop reads. *)
Record PollError := PollFailure { response_status : option Z; isAxiosError : bool }.

(** The environment: [clock] is [now()], [do_wait] is [wait(ms, signal)] and
    tells whether the wait ended (otherwise it was rejected by the abort),
    [is_aborted] is [signal.aborted], [do_fetch] is [fetch(taskId)]. *)
Class Env (W : Type) := {
  clock : W → Z;
  do_wait : Z → W → bool * W;
  is_aborted : W → bool;
  do_fetch : jsstr → W → (PollError + PlaygroundMediaResult) * W;
}.

(** A timer does not fire early and the clock does not go back. *)
Class ClockLaws (W : Type) `{Env W} := {
  wait_advances : ∀ ms w w', do_wait ms w = (true, w') → clock w + ms ≤ clock w';
  fetch_advances : ∀ id w r w', do_fetch id w = (r, w') → clock w ≤ clock w';
}.

(** An aborted signal stays aborted and makes waits and calls fail. *)
Class AbortLaws (W : Type) `{Env W} := {
  wait_rejected : ∀ ms w w', do_wait ms w = (false, w') → is_aborted w' = true;
  aborted_wait : ∀ ms w, is_aborted w = true → (do_wait ms w).1 = false;
  aborted_fetch : ∀ id w r w', do_fetch id w = (inr r, w') → is_aborted w' = false;
}.

Inductive poll_action := PWait (ms : Z) | PFetch | PProgress (r : PlaygroundMediaResult).

Inductive poll_outcome :=
  | PReturned (r : PlaygroundMediaResult)
  | PAborted
  | PFailed (e : PollError).

(** ** The loop *)

Definition poll_timeout : Z := 30 * 60000.

Definition poll_delay (failures : Z) : Z := Z.min 30000 (5000 * 2 ^ failures).

(** [Boolean(x)] of an optional text. *)
Definition opt_truthy (o : option jsstr) : bool :=
  match o with Some s => truthy s | None => false end.

Definition poll_finished (r : PlaygroundMediaResult) : bool :=
  opt_truthy (result_mediaUrl r) || bool_decide (result_status r = Some (js "completed"))
  || bool_decide (result_status r = Some (js "failed")).

(** An HTTP status that is worth another attempt; without one (or with 0),
    only a failure of the transport is. *)
Definition retryable (e : PollError) : bool :=
  match response_status e with
  | Some s =>
      if s =? 0 then isAxiosError e
      else (s =? 408) || (s =? 409) || (s =? 425) || (s =? 429) || (500 <=? s)
  | None => isAxiosError e
  end.

Definition with_taskId (id : option jsstr) (r : PlaygroundMediaResult) : PlaygroundMediaResult :=
  MediaResult (result_mode r) (result_content r) id (result_status r) (result_mediaUrl r).

Section Poll.
Context {W : Type} `{Env W}.

Definition poll_state : Type := poll_outcome * list poll_action * W.

(** The actions of a round before those of the rest. *)
Definition after (actions : list poll_action) (rest : exc poll_state) : exc poll_state :=
  r ← rest; let '(o, log, w) := r in Ok (o, actions ++ log, w).

Fixpoint poll_loop (fuel : nat) (taskId : jsstr) (timeout started : Z)
    (latest : PlaygroundMediaResult) (failures : Z) (w : W) : exc poll_state :=
  match fuel with
  | O => Fuel
  | S fuel =>
      if clock w - started <? timeout then
        let delay := poll_delay failures in
        let '(waited, w1) := do_wait delay w in
        if negb waited || is_aborted w1 then Ok (PAborted, [PWait delay], w1)
        else
          let '(r, w2) := do_fetch taskId w1 in
          match r with
          | inr r =>
              let latest := with_taskId (Some taskId) r in
              after [PWait delay; PFetch; PProgress latest]
                (if poll_finished latest then Ok (PReturned latest, [], w2)
                 else poll_loop fuel taskId timeout started latest 0 w2)
          | inl e =>
              after [PWait delay; PFetch]
                (if is_aborted w2 then Ok (PAborted, [], w2)
                 else if retryable e
                 then poll_loop fuel taskId timeout started latest (Z.min (failures + 1) 3) w2
                 else Ok (PFailed e, [], w2))
          end
      else Ok (PReturned latest, [], w)
  end.

(** Every round waits at least five seconds, which bounds the rounds. *)
Definition poll_rounds (timeout : Z) : nat := Z.to_nat ((timeout + 4999) / 5000).

Definition pollPlaygroundTask (initial : PlaygroundMediaResult) (timeoutMs : option Z) (w : W)
    : exc poll_state :=
  match result_taskId initial with
  | Some id =>
      if negb (truthy id) || opt_truthy (result_mediaUrl initial) then Ok (PReturned initial, [], w)
      else
        let timeout := from_opt poll_timeout timeoutMs in
        poll_loop (S (poll_rounds timeout)) id timeout (clock w) initial 0 w
  | None => Ok (PReturned initial, [], w)
  end.

(** ** What a log looks like *)

Definition is_fetch (a : poll_action) : bool := match a with PFetch => true | _ => false end.
Definition fetches (log : list poll_action) : nat := length (filterb is_fetch log).

(** Rounds with the delay of the failures so far: a success resets it, a
    failure doubles it up to the limit. *)
Inductive poll_log : Z → list poll_action → Prop :=
| log_end f : poll_log f []
| log_wait f : poll_log f [PWait (poll_delay f)]
| log_success f r log : poll_log 0 log → poll_log f (PWait (poll_delay f) :: PFetch :: PProgress r :: log)
| log_failure f log :
    poll_log (Z.min (f + 1) 3) log → poll_log f (PWait (poll_delay f) :: PFetch :: log).

(** The last reported state. *)
Fixpoint last_progress (initial : PlaygroundMediaResult) (log : list poll_action)
    : PlaygroundMediaResult :=
  match log with
  | [] => initial
  | PProgress r :: log => last_progress r log
  | _ :: log => last_progress initial log
  end.

(** Induction over the rounds: a property of the outcome that holds for each
    end of the loop and is kept by each kind of round holds for every outcome. *)
Lemma poll_loop_ind (id : jsstr) (timeout started : Z)
    (P : PlaygroundMediaResult → Z → W → poll_state → Prop) :
  (∀ l f w, timeout ≤ clock w - started → P l f w (PReturned l, [], w)) →
  (∀ l f w b w1, clock w - started < timeout → do_wait (poll_delay f) w = (b, w1) → b = false ∨ is_aborted w1 = true →
     P l f w (PAborted, [PWait (poll_delay f)], w1)) →
  (∀ l f w w1 r w2, clock w - started < timeout →
     do_wait (poll_delay f) w = (true, w1) → do_fetch id w1 = (inr r, w2) →
     let r' := with_taskId (Some id) r in
     (poll_finished r' = true →
        P l f w (PReturned r', [PWait (poll_delay f); PFetch; PProgress r'], w2)) ∧
     (poll_finished r' = false → ∀ o log w3, P r' 0 w2 (o, log, w3) →
        P l f w (o, PWait (poll_delay f) :: PFetch :: PProgress r' :: log, w3))) →
  (∀ l f w w1 e w2, clock w - started < timeout →
     do_wait (poll_delay f) w = (true, w1) → do_fetch id w1 = (inl e, w2) →
     (is_aborted w2 = true → P l f w (PAborted, [PWait (poll_delay f); PFetch], w2)) ∧
     (retryable e = false → P l f w (PFailed e, [PWait (poll_delay f); PFetch], w2)) ∧
     (retryable e = true → is_aborted w2 = false → ∀ o log w3, P l (Z.min (f + 1) 3) w2 (o, log, w3) →
        P l f w (o, PWait (poll_delay f) :: PFetch :: log, w3))) →
  ∀ fuel l f w st, poll_loop fuel id timeout started l f w = Ok st → P l f w st.
Proof.
  intros Hend Hab Hok Herr fuel. induction fuel as [|fuel IH]; intros l f w st; simpl; [done|].
  destruct (_ <? timeout) eqn:Et; [|intros [= <-]; apply Hend; bool_to_prop; lia].
  apply Z.ltb_lt in Et.
  destruct (do_wait _ w) as [b w1] eqn:Ew. destruct (negb b || is_aborted w1) eqn:Eb.
  { intros [= <-]. eapply Hab; [exact Et|exact Ew|]. apply orb_true_iff in Eb as [Eb|Eb]; [left|by right].
    by destruct b. }
  apply orb_false_iff in Eb as [Eb Ea]. destruct b; [|done].
  destruct (do_fetch id w1) as [[e|r] w2] eqn:Ef.
  - destruct (Herr l f w w1 e w2 Et Ew Ef) as (H1 & H2 & H3).
    destruct (is_aborted w2); [intros [= <-]; by apply H1|].
    destruct (retryable e); [|intros [= <-]; by apply H2].
    destruct (poll_loop _ _ _ _ _ _ _) as [[[o log] w3]| |] eqn:E; [|done|done].
    intros [= <-]. apply H3; [done|done|]. by apply IH.
  - destruct (Hok l f w w1 r w2 Et Ew Ef) as [H1 H2].
    destruct (poll_finished _); [intros [= <-]; by apply H1|].
    destruct (poll_loop _ _ _ _ _ _ _) as [[[o log] w3]| |] eqn:E; [|done|done].
    intros [= <-]. apply H2; [done|]. by apply IH.
Qed.

Lemma poll_delay_bounds f : 0 ≤ f → 5000 ≤ poll_delay f ≤ 30000.
Proof.
  intros Hf. unfold poll_delay. assert (1 ≤ 2 ^ f) by (apply (Z.pow_le_mono_r 2 0 f); lia). lia.
Qed.

Lemma after_returns l m : returns m → returns (after l m).
Proof. intros [[[o log] w] ->]. ret. Qed.

(** The loop ends within the rounds that fit into the rest of the time. *)
Lemma poll_loop_returns `{!ClockLaws W} n id timeout started l f w :
  0 ≤ f → timeout - (clock w - started) ≤ 5000 * Z.of_nat n →
  returns (poll_loop (S n) id timeout started l f w).
Proof.
  revert l f w. induction n as [|n IH]; intros l f w Hf Hn; cbn [poll_loop].
  - destruct (_ <? timeout) eqn:E; [bool_to_prop; lia|ret].
  - destruct (_ <? timeout) eqn:Et; [|ret]. destruct (do_wait _ w) as [b w1] eqn:Ew.
    destruct (negb b || is_aborted w1) eqn:Eb; [ret|].
    apply orb_false_iff in Eb as [Eb _]. destruct b; [|done]. apply wait_advances in Ew.
    pose proof (poll_delay_bounds f Hf).
    destruct (do_fetch id w1) as [[e|r] w2] eqn:Ef; apply after_returns; apply fetch_advances in Ef.
    + destruct (is_aborted w2); [ret|]. destruct (retryable e); [|ret]. apply IH; lia.
    + destruct (poll_finished _); [ret|]. apply IH; lia.
Qed.

Lemma fetches_wait ms log : fetches (PWait ms :: log) = fetches log.
Proof. done. Qed.

Lemma fetches_cons log : fetches (PFetch :: log) = S (fetches log).
Proof. done. Qed.

Lemma fetches_progress r log : fetches (PProgress r :: log) = fetches log.
Proof. done. Qed.

Lemma poll_loop_fetches `{!ClockLaws W} fuel id timeout started l f w st :
  poll_loop fuel id timeout started l f w = Ok st → 0 ≤ f →
  5000 * (Z.of_nat (fetches st.1.2) - 1) < Z.max 0 (timeout - (clock w - started)).
Proof.
  revert fuel l f w st.
  apply (poll_loop_ind id timeout started (λ l f w st, 0 ≤ f →
    5000 * (Z.of_nat (fetches st.1.2) - 1) < Z.max 0 (timeout - (clock w - started)))); simpl.
  - intros. unfold fetches. simpl. lia.
  - intros. unfold fetches. simpl. lia.
  - intros l f w w1 r w2 Et Ew%wait_advances Ef%fetch_advances. split; [intros; unfold fetches; simpl; lia|].
    intros _ o log w3 IH Hf. pose proof (poll_delay_bounds f Hf).
    rewrite fetches_wait, fetches_cons, fetches_progress. lia.
  - intros l f w w1 e w2 Et Ew%wait_advances Ef%fetch_advances. 
    split; [intros; unfold fetches; simpl; lia|]. split; [intros; unfold fetches; simpl; lia|].
    intros _ _ o log w3 IH Hf. pose proof (poll_delay_bounds f Hf).
    rewrite fetches_wait, fetches_cons. lia.
Qed.

Lemma poll_loop_log fuel id timeout started l f w st :
  poll_loop fuel id timeout started l f w = Ok st → poll_log f st.1.2.
Proof.
  revert fuel l f w st. apply (poll_loop_ind id timeout started (λ _ f _ st, poll_log f st.1.2)); simpl.
  - intros. constructor.
  - intros. constructor.
  - intros l f w w1 r w2 _ _ _. split; [intros; repeat constructor|]. intros. by constructor.
  - intros l f w w1 e w2 _ _ _. split; [intros; repeat constructor|].
    split; [intros; repeat constructor|]. intros. by constructor.
Qed.

(** The outcome of the loop. *)
Definition outcome_ok (id : jsstr) (timeout started : Z) (l : PlaygroundMediaResult)
    (st : poll_state) : Prop :=
  match st with
  | (PReturned r, log, w') =>
      r = last_progress l log ∧ (poll_finished r = true ∨ timeout ≤ clock w' - started) ∧
      (result_taskId l = Some id → result_taskId r = Some id)
  | (PAborted, _, w') => is_aborted w' = true
  | (PFailed e, _, _) => retryable e = false
  end.

Lemma poll_loop_outcome `{!AbortLaws W} fuel id timeout started l f w st :
  poll_loop fuel id timeout started l f w = Ok st → outcome_ok id timeout started l st.
Proof.
  revert fuel l f w st.
  apply (poll_loop_ind id timeout started (λ l _ _ st, outcome_ok id timeout started l st)); simpl.
  - auto.
  - intros l f w b w1 _ Ew [->|Ha]; [by apply wait_rejected in Ew|done].
  - intros l f w w1 r w2 _ _ _. split; [by auto|]. intros _ [] log w3; simpl; [|done|done].
    intros (H1 & H2 & H3). split; [done|]. split; [done|]. intros _. by apply H3.
  - intros l f w w1 e w2 _ _ _. split; [done|]. split; [done|]. by intros _ _ [] log w3.
Qed.

(** The delays of a log that starts after [f] failures. *)
Lemma poll_log_delays f log ms :
  poll_log f log → 0 ≤ f → PWait ms ∈ log → 5000 ≤ ms ≤ 30000.
Proof.
  intros Hl. revert ms. induction Hl as [f|f|f r log Hl IH|f log Hl IH]; intros ms Hf Hin.
  - by apply elem_of_nil in Hin.
  - apply list_elem_of_singleton in Hin as [= ->]. by apply poll_delay_bounds.
  - apply elem_of_cons in Hin as [[= ->]|Hin]; [by apply poll_delay_bounds|].
    apply IH; [lia|]. by apply elem_of_cons in Hin as [|[|?]%elem_of_cons].
  - apply elem_of_cons in Hin as [[= ->]|Hin]; [by apply poll_delay_bounds|].
    apply IH; [lia|]. by apply elem_of_cons in Hin as [|?].
Qed.

End Poll.

(** A world with exact timers, no abort and the answers given beforehand. *)
Definition script : Type := Z * list (PollError + PlaygroundMediaResult).

#[local] Instance script_env : Env script := {
  clock := fst;
  do_wait ms w := (true, (w.1 + Z.max 0 ms, w.2));
  is_aborted _ := false;
  do_fetch _ w := match w.2 with
                  | r :: l => (r, (w.1, l))
                  | [] => (inl (PollFailure None false), w)
                  end;
}.

#[local] Instance script_clock : ClockLaws script.
Proof.
  split; simpl.
  - intros ms w w' [= <-]. simpl. lia.
  - intros _ [c [|r l]] r' w'; simpl; intros [= _ <-]; simpl; lia.
Qed.

#[local] Instance script_abort : AbortLaws script.
Proof. by split. Qed.

Definition submitted : PlaygroundMediaResult := MediaResult MediaVideo (js "queued") (Some (js "t1")) None None.
Definition video_done : PlaygroundMediaResult :=
  MediaResult MediaVideo (js "done") None (Some (js "completed")) (Some (js "/v")).

(** Two failures of the transport and a finished video. *)
Definition sample_script : script :=
  (0, [inl (PollFailure (Some 503) true); inl (PollFailure None true); inr video_done]).

Definition sample_log : list poll_action :=
  [PWait 5000; PFetch; PWait 10000; PFetch; PWait 20000; PFetch;
   PProgress (with_taskId (Some (js "t1")) video_done)].

(** ** Properties *)

(** C29.  Polling ends: in an environment whose timers do not fire early and
    whose clock does not go back, the call returns or fails, after at most
    [timeout / 5000] questions (rounded up; 360 for the default half hour).
    Its waits last between 5 and 30 seconds, the delay doubles with each
    failure in a row and goes back to 5 seconds after an answer. *)
Theorem poll_terminates {W} `{Env W} `{!ClockLaws W} (initial : PlaygroundMediaResult)
    (timeoutMs : option Z) (w : W) :
  ∃ o log w', pollPlaygroundTask initial timeoutMs w = Ok (o, log, w') ∧
    (fetches log ≤ poll_rounds (from_opt poll_timeout timeoutMs))%nat ∧
    poll_log 0 log ∧ ∀ ms, PWait ms ∈ log → 5000 ≤ ms ≤ 30000.
Proof.
  unfold pollPlaygroundTask. set (timeout := from_opt poll_timeout timeoutMs).
  assert (∀ o : poll_outcome, ∃ o' log w', Ok (o, [], w) = Ok (o', log, w') ∧
    (fetches log ≤ poll_rounds timeout)%nat ∧ poll_log 0 log ∧
    ∀ ms, PWait ms ∈ log → 5000 ≤ ms ≤ 30000) as Hno.
  { intros o. exists o, [], w. split; [done|]. split; [unfold fetches; simpl; lia|].
    split; [constructor|]. intros ms Hms. by apply elem_of_nil in Hms. }
  destruct (result_taskId initial) as [id|]; [|apply Hno]. destruct (_ || _); [apply Hno|].
  assert (timeout ≤ 5000 * Z.of_nat (poll_rounds timeout)) as Hr.
  { unfold poll_rounds. pose proof (Z.div_mod (timeout + 4999) 5000).
    pose proof (Z.mod_pos_bound (timeout + 4999) 5000). lia. }
  destruct (poll_loop_returns (poll_rounds timeout) id timeout (clock w) initial 0 w)
    as [[[o log] w'] E]; [lia|lia|].
  exists o, log, w'. split; [done|].
  pose proof (poll_loop_fetches _ _ _ _ _ _ _ _ E ltac:(lia)) as Hf.
  pose proof (poll_loop_log _ _ _ _ _ _ _ _ E) as Hl. simpl in Hf, Hl.
  split; [|split; [done|intros ms Hms; by eapply poll_log_delays; [exact Hl|lia|]]].
  apply Nat2Z.inj_le. destruct (Z.le_gt_cases (Z.of_nat (fetches log)) 0); lia.
Qed.

Lemma poll_terminates_witness :
  ∃ o log w', pollPlaygroundTask submitted None sample_script = Ok (o, log, w') ∧
    (fetches log ≤ 360)%nat ∧ log = sample_log.
Proof.
  destruct (poll_terminates submitted None sample_script) as (o & log & w' & E & Hf & _).
  exists o, log, w'. split; [exact E|]. split; [exact Hf|].
  vm_compute in E. injection E as _ <- _. reflexivity.
Defined.

(** C30.  What polling returns is the last state that was reported (the
    submitted one if none was), and it is finished unless the time is over; it
    keeps the task id.  Polling is rejected only when the signal is aborted or
    for a failure that another attempt would not mend, and a signal that is
    aborted from the start lets no question through. *)
Theorem poll_result {W} `{Env W} `{!AbortLaws W} (initial : PlaygroundMediaResult)
    (timeoutMs : option Z) (id : jsstr) (w : W) (st : poll_state) :
  result_taskId initial = Some id → truthy id = true → opt_truthy (result_mediaUrl initial) = false →
  pollPlaygroundTask initial timeoutMs w = Ok st →
  let timeout := from_opt poll_timeout timeoutMs in
  match st with
  | (PReturned r, log, w') =>
      r = last_progress initial log ∧ result_taskId r = Some id ∧
      (poll_finished r = true ∨ clock w + timeout ≤ clock w')
  | (PAborted, _, w') => is_aborted w' = true
  | (PFailed e, _, _) => retryable e = false
  end ∧ (is_aborted w = true → 0 < timeout → st.1 = (PAborted, [PWait 5000])).
Proof.
  intros Hid Ht Hu. unfold pollPlaygroundTask. rewrite Hid, Ht, Hu. cbn [negb orb].
  set (timeout := from_opt poll_timeout timeoutMs). intros E. split.
  - apply poll_loop_outcome in E. destruct st as [[[r| |e] log] w']; simpl in *; [|done|done].
    destruct E as (H1 & H2 & H3). split; [done|]. split; [by apply H3|].
    destruct H2; [by left|right; lia].
  - intros Ha Hpos. cbn [poll_loop] in E.
    replace (clock w - clock w) with 0 in E by lia.
    replace (0 <? timeout) with true in E by (symmetry; apply Z.ltb_lt; lia).
    pose proof (aborted_wait (poll_delay 0) w Ha) as Hw.
    destruct (do_wait (poll_delay 0) w) as [b w1]. simpl in Hw. subst b.
    injection E as <-. done.
Qed.

Lemma poll_result_witness :
  ∃ r w', pollPlaygroundTask submitted None sample_script = Ok (PReturned r, sample_log, w') ∧
    r = last_progress submitted sample_log ∧ poll_finished r = true.
Proof.
  pose (r := with_taskId (Some (js "t1")) video_done).
  assert (pollPlaygroundTask submitted None sample_script
          = Ok (PReturned r, sample_log, (35000, []))) as E by (vm_compute; reflexivity).
  exists r, (35000, []). split; [exact E|].
  destruct (poll_result submitted None (js "t1") sample_script _ eq_refl eq_refl eq_refl E)
    as [(H1 & _ & _) _].
  split; [exact H1|reflexivity].
Defined.
