(* ===== verification/MediaRouting.v ===== *)
(** * Routing of playground media requests

    Model of src/web/default/src/features/playground/lib/media-routing.ts:
    whether a model makes chats, images or videos, the endpoint of a request,
    its body, and how an answer becomes a result of the playground.

    The numbers of a contract are integers (Go [int]); widths and heights are
    integers too, since only safe ones pass and products are compared with
    such numbers.  Errors are [Throw]. *)
From S2P Require Import Prelude JsString JsNumber Regex JsValue JsonFacts XjzModels VideoCapabilities VideoOptions VideoReferences VideoRequest ImageOptions Messages ResultParsers ModelIntegration MediaPolling.

Open Scope Z_scope.

(** ** Data *)

Inductive PlaygroundMediaMode := MChat | MImage | MVideo.
Inductive PlaygroundImageEndpoint := IAuto | ISync | IAsync.
Inductive PlaygroundVideoEndpoint := VAuto | VStandard | VAsync.

#[export] Instance media_mode_eq_dec : EqDecision PlaygroundMediaMode.
Proof. solve_decision. Defined.
#[export] Instance image_endpoint_eq_dec : EqDecision PlaygroundImageEndpoint.
Proof. solve_decision. Defined.

Definition mode_text (m : PlaygroundMediaMode) : jsstr :=
  match m with MChat => js "chat" | MImage => js "image" | MVideo => js "video" end.

(** [resolution] and the resolved [duration] can be undefined. *)
Record PlaygroundVideoSelection := VideoSelection {
  vs_aspectRatio : jsstr;
  vs_duration : option jsstr;
  vs_resolution : option jsstr;
}.

Record VideoChoices := Choices {
  ch_aspectRatios : list jsstr;
  ch_durations : list jsstr;
  ch_resolutions : list jsstr;
  ch_manualDuration : bool;
}.

Definition IMAGE_GENERATIONS : jsstr := js "/api/creation/images/generations".
Definition IMAGE_ASYNC_GENERATIONS : jsstr := js "/api/creation/images/async-generations".
Definition VIDEO_ASYNC_GENERATIONS : jsstr := js "/api/creation/video/async-generations".
Definition VIDEO_GENERATIONS : jsstr := js "/api/creation/videos".

Definition FALLBACK_VIDEO_RATIOS : list jsstr :=
  strs ["16:9"; "9:16"; "1:1"; "4:3"; "3:4"; "2:3"; "3:2"; "21:9"].
Definition SD25_VIDEO_RATIOS : list jsstr := strs ["16:9"; "9:16"; "1:1"; "4:3"; "3:4"].
Definition SD25_VIDEO_DURATIONS : list jsstr := map (λ i, dec (N.of_nat (i + 4))) (seq 0 27).
Definition FALLBACK_VIDEO_SIZES : list (jsstr * jsstr) :=
  [(js "16:9", js "1920x1080"); (js "9:16", js "1080x1920"); (js "1:1", js "1080x1080");
   (js "4:3", js "1440x1080"); (js "3:4", js "1080x1440"); (js "2:3", js "1080x1620");
   (js "3:2", js "1620x1080"); (js "21:9", js "2520x1080")].

Definition VIDEO_MODEL_NAMES : list jsstr :=
  strs ["video-2.0"; "video-2.0-fast"; "video-2.0-mini"; "video-2.0-480p"; "video-2.0-fast-480p";
        "video-2.0-mini-480p"; "sora2"; "videos-standard"; "videos-fast"; "videos-mini"; "sd2-mini";
        "sd2-fast"; "sd2满血"; "sd-2.0-933"; "ko3"; "kling-v3"].
Definition IMAGE_MODEL_NAMES : list jsstr := strs ["gpt-image2"; "seedream-5-0"].

(** ** Modes and endpoints *)

Section Routing.
Context `{CaseMap}.

Definition normalizeModelName (model : jsstr) : jsstr := trim (strip_prefix (to_lower (trim model))).

Definition video_name (n : jsstr) : bool :=
  includes n VIDEO_MODEL_NAMES
  || existsb (λ p, starts_with (js p) n)
       ["video-"; "videos-"; "sd2-"; "sd-2.0-"; "sd-2.5"; "sora"; "veo"; "omni-video-"]%string
  || existsb (λ p, str_includes (js p) n) ["sd2.5"; "kling"; "grok-imagine-video"]%string.

Definition image_name (n : jsstr) : bool :=
  includes n IMAGE_MODEL_NAMES
  || existsb (λ p, str_includes (js p) n) ["gpt-image"; "nano-banana"; "imagen"]%string.

Definition getPlaygroundModelMode (model : jsstr) (info : option PlaygroundModelInfo)
    : PlaygroundMediaMode :=
  let kind := match getPlaygroundIntegration info None with Some e => endpoint_kind e | None => [] end in
  if str_eqb kind (js "image") then MImage
  else if str_eqb kind (js "video") then MVideo
  else if is_some (getXJZVideoModelSpec model) then MVideo
  else
    let n := normalizeModelName model in
    if negb (truthy n) then MChat
    else if video_name n then MVideo
    else if image_name n then MImage else MChat.

(** The selected mode; [None] is [auto]. *)
Definition resolvePlaygroundMode (model : jsstr) (mode : option PlaygroundMediaMode)
    (info : option PlaygroundModelInfo) : PlaygroundMediaMode :=
  match mode with Some m => m | None => getPlaygroundModelMode model info end.

Definition getPlaygroundImageEndpointChoices (info : option PlaygroundModelInfo)
    : list PlaygroundImageEndpoint :=
  let image e :=
    str_eqb (endpoint_kind e) (js "image")
    && (ends_with (js "/images/async-generations") (endpoint_path e)
        || ends_with (js "/images/generations") (endpoint_path e)) in
  match filterb image (getPlaygroundIntegrations info) with
  | [] => [IAuto; ISync; IAsync]
  | es =>
      IAuto :: uniq (map (λ e, if ends_with (js "/async-generations") (endpoint_path e) then IAsync
                               else ISync) es)
  end.

Definition resolvePlaygroundImageEndpoint (selection : PlaygroundImageEndpoint)
    (info : option PlaygroundModelInfo) : PlaygroundImageEndpoint :=
  if includes selection (getPlaygroundImageEndpointChoices info) then selection else IAuto.

Definition getPlaygroundMediaEndpoint (model : jsstr) (mode : option PlaygroundMediaMode)
    (imageEndpoint : PlaygroundImageEndpoint) (videoEndpoint : PlaygroundVideoEndpoint)
    (info : option PlaygroundModelInfo) : option jsstr :=
  let resolved := resolvePlaygroundMode model mode info in
  let imageEndpoint := resolvePlaygroundImageEndpoint imageEndpoint info in
  let integration :=
    match getPlaygroundIntegration info None with
    | Some e => if str_eqb (endpoint_kind e) (mode_text resolved) then Some e else None
    | None => None
    end in
  let is_async e := str_includes (js "async-generations") (endpoint_path e) in
  match resolved with
  | MImage =>
      let async :=
        match imageEndpoint, integration with
        | IAuto, Some e => is_async e
        | IAuto, None => usesAsyncCreationImageModel (ModelName model)
        | IAsync, _ => true
        | ISync, _ => false
        end in
      Some (if async then IMAGE_ASYNC_GENERATIONS else IMAGE_GENERATIONS)
  | MVideo =>
      Some (match videoEndpoint, integration with
            | VAuto, Some e => if is_async e then VIDEO_ASYNC_GENERATIONS else VIDEO_GENERATIONS
            | VStandard, _ => VIDEO_GENERATIONS
            | _, _ =>
                if is_some (getXJZVideoModelSpec model) then VIDEO_GENERATIONS
                else VIDEO_ASYNC_GENERATIONS
            end)
  | MChat => None
  end.

(** ** Videos *)

Definition published_parameters (info : option PlaygroundModelInfo) : option IntegrationParameters :=
  getPlaygroundIntegration info None ≫= parameters.

Definition or_fallback (l : list jsstr) : list jsstr :=
  match l with [] => FALLBACK_VIDEO_RATIOS | _ => l end.

Definition getPlaygroundVideoChoices (model : jsstr) (info : option PlaygroundModelInfo)
    : exc VideoChoices :=
  match published_parameters info with
  | Some p =>
      let ds := from_opt [] (p_durations p) in
      Ok (Choices (or_fallback (from_opt [] (p_ratios p))) (map num_to_str ds)
            (from_opt [] (p_resolutions p)) (match ds with [] => true | _ => false end))
  | None =>
      cap ← getCreationVideoCapabilities (ModelName model);
      ds ← getCreationDurationOptions (ModelName model);
      match cap with
      | Own c =>
          rs ← getCreationResolutionOptions (ModelName model);
          Ok (Choices (or_fallback (c_aspectRatios c)) (map d_value ds) (map r_value rs) false)
      | Inherited => Throw
      | Missing =>
          let n := to_lower model in
          if str_includes (js "sd2.5") n || str_eqb n (js "sd-2.5")
          then Ok (Choices SD25_VIDEO_RATIOS SD25_VIDEO_DURATIONS [] false)
          else if starts_with (js "omni-video-1") n
          then Ok (Choices FALLBACK_VIDEO_RATIOS (strs ["3"; "5"; "8"]) [] false)
          else Ok (Choices FALLBACK_VIDEO_RATIOS (map d_value ds) [] false)
      end
  end.

Definition opt_truthy_text (o : option jsstr) : bool :=
  match o with Some s => truthy s | None => false end.

Definition resolve_resolution (model : jsstr) (info : option PlaygroundModelInfo)
    (wanted : option jsstr) (resolutions : list jsstr) : option jsstr :=
  if is_some (published_parameters info) || (opt_truthy_text wanted && nonempty resolutions)
  then resolveIntegrationChoice wanted (Some resolutions)
  else
    match getXJZVideoModelSpec model with
    | Some spec =>
        if selectableResolution spec then
          match wanted with
          | Some w => if includes w (XjzModels.resolutions spec) then Some w
                      else head (XjzModels.resolutions spec)
          | None => head (XjzModels.resolutions spec)
          end
        else None
    | None => None
    end.

Definition resolvePlaygroundVideoSelection (model : jsstr) (selection : PlaygroundVideoSelection)
    (info : option PlaygroundModelInfo) : exc PlaygroundVideoSelection :=
  choices ← getPlaygroundVideoChoices model info;
  let preferred :=
    str_or (from_opt [] (vs_duration selection)) (duration DEFAULT_CREATION_VIDEO_OPTIONS) in
  let duration :=
    if ch_manualDuration choices then Some preferred
    else if includes preferred (ch_durations choices) then Some preferred
    else head (ch_durations choices) in
  let aspectRatio :=
    if includes (vs_aspectRatio selection) (ch_aspectRatios choices) then vs_aspectRatio selection
    else from_opt [] (head (ch_aspectRatios choices)) in
  Ok (VideoSelection aspectRatio duration
        (resolve_resolution model info (vs_resolution selection) (ch_resolutions choices))).

End Routing.

(** ** Images with a published contract *)

Section ImageOptions.
Context (options : ImageOptionLimits).

(** The dimensions of a text [<width>x<height>]. *)
Definition parse_size (size : jsstr) : option (N * N) :=
  match split (js "x") size with
  | [w; h] =>
      if truthy w && truthy h && forallb is_digit w && forallb is_digit h
      then Some (digits_value w, digits_value h) else None
  | _ => None
  end.

(** [x % m] is not zero; the remainder by zero is [NaN], which is falsy. *)
Definition indivisible (x m : Z) : bool := negb (m =? 0) && negb (x mod m =? 0).

Definition size_ok (size : jsstr) : bool :=
  match parse_size size with
  | None => false
  | Some (w, h) =>
      let w := Z.of_N w in
      let h := Z.of_N h in
      negb ((MAX_SAFE_INTEGER <? w) || (MAX_SAFE_INTEGER <? h) || (w <=? 0) || (h <=? 0)
            || (io_max_edge options <? w) || (io_max_edge options <? h)
            || indivisible w (io_size_multiple options) || indivisible h (io_size_multiple options)
            || (io_max_aspect_ratio options * Z.min w h <? Z.max w h)
            || (w * h <? io_min_pixels options) || (io_max_pixels options <? w * h))
  end.

(** The integer that [v] is, if it is a number and an integer. *)
Definition integer_of (v : value) : option Z := match v with VNum x => to_Z x | _ => None end.

(** [if (value) { if (!choices.includes(value)) throw ...; payload[field] = value }]. *)
Definition set_choice (field : string) (v : option jsstr) (choices : list jsstr) (payload : obj)
    : exc obj :=
  match v with
  | Some s =>
      if negb (truthy s) then Ok payload
      else if includes s choices then Ok (obj_set (js field) (VStr s) payload) else Throw
  | None => Ok payload
  end.

Definition set_size (sel : PlaygroundReferenceSelection) (payload : obj) : exc obj :=
  let size := trim (from_opt [] (s_size sel)) in
  if negb (truthy size) then Ok payload
  else if str_eqb size (js "auto") || size_ok size then Ok (obj_set (js "size") (VStr size) payload)
  else Throw.

Definition set_compression (sel : PlaygroundReferenceSelection) (payload : obj) : exc obj :=
  match s_outputCompression sel with
  | None => Ok payload
  | Some x =>
      match to_string (nullish (VStr (js "png")) (prop (js "output_format") payload)) with
      | None => Throw
      | Some f =>
          if includes f [js "jpeg"; js "webp"] then
            match to_Z x with
            | Some z => if (z <? 0) || (100 <? z) then Throw
                        else Ok (obj_set (js "output_compression") (VNum x) payload)
            | None => Throw
            end
          else Ok payload
      end
  end.

(** [payload[key] === text]. *)
Definition is_text (key text : string) (payload : obj) : bool :=
  match prop (js key) payload with VStr s => str_eqb s (js text) | _ => false end.

Definition image_option_fields (sel : PlaygroundReferenceSelection) (extraBody payload : obj) : exc obj :=
  let count :=
    match s_count sel with Some x => VNum x | None => nullish (VNum (of_Z 1)) (prop (js "n") extraBody) end in
  match integer_of count with
  | None => Throw
  | Some z =>
      if (z <? 1) || (io_max_outputs options <? z) then Throw
      else
        let payload := obj_set (js "n") count payload in
        payload ← set_choice "quality" (s_quality sel) (io_qualities options) payload;
        payload ← set_choice "output_format" (s_outputFormat sel) (io_output_formats options) payload;
        payload ← set_choice "background" (s_background sel) (io_backgrounds options) payload;
        payload ← set_size sel payload;
        payload ← set_compression sel payload;
        if is_text "background" "transparent" payload && is_text "output_format" "jpeg" payload
        then Throw else Ok payload
  end.

End ImageOptions.

(** ** The request *)

Definition getLatestUserPrompt (messages : list Message) : jsstr :=
  from_opt []
    (find_first truthy
       (map (λ m, match versions m with v :: _ => trim (content v) | [] => [] end)
          (filterb (λ m, bool_decide (from m = USER)) (rev messages)))).

(** [readExtraReferences]: the texts of an array of texts, one per line. *)
Definition all_texts (l : list value) : option (list jsstr) :=
  foldr (λ v r, match v, r with VStr s, Some l => Some (s :: l) | _, _ => None end) (Some []) l.

Definition readExtraReferences (extraBody : obj) (field : option jsstr) : option jsstr :=
  match field with
  | Some f =>
      if truthy f then
        match prop f extraBody with
        | VArr l => option_map (join [10%N]) (all_texts l)
        | _ => None
        end
      else None
  | None => None
  end.

(** [selected || readExtraReferences(field)]. *)
Definition reference_text (extraBody : obj) (selected field : option jsstr) : option jsstr :=
  if opt_truthy_text selected then selected else readExtraReferences extraBody field.

(** [{...o, model, prompt}]. *)
Definition with_prompt (model prompt : jsstr) (o : obj) : obj :=
  obj_set (js "prompt") (VStr prompt) (obj_set (js "model") (VStr model) o).

Section Request.
Context `{CaseMap} `{UrlApi} `{UrlCredentials}.

(** The contract of asynchronous image requests. *)
Definition contract_image_field (async : bool) (p : IntegrationParameters) : option jsstr :=
  if async then Some (js "image_urls") else p_image_field p.

Definition with_image_field (f : option jsstr) (p : IntegrationParameters) : IntegrationParameters := {|
  p_image_options := p_image_options p;
  p_duration_field := p_duration_field p;
  p_durations := p_durations p;
  p_resolutions := p_resolutions p;
  p_ratios := p_ratios p;
  p_omit_ratio := p_omit_ratio p;
  p_ratio_field := p_ratio_field p;
  p_resolution_field := p_resolution_field p;
  p_request_resolution := p_request_resolution p;
  p_image_field := f;
  p_video_field := p_video_field p;
  p_audio_field := p_audio_field p;
  p_min_images := p_min_images p;
  p_max_images := p_max_images p;
  p_max_videos := p_max_videos p;
  p_max_audios := p_max_audios p;
  p_audio_needs_image := p_audio_needs_image p;
  p_audio_requires_image := p_audio_requires_image p;
  p_allow_frames := p_allow_frames p;
  p_max_image_size_mb := p_max_image_size_mb p;
  p_max_video_size_mb := p_max_video_size_mb p;
  p_max_audio_size_mb := p_max_audio_size_mb p;
|}.

(** The fields for the ratio, the resolution and the duration. *)
Definition selection_fields (mode : PlaygroundMediaMode) (async : bool) (p : IntegrationParameters)
    (aspectRatio duration resolution : option jsstr) (payload : obj) : obj :=
  let video := bool_decide (mode = MVideo) in
  let payload :=
    if video then
      set_field (p_duration_field p)
        (VNum (match duration with Some d => str_to_num d | None => nNaN end)) payload
    else payload in
  let ratioField :=
    if opt_truthy_text (p_ratio_field p) then p_ratio_field p
    else if video then Some (js "ratio") else None in
  let payload :=
    match aspectRatio with
    | Some r => if (video || negb (p_omit_ratio p)) && truthy r then set_field ratioField (VStr r) payload
                else payload
    | None => payload
    end in
  match resolution with
  | Some r =>
      if opt_truthy_text (p_resolution_field p) && truthy r
      then obj_set (if async then js "output_resolution" else from_opt [] (p_resolution_field p))
             (VStr (from_opt r (p_request_resolution p))) payload
      else payload
  | None => payload
  end.

Definition contract_request (model prompt : jsstr) (mode : PlaygroundMediaMode) (async : bool)
    (p : IntegrationParameters) (extraBody : obj) (videoSelection : PlaygroundVideoSelection)
    (info : option PlaygroundModelInfo) (sel : PlaygroundReferenceSelection) : exc obj :=
  chosen ←
    (if bool_decide (mode = MVideo) then
       v ← resolvePlaygroundVideoSelection model videoSelection info;
       Ok (Some (vs_aspectRatio v), vs_duration v, vs_resolution v)
     else
       Ok (resolveIntegrationChoice (s_aspectRatio sel) (p_ratios p), None,
           resolveIntegrationChoice (s_resolution sel) (p_resolutions p)));
  let '(aspectRatio, duration, resolution) := chosen in
  payload ←
    (if bool_decide (mode = MImage) then
       let payload := obj_set (js "n") (VNum (of_Z 1)) extraBody in
       match p_image_options p with
       | Some options => image_option_fields options sel extraBody payload
       | None => Ok payload
       end
     else Ok extraBody);
  let payload := selection_fields mode async p aspectRatio duration resolution payload in
  let contract := with_image_field (contract_image_field async p) p in
  references ←
    buildPlaygroundReferences contract
      (reference_text extraBody (s_images sel) (p_image_field contract))
      (reference_text extraBody (s_videos sel) (p_video_field contract))
      (reference_text extraBody (s_audios sel) (p_audio_field contract));
  Ok (with_prompt model prompt (spread payload references)).

Definition video_request (model prompt : jsstr) (extraBody : obj)
    (videoSelection : PlaygroundVideoSelection) (info : option PlaygroundModelInfo) : exc obj :=
  selected ← resolvePlaygroundVideoSelection model videoSelection info;
  options ←
    getCreationVideoRequestOptions
      (Options (from_opt (resolution DEFAULT_CREATION_VIDEO_OPTIONS) (vs_resolution selected))
         (from_opt [] (vs_duration selected)) (Some (vs_aspectRatio selected)))
      (ModelName model) EMPTY_CREATION_VIDEO_REFERENCES;
  let payload := filterb (λ kv, negb (str_eqb kv.1 (js "estimateSeconds"))) options in
  cap ← getCreationVideoCapabilities (ModelName model);
  let payload :=
    match cap with
    | Missing =>
        spread payload
          [(js "seconds", opt_value (vs_duration selected));
           (js "aspect_ratio", VStr (vs_aspectRatio selected));
           (js "size", opt_value (own FALLBACK_VIDEO_SIZES (vs_aspectRatio selected)))]
    | _ => payload
    end in
  Ok (with_prompt model prompt (spread payload extraBody)).

(** [endpoint?.replace('/api/creation/', '/v1/')]. *)
Definition public_path (endpoint : jsstr) : jsstr :=
  if str_eqb endpoint IMAGE_ASYNC_GENERATIONS then js "/v1/images/async-generations"
  else js "/v1/images/generations".

(** [endpoint === API_ENDPOINTS.IMAGE_ASYNC_GENERATIONS] for an image. *)
Definition image_async (model : jsstr) (mode : option PlaygroundMediaMode)
    (imageEndpoint : PlaygroundImageEndpoint) (info : option PlaygroundModelInfo) : bool :=
  bool_decide (resolvePlaygroundMode model mode info = MImage) &&
  bool_decide (getPlaygroundMediaEndpoint model mode imageEndpoint VAuto info
               = Some IMAGE_ASYNC_GENERATIONS).

(** [parameters]: the contract of the endpoint of the request. *)
Definition media_contract (model : jsstr) (mode : option PlaygroundMediaMode)
    (imageEndpoint : PlaygroundImageEndpoint) (info : option PlaygroundModelInfo)
    : option IntegrationParameters :=
  let resolved := resolvePlaygroundMode model mode info in
  let endpoint := getPlaygroundMediaEndpoint model mode imageEndpoint VAuto info in
  match getPlaygroundIntegration info
          (if bool_decide (resolved = MImage) then option_map public_path endpoint else None) with
  | Some e => if str_eqb (endpoint_kind e) (mode_text resolved) then parameters e else None
  | None => None
  end.

(** [Ok None] is [null]. *)
Definition buildPlaygroundMediaRequest (model : jsstr) (messages : list Message)
    (mode : option PlaygroundMediaMode) (imageEndpoint : PlaygroundImageEndpoint) (extraBody : obj)
    (videoSelection : PlaygroundVideoSelection) (info : option PlaygroundModelInfo)
    (sel : PlaygroundReferenceSelection) : exc (option obj) :=
  let resolved := resolvePlaygroundMode model mode info in
  if bool_decide (resolved = MChat) then Ok None
  else
    let prompt := getLatestUserPrompt messages in
    let async := image_async model mode imageEndpoint info in
    let request : exc obj :=
      match media_contract model mode imageEndpoint info with
      | Some p => contract_request model prompt resolved async p extraBody videoSelection info sel
      | None =>
          if bool_decide (resolved = MImage) then
            if async then
              o ← getCreationImageRequestOptions prompt (ModelName model) [] (PartialImage None None);
              Ok (with_prompt model prompt (spread o extraBody))
            else Ok (with_prompt model prompt (spread [(js "n", VNum (of_Z 1))] extraBody))
          else video_request model prompt extraBody videoSelection info
      end in
    o ← request; Ok (Some o).

End Request.

(** ** Results *)

(** [encodeURIComponent]; [Throw] for a lone surrogate. *)
Definition uri_plain (c : N) : bool :=
  is_word c || bool_decide (c ∈ js "-.!~*'()").

Definition percent (b : N) : jsstr :=
  let digit d := (if d <? 10 then 48 + d else 55 + d)%N in [37; digit ((b / 16) mod 16); digit (b mod 16)]%N.

(** The bytes of UTF-8. *)
Definition utf8_bytes (c : N) : list N :=
  (if c <? 128 then [c]
   else if c <? 2048 then [192 + c / 64; 128 + c mod 64]
   else if c <? 65536 then [224 + c / 4096; 128 + (c / 64) mod 64; 128 + c mod 64]
   else [240 + c / 262144; 128 + (c / 4096) mod 64; 128 + (c / 64) mod 64; 128 + c mod 64])%N.

Fixpoint encodeURIComponent (s : jsstr) : exc jsstr :=
  match s with
  | [] => Ok []
  | c :: s =>
      if uri_plain c then r ← encodeURIComponent s; Ok (c :: r)
      else if is_low c then Throw
      else if is_high c then
        match s with
        | d :: s' =>
            if is_low d then
              r ← encodeURIComponent s';
              Ok (concat (map percent (utf8_bytes (65536 + (c - 55296) * 1024 + (d - 56320))%N)) ++ r)
            else Throw
        | [] => Throw
        end
      else r ← encodeURIComponent s; Ok (concat (map percent (utf8_bytes c)) ++ r)
  end.

Definition buildPlaygroundVideoProxyUrl (taskId : jsstr) : exc jsstr :=
  id ← encodeURIComponent taskId; Ok (js "/v1/videos/" ++ id ++ js "/content").

Definition normalizePreviewUrl (url : option jsstr) : option jsstr :=
  match url with
  | None => None
  | Some u =>
      let trimmed := trim u in
      if existsb (λ p, starts_with (js p) trimmed) ["http://"; "https://"; "data:"; "/"]%string
      then Some trimmed else None
  end.

Definition isVideoApiContentUrl (url : jsstr) : bool :=
  str_includes (js "/v1/videos/") url || str_includes (js "/v1/video/async-generations/") url.

(** [lines.join('\n')] with the lines that are present. *)
Definition lines (l : list (option jsstr)) : jsstr := join [10%N] (omap id l).

Section Results.
Context `{CaseMap}.

Definition parseImageResult (raw : value) (model : jsstr) : exc PlaygroundMediaResult :=
  let result := parseImageGenerationResult raw in
  match image_status result with
  | Failed => Throw
  | status =>
      let completed := is_some (image_imageUrl result) in
      Ok (MediaResult MediaImage
            (lines [Some (if completed then js "图片生成完成。" else js "图片任务已提交。");
                    Some (js "模型：" ++ model);
                    option_map (app (js "结果 ID：")) (image_id result);
                    option_map (app (js "优化提示词：")) (image_revisedPrompt result);
                    Some (if completed then js "图片预览已生成。"
                          else js "接口已返回结果，但暂未解析到图片地址。")])
            (image_taskId result) (Some (task_status_text status)) (image_imageUrl result))
  end.

(** The URL of the video: that of the answer unless it is one of the relay's
    own, else the proxy of the task. *)
Definition preview_url (result : ParsedVideoGenerationResult) : exc (option jsstr) :=
  let url := normalizePreviewUrl (video_videoUrl result) in
  let proxied :=
    match video_taskId result with
    | Some id => u ← buildPlaygroundVideoProxyUrl id; Ok (Some u)
    | None => Ok url
    end in
  match url with
  | Some u => if isVideoApiContentUrl u then proxied else Ok (Some u)
  | None => proxied
  end.

Definition parseVideoResult (raw : value) (model : jsstr) : exc PlaygroundMediaResult :=
  let result := parseVideoGenerationResult raw in
  match video_status result with
  | Failed => Throw
  | status =>
      url ← preview_url result;
      let completed := match status with Completed => is_some url | _ => false end in
      Ok (MediaResult MediaVideo
            (lines [Some (if completed then js "视频生成完成。" else js "视频任务已提交。");
                    Some (js "模型：" ++ model);
                    option_map (app (js "任务 ID：")) (video_taskId result);
                    option_map (app (js "当前状态：")) (video_upstreamStatus result);
                    Some (if completed then js "视频预览已生成。"
                          else js "生成完成后，可在任务日志中查看结果。")])
            (video_taskId result) (Some (task_status_text status)) (if completed then url else None))
  end.

Definition parsePlaygroundMediaResult (raw : value) (model : jsstr) (mode : option PlaygroundMediaMode)
    : exc PlaygroundMediaResult :=
  match extractMediaErrorMessage raw with
  | Some _ => Throw
  | None =>
      match resolvePlaygroundMode model mode None with
      | MImage => parseImageResult raw model
      | MVideo => parseVideoResult raw model
      | MChat => Throw
      end
  end.

End Results.
