(* ===== verification/MediaRoutingFacts.v ===== *)
(** * What playground media requests carry

    Theorems about [MediaRouting] and [ModelIntegration]: the references and
    the options of a request, its endpoint, and the URLs of results. *)
From S2P Require Import Prelude JsString JsNumber Regex JsValue JsonFacts XjzModels VideoCapabilities VideoOptions VideoReferences VideoRequest ImageOptions Messages ResultParsers ModelIntegration MediaPolling MediaRouting.

Open Scope Z_scope.

(** ** What a request carries *)

Section Facts.
Context `{CaseMap} `{UrlApi} `{UrlCredentials}.

(** The URLs of one kind that a request [r] was built from are plain HTTP
    URLs, no more than the contract allows, and occur in its field; of a
    field for one URL only the first one does. *)
Definition kind_sent (r : obj) (k : list jsstr * option jsstr * Z) : Prop :=
  let '(urls, field, max) := k in
  Forall (λ u, plain_url u = true) urls ∧
  (urls = [] ∨ ∃ f, field = Some f ∧ Z.of_nat (length urls) ≤ max ∧
     ∀ u, u ∈ (if ends_with (js "_url") f then take 1 urls else urls) → sends_at r f u).

Definition reference_kinds (p : IntegrationParameters) (images videos audios : option jsstr)
    : list (list jsstr * option jsstr * Z) :=
  [(words (from_opt [] images), p_image_field p, p_max_images p);
   (words (from_opt [] videos), p_video_field p, p_max_videos p);
   (words (from_opt [] audios), p_audio_field p, p_max_audios p)].

Lemma parse_urls_ok v urls :
  parsePlaygroundReferenceURLs v = Ok urls →
  urls = words (from_opt [] v) ∧ Forall (λ u, plain_url u = true) urls.
Proof.
  unfold parsePlaygroundReferenceURLs. destruct (forallb _ _) eqn:E; [|done]. intros [= <-].
  split; [done|]. rewrite Forall_forall. intros u Hu. rewrite forallb_forall in E.
  by apply E, list_elem_of_In.
Qed.

Lemma set_references_ok o urls field max o' :
  set_references o (urls, field, max) = Ok o' →
  (urls = [] ∧ o' = o) ∨
  ∃ f, field = Some f ∧ urls ≠ [] ∧ Z.of_nat (length urls) ≤ max ∧ o' = obj_set f (urls_value f urls) o.
Proof.
  unfold set_references. destruct urls as [|u urls]; [intros [= <-]; by left|].
  destruct field as [f|]; [|done]. destruct (negb (truthy f)); [done|].
  destruct (max <? _) eqn:E; [done|]. intros [= <-]. bool_to_prop. right. exists f. split_and!; try done.
Qed.

Lemma urls_value_sent f urls u :
  u ∈ (if ends_with (js "_url") f then take 1 urls else urls) → u ∈ strings_of (urls_value f urls).
Proof.
  unfold urls_value. destruct (ends_with _ f).
  - destruct urls as [|v urls]; [done|]. intros Hu. exact Hu.
  - apply strs_value_strings.
Qed.

(** Two optional fields are different names. *)
Definition apart (a b : option jsstr) : bool :=
  match a, b with Some x, Some y => negb (str_eqb x y) | _, _ => true end.

Lemma apart_ne a b f g : apart a b = true → a = Some f → b = Some g → f ≠ g.
Proof. intros H3 -> ->. cbn in H3. apply negb_true_iff, bool_decide_eq_false in H3. done. Qed.

Definition fields_apart (p : IntegrationParameters) : bool :=
  apart (p_image_field p) (p_video_field p) && apart (p_image_field p) (p_audio_field p)
  && apart (p_video_field p) (p_audio_field p).

(** A step that writes one kind keeps what was sent in other fields. *)
Lemma kind_sent_step r urls field max r' k :
  set_references r (urls, field, max) = Ok r' → apart k.1.2 field = true → kind_sent r k → kind_sent r' k.
Proof.
  destruct k as [[us fk] m]. intros Hr Ha [Hp Hs]. split; [done|]. cbn [fst snd] in Ha.
  destruct Hs as [Hs|(f & -> & Hl & Hs)]; [by left|]. right. exists f. split_and!; try done.
  intros u Hu. apply set_references_ok in Hr as [[_ ->]|(g & Hg & _ & _ & ->)]; [by apply Hs|].
  apply sends_at_set_ne; [by eapply apart_ne|by apply Hs].
Qed.

Lemma kind_sent_new r urls field max r' :
  set_references r (urls, field, max) = Ok r' → Forall (λ u, plain_url u = true) urls →
  kind_sent r' (urls, field, max).
Proof.
  intros Hr Hp. split; [done|]. apply set_references_ok in Hr as [[-> _]|(g & -> & _ & Hl & ->)]; [by left|].
  right. exists g. split_and!; try done. intros u Hu. by apply sends_at_set, urls_value_sent.
Qed.

Lemma references_ok p images videos audios o :
  buildPlaygroundReferences p images videos audios = Ok o → fields_apart p = true →
  Forall (kind_sent o) (reference_kinds p images videos audios) ∧ wf_obj o.
Proof.
  unfold buildPlaygroundReferences, fields_apart. intros E Ha. bool_to_prop.
  apply exc_bind_Ok in E as (iu & Ei & E). apply exc_bind_Ok in E as (vu & Ev & E).
  apply exc_bind_Ok in E as (au & Ea & E).
  apply parse_urls_ok in Ei as [-> Hi], Ev as [-> Hv], Ea as [-> Hau].
  do 3 (case_split_in E; [done|]). clear E0 E1 E2.
  apply exc_bind_Ok in E as (o1 & E1 & E). apply exc_bind_Ok in E as (o2 & E2 & E3).
  split.
  - apply Forall_cons; split; [|apply Forall_cons; split; [|apply Forall_cons; split; [|done]]].
    + eapply kind_sent_step; [exact E3|done|]. eapply kind_sent_step; [exact E2|done|].
      by eapply kind_sent_new.
    + eapply kind_sent_step; [exact E3|done|]. by eapply kind_sent_new.
    + by eapply kind_sent_new.
  - assert (∀ o k o', wf_obj o → set_references o k = Ok o' → wf_obj o') as Hw.
    { intros o' [[urls f] m] o'' Ho Hs. apply set_references_ok in Hs as [[_ ->]|(g & _ & _ & _ & ->)];
        [done|by apply wf_set]. }
    eauto using wf_nil.
Qed.

(** The contract with the image field that the request uses. *)
Definition request_contract (async : bool) (p : IntegrationParameters) : IntegrationParameters :=
  with_image_field (contract_image_field async p) p.

(** The reference texts of a request, selected or from the extra body. *)
Definition request_kinds (c : IntegrationParameters) (extraBody : obj) (sel : PlaygroundReferenceSelection)
    : list (list jsstr * option jsstr * Z) :=
  reference_kinds c (reference_text extraBody (s_images sel) (p_image_field c))
    (reference_text extraBody (s_videos sel) (p_video_field c))
    (reference_text extraBody (s_audios sel) (p_audio_field c)).

Lemma contract_request_ok model prompt mode async p extraBody vs info sel r :
  contract_request model prompt mode async p extraBody vs info sel = Ok r →
  ∃ payload refs,
    buildPlaygroundReferences (request_contract async p)
      (reference_text extraBody (s_images sel) (p_image_field (request_contract async p)))
      (reference_text extraBody (s_videos sel) (p_video_field p))
      (reference_text extraBody (s_audios sel) (p_audio_field p)) = Ok refs ∧
    r = with_prompt model prompt (spread payload refs).
Proof.
  unfold contract_request. intros E. apply exc_bind_Ok in E as ([[ar d] rs] & _ & E).
  apply exc_bind_Ok in E as (payload & _ & E). apply exc_bind_Ok in E as (refs & Er & E).
  injection E as <-. eauto.
Qed.

Lemma build_contract model ms mode ie extraBody vs info sel r p :
  buildPlaygroundMediaRequest model ms mode ie extraBody vs info sel = Ok (Some r) →
  media_contract model mode ie info = Some p →
  contract_request model (getLatestUserPrompt ms) (resolvePlaygroundMode model mode info)
    (image_async model mode ie info) p extraBody vs info sel = Ok r.
Proof.
  unfold buildPlaygroundMediaRequest. intros E Hc. case_split_in E; [done|]. rewrite Hc in E.
  apply exc_bind_Ok in E as (o & E & [= <-]). exact E.
Qed.

(** No reference field is called [model] or [prompt]. *)
Definition unreserved (f : option jsstr) : bool :=
  apart f (Some (js "model")) && apart f (Some (js "prompt")).

Lemma sends_with_prompt model prompt payload refs f u :
  unreserved (Some f) = true → wf_obj refs → sends_at refs f u →
  sends_at (with_prompt model prompt (spread payload refs)) f u.
Proof.
  unfold unreserved. intros [Hm Hp]%andb_true_iff Hw Hs.
  pose proof (apart_ne _ _ _ _ Hm eq_refl eq_refl). pose proof (apart_ne _ _ _ _ Hp eq_refl eq_refl).
  unfold with_prompt. do 2 (apply sends_at_set_ne; [done|]).
  unfold sends_at, prop in *. rewrite obj_get_spread by apply Hw.
  destruct (obj_get f refs); [done|]. by apply elem_of_nil in Hs.
Qed.

(** C24. When the request of a model with a published contract is built, the
    reference URLs (selected or from the extra parameters) are plain HTTP
    URLs without credentials, no more of each kind than the contract allows,
    and every one of them is in the request under the field of its kind; of
    a field that takes one URL the first one is. *)
Theorem playground_references_sent model ms mode ie extraBody vs info sel r p :
  buildPlaygroundMediaRequest model ms mode ie extraBody vs info sel = Ok (Some r) →
  media_contract model mode ie info = Some p →
  let c := request_contract (image_async model mode ie info) p in
  fields_apart c = true →
  unreserved (p_image_field c) && unreserved (p_video_field c) && unreserved (p_audio_field c) = true →
  Forall (kind_sent r) (request_kinds c extraBody sel).
Proof.
  intros E Hc c Ha Hu. eapply build_contract in E; [|exact Hc].
  apply contract_request_ok in E as (payload & refs & Er & ->).
  apply references_ok in Er as [Hk Hw]; [|exact Ha]. bool_to_prop.
  assert (∀ urls f m, unreserved f = true → kind_sent refs (urls, f, m) →
    kind_sent (with_prompt model (getLatestUserPrompt ms) (spread payload refs)) (urls, f, m)) as Hl.
  { intros urls f m Hf [Hp Hs]. split; [done|]. destruct Hs as [Hs|(g & -> & Hm & Hs)]; [by left|right].
    exists g. split_and!; try done. intros u Hu. apply sends_with_prompt; auto. }
  unfold request_kinds, reference_kinds in *. rewrite !Forall_cons in Hk |- *.
  destruct Hk as (H1' & H2' & H3' & _). split_and!; [by apply Hl..|done].
Qed.

(** ** The options of an image *)

(** Membership of a concrete text in a concrete list. *)
Ltac among := apply (bool_decide_unpack _); vm_compute; exact I.
(** Two concrete texts are different. *)
Ltac differ := apply (bool_decide_unpack _); vm_compute; exact I.

Definition option_keys : list jsstr :=
  [js "n"; js "quality"; js "output_format"; js "background"; js "size"; js "output_compression"].

(** A size inside the limits of the model. *)
Definition size_in_bounds (o : ImageOptionLimits) (size : jsstr) : Prop :=
  ∃ w h, parse_size size = Some (w, h) ∧
    let w := Z.of_N w in let h := Z.of_N h in
    1 ≤ w ≤ io_max_edge o ∧ 1 ≤ h ≤ io_max_edge o ∧
    (io_size_multiple o ≠ 0 → (io_size_multiple o | w) ∧ (io_size_multiple o | h)) ∧
    Z.max w h ≤ io_max_aspect_ratio o * Z.min w h ∧ io_min_pixels o ≤ w * h ≤ io_max_pixels o.

(** The option is the one that was chosen, one of those offered; without a
    choice it is that of the extra parameters. *)
Definition chosen_in (extra r : obj) (field : string) (choice : option jsstr) (choices : list jsstr) : Prop :=
  (∀ s, choice = Some s → s ≠ [] → s ∈ choices ∧ prop (js field) r = VStr s) ∧
  (from_opt [] choice = [] → prop (js field) r = prop (js field) extra).

Record in_bounds (o : ImageOptionLimits) (sel : PlaygroundReferenceSelection) (extra r : obj) : Prop := {
  b_count : ∃ x z, prop (js "n") r = VNum x ∧ to_Z x = Some z ∧ 1 ≤ z ≤ io_max_outputs o ∧
    (∀ y, s_count sel = Some y → x = y);
  b_quality : chosen_in extra r "quality" (s_quality sel) (io_qualities o);
  b_format : chosen_in extra r "output_format" (s_outputFormat sel) (io_output_formats o);
  b_background : chosen_in extra r "background" (s_background sel) (io_backgrounds o);
  b_size : ∀ size, trim (from_opt [] (s_size sel)) = size → size ≠ [] →
    prop (js "size") r = VStr size ∧ (size = js "auto" ∨ size_in_bounds o size);
  b_size_extra : trim (from_opt [] (s_size sel)) = [] → prop (js "size") r = prop (js "size") extra;
  b_compression : ∀ x f, s_outputCompression sel = Some x →
    prop (js "output_format") r = VStr f → f ∈ [js "jpeg"; js "webp"] →
    prop (js "output_compression") r = VNum x ∧ ∃ z, to_Z x = Some z ∧ 0 ≤ z ≤ 100;
  b_compression_extra : s_outputCompression sel = None →
    prop (js "output_compression") r = prop (js "output_compression") extra;
  b_transparent : ¬ (prop (js "background") r = VStr (js "transparent") ∧
                     prop (js "output_format") r = VStr (js "jpeg"));
}.

Definition kept (r r' : obj) : Prop := ∀ k, k ∈ option_keys → prop k r' = prop k r.

Lemma in_bounds_kept o sel extra r r' : kept r r' → in_bounds o sel extra r → in_bounds o sel extra r'.
Proof.
  intros Hk [H1' H2' H3' H4' H5' H6' H7' H8' H9']. unfold chosen_in in *.
  split; unfold chosen_in; rewrite ?Hk by among; done.
Qed.

Lemma indivisible_false x m : indivisible x m = false → m ≠ 0 → (m | x).
Proof.
  unfold indivisible. intros Hi Hm. rewrite (proj2 (Z.eqb_neq m 0) Hm) in Hi. cbn in Hi.
  apply negb_false_iff, Z.eqb_eq in Hi. by apply Z.mod_divide.
Qed.

Lemma size_ok_bounds o size : size_ok o size = true → size_in_bounds o size.
Proof.
  unfold size_ok, size_in_bounds. destruct (parse_size size) as [[w h]|]; [|done]. intros E.
  exists w, h. split; [done|]. bool_to_prop. split_and!; try lia.
  intros Hm. split; by apply indivisible_false.
Qed.

(** The step changes the member [field] only. *)
Definition only (field : jsstr) (o o' : obj) : Prop := ∀ k, k ≠ field → prop k o' = prop k o.

Lemma set_choice_ok field v choices o o' :
  set_choice field v choices o = Ok o' → chosen_in o o' field v choices ∧ only (js field) o o'.
Proof.
  unfold set_choice, chosen_in, only. destruct v as [s|]; [|intros [= <-]; done].
  destruct (negb (truthy s)) eqn:Et.
  { intros [= <-]. split; [|done]. split; [|done]. intros s' [= <-] Hs. by destruct s. }
  destruct (includes s choices) eqn:Ei; [|done]. intros [= <-]. apply includes_elem in Ei.
  split; [|intros k Hk; by apply prop_set_ne]. split; [intros s' [= <-] _; by rewrite prop_set|].
  cbn [from_opt]. intros ->. done.
Qed.

Lemma set_size_ok o sel p p' :
  set_size o sel p = Ok p' →
  (∀ size, trim (from_opt [] (s_size sel)) = size → size ≠ [] →
     prop (js "size") p' = VStr size ∧ (size = js "auto" ∨ size_in_bounds o size)) ∧
  (trim (from_opt [] (s_size sel)) = [] → prop (js "size") p' = prop (js "size") p) ∧
  only (js "size") p p'.
Proof.
  unfold set_size, only. destruct (negb (truthy _)) eqn:Et.
  { intros [= <-]. split_and!; [|done|done]. intros size <- Hs. by destruct (trim _). }
  destruct (_ || _) eqn:Es; [|done]. intros [= <-].
  split_and!; [|intros E; by rewrite E in Et|intros k Hk; by apply prop_set_ne]. intros size <- _. rewrite prop_set. split; [done|]. apply orb_true_iff in Es as [Es|Es].
  - left. by apply bool_decide_eq_true in Es.
  - right. by apply size_ok_bounds.
Qed.

Lemma set_compression_ok sel p p' :
  set_compression sel p = Ok p' →
  (∀ x f, s_outputCompression sel = Some x → prop (js "output_format") p' = VStr f →
     f ∈ [js "jpeg"; js "webp"] →
     prop (js "output_compression") p' = VNum x ∧ ∃ z, to_Z x = Some z ∧ 0 ≤ z ≤ 100) ∧
  (s_outputCompression sel = None → prop (js "output_compression") p' = prop (js "output_compression") p) ∧
  only (js "output_compression") p p'.
Proof.
  unfold set_compression, only. destruct (s_outputCompression sel) as [x|]; [|intros [= <-]; done].
  destruct (to_string _) as [f|] eqn:Ef; [|done]. destruct (includes f _) eqn:Ei.
  - destruct (to_Z x) as [z|] eqn:Ez; [|done]. destruct (_ || _) eqn:Eb; [done|]. intros [= <-].
    bool_to_prop. split_and!; [|done|intros k Hk; by apply prop_set_ne].
    intros x' f' [= <-] _ _. rewrite prop_set. split; [done|]. exists z. split; [done|lia].
  - intros [= <-]. split_and!; [|done|done]. intros x' f' _ Hf' Hin. rewrite Hf' in Ef. injection Ef as ->.
    apply includes_elem in Hin. congruence.
Qed.

Lemma is_text_true key text o : is_text key text o = true ↔ prop (js key) o = VStr (js text).
Proof.
  unfold is_text. split.
  - destruct (prop _ o); try done. intros Hs. apply bool_decide_eq_true in Hs. by subst.
  - intros ->. apply str_eqb_refl.
Qed.

Lemma image_options_ok o sel extraBody p r :
  (∀ k, k ≠ js "n" → prop k p = prop k extraBody) →
  image_option_fields o sel extraBody p = Ok r → in_bounds o sel extraBody r.
Proof.
  intros Hp. unfold image_option_fields. set (count := match s_count sel with Some _ => _ | None => _ end).
  assert (∀ y, s_count sel = Some y → count = VNum y) as Hsel by (unfold count; by intros y ->).
  destruct (integer_of count) as [z|] eqn:Ez; [|done]. destruct (_ || _) eqn:Eb; [done|]. bool_to_prop.
  destruct count as [| | |x| | |] eqn:Ec; try done. intros E.
  apply exc_bind_Ok in E as (p1 & E1 & E). apply exc_bind_Ok in E as (p2 & E2 & E).
  apply exc_bind_Ok in E as (p3 & E3 & E). apply exc_bind_Ok in E as (p4 & E4 & E).
  apply exc_bind_Ok in E as (p5 & E5 & E). destruct (_ && _) eqn:Et; [done|]. injection E as <-.
  apply set_choice_ok in E1 as [[C1 D1] O1], E2 as [[C2 D2] O2], E3 as [[C3 D3] O3].
  apply set_size_ok in E4 as (C4 & D4 & O4). apply set_compression_ok in E5 as (C5 & D5 & O5). split.
  - exists x, z. split; [|split_and!; [done|lia|lia|]].
    + rewrite O5, O4, O3, O2, O1 by differ. apply prop_set.
    + intros y Hy. specialize (Hsel y Hy). by injection Hsel.
  - split; [intros s Hs Hne; rewrite O5, O4, O3, O2 by differ; by apply C1|].
    intros Hn. rewrite O5, O4, O3, O2 by differ. rewrite (D1 Hn), prop_set_ne by differ. apply Hp. differ.
  - split; [intros s Hs Hne; rewrite O5, O4, O3 by differ; by apply C2|].
    intros Hn. rewrite O5, O4, O3 by differ. rewrite (D2 Hn), O1 by differ. rewrite prop_set_ne by differ. apply Hp. differ.
  - split; [intros s Hs Hne; rewrite O5, O4 by differ; by apply C3|].
    intros Hn. rewrite O5, O4 by differ. rewrite (D3 Hn), O2, O1 by differ. rewrite prop_set_ne by differ. apply Hp. differ.
  - intros s Hs Hne. rewrite O5 by differ. by apply C4.
  - intros Hn. rewrite O5 by differ. rewrite (D4 Hn), O3, O2, O1 by differ. rewrite prop_set_ne by differ. apply Hp. differ.
  - done.
  - intros Hn. rewrite (D5 Hn), O4, O3, O2, O1 by differ. rewrite prop_set_ne by differ. apply Hp. differ.
  - intros [Hb Hf]. apply is_text_true in Hb, Hf. by rewrite Hb, Hf in Et.
Qed.

(** *** From the options to the request *)

(** A field that none of the options is written to. *)
Definition free_field (f : option jsstr) : bool :=
  match f with Some f => negb (includes f option_keys) | None => true end.

Definition options_free (c : IntegrationParameters) : bool :=
  forallb free_field [p_ratio_field c; p_resolution_field c; p_image_field c; p_video_field c; p_audio_field c].

Lemma kept_refl r : kept r r.
Proof. done. Qed.

Lemma kept_trans r1 r2 r3 : kept r1 r2 → kept r2 r3 → kept r1 r3.
Proof. intros H12 H23 k Hk. by rewrite H23, H12. Qed.

Lemma kept_set f v r : free_field (Some f) = true → kept r (obj_set f v r).
Proof.
  intros Hf k Hk. apply prop_set_ne. intros ->. cbn in Hf. by rewrite (proj2 (includes_elem _ _) Hk) in Hf.
Qed.

Lemma kept_set_field f v r : free_field f = true → kept r (set_field f v r).
Proof. intros Hf. destruct f as [f|]; [|done]. cbn. destruct (truthy f); [by apply kept_set|done]. Qed.

Lemma kept_selection async p ar d rs o :
  free_field (p_ratio_field p) = true → free_field (p_resolution_field p) = true →
  kept o (selection_fields MImage async p ar d rs o).
Proof.
  intros Hr Hs. unfold selection_fields. change (bool_decide (MImage = MVideo)) with false. cbn [orb].
  set (o1 := match ar with Some _ => _ | None => _ end).
  assert (kept o o1) as H01.
  { subst o1. destruct ar as [r|]; [|done]. destruct (_ && _); [|done]. apply kept_set_field.
    by destruct (opt_truthy_text _). }
  destruct rs as [r|]; [|done]. destruct (_ && _) eqn:Ef; [|done].
  eapply kept_trans; [exact H01|]. apply kept_set. destruct async; [reflexivity|].
  destruct (p_resolution_field p); [done|]. by cbn in Ef.
Qed.

Lemma references_keys p i v a o k :
  buildPlaygroundReferences p i v a = Ok o →
  free_field (p_image_field p) && free_field (p_video_field p) && free_field (p_audio_field p) = true →
  k ∈ option_keys → obj_get k o = None.
Proof.
  unfold buildPlaygroundReferences. intros E Hf Hk. bool_to_prop.
  apply exc_bind_Ok in E as (iu & Ei & E). apply exc_bind_Ok in E as (vu & Ev & E).
  apply exc_bind_Ok in E as (au & Ea & E). do 3 (case_split_in E; [done|]).
  apply exc_bind_Ok in E as (o1 & S1 & E). apply exc_bind_Ok in E as (o2 & S2 & S3).
  assert (∀ r urls f m r', set_references r (urls, f, m) = Ok r' → free_field f = true →
    obj_get k r = None → obj_get k r' = None) as Hs.
  { intros r urls f m r' Hr Hff Hn. apply set_references_ok in Hr as [[_ ->]|(g & -> & _ & _ & ->)]; [done|].
    rewrite obj_get_set_ne; [done|]. intros <-. cbn in Hff. by rewrite (proj2 (includes_elem _ _) Hk) in Hff. }
  eauto.
Qed.

Lemma kept_with_prompt model prompt payload refs :
  (∀ k, k ∈ option_keys → obj_get k refs = None) → wf_obj refs →
  kept payload (with_prompt model prompt (spread payload refs)).
Proof.
  intros Hn Hw. eapply kept_trans; [|unfold with_prompt; apply kept_set; reflexivity].
  eapply kept_trans; [|apply kept_set; reflexivity].
  intros k Hk. unfold prop. by rewrite obj_get_spread, Hn by (done || apply Hw).
Qed.

Lemma contract_image_bounds model prompt async p extraBody vs info sel r options :
  contract_request model prompt MImage async p extraBody vs info sel = Ok r →
  p_image_options p = Some options → options_free (request_contract async p) = true →
  fields_apart (request_contract async p) = true →
  in_bounds options sel extraBody r.
Proof.
  intros E Ho Hf Ha. unfold options_free in Hf. cbn [forallb] in Hf. bool_to_prop.
  unfold contract_request in E. apply exc_bind_Ok in E as ([[ar d] rs] & _ & E).
  apply exc_bind_Ok in E as (payload & Ep & E). apply exc_bind_Ok in E as (refs & Er & E).
  injection E as <-. change (bool_decide (MImage = MImage)) with true in Ep. rewrite Ho in Ep.
  apply image_options_ok in Ep; [|intros k Hk; by apply prop_set_ne]. eapply in_bounds_kept; [|exact Ep].
  eapply kept_trans; [by apply kept_selection|]. apply kept_with_prompt.
  - intros k Hk. eapply references_keys; [exact Er| |exact Hk].
    apply andb_true_iff; split; [apply andb_true_iff; split|]; done.
  - by eapply references_ok.
Qed.

(** C23. When the request of an image model with published options is built,
    the options that the user chose are sent and are in the bounds of the model:
    the number of images is between 1 and the maximum (also when it comes from
    the extra parameters); a chosen quality, format and background is one of
    those offered; a chosen size is [auto] or has edges, a ratio and a number of
    pixels within the limits and divisible edges; a chosen compression of a JPEG
    or WebP is between 0 and 100; and no transparent background goes with JPEG.
    An option that is not chosen is whatever the extra parameters say, which is
    not checked.  The other fields of the contract are not those of options. *)
Theorem image_request_in_bounds model ms mode ie extraBody vs info sel r p options :
  buildPlaygroundMediaRequest model ms mode ie extraBody vs info sel = Ok (Some r) →
  resolvePlaygroundMode model mode info = MImage →
  media_contract model mode ie info = Some p → p_image_options p = Some options →
  options_free (request_contract (image_async model mode ie info) p) = true →
  fields_apart (request_contract (image_async model mode ie info) p) = true →
  in_bounds options sel extraBody r.
Proof.
  intros E Hm Hc Ho Hf Ha. eapply build_contract in E; [|exact Hc]. rewrite Hm in E.
  by eapply contract_image_bounds.
Qed.

(** ** Endpoint and request *)

Lemma with_prompt_props model prompt o :
  prop (js "model") (with_prompt model prompt o) = VStr model ∧
  prop (js "prompt") (with_prompt model prompt o) = VStr prompt.
Proof.
  unfold with_prompt. rewrite prop_set_ne by differ. by rewrite !prop_set.
Qed.

(** The endpoint is one for the mode of the request. *)
Definition endpoint_for (m : PlaygroundMediaMode) (endpoint : option jsstr) : Prop :=
  match m with
  | MChat => endpoint = None
  | MImage => endpoint = Some IMAGE_GENERATIONS ∨ endpoint = Some IMAGE_ASYNC_GENERATIONS
  | MVideo => endpoint = Some VIDEO_GENERATIONS ∨ endpoint = Some VIDEO_ASYNC_GENERATIONS
  end.

Lemma endpoint_matches model mode ie ve info :
  endpoint_for (resolvePlaygroundMode model mode info) (getPlaygroundMediaEndpoint model mode ie ve info).
Proof.
  unfold getPlaygroundMediaEndpoint, endpoint_for.
  destruct (resolvePlaygroundMode model mode info); [done| |].
  - match goal with |- Some (if ?b then _ else _) = _ ∨ _ => destruct b end;
      [right|left]; reflexivity.
  - set (integration := match getPlaygroundIntegration info None with Some _ => _ | None => _ end).
    destruct ve; [destruct integration as [e|]| |].
    + destruct (str_includes _ (endpoint_path e)); [right|left]; reflexivity.
    + destruct (is_some (getXJZVideoModelSpec model)); [left|right]; reflexivity.
    + left. reflexivity.
    + destruct (is_some (getXJZVideoModelSpec model)); [left|right]; reflexivity.
Qed.

Lemma build_with_prompt model ms mode ie extraBody vs info sel o :
  buildPlaygroundMediaRequest model ms mode ie extraBody vs info sel = Ok o →
  match o with
  | None => resolvePlaygroundMode model mode info = MChat
  | Some r => resolvePlaygroundMode model mode info ≠ MChat ∧
      ∃ r', r = with_prompt model (getLatestUserPrompt ms) r'
  end.
Proof.
  unfold buildPlaygroundMediaRequest. destruct (bool_decide _) eqn:Em.
  { intros [= <-]. by bool_to_prop. }
  bool_to_prop. intros E. apply exc_bind_Ok in E as (r & E & [= <-]). split; [done|].
  destruct (media_contract model mode ie info) as [p|].
  { apply contract_request_ok in E as (payload & refs & _ & ->). eauto. }
  destruct (bool_decide _); [destruct (image_async _ _ _ _)|].
  - apply exc_bind_Ok in E as (o & _ & [= <-]). eauto.
  - injection E as <-. eauto.
  - unfold video_request in E. apply exc_bind_Ok in E as (v & _ & E).
    apply exc_bind_Ok in E as (q & _ & E). apply exc_bind_Ok in E as (c & _ & [= <-]). eauto.
Qed.

(** Whenever a media request is built for a model, the endpoint it is
    sent to is one for the same mode, a chat has neither, and the request
    carries the selected model and the latest prompt of the user, whatever
    the extra parameters say. *)
Theorem media_request_addressed model ms mode ie ve extraBody vs info sel o :
  buildPlaygroundMediaRequest model ms mode ie extraBody vs info sel = Ok o →
  endpoint_for (resolvePlaygroundMode model mode info) (getPlaygroundMediaEndpoint model mode ie ve info) ∧
  (o = None ↔ getPlaygroundMediaEndpoint model mode ie ve info = None) ∧
  ∀ r, o = Some r → prop (js "model") r = VStr model ∧ prop (js "prompt") r = VStr (getLatestUserPrompt ms).
Proof.
  intros E. apply build_with_prompt in E. pose proof (endpoint_matches model mode ie ve info) as He.
  split; [done|]. split.
  - destruct o as [r|]; [|split; [|done]].
    + destruct E as [Hm _]. split; [done|]. intros Hn. rewrite Hn in He.
      destruct (resolvePlaygroundMode _ _ _); [done| |]; by destruct He.
    + intros _. by rewrite E in He.
  - intros r ->. destruct E as [_ [r' ->]]. apply with_prompt_props.
Qed.

(** ** Results *)

Definition uri_safe (c : N) : Prop := uri_plain c = true ∨ c = 37%N.

Lemma percent_safe b : Forall uri_safe (percent b).
Proof.
  assert (∀ d, (d < 16)%N → uri_safe (if d <? 10 then 48 + d else 55 + d)%N) as Hd.
  { intros d Hd. left. unfold uri_plain. apply orb_true_iff. left.
    assert (d ∈ [0; 1; 2; 3; 4; 5; 6; 7; 8; 9; 10; 11; 12; 13; 14; 15]%N) as Hin.
    { rewrite !elem_of_cons. lia. }
    repeat (apply elem_of_cons in Hin as [-> |Hin]; [reflexivity|]). by apply elem_of_nil in Hin. }
  unfold percent. repeat (apply Forall_cons; split); [by right| | |done]; apply Hd, N.mod_lt; lia.
Qed.

Lemma encode_safe s e : encodeURIComponent s = Ok e → Forall uri_safe e.
Proof.
  assert (∀ l, Forall uri_safe (concat (map percent l))) as Hp.
  { intros l. induction l; [done|]. cbn [map concat]. apply Forall_app_2; [apply percent_safe|done]. }
  revert e. induction s as [s IH] using (induction_ltof1 _ (@length N)); intros e E.
  unfold ltof in IH. destruct s as [|c s]; [by injection E as <-|]. cbn [encodeURIComponent] in E.
  destruct (uri_plain c) eqn:Ec.
  { apply exc_bind_Ok in E as (r & Er & [= <-]). apply Forall_cons; split; [by left|].
    eapply (IH s); [|exact Er]. cbn. lia. }
  destruct (is_low c); [done|]. destruct (is_high c).
  - destruct s as [|d s]; [done|]. destruct (is_low d); [|done].
    apply exc_bind_Ok in E as (r & Er & [= <-]). apply Forall_app_2; [apply Hp|].
    eapply (IH s); [|exact Er]. cbn. lia.
  - apply exc_bind_Ok in E as (r & Er & [= <-]). apply Forall_app_2; [apply Hp|].
    eapply (IH s); [|exact Er]. cbn. lia.
Qed.

Lemma http_no_ws u : http_text u → Forall (λ c, is_ws c = false) u.
Proof.
  intros (scheme & rest & -> & _ & Hs & Hr).
  assert (∀ c, ascii_lower c ∈ js "https" → is_ws c = false) as Hc.
  { intros c Hin. unfold ascii_lower in Hin. destruct (_ && _) eqn:E.
    - bool_to_prop. assert (c ∈ [72; 84; 80; 83]%N) as Hc.
      { change (js "https") with [104; 116; 116; 112; 115]%N in Hin.
        rewrite !elem_of_cons, elem_of_nil in *. lia. }
      repeat (apply elem_of_cons in Hc as [-> |Hc]; [reflexivity|]). by apply elem_of_nil in Hc.
    - change (js "https") with [104; 116; 116; 112; 115]%N in Hin.
      repeat (apply elem_of_cons in Hin as [-> |Hin]; [reflexivity|]). by apply elem_of_nil in Hin. }
  apply Forall_app_2; [|apply Forall_app_2; [by repeat constructor|done]].
  rewrite Forall_forall. intros c Hin. apply Hc.
  assert (ascii_lower c ∈ map ascii_lower scheme) as Hm by (by apply list_elem_of_fmap_2).
  rewrite !elem_of_cons, elem_of_nil in Hs. destruct Hs as [E|[E|[]]]; rewrite E in Hm; [|done].
  change (js "http") with [104; 116; 116; 112]%N in Hm.
  change (js "https") with [104; 116; 116; 112; 115]%N. set_solver.
Qed.

Lemma preview_text v u : http_text v → normalizePreviewUrl (Some v) = Some u → u = v.
Proof.
  intros Hv. unfold normalizePreviewUrl. rewrite trim_id by apply no_ws_trimmed, http_no_ws, Hv.
  destruct (existsb _ _); [|done]. by intros [= <-].
Qed.

(** A path of the relay that serves the content of one task. *)
Definition proxy_path (u : jsstr) : Prop :=
  ∃ id, u = js "/v1/videos/" ++ id ++ js "/content" ∧ Forall uri_safe id.

Lemma preview_url_ok raw o u :
  preview_url (parseVideoGenerationResult raw) = Ok o → o = Some u → http_text u ∨ proxy_path u.
Proof.
  set (result := parseVideoGenerationResult raw). unfold preview_url. intros E ->.
  set (url := normalizePreviewUrl (video_videoUrl result)) in *.
  assert (∀ v, url = Some v → http_text v) as Hurl.
  { intros v Hv. subst url. destruct (video_videoUrl result) as [w|] eqn:Ew; [|done].
    apply video_url_text in Ew. by rewrite (preview_text w v). }
  set (proxied := match video_taskId result with Some _ => _ | None => _ end) in *.
  assert (proxied = Ok (Some u) → http_text u ∨ proxy_path u) as Hp.
  { subst proxied. destruct (video_taskId result) as [id|].
    - intros Eb. apply exc_bind_Ok in Eb as (p & Eb & [= <-]).
      apply exc_bind_Ok in Eb as (e & Ee & [= <-]). right. exists e. split; [done|]. by eapply encode_safe.
    - intros [= Eu]. left. by apply Hurl. }
  destruct url as [v|]; [|by apply Hp]. destruct (isVideoApiContentUrl v); [by apply Hp|].
  injection E as <-. left. by apply Hurl.
Qed.

(** Whatever the relay answers, the URL that the playground shows for a
    video belongs to a task reported as completed, and is either an absolute
    HTTP URL without blanks or the path of the relay's content endpoint with
    an escaped task identifier: no other scheme and no other path. *)
Theorem video_preview_safe raw model mode res u :
  parsePlaygroundMediaResult raw model mode = Ok res →
  result_mode res = MediaVideo → result_mediaUrl res = Some u →
  result_status res = Some (js "completed") ∧ (http_text u ∨ proxy_path u).
Proof.
  unfold parsePlaygroundMediaResult. destruct (extractMediaErrorMessage raw); [done|].
  destruct (resolvePlaygroundMode _ _ _); [done| |].
  - unfold parseImageResult. destruct (image_status _); intros E Hm; try discriminate E;
      apply Ok_inj in E; rewrite <- E in Hm; discriminate Hm.
  - unfold parseVideoResult.
    destruct (video_status (parseVideoGenerationResult raw)); intros E _ Hu; try discriminate E;
      apply exc_bind_Ok in E as (o & E & [= <-]); cbn [result_mediaUrl result_status] in *;
      try discriminate Hu.
    destruct o as [v|]; [|done]. injection Hu as ->. split; [done|]. by eapply preview_url_ok.
Qed.
End Facts.

(** ** Samples *)

Definition no_credentials : UrlCredentials := λ _, false.

Definition sample_limits : ImageOptionLimits :=
  ImageLimits (strs ["low"; "high"]) (strs ["png"; "jpeg"]) (strs ["auto"; "transparent"])
    4 65536 8294400 3840 16 3.

Definition sample_contract : IntegrationParameters := {|
  p_image_options := Some sample_limits;
  p_duration_field := None;
  p_durations := None;
  p_resolutions := Some (strs ["1K"; "2K"]);
  p_ratios := Some (strs ["1:1"]);
  p_omit_ratio := false;
  p_ratio_field := Some (js "aspect_ratio");
  p_resolution_field := Some (js "resolution");
  p_request_resolution := None;
  p_image_field := Some (js "images");
  p_video_field := None;
  p_audio_field := None;
  p_min_images := None;
  p_max_images := 2;
  p_max_videos := 0;
  p_max_audios := 0;
  p_audio_needs_image := false;
  p_audio_requires_image := false;
  p_allow_frames := false;
  p_max_image_size_mb := None;
  p_max_video_size_mb := None;
  p_max_audio_size_mb := None;
|}.

Definition sample_info : option PlaygroundModelInfo :=
  Some (ModelInfo (Pricing None None
    (Some [Endpoint (js "image") (js "/v1/images/generations") (Some sample_contract)])) []).

Definition sample_selection : PlaygroundReferenceSelection := {|
  s_quality := Some (js "high");
  s_count := Some (of_Z 2);
  s_size := Some (js " 1024x1536 ");
  s_outputFormat := Some (js "jpeg");
  s_background := None;
  s_outputCompression := Some (of_Z 80);
  s_aspectRatio := None;
  s_resolution := Some (js "2k");
  s_images := Some (js "https://a/1.png https://a/2.png");
  s_videos := None;
  s_audios := None;
|}.

Definition sample_prompt : list Message :=
  [createUserMessage (js "k") (js "v") (js " a cat ")].

Definition sample_request : exc (option obj) :=
  buildPlaygroundMediaRequest (H := ascii_case_map) (H0 := sample_url) (H1 := no_credentials)
    (js "img") sample_prompt None IAuto [(js "model", VStr (js "other"))]
    (VideoSelection [] None None) sample_info sample_selection.

Example sample_request_text :
  (o ← sample_request; Ok (option_map (λ o, stringify (VObj o)) o))
  = Ok (Some (Some (jsq "{'model':'img','n':2,'quality':'high','output_format':'jpeg','size':'1024x1536','output_compression':80,'aspect_ratio':'1:1','resolution':'2K','images':['https://a/1.png','https://a/2.png'],'prompt':'a cat'}"))).
Proof. vm_compute. reflexivity. Qed.

Definition sample_body : obj := match sample_request with Ok (Some o) => o | _ => [] end.

Lemma playground_references_sent_witness :
  Forall (kind_sent (H0 := sample_url) (H1 := no_credentials) sample_body)
    (request_kinds (request_contract false sample_contract) [(js "model", VStr (js "other"))]
       sample_selection).
Proof.
  apply (playground_references_sent (H := ascii_case_map) (H0 := sample_url) (H1 := no_credentials)
    (js "img") sample_prompt None IAuto [(js "model", VStr (js "other"))]
    (VideoSelection [] None None) sample_info sample_selection sample_body sample_contract);
    vm_compute; reflexivity.
Defined.

Lemma image_request_in_bounds_witness :
  in_bounds sample_limits sample_selection [(js "model", VStr (js "other"))] sample_body.
Proof.
  apply (image_request_in_bounds (H := ascii_case_map) (H0 := sample_url) (H1 := no_credentials)
    (js "img") sample_prompt None IAuto [(js "model", VStr (js "other"))]
    (VideoSelection [] None None) sample_info sample_selection sample_body sample_contract);
    vm_compute; reflexivity.
Defined.

Lemma media_request_addressed_witness :
  prop (js "model") sample_body = VStr (js "img") ∧ prop (js "prompt") sample_body = VStr (js "a cat").
Proof.
  apply (media_request_addressed (H := ascii_case_map) (H0 := sample_url) (H1 := no_credentials)
    (js "img") sample_prompt None IAuto VAuto [(js "model", VStr (js "other"))]
    (VideoSelection [] None None) sample_info sample_selection (Some sample_body));
    vm_compute; reflexivity.
Defined.

Definition sample_answer : value :=
  VObj [(js "status", VStr (js "SUCCESS")); (js "task_id", VStr (js "a/b"))].

Lemma video_preview_safe_witness :
  http_text (js "/v1/videos/a%2Fb/content") ∨ proxy_path (js "/v1/videos/a%2Fb/content").
Proof.
  apply (video_preview_safe (H := ascii_case_map) sample_answer (js "sora2") None
    (match parsePlaygroundMediaResult (H := ascii_case_map) sample_answer (js "sora2") None with
     | Ok r => r | _ => MediaResult MediaImage [] None None None end)); vm_compute; reflexivity.
Defined.
