(* ===== verification/ChatStream.v ===== *)
(** * Generation of a reply

    Model of src/web/default/src/features/playground/hooks/use-stream-request.ts
    and use-chat-handler.ts, with the message handlers of
    features/playground/index.tsx, as a state machine: the messages, the
    server-sent-event sources and requests in flight, the events they deliver
    and the actions of the user.

    The source (sse.js) and the HTTP client are outside the sources: the
    machine receives their events.  A closed source dispatches no further
    event, except that [close()] may report the closed state to the
    [readystatechange] listener while it runs; the status the listener then
    reads is part of the event.  A source whose [stream()] throws dispatches
    nothing.  An aborted request is rejected: it reports no progress and no
    result.  Toasts, logging and rendering are not modelled; the endpoint of
    a submission is an argument, chosen by [MediaRouting]. *)
From S2P Require Import Prelude JsString JsNumber JsValue Messages MediaPolling.

Open Scope nat_scope.

(** ** The handlers of message updates *)

Inductive UpdateType := UReasoning | UContent.

Definition stream_update (ty : UpdateType) (chunk : jsstr) (m : Message) : exc Message :=
  if bool_decide (status m = Some ERROR) then Ok m
  else
    match ty with
    | UReasoning =>
        let own := match reasoning m with Some r => reasoning_content r | None => [] end in
        Ok (with_status STREAMING (with_reasoning (Some (Reason (own ++ chunk) (of_Z 0))) true m))
    | UContent => m' ← processStreamingContent m (Some chunk); Ok (with_status STREAMING m')
    end.

Definition handleStreamUpdate (ty : UpdateType) (chunk : jsstr) (ms : list Message)
    : exc (list Message) :=
  updateLastAssistantMessage ms (stream_update ty chunk).

Definition stream_complete (m : Message) : exc Message :=
  if bool_decide (status m = Some COMPLETE) || bool_decide (status m = Some ERROR) then Ok m
  else m' ← finalizeMessage m None; Ok (with_status COMPLETE m').

Definition handleStreamComplete (ms : list Message) : exc (list Message) :=
  updateLastAssistantMessage ms stream_complete.

Definition handleStreamError (text : jsstr) (code : option jsstr) (ms : list Message)
    : exc (list Message) :=
  updateAssistantMessageWithError ms text code.

(** The answer of a request that does not stream; [None] is a response
    without choices.  For a message without versions, which the playground
    never creates, the source leaves the identifier of the new version
    undefined, written as the empty text. *)
Definition replace_version (text : jsstr) (m : Message) : Message :=
  with_versions
    [Version (match versions m with v :: _ => version_id v | [] => [] end) text] m.

Definition chat_response (answer : option (jsstr * option jsstr)) (ms : list Message)
    : exc (list Message) :=
  match answer with
  | None => Ok ms
  | Some (text, api) =>
      updateLastAssistantMessage ms (λ m,
        m' ← finalizeMessage (replace_version text m) api; Ok (with_status COMPLETE m'))
  end.

Definition responses_answer (text : jsstr) (ms : list Message) : exc (list Message) :=
  updateLastAssistantMessage ms (λ m,
    m' ← finalizeMessage (updateCurrentVersionContent m text) None;
    Ok (with_status COMPLETE m')).

Definition media_progress (r : PlaygroundMediaResult) (ms : list Message) : exc (list Message) :=
  updateLastAssistantMessage ms (λ m,
    Ok (with_status STREAMING (updateCurrentVersionContent m (result_content r)))).

Definition result_media (model : jsstr) (r : PlaygroundMediaResult) : option MessageMedia :=
  match result_mediaUrl r with
  | Some url =>
      if truthy url
      then Some (Media (result_mode r) url (Some model) (result_taskId r) (result_status r))
      else None
  | None => None
  end.

Definition media_answer (model : jsstr) (r : PlaygroundMediaResult) (ms : list Message)
    : exc (list Message) :=
  updateLastAssistantMessage ms (λ m,
    m' ← finalizeMessage (updateCurrentVersionContent m (result_content r)) None;
    Ok (with_status COMPLETE (with_media (result_media model r) m'))).

Definition stop_update (m : Message) : exc Message :=
  if bool_decide (status m = Some LOADING) || bool_decide (status m = Some STREAMING)
  then m' ← finalizeMessage m None; Ok (with_status COMPLETE m')
  else Ok m.

(** ** The data of a stream event *)

(** [v?.[0]] and [v?.k]: [undefined] for [null], [undefined] and values
    without the property. *)
Definition opt_index0 (v : value) : value :=
  match v with
  | VArr (x :: _) => x
  | VStr (c :: _) => VStr [c]
  | VObj o => prop (js "0") o
  | _ => VUndef
  end.
Definition opt_prop (k : jsstr) (v : value) : value :=
  match v with VObj o => prop k o | _ => VUndef end.

(** The parts of [chunk.choices?.[0]?.delta] that are reported, as the text
    they append to a string; [Throw] for what is not JSON or is [null].  An
    object with a [toString] property of its own has no text and is left out. *)
Definition read_delta (data : jsstr) : exc (option jsstr * option jsstr) :=
  match json_parse data with
  | None => Throw
  | Some VNull => Throw
  | Some chunk =>
      let delta := opt_prop (js "delta") (opt_index0 (opt_prop (js "choices") chunk)) in
      let part k := let v := opt_prop (js k) delta in
                    if val_truthy v then to_string v else None in
      Ok (part "reasoning_content", part "content")
  end.

(** ** The machine *)

(** A request without a stream; a media request keeps the model it was sent
    for. *)
Inductive kind := KChat | KResponses | KMedia (model : jsstr).

Definition is_media (k : kind) : bool := match k with KMedia _ => true | _ => false end.

(** [sources_open] are the sources that dispatch events, [fresh] is the
    next identifier of a source or request, [pending] the requests in flight
    and [aborted] those whose controller was aborted. *)
Record chat := Chat {
  msgs : list Message;
  editingMessageKey : option jsstr;
  current : option nat;
  complete : bool;
  sources_open : list nat;
  fresh : nat;
  pending : list (nat * kind);
  mediaController : option nat;
  aborted : list nat;
  isChatGenerating : bool;
  isMediaGenerating : bool;
}.

Definition isStreaming (s : chat) : bool := is_some (current s).
Definition canStop (s : chat) : bool := isStreaming s || isMediaGenerating s.
Definition isGenerating (s : chat) : bool :=
  isStreaming s || isMediaGenerating s || isChatGenerating s.

Definition set_msgs (x : list Message) (s : chat) : chat :=
  Chat x (editingMessageKey s) (current s) (complete s) (sources_open s) (fresh s) (pending s)
    (mediaController s) (aborted s) (isChatGenerating s) (isMediaGenerating s).
Definition set_editing (x : option jsstr) (s : chat) : chat :=
  Chat (msgs s) x (current s) (complete s) (sources_open s) (fresh s) (pending s)
    (mediaController s) (aborted s) (isChatGenerating s) (isMediaGenerating s).
Definition set_current (x : option nat) (s : chat) : chat :=
  Chat (msgs s) (editingMessageKey s) x (complete s) (sources_open s) (fresh s) (pending s)
    (mediaController s) (aborted s) (isChatGenerating s) (isMediaGenerating s).
Definition set_complete (x : bool) (s : chat) : chat :=
  Chat (msgs s) (editingMessageKey s) (current s) x (sources_open s) (fresh s) (pending s)
    (mediaController s) (aborted s) (isChatGenerating s) (isMediaGenerating s).
Definition end_source (id : nat) (s : chat) : chat :=
  Chat (msgs s) (editingMessageKey s) (current s) (complete s)
    (filterb (λ x, negb (x =? id)) (sources_open s)) (fresh s) (pending s)
    (mediaController s) (aborted s) (isChatGenerating s) (isMediaGenerating s).

(** [onMessageUpdate]. *)
Definition update (f : list Message → exc (list Message)) (s : chat) : exc chat :=
  ms ← f (msgs s); Ok (set_msgs ms s).

(** ** The stream of a request *)

(** A new source: [sendStreamRequest] up to [source.stream()]. *)
Definition open_source (s : chat) : chat :=
  Chat (msgs s) (editingMessageKey s) (Some (fresh s)) false (fresh s :: sources_open s) (S (fresh s))
    (pending s)
    (mediaController s) (aborted s) (isChatGenerating s) (isMediaGenerating s).

Definition closed_text (status : N) : jsstr :=
  js "HTTP " ++ dec status ++ js ": " ++ CONNECTION_CLOSED.

(** [source.close()]: nothing for a closed source; otherwise the listener
    of [readystatechange] may run with the closed state, and [status] is the
    status it reads. *)
Definition source_close (status : option N) (id : nat) (s : chat) : exc chat :=
  if bool_decide (id ∉ sources_open s) then Ok s
  else
    let s := end_source id s in
    match status with
    | Some st =>
        if N.eqb st 200 || complete s then Ok s
        else s' ← update (handleStreamError (closed_text st) None) s; Ok (set_current None s')
    | None => Ok s
    end.

Definition closeSource (status : option N) (id : nat) (s : chat) : exc chat :=
  s' ← source_close status id s; Ok (set_current None s').

Definition handleError (status : option N) (id : nat) (text : jsstr) (code : option jsstr)
    (s : chat) : exc chat :=
  if complete s then Ok s
  else s' ← update (handleStreamError text code) s; closeSource status id s'.

(** The [message] event. *)
Definition on_message (status : option N) (id : nat) (data : jsstr) (s : chat) : exc chat :=
  if str_eqb data (js "[DONE]") then
    s' ← closeSource status id (set_complete true s); update handleStreamComplete s'
  else
    match read_delta data with
    | Ok (r, c) =>
        s1 ← match r with Some t => update (handleStreamUpdate UReasoning t) s | None => Ok s end;
        match c with Some t => update (handleStreamUpdate UContent t) s1 | None => Ok s1 end
    | Throw => handleError status id PARSE_ERROR None s
    | Fuel => Fuel
    end.

(** The text and code of an [error] event; no data is the empty text. *)
Definition error_text (data : jsstr) : jsstr * option jsstr :=
  let text := str_or data API_REQUEST_ERROR in
  if negb (truthy data) then (text, None)
  else
    match json_parse data with
    | None => (text, None)
    | Some parsed =>
        let e := opt_prop (js "error") parsed in
        if val_truthy e then
          let field k := let v := opt_prop (js k) e in
                         if val_truthy v then to_string v else None in
          (from_opt text (field "message"), field "code")
        else (text, None)
    end.

Definition on_error (status : option N) (id : nat) (readyState : nat) (data : jsstr) (s : chat)
    : exc chat :=
  if readyState =? 2 then Ok s
  else let '(text, code) := error_text data in handleError status id text code s.

Definition on_readystatechange (status : option N) (id : nat) (readyState : option nat)
    (s : chat) : exc chat :=
  match readyState, status with
  | Some r, Some st =>
      if (2 <=? r) && negb (N.eqb st 200) then handleError status id (closed_text st) None s
      else Ok s
  | _, _ => Ok s
  end.

Definition stopStream (status : option N) (s : chat) : exc chat :=
  match current s with
  | Some id => s' ← source_close status id s; Ok (set_current None s')
  | None => Ok s
  end.

(** [mediaController.current?.abort()]. *)
Definition abort_media (s : chat) : chat :=
  match mediaController s with
  | Some id =>
      Chat (msgs s) (editingMessageKey s) (current s) (complete s) (sources_open s) (fresh s) (pending s)
        (mediaController s) (id :: aborted s) (isChatGenerating s) (isMediaGenerating s)
  | None => s
  end.

Definition stopGeneration (status : option N) (s : chat) : exc chat :=
  s' ← stopStream status s;
  update (λ ms, updateLastAssistantMessage ms stop_update) (abort_media s').

(** ** Submitting *)

(** What a submission depends on: the value of [getPlaygroundMediaEndpoint],
    the settings of the playground, the translation function and whether
    [source.stream()] throws. *)
Record settings := Settings {
  set_media : option jsstr;
  set_responses : bool;
  set_stream : bool;
  set_extraBody : jsstr;
  set_model : jsstr;
  translate : jsstr → jsstr;
  start_throws : bool;
}.

Definition parsePlaygroundExtraBody (t : jsstr → jsstr) (text : jsstr) : jsstr + obj :=
  if negb (truthy (trim text)) then inr []
  else
    match json_parse text with
    | None => inl (t (js "Extra parameters must be valid JSON"))
    | Some (VObj o) => inr o
    | Some _ => inl (t (js "Extra parameters must be a JSON object"))
    end.

Definition sendStreamRequest (throws : bool) (s : chat) : exc chat :=
  let s1 := open_source s in
  if throws then
    s2 ← update (handleStreamError STREAM_START_ERROR None) s1;
    Ok (set_current None (end_source (fresh s) s2))
  else Ok s1.

Definition sendStreamingChat (c : settings) (s : chat) : exc chat :=
  match parsePlaygroundExtraBody (translate c) (set_extraBody c) with
  | inl text => update (handleStreamError text None) s
  | inr _ => sendStreamRequest (start_throws c) s
  end.

(** A request is in flight and its flag is set, up to the first [await]. *)
Definition start_request (k : kind) (s : chat) : chat :=
  Chat (msgs s) (editingMessageKey s) (current s) (complete s) (sources_open s) (S (fresh s))
    ((fresh s, k) :: pending s)
    (if is_media k then Some (fresh s) else mediaController s) (aborted s)
    (if is_media k then isChatGenerating s else true)
    (if is_media k then true else isMediaGenerating s).

Definition sendChat (c : settings) (s : chat) : exc chat :=
  match set_media c with
  | Some _ => Ok (start_request (KMedia (set_model c)) s)
  | None =>
      if set_responses c then Ok (start_request KResponses s)
      else if set_stream c then sendStreamingChat c s
      else Ok (start_request KChat s)
  end.

(** [updateMessages(newMessages); sendChat(newMessages)]. *)
Definition send (c : settings) (ms : list Message) (s : chat) : exc chat :=
  sendChat c (set_msgs ms s).

(** The identifiers [nanoid()] gives to the new messages. *)
Record ids := Ids { user_key : jsstr; user_version : jsstr; reply_key : jsstr; reply_version : jsstr }.

Definition loading (n : ids) : Message :=
  createLoadingAssistantMessage (reply_key n) (reply_version n).

Definition handleSendMessage (c : settings) (n : ids) (text : jsstr) (s : chat) : exc chat :=
  send c (msgs s ++ [createUserMessage (user_key n) (user_version n) text; loading n]) s.

Definition has_key (k : jsstr) (m : Message) : bool := str_eqb (key m) k.

Definition handleRegenerateMessage (c : settings) (n : ids) (k : jsstr) (s : chat) : exc chat :=
  match find_index (has_key k) (msgs s) with
  | None => Ok s
  | Some i => send c (take i (msgs s) ++ [loading n]) s
  end.

Definition handleDeleteMessage (k : jsstr) (s : chat) : exc chat :=
  Ok (set_msgs (filterb (λ m, negb (has_key k m)) (msgs s)) s).

Definition edit_messages (k newContent : jsstr) (ms : list Message) : list Message :=
  map (λ m, if has_key k m then replace_version newContent m else m) ms.

Definition applyEdit (c : settings) (n : ids) (newContent : jsstr) (submit : bool) (s : chat)
    : exc chat :=
  match editingMessageKey s with
  | None => Ok s
  | Some k =>
      if negb (truthy k) then Ok s
      else
        match find_index (has_key k) (msgs s) with
        | None => Ok s
        | Some i =>
            let updated := edit_messages k newContent (msgs s) in
            let s1 := set_editing None s in
            let from_user := match updated !! i with
                             | Some m => bool_decide (from m = USER)
                             | None => false
                             end in
            if negb submit || negb from_user then Ok (set_msgs updated s1)
            else send c (take (S i) updated ++ [loading n]) s1
        end
  end.

(** ** The end of a request without a stream *)

(** The fields of a failed request that its handler reads. *)
Record request_error := RequestError {
  data_message : option jsstr;
  data_error_message : option jsstr;
  data_error_code : option jsstr;
  error_message_text : option jsstr;
}.

Inductive answer :=
  | AnsChat (a : option (jsstr * option jsstr))
  | AnsResponses (text : jsstr)
  | AnsMedia (r : PlaygroundMediaResult)
  | AnsError (e : request_error).

Definition opt_or (a : option jsstr) (b : jsstr) : jsstr := str_or (from_opt [] a) b.

Definition error_report (k : kind) (e : request_error) : jsstr :=
  let rest := opt_or (data_message e) (opt_or (error_message_text e) API_REQUEST_ERROR) in
  match k with KChat => rest | _ => opt_or (data_error_message e) rest end.

Definition answer_update (k : kind) (a : answer) : list Message → exc (list Message) :=
  match a with
  | AnsChat c => chat_response c
  | AnsResponses t => responses_answer t
  | AnsMedia r => media_answer (match k with KMedia m => m | _ => [] end) r
  | AnsError e => handleStreamError (error_report k e) (data_error_code e)
  end.

(** The answers a request can get; an aborted one only fails. *)
Definition expected (s : chat) (id : nat) (k : kind) (a : answer) : bool :=
  match a, k with
  | AnsChat _, KChat | AnsResponses _, KResponses | AnsError _, _ => true
  | AnsMedia _, KMedia _ => negb (bool_decide (id ∈ aborted s))
  | _, _ => false
  end.

(** The [finally] block. *)
Definition finish_request (id : nat) (k : kind) (s : chat) : chat :=
  Chat (msgs s) (editingMessageKey s) (current s) (complete s) (sources_open s) (fresh s)
    (filterb (λ p, negb (p.1 =? id)) (pending s))
    (if is_media k then None else mediaController s) (aborted s)
    (if is_media k then isChatGenerating s else false)
    (if is_media k then false else isMediaGenerating s).

Definition on_answer (id : nat) (k : kind) (a : answer) (s : chat) : exc chat :=
  s' ← (match a with
        | AnsError _ =>
            if is_media k && bool_decide (id ∈ aborted s) then Ok s else update (answer_update k a) s
        | _ => update (answer_update k a) s
        end);
  Ok (finish_request id k s').

(** ** Steps *)

Inductive event :=
  | ESend (c : settings) (n : ids) (text : jsstr)
  | ERegenerate (c : settings) (n : ids) (k : jsstr)
  | EDelete (k : jsstr)
  | EEdit (k : option jsstr)
  | EApplyEdit (c : settings) (n : ids) (newContent : jsstr) (submit : bool)
  | EMessage (status : option N) (id : nat) (data : jsstr)
  | EError (status : option N) (id readyState : nat) (data : jsstr)
  | EReady (status : option N) (id : nat) (readyState : option nat)
  | EProgress (id : nat) (r : PlaygroundMediaResult)
  | EAnswer (id : nat) (k : kind) (a : answer)
  | EStop (status : option N).

(** When an event can happen.  The buttons of the input and of the messages
    are guarded by [isGenerating], those of the editor are not: they need a
    message that is edited and a text. *)
Definition enabled (s : chat) (e : event) : Prop :=
  match e with
  | ESend _ _ text => isGenerating s = false ∧ truthy (trim text) = true
  | ERegenerate _ _ _ | EDelete _ => isGenerating s = false
  | EEdit k => match k with Some _ => isGenerating s = false | None => True end
  | EApplyEdit _ _ text _ => is_some (editingMessageKey s) = true ∧ truthy (trim text) = true
  | EMessage _ id _ | EError _ id _ _ | EReady _ id _ => id ∈ sources_open s
  | EProgress id _ => (∃ model, (id, KMedia model) ∈ pending s) ∧ id ∉ aborted s
  | EAnswer id k a => (id, k) ∈ pending s ∧ expected s id k a = true
  | EStop _ => canStop s = true
  end.

Definition handle (e : event) (s : chat) : exc chat :=
  match e with
  | ESend c n text => handleSendMessage c n text s
  | ERegenerate c n k => handleRegenerateMessage c n k s
  | EDelete k => handleDeleteMessage k s
  | EEdit k => Ok (set_editing k s)
  | EApplyEdit c n text submit => applyEdit c n text submit s
  | EMessage st id data => on_message st id data s
  | EError st id rs data => on_error st id rs data s
  | EReady st id rs => on_readystatechange st id rs s
  | EProgress _ r => update (media_progress r) s
  | EAnswer id k a => on_answer id k a s
  | EStop st => stopGeneration st s
  end.

Inductive step (s : chat) (e : event) (s' : chat) : Prop :=
| Step : enabled s e → handle e s = Ok s' → step s e s'.

(** Runs whose steps all satisfy [ok]. *)
Inductive run (ok : chat → event → bool) (s : chat) : list event → chat → Prop :=
| run_refl : run ok s [] s
| run_step es s1 e s2 :
    run ok s es s1 → ok s1 e = true → step s1 e s2 → run ok s (es ++ [e]) s2.

(** Everything but two kinds of step: an edited message that is submitted
    while a reply is generated, and a response without choices. *)
Definition calm (s : chat) (e : event) : bool :=
  match e with
  | EApplyEdit _ _ _ true => negb (isGenerating s)
  | EAnswer _ _ (AnsChat None) => false
  | _ => true
  end.

(** The playground after loading its (sanitised) messages. *)
Definition init (ms : list Message) : chat :=
  Chat ms None None false [] 0 [] None [] false false.

(** ** Settled messages *)

Definition settled (ms : list Message) : Prop := Forall (λ m, is_stuck m = false) ms.

Lemma removelast_snoc {A} (l : list A) x : removelast (l ++ [x]) = l.
Proof. by rewrite removelast_app, app_nil_r by done. Qed.

Lemma update_last_cases ms f ms' :
  updateLastAssistantMessage ms f = Ok ms' →
  (ms' = ms ∧ ∀ l, last ms = Some l → from l ≠ ASSISTANT) ∨
  ∃ front l l', ms = front ++ [l] ∧ from l = ASSISTANT ∧ f l = Ok l' ∧ ms' = front ++ [l'].
Proof.
  unfold updateLastAssistantMessage. destruct (last ms) as [l|] eqn:E.
  - apply last_Some in E as [front ->]. case_bool_decide as Hl.
    + destruct (f l) as [l'| |] eqn:Ef; [|done|done]. cbn [mbind exc_bind]. intros [= <-].
      right. exists front, l, l'. by rewrite removelast_snoc.
    + intros [= <-]. left. split; [done|]. intros l' [= <-]. done.
  - intros [= <-]. by left.
Qed.

Lemma update_last_returns ms f : (∀ m, returns (f m)) → returns (updateLastAssistantMessage ms f).
Proof.
  intros Hf. unfold updateLastAssistantMessage. destruct (last ms) as [l|]; [|ret].
  case_bool_decide; [|ret]. apply returns_bind; [apply Hf|ret].
Qed.

(** Only the last message can be unfinished, before and after. *)
Lemma update_last_front ms f ms' :
  updateLastAssistantMessage ms f = Ok ms' → settled (removelast ms) → settled (removelast ms').
Proof.
  intros E Hs. apply update_last_cases in E as [[-> _]|(front & l & l' & -> & _ & _ & ->)]; [done|].
  by rewrite removelast_snoc in *.
Qed.

Lemma not_assistant_settled m : from m ≠ ASSISTANT → is_stuck m = false.
Proof. intros. unfold is_stuck. by rewrite bool_decide_false. Qed.

(** An update that settles the last message settles them all. *)
Lemma update_last_settles ms f ms' :
  (∀ l l', f l = Ok l' → is_stuck l' = false) →
  updateLastAssistantMessage ms f = Ok ms' → settled (removelast ms) → settled ms'.
Proof.
  intros Hf E Hs. apply update_last_cases in E as [[-> Hl]|(front & l & l' & -> & _ & El & ->)].
  - destruct (last ms) as [l|] eqn:E.
    + apply last_Some in E as [front ->]. rewrite removelast_snoc in Hs.
      apply Forall_app. split; [done|]. repeat constructor. apply not_assistant_settled. by apply Hl.
    + apply last_None in E as ->. constructor.
  - rewrite removelast_snoc in Hs. apply Forall_app. split; [done|]. repeat constructor. by eapply Hf.
Qed.

Lemma complete_settled m : is_stuck (with_status COMPLETE m) = false.
Proof. unfold is_stuck. simpl. apply andb_false_r. Qed.

Lemma error_settled m text code : is_stuck (error_message m text code) = false.
Proof. unfold is_stuck. simpl. apply andb_false_r. Qed.

Lemma finalized_settled m api m' :
  (x ← finalizeMessage m api; Ok (with_status COMPLETE x)) = Ok m' → is_stuck m' = false.
Proof.
  destruct (finalizeMessage m api); [|done|done]. cbn [mbind exc_bind]. intros [= <-].
  apply complete_settled.
Qed.

Lemma stream_complete_settled m m' : stream_complete m = Ok m' → is_stuck m' = false.
Proof.
  unfold stream_complete. destruct (_ || _) eqn:E; [|apply finalized_settled].
  intros [= <-]. unfold is_stuck. apply orb_true_iff in E as [E|E]; bool_to_prop; rewrite E;
    apply andb_false_r.
Qed.

Lemma stop_update_settled m m' : stop_update m = Ok m' → is_stuck m' = false.
Proof.
  unfold stop_update. destruct (_ || _) eqn:E; [apply finalized_settled|].
  intros [= <-]. unfold is_stuck. rewrite E. apply andb_false_r.
Qed.

Lemma handleStreamError_settles text code ms ms' :
  handleStreamError text code ms = Ok ms' → settled (removelast ms) → settled ms'.
Proof.
  apply update_last_settles. intros l l' [= <-]. apply error_settled.
Qed.

Lemma settled_front ms : settled ms → settled (removelast ms).
Proof.
  intros Hs. destruct (last ms) as [l|] eqn:E.
  - apply last_Some in E as [front ->]. rewrite removelast_snoc.
    apply Forall_app in Hs. tauto.
  - by apply last_None in E as ->.
Qed.

(** ** The handlers return *)

Lemma with_status_returns s (m : exc Message) :
  returns m → returns (x ← m; Ok (with_status s x)).
Proof. intros. apply returns_bind; [done|ret]. Qed.

Lemma stream_update_returns ty c m : returns (stream_update ty c m).
Proof.
  unfold stream_update. case_bool_decide; [ret|]. destruct ty; [ret|].
  apply with_status_returns, process_returns.
Qed.

Lemma update_returns f s : (∀ ms, returns (f ms)) → returns (update f s).
Proof. intros Hf. unfold update. apply returns_bind; [apply Hf|ret]. Qed.

Lemma error_returns text code s : returns (update (handleStreamError text code) s).
Proof. apply update_returns. intros. apply update_last_returns. ret. Qed.

Lemma source_close_returns st id s : returns (source_close st id s).
Proof.
  unfold source_close. case_bool_decide; [ret|]. destruct st as [st|]; [|ret].
  destruct (_ || _); [ret|]. apply returns_bind; [apply error_returns|ret].
Qed.

Lemma closeSource_returns st id s : returns (closeSource st id s).
Proof. apply returns_bind; [apply source_close_returns|ret]. Qed.

Lemma handleError_returns st id t c s : returns (handleError st id t c s).
Proof.
  unfold handleError. destruct (complete s); [ret|].
  apply returns_bind; [apply error_returns|]. intros. apply closeSource_returns.
Qed.

Lemma stream_complete_returns m : returns (stream_complete m).
Proof.
  unfold stream_complete. destruct (_ || _); [ret|]. apply with_status_returns, finalize_returns.
Qed.

Lemma stop_update_returns m : returns (stop_update m).
Proof.
  unfold stop_update. destruct (_ || _); [|ret]. apply with_status_returns, finalize_returns.
Qed.

Lemma read_delta_fuel data : read_delta data ≠ Fuel.
Proof. unfold read_delta. destruct (json_parse data) as [[]|]; done. Qed.

Lemma on_message_returns st id data s : returns (on_message st id data s).
Proof.
  unfold on_message. destruct (str_eqb _ _).
  - apply returns_bind; [apply closeSource_returns|]. intros s' _.
    apply update_returns. intros. apply update_last_returns, stream_complete_returns.
  - destruct (read_delta data) as [[r c]| |] eqn:E;
      [|apply handleError_returns|by apply read_delta_fuel in E].
    assert (∀ ty t s, returns (update (handleStreamUpdate ty t) s)) as Hu.
    { intros. apply update_returns. intros. apply update_last_returns, stream_update_returns. }
    apply returns_bind; [destruct r; [apply Hu|ret]|]. intros s1 _. destruct c; [apply Hu|ret].
Qed.

Lemma answer_returns k a ms : returns (answer_update k a ms).
Proof.
  destruct a as [[[t api]|]|t|r|e]; simpl; unfold chat_response, responses_answer, media_answer,
    handleStreamError, updateAssistantMessageWithError; try ret;
    apply update_last_returns; intros m; try ret; apply returns_bind; try apply finalize_returns; ret.
Qed.

Lemma on_answer_returns id k a s : returns (on_answer id k a s).
Proof.
  apply returns_bind; [|ret].
  destruct a; try destruct (_ && _); try ret; apply update_returns, answer_returns.
Qed.

Lemma stop_returns st s : returns (stopGeneration st s).
Proof.
  apply returns_bind.
  - unfold stopStream. destruct (current s); [|ret].
    apply returns_bind; [apply source_close_returns|ret].
  - intros s' _. apply update_returns. intros. apply update_last_returns, stop_update_returns.
Qed.

Lemma send_returns c ms s : returns (send c ms s).
Proof.
  unfold send, sendChat, sendStreamingChat, sendStreamRequest.
  destruct (set_media c), (set_responses c), (set_stream c); try ret.
  destruct (parsePlaygroundExtraBody _ _); [apply error_returns|].
  destruct (start_throws c); [|ret]. apply returns_bind; [apply error_returns|ret].
Qed.

Lemma handle_returns e s : returns (handle e s).
Proof.
  destruct e as [c n t|c n k|k|k|c n t b|st id d|st id rs d|st id rs|id r|id k a|st]; simpl;
    auto using on_message_returns, on_answer_returns, stop_returns; try ret.
  - apply send_returns.
  - unfold handleRegenerateMessage. destruct (find_index _ _); [apply send_returns|ret].
  - unfold applyEdit. destruct (editingMessageKey s) as [k|]; [|ret].
    destruct (negb _); [ret|]. destruct (find_index _ _); [|ret].
    destruct (_ || _); [ret|apply send_returns].
  - unfold on_error. destruct (_ =? _); [ret|]. destruct (error_text d). apply handleError_returns.
  - unfold on_readystatechange. destruct rs, st; try ret.
    destruct (_ && _); [apply handleError_returns|ret].
  - apply update_returns. intros. apply update_last_returns. ret.
Qed.

(** ** The invariant of calm runs *)

(** At most one source or request is in flight, and the flags tell which. *)
Definition pending_ok (s : chat) : Prop :=
  match pending s with
  | [] => isChatGenerating s = false ∧ isMediaGenerating s = false ∧ mediaController s = None
  | [(id, k)] =>
      isChatGenerating s = negb (is_media k) ∧ isMediaGenerating s = is_media k ∧
      mediaController s = if is_media k then Some id else None
  | _ => False
  end.

Record resources (s : chat) : Prop := {
  res_open : sources_open s = match current s with Some id => [id] | None => [] end;
  res_pending : pending_ok s;
  res_stream : isStreaming s = true → pending s = [] ∧ complete s = false;
  res_aborted : ∀ id, id ∈ aborted s → id < fresh s;
  res_controller : ∀ id, mediaController s = Some id → id < fresh s;
}.

Record inv (s : chat) : Prop := {
  inv_resources : resources s;
  inv_front : settled (removelast (msgs s));
  inv_idle : isGenerating s = false → settled (msgs s);
  inv_aborted : ∀ id k, (id, k) ∈ pending s → id ∈ aborted s → settled (msgs s);
}.

Lemma inv_settled s : resources s → settled (msgs s) → inv s.
Proof. intros. split; [done|by apply settled_front|done|done]. Qed.

Lemma res_msgs ms s : resources s → resources (set_msgs ms s).
Proof. intros []. by split. Qed.

Lemma res_editing x s : resources s → resources (set_editing x s).
Proof. intros []. by split. Qed.

Lemma idle_spec s :
  resources s → isGenerating s = false → current s = None ∧ sources_open s = [] ∧ pending s = [].
Proof.
  intros [Ho Hp _ _ _] Hg. unfold isGenerating, isStreaming in Hg.
  apply orb_false_iff in Hg as [Hg Hc]. apply orb_false_iff in Hg as [Hcur Hm].
  destruct (current s); [done|]. split; [done|]. split; [done|].
  unfold pending_ok in Hp. destruct (pending s) as [|[id k] [|]]; [done| |done].
  destruct Hp as (H1 & H2 & _). rewrite H1 in Hc. rewrite H2 in Hm. by destruct (is_media k).
Qed.

Lemma update_msgs f s s' : update f s = Ok s' → ∃ ms, f (msgs s) = Ok ms ∧ s' = set_msgs ms s.
Proof.
  unfold update. destruct (f (msgs s)) as [ms| |]; [|done|done]. cbn [mbind exc_bind].
  intros [= <-]. by exists ms.
Qed.

(** *** Sources *)

Lemma open_source_current s id :
  resources s → id ∈ sources_open s → current s = Some id ∧ complete s = false.
Proof.
  intros [Ho _ Hs _ _]. unfold isStreaming in Hs. rewrite Ho.
  destruct (current s) as [x|]; simpl in *; [|by intros ?%elem_of_nil].
  intros ->%list_elem_of_singleton. split; [done|]. by apply Hs.
Qed.

(** The state after the current source is closed. *)
Definition closed_state (ms : list Message) (s : chat) : chat :=
  Chat ms (editingMessageKey s) None (complete s) [] (fresh s) (pending s)
    (mediaController s) (aborted s) (isChatGenerating s) (isMediaGenerating s).

Lemma closeSource_spec st id s s' :
  sources_open s = [id] → closeSource st id s = Ok s' →
  ∃ ms, s' = closed_state ms s ∧
    (ms = msgs s ∨ complete s = false ∧ ∃ text, handleStreamError text None (msgs s) = Ok ms).
Proof.
  intros Ho. unfold closeSource, source_close. rewrite bool_decide_false
    by (intros Hn; apply Hn; rewrite Ho; apply list_elem_of_here).
  assert (sources_open (end_source id s) = []) as He.
  { simpl. rewrite Ho. simpl. by rewrite Nat.eqb_refl. }
  destruct st as [st|]; [destruct (_ || _) eqn:E|].
  - cbn [mbind exc_bind]. intros [= <-]. exists (msgs s). split; [|by left].
    unfold set_current, closed_state. by rewrite He.
  - destruct (update _ _) as [s1| |] eqn:E1; [|done|done]. cbn [mbind exc_bind]. intros [= <-].
    apply update_msgs in E1 as (ms & E1 & ->). exists ms. split.
    + unfold set_current, closed_state, set_msgs. simpl in *. by rewrite He.
    + right. apply orb_false_iff in E as [_ E]. split; [done|]. by eexists.
  - cbn [mbind exc_bind]. intros [= <-]. exists (msgs s). split; [|by left].
    unfold set_current, closed_state. by rewrite He.
Qed.

Lemma res_closed ms s : resources s → resources (closed_state ms s).
Proof. intros []. by split. Qed.

Lemma res_complete_closed ms s : resources s → resources (closed_state ms (set_complete true s)).
Proof. intros []. by split. Qed.

Lemma closeSource_settles st id s s' :
  resources s → id ∈ sources_open s → settled (msgs s) → closeSource st id s = Ok s' →
  resources s' ∧ settled (msgs s').
Proof.
  intros Hr Hid Hs E. destruct (open_source_current s id Hr Hid) as [Hc _].
  apply closeSource_spec in E as (ms & -> & H); [|by rewrite (res_open _ Hr), Hc].
  split; [by apply res_closed|]. simpl. destruct H as [->|(_ & t & H)]; [done|].
  eapply handleStreamError_settles; [exact H|by apply settled_front].
Qed.

(** An error on an open source ends the generation and settles. *)
Lemma handleError_inv st id t c s s' :
  inv s → id ∈ sources_open s → handleError st id t c s = Ok s' → inv s'.
Proof.
  intros Hinv Hid. pose proof (inv_resources s Hinv) as Hr.
  destruct (open_source_current s id Hr Hid) as [_ Hc]. unfold handleError. rewrite Hc.
  destruct (update _ s) as [s1| |] eqn:E; [|done|done]. cbn [mbind exc_bind].
  apply update_msgs in E as (ms & E & ->). intros E2.
  apply closeSource_settles in E2 as [H1 H2]; [|by apply res_msgs|done|].
  - by apply inv_settled.
  - eapply handleStreamError_settles; [exact E|apply (inv_front _ Hinv)].
Qed.

(** An update of the last message while generating. *)
Lemma generating_update_inv f s s' :
  inv s → isGenerating s = true → (∀ id k, (id, k) ∈ pending s → id ∉ aborted s) →
  update (λ ms, updateLastAssistantMessage ms f) s = Ok s' →
  inv s' ∧ ∃ ms, s' = set_msgs ms s.
Proof.
  intros Hinv Hg Ha E. apply update_msgs in E as (ms & E & ->). split; [|by exists ms].
  split; [by apply res_msgs, inv_resources| | |].
  - eapply update_last_front; [exact E|apply (inv_front _ Hinv)].
  - change (isGenerating (set_msgs ms s)) with (isGenerating s). congruence.
  - intros id k Hk Hid. by apply Ha in Hk.
Qed.

Lemma stream_update_inv ty t s s' :
  inv s → isStreaming s = true → update (handleStreamUpdate ty t) s = Ok s' →
  inv s' ∧ isStreaming s' = true.
Proof.
  intros Hinv Hs E. apply generating_update_inv in E as (Hi & ms & ->); try done.
  - unfold isGenerating. by rewrite Hs.
  - destruct (res_stream _ (inv_resources _ Hinv) Hs) as [-> _].
    intros id k Hk. by apply elem_of_nil in Hk.
Qed.

Lemma on_message_inv st id data s s' :
  inv s → id ∈ sources_open s → on_message st id data s = Ok s' → inv s'.
Proof.
  intros Hinv Hid. pose proof (inv_resources s Hinv) as Hr.
  destruct (open_source_current s id Hr Hid) as [Hcur _]. unfold on_message.
  assert (isStreaming s = true) as Hg by (unfold isStreaming; by rewrite Hcur).
  destruct (str_eqb data _).
  - destruct (closeSource _ _ _) as [s1| |] eqn:E1; [|done|done]. cbn [mbind exc_bind].
    apply closeSource_spec in E1 as (ms & -> & [->|[? _]]);
      [|done|by simpl; rewrite (res_open _ Hr), Hcur].
    intros E. apply update_msgs in E as (ms & E & ->). apply inv_settled.
    + by apply res_msgs, res_complete_closed.
    + eapply update_last_settles; [apply stream_complete_settled|exact E|].
      apply (inv_front _ Hinv).
  - destruct (read_delta data) as [[r c]| |]; [|by apply handleError_inv|done].
    destruct r as [t|]; cbn [mbind exc_bind].
    + destruct (update (handleStreamUpdate UReasoning t) s) as [s1| |] eqn:E1; [|done|done].
      cbn [mbind exc_bind]. apply stream_update_inv in E1 as (I1 & G1); [|done|done].
      destruct c as [t'|]; [|by intros [= <-]]. intros E2. by apply stream_update_inv in E2 as (?&_).
    + destruct c as [t'|]; [|by intros [= <-]]. intros E2. by apply stream_update_inv in E2 as (?&_).
Qed.

(** *** Submissions *)

Lemma res_start k s : resources s → isGenerating s = false → resources (start_request k s).
Proof.
  intros Hr Hg. pose proof (idle_spec s Hr Hg) as (Hc & Ho & Hp).
  destruct Hr as [H1 H2 _ H4 H5]. unfold pending_ok in H2. rewrite Hp in H2.
  destruct H2 as (Ha & Hb & Hm). split; simpl.
  - done.
  - unfold pending_ok. simpl. rewrite Hp. by destruct (is_media k); rewrite ?Ha, ?Hb, ?Hm.
  - unfold isStreaming. simpl. by rewrite Hc.
  - intros id Hid. apply H4 in Hid. lia.
  - intros id. destruct (is_media k); [intros [= <-]; lia|]. by rewrite Hm.
Qed.

Lemma start_inv k s :
  resources s → isGenerating s = false → settled (removelast (msgs s)) → inv (start_request k s).
Proof.
  intros Hr Hg Hf. pose proof (idle_spec s Hr Hg) as (_ & _ & Hp).
  split; [by apply res_start|done| |].
  - unfold isGenerating. simpl. destruct (is_media k); by rewrite ?orb_true_r.
  - simpl. rewrite Hp. intros id k' Hid%list_elem_of_singleton Ha. injection Hid as -> ->.
    apply (res_aborted _ Hr) in Ha. lia.
Qed.

Lemma res_source s : resources s → isGenerating s = false → resources (open_source s).
Proof.
  intros Hr Hg. pose proof (idle_spec s Hr Hg) as (Hc & Ho & Hp).
  destruct Hr as [H1 H2 _ H4 H5]. split; simpl.
  - by rewrite Ho.
  - done.
  - by rewrite Hp.
  - intros id Hid. apply H4 in Hid. lia.
  - intros id Hid. apply H5 in Hid. lia.
Qed.

(** The state after a source that did not start. *)
Lemma start_fails_resources ms s :
  resources s → isGenerating s = false →
  resources (set_current None (end_source (fresh s) (set_msgs ms (open_source s)))).
Proof.
  intros Hr Hg. pose proof (idle_spec s Hr Hg) as (Hc & Ho & Hp).
  destruct (res_source s Hr Hg) as [_ H2 _ H4 H5]. split; simpl; try done.
  by rewrite Ho, Nat.eqb_refl.
Qed.

Lemma send_inv c ms n s s' :
  resources s → isGenerating s = false → settled ms → send c (ms ++ [loading n]) s = Ok s' → inv s'.
Proof.
  intros Hr Hg Hms. unfold send. set (s0 := set_msgs (ms ++ [loading n]) s).
  assert (resources s0) as Hr0 by by apply res_msgs.
  assert (isGenerating s0 = false) as Hg0 by done.
  assert (settled (removelast (msgs s0))) as Hf by by simpl; rewrite removelast_snoc.
  clearbody s0. clear s Hr Hg.
  unfold sendChat, sendStreamingChat, sendStreamRequest. destruct (set_media c).
  { intros [= <-]. by apply start_inv. }
  destruct (set_responses c). { intros [= <-]. by apply start_inv. }
  destruct (set_stream c); [|intros [= <-]; by apply start_inv].
  destruct (parsePlaygroundExtraBody _ _) as [text|o].
  - intros E. apply update_msgs in E as (ms' & E & ->).
    apply inv_settled; [by apply res_msgs|]. by eapply handleStreamError_settles.
  - destruct (start_throws c).
    + destruct (update _ _) as [s1| |] eqn:E; [|done|done]. cbn [mbind exc_bind]. intros [= <-].
      apply update_msgs in E as (ms' & E & ->).
      apply inv_settled; [by apply start_fails_resources|]. by eapply handleStreamError_settles.
    + intros [= <-]. pose proof (idle_spec s0 Hr0 Hg0) as (_ & _ & Hp).
      split; [by apply res_source|done|done|].
      simpl. rewrite Hp. intros ?? H. by apply elem_of_nil in H.
Qed.

(** *** Changes of the list of messages *)

Lemma settled_filter f ms : settled ms → settled (filterb f ms).
Proof.
  unfold settled. rewrite !Forall_forall. intros H m Hm. apply filterb_elem in Hm as [Hm _]. by apply H.
Qed.

Lemma edit_keeps_status k t m :
  is_stuck (if has_key k m then replace_version t m else m) = is_stuck m.
Proof. by destruct (has_key k m). Qed.

Lemma settled_edit k t ms : settled ms ↔ settled (edit_messages k t ms).
Proof.
  unfold settled, edit_messages. rewrite Forall_map. apply Forall_iff. intros m. simpl.
  by rewrite edit_keeps_status.
Qed.

Lemma removelast_map {A B} (f : A → B) l : removelast (map f l) = map f (removelast l).
Proof. induction l as [|x [|y l] IH]; simpl in *; [done|done|]. by rewrite IH. Qed.

Lemma applyEdit_inv c n t b s s' :
  inv s → (b = true → isGenerating s = false) → applyEdit c n t b s = Ok s' → inv s'.
Proof.
  intros Hinv Hb. pose proof (inv_resources _ Hinv) as Hr. unfold applyEdit.
  destruct (editingMessageKey s) as [k|]; [|by intros [= <-]].
  destruct (negb _); [by intros [= <-]|]. destruct (find_index _ _) as [i|]; [|by intros [= <-]].
  destruct (_ || _) eqn:E.
  - intros [= <-]. destruct Hinv as [_ H2 H3 H4]. split; simpl.
    + by apply res_msgs, res_editing.
    + unfold edit_messages. rewrite removelast_map. by apply settled_edit.
    + intros Hg. by apply settled_edit, H3.
    + intros id k' Hk Ha. apply settled_edit. by eapply H4.
  - apply orb_false_iff in E as [E _]. apply negb_false_iff in E. specialize (Hb E).
    apply send_inv; [by apply res_editing|done|]. apply Forall_take, settled_edit.
    by apply (inv_idle _ Hinv).
Qed.

(** *** Answers and stops *)

Lemma answer_settles k a ms ms' :
  a ≠ AnsChat None → answer_update k a ms = Ok ms' → settled (removelast ms) → settled ms'.
Proof.
  intros Ha. destruct a as [[[t api]|]|t|r|e]; simpl; try done;
    [apply update_last_settles..|apply handleStreamError_settles]; intros l l';
    try apply finalized_settled.
  destruct (finalizeMessage _ _); [|done|done]. cbn [mbind exc_bind]. intros [= <-].
  apply complete_settled.
Qed.

Lemma pending_single s id k : resources s → (id, k) ∈ pending s → pending s = [(id, k)].
Proof.
  intros [_ Hp _ _ _] Hin. unfold pending_ok in Hp.
  destruct (pending s) as [|[x y] [|]]; [by apply elem_of_nil in Hin| |done].
  by apply list_elem_of_singleton in Hin as [= -> ->].
Qed.

Lemma finish_resources id k s :
  resources s → (id, k) ∈ pending s → resources (finish_request id k s).
Proof.
  intros Hr Hin. pose proof (pending_single s id k Hr Hin) as Hp.
  destruct Hr as [H1 H2 H3 H4 H5]. unfold pending_ok in H2. rewrite Hp in H2.
  destruct H2 as (Ha & Hb & Hm). split; simpl; try done.
  - unfold pending_ok. simpl. rewrite Hp. simpl. rewrite Nat.eqb_refl. simpl.
    by destruct (is_media k); rewrite ?Ha, ?Hb, ?Hm.
  - intros Hs. destruct (H3 Hs) as [Hn _]. rewrite Hp in Hn. done.
  - intros x. destruct (is_media k); [done|apply H5].
Qed.

Lemma on_answer_inv id k a s s' :
  inv s → (id, k) ∈ pending s → a ≠ AnsChat None → on_answer id k a s = Ok s' → inv s'.
Proof.
  intros Hinv Hin Ha. pose proof (inv_resources _ Hinv) as Hr. unfold on_answer.
  destruct (match a with AnsError _ => _ | _ => _ end) as [s1| |] eqn:E; [|done|done].
  cbn [mbind exc_bind]. intros [= <-].
  assert (s1 = s ∧ id ∈ aborted s ∨ update (answer_update k a) s = Ok s1) as [[-> Hab]|Hu].
  { destruct a; try by right. destruct (_ && _) eqn:E'; [|by right].
    injection E as <-. left. split; [done|]. by bool_to_prop. }
  - apply inv_settled; [by apply finish_resources|]. by apply (inv_aborted _ Hinv id k).
  - apply update_msgs in Hu as (ms & Hu & ->).
    apply inv_settled; [by apply finish_resources; [apply res_msgs|]|].
    eapply answer_settles; [done|exact Hu|apply (inv_front _ Hinv)].
Qed.

Lemma res_abort s : resources s → resources (abort_media s).
Proof.
  intros Hr. unfold abort_media. destruct (mediaController s) as [id|] eqn:E; [|done].
  destruct Hr as [H1 H2 H3 H4 H5]. rewrite E in H5. split; try done; simpl.
  - unfold pending_ok in *. simpl. by rewrite E in H2.
  - intros x [->|Hx]%elem_of_cons; [by apply H5|by apply H4].
Qed.

Lemma abort_msgs s : msgs (abort_media s) = msgs s.
Proof. unfold abort_media. by destruct (mediaController s). Qed.

Lemma stop_inv st s s' : inv s → stopGeneration st s = Ok s' → inv s'.
Proof.
  intros Hinv. pose proof (inv_resources _ Hinv) as Hr. unfold stopGeneration.
  destruct (stopStream st s) as [s1| |] eqn:E; [|done|done]. cbn [mbind exc_bind].
  assert (resources s1 ∧ settled (removelast (msgs s1))) as [Hr1 Hf].
  { unfold stopStream in E. destruct (current s) as [id|] eqn:Hc.
    - apply closeSource_spec in E as (ms & -> & H); [|by rewrite (res_open _ Hr), Hc].
      split; [by apply res_closed|]. simpl. destruct H as [->|(_ & t & H)].
      + apply (inv_front _ Hinv).
      + eapply update_last_front; [exact H|apply (inv_front _ Hinv)].
    - injection E as <-. split; [done|apply (inv_front _ Hinv)]. }
  intros E2. apply update_msgs in E2 as (ms & E2 & ->).
  apply inv_settled; [by apply res_msgs, res_abort|].
  eapply update_last_settles; [apply stop_update_settled|exact E2|]. by rewrite abort_msgs.
Qed.

(** *** Steps *)

Lemma send_user_inv c n t s s' :
  inv s → isGenerating s = false → handleSendMessage c n t s = Ok s' → inv s'.
Proof.
  intros Hinv Hg. unfold handleSendMessage.
  replace (msgs s ++ [createUserMessage (user_key n) (user_version n) t; loading n])
    with ((msgs s ++ [createUserMessage (user_key n) (user_version n) t]) ++ [loading n])
    by by rewrite <- app_assoc.
  apply send_inv; [apply (inv_resources _ Hinv)|done|].
  apply Forall_app. split; [by apply (inv_idle _ Hinv)|by repeat constructor].
Qed.

Lemma progress_inv id r s s' :
  inv s → enabled s (EProgress id r) → update (media_progress r) s = Ok s' → inv s'.
Proof.
  intros Hinv [[model Hin] Ha] E. pose proof (inv_resources _ Hinv) as Hr.
  pose proof (pending_single s _ _ Hr Hin) as Hp.
  apply generating_update_inv in E as [? _]; try done.
  - destruct Hr as [_ H2 _ _ _]. unfold pending_ok in H2. rewrite Hp in H2.
    destruct H2 as (_ & H2 & _). unfold isGenerating. rewrite H2. by rewrite orb_true_r.
  - rewrite Hp. intros x k Hx%list_elem_of_singleton. by injection Hx as -> ->.
Qed.

Lemma step_inv s e s' : inv s → calm s e = true → step s e s' → inv s'.
Proof.
  intros Hinv Hc [He E]. pose proof (inv_resources _ Hinv) as Hr.
  destruct e as [c n t|c n k|k|k|c n t b|st id d|st id rs d|st id rs|id r|id k a|st];
    simpl in He, E.
  - destruct He as [Hg _]. by eapply send_user_inv; [| |exact E].
  - unfold handleRegenerateMessage in E. destruct (find_index _ _); [|by injection E as <-].
    eapply send_inv; [exact Hr|done| |exact E]. by apply Forall_take, (inv_idle _ Hinv).
  - injection E as <-. apply inv_settled; [by apply res_msgs|].
    by apply settled_filter, (inv_idle _ Hinv).
  - injection E as <-. destruct Hinv. split; [by apply res_editing|done|done|done].
  - eapply applyEdit_inv; [exact Hinv| |exact E]. intros ->. simpl in Hc. by bool_to_prop.
  - by eapply on_message_inv.
  - unfold on_error in E. destruct (_ =? _); [by injection E as <-|].
    destruct (error_text d). by eapply handleError_inv.
  - unfold on_readystatechange in E. destruct rs, st; try (by injection E as <-).
    destruct (_ && _); [by eapply handleError_inv|by injection E as <-].
  - by eapply progress_inv.
  - destruct He as [Hin _]. eapply on_answer_inv; [done|done| |exact E]. intros ->. done.
  - by eapply stop_inv.
Qed.

Lemma init_inv ms : settled ms → inv (init ms).
Proof.
  intros Hms. apply inv_settled; [|done]. split; try done. intros id Hid. by apply elem_of_nil in Hid.
Qed.

Lemma run_inv s es s' : inv s → run calm s es s' → inv s'.
Proof. intros Hi Hr. induction Hr as [|es s1 e s2 Hr IH Hok Hst]; [done|]. by eapply step_inv. Qed.

(** *** Runs are determined by their events *)

Lemma step_det s e s1 s2 : step s e s1 → step s e s2 → s1 = s2.
Proof. intros [_ H1] [_ H2]. congruence. Qed.

Lemma run_snoc_inv ok s es e s' :
  run ok s (es ++ [e]) s' → ∃ s1, run ok s es s1 ∧ step s1 e s'.
Proof.
  intros H. inversion H as [Heq|es' s1 e' s2 Hr Hok Hst Heq].
  - by destruct es.
  - apply app_inj_tail in Heq as [-> ->]. by exists s1.
Qed.

Lemma run_det ok s es s1 s2 : run ok s es s1 → run ok s es s2 → s1 = s2.
Proof.
  revert s1 s2. induction es as [|e es IH] using rev_ind; intros s1 s2 H1 H2.
  - inversion H1 as [|es' ????? Heq]; [|by destruct es'].
    inversion H2 as [|es'' ????? Heq]; [congruence|by destruct es''].
  - apply run_snoc_inv in H1 as (x & H1 & E1), H2 as (y & H2 & E2).
    rewrite (IH x y H1 H2) in E1. by eapply step_det.
Qed.

Lemma run_snoc ok s es s1 e s2 :
  run ok s es s1 → ok s1 e = true → enabled s1 e → handle e s1 = Ok s2 → run ok s (es ++ [e]) s2.
Proof. intros. eapply run_step; [done|done|by split]. Qed.

(** ** A reply that streams in *)

(** The settings lead to a stream that starts. *)
Definition streams (c : settings) : Prop :=
  set_media c = None ∧ set_responses c = false ∧ set_stream c = true ∧ start_throws c = false ∧
  ∃ o, parsePlaygroundExtraBody (translate c) (set_extraBody c) = inr o.

Lemma send_streams c ms s : streams c → send c ms s = Ok (open_source (set_msgs ms s)).
Proof.
  intros (H1 & H2 & H3 & H4 & o & H5). unfold send, sendChat, sendStreamingChat, sendStreamRequest.
  by rewrite H1, H2, H3, H4, H5.
Qed.

(** The data of a chunk, and the content it adds. *)
Definition is_delta (data : jsstr) : Prop :=
  str_eqb data (js "[DONE]") = false ∧ ∃ d, read_delta data = Ok d.
Definition delta_content (data : jsstr) : jsstr :=
  match read_delta data with Ok (_, Some t) => t | _ => [] end.

(** An assistant message that has received [acc]. *)
Definition receiving (m : Message) (acc : jsstr) : Prop :=
  from m = ASSISTANT ∧ content_of m = acc ∧
  (status m = Some LOADING ∨ status m = Some STREAMING).

Lemma receiving_not_error m acc : receiving m acc → bool_decide (status m = Some ERROR) = false.
Proof. intros (_ & _ & [-> | ->]); done. Qed.

Lemma receive_reasoning m acc t :
  receiving m acc → ∃ m', stream_update UReasoning t m = Ok m' ∧ receiving m' acc.
Proof.
  intros H. unfold stream_update. rewrite (receiving_not_error m acc H).
  eexists. split; [done|]. destruct H as (H1 & H2 & _). split; [done|]. split; [done|]. by right.
Qed.

Lemma receive_content m acc t :
  receiving m acc → ∃ m', stream_update UContent t m = Ok m' ∧ receiving m' (acc ++ t).
Proof.
  intros H. unfold stream_update. rewrite (receiving_not_error m acc H).
  destruct (process_returns m (Some t)) as [m' E]. rewrite E. cbn [mbind exc_bind].
  eexists. split; [done|]. apply process_spec in E as (Hc & Hf & _).
  destruct H as (H1 & H2 & _). split; [by simpl; rewrite Hf|]. split; [|by right].
  change (content_of m' = acc ++ t). by rewrite Hc, H2.
Qed.

Lemma update_last_receiving ms front m acc f m' :
  ms = front ++ [m] → receiving m acc → f m = Ok m' →
  updateLastAssistantMessage ms f = Ok (front ++ [m']).
Proof.
  intros -> (Hf & _) E. unfold updateLastAssistantMessage.
  by rewrite last_snoc, bool_decide_true, E, removelast_snoc by done.
Qed.

Lemma receive_delta st id data front m acc s :
  is_delta data → msgs s = front ++ [m] → receiving m acc →
  ∃ m', on_message st id data s = Ok (set_msgs (front ++ [m']) s) ∧
        receiving m' (acc ++ delta_content data).
Proof.
  intros [Hd [[r c] Hr]] Hs Hm. unfold on_message, delta_content. rewrite Hd, Hr.
  assert (∃ m1, (match r with Some t => update (handleStreamUpdate UReasoning t) s | None => Ok s end)
                = Ok (set_msgs (front ++ [m1]) s) ∧ receiving m1 acc) as (m1 & E1 & H1).
  { destruct r as [t|].
    - destruct (receive_reasoning m acc t Hm) as (m1 & E & H1). exists m1. split; [|done].
      unfold update, handleStreamUpdate. by rewrite (update_last_receiving _ front m acc _ m1).
    - exists m. split; [|done]. rewrite <- Hs. by destruct s. }
  rewrite E1. cbn [mbind exc_bind]. destruct c as [t|].
  - destruct (receive_content m1 acc t H1) as (m2 & E & H2). exists m2. split; [|done].
    unfold update, handleStreamUpdate. by erewrite update_last_receiving.
  - exists m1. by rewrite app_nil_r.
Qed.

(** Chunks of the open source arrive one after the other. *)
Lemma receive_deltas id datas front m acc s0 es s :
  run (λ _ _, true) s0 es s → id ∈ sources_open s →
  Forall is_delta datas → msgs s = front ++ [m] → receiving m acc →
  ∃ m', run (λ _ _, true) s0 (es ++ map (EMessage None id) datas) (set_msgs (front ++ [m']) s) ∧
        receiving m' (acc ++ concat (map delta_content datas)).
Proof.
  intros Hrun Hid Hd Hs Hm. induction datas as [|d datas IH] using rev_ind.
  - exists m. simpl. rewrite !app_nil_r, <- Hs. split; [by destruct s|done].
  - apply Forall_app in Hd as [Hd Hx]. apply Forall_cons in Hx as [Hx _].
    destruct (IH Hd) as (m1 & H1 & R1).
    destruct (receive_delta None id d front m1 _ (set_msgs (front ++ [m1]) s) Hx eq_refl R1)
      as (m2 & E2 & R2).
    exists m2. rewrite !map_app, concat_app, !app_assoc. simpl. rewrite app_nil_r. split; [|done].
    by eapply run_snoc; [exact H1| | |exact E2].
Qed.

(** [[DONE]] finalises the message. *)
Lemma receive_done id front m acc s :
  id ∈ sources_open s → msgs s = front ++ [m] → receiving m acc →
  ∃ m' p ss, parseThinkTags acc = Ok p ∧ content_of m' = visibleContent p ∧
    status m' = Some COMPLETE ∧ from m' = ASSISTANT ∧
    on_message None id (js "[DONE]") s =
      Ok (Chat (front ++ [m']) (editingMessageKey s) None true ss (fresh s) (pending s)
            (mediaController s) (aborted s) (isChatGenerating s) (isMediaGenerating s)).
Proof.
  intros Hid Hs Hm. destruct (finalize_returns m None) as [m1 E].
  pose proof Hm as (Hf & Hc & Hst).
  pose proof E as (p & Hp & Hv & Hf1 & _)%finalize_spec. rewrite Hc in Hp.
  exists (with_status COMPLETE m1), p. eexists. split; [done|]. split; [done|]. split; [done|].
  split; [simpl; congruence|].
  unfold on_message. replace (str_eqb (js "[DONE]") (js "[DONE]")) with true by done.
  unfold closeSource, source_close. rewrite bool_decide_false by (intros Hn; by apply Hn).
  cbn [mbind exc_bind]. unfold update, handleStreamComplete.
  erewrite update_last_receiving; [reflexivity|exact Hs|exact Hm|].
  unfold stream_complete. destruct Hst as [-> | ->]; simpl; by rewrite E.
Qed.

(** Actions of the user that do not end a generation. *)
Definition user_action (e : event) : bool :=
  match e with
  | ESend _ _ _ | ERegenerate _ _ _ | EDelete _ | EEdit _ | EApplyEdit _ _ _ _ => true
  | _ => false
  end.

(** ** Properties *)

(** C7.  Generation settles.  From settled messages, after any calm
    sequence of user actions, stream events, answers and stops (no edited
    message submitted during a generation, no response without choices), only
    the last message can be unfinished, and when nothing is generating none
    is; at most one source or request is in flight and the flags tell which. *)
Theorem generation_settles (ms : list Message) (es : list event) (s : chat) :
  settled ms → run calm (init ms) es s →
  settled (removelast (msgs s)) ∧ (isGenerating s = false → settled (msgs s)) ∧
  sources_open s = (match current s with Some id => [id] | None => [] end) ∧
  length (sources_open s ++ map fst (pending s)) = (if isGenerating s then 1 else 0).
Proof.
  intros Hms Hr. destruct (run_inv _ _ _ (init_inv ms Hms) Hr) as [Hres H1 H2 _].
  split; [done|]. split; [done|]. destruct Hres as [Ho Hp Hst _ _]. split; [done|].
  rewrite Ho. unfold isGenerating, isStreaming, pending_ok in *.
  destruct (current s) as [id|]; simpl in *.
  - destruct (Hst eq_refl) as [-> _]. done.
  - destruct (pending s) as [|[id k] [|]]; simpl; [|destruct Hp as (-> & -> & _)|done].
    + by destruct Hp as (-> & -> & _).
    + by destruct (is_media k).
Qed.

Definition plain_settings : settings := Settings None false true [] (js "m") (λ t, t) false.
Definition hi_ids : ids := Ids (js "u") (js "v") (js "k") (js "w").

Definition hi_events : list event :=
  [ESend plain_settings hi_ids (js "hello");
   EMessage None 0 (jsq "{'choices':[{'delta':{'content':'hi'}}]}");
   EMessage None 0 (js "[DONE]")].

Definition hi_state : chat :=
  Chat [createUserMessage (js "u") (js "v") (js "hello");
        Msg (js "k") ASSISTANT [Version (js "w") (js "hi")] None None None (Some false) (Some false)
          (Some false) (Some COMPLETE) None]
    None None true [] 1 [] None [] false false.

Lemma hi_run : run calm (init []) hi_events hi_state.
Proof.
  unfold hi_events. change [?a; ?b; ?c] with ((([] ++ [a]) ++ [b]) ++ [c]).
  eapply run_snoc; [eapply run_snoc; [eapply run_snoc; [constructor|..]|..]|..];
    try (vm_compute; reflexivity); try apply list_elem_of_here.
  split; vm_compute; reflexivity.
Qed.

Lemma generation_settles_witness : settled (msgs hi_state) ∧ isGenerating hi_state = false.
Proof.
  split; [|reflexivity].
  apply (generation_settles [] hi_events hi_state); [constructor|apply hi_run|reflexivity].
Defined.

(** Once nothing is generating in a calm run, no late event of a
    stream, no late progress or answer of a request and no stop can happen:
    only the user changes the settled messages. *)
Theorem idle_is_quiet (ms : list Message) (es : list event) (s s' : chat) (e : event) :
  settled ms → run calm (init ms) es s → isGenerating s = false → step s e s' →
  user_action e = true.
Proof.
  intros Hms Hr Hg [He _]. destruct (run_inv _ _ _ (init_inv ms Hms) Hr) as [Hres _ _ _].
  destruct (idle_spec s Hres Hg) as (Hc & Ho & Hp).
  destruct e as [c n t|c n k|k|k|c n t b|st id d|st id rs d|st id rs|id r|id k a|st]; simpl in He;
    try done; rewrite ?Ho, ?Hp in He; try (by apply elem_of_nil in He).
  - destruct He as [[m Hm] _]. by apply elem_of_nil in Hm.
  - destruct He as [Hm _]. by apply elem_of_nil in Hm.
  - unfold canStop in He. unfold isGenerating in Hg. rewrite He in Hg. done.
Qed.

Lemma idle_is_quiet_witness : user_action (EDelete (js "k")) = true.
Proof.
  eapply (idle_is_quiet [] hi_events hi_state);
    [constructor|apply hi_run|reflexivity|]. by split; [reflexivity|].
Defined.

(** No event gets stuck: every action, stream event, progress, answer
    or stop that is enabled is handled without an exception, whatever data it
    carries, and its result is determined. *)
Theorem events_are_handled (s : chat) (e : event) :
  enabled s e → ∃ s', step s e s' ∧ ∀ s'', step s e s'' → s'' = s'.
Proof.
  intros He. destruct (handle_returns e s) as [s' E]. exists s'. split; [by split|].
  intros s'' Hs. eapply step_det; [exact Hs|by split].
Qed.

Lemma events_are_handled_witness :
  ∃ s', step (open_source (init [])) (EMessage (Some 500%N) 0 (js "oops")) s' ∧
        ∀ s'', step (open_source (init [])) (EMessage (Some 500%N) 0 (js "oops")) s'' → s'' = s'.
Proof. apply events_are_handled. apply list_elem_of_here. Defined.

(** C10.  A reply that streams in is shown whole: after the user sends a
    text, chunks with any reasoning and content arrive and the stream is done,
    the messages are the earlier ones, the text of the user and one complete
    assistant message whose content is the visible text of all the content
    together, however it was cut into chunks; nothing is generating. *)
Theorem streamed_reply_shown (c : settings) (n : ids) (text : jsstr) (datas : list jsstr) (s : chat) :
  isGenerating s = false → truthy (trim text) = true → streams c → Forall is_delta datas →
  ∃ s' m p,
    run (λ _ _, true) s
      ([ESend c n text] ++ map (EMessage None (fresh s)) datas
       ++ [EMessage None (fresh s) (js "[DONE]")]) s' ∧
    msgs s' = msgs s ++ [createUserMessage (user_key n) (user_version n) text; m] ∧
    from m = ASSISTANT ∧ status m = Some COMPLETE ∧
    parseThinkTags (concat (map delta_content datas)) = Ok p ∧ content_of m = visibleContent p ∧
    isGenerating s' = false.
Proof.
  intros Hg Ht Hc Hd.
  set (front := msgs s ++ [createUserMessage (user_key n) (user_version n) text]).
  set (s1 := open_source (set_msgs (front ++ [loading n]) s)).
  assert (run (λ _ _, true) s ([] ++ [ESend c n text]) s1) as H1.
  { eapply run_snoc; [constructor|done|done|]. simpl. unfold handleSendMessage.
    rewrite send_streams by done. unfold s1, front. by rewrite <- app_assoc. }
  assert (fresh s ∈ sources_open s1) as Hid by apply list_elem_of_here.
  assert (receiving (loading n) []) as Hm by (split; [done|]; split; [done|by left]).
  destruct (receive_deltas (fresh s) datas front (loading n) [] s _ s1 H1 Hid Hd eq_refl Hm)
    as (m1 & H2 & R2).
  destruct (receive_done (fresh s) front m1 _ (set_msgs (front ++ [m1]) s1) Hid eq_refl R2)
    as (m2 & p & ss & Hp & Hv & Hst & Hf & E).
  eexists _, m2, p. rewrite app_assoc. split; [by eapply run_snoc; [exact H2|done|exact Hid|exact E]|].
  split; [simpl; unfold front; by rewrite <- app_assoc|]. split; [done|]. split; [done|].
  split; [done|]. split; [done|].
  unfold isGenerating, isStreaming in *. simpl. apply orb_false_iff in Hg as [Hg ->].
  by apply orb_false_iff in Hg as [_ ->].
Qed.

Lemma streamed_reply_shown_witness :
  ∃ s' m p, run (λ _ _, true) (init [])
      ([ESend plain_settings hi_ids (js "hello")]
       ++ map (EMessage None 0) [jsq "{'choices':[{'delta':{'content':'<think>a</thi'}}]}";
                                 jsq "{'choices':[{'delta':{'content':'nk>hi'}}]}"]
       ++ [EMessage None 0 (js "[DONE]")]) s' ∧
    msgs s' = [createUserMessage (js "u") (js "v") (js "hello"); m] ∧
    parseThinkTags (js "<think>a</think>hi") = Ok p ∧ content_of m = visibleContent p.
Proof.
  destruct (streamed_reply_shown plain_settings hi_ids (js "hello")
    [jsq "{'choices':[{'delta':{'content':'<think>a</thi'}}]}";
     jsq "{'choices':[{'delta':{'content':'nk>hi'}}]}"] (init []))
    as (s' & m & p & H1 & H2 & _ & _ & H3 & H4 & _).
  - reflexivity.
  - reflexivity.
  - repeat split; try reflexivity. eexists. vm_compute. reflexivity.
  - repeat constructor; try (vm_compute; reflexivity); eexists; vm_compute; reflexivity.
  - exists s', m, p. split; [exact H1|]. split; [exact H2|]. split; [|exact H4].
    rewrite <- H3. vm_compute. reflexivity.
Defined.

(** A response without choices leaves its message loading although
    nothing generates any more: the handler returns without an update. *)
Theorem empty_response_keeps_loading (c : settings) (n : ids) (text : jsstr) (s : chat) :
  isGenerating s = false → truthy (trim text) = true →
  set_media c = None → set_responses c = false → set_stream c = false →
  ∃ s1 s2, step s (ESend c n text) s1 ∧ step s1 (EAnswer (fresh s) KChat (AnsChat None)) s2 ∧
           isGenerating s2 = false ∧ ¬ settled (msgs s2).
Proof.
  intros Hg Ht H1 H2 H3. eexists _, _. split; [split; [done|]|split; [split|]].
  - simpl. unfold handleSendMessage, send, sendChat. by rewrite H1, H2, H3.
  - split; [apply list_elem_of_here|done].
  - reflexivity.
  - unfold isGenerating, isStreaming in *. apply orb_false_iff in Hg as [Hg _].
    split; [by simpl; rewrite Hg|]. simpl. intros Hs. apply Forall_app in Hs as [_ Hs].
    apply Forall_cons in Hs as [_ Hs]. by apply Forall_cons in Hs as [Hs _].
Qed.

Lemma empty_response_keeps_loading_witness :
  let c := Settings None false false [] (js "m") (λ t, t) false in
  ∃ s1 s2, step (init []) (ESend c hi_ids (js "hello")) s1 ∧
           step s1 (EAnswer 0 KChat (AnsChat None)) s2 ∧
           isGenerating s2 = false ∧ ¬ settled (msgs s2).
Proof. apply empty_response_keeps_loading; reflexivity. Defined.

(** The editor is not guarded against a generation: when an edited
    message of the user is submitted while a reply streams in, the end of the
    first stream drops the reference to the second source, which stays open.
    Then nothing is generating, but the next chunk of the second source makes
    its message unfinished again, and every error of it is ignored. *)
Theorem edit_submit_while_streaming (c : settings) (n : ids) (text k data t : jsstr) (i a : nat)
    (m : Message) (s : chat) :
  streams c → truthy (trim text) = true → current s = Some a → a ∈ sources_open s → a < fresh s →
  isMediaGenerating s = false → isChatGenerating s = false →
  editingMessageKey s = Some k → truthy k = true →
  find_index (has_key k) (msgs s) = Some i → msgs s !! i = Some m → from m = USER →
  str_eqb data (js "[DONE]") = false → read_delta data = Ok (None, Some t) →
  ∃ s1 s2 s3, step s (EApplyEdit c n text true) s1 ∧ step s1 (EMessage None a (js "[DONE]")) s2 ∧
    isGenerating s2 = false ∧ fresh s ∈ sources_open s2 ∧
    step s2 (EMessage None (fresh s) data) s3 ∧ isGenerating s3 = false ∧ ¬ settled (msgs s3) ∧
    ∀ st rs d, on_error st (fresh s) rs d s3 = Ok s3.
Proof.
  intros Hc Ht Hcur Ha Hlt Hm Hch He Hk Hi Hl Hu Hd Hr.
  set (front := take (S i) (edit_messages k text (msgs s))).
  set (s1 := open_source (set_msgs (front ++ [loading n]) (set_editing None s))).
  assert (handle (EApplyEdit c n text true) s = Ok s1) as E1.
  { simpl. unfold applyEdit. rewrite He, Hk, Hi. unfold edit_messages. rewrite list_lookup_fmap, Hl.
    simpl. rewrite bool_decide_true by by destruct (has_key k m).
    by rewrite send_streams by done. }
  assert (receiving (loading n) []) as Hrec by (split; [done|]; split; [done|by left]).
  assert (a ∈ sources_open s1) as Ha1 by by apply list_elem_of_further.
  destruct (receive_done a front (loading n) [] s1 Ha1 eq_refl Hrec)
    as (m2 & p & ss & Hp & Hv & Hst & Hf & E2).
  assert (fresh s ∈ ss) as Hss.
  { revert E2. unfold on_message. replace (str_eqb (js "[DONE]") (js "[DONE]")) with true by done.
    unfold closeSource, source_close. rewrite bool_decide_false by (intros Hn; by apply Hn).
    cbn [mbind exc_bind]. unfold update. destruct (handleStreamComplete _); [|done|done].
    cbn [mbind exc_bind]. intros [= _ <-]. replace (fresh s =? a) with false
      by (symmetry; apply Nat.eqb_neq; lia). apply list_elem_of_here. }
  set (s2 := Chat (front ++ [m2]) _ _ _ ss _ _ _ _ _ _) in E2.
  assert (∃ m3, stream_update UContent t m2 = Ok (with_status STREAMING m3) ∧ from m3 = ASSISTANT)
    as (m3 & E3 & Hf3).
  { unfold stream_update. rewrite Hst. destruct (process_returns m2 (Some t)) as [m3 E]. exists m3.
    rewrite E. split; [done|]. apply process_spec in E as (_ & Hf3 & _). congruence. }
  exists s1, s2, (set_msgs (front ++ [with_status STREAMING m3]) s2).
  assert (isGenerating s2 = false) as Hg2.
  { unfold isGenerating, isStreaming. simpl. by rewrite Hm, Hch. }
  split; [split; [by split; [rewrite He|]|exact E1]|]. split; [by split|]. split; [exact Hg2|].
  split; [exact Hss|]. split; [split; [exact Hss|]|split; [exact Hg2|split]].
  - simpl. unfold on_message. rewrite Hd, Hr. cbn [mbind exc_bind].
    unfold update, handleStreamUpdate, updateLastAssistantMessage.
    change (msgs s2) with (front ++ [m2]).
    by rewrite last_snoc, bool_decide_true, E3, removelast_snoc by done.
  - simpl. intros Hs. apply Forall_app in Hs as [_ Hs]. apply Forall_cons in Hs as [Hs _].
    unfold is_stuck in Hs. simpl in Hs. by rewrite Hf3 in Hs.
  - intros st rs d. unfold on_error. destruct (_ =? _); [done|]. by destruct (error_text d).
Qed.

Lemma edit_submit_while_streaming_witness :
  let u := createUserMessage (js "u") (js "v") (js "hello") in
  let s := Chat [u; loading hi_ids] (Some (js "u")) (Some 0) false [0] 1 [] None [] false false in
  ∃ s1 s2 s3, step s (EApplyEdit plain_settings (Ids (js "x") (js "y") (js "z") (js "t"))
                        (js "hello!") true) s1 ∧
    step s1 (EMessage None 0 (js "[DONE]")) s2 ∧ isGenerating s2 = false ∧ 1 ∈ sources_open s2 ∧
    step s2 (EMessage None 1 (jsq "{'choices':[{'delta':{'content':'hi'}}]}")) s3 ∧
    isGenerating s3 = false ∧ ¬ settled (msgs s3) ∧
    ∀ st rs d, on_error st 1 rs d s3 = Ok s3.
Proof.
  eapply (edit_submit_while_streaming plain_settings _ _ (js "u") _ (js "hi") 0 0);
    try (vm_compute; reflexivity); try apply list_elem_of_here.
  repeat split; try reflexivity. eexists. vm_compute. reflexivity.
Defined.
