(* ===== verification/ChatSpec.v ===== *)
(** * What the playground promises

    An abstract specification of the generation machine of [ChatStream]: a
    conversation is idle, streams one reply, or waits for one request, which
    may have been stopped.  The machine refines it in calm runs, and from the
    specification follows that every generation can come to its end. *)
From S2P Require Import Prelude JsString JsNumber JsValue Messages ModelIntegration MediaPolling MediaRouting MediaRoutingFacts ChatStream.

Open Scope nat_scope.

(** ** The specification *)

Inductive phase :=
  | Idle
  | Streaming (id : nat)
  | Waiting (id : nat) (k : kind) (stopped : bool).

(** Where a submission with settings [c] leads; [id] is the number of the new
    source or request. *)
Definition submitted (c : settings) (id : nat) : phase :=
  match set_media c with
  | Some _ => Waiting id (KMedia (set_model c)) false
  | None =>
      if set_responses c then Waiting id KResponses false
      else if set_stream c then
        match parsePlaygroundExtraBody (translate c) (set_extraBody c) with
        | inl _ => Idle
        | inr _ => if start_throws c then Idle else Streaming id
        end
      else Waiting id KChat false
  end.

(** The settings of a submission. *)
Definition submission (e : event) : option settings :=
  match e with
  | ESend c _ _ | ERegenerate c _ _ | EApplyEdit c _ _ true => Some c
  | _ => None
  end.

(** Events that only touch the messages. *)
Definition local (e : event) : bool :=
  match e with EDelete _ | EEdit _ | EApplyEdit _ _ _ false => true | _ => false end.

(** A chunk of the reply; anything else ends the stream. *)
Definition is_chunk (data : jsstr) : bool :=
  negb (str_eqb data (js "[DONE]")) && match read_delta data with Ok _ => true | _ => false end.

(** A change of state that reports an error. *)
Definition ready_fails (status : option N) (readyState : option nat) : bool :=
  match readyState, status with Some r, Some st => (2 <=? r) && negb (N.eqb st 200) | _, _ => false end.

Inductive spec : phase → event → phase → Prop :=
  | spec_submit c e id : submission e = Some c → spec Idle e (submitted c id)
  | spec_no_message c e : submission e = Some c → spec Idle e Idle
  | spec_local p e : local e = true → spec p e p
  | spec_chunk id st data : is_chunk data = true → spec (Streaming id) (EMessage st id data) (Streaming id)
  | spec_end id st data : is_chunk data = false → spec (Streaming id) (EMessage st id data) Idle
  | spec_error id st rs data :
      spec (Streaming id) (EError st id rs data) (if rs =? 2 then Streaming id else Idle)
  | spec_ready id st rs :
      spec (Streaming id) (EReady st id rs) (if ready_fails st rs then Idle else Streaming id)
  | spec_progress id m r : spec (Waiting id (KMedia m) false) (EProgress id r) (Waiting id (KMedia m) false)
  | spec_answer id k b a : spec (Waiting id k b) (EAnswer id k a) Idle
  | spec_stop_stream id st : spec (Streaming id) (EStop st) Idle
  | spec_stop_request id m b st :
      spec (Waiting id (KMedia m) b) (EStop st) (Waiting id (KMedia m) true).

Inductive spec_run : phase → list event → phase → Prop :=
  | spec_run_refl p : spec_run p [] p
  | spec_run_step p es p1 e p2 : spec_run p es p1 → spec p1 e p2 → spec_run p (es ++ [e]) p2.

(** The settings of a submission for a model: the endpoint is the one that
    [MediaRouting] chooses. *)
Definition playground_settings `{CaseMap} (model : jsstr) (mode : option PlaygroundMediaMode)
    (ie : PlaygroundImageEndpoint) (ve : PlaygroundVideoEndpoint) (info : option PlaygroundModelInfo)
    (responses stream : bool) (extraBody : jsstr) (t : jsstr → jsstr) (throws : bool) : settings :=
  Settings (getPlaygroundMediaEndpoint model mode ie ve info) responses stream extraBody model t throws.

(** A media request starts exactly if the mode of the model is not a chat. *)
Lemma submission_mode `{CaseMap} model mode ie ve info responses stream extraBody t throws id :
  submitted (playground_settings model mode ie ve info responses stream extraBody t throws) id
    = Waiting id (KMedia model) false ↔ resolvePlaygroundMode model mode info ≠ MChat.
Proof.
  pose proof (endpoint_matches model mode ie ve info) as He. unfold submitted. cbn [set_media playground_settings].
  destruct (resolvePlaygroundMode model mode info); unfold endpoint_for in He.
  - rewrite He. split; [|done]. cbn. destruct responses; [done|]. destruct stream; [|done].
    destruct (parsePlaygroundExtraBody _ _); [done|]. by destruct throws.
  - split; [done|]. intros _. by destruct He as [-> | ->].
  - split; [done|]. intros _. by destruct He as [-> | ->].
Qed.

(** ** The phase of a state *)

Definition phase_of (s : chat) : phase :=
  match current s, pending s with
  | Some id, _ => Streaming id
  | None, (id, k) :: _ => Waiting id k (bool_decide (id ∈ aborted s))
  | None, [] => Idle
  end.

Lemma phase_idle s : resources s → phase_of s = Idle ↔ isGenerating s = false.
Proof.
  intros Hr. split.
  - destruct Hr as [_ Hp _ _ _]. unfold phase_of, isGenerating, isStreaming, pending_ok in *.
    destruct (current s); [done|]. destruct (pending s) as [|[id k] l]; [|done].
    by destruct Hp as (-> & -> & _).
  - intros Hg. destruct (idle_spec s Hr Hg) as (Hc & _ & Hp). unfold phase_of. by rewrite Hc, Hp.
Qed.

Lemma phase_msgs ms s : phase_of (set_msgs ms s) = phase_of s.
Proof. done. Qed.

Lemma phase_editing x s : phase_of (set_editing x s) = phase_of s.
Proof. done. Qed.

Lemma phase_closed ms s : pending s = [] → phase_of (closed_state ms s) = Idle.
Proof. intros Hp. unfold phase_of. simpl. by rewrite Hp. Qed.

Lemma phase_open s id :
  resources s → id ∈ sources_open s →
  phase_of s = Streaming id ∧ pending s = [] ∧ sources_open s = [id] ∧ complete s = false.
Proof.
  intros Hr Hid. destruct (open_source_current s id Hr Hid) as [Hc Hf].
  pose proof (res_open _ Hr) as Ho. rewrite Hc in Ho.
  destruct (res_stream _ Hr) as [Hp _]; [unfold isStreaming; by rewrite Hc|].
  unfold phase_of. by rewrite Hc.
Qed.

Lemma phase_pending s id k :
  resources s → (id, k) ∈ pending s →
  phase_of s = Waiting id k (bool_decide (id ∈ aborted s)) ∧ pending s = [(id, k)] ∧ current s = None.
Proof.
  intros Hr Hin. pose proof (pending_single s id k Hr Hin) as Hp.
  assert (current s = None) as Hc.
  { destruct (current s) as [x|] eqn:Hc; [|done]. destruct (res_stream _ Hr) as [Hn _].
    - unfold isStreaming. by rewrite Hc.
    - by rewrite Hp in Hn. }
  split; [|done]. unfold phase_of. by rewrite Hc, Hp.
Qed.

(** ** Each event *)

Lemma send_phase c ms s s' :
  resources s → isGenerating s = false → send c ms s = Ok s' →
  phase_of s' = submitted c (fresh s).
Proof.
  intros Hr Hg. destruct (idle_spec s Hr Hg) as (Hc & Ho & Hp).
  assert (∀ k, phase_of (start_request k (set_msgs ms s)) = Waiting (fresh s) k false) as Hstart.
  { intros k. unfold phase_of. simpl. rewrite Hc, bool_decide_false; [done|].
    intros Ha. apply (res_aborted _ Hr) in Ha. lia. }
  unfold send, sendChat, submitted, sendStreamingChat, sendStreamRequest.
  destruct (set_media c); [intros [= <-]; apply Hstart|].
  destruct (set_responses c); [intros [= <-]; apply Hstart|].
  destruct (set_stream c); [|intros [= <-]; apply Hstart].
  destruct (parsePlaygroundExtraBody _ _).
  { intros (ms' & _ & ->)%update_msgs. rewrite !phase_msgs. by apply phase_idle. }
  destruct (start_throws c).
  - intros E. apply exc_bind_Ok in E as (s1 & (ms' & _ & ->)%update_msgs & [= <-]).
    unfold phase_of. simpl. by rewrite Hp.
  - by intros [= <-].
Qed.

Lemma handleError_phase st id t c s s' :
  resources s → id ∈ sources_open s → handleError st id t c s = Ok s' → phase_of s' = Idle.
Proof.
  intros Hr Hid. destruct (phase_open s id Hr Hid) as (_ & Hp & Ho & Hc). unfold handleError. rewrite Hc.
  intros E. apply exc_bind_Ok in E as (s1 & (ms & _ & ->)%update_msgs & E).
  apply closeSource_spec in E as (ms' & -> & _); [|done]. by apply phase_closed.
Qed.

Lemma on_message_phase st id data s s' :
  resources s → id ∈ sources_open s → on_message st id data s = Ok s' →
  phase_of s' = if is_chunk data then Streaming id else Idle.
Proof.
  intros Hr Hid. destruct (phase_open s id Hr Hid) as (Hph & Hp & Ho & Hc).
  unfold on_message, is_chunk. destruct (str_eqb data _); cbn [negb andb].
  - intros E. apply exc_bind_Ok in E as (s1 & E1 & (ms & _ & ->)%update_msgs).
    apply closeSource_spec in E1 as (ms' & -> & _); [|done]. rewrite phase_msgs. by apply phase_closed.
  - destruct (read_delta data) as [[r c]| |] eqn:Ed; [| |done].
    + intros E. apply exc_bind_Ok in E as (s1 & E1 & E2).
      assert (∃ ms, s1 = set_msgs ms s) as [ms ->].
      { destruct r; [by apply update_msgs in E1 as (ms & _ & ->); eauto|]. injection E1 as <-.
        exists (msgs s). by destruct s. }
      destruct c; [apply update_msgs in E2 as (ms' & _ & ->)|injection E2 as <-]; by rewrite !phase_msgs.
    + by apply handleError_phase.
Qed.

Lemma on_answer_phase id k a s s' :
  resources s → (id, k) ∈ pending s → on_answer id k a s = Ok s' → phase_of s' = Idle.
Proof.
  intros Hr Hin E. destruct (phase_pending s id k Hr Hin) as (_ & Hp & Hc). unfold on_answer in E.
  apply exc_bind_Ok in E as (s1 & E1 & [= <-]).
  assert (current s1 = None ∧ pending s1 = [(id, k)]) as [Hc1 Hp1].
  { assert (∀ f, update f s = Ok s1 → current s1 = None ∧ pending s1 = [(id, k)]) as Hu
      by (intros f (ms & _ & ->)%update_msgs; done).
    destruct a; try by eapply Hu. destruct (_ && _); [by injection E1 as <-|by eapply Hu]. }
  unfold phase_of. simpl. rewrite Hc1, Hp1. simpl. by rewrite Nat.eqb_refl.
Qed.

Lemma stop_phase st s s' :
  resources s → canStop s = true → stopGeneration st s = Ok s' →
  phase_of s' = match phase_of s with Waiting id k _ => Waiting id k true | _ => Idle end.
Proof.
  intros Hr Hcan E. unfold stopGeneration in E.
  apply exc_bind_Ok in E as (s1 & E1 & (ms & _ & ->)%update_msgs). rewrite phase_msgs.
  pose proof (res_pending _ Hr) as Hp. unfold pending_ok in Hp. unfold stopStream in E1.
  destruct (current s) as [id|] eqn:Hc.
  - destruct (res_stream _ Hr) as [Hn _]; [unfold isStreaming; by rewrite Hc|].
    apply closeSource_spec in E1 as (ms' & -> & _); [|by rewrite (res_open _ Hr), Hc].
    rewrite Hn in Hp. destruct Hp as (_ & _ & Hm). unfold phase_of at 2. rewrite Hc.
    unfold abort_media. simpl. rewrite Hm. by apply phase_closed.
  - injection E1 as <-. unfold canStop, isStreaming in Hcan. rewrite Hc in Hcan. simpl in Hcan.
    unfold phase_of at 2. rewrite Hc.
    destruct (pending s) as [|[id k] [|]] eqn:Hpe; [by destruct Hp as (_ & Hm & _); rewrite Hm in Hcan| |done].
    destruct Hp as (_ & Hm & Hk). rewrite Hm in Hcan. rewrite Hcan in Hk.
    unfold abort_media, phase_of. rewrite Hk. simpl. rewrite Hc, Hpe, bool_decide_true; [done|].
    apply list_elem_of_here.
Qed.

(** ** Refinement *)

Lemma can_stop_phase s id k b :
  resources s → canStop s = true → phase_of s = Waiting id k b → is_media k = true.
Proof.
  intros Hr Hcan Hph. unfold phase_of in Hph. unfold canStop, isStreaming in Hcan.
  pose proof (res_pending _ Hr) as Hp. unfold pending_ok in Hp.
  destruct (current s); [done|]. destruct (pending s) as [|[x y] [|]]; [done| |done].
  destruct Hp as (_ & Hm & _). injection Hph as -> -> _. by rewrite Hm in Hcan.
Qed.

Lemma edit_phase c n t b s s' :
  resources s → (b = true → isGenerating s = false) → applyEdit c n t b s = Ok s' →
  phase_of s' = phase_of s ∨ b = true ∧ phase_of s' = submitted c (fresh s).
Proof.
  intros Hr Hb. unfold applyEdit. destruct (editingMessageKey s) as [k|]; [|intros [= <-]; by left].
  destruct (negb _); [intros [= <-]; by left|]. destruct (find_index _ _) as [i|]; [|intros [= <-]; by left].
  destruct (_ || _) eqn:E; [intros [= <-]; by left|]. apply orb_false_iff in E as [E _].
  apply negb_false_iff in E as ->. intros E. right. split; [done|].
  apply send_phase in E; [done|by apply res_editing|by apply Hb].
Qed.

Lemma step_refines s e s' : inv s → calm s e = true → step s e s' → spec (phase_of s) e (phase_of s').
Proof.
  intros Hinv Hc [He E]. pose proof (inv_resources _ Hinv) as Hr.
  destruct e as [c n t|c n k|k|k|c n t b|st id d|st id rs d|st id rs|id r|id k a|st]; simpl in He, E.
  - destruct He as [Hg _]. rewrite (proj2 (phase_idle s Hr) Hg).
    unfold handleSendMessage in E. apply send_phase in E as ->; [|done|done]. by constructor.
  - rewrite (proj2 (phase_idle s Hr) He). unfold handleRegenerateMessage in E.
    destruct (find_index _ _); [apply send_phase in E as ->; [by constructor|done|done]|].
    injection E as <-. rewrite (proj2 (phase_idle s Hr) He). by eapply spec_no_message.
  - injection E as <-. rewrite phase_msgs. by constructor.
  - injection E as <-. rewrite phase_editing. by constructor.
  - apply edit_phase in E; [|done|intros ->; simpl in Hc; by bool_to_prop]. destruct b.
    + simpl in Hc. bool_to_prop. rewrite (proj2 (phase_idle s Hr)) in * by done.
      destruct E as [-> |[_ ->]]; [by eapply spec_no_message|by constructor].
    + destruct E as [-> |[? _]]; [by constructor|done].
  - destruct (phase_open s id Hr He) as (-> & _). apply on_message_phase in E as ->; [|done|done].
    destruct (is_chunk d) eqn:Ed; by constructor.
  - destruct (phase_open s id Hr He) as (Hph & _). unfold on_error in E. rewrite Hph.
    replace (phase_of s') with (if rs =? 2 then Streaming id else Idle); [by constructor|].
    destruct (rs =? 2); [by injection E as <-|]. destruct (error_text d). symmetry.
    by eapply handleError_phase.
  - destruct (phase_open s id Hr He) as (Hph & _). rewrite Hph.
    replace (phase_of s') with (if ready_fails st rs then Idle else Streaming id); [by constructor|].
    unfold on_readystatechange, ready_fails in *. destruct rs, st; try by injection E as <-.
    destruct (_ && _); [symmetry; by eapply handleError_phase|by injection E as <-].
  - destruct He as [[m Hin] Ha]. apply update_msgs in E as (ms & _ & ->). rewrite phase_msgs.
    destruct (phase_pending s id _ Hr Hin) as (-> & _). rewrite bool_decide_false by done. by constructor.
  - destruct He as [Hin _]. destruct (phase_pending s id k Hr Hin) as (-> & _).
    apply on_answer_phase in E as ->; [|done|done]. by constructor.
  - pose proof (stop_phase st s s' Hr He E) as ->. destruct (phase_of s) as [|id|id k b] eqn:Hph.
    + apply phase_idle in Hph; [|done]. unfold canStop, isGenerating in *.
      apply orb_false_iff in Hph as [Hph _]. congruence.
    + by constructor.
    + apply can_stop_phase in Hph; [|done|done]. destruct k; try done. by constructor.
Qed.

Lemma stopped_settled s id k : inv s → phase_of s = Waiting id k true → settled (msgs s).
Proof.
  intros Hinv Hp. unfold phase_of in Hp. destruct (current s); [done|].
  destruct (pending s) as [|[x y] l] eqn:Hpe; [done|]. injection Hp as -> -> Ha. bool_to_prop.
  apply (inv_aborted _ Hinv id k); [rewrite Hpe; apply list_elem_of_here|done].
Qed.

(** ** Properties *)

(** C8. The playground refines its specification.  Every calm run of the
    machine, from settled messages, is a run of the specification with the
    same events; the machine is idle exactly when the specification is, and
    then, and also while a stopped request has not ended, no message is
    unfinished. *)
Theorem playground_refines_spec (ms : list Message) (es : list event) (s : chat) :
  settled ms → run calm (init ms) es s →
  spec_run Idle es (phase_of s) ∧
  (phase_of s = Idle ↔ isGenerating s = false) ∧
  (phase_of s = Idle → settled (msgs s)) ∧
  (∀ id k, phase_of s = Waiting id k true → settled (msgs s)).
Proof.
  intros Hms Hrun. pose proof (run_inv _ _ _ (init_inv ms Hms) Hrun) as Hinv.
  pose proof (inv_resources _ Hinv) as Hr. split_and!.
  - clear Hinv Hr. induction Hrun as [|es s1 e s2 Hrun IH Hok Hst]; [constructor|].
    apply (spec_run_step _ _ (phase_of s1)); [done|]. apply step_refines; [|done|done].
    by eapply run_inv; [apply init_inv|].
  - by apply phase_idle.
  - intros Hp. by apply (inv_idle _ Hinv), phase_idle.
  - intros id k. by apply stopped_settled.
Qed.

(** The end of a stream and the end of a request. *)
Definition ends (e : event) : bool :=
  match e with EMessage _ _ data => str_eqb data (js "[DONE]") | EAnswer _ _ _ => true | _ => false end.

Lemma ends_idle s e s' :
  inv s → calm s e = true → ends e = true → step s e s' → isGenerating s' = false ∧ settled (msgs s').
Proof.
  intros Hinv Hc He Hst. pose proof (step_inv s e s' Hinv Hc Hst) as Hinv'.
  assert (phase_of s' = Idle) as Hp.
  { pose proof (inv_resources _ Hinv) as Hr. destruct Hst as [Hen E].
    destruct e; try done; simpl in He, Hen, E.
    - apply on_message_phase in E as ->; [|done|done]. unfold is_chunk. by rewrite He.
    - destruct Hen as [Hin _]. by eapply on_answer_phase. }
  apply phase_idle in Hp; [|apply (inv_resources _ Hinv')]. split; [done|]. by apply (inv_idle _ Hinv').
Qed.

Lemma can_end s : inv s → isGenerating s = true → ∃ e, ends e = true ∧ calm s e = true ∧ enabled s e.
Proof.
  intros Hinv Hg. pose proof (inv_resources _ Hinv) as Hr. destruct (phase_of s) as [|id|id k b] eqn:Hp.
  - apply phase_idle in Hp; [congruence|done].
  - exists (EMessage None id (js "[DONE]")). split; [reflexivity|]. split; [done|]. simpl.
    rewrite (res_open _ Hr). unfold phase_of in Hp.
    destruct (current s); [injection Hp as ->; apply list_elem_of_here|].
    by destruct (pending s) as [|[]].
  - exists (EAnswer id k (AnsError (RequestError None None None None))). split; [done|]. split; [done|].
    unfold phase_of in Hp. destruct (current s); [done|].
    destruct (pending s) as [|[x y] l] eqn:Hpe; [done|]. injection Hp as -> -> _. simpl.
    rewrite Hpe. split; [apply list_elem_of_here|by destruct k].
Qed.

Lemma stop_outcome s st s' :
  inv s → step s (EStop st) s' →
  settled (msgs s') ∧ (isGenerating s' = false ∨ ∃ id m, phase_of s' = Waiting id (KMedia m) true).
Proof.
  intros Hinv Hst. pose proof (step_inv s (EStop st) s' Hinv eq_refl Hst) as Hinv'.
  pose proof (inv_resources _ Hinv) as Hr. destruct Hst as [Hcan E]. simpl in Hcan, E.
  pose proof (stop_phase st s s' Hr Hcan E) as Hp. destruct (phase_of s) as [|id|id k b] eqn:Hph.
  1, 2: apply phase_idle in Hp; [|apply (inv_resources _ Hinv')];
    (split; [by apply (inv_idle _ Hinv')|by left]).
  apply can_stop_phase in Hph; [|done|done]. split; [by eapply stopped_settled|].
  right. destruct k; try done. by eauto.
Qed.

(** C9. No generation is stuck.  In every state of a calm run that generates,
    an event that ends the generation can happen, and any such event (the
    end of the stream, the answer or the failure of the request) leaves the
    playground idle with no unfinished message; a stop ends a stream at once,
    and of a request that it stops only the end remains. *)
Theorem generation_can_end (ms : list Message) (es : list event) (s : chat) :
  settled ms → run calm (init ms) es s →
  (isGenerating s = true →
     ∃ e s', ends e = true ∧ calm s e = true ∧ step s e s') ∧
  (∀ e s', ends e = true → calm s e = true → step s e s' →
     isGenerating s' = false ∧ settled (msgs s')) ∧
  (∀ st s', step s (EStop st) s' →
     settled (msgs s') ∧ (isGenerating s' = false ∨ ∃ id m, phase_of s' = Waiting id (KMedia m) true)).
Proof.
  intros Hms Hrun. pose proof (run_inv _ _ _ (init_inv ms Hms) Hrun) as Hinv. split_and!.
  - intros Hg. destruct (can_end s Hinv Hg) as (e & He & Hc & Hen).
    destruct (handle_returns e s) as [s' E]. exists e, s'. by split_and!.
  - intros e s' He Hc Hst. by eapply ends_idle.
  - intros st s' Hst. by eapply stop_outcome.
Qed.

Lemma playground_refines_spec_witness : spec_run Idle hi_events Idle ∧ settled (msgs hi_state).
Proof.
  destruct (playground_refines_spec [] hi_events hi_state (List.Forall_nil _) hi_run)
    as (H1 & H2 & H3 & _).
  split; [exact H1|]. apply H3. reflexivity.
Defined.

(** The sample run up to the open stream. *)
Definition hi_streaming : chat :=
  Chat [createUserMessage (js "u") (js "v") (js "hello"); createLoadingAssistantMessage (js "k") (js "w")]
    None (Some 0) false [0] 1 [] None [] false false.

Lemma hi_start : run calm (init []) [ESend plain_settings hi_ids (js "hello")] hi_streaming.
Proof.
  change [?a] with ([] ++ [a]). eapply run_snoc; [constructor|..]; try (vm_compute; reflexivity).
  split; vm_compute; reflexivity.
Qed.

Lemma generation_can_end_witness :
  isGenerating hi_streaming = true ∧ ∃ e s', ends e = true ∧ step hi_streaming e s'.
Proof.
  split; [reflexivity|].
  destruct (generation_can_end [] [ESend plain_settings hi_ids (js "hello")] hi_streaming
    (List.Forall_nil _) hi_start) as (H & _).
  destruct (H eq_refl) as (e & s' & He & _ & Hst). exists e, s'. split; [exact He|exact Hst].
Defined.
