(* ===== verification/PlaygroundStorage.v ===== *)
(** * Stored state of the playground

    Model of src/web/default/src/features/playground/lib/storage.ts and
    hooks/use-playground-state.ts: the configuration, the enabled parameters
    and the messages, kept in memory and in localStorage as JSON texts.

    [localStorage] is a finite map; [accepts] tells whether [setItem] stores a
    text (it throws when the quota is exceeded, which the code logs).  The
    configuration and the enabled parameters are objects; messages are written
    member by member in the order of their type, and a stored array that is
    not made of messages is not interpreted. *)
From S2P Require Import Prelude JsString JsNumber JsValue JsonFacts Messages MediaPolling ChatStream.
From stdpp Require Import gmap.

Open Scope nat_scope.

Abbreviation store := (gmap jsstr jsstr).

(** ** Constants *)

Definition CONFIG : jsstr := js "playground_config".
Definition MESSAGES : jsstr := js "playground_messages".
Definition PARAMETER_ENABLED : jsstr := js "playground_parameter_enabled".

Definition DEFAULT_GROUP : jsstr := js "default".

Definition DEFAULT_CONFIG : obj := [
  (js "model", VStr (js "gpt-4o"));
  (js "group", VStr DEFAULT_GROUP);
  (js "mode", VStr (js "auto"));
  (js "imageEndpoint", VStr (js "auto"));
  (js "videoEndpoint", VStr (js "auto"));
  (js "videoAspectRatio", VStr []);
  (js "videoDuration", VStr []);
  (js "videoResolution", VStr []);
  (js "imageAspectRatio", VStr []);
  (js "imageResolution", VStr []);
  (js "imageQuality", VStr []);
  (js "imageCount", VNum (of_Z 1));
  (js "imageSize", VStr []);
  (js "imageOutputFormat", VStr []);
  (js "imageBackground", VStr []);
  (js "imageOutputCompression", VStr []);
  (js "referenceImages", VStr []);
  (js "referenceVideos", VStr []);
  (js "referenceAudios", VStr []);
  (js "chatEndpoint", VStr (js "completions"));
  (js "extraBody", VStr []);
  (js "temperature", VNum (str_to_num (js "0.7")));
  (js "top_p", VNum (of_Z 1));
  (js "max_tokens", VNum (of_Z 4096));
  (js "frequency_penalty", VNum (of_Z 0));
  (js "presence_penalty", VNum (of_Z 0));
  (js "seed", VNull);
  (js "stream", VBool true)].

Definition DEFAULT_PARAMETER_ENABLED : obj := [
  (js "temperature", VBool true);
  (js "top_p", VBool true);
  (js "max_tokens", VBool false);
  (js "frequency_penalty", VBool true);
  (js "presence_penalty", VBool true);
  (js "seed", VBool false)].

(** ** Messages as JSON *)

(** The members of an object literal; an [undefined] one is left out, as
    [JSON.stringify] does. *)
Definition fields_obj (l : list (jsstr * option value)) : obj :=
  omap (λ kv, (λ v, (kv.1, v)) <$> kv.2) l.

Definition status_text (s : MessageStatus) : jsstr :=
  match s with
  | LOADING => js "loading" | STREAMING => js "streaming"
  | COMPLETE => js "complete" | ERROR => js "error"
  end.
Definition media_type_text (t : MediaType) : jsstr :=
  match t with MediaImage => js "image" | MediaVideo => js "video" end.

Definition version_value (v : MessageVersion) : value :=
  VObj (fields_obj [(js "id", Some (VStr (version_id v))); (js "content", Some (VStr (content v)))]).
Definition media_value (x : MessageMedia) : value :=
  VObj (fields_obj [
    (js "type", Some (VStr (media_type_text (media_type x))));
    (js "url", Some (VStr (media_url x)));
    (js "title", VStr <$> media_title x);
    (js "taskId", VStr <$> media_taskId x);
    (js "status", VStr <$> media_status x)]).
Definition source_value (x : jsstr * jsstr) : value :=
  VObj (fields_obj [(js "href", Some (VStr x.1)); (js "title", Some (VStr x.2))]).
Definition reasoning_value (r : Reasoning) : value :=
  VObj (fields_obj [(js "content", Some (VStr (reasoning_content r)));
                    (js "duration", Some (VNum (reasoning_duration r)))]).

Definition message_fields (m : Message) : list (jsstr * option value) := [
  (js "key", Some (VStr (key m)));
  (js "from", Some (VStr (role_text (from m))));
  (js "versions", Some (VArr (map version_value (versions m))));
  (js "media", media_value <$> media m);
  (js "sources", (λ l, VArr (map source_value l)) <$> sources m);
  (js "reasoning", reasoning_value <$> reasoning m);
  (js "isReasoningStreaming", VBool <$> isReasoningStreaming m);
  (js "isReasoningComplete", VBool <$> isReasoningComplete m);
  (js "isContentComplete", VBool <$> isContentComplete m);
  (js "status", (λ s, VStr (status_text s)) <$> status m);
  (js "errorCode", (λ c, match c with Some s => VStr s | None => VNull end) <$> errorCode m)].

Definition message_value (m : Message) : value := VObj (fields_obj (message_fields m)).

(** Reading the members back: [None] for what is not of the type. *)
Definition as_str (v : value) : option jsstr := match v with VStr s => Some s | _ => None end.
Definition as_bool (v : value) : option bool := match v with VBool b => Some b | _ => None end.
Definition as_num (v : value) : option num := match v with VNum x => Some x | _ => None end.
Definition as_obj (v : value) : option obj := match v with VObj o => Some o | _ => None end.
Definition as_list {A} (f : value → option A) (v : value) : option (list A) :=
  match v with VArr l => mapM f l | _ => None end.
Definition as_role (v : value) : option MessageRole :=
  s ← as_str v;
  if str_eqb s (js "user") then Some USER
  else if str_eqb s (js "assistant") then Some ASSISTANT
  else if str_eqb s (js "system") then Some SYSTEM else None.
Definition as_status (v : value) : option MessageStatus :=
  s ← as_str v;
  if str_eqb s (js "loading") then Some LOADING
  else if str_eqb s (js "streaming") then Some STREAMING
  else if str_eqb s (js "complete") then Some COMPLETE
  else if str_eqb s (js "error") then Some ERROR else None.
Definition as_media_type (v : value) : option MediaType :=
  s ← as_str v;
  if str_eqb s (js "image") then Some MediaImage
  else if str_eqb s (js "video") then Some MediaVideo else None.
Definition as_code (v : value) : option (option jsstr) :=
  match v with VStr s => Some (Some s) | VNull => Some None | _ => None end.

(** A required and an optional member. *)
Definition member {A} (f : value → option A) (k : jsstr) (o : obj) : option A :=
  v ← obj_get k o; f v.
Definition opt_member {A} (f : value → option A) (k : jsstr) (o : obj) : option (option A) :=
  match obj_get k o with None => Some None | Some v => Some <$> f v end.

Definition as_version (v : value) : option MessageVersion :=
  o ← as_obj v; i ← member as_str (js "id") o; c ← member as_str (js "content") o;
  Some (Version i c).
Definition as_media (v : value) : option MessageMedia :=
  o ← as_obj v; t ← member as_media_type (js "type") o; u ← member as_str (js "url") o;
  ti ← opt_member as_str (js "title") o; ta ← opt_member as_str (js "taskId") o;
  st ← opt_member as_str (js "status") o; Some (Media t u ti ta st).
Definition as_source (v : value) : option (jsstr * jsstr) :=
  o ← as_obj v; h ← member as_str (js "href") o; t ← member as_str (js "title") o; Some (h, t).
Definition as_reasoning (v : value) : option Reasoning :=
  o ← as_obj v; c ← member as_str (js "content") o; d ← member as_num (js "duration") o;
  Some (Reason c d).

Definition as_message (v : value) : option Message :=
  o ← as_obj v;
  k ← member as_str (js "key") o;
  f ← member as_role (js "from") o;
  vs ← member (as_list as_version) (js "versions") o;
  me ← opt_member as_media (js "media") o;
  so ← opt_member (as_list as_source) (js "sources") o;
  re ← opt_member as_reasoning (js "reasoning") o;
  rs ← opt_member as_bool (js "isReasoningStreaming") o;
  rc ← opt_member as_bool (js "isReasoningComplete") o;
  cc ← opt_member as_bool (js "isContentComplete") o;
  st ← opt_member as_status (js "status") o;
  ec ← opt_member as_code (js "errorCode") o;
  Some (Msg k f vs me so re rs rc cc st ec).

(** ** localStorage *)

Section Storage.
Context (accepts : store → jsstr → jsstr → bool).

Definition set_item (k : jsstr) (v : value) (st : store) : store :=
  match stringify v with
  | Some text => if accepts st k text then <[k := text]> st else st
  | None => st
  end.

(** [JSON.parse] of a stored text, the empty object when there is none. *)
Definition load_object (k : jsstr) (st : store) : value :=
  match st !! k with
  | Some text => if truthy text then from_opt (VObj []) (json_parse text) else VObj []
  | None => VObj []
  end.

Definition loadConfig : store → value := load_object CONFIG.
Definition saveConfig (c : obj) : store → store := set_item CONFIG (VObj c).
Definition loadParameterEnabled : store → value := load_object PARAMETER_ENABLED.
Definition saveParameterEnabled (p : obj) : store → store := set_item PARAMETER_ENABLED (VObj p).
Definition saveMessages (ms : list Message) : store → store :=
  set_item MESSAGES (VArr (map message_value ms)).

Inductive loaded := NoMessages | Loaded (ms : list Message) | Foreign (l : list value).

Definition loadMessages (st : store) : loaded * store :=
  match st !! MESSAGES with
  | Some text =>
      if truthy text then
        match json_parse text with
        | None => (NoMessages, st)
        | Some (VArr l) =>
            match mapM as_message l with
            | None => (Foreign l, st)
            | Some ms =>
                match sanitizeMessagesOnLoad ms with
                | Ok ms' =>
                    (Loaded ms', if is_some (find_last_index is_stuck ms) then saveMessages ms' st
                                 else st)
                | _ => (NoMessages, st)
                end
            end
        | Some _ => (NoMessages, delete MESSAGES st)
        end
      else (NoMessages, st)
  | None => (NoMessages, st)
  end.

(** [updateMessages] of the hook: the new messages are saved at once. *)
Definition updateMessages (updater : list Message → list Message)
    (s : list Message * store) : list Message * store :=
  let newMessages := updater s.1 in (newMessages, saveMessages newMessages s.2).

Definition clearMessages (s : list Message * store) : list Message * store :=
  updateMessages (λ _, []) s.

Definition clearPlaygroundData (st : store) : store :=
  delete MESSAGES (delete PARAMETER_ENABLED (delete CONFIG st)).

(** ** The state of the hook *)

Record playground := Playground {
  config : obj;
  parameterEnabled : obj;
  stored : store;
}.

(** The members that spreading a value copies. *)
Definition indexed (l : list value) : obj := imap (λ i v, (dec (N.of_nat i), v)) l.
Definition own_members (v : value) : obj :=
  match v with
  | VObj o => o
  | VArr l => indexed l
  | VStr s => indexed (map (λ c, VStr [c]) s)
  | _ => []
  end.

Definition default_config (userGroup : option jsstr) : obj :=
  obj_set (js "group") (VStr (str_or (from_opt [] userGroup) DEFAULT_GROUP)) DEFAULT_CONFIG.

(** The initial state, read from the store. *)
Definition usePlaygroundState (userGroup : option jsstr) (st : store) : playground :=
  Playground (spread (default_config userGroup) (own_members (loadConfig st)))
    (spread DEFAULT_PARAMETER_ENABLED (own_members (loadParameterEnabled st))) st.

Definition updateConfig (k : jsstr) (v : value) (s : playground) : playground :=
  let updated := obj_set k v (config s) in
  Playground updated (parameterEnabled s) (saveConfig updated (stored s)).

Definition updateConfigValues (values : obj) (s : playground) : playground :=
  let updated := spread (config s) values in
  Playground updated (parameterEnabled s) (saveConfig updated (stored s)).

Definition updateParameterEnabled (k : jsstr) (b : bool) (s : playground) : playground :=
  let updated := obj_set k (VBool b) (parameterEnabled s) in
  Playground (config s) updated (saveParameterEnabled updated (stored s)).

Definition resetConfig (userGroup : option jsstr) (s : playground) : playground :=
  let defaults := default_config userGroup in
  Playground defaults DEFAULT_PARAMETER_ENABLED
    (saveParameterEnabled DEFAULT_PARAMETER_ENABLED (saveConfig defaults (stored s))).

End Storage.

(** ** Settings *)

Lemma set_item_get accepts k v st text :
  (∀ st k t, accepts st k t = true) → stringify v = Some text →
  set_item accepts k v st = <[k := text]> st.
Proof. intros Ha Hs. unfold set_item. by rewrite Hs, Ha. Qed.

Lemma stringify_obj_nonempty o text : stringify (VObj o) = Some text → truthy text = true.
Proof. rewrite stringify_obj. by intros [= <-]. Qed.

(** What was saved is loaded. *)
Lemma load_saved accepts k o st :
  (∀ st k t, accepts st k t = true) → json_ok (VObj o) →
  load_object k (set_item accepts k (VObj o) st) = VObj o.
Proof.
  intros Ha Ho. destruct (json_parse_stringify _ Ho) as (text & Hs & Hp).
  unfold load_object. rewrite (set_item_get accepts k _ st text Ha Hs), lookup_insert_eq.
  by rewrite (stringify_obj_nonempty o text Hs), Hp.
Qed.

Lemma load_other accepts k k' v st :
  k ≠ k' → load_object k (set_item accepts k' v st) = load_object k st.
Proof.
  intros Hne. unfold load_object, set_item. destruct (stringify v); [|done].
  destruct (accepts _ _ _); [|done]. by rewrite lookup_insert_ne by done.
Qed.

(** [o] has every member of [d]. *)
Definition extends (d o : obj) : Prop := ∀ k, obj_has k d = true → obj_has k o = true.

Lemma has_set k k' v o : obj_has k (obj_set k' v o) = true ↔ k = k' ∨ obj_has k o = true.
Proof.
  unfold obj_has. destruct (decide (k = k')) as [->|Hne].
  - rewrite obj_get_set. simpl. naive_solver.
  - rewrite obj_get_set_ne by done. naive_solver.
Qed.

Lemma extends_set d k v o : extends d o → extends d (obj_set k v o).
Proof. intros He k' Hk. apply has_set. right. by apply He. Qed.

Lemma extends_spread d a b : extends d a → extends d (spread a b).
Proof. revert a; induction b as [|[k v] b IH]; intros a Ha; simpl; [done|]. by apply IH, extends_set. Qed.

(** Spreading an extension of [d] over [d] gives the extension. *)
Lemma spread_extends d o k : wf_obj o → extends d o → obj_get k (spread d o) = obj_get k o.
Proof.
  intros [Hk _] He. rewrite obj_get_spread by done. destruct (obj_get k o) eqn:E; [done|].
  destruct (obj_get k d) eqn:Ed; [|done]. specialize (He k). unfold obj_has in He.
  rewrite E, Ed in He. by specialize (He eq_refl).
Qed.

Lemma default_config_keys g : map fst (default_config g) = map fst DEFAULT_CONFIG.
Proof.
  unfold default_config, obj_set.
  replace (obj_has (js "group") DEFAULT_CONFIG) with true by (vm_compute; reflexivity).
  apply replace_keys.
Qed.

Lemma wf_default_parameters : wf_obj DEFAULT_PARAMETER_ENABLED.
Proof. apply wf_decide. vm_compute. reflexivity. Qed.

Lemma wf_default_config g : wf_obj (default_config g).
Proof. apply wf_set, wf_decide. vm_compute. reflexivity. Qed.

Lemma extends_default g g' : extends (default_config g) (default_config g').
Proof. intros k. rewrite !obj_has_elem, !default_config_keys. done. Qed.

(** The state is in order and has every default member. *)
Record settings_ok (s : playground) : Prop := {
  ok_config : wf_obj (config s);
  ok_parameters : wf_obj (parameterEnabled s);
  ok_config_keys : ∀ g, extends (default_config g) (config s);
  ok_parameter_keys : extends DEFAULT_PARAMETER_ENABLED (parameterEnabled s);
}.

(** The changes of the settings. *)
Inductive change :=
  | ChConfig (k : jsstr) (v : value)
  | ChValues (values : obj)
  | ChParameter (k : jsstr) (b : bool)
  | ChReset (userGroup : option jsstr).

Definition apply_change (accepts : store → jsstr → jsstr → bool) (s : playground) (c : change)
    : playground :=
  match c with
  | ChConfig k v => updateConfig accepts k v s
  | ChValues o => updateConfigValues accepts o s
  | ChParameter k b => updateParameterEnabled accepts k b s
  | ChReset g => resetConfig accepts g s
  end.

Lemma initial_ok g st : settings_ok (usePlaygroundState g st).
Proof.
  split; simpl.
  - apply wf_spread, wf_default_config.
  - apply wf_spread, wf_default_parameters.
  - intros g'. apply extends_spread, extends_default.
  - apply extends_spread. by intros k.
Qed.

Lemma change_ok accepts s c : settings_ok s → settings_ok (apply_change accepts s c).
Proof.
  intros [H1 H2 H3 H4]. destruct c as [k v|o|k b|g]; split; simpl;
    auto using wf_set, wf_spread, extends_set, extends_spread, wf_default_config,
      wf_default_parameters, extends_default.
  by intros k.
Qed.

Lemma changes_ok accepts s cs : settings_ok s → settings_ok (fold_left (apply_change accepts) cs s).
Proof. revert s; induction cs as [|c cs IH]; intros s Hs; simpl; [done|]. by apply IH, change_ok. Qed.

(** What a change saves. *)
Definition saves_config (c : change) : bool :=
  match c with ChParameter _ _ => false | _ => true end.
Definition saves_parameters (c : change) : bool :=
  match c with ChParameter _ _ | ChReset _ => true | _ => false end.

Lemma keys_differ : CONFIG ≠ PARAMETER_ENABLED.
Proof. by vm_compute. Qed.

Lemma saved_config accepts s c :
  (∀ st k t, accepts st k t = true) → saves_config c = true →
  json_ok (VObj (config (apply_change accepts s c))) →
  loadConfig (stored (apply_change accepts s c)) = VObj (config (apply_change accepts s c)).
Proof.
  intros Ha Hc Hj. unfold loadConfig. destruct c as [k v|o|k b|g]; [| |done|]; cbn [apply_change] in *.
  - by apply load_saved.
  - by apply load_saved.
  - unfold resetConfig in *. cbn [stored config] in *. unfold saveParameterEnabled.
    rewrite load_other by apply keys_differ. by apply load_saved.
Qed.

Lemma saved_parameters accepts s c :
  (∀ st k t, accepts st k t = true) → saves_parameters c = true →
  json_ok (VObj (parameterEnabled (apply_change accepts s c))) →
  loadParameterEnabled (stored (apply_change accepts s c))
  = VObj (parameterEnabled (apply_change accepts s c)).
Proof.
  intros Ha Hc Hj. unfold loadParameterEnabled.
  destruct c as [k v|o|k b|g]; [done|done| |]; by apply load_saved.
Qed.

(** ** Messages *)

(** The first member named [k]. *)
Definition field_get (k : jsstr) (l : list (jsstr * option value)) : option value :=
  kv ← find_first (λ kv, str_eqb kv.1 k) l; kv.2.

Lemma fields_keys l k : k ∈ map fst (fields_obj l) → k ∈ map fst l.
Proof.
  induction l as [|[k' [v|]] l IH]; simpl; [done| |]; rewrite ?elem_of_cons; naive_solver.
Qed.

Lemma fields_get k l : NoDup (map fst l) → obj_get k (fields_obj l) = field_get k l.
Proof.
  induction l as [|[k' o] l IH]; simpl; intros Hn; [done|]. apply NoDup_cons in Hn as [Hk Hn].
  unfold field_get. simpl. destruct (str_eqb k' k) eqn:E; simpl.
  - unfold str_eqb in E. apply bool_decide_eq_true in E as ->. destruct o as [v|]; simpl.
    + unfold obj_get. simpl. by rewrite str_eqb_refl.
    + apply obj_get_None. intros Hin. by apply Hk, fields_keys.
  - destruct o as [v|]; simpl; [|by apply IH].
    unfold obj_get. simpl. rewrite E. by apply IH.
Qed.

Lemma fields_wf l :
  bool_decide (NoDup (map fst l)) && forallb (λ kv, negb (is_some (array_index kv.1))) l = true →
  wf_obj (fields_obj l).
Proof.
  intros H. apply wf_decide. bool_to_prop. rename select (forallb _ _ = true) into Hf.
  rewrite forallb_forall in Hf. apply andb_true_iff. split.
  - apply bool_decide_eq_true. rename select (NoDup _) into Hn. clear Hf.
    induction l as [|[k [v|]] l IH]; simpl in *; [constructor| |];
      apply NoDup_cons in Hn as [Hk Hn]; [|by apply IH].
    apply NoDup_cons. split; [|by apply IH]. intros Hin. by apply Hk, fields_keys.
  - apply forallb_forall. intros [k v] Hin. apply list_elem_of_In in Hin.
    apply list_elem_of_omap in Hin as ([k' o] & Hin & E). simpl in E. destruct o; [|done].
    injection E as -> ->. apply list_elem_of_In in Hin. by apply (Hf (k, Some v)).
Qed.

Definition opt_ok {A} (P : A → Prop) (o : option A) : Prop :=
  match o with Some x => P x | None => True end.

(** The messages that JSON can carry: code units below 2^16 and a duration
    whose decimal form reads back. *)
Record message_ok (m : Message) : Prop := {
  mok_key : units_ok (key m);
  mok_versions : Forall (λ v, units_ok (version_id v) ∧ units_ok (content v)) (versions m);
  mok_media : opt_ok (λ x, units_ok (media_url x) ∧ opt_ok units_ok (media_title x) ∧
                        opt_ok units_ok (media_taskId x) ∧ opt_ok units_ok (media_status x)) (media m);
  mok_sources : opt_ok (Forall (λ x, units_ok x.1 ∧ units_ok x.2)) (sources m);
  mok_reasoning : opt_ok (λ r, units_ok (reasoning_content r) ∧ num_ok (reasoning_duration r))
                    (reasoning m);
  mok_code : opt_ok (opt_ok units_ok) (errorCode m);
}.

(** Fixed member names: distinct, not array indices, code units. *)
Definition names_ok (l : list (jsstr * option value)) : bool :=
  bool_decide (NoDup (map fst l)) && forallb (λ kv, negb (is_some (array_index kv.1))) l
  && forallb (λ kv, unitsb kv.1) l.

Lemma fields_json_ok l :
  names_ok l = true → Forall (λ kv, opt_ok json_ok kv.2) l → json_ok (VObj (fields_obj l)).
Proof.
  intros Hw Hl. apply andb_true_iff in Hw as [Hw Hu].
  apply members_json_ok; [by apply fields_wf|]. intros k v Hin.
  apply list_elem_of_omap in Hin as ([k' o] & Hin & E). simpl in E. destruct o as [v'|]; [|done].
  injection E as -> ->. rewrite Forall_forall in Hl. rewrite forallb_forall in Hu. split.
  - apply unitsb_ok. by apply (Hu (k, Some v)), list_elem_of_In.
  - by apply (Hl (k, Some v)).
Qed.

Lemma fields_member {A} (f : value → option A) k l v :
  names_ok l = true → field_get k l = Some v → member f k (fields_obj l) = f v.
Proof.
  intros Hw Hg. unfold member. rewrite fields_get; [by rewrite Hg|].
  unfold names_ok in Hw. by bool_to_prop.
Qed.

Lemma fields_opt_member {A} (f : value → option A) k l (o : option A) (g : A → value) :
  names_ok l = true → field_get k l = g <$> o → (∀ x, f (g x) = Some x) →
  opt_member f k (fields_obj l) = Some o.
Proof.
  intros Hw Hg Hf. unfold opt_member. rewrite fields_get; [|unfold names_ok in Hw; by bool_to_prop].
  rewrite Hg. destruct o as [x|]; simpl; [by rewrite Hf|done].
Qed.

Lemma arr_json_ok {A} (f : A → value) l : Forall (λ x, json_ok (f x)) l → json_ok (VArr (map f l)).
Proof. simpl. induction 1; simpl; done. Qed.

Lemma as_list_map {A} (f : A → value) (g : value → option A) l :
  (∀ x, g (f x) = Some x) → as_list g (VArr (map f l)) = Some l.
Proof. intros H. simpl. induction l as [|x l IH]; simpl; [done|]. by rewrite H, IH. Qed.

(** Solve the side conditions on fixed names and the lookups of members. *)
Ltac names := solve [vm_compute; reflexivity].

Lemma read_step {A B} (m : option A) (x : A) (f : A → option B) r :
  m = Some x → f x = r → (m ≫= f) = r.
Proof. by intros -> <-. Qed.

Lemma read_field {A} (f : value → option A) k l v x :
  names_ok l = true → field_get k l = Some v → f v = Some x → member f k (fields_obj l) = Some x.
Proof. intros. by rewrite (fields_member f k l v). Qed.

(** Read the next member, written as [v], or as [g] of an optional value. *)
Ltac read_member v := eapply read_step; [apply (read_field _ _ _ v); [names|names|try done]|].
Ltac read_option o g :=
  eapply read_step; [apply (fields_opt_member _ _ _ o g); [names|names|try done]|].

Lemma version_back v : as_version (version_value v) = Some v.
Proof.
  unfold as_version, version_value. apply (read_step _ _ _ _ eq_refl).
  read_member (VStr (version_id v)). read_member (VStr (content v)). by destruct v.
Qed.

Lemma source_back x : as_source (source_value x) = Some x.
Proof.
  unfold as_source, source_value. apply (read_step _ _ _ _ eq_refl).
  read_member (VStr x.1). read_member (VStr x.2). by destruct x.
Qed.

Lemma reasoning_back r : as_reasoning (reasoning_value r) = Some r.
Proof.
  unfold as_reasoning, reasoning_value. apply (read_step _ _ _ _ eq_refl).
  read_member (VStr (reasoning_content r)).
  read_member (VNum (reasoning_duration r)). by destruct r.
Qed.

Lemma media_type_back t : as_media_type (VStr (media_type_text t)) = Some t.
Proof. by destruct t. Qed.

Lemma media_back x : as_media (media_value x) = Some x.
Proof.
  unfold as_media, media_value. apply (read_step _ _ _ _ eq_refl).
  read_member (VStr (media_type_text (media_type x))); [apply media_type_back|].
  read_member (VStr (media_url x)). read_option (media_title x) VStr.
  read_option (media_taskId x) VStr. read_option (media_status x) VStr. by destruct x as [[] ????].
Qed.

Lemma role_back r : as_role (VStr (role_text r)) = Some r.
Proof. by destruct r. Qed.

Lemma status_back s : as_status (VStr (status_text s)) = Some s.
Proof. by destruct s. Qed.

Definition code_value (c : option jsstr) : value :=
  match c with Some s => VStr s | None => VNull end.

Lemma code_back c : as_code (code_value c) = Some c.
Proof. by destruct c. Qed.

(** A message is read back from its members. *)
Lemma message_back m : as_message (message_value m) = Some m.
Proof.
  unfold as_message, message_value. apply (read_step _ _ _ _ eq_refl).
  read_member (VStr (key m)). read_member (VStr (role_text (from m))); [apply role_back|].
  read_member (VArr (map version_value (versions m))); [apply as_list_map, version_back|].
  read_option (media m) media_value; [apply media_back|].
  read_option (sources m) (λ l, VArr (map source_value l));
    [intros l; apply as_list_map, source_back|].
  read_option (reasoning m) reasoning_value; [apply reasoning_back|].
  read_option (isReasoningStreaming m) VBool.
  read_option (isReasoningComplete m) VBool.
  read_option (isContentComplete m) VBool.
  read_option (status m) (λ s, VStr (status_text s)); [apply status_back|].
  read_option (errorCode m) code_value; [apply code_back|]. by destruct m.
Qed.

Lemma messages_back ms : mapM as_message (map message_value ms) = Some ms.
Proof. induction ms as [|m ms IH]; simpl; [done|]. by rewrite message_back, IH. Qed.

Lemma opt_fmap_ok {A} (P : A → Prop) (g : A → value) (o : option A) :
  opt_ok P o → (∀ x, P x → json_ok (g x)) → opt_ok json_ok (g <$> o).
Proof. destruct o; simpl; auto. Qed.

(** One goal for each member. *)
Ltac each_field :=
  apply fields_json_ok; [names|]; repeat (apply Forall_cons_2 || apply Forall_nil_2); cbn [snd opt_ok].

Lemma message_json_ok m : message_ok m → json_ok (message_value m).
Proof.
  intros [Hk Hv Hm Hs Hr Hc]. each_field.
  - done.
  - apply unitsb_ok. by destruct (from m).
  - apply arr_json_ok. eapply Forall_impl; [exact Hv|]. intros v [H1 H2].
    by each_field.
  - eapply opt_fmap_ok; [exact Hm|]. intros x (H1 & H2 & H3 & H4).
    each_field; [| |by eapply opt_fmap_ok..].
    + apply unitsb_ok. by destruct (media_type x).
    + done.
  - eapply opt_fmap_ok; [exact Hs|]. intros l Hl. apply arr_json_ok.
    eapply Forall_impl; [exact Hl|]. intros x [H1 H2]. by each_field.
  - eapply opt_fmap_ok; [exact Hr|]. intros r [H1 H2]. by each_field.
  - by destruct (isReasoningStreaming m).
  - by destruct (isReasoningComplete m).
  - by destruct (isContentComplete m).
  - destruct (status m) as [[]|]; simpl; try done; by apply unitsb_ok.
  - eapply (opt_fmap_ok _ code_value); [exact Hc|]. by intros [s|].
Qed.

(** Saving and loading messages. *)
Lemma load_saved_messages accepts ms st :
  (∀ st k t, accepts st k t = true) → Forall message_ok ms →
  ∃ ms', sanitizeMessagesOnLoad ms = Ok ms' ∧
    loadMessages accepts (saveMessages accepts ms st)
    = (Loaded ms', saveMessages accepts (if is_some (find_last_index is_stuck ms) then ms' else ms) 
                     (saveMessages accepts ms st)).
Proof.
  intros Ha Hms. destruct (sanitize_spec ms) as (ms' & Hs & _). exists ms'. split; [done|].
  assert (json_ok (VArr (map message_value ms))) as Hj.
  { apply arr_json_ok. eapply Forall_impl; [exact Hms|]. apply message_json_ok. }
  destruct (json_parse_stringify _ Hj) as (text & Ht & Hp).
  unfold loadMessages. unfold saveMessages at 1 2. rewrite (set_item_get _ _ _ _ text Ha Ht).
  rewrite lookup_insert_eq. replace (truthy text) with true
    by (symmetry; by simpl in Ht; injection Ht as <-).
  rewrite Hp, messages_back, Hs. destruct (is_some _); [done|]. f_equal.
  unfold saveMessages. rewrite !(set_item_get _ _ _ _ text Ha Ht). by rewrite insert_insert_eq.
Qed.

(** In a list whose front is settled at most one message is unfinished. *)
Lemma front_settled_one ms :
  settled (removelast ms) → length (filterb is_stuck ms) ≤ 1.
Proof.
  intros Hs. destruct (last ms) as [l|] eqn:E.
  - apply last_Some in E as [front ->]. rewrite removelast_snoc in Hs.
    unfold filterb. rewrite List.filter_app, length_app.
    assert (List.filter is_stuck front = []) as ->.
    { induction Hs as [|m ms Hm _ IH]; simpl; [done|]. by rewrite Hm. }
    simpl. destruct (is_stuck l); simpl; lia.
  - apply last_None in E as ->. simpl. lia.
Qed.

Lemma none_stuck ms : filterb is_stuck ms = [] → settled ms.
Proof.
  intros E. apply Forall_forall. intros m Hm. destruct (is_stuck m) eqn:Es; [|done].
  assert (m ∈ filterb is_stuck ms) as Hin by by apply filterb_elem.
  rewrite E in Hin. by apply elem_of_nil in Hin.
Qed.

(** ** Properties *)

(** The settings survive a reload: after any changes of the
    configuration and the enabled parameters, starting from any stored texts,
    a change that saves the configuration (the parameters) leaves a store from
    which the hook starts with exactly the members it had, whatever the group
    of the user is then; the values must be ones that JSON carries and the
    store must accept them. *)
Theorem settings_survive_reload (accepts : store → jsstr → jsstr → bool) (g g' : option jsstr)
    (st : store) (cs : list change) (c : change) :
  (∀ st k t, accepts st k t = true) →
  let s := apply_change accepts (fold_left (apply_change accepts) cs (usePlaygroundState g st)) c in
  let s' := usePlaygroundState g' (stored s) in
  (saves_config c = true → members_ok (config s) →
     ∀ k, obj_get k (config s') = obj_get k (config s)) ∧
  (saves_parameters c = true → members_ok (parameterEnabled s) →
     ∀ k, obj_get k (parameterEnabled s') = obj_get k (parameterEnabled s)).
Proof.
  intros Ha. set (s0 := fold_left _ cs _). intros s s'.
  assert (settings_ok s) as [H1 H2 H3 H4] by apply change_ok, changes_ok, initial_ok.
  split; intros Hc Hm k; unfold s'; cbn [usePlaygroundState config parameterEnabled].
  - unfold s. rewrite saved_config; [|done|done|by apply members_json_ok].
    by apply spread_extends.
  - unfold s. rewrite saved_parameters; [|done|done|by apply members_json_ok].
    by apply spread_extends.
Qed.

Lemma settings_survive_reload_witness :
  let accept_all := λ (_ : store) (_ _ : jsstr), true in
  let s := apply_change accept_all (usePlaygroundState None ∅)
             (ChConfig (js "model") (VStr (js "sora2"))) in
  obj_get (js "model") (config (usePlaygroundState (Some (js "vip")) (stored s)))
  = Some (VStr (js "sora2")).
Proof.
  intros accept_all s.
  destruct (settings_survive_reload accept_all None (Some (js "vip")) ∅ []
    (ChConfig (js "model") (VStr (js "sora2")))) as [H _]; [done|].
  etransitivity; [apply H|]; [reflexivity| |vm_compute; reflexivity].
  intros k v Hin.
  assert (Forall (λ kv, units_ok kv.1 ∧ json_ok kv.2)
    (config (apply_change accept_all (fold_left (apply_change accept_all) [] (usePlaygroundState None ∅))
       (ChConfig (js "model") (VStr (js "sora2")))))) as Hall.
  { vm_compute config. repeat (apply Forall_cons_2 || apply Forall_nil_2);
      (split; [by apply unitsb_ok|]); try done; try (by apply unitsb_ok);
      (split; vm_compute; reflexivity). }
  rewrite Forall_forall in Hall. by apply (Hall (k, v)).
Defined.

(** Messages survive a reload: loading what was saved gives the saved
    messages with the last unfinished one settled; settled messages come back
    unchanged and the store is not written again. *)
Theorem messages_survive_reload (accepts : store → jsstr → jsstr → bool) (ms : list Message)
    (st : store) :
  (∀ st k t, accepts st k t = true) → Forall message_ok ms →
  ∃ ms', sanitizeMessagesOnLoad ms = Ok ms' ∧
    (loadMessages accepts (saveMessages accepts ms st)).1 = Loaded ms' ∧
    (settled ms → ms' = ms ∧
       loadMessages accepts (saveMessages accepts ms st) = (Loaded ms, saveMessages accepts ms st)).
Proof.
  intros Ha Hms. destruct (load_saved_messages accepts ms st Ha Hms) as (ms' & Hs & Hl).
  exists ms'. split; [done|]. rewrite Hl. split; [done|]. intros Hset.
  assert (find_last_index is_stuck ms = None) as Hn.
  { apply find_last_index_None. intros m Hm. unfold settled in Hset. rewrite Forall_forall in Hset.
    by apply Hset. }
  unfold sanitizeMessagesOnLoad in Hs. rewrite Hn in Hs. injection Hs as <-. rewrite Hn. simpl.
  split; [done|]. f_equal. unfold saveMessages, set_item.
  destruct (stringify _); [|done]. rewrite !Ha. by rewrite insert_insert_eq.
Qed.

Definition sample_message : Message :=
  Msg (js "k") ASSISTANT [Version (js "v") (js "hi")] None None (Some (Reason (js "why") (of_Z 0)))
    (Some true) (Some false) None (Some STREAMING) (Some None).

Lemma sample_message_ok : message_ok sample_message.
Proof.
  split; simpl; auto; repeat constructor; try (by apply unitsb_ok); vm_compute; reflexivity.
Qed.

Lemma messages_survive_reload_witness :
  ∃ ms', sanitizeMessagesOnLoad [sample_message] = Ok ms' ∧
    (loadMessages (λ _ _ _, true) (saveMessages (λ _ _ _, true) [sample_message] ∅)).1 = Loaded ms' ∧
    map status ms' = [Some COMPLETE].
Proof.
  destruct (messages_survive_reload (λ _ _ _, true) [sample_message] ∅) as (ms' & H1 & H2 & _).
  - done.
  - repeat constructor; apply sample_message_ok.
  - exists ms'. split; [exact H1|]. split; [exact H2|]. vm_compute in H1. injection H1 as <-.
    reflexivity.
Defined.

(** C22.  Crash recovery: the playground saves its messages at every update;
    whenever the page is closed in a calm run, even in the middle of a reply,
    the messages that the next load finds are all settled, and they are as
    many as before with all but the last one unchanged. *)
Theorem crash_recovery (accepts : store → jsstr → jsstr → bool) (ms : list Message)
    (es : list event) (s : chat) (earlier : list Message) (st : store) :
  (∀ st k t, accepts st k t = true) → settled ms → run calm (init ms) es s →
  Forall message_ok (msgs s) →
  ∃ ms', (loadMessages accepts (updateMessages accepts (λ _, msgs s) (earlier, st)).2).1 = Loaded ms' ∧
    settled ms' ∧ length ms' = length (msgs s) ∧
    ∀ i, S i < length (msgs s) → ms' !! i = msgs s !! i.
Proof.
  intros Ha Hms Hr Hok. destruct (run_inv _ _ _ (init_inv ms Hms) Hr) as [_ Hf _ _].
  destruct (load_saved_messages accepts (msgs s) st Ha Hok) as (ms' & Hs & Hl).
  destruct (sanitize_spec (msgs s)) as (ms'' & Hs' & Hlen & Hone & Hnone).
  rewrite Hs in Hs'. injection Hs' as <-. exists ms'. cbn [updateMessages snd]. rewrite Hl. split; [done|].
  split; [by apply none_stuck, Hnone, front_settled_one|]. split; [done|]. intros i Hi.
  destruct (find_last_index is_stuck (msgs s)) as [j|] eqn:E; [|by subst].
  destruct Hone as (m & _ & _ & _ & Hsame). apply Hsame. intros ->.
  apply find_last_index_Some in E as [(x & Hx & Hst) _].
  unfold settled in Hf. rewrite Forall_forall in Hf.
  assert (x ∈ removelast (msgs s)) as Hin.
  { destruct (last (msgs s)) as [l|] eqn:El; [|apply last_None in El; by rewrite El in Hx].
    apply last_Some in El as [front El]. rewrite El in *. rewrite removelast_snoc.
    rewrite length_app in Hi. simpl in Hi. rewrite lookup_app_l in Hx by lia.
    by eapply list_elem_of_lookup_2. }
  apply Hf in Hin. congruence.
Qed.

Lemma crash_recovery_witness :
  ∃ ms', (loadMessages (λ _ _ _, true)
            (updateMessages (λ _ _ _, true) (λ _, msgs hi_state) ([], ∅)).2).1 = Loaded ms' ∧ settled ms' ∧ length ms' = 2.
Proof.
  destruct (crash_recovery (λ _ _ _, true) [] hi_events hi_state [] ∅) as (ms' & H1 & H2 & H3 & _).
  - done.
  - constructor.
  - apply hi_run.
  - repeat constructor; try done; try (by apply unitsb_ok).
  - exists ms'. split; [exact H1|]. split; [exact H2|]. exact H3.
Defined.
