(* ===== verification/CreationHistory.v ===== *)
(** * History of the creation centre

    Model of src/web/default/src/features/creation-center/session.ts (the
    history of a user in localStorage, the countdown of a task, the prompt with
    its assets) and of the handlers of index.tsx that change the history.

    An item of the history is an object as JSON has it, because what is loaded
    was checked only in part and is copied with all its members.  localStorage
    is a finite map from keys to texts; [accepts] tells whether [setItem] stores
    a text (it throws when the quota is exceeded).  The items are the state of
    the page, the key is the one of the user when the handler was made. *)
From S2P Require Import Prelude JsString JsNumber JsValue JsonFacts FloatError VideoCapabilities VideoReferences ImageOptions PlaygroundStorage.
From stdpp Require Import gmap.
From Stdlib Require Import SpecFloat.

Open Scope N_scope.

Definition CREATION_HISTORY_LIMIT : nat := 20.

Definition getCreationHistoryStorageKey (userId : option num) : jsstr :=
  js "creation-center-history:" ++ match userId with Some id => num_to_str id | None => js "guest" end.

(** ** References that may be stored *)

(** A member of a value that is neither null nor undefined. *)
Definition member_value (k : jsstr) (v : value) : value := match v with VObj o => prop k o | _ => VUndef end.

(** The pattern of a URL with http or https, without regard to case. *)
Definition isStorableReferenceURL (s : jsstr) : bool :=
  let t := map ascii_lower (trim s) in
  starts_with (js "http://") t || starts_with (js "https://") t.

(** [value.url.trim()] throws when [url] is no string. *)
Definition getStorableReferenceURL (v : value) : exc jsstr :=
  if negb (val_truthy v) then Ok []
  else
    match v with
    | VStr s => Ok (trim s)
    | _ => match member_value (js "url") v with VStr u => Ok (trim u) | _ => Throw end
    end.

Definition getStorableImageReferenceURL (v : value) : exc jsstr :=
  if negb (val_truthy v) then Ok []
  else
    match v with
    | VStr s => Ok (trim s)
    | _ => match member_value (js "url") v with VStr u => Ok (trim u) | _ => Throw end
    end.

(** The URLs of an array of references, nothing for another value. *)
Definition storable_urls (get : value → exc jsstr) (v : value) : exc (list jsstr) :=
  match v with
  | VArr l => urls ← mapM get l; Ok (filterb isStorableReferenceURL urls)
  | _ => Ok []
  end.

Definition storable_string (v : value) : jsstr :=
  match v with VStr s => if isStorableReferenceURL s then s else [] | _ => [] end.

Definition str_values (l : list jsstr) : value := VArr (map VStr l).

Definition reference_value (r : CreationVideoReferenceValue) : value :=
  match r with
  | RefString s => VStr s
  | RefObj o =>
      VObj (fields_obj [(js "url", Some (VStr (url o))); (js "previewUrl", VStr <$> previewUrl o);
        (js "sizeBytes", VNum <$> sizeBytes o); (js "durationSeconds", VNum <$> durationSeconds o)])
  end.

(** ** Items *)

Definition created (item : obj) : num := match prop (js "createdAt") item with VNum x => x | _ => nNaN end.

(** [===] of two members; two objects are never the same one. *)
Definition strict_eq (v w : value) : bool :=
  match v, w with
  | VUndef, VUndef | VNull, VNull => true
  | VBool a, VBool b => Bool.eqb a b
  | VNum x, VNum y => neqb x y
  | VStr s, VStr t => str_eqb s t
  | _, _ => false
  end.

Definition CREATION_MODE_NAMES : list jsstr := [js "chat"; js "image"; js "video"].

Definition isCreationHistoryItem (v : value) : bool :=
  match v with
  | VObj item =>
      match prop (js "id") item, prop (js "createdAt") item, prop (js "model") item, prop (js "prompt") item with
      | VStr _, VNum _, VStr _, VStr _ =>
          match prop (js "result") item with VObj _ | VArr _ => true | _ => false end
          && match prop (js "mode") item with VStr m => includes m CREATION_MODE_NAMES | _ => false end
      | _, _, _, _ => false
      end
  | _ => false
  end.

(** The model of an item, known by its name only. *)
Definition item_model (item : obj) : CreationModelInput :=
  match prop (js "model") item with VStr s => ModelName s | _ => ModelUndefined end.

(** A member that is no string is in no list of options. *)
Definition stored_options (v : value) : PartialImageOptions :=
  PartialImage (as_str (member_value (js "aspectRatio") v)) (as_str (member_value (js "outputResolution") v)).

Definition options_value (o : CreationImageOptions) : value :=
  VObj [(js "aspectRatio", VStr (image_aspectRatio o));
        (js "outputResolution", match outputResolution o with Some r => VStr r | None => VUndef end)].

Section Sanitize.
Context `{CaseMap}.

Definition sanitizeImageReferences (references : value) (model : CreationModelInput) : exc value :=
  imageUrls ← storable_urls getStorableImageReferenceURL (member_value (js "imageUrls") references);
  Ok (VObj [(js "imageUrls",
    VArr (map reference_value (normalizeCreationImageReferences (Some (map RefString imageUrls)) model)))]).

(** The options and the references of an image. *)
Definition sanitize_image (item : obj) : exc obj :=
  let imageReferences := prop (js "imageReferences") item in
  if negb (val_truthy imageReferences) then Ok item
  else
    let imageOptions := prop (js "imageOptions") item in
    options ← (if val_truthy imageOptions then
                 o ← normalizeCreationImageOptions (stored_options imageOptions) (item_model item);
                 Ok (options_value o)
               else Ok VUndef);
    references ← sanitizeImageReferences imageReferences (item_model item);
    Ok (obj_set (js "imageReferences") references (obj_set (js "imageOptions") options item)).

(** The members that replace those of the references of a video. *)
Definition sanitized_references (references : value) : exc obj :=
  imageUrls ← storable_urls getStorableReferenceURL (member_value (js "imageUrls") references);
  let startImageUrl := storable_string (member_value (js "startImageUrl") references) in
  let endImageUrl := storable_string (member_value (js "endImageUrl") references) in
  videoUrls ← storable_urls getStorableReferenceURL (member_value (js "videoUrls") references);
  audioUrls ← storable_urls getStorableReferenceURL (member_value (js "audioUrls") references);
  audio ← getStorableReferenceURL (member_value (js "audioUrl") references);
  let audioUrl := if isStorableReferenceURL audio then audio else [] in
  let normalizedAudioUrls :=
    match audioUrls with
    | _ :: _ => audioUrls
    | [] => if truthy audioUrl then [audioUrl] else []
    end in
  Ok [(js "imageUrls", str_values imageUrls); (js "startImageUrl", VStr startImageUrl);
      (js "endImageUrl", VStr endImageUrl); (js "videoUrls", str_values videoUrls);
      (js "audioUrls", str_values normalizedAudioUrls); (js "audioUrl", VStr audioUrl)].

Definition sanitizeCreationHistoryItem (item : obj) : exc obj :=
  let references := prop (js "videoReferences") item in
  sanitizedItem ← sanitize_image item;
  if negb (val_truthy references) then Ok sanitizedItem
  else
    replaced ← sanitized_references references;
    Ok (obj_set (js "videoReferences") (VObj (spread (own_members references) replaced)) sanitizedItem).

(** ** Loading and saving *)

(** [sort((left, right) => right.createdAt - left.createdAt)]. *)
Definition history_newest_first : list obj → list obj :=
  sort_by (λ left right, negb (nltb (of_Z 0) (nsub (created right) (created left)))).

Definition latest (items : list obj) : list obj := take CREATION_HISTORY_LIMIT (history_newest_first items).

Definition item_members (v : value) : obj := match v with VObj o => o | _ => [] end.

Definition loaded_items (parsed : list value) : exc (list obj) :=
  items ← mapM sanitizeCreationHistoryItem (map item_members (filterb isCreationHistoryItem parsed));
  Ok (latest items).

(** The items, and the storage: a text that is no JSON and an exception
    remove the key. *)
Definition loadCreationHistory (st : store) (key : jsstr) : list obj * store :=
  match st !! key with
  | None => ([], st)
  | Some raw =>
      if negb (truthy raw) then ([], st)
      else
        match json_parse raw with
        | None => ([], delete key st)
        | Some (VArr parsed) =>
            match loaded_items parsed with
            | Ok items => (items, st)
            | _ => ([], delete key st)
            end
        | Some _ => ([], st)
        end
  end.

Definition saved_items (items : list obj) : exc (list obj) :=
  items ← mapM sanitizeCreationHistoryItem items;
  Ok (latest (filterb (λ o, isCreationHistoryItem (VObj o)) items)).

Section Page.
Context (accepts : store → jsstr → jsstr → bool).

Definition saveCreationHistory (st : store) (key : jsstr) (items : list obj) : exc store :=
  items ← saved_items items;
  match stringify (VArr (map VObj items)) with
  | Some text => if accepts st key text then Ok (<[key := text]> st) else Throw
  | None => Throw
  end.

Definition upsertCreationHistoryItem (items : list obj) (item : obj) : exc (list obj) :=
  first ← sanitizeCreationHistoryItem item;
  Ok (latest (first ::
    filterb (λ current, negb (strict_eq (prop (js "id") current) (prop (js "id") item))) items)).

(** ** The handlers of the page *)

Record history := History { history_items : list obj; history_store : store }.

(** The effect that runs when the key changes. *)
Definition load_history (key : jsstr) (h : history) : history :=
  let '(items, st) := loadCreationHistory (history_store h) key in History items st.

Definition persistHistoryItem (key : jsstr) (item : obj) (h : history) : exc history :=
  next ← upsertCreationHistoryItem (history_items h) item;
  st ← saveCreationHistory (history_store h) key next;
  Ok (History next st).

(** [a || b]. *)
Definition val_or (a b : value) : value := if val_truthy a then a else b.

Definition item_identity (item : obj) : value :=
  let result := prop (js "result") item in
  val_or (val_or (member_value (js "taskId") result) (member_value (js "id") result)) (prop (js "id") item).

(** The members of a result that an answer without them keeps. *)
Definition KEPT_MEMBERS : list jsstr := [js "createdAt"; js "duration"; js "estimateSeconds"; js "resolution"].

Definition merged_result (nextResult : obj) (result : value) : obj :=
  fold_left (λ o k, obj_set k (nullish (member_value k result) (prop k nextResult)) o) KEPT_MEMBERS
    (spread (own_members result) nextResult).

Definition update_item (identity : value) (nextResult : obj) (item : obj) : obj :=
  if negb (strict_eq (item_identity item) identity) then item
  else
    obj_set (js "result") (VObj (merged_result nextResult (prop (js "result") item)))
      (obj_set (js "model") (prop (js "model") nextResult) item).

Definition updateHistoryResult (key : jsstr) (nextResult : obj) (h : history) : exc history :=
  let identity := val_or (prop (js "taskId") nextResult) (prop (js "id") nextResult) in
  if negb (val_truthy identity) then Ok h
  else
    let next := map (update_item identity nextResult) (history_items h) in
    st ← saveCreationHistory (history_store h) key next;
    Ok (History next st).

Definition clearHistory (key : jsstr) (h : history) : history := History [] (delete key (history_store h)).

End Page.
End Sanitize.
