(* ===== verification/CreationHistoryFacts.v ===== *)
(** * Facts about the history of the creation centre

    What JSON makes of members that are undefined, items that are clean
    (cleaning them again changes nothing that is stored), and the order of the
    items. *)
From S2P Require Import Prelude JsString JsNumber JsValue JsonFacts FloatError VideoCapabilities VideoReferences ImageOptions PlaygroundStorage CreationHistory.
From stdpp Require Import gmap.
From Stdlib Require Import SpecFloat.

Open Scope N_scope.

(** ** What remains of a value in JSON

    Members that are undefined are left out, elements that are undefined
    become null. *)

Definition is_undef (v : value) : bool := match v with VUndef => true | _ => false end.
Definition strip_elem (strip : value → value) (v : value) : value := if is_undef v then VNull else strip v.
Definition strip_member (strip : value → value) (kv : jsstr * value) : obj :=
  let '(k, v) := kv in if is_undef v then [] else [(k, strip v)].

Fixpoint strip (v : value) : value :=
  match v with
  | VArr l => VArr (map (strip_elem strip) l)
  | VObj o => VObj (concat (map (strip_member strip) o))
  | _ => v
  end.
Definition strip_obj (o : obj) : obj := concat (map (strip_member strip) o).

Lemma stringify_strip v : stringify (strip v) = stringify v.
Proof.
  induction v as [| |b|x|s|l IH|o IH] using value_ind; try done.
  - cbn [strip]. rewrite !stringify_arr, map_map. do 4 f_equal.
    apply map_ext_Forall. eapply Forall_impl; [exact IH|]. intros v Hv. destruct v; cbn [strip_elem is_undef]; try done;
      by rewrite Hv.
  - cbn [strip]. rewrite !stringify_obj. do 4 f_equal.
    induction IH as [|[k v] o Hv _ IH]; [done|]. cbn [map concat]. cbn in Hv.
    destruct v; [exact IH|..]; cbn [strip_member is_undef app member_texts]; rewrite Hv; fold member_texts;
      rewrite IH; done.
Qed.

(** Values that JSON can carry but for undefined members. *)
Fixpoint json_like (v : value) : Prop :=
  match v with
  | VUndef | VNull | VBool _ => True
  | VNum x => num_ok x
  | VStr s => units_ok s
  | VArr l => foldr (λ v P, json_like v ∧ P) True l
  | VObj o => wf_obj o ∧ foldr (λ kv P, (units_ok kv.1 ∧ json_like kv.2) ∧ P) True o
  end.

Definition members_like (o : obj) : Prop := ∀ k v, (k, v) ∈ o → units_ok k ∧ json_like v.

Lemma json_like_obj o : json_like (VObj o) ↔ wf_obj o ∧ members_like o.
Proof.
  cbn [json_like]. split; intros [Hw Hm]; (split; [done|]); clear Hw.
  - induction o as [|[k v] o IH]; [by intros ?? ?%elem_of_nil|]. destruct Hm as [H1 Hm].
    intros k' v' [[= -> ->]|Hin]%elem_of_cons; [done|by apply IH].
  - induction o as [|[k v] o IH]; cbn; [done|]. split; [apply Hm; left|].
    apply IH. intros k' v' Hin. apply Hm. by right.
Qed.

Lemma strip_obj_sub o k v : (k, v) ∈ strip_obj o → ∃ w, (k, w) ∈ o ∧ w ≠ VUndef ∧ v = strip w.
Proof.
  unfold strip_obj. intros (l & Hl & Hin)%list_elem_of_In%in_concat. apply in_map_iff in Hl as ([k' w] & <- & Hw).
  cbn [strip_member] in Hin. destruct (is_undef w) eqn:E; [done|]. destruct Hin as [[= -> <-]|[]].
  exists w. split; [by apply list_elem_of_In|]. split; [by intros ->|done].
Qed.

Lemma strip_obj_keys o : map fst (strip_obj o) `sublist_of` map fst o.
Proof.
  induction o as [|[k v] o IH]; [done|]. unfold strip_obj in *. cbn [map concat]. rewrite map_app.
  destruct v; cbn; by constructor.
Qed.

Lemma wf_sub o o' : map fst o' `sublist_of` map fst o → wf_obj o → wf_obj o'.
Proof.
  intros Hsub [Hk Hs]. split; [by eapply sublist_NoDup|]. clear Hk.
  assert (∀ l, StronglySorted before l ↔ StronglySorted before (map (λ k, (k, VNull)) (map fst l))) as Hkeys.
  { intros l. rewrite map_map. split; apply sorted_keys; by rewrite map_map. }
  rewrite Hkeys in Hs |- *. revert Hs. generalize (map fst o) as ks, (map fst o') as ks', Hsub. clear.
  intros ks ks' Hsub. induction Hsub as [|k l1 l2 Hsub IH|k l1 l2 Hsub IH]; cbn; intros Hs; [done|..];
    inversion Hs as [|?? Hs' Hf]; subst; [|by apply IH].
  constructor; [by apply IH|]. rewrite Forall_forall in *. intros x Hx. apply Hf.
  apply list_elem_of_fmap in Hx as (k' & -> & Hk'). apply list_elem_of_fmap. exists k'. split; [done|].
  by eapply elem_of_sublist.
Qed.

Lemma json_ok_strip v : json_like v → v ≠ VUndef → json_ok (strip v).
Proof.
  induction v as [| |b|x|s|l IH|o IH] using value_ind; try done.
  - intros Hl _. cbn [strip json_ok]. cbn [json_like] in Hl.
    induction IH as [|v l Hv _ IH]; cbn; [done|]. destruct Hl as [H1 Hl]. split; [|by apply IH].
    destruct v; cbn [strip_elem is_undef]; try done; by apply Hv.
  - intros [Hw Hm]%json_like_obj _. apply members_json_ok; [apply (wf_sub o); [apply strip_obj_keys|done]|].
    intros k v (w & Hin & Hn & ->)%strip_obj_sub. apply Hm in Hin as Hw'. destruct Hw' as [Hk Hl].
    split; [done|]. rewrite Forall_forall in IH. by apply (IH (k, w)).
Qed.

(** A text that was printed is read as what remains. *)
Lemma parse_stringify_strip v s :
  json_like v → stringify v = Some s → json_parse s = Some (strip v).
Proof.
  intros Hl Hs. assert (v ≠ VUndef) as Hn by (by intros ->). rewrite <- stringify_strip in Hs.
  destruct (json_parse_stringify (strip v)) as (s' & E & Hp); [by apply json_ok_strip|]. congruence.
Qed.

Lemma is_undef_strip v : is_undef (strip v) = is_undef v.
Proof. by destruct v. Qed.

Lemma strip_idemp v : strip (strip v) = strip v.
Proof.
  induction v as [| |b|x|s|l IH|o IH] using value_ind; try done; cbn [strip]; f_equal.
  - rewrite map_map. apply map_ext_Forall. eapply Forall_impl; [exact IH|]. intros v Hv. cbn beta.
    unfold strip_elem. destruct (is_undef v) eqn:E; [done|]. by rewrite is_undef_strip, E.
  - induction IH as [|[k v] o Hv _ IH]; [done|]. cbn [map concat]. rewrite map_app, concat_app. f_equal; [|exact IH].
    cbn [strip_member]. destruct (is_undef v) eqn:E; [done|]. cbn in Hv |- *. by rewrite is_undef_strip, E, Hv.
Qed.

(** Reading what remains. *)
Lemma obj_get_cons k k' v o : obj_get k ((k', v) :: o) = if str_eqb k' k then Some v else obj_get k o.
Proof. unfold obj_get. cbn [find_first fst]. by destruct (str_eqb k' k). Qed.

Lemma obj_get_elem k v o : NoDup (map fst o) → (k, v) ∈ o → obj_get k o = Some v.
Proof.
  induction o as [|[k' v'] o IH]; intros Hd Hin; [by apply elem_of_nil in Hin|].
  apply NoDup_cons in Hd as [Hk Hd]. rewrite obj_get_cons. apply elem_of_cons in Hin as [[= -> ->]|Hin].
  - by rewrite str_eqb_refl.
  - rewrite str_eqb_neq; [by apply IH|]. cbn in Hk. intros ->. apply Hk. apply list_elem_of_fmap. by exists (k, v).
Qed.

Lemma strip_get k o :
  NoDup (map fst o) →
  obj_get k (strip_obj o) = v ← obj_get k o; if is_undef v then None else Some (strip v).
Proof.
  unfold strip_obj. induction o as [|[k' v] o IH]; intros Hd; [done|]. apply NoDup_cons in Hd as [Hk Hd].
  cbn [map concat strip_member]. rewrite (obj_get_cons k k' v o). destruct (str_eqb k' k) eqn:E.
  - apply bool_decide_eq_true in E as ->. cbn in Hk |- *. destruct (is_undef v); cbn [app].
    + rewrite IH by done. apply obj_get_None in Hk. by rewrite Hk.
    + rewrite obj_get_cons. by rewrite str_eqb_refl.
  - destruct (is_undef v); cbn [app]; [by apply IH|]. rewrite obj_get_cons, E. by apply IH.
Qed.

Lemma strip_prop k o : NoDup (map fst o) → prop k (strip_obj o) = strip (prop k o).
Proof.
  intros Hd. unfold prop. rewrite strip_get by done. destruct (obj_get k o) as [v|]; [|done].
  cbn. destruct (is_undef v) eqn:E; [by destruct v|done].
Qed.

Lemma truthy_strip v : val_truthy (strip v) = val_truthy v.
Proof. by destruct v. Qed.

Lemma strip_member_value k v : json_like v → member_value k (strip v) = strip (member_value k v).
Proof. destruct v; try done. intros [[Hd _] _]%json_like_obj. apply (strip_prop k o Hd). Qed.

(** Setting a member to what it is, or to undefined when it is. *)
Lemma strip_replace k v w o :
  obj_get k o = Some w → strip v = strip w → strip_obj (obj_replace k v o) = strip_obj o.
Proof.
  intros Hg Hv. unfold strip_obj. induction o as [|[k' v'] o IH]; [done|]. rewrite obj_get_cons in Hg. cbn [obj_replace].
  destruct (str_eqb k' k) eqn:E; cbn [map concat strip_member].
  - injection Hg as ->. apply bool_decide_eq_true in E as ->. rewrite <- (is_undef_strip v), Hv, is_undef_strip. done.
  - by rewrite IH.
Qed.

Lemma strip_insert_undef k o : strip_obj (obj_insert k VUndef o) = strip_obj o.
Proof.
  unfold strip_obj. induction o as [|[k' v'] o IH]; cbn [obj_insert].
  - by destruct (array_index k).
  - destruct (array_index k) as [n|]; [destruct (array_index k') as [n'|]; [destruct (n <? n')|]|]; try done.
    + cbn [map concat]. by rewrite IH.
    + rewrite map_app, concat_app. cbn. by rewrite app_nil_r.
Qed.

Lemma strip_set_same k v o : strip v = strip (prop k o) → strip_obj (obj_set k v o) = strip_obj o.
Proof.
  intros Hv. unfold obj_set, obj_has, prop in *. destruct (obj_get k o) as [w|] eqn:E; cbn in *.
  - by apply (strip_replace k v w).
  - assert (v = VUndef) as -> by (by destruct v). apply strip_insert_undef.
Qed.

Lemma obj_set_same k v o : obj_get k o = Some v → obj_set k v o = o.
Proof.
  intros Hg. unfold obj_set, obj_has. rewrite Hg. cbn. induction o as [|[k' v'] o IH]; [done|].
  rewrite obj_get_cons in Hg. cbn [obj_replace]. destruct (str_eqb k' k) eqn:E; [|by rewrite IH].
  injection Hg as ->. by apply bool_decide_eq_true in E as ->.
Qed.

Lemma spread_same o m : (∀ k v, (k, v) ∈ m → obj_get k o = Some v) → spread o m = o.
Proof.
  intros Hm. induction m as [|[k v] m IH]; [done|]. unfold spread in *. cbn [fold_left fst snd].
  rewrite obj_set_same by (apply Hm; by left). apply IH. intros k' v' Hin. apply Hm. by right.
Qed.

(** ** Clean references *)

Definition clean_url (u : jsstr) : Prop := isStorableReferenceURL u = true ∧ trim u = u.

Lemma clean_url_trim u : isStorableReferenceURL (trim u) = true → clean_url (trim u).
Proof. intros Hu. split; [done|apply trim_idemp]. Qed.

Lemma clean_url_truthy u : isStorableReferenceURL u = true → truthy u = true ∧ truthy (trim u) = true.
Proof.
  unfold isStorableReferenceURL. intros Hu. destruct (trim u) eqn:E; [by vm_compute in Hu|].
  destruct u; [by vm_compute in E|done].
Qed.

Lemma get_url_trimmed v u : getStorableReferenceURL v = Ok u → trim u = u.
Proof.
  unfold getStorableReferenceURL. destruct (negb _); [by intros [= <-]|].
  destruct v; cbn; try (intros; discriminate); [intros [= <-]; apply trim_idemp|].
  destruct (prop _ o); try (intros; discriminate). intros [= <-]. apply trim_idemp.
Qed.

Lemma get_url_str u : trim u = u → getStorableReferenceURL (VStr u) = Ok u.
Proof. intros Hu. unfold getStorableReferenceURL. destruct u; [done|]. cbn [val_truthy truthy negb]. by rewrite Hu. Qed.

Lemma image_url_same v : getStorableImageReferenceURL v = getStorableReferenceURL v.
Proof. done. Qed.

Lemma mapM_Ok_cons {A B} (f : A → exc B) x l r :
  mapM f (x :: l) = Ok r → ∃ y r', f x = Ok y ∧ mapM f l = Ok r' ∧ r = y :: r'.
Proof. cbn. intros (y & Hy & (r' & Hr & [= <-])%exc_bind_Ok)%exc_bind_Ok. eauto. Qed.

Lemma mapM_Ok_Forall2 {A B} (f : A → exc B) l r : mapM f l = Ok r ↔ Forall2 (λ x y, f x = Ok y) l r.
Proof.
  split.
  - revert r. induction l as [|x l IH]; intros r Hr; [injection Hr as <-; constructor|].
    apply mapM_Ok_cons in Hr as (y & r' & Hy & Hr & ->). constructor; auto.
  - induction 1 as [|x y l r Hy _ IH]; [done|]. cbn. rewrite Hy. cbn. by rewrite IH.
Qed.

Lemma mapM_Ok_elem {A B} (f : A → exc B) l r y : mapM f l = Ok r → y ∈ r → ∃ x, x ∈ l ∧ f x = Ok y.
Proof.
  intros Hm%mapM_Ok_Forall2 Hy. induction Hm as [|x z l r Hz _ IH]; [by apply elem_of_nil in Hy|].
  apply elem_of_cons in Hy as [-> |Hy]; [exists x; split; [by left|done]|].
  destruct (IH Hy) as (x' & Hx & E). exists x'. split; [by right|done].
Qed.

Lemma storable_clean v us : storable_urls getStorableReferenceURL v = Ok us → Forall clean_url us.
Proof.
  destruct v; cbn; try (intros [= <-]; constructor). intros (urls & Hu & [= <-])%exc_bind_Ok.
  apply Forall_forall. intros u [Hin Hs]%filterb_elem. split; [done|].
  destruct (mapM_Ok_elem _ _ _ _ Hu Hin) as (v & _ & Hv). by apply (get_url_trimmed v).
Qed.

Lemma storable_again us : Forall clean_url us → storable_urls getStorableReferenceURL (str_values us) = Ok us.
Proof.
  intros Hu. unfold str_values. cbn [storable_urls].
  assert (mapM getStorableReferenceURL (map VStr us) = Ok us) as ->.
  { apply mapM_Ok_Forall2. induction Hu as [|u us [_ Hu] _ IH]; constructor; [by apply get_url_str|done]. }
  cbn. f_equal. apply filterb_all. rewrite Forall_forall in Hu. intros u Hin. by apply Hu.
Qed.

Lemma strip_str_values us : strip (str_values us) = str_values us.
Proof. unfold str_values. cbn. f_equal. rewrite map_map. by apply map_ext. Qed.

(** The members of the references of a video. *)
Record clean_members (m : obj) (us vs aus : list jsstr) (s e a : jsstr) : Prop := {
  cm_members : m = [(js "imageUrls", str_values us); (js "startImageUrl", VStr s); (js "endImageUrl", VStr e);
                    (js "videoUrls", str_values vs); (js "audioUrls", str_values aus); (js "audioUrl", VStr a)];
  cm_images : Forall clean_url us;
  cm_videos : Forall clean_url vs;
  cm_audios : Forall clean_url aus;
  cm_start : s = [] ∨ isStorableReferenceURL s = true;
  cm_end : e = [] ∨ isStorableReferenceURL e = true;
  cm_audio : a = [] ∨ clean_url a;
  cm_audio_first : aus = [] → a = [];
}.

Lemma storable_string_clean v : storable_string v = [] ∨ isStorableReferenceURL (storable_string v) = true.
Proof. destruct v; try by left. cbn. destruct (isStorableReferenceURL s) eqn:E; [by right|by left]. Qed.

Lemma storable_string_again s : s = [] ∨ isStorableReferenceURL s = true → storable_string (VStr s) = s.
Proof. cbn. intros [-> | ->]; [|done]. by destruct (isStorableReferenceURL []). Qed.

Lemma sanitized_clean v m :
  sanitized_references v = Ok m → ∃ us vs aus s e a, clean_members m us vs aus s e a.
Proof.
  unfold sanitized_references. intros (us & Hus & H)%exc_bind_Ok. apply exc_bind_Ok in H as (vs & Hvs & H).
  apply exc_bind_Ok in H as (aus & Haus & H). apply exc_bind_Ok in H as (a & Ha & H). injection H as <-.
  apply storable_clean in Hus, Hvs, Haus. apply get_url_trimmed in Ha.
  set (audio := if isStorableReferenceURL a then a else []).
  assert (audio = [] ∨ clean_url audio) as Hau.
  { unfold audio. destruct (isStorableReferenceURL a) eqn:E; [by right|by left]. }
  do 6 eexists. split; [reflexivity|try done..].
  - destruct aus; [|done]. destruct Hau as [-> |Hau]; [by apply Forall_nil|]. destruct (truthy audio); [by apply Forall_singleton|by apply Forall_nil].
  - apply storable_string_clean.
  - apply storable_string_clean.
  - destruct aus; [|done]. by destruct audio.
Qed.

(** Members that read as the clean ones are cleaned to the same. *)
Lemma sanitized_again v m us vs aus s e a :
  clean_members m us vs aus s e a → (∀ k w, (k, w) ∈ m → member_value k v = w) → sanitized_references v = Ok m.
Proof.
  intros [-> Hus Hvs Haus Hs He Ha Hf] Hv. unfold sanitized_references.
  rewrite !(Hv (js "imageUrls") (str_values us)), !(Hv (js "startImageUrl") (VStr s)), !(Hv (js "endImageUrl") (VStr e)),
    !(Hv (js "videoUrls") (str_values vs)), !(Hv (js "audioUrls") (str_values aus)), !(Hv (js "audioUrl") (VStr a))
    by (repeat first [left; fail|constructor]).
  rewrite !storable_again by done. cbn [mbind exc_bind].
  rewrite (get_url_str a) by (destruct Ha as [-> |[_ ?]]; [apply trim_nil|done]). cbn [mbind exc_bind].
  rewrite !storable_string_again by done.
  assert ((if isStorableReferenceURL a then a else []) = a) as -> by (destruct Ha as [-> |[-> _]]; [by case_match|done]).
  do 5 f_equal. destruct aus; [|done]. by rewrite Hf.
Qed.

Lemma clean_members_strip m us vs aus s e a k w :
  clean_members m us vs aus s e a → (k, w) ∈ m → strip w = w ∧ is_undef w = false.
Proof.
  intros [-> _ _ _ _ _ _ _] Hin. set_unfold.
  destruct_or!; injection Hin as -> ->; (split; [|done]); first [apply strip_str_values|done].
Qed.

Lemma clean_members_keys m us vs aus s e a : clean_members m us vs aus s e a → NoDup (map fst m).
Proof. intros [-> _ _ _ _ _ _ _]. cbn [map fst]. apply (bool_decide_eq_true_1 _). by vm_compute. Qed.

(** ** Clean items *)

(** A key is not one of some others. *)
Ltac other_key := (by apply (bool_decide_eq_true_1 _); vm_compute).

Section Items.
Context `{CaseMap}.
Implicit Types (item : obj).

Lemma clean_references_strings us model :
  Forall clean_url us →
  map reference_value (normalizeCreationImageReferences (Some (map RefString us)) model)
  = map VStr (if accepts_options model then us else []).
Proof.
  intros Hu. unfold normalizeCreationImageReferences. destruct (accepts_options model); [|done].
  rewrite clean_id; [by rewrite map_map|]. rewrite Forall_map. eapply Forall_impl; [exact Hu|].
  intros u [Hs _]. by apply clean_url_truthy.
Qed.

Lemma member_single k v : member_value k (VObj [(k, v)]) = v.
Proof. cbn [member_value]. unfold prop. by rewrite obj_get_cons, str_eqb_refl. Qed.

(** What the references of an image are cleaned to. *)
Lemma image_references_clean v model w :
  sanitizeImageReferences v model = Ok w →
  ∃ us, Forall clean_url us ∧ w = VObj [(js "imageUrls", str_values us)] ∧ sanitizeImageReferences w model = Ok w.
Proof.
  unfold sanitizeImageReferences. intros (us & Hu & [= <-])%exc_bind_Ok.
  apply storable_clean in Hu. exists (if accepts_options model then us else []).
  rewrite clean_references_strings by done. split; [by case_match|]. split; [done|].
  change (storable_urls getStorableImageReferenceURL) with (storable_urls getStorableReferenceURL).
  rewrite member_single. fold (str_values (if accepts_options model then us else [])).
  rewrite storable_again by (by case_match). cbn [mbind exc_bind].
  rewrite clean_references_strings by (by case_match). by destruct (accepts_options model).
Qed.

Lemma normalize_again options model o :
  normalizeCreationImageOptions options model = Ok o →
  normalizeCreationImageOptions (stored_options (options_value o)) model = Ok o.
Proof.
  assert (stored_options (options_value o) = PartialImage (Some (image_aspectRatio o)) (outputResolution o)) as ->.
  { destruct o as [r [x|]]; by vm_compute. }
  unfold normalizeCreationImageOptions. destruct (negb _); [done|].
  destruct (getCreationImageAspectRatioOptions model) as [ratios|]; [|done]. intros [= <-]. cbn [o_aspectRatio o_outputResolution image_aspectRatio outputResolution].
  change (image_aspectRatio DEFAULT_CREATION_IMAGE_OPTIONS) with (js "1:1"). f_equal. f_equal.
  - destruct (o_aspectRatio options) as [r|]; [destruct (includes r ratios) eqn:E; [by rewrite E|]|]; by case_match.
  - destruct (includes (from_opt [] (o_outputResolution options)) _) eqn:E; [by rewrite E|by case_match].
Qed.

(** An item that cleaning does not change, but for undefined members. *)
Record clean item : Prop := {
  clean_image : val_truthy (prop (js "imageReferences") item) = true →
    sanitizeImageReferences (prop (js "imageReferences") item) (item_model item) = Ok (prop (js "imageReferences") item);
  clean_options : val_truthy (prop (js "imageReferences") item) = true →
    prop (js "imageOptions") item = VUndef ∨
    ∃ o, normalizeCreationImageOptions (stored_options (prop (js "imageOptions") item)) (item_model item) = Ok o ∧
         strip (options_value o) = strip (prop (js "imageOptions") item);
  clean_video : val_truthy (prop (js "videoReferences") item) = true →
    ∃ r m us vs aus s e a, prop (js "videoReferences") item = VObj r ∧ clean_members m us vs aus s e a ∧
      ∀ k w, (k, w) ∈ m → obj_get k r = Some w;
}.

Lemma options_truthy o : val_truthy (options_value o) = true.
Proof. done. Qed.

Lemma sanitize_image_members item item' k :
  sanitize_image item = Ok item' → k ∉ [js "imageOptions"; js "imageReferences"] → prop k item' = prop k item.
Proof.
  unfold sanitize_image. intros Hs [Ho [Hr _]%not_elem_of_cons]%not_elem_of_cons.
  destruct (negb _); [by injection Hs as <-|]. apply exc_bind_Ok in Hs as (o & _ & Hs).
  apply exc_bind_Ok in Hs as (r & _ & [= <-]). by rewrite !prop_set_ne.
Qed.

Lemma sanitize_members item item' k :
  sanitizeCreationHistoryItem item = Ok item' →
  k ∉ [js "imageOptions"; js "imageReferences"; js "videoReferences"] → prop k item' = prop k item.
Proof.
  intros (i & Hi & Hs)%exc_bind_Ok Hk. rewrite !not_elem_of_cons in Hk. destruct Hk as (H1 & H2 & H3 & _).
  assert (prop k i = prop k item) as <- by (apply (sanitize_image_members _ _ _ Hi); set_solver).
  destruct (negb _); [by injection Hs as <-|]. apply exc_bind_Ok in Hs as (m & _ & [= <-]). by apply prop_set_ne.
Qed.

Lemma sanitize_image_clean item item' :
  sanitize_image item = Ok item' → val_truthy (prop (js "imageReferences") item') = true →
  sanitizeImageReferences (prop (js "imageReferences") item') (item_model item) = Ok (prop (js "imageReferences") item')
  ∧ (prop (js "imageOptions") item' = VUndef ∨
     ∃ o, normalizeCreationImageOptions (stored_options (prop (js "imageOptions") item')) (item_model item) = Ok o ∧
          options_value o = prop (js "imageOptions") item').
Proof.
  unfold sanitize_image. destruct (val_truthy (prop (js "imageReferences") item)) eqn:Et; cbn [negb]; [|intros [= <-]; congruence].
  intros (o & Ho & Hs)%exc_bind_Ok _. apply exc_bind_Ok in Hs as (r & Hr & [= <-]).
  apply image_references_clean in Hr as (us & _ & -> & Hr).
  rewrite prop_set, prop_set_ne by other_key. rewrite prop_set. split; [done|].
  destruct (val_truthy (prop (js "imageOptions") item)); [|injection Ho as <-; by left].
  apply exc_bind_Ok in Ho as (o' & Ho & [= <-]). right. exists o'. split; [|done]. by apply normalize_again in Ho.
Qed.

Lemma sanitize_clean item item' : sanitizeCreationHistoryItem item = Ok item' → clean item'.
Proof.
  intros Hs. assert (item_model item' = item_model item) as Em.
  { unfold item_model. rewrite (sanitize_members _ _ _ Hs); [done|other_key]. }
  apply exc_bind_Ok in Hs as (i & Hi & Hs).
  assert (prop (js "imageReferences") item' = prop (js "imageReferences") i ∧
          prop (js "imageOptions") item' = prop (js "imageOptions") i) as [E1 E2].
  { destruct (negb _); [by injection Hs as <-|]. apply exc_bind_Ok in Hs as (m & _ & [= <-]).
    split; apply prop_set_ne; other_key. }
  split; rewrite ?Em, ?E1, ?E2; [intros Ht; by apply (sanitize_image_clean _ _ Hi)|..].
  - intros Ht. destruct (sanitize_image_clean _ _ Hi Ht) as [_ [?|(o & Ho & Eo)]]; [by left|right]. exists o. by rewrite Eo.
  - intros Ht. destruct (val_truthy (prop (js "videoReferences") item)) eqn:Ev; cbn [negb] in Hs.
    + apply exc_bind_Ok in Hs as (m & Hm & [= <-]). apply sanitized_clean in Hm as (us & vs & aus & s & e & a & Hm).
      rewrite prop_set. do 8 eexists. split; [done|]. split; [exact Hm|]. intros k w Hin.
      pose proof (clean_members_keys _ _ _ _ _ _ _ Hm) as Hd. rewrite obj_get_spread by done.
      by rewrite (obj_get_elem k w m).
    + injection Hs as <-. rewrite (sanitize_image_members _ _ _ Hi) in Ht by other_key. congruence.
Qed.

(** Cleaning a clean item. *)
Lemma sanitize_again item :
  clean item → ∃ item', sanitizeCreationHistoryItem item = Ok item' ∧ strip_obj item' = strip_obj item.
Proof.
  intros [Hi Ho Hv].
  assert (∃ i, sanitize_image item = Ok i ∧ strip_obj i = strip_obj item ∧
    prop (js "videoReferences") i = prop (js "videoReferences") item) as (i & Ei & Es & Ep).
  { unfold sanitize_image. destruct (val_truthy (prop (js "imageReferences") item)) eqn:Et; cbn [negb]; [|by exists item].
    rewrite (Hi eq_refl).
    assert (∃ o, (if val_truthy (prop (js "imageOptions") item) then
        o ← normalizeCreationImageOptions (stored_options (prop (js "imageOptions") item)) (item_model item);
        Ok (options_value o) else Ok VUndef) = Ok o ∧ strip o = strip (prop (js "imageOptions") item)) as (o & -> & Eo).
    { destruct (Ho eq_refl) as [-> |(o & En & Eo)]; [by exists VUndef|].
      rewrite <- truthy_strip, <- Eo, truthy_strip, options_truthy, En. by eexists. }
    eexists. split; [reflexivity|]. split; [|by rewrite !prop_set_ne by other_key].
    rewrite strip_set_same by (by rewrite prop_set_ne by other_key). by apply strip_set_same. }
  unfold sanitizeCreationHistoryItem. rewrite Ei. cbn [mbind exc_bind].
  destruct (val_truthy (prop (js "videoReferences") item)) eqn:Et; cbn [negb]; [|by exists i].
  destruct (Hv eq_refl) as (r & m & us & vs & aus & s & e & a & Er & Hm & Hg).
  rewrite (sanitized_again _ m us vs aus s e a) by
    (first [done|rewrite Er; intros k w Hin; cbn [member_value]; unfold prop; by rewrite (Hg k w)]).
  eexists. split; [reflexivity|]. rewrite <- Es. apply strip_set_same. rewrite Ep, Er. cbn [own_members].
  do 2 f_equal. by apply spread_same.
Qed.

(** What remains of a clean item is clean. *)
Lemma stored_options_strip v : json_like v → stored_options (strip v) = stored_options v.
Proof.
  intros Hl. unfold stored_options. rewrite !strip_member_value by done.
  by destruct (member_value (js "aspectRatio") v), (member_value (js "outputResolution") v).
Qed.

Lemma item_model_strip item : NoDup (map fst item) → item_model (strip_obj item) = item_model item.
Proof. intros Hd. unfold item_model. rewrite strip_prop by done. by destruct (prop _ item). Qed.

Lemma json_like_prop k o : json_like (VObj o) → json_like (prop k o).
Proof.
  intros [_ Hm]%json_like_obj. unfold prop. destruct (obj_get k o) as [v|] eqn:E; [|done]. cbn.
  unfold obj_get in E. apply fmap_Some in E as ([k' v'] & Hf & ->). apply find_first_Some in Hf as [Hin _].
  by apply (Hm k').
Qed.

Lemma clean_strip item : json_like (VObj item) → clean item → clean (strip_obj item).
Proof.
  intros Hl [Hi Ho Hv]. pose proof Hl as [[Hd _] _]%json_like_obj.
  split; rewrite !strip_prop, ?truthy_strip, ?item_model_strip by done.
  - intros Ht. specialize (Hi Ht). pose proof Hi as (us & _ & E & _)%image_references_clean.
    assert (strip (prop (js "imageReferences") item) = prop (js "imageReferences") item) as ->; [|done].
    rewrite E. cbn [strip map concat strip_member]. fold strip.
    change (is_undef (str_values us)) with false. cbn [app]. by rewrite strip_str_values.
  - intros Ht. destruct (Ho Ht) as [-> |(o & En & Eo)]; [by left|]. right. exists o.
    rewrite stored_options_strip by (by apply json_like_prop). by rewrite strip_idemp.
  - intros Ht. destruct (Hv Ht) as (r & m & us & vs & aus & s & e & a & Er & Hm & Hg).
    pose proof (json_like_prop (js "videoReferences") item Hl) as Hr. rewrite Er in Hr |- *.
    apply json_like_obj in Hr as [[Hdr _] _].
    exists (strip_obj r), m, us, vs, aus, s, e, a. split; [done|]. split; [done|]. intros k w Hin.
    destruct (clean_members_strip _ _ _ _ _ _ _ _ _ Hm Hin) as [Es Eu].
    rewrite strip_get by done. rewrite (Hg k w Hin). cbn. by rewrite Eu, Es.
Qed.

(** What items are checked by. *)
Definition is_object (v : value) : bool := match v with VObj _ | VArr _ => true | _ => false end.

Record valid item (id : jsstr) (x : num) : Prop := {
  valid_id : prop (js "id") item = VStr id;
  valid_created : prop (js "createdAt") item = VNum x;
  valid_model : ∃ s, prop (js "model") item = VStr s;
  valid_prompt : ∃ s, prop (js "prompt") item = VStr s;
  valid_result : is_object (prop (js "result") item) = true;
  valid_mode : ∃ s, prop (js "mode") item = VStr s ∧ s ∈ CREATION_MODE_NAMES;
}.

Lemma valid_spec item : isCreationHistoryItem (VObj item) = true ↔ ∃ id x, valid item id x.
Proof.
  cbn [isCreationHistoryItem]. split.
  - destruct (prop (js "id") item) as [| | | |id| |] eqn:E1; try done.
    destruct (prop (js "createdAt") item) as [| | |x| | |] eqn:E2; try done.
    destruct (prop (js "model") item) as [| | | |m| |] eqn:E3; try done.
    destruct (prop (js "prompt") item) as [| | | |p| |] eqn:E4; try done.
    intros [H5 H6]%andb_true_iff. exists id, x. split; try done; [by eexists..|].
    destruct (prop (js "mode") item) as [| | | |s| |]; try done. exists s. by rewrite includes_elem in H6.
  - intros (id & x & [-> -> [m ->] [p ->] Hr (s & -> & Hs)]). fold (is_object (prop (js "result") item)).
    rewrite Hr. by apply includes_elem.
Qed.

(** Nothing that is checked is changed by cleaning or by JSON. *)
Lemma valid_kept item item' id x :
  (∀ k, k ∉ [js "imageOptions"; js "imageReferences"; js "videoReferences"] →
     strip (prop k item') = strip (prop k item)) →
  valid item id x → valid item' id x.
Proof.
  assert (∀ v s, strip v = VStr s → v = VStr s) as Hstr by (by intros []).
  assert (∀ v y, strip v = VNum y → v = VNum y) as Hnum by (by intros []).
  assert (∀ v, is_object (strip v) = is_object v) as Hobj by (by intros []).
  intros Hk [H1 H2 [m H3] [p H4] H5 (s & H6 & Hs)].
  split; [apply Hstr|apply Hnum|exists m; apply Hstr|exists p; apply Hstr|rewrite <- Hobj|exists s; split; [apply Hstr|done]];
    (rewrite Hk by other_key); by rewrite ?H1, ?H2, ?H3, ?H4, ?H6, ?Hobj.
Qed.

Lemma valid_created_num item id x : valid item id x → created item = x.
Proof. intros [_ E _ _ _ _]. unfold created. by rewrite E. Qed.

Lemma valid_sanitize item item' id x :
  sanitizeCreationHistoryItem item = Ok item' → valid item id x → valid item' id x.
Proof. intros Hs. apply valid_kept. intros k Hk. by rewrite (sanitize_members _ _ _ Hs). Qed.

Lemma valid_strip item id x : NoDup (map fst item) → valid item id x → valid (strip_obj item) id x.
Proof. intros Hd. apply valid_kept. intros k _. by rewrite strip_prop, strip_idemp. Qed.

(** ** JSON carries what cleaning gives *)

Lemma members_like_set k v o : units_ok k → json_like v → members_like o → members_like (obj_set k v o).
Proof. intros Hk Hv Ho k' v' [[= -> ->]|Hin]%elem_set; [done|by apply Ho]. Qed.

Lemma json_like_set k v o : units_ok k → json_like v → json_like (VObj o) → json_like (VObj (obj_set k v o)).
Proof.
  rewrite !json_like_obj. intros Hk Hv [Hw Hm]. split; [by apply wf_set|by apply members_like_set].
Qed.

Lemma json_like_spread o m : members_like m → json_like (VObj o) → json_like (VObj (spread o m)).
Proof.
  revert o. induction m as [|[k v] m IH]; intros o Hm Ho; [done|]. unfold spread in *. cbn [fold_left fst snd].
  destruct (Hm k v ltac:(by left)) as [Hk Hv]. apply IH; [intros k' v' Hin; apply Hm; by right|].
  by apply json_like_set.
Qed.

Lemma json_like_arr l : json_like (VArr l) ↔ Forall json_like l.
Proof.
  cbn [json_like]. induction l as [|v l IH]; cbn; [split; [by constructor|done]|]. rewrite Forall_cons. by rewrite IH.
Qed.

Lemma units_sub s t : (∀ c, c ∈ t → c ∈ s) → units_ok s → units_ok t.
Proof. intros Hc Hs. unfold units_ok in *. rewrite Forall_forall in *. auto. Qed.

Lemma units_trim s : units_ok s → units_ok (trim s).
Proof. apply units_sub. intros c. apply trim_elem. Qed.

Lemma get_url_units v u : json_like v → getStorableReferenceURL v = Ok u → units_ok u.
Proof.
  intros Hl. unfold getStorableReferenceURL. destruct (negb _); [intros [= <-]; by apply Forall_nil|].
  destruct v as [| | | |s| |o]; cbn [member_value]; try done; [intros [= <-]; by apply units_trim|].
  pose proof (json_like_prop (js "url") o Hl) as Hu. destruct (prop _ o); try done. intros [= <-]. by apply units_trim.
Qed.

Lemma str_values_like us : Forall units_ok us → json_like (str_values us).
Proof. intros Hu. apply json_like_arr. by apply Forall_map. Qed.

Lemma storable_units v us :
  json_like v → storable_urls getStorableReferenceURL v = Ok us → Forall units_ok us.
Proof.
  destruct v as [| | | | |l|]; cbn [storable_urls]; try (intros _ [= <-]; by apply Forall_nil).
  rewrite json_like_arr. intros Hl (urls & Hu & [= <-])%exc_bind_Ok. apply Forall_forall. intros u [Hin _]%filterb_elem.
  destruct (mapM_Ok_elem _ _ _ _ Hu Hin) as (v & Hv & Eu). rewrite Forall_forall in Hl. apply (get_url_units v); auto.
Qed.

Lemma sanitized_like v m : json_like v → sanitized_references v = Ok m → members_like m.
Proof.
  intros Hl. assert (∀ k, json_like (member_value k v)) as Hm by (intros k; destruct v; try exact I; by apply json_like_prop).
  unfold sanitized_references. intros (us & Hus & Hs)%exc_bind_Ok. apply exc_bind_Ok in Hs as (vs & Hvs & Hs).
  apply exc_bind_Ok in Hs as (aus & Haus & Hs). apply exc_bind_Ok in Hs as (a & Ha & [= <-]).
  apply storable_units in Hus, Hvs, Haus; try done. apply get_url_units in Ha; [|done].
  assert (units_ok (if isStorableReferenceURL a then a else [])) as Ha' by (case_match; [done|by apply Forall_nil]).
  assert (∀ k, units_ok (storable_string (member_value k v))) as Hss.
  { intros k. specialize (Hm k). destruct (member_value k v) as [| | | |t| |]; try by apply Forall_nil.
    cbn [storable_string]. by destruct (isStorableReferenceURL t); [|apply Forall_nil]. }
  assert (Forall units_ok (match aus with _ :: _ => aus
    | [] => if truthy (if isStorableReferenceURL a then a else []) then [if isStorableReferenceURL a then a else []] else [] end))
    as Haus' by (destruct aus; [destruct (truthy _); [by apply Forall_singleton|by apply Forall_nil]|done]).
  intros k w Hin. set_unfold. destruct_or!; injection Hin as -> ->; (split; [by apply unitsb_ok; vm_compute|]);
    first [by apply str_values_like|by apply Hss|done].
Qed.

(** A model that is known by its name has no metadata. *)
Lemma name_options options s o :
  normalizeCreationImageOptions options (ModelName s) = Ok o →
  units_ok (image_aspectRatio o) ∧ outputResolution o = Some (js "1K").
Proof.
  assert (∀ r, r ∈ js "1:1" :: CREATION_IMAGE_ASPECT_RATIO_OPTIONS → units_ok r) as Hu.
  { intros r Hr. apply unitsb_ok. revert r Hr. apply Forall_forall. by repeat (constructor; [by vm_compute|]). }
  unfold normalizeCreationImageOptions. destruct (negb _); [intros [= <-]; split; [apply Hu; by left|done]|].
  change (getCreationImageAspectRatioOptions (ModelName s)) with (Some CREATION_IMAGE_ASPECT_RATIO_OPTIONS). cbv iota.
  intros [= <-]. cbn [image_aspectRatio outputResolution]. split; [|done].
  destruct (o_aspectRatio options) as [r|];
    [destruct (includes r CREATION_IMAGE_ASPECT_RATIO_OPTIONS) eqn:E; [apply Hu; right; by apply includes_elem|]|];
    apply Hu; exact (list_elem_of_here (js "1:1") _).
Qed.

Lemma json_ok_like v : json_ok v → json_like v.
Proof.
  induction v as [| |b|x|s|l IH|o IH] using value_ind; try done.
  - intros Hl. apply json_like_arr. cbn [json_ok] in Hl. induction IH as [|v l Hv _ IH]; [by apply Forall_nil|].
    destruct Hl as [H1 Hl]. apply Forall_cons. auto.
  - cbn [json_ok]. intros [Hc Hm]. cbn [json_like]. split; [rewrite <- Hc; apply wf_obj_of_list|]. clear Hc.
    induction IH as [|[k v] o Hv _ IH]; cbn in *; [done|]. destruct Hm as [[H1 H2] Hm]. auto.
Qed.

Lemma json_like_strip o : json_like (VObj o) → json_like (VObj (strip_obj o)).
Proof. intros Hl. by apply json_ok_like, (json_ok_strip (VObj o)). Qed.

(** ** Good items

    What the page has in its state: items that JSON can carry, with a number as
    their time, the result as an object, and clean. *)

Record storable item : Prop := {
  st_like : json_like (VObj item);
  st_valid : ∃ id x, valid item id x ∧ regular x;
  st_result : ∃ r, prop (js "result") item = VObj r;
  st_video : val_truthy (prop (js "videoReferences") item) = true → ∃ r, prop (js "videoReferences") item = VObj r;
}.

Record good item : Prop := { good_storable : storable item; good_clean : clean item }.

Lemma sanitize_like item item' :
  storable item → sanitizeCreationHistoryItem item = Ok item' → json_like (VObj item').
Proof.
  intros [Hl (id & x & [_ _ [s Hm] _ _ _] & _) _ Hv] (i & Hi & Hs)%exc_bind_Ok.
  assert (json_like (VObj i)) as Hli.
  { unfold sanitize_image in Hi. unfold item_model in Hi. rewrite Hm in Hi.
    destruct (negb _); [by injection Hi as <-|]. apply exc_bind_Ok in Hi as (o & Ho & Hi).
    apply exc_bind_Ok in Hi as (r & Hr & [= <-]).
    assert (json_like o) as Hlo.
    { destruct (val_truthy (prop (js "imageOptions") item)); [|by injection Ho as <-]. apply exc_bind_Ok in Ho as (o' & Ho & [= <-]).
      apply name_options in Ho as [Hu Hr']. apply json_like_obj. split; [apply wf_decide; by vm_compute|].
      intros k v [[= -> ->]|[[= -> ->]|?%elem_of_nil]%elem_of_cons]%elem_of_cons; [| |done];
        (split; [by apply unitsb_ok; vm_compute|]); [done|]. rewrite Hr'. by apply unitsb_ok; vm_compute. }
    assert (json_like r) as Hlr.
    { unfold sanitizeImageReferences in Hr. apply exc_bind_Ok in Hr as (us & Hus & [= <-]).
      pose proof Hus as Hc%storable_clean. apply storable_units in Hus.
      2: { pose proof (json_like_prop (js "imageReferences") item Hl) as Hp.
           destruct (prop (js "imageReferences") item); try exact I. by apply json_like_prop. }
      rewrite clean_references_strings by done. apply json_like_obj. split; [apply wf_decide; by vm_compute|].
      intros k v [[= -> ->]|?%elem_of_nil]%elem_of_cons; [|done]. split; [by apply unitsb_ok; vm_compute|].
      apply str_values_like. by destruct (accepts_options _); [|apply Forall_nil]. }
    apply json_like_set; [by apply unitsb_ok; vm_compute|done|].
    apply json_like_set; [by apply unitsb_ok; vm_compute|done|done]. }
  destruct (val_truthy (prop (js "videoReferences") item)) eqn:Et; cbn [negb] in Hs; [|by injection Hs as <-].
  apply exc_bind_Ok in Hs as (m & Hm' & [= <-]). destruct (Hv eq_refl) as (r & Er).
  pose proof (json_like_prop (js "videoReferences") item Hl) as Hp.
  apply json_like_set; [by apply unitsb_ok; vm_compute| |done]. rewrite Er in *. cbn [own_members].
  apply json_like_spread; [|done]. by apply (sanitized_like (VObj r)).
Qed.

Lemma good_sanitize item item' : storable item → sanitizeCreationHistoryItem item = Ok item' → good item'.
Proof.
  intros Hst Hs. pose proof (sanitize_clean _ _ Hs) as Hc. split; [|done].
  pose proof (sanitize_like _ _ Hst Hs) as Hl. destruct Hst as [_ (id & x & Hv & Hx) (r & Hr) _]. split.
  - done.
  - exists id, x. split; [by apply (valid_sanitize item)|done].
  - exists r. by rewrite (sanitize_members _ _ _ Hs) by other_key.
  - intros Ht. destruct (clean_video _ Hc Ht) as (r' & _ & _ & _ & _ & _ & _ & _ & Er & _). by exists r'.
Qed.

Lemma good_again item :
  good item → ∃ item', sanitizeCreationHistoryItem item = Ok item' ∧ strip_obj item' = strip_obj item ∧ good item'.
Proof.
  intros [Hst Hc]. destruct (sanitize_again item Hc) as (item' & Hs & E). exists item'. split_and!; [done|done|].
  by apply (good_sanitize item).
Qed.

Lemma good_strip item : good item → good (strip_obj item).
Proof.
  intros [[Hl (id & x & Hv & Hx) (r & Hr) Hvid] Hc]. pose proof Hl as [[Hd _] _]%json_like_obj.
  split; [split|by apply clean_strip].
  - by apply json_like_strip.
  - exists id, x. split; [by apply valid_strip|done].
  - rewrite strip_prop by done. rewrite Hr. by eexists.
  - rewrite !strip_prop by done. rewrite truthy_strip. intros Ht. destruct (Hvid Ht) as (r' & ->). by eexists.
Qed.
End Items.
