(* ===== verification/CreationHistoryProps.v ===== *)
(** * Properties of the history of the creation centre

    The history of one user in one tab survives a reload, holds the newest
    items in order, and stores only web addresses as references; what an
    exception while loading and a model known by its name only do to it. *)
From Stdlib Require Import SpecFloat QArith.
From S2P Require Import Prelude JsString JsNumber JsValue JsonFacts FloatError VideoCapabilities VideoReferences ImageOptions PlaygroundStorage CreationHistory CreationHistoryFacts.
From stdpp Require Import gmap relations.

Open Scope N_scope.

(** ** Lists of items *)

Definition newer (a b : obj) : Prop := (qval (created b) <= qval (created a))%Q.

Section Lists.
Context `{CaseMap}.
Implicit Types (item : obj) (items l : list obj).

Lemma good_regular item : good item → regular (created item).
Proof. intros [[_ (id & x & Hv & Hx) _ _] _]. by rewrite (valid_created_num _ _ _ Hv). Qed.

Lemma history_newest_sorted items : Forall good items → StronglySorted newer (history_newest_first items).
Proof.
  intros Hg. apply (sorted_by_key _ _ good); [| | |done].
  - intros a b Ha%good_regular Hb%good_regular. by apply difference_le.
  - intros a b. unfold newer. destruct (Qlt_le_dec (qval (created a)) (qval (created b))); [right; by apply Qlt_le_weak|by left].
  - intros a b c Hab Hbc. by apply (Qle_trans _ (qval (created b))).
Qed.

Lemma sorted_app {A} (R : A → A → Prop) (l1 l2 : list A) :
  StronglySorted R (l1 ++ l2) → StronglySorted R l1 ∧ ∀ x y, x ∈ l1 → y ∈ l2 → R x y.
Proof.
  induction l1 as [|x l1 IH]; cbn; intros Hs; [split; [constructor|by intros ?? ?%elem_of_nil]|].
  inversion Hs as [|?? Hs' Hf]; subst. destruct (IH Hs') as [H1 H2]. apply Forall_app in Hf as [Hf1 Hf2].
  split; [by constructor|]. intros a b [-> |Ha]%elem_of_cons Hb; [|by apply H2]. rewrite Forall_forall in Hf2. by apply Hf2.
Qed.

(** The items that are kept, and those that are dropped. *)
Lemma latest_spec items :
  Forall good items →
  Forall good (latest items) ∧ StronglySorted newer (latest items) ∧ (length (latest items) ≤ CREATION_HISTORY_LIMIT)%nat ∧
  ∃ dropped, items ≡ₚ latest items ++ dropped ∧ (∀ a b, a ∈ latest items → b ∈ dropped → newer a b) ∧
    (dropped ≠ [] → length (latest items) = CREATION_HISTORY_LIMIT).
Proof.
  intros Hg. pose proof (history_newest_sorted items Hg) as Hs. unfold latest.
  assert (items ≡ₚ history_newest_first items) as Hp by (symmetry; apply sort_by_Permutation).
  rewrite Hp in Hg. rewrite <- (take_drop CREATION_HISTORY_LIMIT (history_newest_first items)) in Hs, Hg.
  apply sorted_app in Hs as [Hs1 Hs2]. apply Forall_app in Hg as [Hg _].
  split_and!; [done|done|rewrite length_take; lia|]. exists (drop CREATION_HISTORY_LIMIT (history_newest_first items)).
  split_and!; [by rewrite take_drop|done|]. intros Hd. rewrite length_take.
  destruct (decide (length (history_newest_first items) ≤ CREATION_HISTORY_LIMIT)%nat); [|lia].
  by rewrite drop_ge in Hd by done.
Qed.

Lemma newer_rel items :
  Forall good items → StronglySorted newer items →
  StronglySorted (rel_of (λ left right, negb (nltb (of_Z 0) (nsub (created right) (created left))))) items.
Proof.
  intros Hg Hs. induction Hs as [|a l Hs IH Hf]; [constructor|]. apply Forall_cons in Hg as [Ha Hg].
  constructor; [auto|]. rewrite Forall_forall in *. intros b Hb.
  apply difference_le; [apply good_regular; auto|by apply good_regular|]. by apply Hf.
Qed.

Lemma latest_id items :
  Forall good items → StronglySorted newer items → (length items ≤ CREATION_HISTORY_LIMIT)%nat → latest items = items.
Proof.
  intros Hg Hs Hl. unfold latest, history_newest_first. rewrite sort_by_id by (by apply newer_rel). by apply take_ge.
Qed.

(** Items that JSON makes the same of. *)
Definition same_items (l l' : list obj) : Prop := map strip_obj l = map strip_obj l'.

Lemma strip_created item item' : good item → good item' → strip_obj item = strip_obj item' →
  created item = created item' ∧ prop (js "id") item = prop (js "id") item'.
Proof.
  intros [[Hl (id & x & Hv & _) _ _] _] [[Hl' (id' & x' & Hv' & _) _ _] _] E.
  pose proof Hl as [[Hd _] _]%json_like_obj. pose proof Hl' as [[Hd' _] _]%json_like_obj.
  rewrite (valid_created_num _ _ _ Hv), (valid_created_num _ _ _ Hv').
  pose proof (valid_strip _ _ _ Hd Hv) as [E1 E2 _ _ _ _]. pose proof (valid_strip _ _ _ Hd' Hv') as [E1' E2' _ _ _ _].
  rewrite E in E1, E2. destruct Hv as [-> _ _ _ _ _], Hv' as [-> _ _ _ _ _]. split; congruence.
Qed.

Lemma same_fields l l' :
  Forall good l → Forall good l' → same_items l l' →
  map created l = map created l' ∧ map (prop (js "id")) l = map (prop (js "id")) l'.
Proof.
  intros Hl. revert l'. induction Hl as [|a l Ha _ IH]; intros [|b l'] Hl' E; try done.
  apply Forall_cons in Hl' as [Hb Hl']. injection E as E1 E2. destruct (IH l' Hl' E2) as [I1 I2].
  destruct (strip_created a b Ha Hb E1) as [E3 E4]. cbn [map]. by rewrite I1, I2, E3, E4.
Qed.

Lemma sorted_created l l' : map created l = map created l' → StronglySorted newer l → StronglySorted newer l'.
Proof.
  revert l'. induction l as [|a l IH]; intros [|b l'] E Hs; try done. injection E as E1 E2.
  inversion Hs as [|?? Hs' Hf]; subst. constructor; [by apply IH|]. apply Forall_forall. intros c Hc.
  assert (created c ∈ map created l) as Hin by (rewrite E2; apply list_elem_of_fmap; by exists c).
  apply list_elem_of_fmap in Hin as (d & Ed & Hd). rewrite Forall_forall in Hf. specialize (Hf d Hd).
  unfold newer in *. by rewrite Ed, <- E1.
Qed.

(** ** The state of the page *)

Record settled items : Prop := {
  settled_good : Forall good items;
  settled_order : StronglySorted newer items;
  settled_limit : (length items ≤ CREATION_HISTORY_LIMIT)%nat;
  settled_ids : NoDup (map (prop (js "id")) items);
}.

Lemma settled_same l l' : settled l → Forall good l' → same_items l l' → settled l'.
Proof.
  intros [Hg Ho Hl Hi] Hg' E. destruct (same_fields _ _ Hg Hg' E) as [E1 E2].
  split; [done|by apply (sorted_created l)| |by rewrite <- E2].
  rewrite <- (length_map created l'), <- E1, length_map. done.
Qed.

Lemma good_all items :
  Forall good items →
  ∃ items', mapM sanitizeCreationHistoryItem items = Ok items' ∧ same_items items' items ∧ Forall good items'.
Proof.
  induction 1 as [|item items Hg _ (items' & Hm & E & Hg')]; [by exists []|].
  destruct (good_again item Hg) as (item' & Hs & E' & Hg1). exists (item' :: items'). cbn. rewrite Hs. cbn. rewrite Hm.
  split_and!; [done|unfold same_items in *; cbn; by rewrite E, E'|by constructor].
Qed.

Lemma good_is_item item : good item → isCreationHistoryItem (VObj item) = true.
Proof. intros [[_ (id & x & Hv & _) _ _] _]. apply valid_spec. by exists id, x. Qed.

Lemma saved_settled items :
  settled items → ∃ items', saved_items items = Ok items' ∧ same_items items' items ∧ settled items'.
Proof.
  intros Hs. destruct (good_all items (settled_good _ Hs)) as (items' & Hm & E & Hg).
  assert (settled items') as Hs' by (apply (settled_same items); [done|done|unfold same_items in *; by symmetry]).
  exists items'. unfold saved_items. rewrite Hm. cbn [mbind exc_bind]. split_and!; [|done|done]. f_equal.
  destruct Hs' as [_ Ho Hl _].
  rewrite filterb_all; [by apply latest_id|]. rewrite Forall_forall in Hg. intros x Hx. by apply good_is_item, Hg.
Qed.

Lemma loaded_settled items :
  settled items →
  ∃ items', loaded_items (map VObj (map strip_obj items)) = Ok items' ∧ same_items items' items ∧ settled items'.
Proof.
  intros Hs. assert (Forall good (map strip_obj items)) as Hg.
  { apply Forall_map. eapply Forall_impl; [apply (settled_good _ Hs)|]. intros. by apply good_strip. }
  assert (map item_members (filterb isCreationHistoryItem (map VObj (map strip_obj items))) = map strip_obj items) as E0.
  { rewrite filterb_all; [rewrite map_map; apply map_id|]. intros v (item & -> & Hi)%list_elem_of_fmap.
    rewrite Forall_forall in Hg. by apply good_is_item, Hg. }
  destruct (good_all _ Hg) as (items' & Hm & E & Hg').
  assert (same_items items' items) as E'.
  { unfold same_items in *. rewrite E, map_map. apply map_ext_in. intros item _.
    pose proof (strip_idemp (VObj item)) as Hi. by injection Hi. }
  assert (settled items') as Hs' by (apply (settled_same items); [done|done|unfold same_items in *; by symmetry]).
  exists items'. unfold loaded_items. rewrite E0, Hm. cbn [mbind exc_bind]. split_and!; [|done|done]. f_equal.
  destruct Hs' as [_ Ho Hl _]. by apply latest_id.
Qed.

Lemma reload_saved accepts st key items st' :
  settled items → saveCreationHistory accepts st key items = Ok st' →
  ∃ items', loadCreationHistory st' key = (items', st') ∧ same_items items' items ∧ settled items'.
Proof.
  intros Hs Hsave. destruct (saved_settled items Hs) as (items1 & E1 & Es & Hs1).
  unfold saveCreationHistory in Hsave. rewrite E1 in Hsave. cbn [mbind exc_bind] in Hsave.
  destruct (stringify (VArr (map VObj items1))) as [text|] eqn:Et; [|done].
  destruct (accepts st key text); [|done]. injection Hsave as <-.
  assert (json_parse text = Some (VArr (map VObj (map strip_obj items1)))) as Hp.
  { rewrite (parse_stringify_strip (VArr (map VObj items1)) text); [cbn; by rewrite !map_map| |done].
    apply json_like_arr, Forall_map. eapply Forall_impl; [apply (settled_good _ Hs1)|]. by intros item [[Hl _ _ _] _]. }
  assert (truthy text = true) as Htr by (rewrite stringify_arr in Et; by injection Et as <-).
  destruct (loaded_settled items1 Hs1) as (items' & El & Es' & Hs').
  exists items'. unfold loadCreationHistory. rewrite lookup_insert_eq, Htr, Hp, El. cbn [negb].
  split_and!; [done|unfold same_items in *; congruence|done].
Qed.
End Lists.

(** ** The handlers *)

Section Handlers.
Context `{CaseMap} (accepts : store → jsstr → jsstr → bool) (key : jsstr).
Implicit Types (item : obj) (items : list obj) (h : history).

Lemma good_id item : good item → ∃ s, prop (js "id") item = VStr s.
Proof. intros [[_ (id & x & [E _ _ _ _ _] & _) _ _] _]. by exists id. Qed.

Lemma NoDup_map_filterb {A B} (f : A → B) p l : NoDup (map f l) → NoDup (map f (filterb p l)).
Proof.
  induction l as [|x l IH]; cbn; [done|]. intros [Hx Hd]%NoDup_cons. unfold filterb in *. destruct (p x); cbn; [|by apply IH].
  apply NoDup_cons. split; [|by apply IH]. intros (y & E & [Hy _]%(filterb_elem p))%list_elem_of_fmap. apply Hx.
  apply list_elem_of_fmap. by exists y.
Qed.

(** Adding an item. *)
Lemma upsert_settled items item next :
  settled items → storable item → upsertCreationHistoryItem items item = Ok next →
  ∃ first dropped,
    sanitizeCreationHistoryItem item = Ok first ∧ settled next ∧
    first :: filterb (λ i, negb (strict_eq (prop (js "id") i) (prop (js "id") item))) items ≡ₚ next ++ dropped ∧
    (∀ a b, a ∈ next → b ∈ dropped → newer a b) ∧ (dropped ≠ [] → length next = CREATION_HISTORY_LIMIT).
Proof.
  intros [Hg Ho Hl Hi] Hst (first & Hf & [= <-])%exc_bind_Ok.
  pose proof (good_sanitize _ _ Hst Hf) as Hgf.
  set (others := filterb _ items). assert (Forall good (first :: others)) as Hall.
  { constructor; [done|]. rewrite Forall_forall in Hg |- *. intros i [Hin _]%filterb_elem. auto. }
  destruct (latest_spec _ Hall) as (H1 & H2 & H3 & dropped & H4 & H5 & H6).
  exists first, dropped. split_and!; [done| |done..]. split; [done..|].
  assert (NoDup (map (prop (js "id")) (latest (first :: others) ++ dropped))) as Hd.
  { rewrite <- H4. cbn [map]. apply NoDup_cons. split; [|by apply NoDup_map_filterb].
    intros (i & Ei & [Hin Hne]%filterb_elem)%list_elem_of_fmap. destruct (good_id first Hgf) as (s & Es).
    assert (prop (js "id") item = VStr s) as Es' by (rewrite <- (sanitize_members _ _ _ Hf) by other_key; done).
    rewrite Es', <- Ei, Es in Hne. cbn in Hne. by rewrite str_eqb_refl in Hne. }
  rewrite map_app in Hd. by apply NoDup_app in Hd as [Hd _].
Qed.

(** An answer for an item of the same model. *)
Lemma merged_like r result : json_like (VObj r) → json_like (VObj result) → json_like (VObj (merged_result r (VObj result))).
Proof.
  intros Hr Hres. unfold merged_result. cbn [own_members].
  assert (json_like (VObj (spread result r))) as Hl by (apply json_like_spread; [|done]; by apply json_like_obj in Hr as [_ ?]).
  revert Hl. generalize (spread result r) as o. assert (Forall (λ k, units_ok k) KEPT_MEMBERS) as Hk.
  { unfold KEPT_MEMBERS. repeat (constructor; [by apply unitsb_ok; vm_compute|]). constructor. }
  induction Hk as [|k ks Hk _ IH]; intros o Ho; [done|]. cbn [fold_left]. apply IH, json_like_set; [done| |done].
  unfold nullish. pose proof (json_like_prop k r Hr) as H1. pose proof (json_like_prop k result Hres) as H2.
  destruct (prop k r); done.
Qed.

Lemma update_members item identity r k :
  k ∉ [js "model"; js "result"] → prop k (update_item identity r item) = prop k item.
Proof.
  intros [H1 [H2 _]%not_elem_of_cons]%not_elem_of_cons. unfold update_item. case_match; [done|]. by rewrite !prop_set_ne.
Qed.

Lemma update_good item identity r :
  good item → json_like (VObj r) →
  (strict_eq (item_identity item) identity = true → prop (js "model") r = prop (js "model") item) →
  good (update_item identity r item).
Proof.
  intros [[Hl (id & x & Hv & Hx) (res & Hr) Hvid] Hc] Hlr Hm.
  assert (prop (js "model") (update_item identity r item) = prop (js "model") item) as Em.
  { unfold update_item. destruct (strict_eq _ identity); [|done]. cbn [negb].
    rewrite prop_set_ne by other_key. rewrite prop_set. by apply Hm. }
  assert (∃ res', prop (js "result") (update_item identity r item) = VObj res') as (res' & Er).
  { unfold update_item. destruct (negb _); [by exists res|]. rewrite prop_set. by eexists. }
  split; [split|].
  - unfold update_item. destruct (negb _); [done|]. rewrite Hr.
    apply json_like_set; [by apply unitsb_ok; vm_compute|apply merged_like; [done|]|].
    + pose proof (json_like_prop (js "result") item Hl) as Hp. by rewrite Hr in Hp.
    + apply json_like_set; [by apply unitsb_ok; vm_compute|by apply json_like_prop|done].
  - exists id, x. split; [|done]. destruct Hv as [E1 E2 E3 E4 _ E6].
    split; rewrite ?Em; try (rewrite update_members by other_key); try done. by rewrite Er.
  - by exists res'.
  - by rewrite update_members by other_key.
  - destruct Hc as [H1 H2 H3]. assert (item_model (update_item identity r item) = item_model item) as Ei.
    { unfold item_model. by rewrite Em. }
    split; rewrite ?Ei, ?(update_members item identity r (js "imageReferences")),
      ?(update_members item identity r (js "imageOptions")), ?(update_members item identity r (js "videoReferences"))
      by other_key; done.
Qed.

Definition result_identity (r : obj) : value := val_or (prop (js "taskId") r) (prop (js "id") r).

Lemma update_settled items identity r :
  settled items → json_like (VObj r) →
  (∀ item, item ∈ items → strict_eq (item_identity item) identity = true → prop (js "model") r = prop (js "model") item) →
  settled (map (update_item identity r) items).
Proof.
  intros [Hg Ho Hl Hi] Hr Hm.
  assert (map created (map (update_item identity r) items) = map created items) as E1.
  { rewrite map_map. apply map_ext. intros i. unfold created. by rewrite update_members by other_key. }
  assert (map (prop (js "id")) (map (update_item identity r) items) = map (prop (js "id")) items) as E2.
  { rewrite map_map. apply map_ext. intros i. by rewrite update_members by other_key. }
  split; [|by apply (sorted_created items)|by rewrite length_map|by rewrite E2].
  apply Forall_map. rewrite Forall_forall in Hg |- *. intros i Hin. apply update_good; auto.
Qed.

(** What one page of one user does: adding an item, an answer about an item,
    clearing, and opening the page again. *)
Inductive history_step : history → history → Prop :=
| step_persist item h h' :
    storable item → persistHistoryItem accepts key item h = Ok h' → history_step h h'
| step_update r h h' :
    json_like (VObj r) →
    (∀ item, item ∈ history_items h → strict_eq (item_identity item) (result_identity r) = true →
       prop (js "model") r = prop (js "model") item) →
    updateHistoryResult accepts key r h = Ok h' → history_step h h'
| step_clear h : history_step h (clearHistory key h)
| step_reload h : history_step h (load_history key h).

Definition no_history (st : store) : Prop := st !! key = None.

(** The state, and what the storage gives back. *)
Record consistent h : Prop := {
  con_settled : settled (history_items h);
  con_stored : ∃ items', loadCreationHistory (history_store h) key = (items', history_store h)
    ∧ same_items items' (history_items h) ∧ settled items';
}.

Lemma settled_nil : settled [].
Proof. split; [by apply Forall_nil|constructor|cbn; lia|constructor]. Qed.

Lemma load_none st : st !! key = None → loadCreationHistory st key = ([], st).
Proof. intros E. unfold loadCreationHistory. by rewrite E. Qed.

Lemma step_consistent h h' : history_step h h' → consistent h → consistent h'.
Proof.
  intros Hs [Hset (items' & El & Es & Hs')]. destruct Hs as [item h h' Hst Hp|r h h' Hr Hm Hu|h|h].
  - apply exc_bind_Ok in Hp as (next & Hn & (st & Hsave & [= <-])%exc_bind_Ok).
    destruct (upsert_settled _ _ _ Hset Hst Hn) as (first & dropped & _ & Hnext & _).
    split; [done|]. by apply (reload_saved accepts (history_store h)).
  - unfold updateHistoryResult in Hu. fold (result_identity r) in Hu.
    destruct (negb _); [injection Hu as <-; split; [done|by exists items']|].
    apply exc_bind_Ok in Hu as (st & Hsave & [= <-]).
    assert (settled (map (update_item (result_identity r) r) (history_items h))) as Hnext by (by apply update_settled).
    split; [done|]. by apply (reload_saved accepts (history_store h)).
  - split; [apply settled_nil|]. exists []. cbn. rewrite load_none by apply lookup_delete_eq.
    split_and!; [done|done|apply settled_nil].
  - unfold load_history. rewrite El. split; [done|]. exists items'. cbn [history_store history_items].
    by split_and!.
Qed.

Lemma reachable_consistent st h : no_history st → rtc history_step (History [] st) h → consistent h.
Proof.
  intros Hn Hr. assert (consistent (History [] st)) as H0.
  { split; [apply settled_nil|]. exists []. cbn. rewrite load_none by done. split_and!; [done|done|apply settled_nil]. }
  remember (History [] st) as h0 eqn:E0. clear E0. induction Hr as [|a b c Hab _ IH]; [done|].
  by apply IH, (step_consistent a).
Qed.

(** C32. Whatever a user did on one page, starting from an empty history (adding
    items, taking answers for them, clearing, opening the page again), opening
    the page again shows the same items in the same order, as JSON carries them;
    and the storage is left as it is. *)
Theorem history_survives_reload st h :
  no_history st → rtc history_step (History [] st) h →
  ∃ items', loadCreationHistory (history_store h) key = (items', history_store h) ∧
    same_items items' (history_items h).
Proof. intros Hn Hr. destruct (reachable_consistent _ _ Hn Hr) as [_ (items' & E & Es & _)]. by exists items'. Qed.

(** C33. The page keeps the newest items: after an item is added, the history
    has at most twenty items, the newest first, no two with the same id; it has
    the added item, cleaned, and the other items, except that items are dropped
    when there are more than twenty, and those are not newer than any item that
    is kept. *)
Theorem newest_kept st h item h' :
  no_history st → rtc history_step (History [] st) h → storable item →
  persistHistoryItem accepts key item h = Ok h' →
  let next := history_items h' in
  (length next ≤ 20)%nat ∧ StronglySorted newer next ∧ NoDup (map (prop (js "id")) next) ∧
  ∃ first dropped, sanitizeCreationHistoryItem item = Ok first ∧
    next ++ dropped ≡ₚ
      first :: filterb (λ i, negb (strict_eq (prop (js "id") i) (prop (js "id") item))) (history_items h) ∧
    (∀ a b, a ∈ next → b ∈ dropped → newer a b) ∧ (dropped ≠ [] → length next = 20%nat).
Proof.
  intros Hn Hr Hst Hp. destruct (reachable_consistent _ _ Hn Hr) as [Hset _].
  apply exc_bind_Ok in Hp as (next & Hnext & (st' & _ & [= <-])%exc_bind_Ok).
  destruct (upsert_settled _ _ _ Hset Hst Hnext) as (first & dropped & Hf & [_ Ho Hl Hi] & Hperm & Hnew & Hfull).
  cbn [history_items]. split_and!; [done..|]. exists first, dropped. split_and!; [done|by symmetry|done..].
Qed.

End Handlers.

(** ** References that are stored *)

Definition elements_of (v : value) : list value := match v with VArr l => l | VUndef => [] | _ => [v] end.

Definition VIDEO_REFERENCE_MEMBERS : list jsstr :=
  [js "imageUrls"; js "startImageUrl"; js "endImageUrl"; js "videoUrls"; js "audioUrls"; js "audioUrl"].

(** Everything an item has as a reference to a medium. *)
Definition reference_values (item : obj) : list value :=
  elements_of (member_value (js "imageUrls") (prop (js "imageReferences") item)) ++
  concat (map (λ k, elements_of (member_value k (prop (js "videoReferences") item))) VIDEO_REFERENCE_MEMBERS).

(** The text starts with http or https in some case, a colon and two slashes. *)
Definition web_text (u : jsstr) : Prop :=
  ∃ scheme rest, u = scheme ++ js "://" ++ rest ∧ map ascii_lower scheme ∈ [js "http"; js "https"].

(** An empty text, or a web address after leading and trailing blanks. *)
Definition web_reference (v : value) : Prop := ∃ u, v = VStr u ∧ (u = [] ∨ web_text (trim u)).

Lemma lower_prefix p q s t : map ascii_lower s = p ++ q ++ t → Forall (λ c, (c < 97)%N) q →
  ∃ scheme rest, s = scheme ++ q ++ rest ∧ map ascii_lower scheme = p.
Proof.
  intros E Hq. apply fmap_app_inv in E as (scheme & s2 & Ep & E & ->).
  symmetry in E. apply fmap_app_inv in E as (q' & rest & Eq & _ & ->). exists scheme, rest. split; [|done].
  do 2 f_equal. rewrite Eq in Hq. clear - Eq Hq. rewrite Eq. clear Eq q.
  induction q' as [|c q' IH]; [done|]. cbn in *. apply Forall_cons in Hq as [Hc Hq]. f_equal; [|by apply IH].
  revert Hc. unfold ascii_lower. case_match; [|done]. bool_to_prop. lia.
Qed.

Lemma storable_web u : isStorableReferenceURL u = true → web_text (trim u).
Proof.
  unfold isStorableReferenceURL. intros [(t & Ht)%starts_with_spec|(t & Ht)%starts_with_spec]%orb_prop.
  - change (js "http://") with (js "http" ++ js "://") in Ht. rewrite <- app_assoc in Ht.
    apply lower_prefix in Ht as (scheme & rest & E & Es); [|by repeat constructor].
    exists scheme, rest. split; [done|]. rewrite Es. by left.
  - change (js "https://") with (js "https" ++ js "://") in Ht. rewrite <- app_assoc in Ht.
    apply lower_prefix in Ht as (scheme & rest & E & Es); [|by repeat constructor].
    exists scheme, rest. split; [done|]. rewrite Es. right. by left.
Qed.

Section Stored.
Context `{CaseMap}.
Implicit Types (item : obj) (items : list obj).

Lemma urls_web us v : Forall clean_url us → v ∈ elements_of (str_values us) → web_reference v.
Proof.
  intros Hu Hv. cbn [elements_of str_values] in Hv. apply list_elem_of_fmap in Hv as (u & -> & Hin).
  rewrite Forall_forall in Hu. exists u. split; [done|]. right. by apply storable_web, Hu.
Qed.

Lemma clean_members_web m us vs aus s e a k w v :
  clean_members m us vs aus s e a → (k, w) ∈ m → v ∈ elements_of w → web_reference v.
Proof.
  intros [-> Hus Hvs Haus Hs He Ha _] Hin Hv.
  assert (∀ t, t = [] ∨ isStorableReferenceURL t = true → v ∈ elements_of (VStr t) → web_reference v) as Hstr.
  { intros t Ht ->%list_elem_of_singleton. exists t. split; [done|]. destruct Ht; [by left|by right; apply storable_web]. }
  assert (a = [] ∨ isStorableReferenceURL a = true) as Ha' by (destruct Ha as [-> |[? _]]; [by left|by right]).
  set_unfold in Hin. destruct Hin as [E|[E|[E|[E|[E|[E|[]]]]]]]; injection E as -> ->.
  - by apply (urls_web us).
  - by apply (Hstr s).
  - by apply (Hstr e).
  - by apply (urls_web vs).
  - by apply (urls_web aus).
  - by apply (Hstr a).
Qed.

Lemma clean_web item v : clean item → v ∈ reference_values item → web_reference v.
Proof.
  intros [Hi _ Hv]. unfold reference_values. intros [Hin|Hin]%elem_of_app.
  - destruct (val_truthy (prop (js "imageReferences") item)) eqn:Et.
    + pose proof (Hi eq_refl) as (us & Hu & E & _)%image_references_clean. rewrite E, member_single in Hin.
      by apply (urls_web us).
    + destruct (prop (js "imageReferences") item); try done; by apply elem_of_nil in Hin.
  - apply list_elem_of_In, in_concat in Hin as (l & Hl & Hin). apply in_map_iff in Hl as (k & <- & Hk).
    apply list_elem_of_In in Hin, Hk. destruct (val_truthy (prop (js "videoReferences") item)) eqn:Et.
    + destruct (Hv eq_refl) as (r & m & us & vs & aus & s & e & a & Er & Hm & Hg). rewrite Er in Hin.
      assert (map fst m = VIDEO_REFERENCE_MEMBERS) as Ek by (by destruct Hm as [-> _ _ _ _ _ _ _]).
      rewrite <- Ek in Hk. apply list_elem_of_fmap in Hk as ([k' w] & -> & Hkw).
      cbn [member_value fst] in Hin. unfold prop in Hin. rewrite (Hg k' w Hkw) in Hin.
      by eapply clean_members_web.
    + destruct (prop (js "videoReferences") item); try done; by apply elem_of_nil in Hin.
Qed.

(** C34. What is saved is a JSON array of at most twenty items, and every
    reference to a medium in it is empty or a web address with http or https:
    no uploaded data and no address of an object in memory is stored. *)
Theorem stored_references_web (accepts : store → jsstr → jsstr → bool) st key items st' :
  Forall storable items → saveCreationHistory accepts st key items = Ok st' →
  ∃ text (l : list obj), st' !! key = Some text ∧ json_parse text = Some (VArr (map VObj l)) ∧
    (length l ≤ 20)%nat ∧ ∀ item v, item ∈ l → v ∈ reference_values item → web_reference v.
Proof.
  intros Hst (saved & Hs & Hsave)%exc_bind_Ok. apply exc_bind_Ok in Hs as (cleaned & Hc & [= <-]).
  assert (Forall good cleaned) as Hg.
  { apply Forall_forall. intros i Hi. destruct (mapM_Ok_elem _ _ _ _ Hc Hi) as (j & Hj & Ej).
    rewrite Forall_forall in Hst. apply (good_sanitize j); auto. }
  set (kept := filterb _ cleaned) in Hsave. assert (Forall good kept) as Hk.
  { rewrite Forall_forall in Hg |- *. intros i [Hi _]%filterb_elem. auto. }
  destruct (latest_spec kept Hk) as (Hgl & _ & Hl & _).
  destruct (stringify _) as [text|] eqn:Et; [|done]. destruct (accepts st key text); [|done]. injection Hsave as <-.
  exists text, (map strip_obj (latest kept)). rewrite lookup_insert_eq. split_and!; [done| |by rewrite length_map|].
  - rewrite (parse_stringify_strip _ _) with (2 := Et); [cbn; by rewrite !map_map|].
    apply json_like_arr, Forall_map. eapply Forall_impl; [exact Hgl|]. by intros item [[Hj _ _ _] _].
  - intros item v (i & -> & Hi)%list_elem_of_fmap. rewrite Forall_forall in Hgl. apply clean_web, good_strip; auto.
Qed.

(** C35. The history forgets the settings of an image: the item is cleaned with
    the name of its model, which says nothing of what the model accepts, unless
    the name is gpt-image2; so the stored item has no references and the default
    options, whatever the user chose and the task was submitted with.  With the
    model of the catalogue, which submitting and restoring an item use, the
    references of a model that accepts them are all kept. *)
Theorem image_settings_forgotten item name item' :
  prop (js "model") item = VStr name → normalizeModelId (ModelName name) ≠ js "gpt-image2" →
  val_truthy (prop (js "imageReferences") item) = true → sanitizeCreationHistoryItem item = Ok item' →
  prop (js "imageReferences") item' = VObj [(js "imageUrls", VArr [])] ∧
  (val_truthy (prop (js "imageOptions") item) = true →
     prop (js "imageOptions") item' = options_value DEFAULT_CREATION_IMAGE_OPTIONS) ∧
  ∀ m refs, accepts_options (ModelObject m) = true → Forall has_url refs →
    normalizeCreationImageReferences (Some refs) (ModelObject m) = refs.
Proof.
  intros Hm Hn Ht Hs.
  assert (accepts_options (ModelName name) = false) as Ha.
  { unfold accepts_options, supportsCreationImageReferences. cbn -[js normalizeModelId].
    by rewrite str_eqb_neq. }
  assert (item_model item = ModelName name) as Em by (unfold item_model; by rewrite Hm).
  apply exc_bind_Ok in Hs as (i & Hi & Hs).
  assert (prop (js "imageReferences") item' = prop (js "imageReferences") i ∧
          prop (js "imageOptions") item' = prop (js "imageOptions") i) as [-> ->].
  { destruct (negb _); [by injection Hs as <-|]. apply exc_bind_Ok in Hs as (m & _ & [= <-]).
    split; apply prop_set_ne; other_key. }
  unfold sanitize_image in Hi. rewrite Ht, Em in Hi. cbn [negb] in Hi.
  apply exc_bind_Ok in Hi as (o & Ho & Hi). apply exc_bind_Ok in Hi as (r & Hr & [= <-]).
  rewrite prop_set, prop_set_ne, prop_set by other_key. split_and!.
  - apply exc_bind_Ok in Hr as (us & _ & [= <-]). unfold normalizeCreationImageReferences. by rewrite Ha.
  - intros Hto. rewrite Hto in Ho. unfold normalizeCreationImageOptions in Ho. rewrite Ha in Ho. by injection Ho as <-.
  - intros m refs Hacc Hrefs. unfold normalizeCreationImageReferences. rewrite Hacc. by apply clean_id.
Qed.

(** One item that cannot be cleaned erases the whole history: when the
    stored text has an item with the members that are checked, and cleaning it
    throws (a reference that is an object without an address), nothing is shown
    and the key is removed, with all the other items. *)
Theorem malformed_item_erases st key raw parsed item :
  st !! key = Some raw → json_parse raw = Some (VArr parsed) →
  VObj item ∈ parsed → isCreationHistoryItem (VObj item) = true → sanitizeCreationHistoryItem item = Throw →
  loadCreationHistory st key = ([], delete key st).
Proof.
  intros Hraw Hp Hin Hv Ht. unfold loadCreationHistory. rewrite Hraw. destruct (truthy raw) eqn:Er; cbn [negb].
  2: { destruct raw; [by vm_compute in Hp|done]. }
  rewrite Hp. unfold loaded_items. destruct (mapM _ _) as [items| |] eqn:Em; cbn [mbind exc_bind]; try done.
  exfalso. apply mapM_Ok_Forall2 in Em.
  assert (item ∈ map item_members (filterb isCreationHistoryItem parsed)) as Hi.
  { apply list_elem_of_fmap. exists (VObj item). split; [done|]. by apply filterb_elem. }
  apply list_elem_of_lookup in Hi as (n & Hn). destruct (Forall2_lookup_l _ _ _ _ _ Em Hn) as (y & _ & Hy). congruence.
Qed.
End Stored.

(** ** A sample *)

Ltac json_sample :=
  lazymatch goal with
  | |- json_like (VObj _) =>
      apply json_like_obj; split; [apply wf_decide; vm_compute; reflexivity|];
      let k := fresh "k" in let v := fresh "v" in let Hin := fresh "Hin" in
      intros k v Hin;
      repeat (apply elem_of_cons in Hin as [[= -> ->]|Hin];
              [split; [apply unitsb_ok; vm_compute; reflexivity|json_sample]|]);
      by apply elem_of_nil in Hin
  | |- json_like (VArr _) => apply json_like_arr; repeat (apply Forall_cons; split; [json_sample|]); by apply Forall_nil
  | |- json_like (VStr _) => apply unitsb_ok; vm_compute; reflexivity
  | |- json_like (VNum _) => split; vm_compute; reflexivity
  | |- _ => exact I
  end.

Definition sample_image : obj :=
  [(js "createdAt", VNum (of_Z 1700000000000)); (js "id", VStr (js "task-1")); (js "mode", VStr (js "image"));
   (js "model", VStr (js "gpt-image-2")); (js "prompt", VStr (js "a cat")); (js "assets", VArr []);
   (js "result", VObj [(js "status", VStr (js "completed")); (js "taskId", VStr (js "task-1")); (js "duration", VUndef)]);
   (js "imageOptions", VObj [(js "aspectRatio", VStr (js "16:9")); (js "outputResolution", VStr (js "2K"))]);
   (js "imageReferences", VObj [(js "imageUrls", VArr [VStr (js "https://example.com/cat.png"); VStr (js "data:image/png,AA")])]);
   (js "videoOptions", VUndef); (js "videoReferences", VUndef)].

Lemma sample_image_storable : storable sample_image.
Proof.
  split.
  - unfold sample_image. json_sample.
  - exists (js "task-1"), (of_Z 1700000000000). split; [|vm_compute; discriminate].
    split; [by vm_compute|by vm_compute|by eexists; vm_compute|by eexists; vm_compute|by vm_compute|].
    exists (js "image"). split; [by vm_compute|]. by apply includes_elem; vm_compute.
  - eexists. vm_compute. reflexivity.
  - intros Ht. by vm_compute in Ht.
Qed.

Definition accept_all : store → jsstr → jsstr → bool := λ _ _ _, true.
Definition sample_key : jsstr := getCreationHistoryStorageKey (Some (of_Z 7)).
Definition sample_history : history :=
  match persistHistoryItem accept_all sample_key sample_image (History [] ∅) with Ok h => h | _ => History [] ∅ end.

Lemma sample_persisted : persistHistoryItem accept_all sample_key sample_image (History [] ∅) = Ok sample_history.
Proof. vm_compute. reflexivity. Qed.

Lemma sample_reached : rtc (history_step accept_all sample_key) (History [] ∅) sample_history.
Proof. eapply rtc_once, step_persist; [apply sample_image_storable|apply sample_persisted]. Qed.

Lemma history_survives_reload_witness :
  ∃ items', loadCreationHistory (history_store sample_history) sample_key = (items', history_store sample_history) ∧
    same_items items' (history_items sample_history) ∧ length (history_items sample_history) = 1%nat.
Proof.
  destruct (history_survives_reload accept_all sample_key ∅ sample_history (lookup_empty _) sample_reached) as (items' & E & Es).
  exists items'. split; [exact E|]. split; [exact Es|]. vm_compute. reflexivity.
Defined.

Lemma newest_kept_witness : (length (history_items sample_history) ≤ 20)%nat.
Proof.
  exact (proj1 (newest_kept accept_all sample_key ∅ (History [] ∅) sample_image sample_history (lookup_empty _)
    (rtc_refl _ _) sample_image_storable sample_persisted)).
Defined.

Definition sample_stored : store :=
  match saveCreationHistory accept_all ∅ sample_key [sample_image] with Ok st => st | _ => ∅ end.

Lemma stored_references_web_witness :
  ∃ text (l : list obj), sample_stored !! sample_key = Some text ∧ json_parse text = Some (VArr (map VObj l)) ∧
    ∀ item v, item ∈ l → v ∈ reference_values item → web_reference v.
Proof.
  destruct (stored_references_web accept_all ∅ sample_key [sample_image] sample_stored) as (text & l & E & Hp & _ & Hw).
  - apply Forall_singleton, sample_image_storable.
  - vm_compute. reflexivity.
  - exists text, l. split; [exact E|]. split; [exact Hp|exact Hw].
Defined.

Definition cleaned_sample : obj := match sanitizeCreationHistoryItem sample_image with Ok i => i | _ => [] end.

Lemma image_settings_forgotten_witness :
  prop (js "imageReferences") cleaned_sample = VObj [(js "imageUrls", VArr [])].
Proof.
  apply (image_settings_forgotten sample_image (js "gpt-image-2")).
  - vm_compute. reflexivity.
  - vm_compute. discriminate.
  - vm_compute. reflexivity.
  - vm_compute. reflexivity.
Defined.

(** Two videos, the second with a reference that has no address. *)
Definition sample_video (id : string) (reference : value) : obj :=
  [(js "id", VStr (js id)); (js "createdAt", VNum (of_Z 1)); (js "mode", VStr (js "video")); (js "model", VStr (js "veo"));
   (js "prompt", VStr (js "a cat")); (js "result", VObj []);
   (js "videoReferences", VObj [(js "imageUrls", VArr [reference])])].

Definition sample_text : jsstr :=
  from_opt [] (stringify (VArr [VObj (sample_video "a" (VStr (js "https://example.com/a.png"))); VObj (sample_video "b" (VObj []))])).

Lemma malformed_item_erases_witness :
  loadCreationHistory {[sample_key := sample_text]} sample_key = ([], ∅).
Proof.
  rewrite (malformed_item_erases {[sample_key := sample_text]} sample_key sample_text
    [VObj (sample_video "a" (VStr (js "https://example.com/a.png"))); VObj (sample_video "b" (VObj []))]
    (sample_video "b" (VObj []))).
  - by f_equal.
  - apply lookup_singleton_eq.
  - vm_compute. reflexivity.
  - right. left.
  - vm_compute. reflexivity.
  - vm_compute. reflexivity.
Defined.
