(* ===== verification/CreationRequests.v ===== *)
(** * Requests of the creation centre

    Model of src/web/default/src/features/creation-center/api.ts (the requests
    of a task and the results that are read from the answers), video-request.ts,
    the countdown and the prompt of session.ts, model-order.ts, category-rows.ts,
    and of what the handlers submit and refreshMediaTask of index.tsx make of a
    result.  The server is a parameter: it answers a request with a value or an
    exception. *)
From S2P Require Import Prelude JsString JsNumber Regex JsValue JsonFacts JsFixed Currency Prices XjzModels VideoCapabilities VideoOptions VideoReferences VideoRequest ImageOptions ResultParsers MediaRouting PlaygroundStorage CreationHistory.
From Stdlib Require Import SpecFloat.

Open Scope N_scope.

(** ** Countdown *)

(** [!x] of an optional number. *)
Definition missing_number (x : option num) : bool := match x with Some x => negb (num_truthy x) | None => true end.

Definition getCreationCountdownSeconds (createdAt estimateSeconds : option num) (now : num) : num :=
  match createdAt, estimateSeconds with
  | Some c, Some e =>
      if negb (num_truthy c) || negb (num_truthy e) then n0
      else nmax n0 (nceil (ndiv (nsub (nadd c (nmul e n1000)) now) n1000))
  | _, _ => n0
  end.

Definition getCreationTimedOut (createdAt estimateSeconds : option num) (now : num) : bool :=
  negb (missing_number createdAt) && negb (missing_number estimateSeconds)
  && nleb (getCreationCountdownSeconds createdAt estimateSeconds now) n0.

Definition formatCreationCountdown (seconds : num) : jsstr :=
  let safeSeconds := nmax n0 (nfloor seconds) in
  let minutes := nfloor (ndiv safeSeconds (of_Z 60)) in
  let rest := nrem safeSeconds (of_Z 60) in
  pad_start 2 48 (num_to_str minutes) ++ js ":" ++ pad_start 2 48 (num_to_str rest).

(** ** Assets and prompt *)

Record CreationAsset := AssetOf {
  asset_id : jsstr;
  asset_name : jsstr;
  asset_type : jsstr;
  asset_size : num;
  asset_text : option jsstr;
  asset_dataUrl : option jsstr;
}.

Definition asset_lines (n : nat) (asset : CreationAsset) : list jsstr :=
  (dec (N.of_nat (S n)) ++ js ". " ++ asset_name asset ++
   (if truthy (asset_type asset) then js " (" ++ asset_type asset ++ js ")" else [])) ::
  match asset_text asset with
  | Some t => if truthy t then [take 2000 t] else []
  | None => []
  end.

Definition composeCreationPrompt (prompt : jsstr) (assets : list CreationAsset) : jsstr :=
  let trimmedPrompt := trim prompt in
  match filterb (λ a, truthy (trim (asset_name a))) assets with
  | [] => trimmedPrompt
  | cleanAssets =>
      join [10] (trimmedPrompt :: [] :: js "参考素材 / Reference assets:" :: concat (imap asset_lines cleanAssets))
  end.

Definition getCreationAssetSnapshots (assets : list CreationAsset) : list CreationAsset :=
  map (λ a, AssetOf (asset_id a) (asset_name a) (asset_type a) (asset_size a) (take 2000 <$> asset_text a) None) assets.

Definition opt_value {A} (f : A → value) (o : option A) : value := match o with Some x => f x | None => VUndef end.

Definition asset_value (a : CreationAsset) : value :=
  VObj [(js "id", VStr (asset_id a)); (js "name", VStr (asset_name a)); (js "type", VStr (asset_type a));
        (js "size", VNum (asset_size a)); (js "text", opt_value VStr (asset_text a))].

(** A stored asset: a name alone, or an object with a name.  The members of
    the object are taken as they are. *)
Definition restored_asset (index : nat) (asset : value) : exc (list value) :=
  let n := dec (N.of_nat index) in
  match asset with
  | VStr name =>
      Ok [VObj [(js "id", VStr (js "legacy-" ++ n ++ js "-" ++ name)); (js "name", VStr name); (js "type", VStr []);
                (js "size", VNum (of_Z 0))]]
  | VObj _ | VArr _ =>
      let name := member_value (js "name") asset in
      if negb (val_truthy name) then Ok []
      else
        let id := member_value (js "id") asset in
        text ← (if val_truthy id then Ok []
                else match to_string name with Some s => Ok s | None => Throw end);
        Ok [VObj [(js "id", if val_truthy id then id else VStr (js "history-" ++ n ++ js "-" ++ text));
                  (js "name", name); (js "type", val_or (member_value (js "type") asset) (VStr []));
                  (js "size", val_or (member_value (js "size") asset) (VNum (of_Z 0)));
                  (js "text", member_value (js "text") asset)]]
  | _ => Ok []
  end.

Definition normalizeStoredCreationAssets (assets : value) : exc (list value) :=
  match assets with
  | VArr l => parts ← mapM id (imap restored_asset l); Ok (concat parts)
  | _ => Ok []
  end.

(** [buildChatContent]: the prompt, or the prompt and the images. *)
Definition buildChatContent (prompt : jsstr) (assets : list CreationAsset) : value :=
  let images :=
    concat (map (λ a,
      match asset_dataUrl a with
      | Some u => if starts_with (js "image/") (asset_type a) && truthy u then [u] else []
      | None => []
      end) assets) in
  match images with
  | [] => VStr prompt
  | _ =>
      VArr (VObj [(js "type", VStr (js "text")); (js "text", VStr prompt)] ::
        map (λ u, VObj [(js "type", VStr (js "image_url")); (js "image_url", VObj [(js "url", VStr u)])]) images)
  end.

(** ** Requests of videos *)

(** A model of the catalogue. *)
Record CreationModel := CatalogueModel {
  cm_id : jsstr;
  cm_metadata : option CreationModelMetadataLike;
  cm_mapped_endpoints : option (list MappedEndpoint);
  cm_endpoint_types : list jsstr;
}.

Definition model_input (m : CreationModel) : CreationModelInput :=
  ModelObject (ModelLike (Some (cm_id m)) (cm_metadata m) (cm_mapped_endpoints m)).

Definition getCreationVideoEndpoint (model : CreationModelInput) : jsstr :=
  let mapped :=
    match model with
    | ModelObject m => mapped_endpoints m ≫= find_first (λ e, str_eqb (endpoint_kind e) (js "video"))
    | _ => None
    end in
  let is_path p := match mapped with Some e => str_eqb (endpoint_path e) p | None => false end in
  if is_path (js "/v1/videos") then js "/api/creation/videos"
  else if is_path (js "/v1/video/generations") then js "/api/creation/video/generations"
  else if is_path (js "/v1/video/async-generations") then js "/api/creation/video/async-generations"
  else if is_some (getXJZVideoModelSpec (getModelId model)) then js "/api/creation/videos"
  else js "/api/creation/video/async-generations".

Inductive VideoTransport := AsyncVideo | PromptVideo.

Record CreationVideoSubmitRequest := VideoSubmit {
  vs_endpoint : jsstr;
  vs_payload : obj;
  vs_transport : VideoTransport;
}.

Definition chat_payload (model : jsstr) (content : value) : obj :=
  [(js "model", VStr model);
   (js "messages", VArr [VObj [(js "role", VStr (js "user")); (js "content", content)]]);
   (js "stream", VBool false)].

(** [const { estimateSeconds, ...rest } = o]. *)
Definition without (k : jsstr) (o : obj) : obj := filterb (λ kv, negb (str_eqb kv.1 k)) o.

Section Requests.
Context `{CaseMap} `{UrlApi}.

Definition buildCreationVideoSubmitRequest (model : CreationModel) (prompt : jsstr) (content : option value)
    (videoOptions : option CreationVideoOptions) (videoReferences : option CreationVideoReferences)
    : exc CreationVideoSubmitRequest :=
  capability ← getCreationVideoCapabilities (model_input model);
  let supportsVideoEndpoint := includes (js "openai-video") (cm_endpoint_types model) in
  let base := [(js "model", VStr (cm_id model)); (js "prompt", VStr prompt)] in
  let endpoint := getCreationVideoEndpoint (model_input model) in
  match capability with
  | Missing =>
      if negb supportsVideoEndpoint then
        Ok (VideoSubmit (js "/pg/chat/completions") (chat_payload (cm_id model) (from_opt (VStr prompt) content)) PromptVideo)
      else Ok (VideoSubmit endpoint base AsyncVideo)
  | _ =>
      requestOptions ←
        getCreationVideoRequestOptions (from_opt DEFAULT_CREATION_VIDEO_OPTIONS videoOptions) (model_input model)
          (from_opt EMPTY_CREATION_VIDEO_REFERENCES videoReferences);
      Ok (VideoSubmit endpoint (spread base (without (js "estimateSeconds") requestOptions)) AsyncVideo)
  end.

(** ** The address of a video in a text *)

(** The pattern of an address at the start of a text, without regard to case. *)
Definition web_start_re : re := rseq [ci_lit "http"; ROpt (ci_lit "s"); RLit (js "://")].

Definition VIDEO_URL_KEYS : list jsstr :=
  [js "video_url"; js "result_url"; js "output_url"; js "content_url"; js "url"].

(** [fuel] is what remains of the depth: six at the top. *)
Fixpoint findVideoURL (fuel : nat) (v : value) : option jsstr :=
  match fuel with
  | O => None
  | S fuel =>
      match v with
      | VStr s => if truthy s && rx_test web_start_re (trim s) then Some (trim s) else None
      | VArr l => first_of (map (findVideoURL fuel) l)
      | VObj o => first_of (map (λ k, findVideoURL fuel (prop k o)) VIDEO_URL_KEYS ++ map (findVideoURL fuel) (obj_values o))
      | _ => None
      end
  end.

(** Addresses in a text, the punctuation after one, and the end of the name of
    a video. *)
Definition text_url_re : re :=
  RGrp 0 (rseq [ci_lit "http"; ROpt (ci_lit "s"); RLit (js "://");
                RPlus (RChr (λ c, negb (is_ws c || bool_decide (c ∈ [60; 62; 34; 39; 96]))))]).
Definition punctuation_re : re := rseq [RPlus (RChr (λ c, bool_decide (c ∈ [41; 44; 46; 59; 93; 125]))); REnd].
Definition video_name_re : re :=
  rseq [RLit (js "."); RAlt (ci_lit "m4v") (RAlt (ci_lit "mov") (RAlt (ci_lit "mp4") (ci_lit "webm")));
        RAlt (RChr (λ c, (c =? 63) || (c =? 35))) REnd].

Definition extractPromptVideoURL (text : option jsstr) : exc (option jsstr) :=
  let trimmed := trim (from_opt [] text) in
  if negb (truthy trimmed) then Ok None
  else
    match json_parse trimmed ≫= findVideoURL 6 with
    | Some u => Ok (Some u)
    | None =>
        found ← rx_matches text_url_re trimmed;
        let urls := filterb truthy (map (λ g, rx_replace_first punctuation_re (λ _, []) (from_opt [] (cap 0 g))) found) in
        Ok (or_else (find_first (λ u, is_some (rx_find video_name_re None u)) urls) (head urls))
    end.

(** ** Results *)

Definition text_value (o : option jsstr) : value := opt_value VStr o.

Definition failed_task (mode : string) (model error : jsstr) (raw : value) : obj :=
  [(js "mode", VStr (js mode)); (js "model", VStr model); (js "status", VStr (js "failed")); (js "error", VStr error);
   (js "raw", raw)].

Definition extractChatText (data : obj) : option jsstr :=
  match prop (js "choices") data with
  | VArr (c :: _) =>
      let firstChoice := asRecord c in
      match prop (js "content") (asRecord (prop (js "message") firstChoice)) with
      | VStr s => Some s
      | VArr parts => Some (join [10] (omap (λ p, getString (asRecord p) (js "text")) parts))
      | _ => getString firstChoice (js "text")
      end
  | _ => None
  end.

Definition parseChatResult (raw : value) (model : jsstr) : obj :=
  match extractMediaErrorMessage raw with
  | Some error => failed_task "chat" model error raw
  | None =>
      let data := asRecord raw in
      let text := extractChatText data in
      [(js "mode", VStr (js "chat")); (js "model", VStr model); (js "id", text_value (getString data (js "id")));
       (js "status", VStr (if truthy (from_opt [] text) then js "completed" else js "unknown"));
       (js "outputText", text_value text); (js "raw", raw)]
  end.

Definition parsePromptVideoResult (raw : value) (model : jsstr) : exc obj :=
  let chatResult := parseChatResult raw model in
  url ← extractPromptVideoURL (as_str (prop (js "outputText") chatResult));
  Ok (obj_set (js "videoUrl") (text_value url) (obj_set (js "mode") (VStr (js "video")) chatResult)).

Definition parseCreationImageResult (raw : value) (model : jsstr) : obj :=
  match extractMediaErrorMessage raw with
  | Some error => failed_task "image" model error raw
  | None =>
      let r := parseImageGenerationResult raw in
      [(js "mode", VStr (js "image")); (js "model", VStr model); (js "id", text_value (image_id r));
       (js "taskId", text_value (image_taskId r));
       (js "status", VStr (if is_some (image_imageUrl r) then js "completed" else task_status_text (image_status r)));
       (js "imageUrl", text_value (image_imageUrl r)); (js "outputText", text_value (image_revisedPrompt r)); (js "raw", raw)]
  end.

Definition parseCreationVideoResult (raw : value) (model : jsstr) : obj :=
  match extractMediaErrorMessage raw with
  | Some error => failed_task "video" model error raw
  | None =>
      let r := parseVideoGenerationResult raw in
      [(js "mode", VStr (js "video")); (js "model", VStr model); (js "id", text_value (video_id r));
       (js "taskId", text_value (video_taskId r)); (js "status", VStr (task_status_text (video_status r)));
       (js "videoUrl", text_value (video_videoUrl r)); (js "raw", raw)]
  end.

Definition getCreationErrorMessage (error : value) : jsstr :=
  match error with
  | VObj o =>
      let of_response :=
        match prop (js "response") o with
        | VObj r => extractMediaErrorMessage (prop (js "data") r)
        | _ => None
        end in
      match of_response with
      | Some m => m
      | None => match prop (js "message") o with VStr m => m | _ => js "Request failed" end
      end
  | _ => js "Request failed"
  end.

(** ** Tasks *)

(** The answer of the server, or the error it is rejected with. *)
Inductive answer := Answer (data : value) | Rejected (error : value).

Record CreationTask := Task {
  task_mode : CreationMode;
  task_model : CreationModel;
  task_prompt : jsstr;
  task_assets : list CreationAsset;
  task_imageOptions : PartialImageOptions;
  task_imageReferences : list CreationVideoReferenceValue;
  task_videoOptions : option CreationVideoOptions;
  task_videoReferences : option CreationVideoReferences;
}.

Context (fetch : jsstr → option blob_info).

Definition image_endpoint_of (model : CreationModelInput) : jsstr :=
  if usesAsyncCreationImageModel model then js "/api/creation/images/async-generations"
  else js "/api/creation/images/generations".

(** The request of a task, and how its answer is read. *)
Definition task_request (t : CreationTask) : exc (transport * (value → exc obj)) :=
  let model := task_model t in
  let prompt := composeCreationPrompt (task_prompt t) (task_assets t) in
  let content := buildChatContent prompt (task_assets t) in
  match task_mode t with
  | ModeChat =>
      Ok (Json (js "/pg/chat/completions") (chat_payload (cm_id model) content), λ raw, Ok (parseChatResult raw (cm_id model)))
  | ModeImage =>
      imageOptions ← getCreationImageRequestOptions prompt (model_input model) (task_imageReferences t) (task_imageOptions t);
      let payload :=
        spread ([(js "model", VStr (cm_id model)); (js "prompt", VStr prompt)] ++
                (if usesAsyncCreationImageModel (model_input model) then [] else [(js "n", VNum (of_Z 1))])) imageOptions in
      request ← prepareImageTransport fetch (image_endpoint_of (model_input model)) payload;
      Ok (request, λ raw, Ok (parseCreationImageResult raw (cm_id model)))
  | ModeVideo =>
      r ← buildCreationVideoSubmitRequest model prompt (Some content) (task_videoOptions t) (task_videoReferences t);
      Ok (Json (vs_endpoint r) (vs_payload r),
          match vs_transport r with
          | PromptVideo => λ raw, parsePromptVideoResult raw (cm_id model)
          | AsyncVideo => λ raw, Ok (parseCreationVideoResult raw (cm_id model))
          end)
  end.

Definition taskId_path (path taskId : jsstr) : exc jsstr := e ← encodeURIComponent taskId; Ok (path ++ js "/" ++ e).

(** The path of a task that is asked for, and how the answer is read. *)
Definition getCreationVideoTask (taskId : jsstr) (model : CreationModelInput) : exc (jsstr * (value → obj)) :=
  path ← taskId_path (getCreationVideoEndpoint model) taskId;
  Ok (path, λ raw, parseCreationVideoResult raw (getModelId model)).

Definition getCreationImageTask (taskId : jsstr) (model : CreationModelInput) : exc (jsstr * (value → obj)) :=
  path ← taskId_path (image_endpoint_of model) taskId;
  Ok (path, λ raw, parseCreationImageResult raw (getModelId model)).

End Requests.

(** ** Items of the history *)

Definition mode_name (m : CreationMode) : jsstr :=
  match m with ModeChat => js "chat" | ModeImage => js "image" | ModeVideo => js "video" end.

Definition reference_mode_name (m : CreationVideoReferenceMode) : jsstr :=
  match m with
  | Text => js "text" | Image => js "image" | Video => js "video" | Multimodal => js "multimodal"
  | Frames => js "frames" | ImageAudio => js "image-audio"
  end.

Definition references_value (r : CreationVideoReferences) : value :=
  VObj [(js "referenceMode", VStr (reference_mode_name (referenceMode r)));
        (js "imageUrls", VArr (map reference_value (imageUrls r))); (js "startImageUrl", VStr (startImageUrl r));
        (js "endImageUrl", VStr (endImageUrl r)); (js "videoUrls", VArr (map reference_value (videoUrls r)));
        (js "audioUrls", VArr (map reference_value (audioUrls r))); (js "audioUrl", reference_value (audioUrl r))].

Definition video_options_value (o : CreationVideoOptions) : value :=
  VObj [(js "resolution", VStr (resolution o)); (js "duration", VStr (duration o));
        (js "aspectRatio", text_value (aspectRatio o))].

(** What the page knows of a task when it is submitted. *)
Record Submission := SubmissionOf {
  sub_createdAt : num;
  sub_mode : CreationMode;
  sub_model : jsstr;
  sub_prompt : jsstr;
  sub_assets : list CreationAsset;
  sub_imageOptions : option CreationImageOptions;
  sub_imageReferences : option (list CreationVideoReferenceValue);
  sub_videoOptions : option CreationVideoOptions;
  sub_videoReferences : option CreationVideoReferences;
  sub_estimateSeconds : option num;
}.

(** [normalizedImageOptions?.outputResolution ?? normalizedVideoOptions?.resolution]. *)
Definition sub_resolution (s : Submission) : value :=
  match sub_imageOptions s ≫= outputResolution with
  | Some r => VStr r
  | None => opt_value (λ o, VStr (resolution o)) (sub_videoOptions s)
  end.

(** The result of an answer with what was asked for. *)
Definition enriched_result (s : Submission) (nextResult : obj) : obj :=
  spread nextResult
    [(js "createdAt", VNum (sub_createdAt s)); (js "duration", opt_value (λ o, VStr (duration o)) (sub_videoOptions s));
     (js "estimateSeconds", opt_value VNum (sub_estimateSeconds s)); (js "resolution", sub_resolution s)].

Definition failed_result (s : Submission) (message : jsstr) : obj :=
  [(js "mode", VStr (mode_name (sub_mode s))); (js "model", VStr (sub_model s)); (js "createdAt", VNum (sub_createdAt s));
   (js "duration", opt_value (λ o, VStr (duration o)) (sub_videoOptions s));
   (js "estimateSeconds", opt_value VNum (sub_estimateSeconds s)); (js "resolution", sub_resolution s);
   (js "status", VStr (js "failed")); (js "error", VStr message)].

(** [fallback] is the id made of the mode, the time and a random number. *)
Definition getCreationHistoryItemId (result : obj) (fallback : jsstr) : value :=
  val_or (val_or (prop (js "taskId") result) (prop (js "id") result)) (VStr fallback).

Definition history_item (s : Submission) (fallback : jsstr) (result : obj) : obj :=
  [(js "createdAt", VNum (sub_createdAt s)); (js "id", getCreationHistoryItemId result fallback);
   (js "mode", VStr (mode_name (sub_mode s))); (js "model", VStr (sub_model s)); (js "prompt", VStr (sub_prompt s));
   (js "assets", VArr (map asset_value (getCreationAssetSnapshots (sub_assets s)))); (js "result", VObj result);
   (js "imageOptions", opt_value options_value (sub_imageOptions s));
   (js "imageReferences", opt_value (λ l, VObj [(js "imageUrls", VArr (map reference_value l))]) (sub_imageReferences s));
   (js "videoOptions", opt_value video_options_value (sub_videoOptions s));
   (js "videoReferences", opt_value references_value (sub_videoReferences s))].

(** The result that is shown and the item that is persisted when the server
    answered, and when the request was rejected. *)
Definition submitted_result `{CaseMap} (s : Submission) (outcome : obj + value) : obj :=
  match outcome with
  | inl nextResult => enriched_result s nextResult
  | inr error => failed_result s (getCreationErrorMessage error)
  end.

Definition submitted_item `{CaseMap} (s : Submission) (fallback : jsstr) (outcome : obj + value) : obj :=
  history_item s fallback (submitted_result s outcome).

(** The result that refreshMediaTask makes of an answer about the task of the
    result that is shown. *)
Definition refreshed_result `{CaseMap} (result : obj) (outcome : obj + value) : obj :=
  match outcome with
  | inl nextResult =>
      spread nextResult (map (λ k, (k, prop k result))
        [js "createdAt"; js "duration"; js "estimateSeconds"; js "resolution"])
  | inr error =>
      spread result [(js "status", VStr (js "failed")); (js "error", VStr (getCreationErrorMessage error))]
  end.

(** ** The order of models *)

Record CreationModelGroup := GroupOf { group_mode : jsstr; group_models : list CreationModel }.

Record CreationModelsByMode := ByMode {
  chat_models : list CreationModel;
  image_models : list CreationModel;
  video_models : list CreationModel;
}.

Definition set_models (g : CreationModelGroup) (m : CreationModelsByMode) : CreationModelsByMode :=
  if str_eqb (group_mode g) (js "chat") then ByMode (group_models g) (image_models m) (video_models m)
  else if str_eqb (group_mode g) (js "image") then ByMode (chat_models m) (group_models g) (video_models m)
  else if str_eqb (group_mode g) (js "video") then ByMode (chat_models m) (image_models m) (group_models g)
  else m.

Definition getCreationModelsByMode (groups : list CreationModelGroup) : CreationModelsByMode :=
  fold_left (λ m g, set_models g m) groups (ByMode [] [] []).

Definition moveCreationModel (models : list CreationModel) (modelId : jsstr) (targetIndex : Z) : list CreationModel :=
  match find_index (λ m, str_eqb (cm_id m) modelId) models with
  | None => models
  | Some sourceIndex =>
      if (length models <? 2)%nat then models
      else
        let nextIndex := Z.to_nat (Z.max 0 (Z.min targetIndex (Z.of_nat (length models) - 1))) in
        if (sourceIndex =? nextIndex)%nat then models
        else
          match models !! sourceIndex with
          | Some model =>
              let next := take sourceIndex models ++ drop (S sourceIndex) models in
              take nextIndex next ++ model :: drop nextIndex next
          | None => models
          end
  end.

Definition serializeCreationModelOrder (m : CreationModelsByMode) : obj :=
  let ids l := VArr (map (λ x, VStr (cm_id x)) l) in
  [(js "chat", ids (chat_models m)); (js "image", ids (image_models m)); (js "video", ids (video_models m))].

Section Categories.
Context `{CaseMap} `{LocaleOrder}.

(** The map of the rows by their ids in lower case. *)
Fixpoint category_rows (rows : list (jsstr * (CreationModel * jsstr))) (l : list (CreationModel * jsstr))
    : list (jsstr * (CreationModel * jsstr)) :=
  match l with
  | [] => rows
  | (model, mode) :: l =>
      let key := to_lower (cm_id model) in
      if existsb (λ r, str_eqb r.1 key) rows then category_rows rows l
      else category_rows (rows ++ [(key, (model, mode))]) l
  end.

Definition getCreationCategoryRows (groups : list CreationModelGroup) : list (CreationModel * jsstr) :=
  sort_by (λ a b, (locale_compare (cm_id a.1) (cm_id b.1) <=? 0)%Z)
    (map snd (category_rows [] (concat (map (λ g, map (λ m, (m, group_mode g)) (group_models g)) groups)))).

End Categories.
