(* ===== verification/CreationRequestProps.v ===== *)
(** * Properties of the requests of the creation centre

    The address of a video that is read from a text, the order of models, and
    the items that are put into the history. *)
From S2P Require Import Prelude JsString JsNumber Regex JsValue JsonFacts JsFixed FloatError XjzModels VideoCapabilities VideoReferences ImageOptions ResultParsers Prices PlaygroundStorage CreationHistory CreationHistoryFacts CreationHistoryProps CreationRequests.
From stdpp Require Import gmap.
From Stdlib Require Import SpecFloat.

Open Scope N_scope.

(** ** The address of a video *)

Lemma lang_web r x :
  lang (rseq [ci_lit "http"; ROpt (ci_lit "s"); RLit (js "://"); r]) x → web_text x.
Proof.
  cbn [rseq]. intros (a & x1 & -> & Ha & b & x2 & -> & Hb & c & x3 & -> & -> & _).
  apply lang_ci in Ha. exists (a ++ b), x3. rewrite <- app_assoc. split; [done|]. rewrite map_app, Ha.
  destruct Hb as [Hb| ->].
  - apply lang_ci in Hb. rewrite Hb. set_solver.
  - rewrite app_nil_r. set_solver.
Qed.

Lemma web_start_text s : rx_test web_start_re s = true → web_text s.
Proof.
  unfold rx_test. destruct (rx_match web_start_re s) as [g|] eqn:E; [|done]. intros _.
  apply run_lang in E as (x & s' & _ & _ & -> & Hx & _).
  destruct Hx as (a & x1 & -> & Ha & b & x2 & -> & Hb & ->).
  apply lang_ci in Ha. exists (a ++ b), s'. rewrite <- !app_assoc. split; [done|]. rewrite map_app, Ha.
  destruct Hb as [Hb| ->]; [apply lang_ci in Hb; rewrite Hb|rewrite app_nil_r]; set_solver.
Qed.

Lemma first_of_elem {A} (l : list (option A)) x : first_of l = Some x → Some x ∈ l.
Proof.
  induction l as [|[y|] l IH]; cbn; [done|intros [= ->]; by left|intros E; right; by apply IH].
Qed.

Lemma findVideoURL_web n v u : findVideoURL n v = Some u → web_text u.
Proof.
  revert v u. induction n as [|n IH]; intros v u; [done|]. destruct v as [| | | |s|l|o]; cbn [findVideoURL]; try done.
  - destruct (truthy s && _) eqn:E; [|done]. intros [= <-]. apply andb_true_iff in E as [_ E]. by apply web_start_text.
  - intros (v & Ev & _)%first_of_elem%list_elem_of_fmap. by apply (IH v).
  - intros [(k & Ek & _)%list_elem_of_fmap|(v & Ev & _)%list_elem_of_fmap]%first_of_elem%elem_of_app; by eapply IH.
Qed.

(** A match of the whole pattern is its group 0. *)
Lemma match_zero r p s g pre p' s' :
  run (RGrp 0 r) p s [] (λ p' s' g, Some (g, [] : jsstr, p', s')) = Some (g, pre, p', s') →
  ∃ x, cap 0 g = Some x ∧ lang r x.
Proof.
  rewrite run_grp. intros (x & s1 & p1 & g1 & -> & Hx & E)%run_lang. injection E as <- _ _ _. exists x. split; [|done].
  rewrite length_app. replace (length x + length s1 - length s1)%nat with (length x) by lia. cbn. by rewrite take_app_length.
Qed.

Lemma group_zero r p s g pre p' s' :
  rx_find (RGrp 0 r) p s = Some (g, pre, p', s') → ∃ x, cap 0 g = Some x ∧ lang r x.
Proof.
  revert p pre. induction s as [|c s IH]; intros p pre; cbn [rx_find];
    (destruct (run (RGrp 0 r) p _ [] _) as [m|] eqn:E; [intros Em; injection Em as ->; by eapply match_zero|]).
  - done.
  - clear E. destruct (rx_find (RGrp 0 r) (Some c) s) as [[[[g1 pre1] p1] s1]|] eqn:Ef; [|done].
    intros [= -> <- -> ->]. by apply IH in Ef.
Qed.

Lemma all_group_zero fuel r p s gs g :
  rx_all fuel (RGrp 0 r) p s = Ok gs → g ∈ gs → ∃ x, cap 0 g = Some x ∧ lang r x.
Proof.
  revert p s gs. induction fuel as [|fuel IH]; intros p s gs; [done|]. cbn [rx_all].
  destruct (rx_find (RGrp 0 r) p s) as [[[[g1 pre] p1] s1]|] eqn:Ef; [|intros [= <-] ?%elem_of_nil; done].
  intros (gs' & Hgs & [= <-])%exc_bind_Ok [-> |Hin]%elem_of_cons; [by apply group_zero in Ef|by eapply IH].
Qed.

(** Punctuation is removed only after the start of the address. *)
Lemma punctuation_kept u : web_text u → web_text (rx_replace_first punctuation_re (λ _, []) u).
Proof.
  intros (scheme & rest & Eu & Hs). unfold rx_replace_first.
  destruct (rx_find punctuation_re None u) as [[[[g pre] p] s']|] eqn:Ef; [|by exists scheme, rest]. cbn [app].
  apply find_lang in Ef as (x & Ex & Hx).
  destruct Hx as (y & z & -> & (a & b & -> & (c & -> & Hc) & _) & _). bool_to_prop.
  assert (∀ d, d ∈ scheme ++ js "://" → d ∉ [41; 44; 46; 59; 93; 125]) as Hd.
  { assert (∀ d, ascii_lower d ∈ js "https" → d ∉ [41; 44; 46; 59; 93; 125]) as Hl.
    { intros d Hd%includes_elem Hin. set_unfold in Hin.
      destruct Hin as [->|[->|[->|[->|[->|[->|[]]]]]]]; vm_compute in Hd; discriminate. }
    intros d [Hd|Hd]%elem_of_app.
    - apply Hl. assert (ascii_lower d ∈ map ascii_lower scheme) as Hm by (apply list_elem_of_fmap; by exists d).
      set_unfold in Hs. destruct Hs as [Hs|[Hs|[]]]; rewrite Hs in Hm; [|done].
      change (js "https") with (js "http" ++ [115]). apply elem_of_app. by left.
    - change (js "://") with [58; 47; 47] in Hd. set_unfold. lia. }
  assert (∃ r, pre = (scheme ++ js "://") ++ r) as (r & ->).
  { rewrite Eu in Ex. cbn [app] in Ex. rewrite app_assoc in Ex.
    apply app_eq_app in Ex as (k & [[E1 E2]|[E1 _]]); [|by exists k].
    destruct k as [|d k]; [exists []; by rewrite app_nil_r in E1 |- *|].
    injection E2 as <- _. exfalso. apply (Hd c); [|done]. rewrite E1. set_solver. }
  exists scheme, (r ++ s'). by rewrite <- !app_assoc.
Qed.

(** The address of a video that is read from the answer of a chat model is
    a web address: reading one always ends, whatever the text is, and what is
    found starts with http or https. *)
Theorem prompt_video_is_web text :
  ∃ r, extractPromptVideoURL text = Ok r ∧ ∀ u, r = Some u → web_text u.
Proof.
  unfold extractPromptVideoURL. destruct (negb _); [by exists None|].
  destruct (json_parse _ ≫= findVideoURL 6) as [u|] eqn:Ej.
  - eexists. split; [reflexivity|]. intros u' [= <-]. apply bind_Some in Ej as (v & _ & Ev). by apply findVideoURL_web in Ev.
  - destruct (matches_return text_url_re (trim (from_opt [] text)) eq_refl) as (found & Ef). rewrite Ef. cbn [mbind exc_bind].
    eexists. split; [reflexivity|]. set (urls := filterb _ _). intros u Hu.
    assert (u ∈ urls) as Hin.
    { unfold or_else in Hu. destruct (find_first _ urls) as [w|] eqn:Ew.
      - injection Hu as ->. by apply find_first_Some in Ew as [Ew _].
      - destruct urls; [done|]. injection Hu as ->. by left. }
    apply filterb_elem in Hin as [(g & -> & Hg)%list_elem_of_fmap _]. apply punctuation_kept.
    destruct (all_group_zero _ _ _ _ _ _ Ef Hg) as (x & -> & Hx). by apply lang_web in Hx.
Qed.

(** ** The order of models *)

(** Putting an element in at a place and taking it out again. *)
Lemma put_at {A} (l : list A) n x :
  (n ≤ length l)%nat → (take n l ++ x :: drop n l) !! n = Some x ∧ delete n (take n l ++ x :: drop n l) = l.
Proof.
  intros Hn. assert (length (take n l) = n) as Hl by (rewrite length_take; lia). split.
  - by apply list_lookup_middle.
  - rewrite <- Hl at 1. rewrite delete_middle. by apply take_drop.
Qed.

(** Moving a model in the order of a mode puts that model at the place
    asked for, or at the nearest place there is, and changes nothing else: all
    other models keep their order.  A model that is not in the list moves
    nothing. *)
Theorem model_moved models modelId targetIndex :
  let next := moveCreationModel models modelId targetIndex in
  match find_index (λ m, str_eqb (cm_id m) modelId) models with
  | None => next = models
  | Some i =>
      ∃ m j, models !! i = Some m ∧ cm_id m = modelId ∧
        Z.of_nat j = Z.max 0 (Z.min targetIndex (Z.of_nat (length models) - 1)) ∧
        next !! j = Some m ∧ delete j next = delete i models
  end.
Proof.
  cbn zeta. unfold moveCreationModel. destruct (find_index _ models) as [i|] eqn:Ef; [|done].
  apply find_index_lookup in Ef as (m & Hm & Hid). apply bool_decide_eq_true in Hid.
  pose proof (lookup_lt_Some _ _ _ Hm) as Hlt.
  set (z := Z.max 0 (Z.min targetIndex (Z.of_nat (length models) - 1))). exists m, (Z.to_nat z).
  assert (Z.of_nat (Z.to_nat z) = z) as Hz by (unfold z; lia).
  split_and!; [done|done|done|..]; (destruct (length models <? 2)%nat eqn:E2;
    [apply Nat.ltb_lt in E2; assert (Z.to_nat z = i) as -> by (unfold z; lia); done|]);
    (destruct (i =? Z.to_nat z)%nat eqn:E3; [by apply Nat.eqb_eq in E3 as <-|]); rewrite Hm;
    rewrite <- delete_take_drop; apply put_at; rewrite length_delete by (by exists m); unfold z; lia.
Qed.

(** ** Items of the history *)

Definition reference_ok (r : CreationVideoReferenceValue) : Prop :=
  match r with
  | RefString s => units_ok s
  | RefObj o => units_ok (url o) ∧ opt_ok units_ok (previewUrl o) ∧ opt_ok num_ok (sizeBytes o) ∧ opt_ok num_ok (durationSeconds o)
  end.

(** Texts of 16-bit code units and numbers that JSON prints exactly. *)
Record submission_ok (s : Submission) : Prop := {
  so_time : num_ok (sub_createdAt s) ∧ regular (sub_createdAt s);
  so_texts : units_ok (sub_model s) ∧ units_ok (sub_prompt s);
  so_assets : Forall (λ a, units_ok (asset_id a) ∧ units_ok (asset_name a) ∧ units_ok (asset_type a) ∧
    num_ok (asset_size a) ∧ opt_ok units_ok (asset_text a)) (sub_assets s);
  so_image : opt_ok (λ o, units_ok (image_aspectRatio o) ∧ opt_ok units_ok (outputResolution o)) (sub_imageOptions s);
  so_images : opt_ok (Forall reference_ok) (sub_imageReferences s);
  so_video : opt_ok (λ o, units_ok (resolution o) ∧ units_ok (duration o) ∧ opt_ok units_ok (aspectRatio o)) (sub_videoOptions s);
  so_references : opt_ok (λ r, Forall reference_ok (imageUrls r) ∧ Forall reference_ok (videoUrls r) ∧
    Forall reference_ok (audioUrls r) ∧ reference_ok (audioUrl r) ∧ units_ok (startImageUrl r) ∧ units_ok (endImageUrl r))
    (sub_videoReferences s);
  so_estimate : opt_ok num_ok (sub_estimateSeconds s);
}.

(** An object literal with known keys. *)
Lemma literal_like o :
  bool_decide (NoDup (map fst o)) && forallb (λ kv, negb (is_some (array_index kv.1)) && unitsb kv.1) o = true →
  Forall (λ kv, json_like kv.2) o → json_like (VObj o).
Proof.
  intros [Hd Hk]%andb_true_iff Hv. apply json_like_obj. rewrite forallb_forall in Hk. split.
  - apply wf_decide. rewrite Hd. cbn [andb]. apply forallb_forall. intros kv Hin.
    by destruct (proj1 (andb_true_iff _ _) (Hk kv Hin)).
  - intros k v Hin. split.
    + apply list_elem_of_In in Hin. apply Hk, andb_true_iff in Hin as [_ Hu]. by apply unitsb_ok.
    + rewrite Forall_forall in Hv. by apply (Hv (k, v)).
Qed.

Ltac literal := apply literal_like; [vm_compute; reflexivity|repeat (apply Forall_cons; split; [cbn [snd]|]); [..|by apply Forall_nil]].

Lemma opt_value_like {A} (f : A → value) (P : A → Prop) o :
  opt_ok P o → (∀ x, P x → json_like (f x)) → json_like (opt_value f o).
Proof. destruct o as [x|]; [|done]. intros Hx Hf. by apply Hf. Qed.

Lemma reference_like r : reference_ok r → json_like (reference_value r).
Proof.
  destruct r as [s|o]; [done|]. intros (Hu & Hp & Hs & Hd). apply json_ok_like. cbn [reference_value].
  apply fields_json_ok; [vm_compute; reflexivity|].
  repeat (apply Forall_cons; split; [cbn [snd]|]); [done|..|by apply Forall_nil].
  - by destruct (previewUrl o).
  - by destruct (sizeBytes o).
  - by destruct (durationSeconds o).
Qed.

Lemma references_like l : Forall reference_ok l → json_like (VArr (map reference_value l)).
Proof. intros Hl. apply json_like_arr, Forall_map. eapply Forall_impl; [exact Hl|]. apply reference_like. Qed.

Lemma take_units n s : units_ok s → units_ok (take n s).
Proof. apply units_sub. intros c. apply subseteq_take. Qed.

Lemma asset_like a :
  units_ok (asset_id a) ∧ units_ok (asset_name a) ∧ units_ok (asset_type a) ∧ num_ok (asset_size a) ∧
  opt_ok units_ok (asset_text a) → json_like (asset_value a).
Proof.
  intros (H1 & H2 & H3 & H4 & H5). unfold asset_value. literal; try done. by apply (opt_value_like _ units_ok).
Qed.

Lemma enriched_fields s :
  submission_ok s →
  json_like (opt_value (λ o, VStr (duration o)) (sub_videoOptions s)) ∧
  json_like (opt_value VNum (sub_estimateSeconds s)) ∧ json_like (sub_resolution s).
Proof.
  intros [_ _ _ Hi _ Hv _ He]. split_and!.
  - eapply opt_value_like; [exact Hv|]. by intros o (_ & ? & _).
  - by apply (opt_value_like _ num_ok).
  - unfold sub_resolution. destruct (sub_imageOptions s) as [o|]; cbn in Hi |- *.
    + destruct Hi as [_ Hi]. destruct (outputResolution o); [done|]. eapply opt_value_like; [exact Hv|]. by intros ? (? & _).
    + eapply opt_value_like; [exact Hv|]. by intros ? (? & _).
Qed.

(** What the server may answer: JSON, with texts as its ids. *)
Definition answer_ok `{CaseMap} (outcome : obj + value) : Prop :=
  match outcome with
  | inl r => json_like (VObj r) ∧ ∀ k, k ∈ [js "taskId"; js "id"] → prop k r = VUndef ∨ ∃ t, prop k r = VStr t ∧ t ≠ []
  | inr error => units_ok (getCreationErrorMessage error)
  end.

Lemma submitted_result_like `{CaseMap} s outcome :
  submission_ok s → answer_ok outcome → json_like (VObj (submitted_result s outcome)).
Proof.
  intros Hs Ho. pose proof (enriched_fields s Hs) as (H1 & H2 & H3). destruct Hs as [[Ht _] [Hm _] _ _ _ _ _ _].
  destruct outcome as [r|error]; cbn [submitted_result].
  - destruct Ho as [Hr _]. apply json_like_spread; [|done].
    apply json_like_obj. literal; done.
  - unfold failed_result. literal; try done; try (by apply unitsb_ok; vm_compute).
    destruct (sub_mode s); by apply unitsb_ok; vm_compute.
Qed.

Lemma submitted_ids `{CaseMap} s outcome k :
  answer_ok outcome → k ∈ [js "taskId"; js "id"] →
  prop k (submitted_result s outcome) = VUndef ∨ ∃ t, prop k (submitted_result s outcome) = VStr t ∧ t ≠ [].
Proof.
  intros Ho Hk. destruct outcome as [r|error]; cbn [submitted_result].
  - destruct Ho as [_ Hr]. assert (prop k (enriched_result s r) = prop k r) as ->; [|by apply Hr].
    unfold enriched_result, spread. cbn [fold_left fst snd].
    set_unfold in Hk. destruct Hk as [->|[->|[]]]; by rewrite !prop_set_ne by other_key.
  - left. set_unfold in Hk. by destruct Hk as [->|[->|[]]].
Qed.

(** Whatever a submission ends with, an answer or an error, the item that
    the page puts into the history is one the history can hold: JSON carries
    it, it passes the check of loading, and it can be cleaned; so the theorems
    on the history apply to it. *)
Theorem submitted_items_storable `{CaseMap} s fallback outcome :
  submission_ok s → units_ok fallback → answer_ok outcome → storable (submitted_item s fallback outcome).
Proof.
  intros Hs Hf Ho. pose proof (submitted_result_like s outcome Hs Ho) as Hres.
  assert (∃ id, getCreationHistoryItemId (submitted_result s outcome) fallback = VStr id ∧ units_ok id) as (id & Eid & Hid).
  { pose proof (json_like_prop (js "taskId") _ Hres) as U1. pose proof (json_like_prop (js "id") _ Hres) as U2.
    unfold getCreationHistoryItemId, val_or.
    destruct (submitted_ids s outcome (js "taskId") Ho ltac:(set_solver)) as [E1|(t & E1 & Ht)]; rewrite E1 in U1 |- *.
    - cbn [val_truthy]. destruct (submitted_ids s outcome (js "id") Ho ltac:(set_solver)) as [E2|(t & E2 & Ht)];
        rewrite E2 in U2 |- *; [by exists fallback|]. destruct t; [done|]. by eexists.
    - destruct t; [done|]. by eexists. }
  destruct Hs as [[Ht Hr] [Hm Hp] Ha Hi Hrs Hv Hvr He]. unfold submitted_item, history_item. rewrite Eid.
  split.
  - literal; try done.
    + destruct (sub_mode s); by apply unitsb_ok; vm_compute.
    + apply json_like_arr, Forall_map. unfold getCreationAssetSnapshots. apply Forall_map.
      eapply Forall_impl; [exact Ha|]. intros a (A1 & A2 & A3 & A4 & A5). apply asset_like. cbn. split_and!; try done.
      destruct (asset_text a); [by apply take_units|done].
    + eapply opt_value_like; [exact Hi|]. intros o [O1 O2]. unfold options_value. literal; [done|].
      by destruct (outputResolution o).
    + eapply opt_value_like; [exact Hrs|]. intros l Hl. literal. by apply references_like.
    + eapply opt_value_like; [exact Hv|]. intros o (O1 & O2 & O3). unfold video_options_value. literal; [done|done|].
      by apply (opt_value_like _ units_ok).
    + eapply opt_value_like; [exact Hvr|]. intros r (R1 & R2 & R3 & R4 & R5 & R6). unfold references_value.
      literal; try done; [|by apply references_like..|by apply reference_like].
      destruct (referenceMode r); by apply unitsb_ok; vm_compute.
  - exists id, (sub_createdAt s). split; [|done]. split; try done; try by eexists.
    exists (mode_name (sub_mode s)). split; [done|]. destruct (sub_mode s); set_solver.
  - by eexists.
  - intros Htr. change (prop (js "videoReferences") _) with (opt_value references_value (sub_videoReferences s)) in Htr |- *.
    destruct (sub_videoReferences s); [|done]. by eexists.
Qed.

Definition sample_submission : Submission :=
  SubmissionOf (of_Z 1700000000000) ModeVideo (js "sora-2") (js "a cat") [] None None
    (Some (Options (js "720p") (js "5") None)) (Some EMPTY_CREATION_VIDEO_REFERENCES) (Some (of_Z 60)).

Lemma submitted_items_storable_witness :
  storable (submitted_item sample_submission (js "video-1-abc") (inl [(js "taskId", VStr (js "t1")); (js "status", VStr (js "queued"))])).
Proof.
  apply (submitted_items_storable sample_submission (js "video-1-abc")).
  - split.
    + split; [split; vm_compute; reflexivity|vm_compute; discriminate].
    + split; apply unitsb_ok; vm_compute; reflexivity.
    + apply Forall_nil. exact I.
    + exact I.
    + exact I.
    + split; [apply unitsb_ok; vm_compute; reflexivity|]. split; [apply unitsb_ok; vm_compute; reflexivity|exact I].
    + repeat split; try (apply Forall_nil; exact I); apply unitsb_ok; vm_compute; reflexivity.
    + split; vm_compute; reflexivity.
  - apply unitsb_ok. vm_compute. reflexivity.
  - split; [json_sample|]. intros k Hk. set_unfold in Hk. destruct Hk as [->|[->|[]]].
    + right. exists (js "t1"). split; [vm_compute; reflexivity|discriminate].
    + left. vm_compute. reflexivity.
Defined.
