(* ===== verification/SessionGuards.v ===== *)
(** * Guards kept in the storage of the browser

    Model of src/web/default/src/lib/chunk-load-recovery.ts (a page whose code
    cannot be loaded is reloaded, but not again and again) with the timer of
    routes/__root.tsx, and of lib/credit-purchase.ts (the purchase a user has
    begun, kept for a day, and the links of the shop).

    Times are integers of milliseconds.  [new URL] is a parameter; whether the
    browser lets a page read and write its storage is an argument. *)
From S2P Require Import Prelude JsString JsNumber Regex JsValue JsonFacts ResultParsers PlaygroundStorage.
From Stdlib Require Import SpecFloat.

Open Scope N_scope.

(** [now - x < limit] for a number [x]: integers that a double holds are
    subtracted exactly. *)
Definition elapsed_below (now : Z) (x : num) (limit : Z) : bool :=
  match to_Z x with
  | Some z => if (Z.abs z <=? 2 ^ 52)%Z then (now - z <? limit)%Z else nltb (nsub (of_Z now) x) (of_Z limit)
  | None => nltb (nsub (of_Z now) x) (of_Z limit)
  end.

(** [x > now]; comparing two integers is exact. *)
Definition later_than (x : num) (now : Z) : bool :=
  match to_Z x with Some z => (now <? z)%Z | None => nltb (of_Z now) x end.

(** ** Errors of loading code *)

Definition CHUNK_LOAD_RETRY_WINDOW_MS : Z := 60000.

(** What is thrown: an Error, or another value. *)
Inductive thrown :=
| ErrorObject (name message : jsstr) (cause : thrown)
| ThrownValue (v : value).

Definition join_texts (l : list jsstr) : jsstr := join [10] (filterb truthy l).

(** [fuel] is what remains of the depth: three at the top. *)
Fixpoint collect_value (fuel : nat) (v : value) : jsstr :=
  match fuel with
  | O => []
  | S fuel =>
      match v with
      | VUndef | VNull => []
      | VStr s => s
      | VObj o =>
          join_texts [collect_value fuel (prop (js "name") o); collect_value fuel (prop (js "message") o);
                      collect_value fuel (prop (js "cause") o)]
      | VArr _ => []
      | v => from_opt [] (to_string v)
      end
  end.

Fixpoint collectErrorText (fuel : nat) (error : thrown) : jsstr :=
  match fuel with
  | O => []
  | S fuel =>
      match error with
      | ErrorObject name message cause => join_texts [name; message; collectErrorText fuel cause]
      | ThrownValue v => collect_value (S fuel) v
      end
  end.

Definition any_char : re := RChr (λ c, negb (bool_decide (c ∈ [10; 13; 8232; 8233]))).

Definition CHUNK_LOAD_ERROR_PATTERNS : list re :=
  [rseq [RWord; ci_lit "chunkloaderror"; RWord];
   rseq [RWord; ci_lit "loading "; ROpt (ci_lit "css "); ci_lit "chunk"; RWord; RStar any_char; RWord; ci_lit "failed"; RWord];
   ci_lit "failed to fetch dynamically imported module";
   ci_lit "failed to load dynamically imported module";
   ci_lit "error loading dynamically imported module";
   ci_lit "importing a module script failed";
   ci_lit "failed to load module script"].

Definition isChunkLoadError (error : thrown) : bool :=
  let errorText := collectErrorText 3 error in
  existsb (λ r, is_some (rx_find r None errorText)) CHUNK_LOAD_ERROR_PATTERNS.

(** ** Reloading *)

Record ChunkLoadRetry := Retry { retry_timestamp : num; retry_url : jsstr }.

Definition parseRetry (v : option jsstr) : option ChunkLoadRetry :=
  match v with
  | None => None
  | Some text =>
      if negb (truthy text) then None
      else
        match json_parse text with
        | Some (VObj o) =>
            match prop (js "timestamp") o, prop (js "url") o with
            | VNum t, VStr u => Some (Retry t u)
            | _, _ => None
            end
        | _ => None
        end
  end.

(** What the page may do with its session storage. *)
Record storage_access := StorageAccess { can_read : bool; can_write : bool }.

Definition retry_value (now : Z) (url : jsstr) : value := VObj [(js "timestamp", VNum (of_Z now)); (js "url", VStr url)].

(** Whether the page is reloaded, and the stored text. *)
Definition recoverFromChunkLoadError (a : storage_access) (error : thrown) (href : jsstr) (now : Z) (stored : option jsstr)
    : bool * option jsstr :=
  if negb (isChunkLoadError error) then (false, stored)
  else if negb (can_read a) then (false, stored)
  else
    let alreadyRetriedRecently :=
      match parseRetry stored with
      | Some r => str_eqb (retry_url r) href && elapsed_below now (retry_timestamp r) CHUNK_LOAD_RETRY_WINDOW_MS
      | None => false
      end in
    if alreadyRetriedRecently then (false, stored)
    else if negb (can_write a) then (false, stored)
    else (true, stringify (retry_value now href)).

Definition clearChunkLoadRecovery (a : storage_access) (stored : option jsstr) : option jsstr :=
  if can_write a then None else stored.

(** A tab: its stored text, and when the page that is running was loaded. *)
Record tab := Tab { tab_stored : option jsstr; tab_loaded : Z }.

(** An error that reaches the boundary of the page at [href], the timer that
    the root starts when it is mounted, and a load of the page by the user. *)
Inductive tab_event :=
  | Failure (a : storage_access) (error : thrown) (href : jsstr) (now : Z)
  | TimerFires (a : storage_access) (now : Z)
  | PageLoads (now : Z).

Definition event_time (e : tab_event) : Z :=
  match e with Failure _ _ _ now | TimerFires _ now | PageLoads now => now end.

(** The URL that is reloaded, if any, and the tab after an event. *)
Definition tab_step (e : tab_event) (t : tab) : option jsstr * tab :=
  match e with
  | Failure a error href now =>
      let '(reload, stored) := recoverFromChunkLoadError a error href now (tab_stored t) in
      (if reload then Some href else None, Tab stored (if reload then now else tab_loaded t))
  | TimerFires a now => (None, Tab (clearChunkLoadRecovery a (tab_stored t)) (tab_loaded t))
  | PageLoads now => (None, Tab (tab_stored t) now)
  end.

(** The timer of a page fires a minute after it was loaded, and not after the
    page is left; time does not run backwards. *)
Definition tab_allowed (before : Z) (e : tab_event) (t : tab) : Prop :=
  (before <= event_time e)%Z ∧
  match e with TimerFires _ now => (tab_loaded t + 60000 <= now)%Z | _ => True end.

(** The URLs and times of the reloads of a run. *)
Inductive tab_run : Z → tab → list tab_event → list (jsstr * Z) → Prop :=
| run_nil before t : tab_run before t [] []
| run_step before t e es reloads :
    tab_allowed before e t →
    tab_run (event_time e) (tab_step e t).2 es reloads →
    tab_run before t (e :: es) (from_opt [] ((λ u, [(u, event_time e)]) <$> (tab_step e t).1) ++ reloads).

(** ** The purchase of credits *)

Definition CREDIT_PURCHASE_TIERS : list jsstr := [js "10"; js "20"; js "50"; js "100"; js "200"; js "other"].
Definition purchaseLifetime : Z := 24 * 60 * 60 * 1000.

Record CreditPurchaseIntent := Intent {
  intent_id : jsstr;
  intent_tier : jsstr;
  intent_userId : num;
  intent_createdAt : num;
}.

Definition intent_value (i : CreditPurchaseIntent) : value :=
  VObj [(js "id", VStr (intent_id i)); (js "tier", VStr (intent_tier i)); (js "userId", VNum (intent_userId i));
        (js "createdAt", VNum (intent_createdAt i))].

Definition parseCreditPurchaseIntent (raw : option jsstr) (now : Z) : option CreditPurchaseIntent :=
  match raw with
  | None => None
  | Some text =>
      if negb (truthy text) then None
      else
        match json_parse text with
        | Some (VObj o) =>
            match prop (js "id") o, prop (js "tier") o, prop (js "userId") o, prop (js "createdAt") o with
            | VStr id, VStr tier, VNum userId, VNum createdAt =>
                if negb (truthy id) || negb (includes tier CREDIT_PURCHASE_TIERS) || negb (is_integer userId)
                   || nleb userId (of_Z 0) || negb (is_finite createdAt) || later_than createdAt now
                   || negb (elapsed_below now createdAt purchaseLifetime)
                then None else Some (Intent id tier userId createdAt)
            | _, _, _, _ => None
            end
        | _ => None
        end
  end.

(** The variable of the module and the text in localStorage. *)
Record purchases := Purchases { fallbackSnapshot : option jsstr; local_text : option jsstr }.

Definition readCreditPurchaseSnapshot (a : storage_access) (p : purchases) : option jsstr :=
  if can_read a then local_text p else fallbackSnapshot p.

Definition writeCreditPurchaseSnapshot (a : storage_access) (v : option jsstr) (p : purchases) : purchases :=
  Purchases v (if can_write a then match v with Some s => if truthy s then Some s else None | None => None end
               else local_text p).

(** [id] is a random UUID. *)
Definition beginCreditPurchase (a : storage_access) (id tier : jsstr) (userId : num) (now : Z) (p : purchases) : purchases :=
  writeCreditPurchaseSnapshot a (stringify (intent_value (Intent id tier userId (of_Z now)))) p.

Definition clearCreditPurchase (a : storage_access) (id : option jsstr) (now : Z) (p : purchases) : purchases :=
  let other :=
    match id with
    | Some id =>
        truthy id &&
        match parseCreditPurchaseIntent (readCreditPurchaseSnapshot a p) now with
        | Some i => negb (str_eqb (intent_id i) id)
        | None => true
        end
    | None => false
    end in
  if other then p else writeCreditPurchaseSnapshot a None p.

(** [new URL(link)]: the protocol, the user and the password; [None] when it
    throws. *)
Class PurchaseUrls := url_parts : jsstr → option (jsstr * jsstr * jsstr).

Definition safe_link `{PurchaseUrls} (link : jsstr) : jsstr :=
  match url_parts link with
  | Some (protocol, username, password) =>
      if negb (includes protocol [js "http:"; js "https:"]) || truthy username || truthy password then [] else link
  | None => []
  end.

Definition normalizeCreditPurchaseLinks `{PurchaseUrls} (v : value) (legacyLink : jsstr) : list (jsstr * jsstr) :=
  let parsed := match v with VStr s => from_opt VNull (json_parse s) | _ => v end in
  let source := match parsed with VObj o => o | _ => [] end in
  map (λ tier,
    let link := match prop tier source with VStr s => trim s | _ => [] end in
    let link := if str_eqb tier (js "other") && negb (obj_has tier source) then trim legacyLink else link in
    (tier, safe_link link)) CREDIT_PURCHASE_TIERS.

(** ** Reloads are a minute apart *)

(** Times that JSON prints exactly, as all times of this epoch are. *)
Definition clock_ok (t : Z) : Prop := num_ok (of_Z t) ∧ to_Z (of_Z t) = Some t ∧ (Z.abs t <= 2 ^ 52)%Z.

Lemma elapsed_exact now t limit : clock_ok t → elapsed_below now (of_Z t) limit = (now - t <? limit)%Z.
Proof. intros (_ & E & Hb). unfold elapsed_below. rewrite E. by apply Z.leb_le in Hb as ->. Qed.

Lemma json_literal_read o :
  names_ok (map (λ kv, (kv.1, Some kv.2)) o) = true → Forall (λ kv, json_ok kv.2) o →
  ∃ text, stringify (VObj o) = Some text ∧ truthy text = true ∧ json_parse text = Some (VObj o).
Proof.
  intros Hn Ho. assert (fields_obj (map (λ kv, (kv.1, Some kv.2)) o) = o) as E.
  { clear. induction o as [|[k v] o IH]; [done|].
    change ((k, v) :: fields_obj (map (λ kv, (kv.1, Some kv.2)) o) = (k, v) :: o). by rewrite IH. }
  assert (json_ok (VObj o)) as Hok.
  { rewrite <- E. apply fields_json_ok; [done|]. by apply Forall_map. }
  destruct (json_parse_stringify _ Hok) as (text & Hs & Hp). exists text. split_and!; [done| |done].
  by apply (stringify_obj_nonempty o).
Qed.

Lemma retry_read now href :
  clock_ok now → units_ok href → parseRetry (stringify (retry_value now href)) = Some (Retry (of_Z now) href).
Proof.
  intros (Hn & _) Hh. unfold retry_value.
  destruct (json_literal_read [(js "timestamp", VNum (of_Z now)); (js "url", VStr href)]) as (text & -> & Ht & Hp).
  - vm_compute. reflexivity.
  - repeat (apply Forall_cons; split; [done|]). by apply Forall_nil.
  - unfold parseRetry. by rewrite Ht, Hp.
Qed.

(** After a reload of [href] at [t0]: its marker is there and the page was
    loaded then or later, or a minute has passed. *)
Definition guarded (href : jsstr) (t0 before : Z) (t : tab) : Prop :=
  (parseRetry (tab_stored t) = Some (Retry (of_Z t0) href) ∧ (t0 <= tab_loaded t)%Z ∧ (t0 <= before)%Z)
  ∨ (t0 + 60000 <= before)%Z.

Lemma recover_guarded a error href now stored t0 :
  clock_ok t0 → parseRetry stored = Some (Retry (of_Z t0) href) → (now - t0 < 60000)%Z →
  recoverFromChunkLoadError a error href now stored = (false, stored).
Proof.
  intros Hc Hp Hn. unfold recoverFromChunkLoadError. destruct (negb (isChunkLoadError error)); [done|].
  destruct (negb (can_read a)); [done|]. rewrite Hp. cbn [retry_url retry_timestamp].
  rewrite str_eqb_refl, elapsed_exact by done. unfold CHUNK_LOAD_RETRY_WINDOW_MS.
  by apply Z.ltb_lt in Hn as ->.
Qed.

Lemma recover_unchanged a error href now stored :
  (recoverFromChunkLoadError a error href now stored).1 = false →
  (recoverFromChunkLoadError a error href now stored).2 = stored.
Proof.
  unfold recoverFromChunkLoadError. destruct (negb (isChunkLoadError error)); [done|]. destruct (negb (can_read a)); [done|].
  destruct (match parseRetry _ with Some _ => _ | None => _ end); [done|]. by destruct (negb (can_write a)).
Qed.

Lemma step_guarded href t0 before e t :
  clock_ok t0 → tab_allowed before e t → guarded href t0 before t →
  match (tab_step e t).1 with
  | Some u => u = href → (t0 + 60000 <= event_time e)%Z
  | None => guarded href t0 (event_time e) (tab_step e t).2
  end.
Proof.
  intros Hc [Hb Ha] [(Hp & Hl & Hbe)|Hg].
  2: { destruct (tab_step e t).1; [intros _; lia|right; lia]. }
  destruct e as [a error u now|a now|now]; cbn [event_time tab_step] in *.
  - destruct (decide (u = href)) as [-> |Hne].
    + destruct (decide (now - t0 < 60000)%Z) as [Hn|Hn].
      * rewrite (recover_guarded a error href now _ t0) by done. left. cbn [fst snd tab_stored tab_loaded]. split_and!; [done|done|lia].
      * destruct (recoverFromChunkLoadError _ _ _ _ _) as [[] st]; cbn; [intros _; lia|right; lia].
    + pose proof (recover_unchanged a error u now (tab_stored t)) as Hu.
      destruct (recoverFromChunkLoadError _ _ _ _ _) as [[] st]; cbn [fst snd] in *; [done|]. rewrite Hu by done.
      left. cbn [fst snd tab_stored tab_loaded]. split_and!; [done|done|lia].
  - right. lia.
  - left. cbn [fst snd tab_stored tab_loaded]. split_and!; [done|lia|lia].
Qed.

(** The next reload of the same URL is a minute later. *)
Lemma run_guarded href before t es reloads t0 :
  clock_ok t0 → tab_run before t es reloads → guarded href t0 before t →
  match reloads with (u, r) :: _ => u = href → (t0 + 60000 <= r)%Z | [] => True end.
Proof.
  intros Hc Hr. induction Hr as [|before t e es reloads Ha _ IH]; intros Hg; [done|].
  pose proof (step_guarded href t0 before e t Hc Ha Hg) as Hs. destruct (tab_step e t).1; [exact Hs|by apply IH].
Qed.

Lemma reload_guards e t u :
  clock_ok (event_time e) → match e with Failure _ _ href _ => units_ok href | _ => True end →
  (tab_step e t).1 = Some u → guarded u (event_time e) (event_time e) (tab_step e t).2.
Proof.
  intros Hc Hh. destruct e as [a error href now|a now|now]; [|done..]. cbn [event_time tab_step] in *.
  unfold recoverFromChunkLoadError. destruct (negb (isChunkLoadError error)); [done|].
  destruct (negb (can_read a)); [done|]. destruct (match parseRetry _ with Some _ => _ | None => _ end); [done|].
  destruct (negb (can_write a)); [done|]. intros E%(inj Some). subst u. left. cbn [fst snd tab_stored tab_loaded].
  split; [by apply retry_read|]. split; lia.
Qed.

(** The times of this run are exact and its URLs are texts. *)
Definition event_ok (e : tab_event) : Prop :=
  clock_ok (event_time e) ∧ match e with Failure _ _ href _ => units_ok href | _ => True end.

(** Two reloads one after the other: of the same URL only after a minute. *)
Definition spaced (x y : jsstr * Z) : Prop := x.1 = y.1 → (x.2 + 60000 <= y.2)%Z.

Lemma same_url_spaced u reloads :
  Sorted spaced reloads → Forall (λ r, r.1 = u) reloads → StronglySorted (λ x y, (x.2 + 60000 <= y.2)%Z) reloads.
Proof.
  intros Hs Hu. apply Sorted_StronglySorted; [intros x y z; lia|].
  induction Hs as [|x l Hs IH Hx]; [constructor|]. apply Forall_cons in Hu as [Eu Hu]. constructor; [by apply IH|].
  destruct Hx as [|y l Hy]; constructor. apply Hy. apply Forall_cons in Hu as [-> _]. done.
Qed.

(** C36. A page whose code cannot be loaded does not reload in a loop: whatever
    errors the pages of a tab meet, one after the other, and however often their
    timers clear the marker, a reload is followed by another one of the same URL
    only after a minute; when all reloads are of one URL, any two of them are a
    minute apart.  A timer clears the marker no earlier than a minute after its
    page was loaded, as the root sets it, and reloads of different URLs are not
    kept apart. *)
Theorem reloads_spaced before t es reloads :
  Forall event_ok es → tab_run before t es reloads →
  Sorted spaced reloads ∧
  ∀ u, Forall (λ r, r.1 = u) reloads → StronglySorted (λ x y, (x.2 + 60000 <= y.2)%Z) reloads.
Proof.
  intros Hes Hr. assert (Sorted spaced reloads) as Hs; [|split; [done|intros u; by apply same_url_spaced]].
  induction Hr as [|before t e es reloads Ha Hr IH]; [constructor|]. apply Forall_cons in Hes as [[He Hh] Hes].
  destruct (tab_step e t).1 as [u|] eqn:E; cbn [fmap option_fmap option_map from_opt app]; [|by apply IH].
  constructor; [by apply IH|].
  pose proof (run_guarded u _ _ _ _ _ He Hr (reload_guards e t u He Hh E)) as Hg.
  destruct reloads as [|[u' r] reloads]; constructor. intros Eu. apply Hg. by symmetry.
Qed.

(** ** The purchase that was begun *)

(** The purchase [i], begun at [t], while its day lasts. *)
Definition in_its_day (t now : Z) (i : CreditPurchaseIntent) : option CreditPurchaseIntent :=
  if (t <=? now)%Z && (now <? t + purchaseLifetime)%Z then Some i else None.

Section Purchase.
Context (id tier : jsstr) (userId : num) (t : Z).
Context (Hid : units_ok id) (Hne : id ≠ []) (Htier : tier ∈ CREDIT_PURCHASE_TIERS).
Context (Hint : is_integer userId = true) (Hpos : nleb userId (of_Z 0) = false) (Huser : num_ok userId) (Hc : clock_ok t).

(** The text of a purchase is read as that purchase for a day. *)
Lemma intent_read :
  ∃ text, stringify (intent_value (Intent id tier userId (of_Z t))) = Some text ∧ truthy text = true ∧
    ∀ now, parseCreditPurchaseIntent (Some text) now = in_its_day t now (Intent id tier userId (of_Z t)).
Proof.
  pose proof Hc as (Hnum & Hz & _). assert (units_ok tier) as Htu.
  { assert (Forall (λ x, unitsb x = true) CREDIT_PURCHASE_TIERS) as Hall by (by repeat (constructor; [by vm_compute|])).
    rewrite Forall_forall in Hall. by apply unitsb_ok, Hall. }
  destruct (json_literal_read [(js "id", VStr id); (js "tier", VStr tier); (js "userId", VNum userId);
    (js "createdAt", VNum (of_Z t))]) as (text & Hs & Ht & Hp).
  { vm_compute. reflexivity. }
  { repeat (apply Forall_cons; split; [done|]). by apply Forall_nil. }
  exists text. split; [exact Hs|]. split; [exact Ht|]. intros now. unfold parseCreditPurchaseIntent, in_its_day. rewrite Ht, Hp.
  cbn [negb]. change (prop (js "id") _) with (VStr id). change (prop (js "tier") _) with (VStr tier).
  change (prop (js "userId") _) with (VNum userId). change (prop (js "createdAt") _) with (VNum (of_Z t)). cbv iota beta.
  unfold later_than. rewrite elapsed_exact, Hz, Hint, Hpos by done. destruct Hnum as [-> _].
  assert (includes tier CREDIT_PURCHASE_TIERS = true) as -> by (by apply includes_elem).
  assert (truthy id = true) as -> by (by destruct id). cbn [negb orb].
  destruct (Z.ltb_spec now t), (Z.leb_spec t now), (Z.ltb_spec (now - t) purchaseLifetime),
    (Z.ltb_spec now (t + purchaseLifetime)); cbn; try done; lia.
Qed.

End Purchase.

(** C37. The purchase that a user has begun last is found again for exactly a
    day, unless the storage can be read but not written: reading gives the
    purchase until a day after it was begun and nothing from then on, on the page
    that began it, and where the storage was written on every page that reads it.
    Clearing another purchase leaves it, clearing it (or any) removes it, and
    beginning another one replaces it.  In a storage that can be read but not
    written the page finds what was stored before instead. *)
Theorem purchase_kept_a_day (a : storage_access) id tier userId t now p :
  let i := Intent id tier userId (of_Z t) in
  let p' := beginCreditPurchase a id tier userId t p in
  let found q := parseCreditPurchaseIntent (readCreditPurchaseSnapshot a q) now in
  units_ok id → id ≠ [] → tier ∈ CREDIT_PURCHASE_TIERS → is_integer userId = true → nleb userId (of_Z 0) = false →
  num_ok userId → clock_ok t →
  (can_read a && negb (can_write a) = false →
   found p' = in_its_day t now i ∧
   (∀ other, other ≠ id → other ≠ [] → clearCreditPurchase a (Some other) now p' = p') ∧
   (found p' ≠ None → found (clearCreditPurchase a (Some id) now p') = None) ∧
   found (clearCreditPurchase a None now p') = None) ∧
  (can_write a = true → parseCreditPurchaseIntent (local_text p') now = in_its_day t now i) ∧
  (can_read a && negb (can_write a) = true → found p' = parseCreditPurchaseIntent (local_text p) now) ∧
  (∀ id2 tier2 userId2 t2,
     beginCreditPurchase a id2 tier2 userId2 t2 p' = beginCreditPurchase a id2 tier2 userId2 t2 p).
Proof.
  intros i p' found Hid Hne Htier Hint Hpos Huser Hc.
  destruct (intent_read id tier userId t Hid Hne Htier Hint Hpos Huser Hc) as (text & Hs & Ht & Hread).
  assert (p' = Purchases (Some text) (if can_write a then Some text else local_text p)) as Ep.
  { unfold p', beginCreditPurchase, writeCreditPurchaseSnapshot. rewrite Hs. by rewrite Ht. }
  assert (∀ b, found (writeCreditPurchaseSnapshot a None b) = if can_read a && negb (can_write a) then found b else None) as Hcl.
  { intros b. unfold found, readCreditPurchaseSnapshot, writeCreditPurchaseSnapshot. by destruct (can_read a), (can_write a). }
  assert (can_read a && negb (can_write a) = false → found p' = in_its_day t now i) as Hf.
  { intros Hro. unfold found, readCreditPurchaseSnapshot. rewrite Ep, <- Hread. cbn.
    by destruct (can_read a), (can_write a). }
  split_and!.
  - intros Hro. specialize (Hf Hro). split_and!; [done| | |].
    + intros other Ho Hne'. unfold clearCreditPurchase. fold (found p'). rewrite Hf.
      assert (truthy other = true) as -> by (by destruct other). cbn [andb]. unfold in_its_day.
      destruct ((t <=? now)%Z && _); [|done]. cbn [intent_id i]. by rewrite str_eqb_neq.
    + intros Hsome. unfold clearCreditPurchase. fold (found p'). rewrite Hf in *. unfold in_its_day in *.
      destruct ((t <=? now)%Z && _); [|done]. cbn [intent_id i]. by rewrite str_eqb_refl, andb_false_r, Hcl, Hro.
    + unfold clearCreditPurchase. by rewrite Hcl, Hro.
  - intros Hw. rewrite Ep, <- Hread. cbn. by rewrite Hw.
  - intros Hro. unfold found, readCreditPurchaseSnapshot. rewrite Ep. cbn. by destruct (can_read a), (can_write a).
  - intros. rewrite Ep. unfold beginCreditPurchase, writeCreditPurchaseSnapshot. cbn. by destruct (can_write a).
Qed.

(** ** Samples *)

Definition sample_error : thrown :=
  ErrorObject (js "TypeError") (js "Failed to fetch dynamically imported module: https://example.com/a.js") (ThrownValue VUndef).

Definition sample_page : jsstr := js "https://example.com/pricing".
Definition other_page : jsstr := js "https://example.com/wallet".

Definition sample_events : list tab_event :=
  let a := StorageAccess true true in
  [Failure a sample_error sample_page 1700000000000; Failure a sample_error sample_page 1700000030000;
   TimerFires a 1700000060000; PageLoads 1700000060500; Failure a sample_error sample_page 1700000061000;
   Failure a sample_error other_page 1700000062000].

Definition sample_reloads : list (jsstr * Z) :=
  [(sample_page, 1700000000000); (sample_page, 1700000061000); (other_page, 1700000062000)]%Z.

Lemma sample_run : tab_run 0 (Tab None 0) sample_events sample_reloads.
Proof.
  refine (run_step _ _ _ _ (tail sample_reloads) _ _); [by split|].
  refine (run_step _ _ _ _ (tail sample_reloads) _ _); [by split|].
  refine (run_step _ _ _ _ (tail sample_reloads) _ _); [by split; vm_compute|].
  refine (run_step _ _ _ _ (tail sample_reloads) _ _); [by split; vm_compute|].
  refine (run_step _ _ _ _ (tail (tail sample_reloads)) _ _); [by split|].
  refine (run_step _ _ _ _ [] _ _); [by split|]. apply run_nil.
Qed.

Lemma sample_events_ok : Forall event_ok sample_events.
Proof.
  assert (units_ok sample_page ∧ units_ok other_page) as [Hp Ho] by (split; apply unitsb_ok; vm_compute; reflexivity).
  assert (Forall (λ e, clock_ok (event_time e)) sample_events) as Hc
    by (repeat (apply Forall_cons; split; [repeat split; vm_compute; try reflexivity; discriminate|]); by apply Forall_nil).
  unfold sample_events in *. cbv zeta in *. apply Forall_cons in Hc as [H1 Hc]. apply Forall_cons in Hc as [H2 Hc].
  apply Forall_cons in Hc as [H3 Hc]. apply Forall_cons in Hc as [H4 Hc]. apply Forall_cons in Hc as [H5 Hc].
  apply Forall_cons in Hc as [H6 _].
  apply Forall_cons; split; [exact (conj H1 Hp)|]. apply Forall_cons; split; [exact (conj H2 Hp)|].
  apply Forall_cons; split; [exact (conj H3 I)|]. apply Forall_cons; split; [exact (conj H4 I)|].
  apply Forall_cons; split; [exact (conj H5 Hp)|]. apply Forall_singleton. exact (conj H6 Ho).
Qed.

Lemma reloads_spaced_witness : Sorted spaced sample_reloads.
Proof. exact (proj1 (reloads_spaced 0 (Tab None 0) sample_events sample_reloads sample_events_ok sample_run)). Defined.

Lemma purchase_kept_a_day_witness :
  let a := StorageAccess false false in
  let p := beginCreditPurchase a (js "id-1") (js "50") (of_Z 7) 1700000000000 (Purchases None None) in
  parseCreditPurchaseIntent (readCreditPurchaseSnapshot a p) 1700000000500
  = in_its_day 1700000000000 1700000000500 (Intent (js "id-1") (js "50") (of_Z 7) (of_Z 1700000000000)) ∧
  parseCreditPurchaseIntent (readCreditPurchaseSnapshot a p) 1700086400000 = None.
Proof.
  cbv zeta. split.
  - destruct (purchase_kept_a_day (StorageAccess false false) (js "id-1") (js "50") (of_Z 7) 1700000000000 1700000000500
      (Purchases None None)) as [H _];
      [by apply unitsb_ok; vm_compute|done|by apply includes_elem; vm_compute|by vm_compute|by vm_compute|by repeat split; vm_compute
      |by repeat split; vm_compute|]. exact (proj1 (H eq_refl)).
  - destruct (purchase_kept_a_day (StorageAccess false false) (js "id-1") (js "50") (of_Z 7) 1700000000000 1700086400000
      (Purchases None None)) as [H _];
      [by apply unitsb_ok; vm_compute|done|by apply includes_elem; vm_compute|by vm_compute|by vm_compute|by repeat split; vm_compute
      |by repeat split; vm_compute|]. rewrite (proj1 (H eq_refl)). vm_compute. reflexivity.
Defined.
