(* ===== verification/Notifications.v ===== *)
(** * Notifications

    Model of src/web/default/src/lib/notifications.ts (keys of notices and
    announcements, what is published, what is recent and unread),
    src/web/default/src/stores/notification-store.ts (which keys every viewer
    has read, merged with the storage that the tabs of a browser share) and
    the handlers of src/web/default/src/hooks/use-notifications.ts (the dialog
    that acknowledges them).

    Times are the integers of the server's clock. *)
From S2P Require Import Prelude JsString JsNumber JsValue JsonFacts.

Open Scope Z_scope.

(** [Date]: [date_parse] is [Date.parse] ([None] for NaN), [date_string] is
    [new Date(t).toDateString()] and [iso_string] is
    [new Date(t).toISOString()], which throws out of range. *)
Class DateApi := {
  date_parse : jsstr → option Z;
  date_string : Z → jsstr;
  iso_string : Z → option jsstr;
  date_string_ascii : ∀ t, is_ascii (date_string t);
  date_string_filled : ∀ t, date_string t ≠ [];
  iso_parse : ∀ t s, iso_string t = Some s → date_parse s = Some t;
}.

(** ** Keys *)

Definition hash_step (hash : Z) (c : N) : Z :=
  to_int32 (to_int32 (Z.shiftl hash 5) - hash + Z.of_N c).
Definition hash_code (input : jsstr) : Z := fold_left hash_step input 0.

(** [n.toString(36)] of an integer. *)
Definition digit36 (d : N) : N := (if d <? 10 then 48 + d else 87 + d)%N.
Fixpoint radix36_fuel (fuel : nat) (n : N) : jsstr :=
  match fuel with
  | O => []
  | S f => if (n <? 36)%N then [digit36 n] else radix36_fuel f (n / 36) ++ [digit36 (n mod 36)]
  end.
Definition radix36 (n : N) : jsstr := radix36_fuel (S (N.size_nat n)) n.
Definition radix36_Z (z : Z) : jsstr :=
  if z <? 0 then js "-" ++ radix36 (Z.to_N (- z)) else radix36 (Z.to_N z).

Definition hashString (input : jsstr) : jsstr := radix36_Z (hash_code input).

Definition Announcement : Type := obj.

Record Notice := { content : jsstr; published_at : Z }.

Record NotificationFeed := Feed {
  server_time : Z;
  feed_notice : Notice;
  feed_announcements : list value;
}.

Record NotificationSnapshot := Snapshot {
  snap_notice : Notice;
  snap_announcements : list Announcement;
}.

Record NotificationReadState := ReadState {
  readNoticeKeys : list jsstr;
  readAnnouncementKeys : list jsstr;
  closedUntilDate : option jsstr;
  closedNotificationKeys : list jsstr;
}.

Definition DAY_MS : Z := 24 * 60 * 60 * 1000.

Definition text_of (item : Announcement) (key : jsstr) : jsstr :=
  match prop key item with VStr s => trim s | _ => [] end.

Definition revision_text (item : Announcement) : jsstr :=
  from_opt [] (stringify (VObj [
    (js "publishDate", VStr (text_of item (js "publishDate")));
    (js "content", VStr (text_of item (js "content")));
    (js "extra", VStr (text_of item (js "extra")));
    (js "type", VStr (text_of item (js "type")));
    (js "title", VStr (text_of item (js "title")));
    (js "link", VStr (text_of item (js "link")))])).

(** The template literal throws when the identifier cannot become a string. *)
Definition getAnnouncementKey (item : Announcement) : exc jsstr :=
  let revision := hashString (revision_text item) in
  match prop (js "id") item with
  | VUndef | VNull => Ok (js "hash:" ++ revision)
  | id => match to_string id with
          | Some s => Ok (js "id:" ++ s ++ js ":" ++ revision)
          | None => Throw
          end
  end.

Definition getNoticeKey (notice : Notice) : jsstr :=
  js "notice:" ++ dec_Z (published_at notice) ++ js ":" ++ hashString (trim (content notice)).

(** ** Feeds *)

Section Dates.
Context `{DateApi}.

Definition publicationTime (item : Announcement) : Z :=
  match prop (js "publishDate") item with
  | VStr s => match date_parse s with Some t => t | None => 0 end
  | _ => 0
  end.

(** An element that is displayed: an object with a text. *)
Definition announcement_of (v : value) : option Announcement :=
  match v with
  | VObj o => match prop (js "content") o with VStr s => if truthy (trim s) then Some o else None | _ => None end
  | _ => None
  end.

(** [.sort((a, b) => publicationTime(b) - publicationTime(a))]. *)
Definition newest_first (l : list Announcement) : list Announcement :=
  sort_by (λ a b, publicationTime b <=? publicationTime a) l.

Definition getStatusAnnouncements (status : value) : list Announcement :=
  match status with
  | VObj o =>
      if val_truthy (prop (js "announcements_enabled") o) then
        match prop (js "announcements") o with
        | VArr l => newest_first (omap announcement_of l)
        | _ => []
        end
      else []
  | _ => []
  end.

Definition getPublishedNotifications (feed : NotificationFeed) : NotificationSnapshot :=
  let announcements :=
    filterb (λ item, publicationTime item <=? server_time feed)
      (getStatusAnnouncements
         (VObj [(js "announcements_enabled", VBool true); (js "announcements", VArr (feed_announcements feed))])) in
  let notice := feed_notice feed in
  let text := if server_time feed <? published_at notice * 1000 then [] else trim (content notice) in
  Snapshot {| content := text; published_at := published_at notice |} announcements.

Definition isRecent (now time : Z) : bool := (0 <? time) && (time <=? now) && (now - time <? DAY_MS).

(** [l.filter(f)] with a callback that can throw. *)
Fixpoint filter_exc {A : Type} (f : A → exc bool) (l : list A) : exc (list A) :=
  match l with
  | [] => Ok []
  | x :: l => b ← f x; r ← filter_exc f l; Ok (if (b : bool) then x :: r else r)
  end.

Definition no_notice : Notice := {| content := []; published_at := 0 |}.

Definition closed_keys (now : Z) (read : NotificationReadState) : list jsstr :=
  if bool_decide (closedUntilDate read = Some (date_string now)) then closedNotificationKeys read else [].

Definition announcement_unread (now : Z) (read : NotificationReadState) (item : Announcement) : exc bool :=
  key ← getAnnouncementKey item;
  Ok (isRecent now (publicationTime item) && negb (includes key (readAnnouncementKeys read))
      && negb (includes key (closed_keys now read))).

Definition getRecentUnreadNotifications (feed : NotificationFeed) (read : NotificationReadState)
    : exc (option NotificationSnapshot) :=
  let published := getPublishedNotifications feed in
  let now := server_time feed in
  let notice := snap_notice published in
  let noticeKey := getNoticeKey notice in
  let noticeUnread :=
    truthy (content notice) && isRecent now (published_at notice * 1000)
    && negb (includes noticeKey (readNoticeKeys read)) && negb (includes noticeKey (closed_keys now read)) in
  announcements ← filter_exc (announcement_unread now read) (snap_announcements published);
  if negb noticeUnread && (length announcements =? 0)%nat then Ok None
  else Ok (Some (Snapshot (if noticeUnread then notice else no_notice) announcements)).

Fixpoint map_exc {A B} (f : A → exc B) (l : list A) : exc (list B) :=
  match l with
  | [] => Ok []
  | x :: l => y ← f x; r ← map_exc f l; Ok (y :: r)
  end.

(** The keys of the notice, and of the announcements. *)
Definition getSnapshotKeys (snapshot : NotificationSnapshot) : exc (list jsstr * list jsstr) :=
  keys ← map_exc getAnnouncementKey (snap_announcements snapshot);
  Ok (if truthy (content (snap_notice snapshot)) then [getNoticeKey (snap_notice snapshot)] else [], keys).

Definition getSnapshotAnnouncements (snapshot : NotificationSnapshot) : exc (list Announcement) :=
  let notice := snap_notice snapshot in
  if truthy (content notice) then
    publishDate ← (if 0 <? published_at notice then
                     match iso_string (published_at notice * 1000) with Some s => Ok (VStr s) | None => Throw end
                   else Ok VUndef);
    Ok (newest_first (snap_announcements snapshot ++
          [[(js "content", VStr (content notice)); (js "type", VStr (js "ongoing")); (js "publishDate", publishDate)]]))
  else Ok (newest_first (snap_announcements snapshot)).

End Dates.

(** ** The store *)

Definition EMPTY_NOTIFICATION_READ_STATE : NotificationReadState := ReadState [] [] None [].

(** [readByViewer]: an object from viewers to their states. *)
Definition Viewers : Type := list (jsstr * NotificationReadState).

Definition viewer_get (k : jsstr) (vs : Viewers) : option NotificationReadState :=
  snd <$> find_first (λ e, str_eqb e.1 k) vs.
Fixpoint viewer_set (k : jsstr) (s : NotificationReadState) (vs : Viewers) : Viewers :=
  match vs with
  | [] => [(k, s)]
  | e :: vs => if str_eqb e.1 k then (k, s) :: vs else e :: viewer_set k s vs
  end.

(** [vs[k] ?? EMPTY_NOTIFICATION_READ_STATE]. *)
Definition viewer_state (k : jsstr) (vs : Viewers) : NotificationReadState :=
  from_opt EMPTY_NOTIFICATION_READ_STATE (viewer_get k vs).

(** A user has an identifier other than 0. *)
Definition getNotificationViewerKey (userId : N) : jsstr :=
  if (userId =? 0)%N then js "guest" else js "user:" ++ dec userId.

Definition union_keys (a b : list jsstr) : list jsstr := sort_strings (uniq (a ++ b)).

Definition strings (v : value) : list jsstr :=
  match v with
  | VArr l => omap (λ v, match v with VStr s => Some s | _ => None end) l
  | _ => []
  end.

(** [/^(guest|user:[0-9]+)$/.test(key)]. *)
Definition is_viewer_key (key : jsstr) : bool :=
  str_eqb key (js "guest")
  || (starts_with (js "user:") key && truthy (drop 5 key) && forallb is_digit (drop 5 key)).

(** The state of an entry: an object that is not null. *)
Definition state_members (v : value) : option obj :=
  match v with VObj o => Some o | VArr _ => Some [] | _ => None end.

Definition normalize_state (state : obj) : NotificationReadState :=
  let keys := strings (prop (js "readNoticeKeys") state) in
  let keys :=
    match prop (js "lastReadNotice") state with
    | VStr s => if truthy s then keys ++ [getNoticeKey {| content := s; published_at := 0 |}] else keys
    | _ => keys
    end in
  ReadState (union_keys keys []) (strings (prop (js "readAnnouncementKeys") state))
    (match prop (js "closedUntilDate") state with VStr s => Some s | _ => None end)
    (strings (prop (js "closedNotificationKeys") state)).

Definition normalize_entry (result : Viewers) (entry : jsstr * value) : Viewers :=
  if is_viewer_key entry.1 then
    match state_members entry.2 with
    | Some o => viewer_set entry.1 (normalize_state o) result
    | None => result
    end
  else result.

Definition normalizeViewers (v : value) : Viewers :=
  match v with VObj o => fold_left normalize_entry o [] | _ => [] end.

(** The object that the store holds. *)
Definition state_value (s : NotificationReadState) : value :=
  VObj [(js "readNoticeKeys", VArr (map VStr (readNoticeKeys s)));
        (js "readAnnouncementKeys", VArr (map VStr (readAnnouncementKeys s)));
        (js "closedUntilDate", match closedUntilDate s with Some d => VStr d | None => VNull end);
        (js "closedNotificationKeys", VArr (map VStr (closedNotificationKeys s)))].
Definition viewers_value (vs : Viewers) : value := VObj (map (λ e, (e.1, state_value e.2)) vs).

(** What the library persist writes for a state: JSON of an object with the
    members state and version. *)
Class PersistApi := {
  persist_text : value → jsstr;
  persist_read : ∀ state, json_ok state →
    ∃ o, json_parse (persist_text state) = Some (VObj o) ∧
         prop (js "state") o = state ∧ prop (js "version") o = VNum (of_Z 2);
}.

Section Store.
Context `{DateApi} `{PersistApi}.

(** [Date.parse(a || '') > Date.parse(b || '')]. *)
Definition closed_later (a b : option jsstr) : bool :=
  match date_parse (from_opt [] a), date_parse (from_opt [] b) with
  | Some x, Some y => y <? x
  | _, _ => false
  end.

Definition date_missing (d : option jsstr) : bool := match d with Some s => negb (truthy s) | None => true end.

Definition merge_states (current incoming : NotificationReadState) : NotificationReadState :=
  let closed :=
    if closed_later (closedUntilDate current) (closedUntilDate incoming) || date_missing (closedUntilDate incoming)
    then current else incoming in
  ReadState
    (union_keys (readNoticeKeys current) (readNoticeKeys incoming))
    (union_keys (readAnnouncementKeys current) (readAnnouncementKeys incoming))
    (closedUntilDate closed)
    (if bool_decide (closedUntilDate current = closedUntilDate incoming)
     then union_keys (closedNotificationKeys current) (closedNotificationKeys incoming)
     else closedNotificationKeys closed).

Definition merge_entry (result : Viewers) (entry : jsstr * NotificationReadState) : Viewers :=
  viewer_set entry.1 (merge_states (viewer_state entry.1 result) entry.2) result.

Definition mergeNotificationViewers (left right : value) : Viewers :=
  fold_left merge_entry (normalizeViewers right) (normalizeViewers left).

(** [v?.k]. *)
Definition maybe_member (k : jsstr) (v : value) : value := match v with VObj o => prop k o | _ => VUndef end.

(** The text under the key of the storage, if it can be read. *)
Definition readStoredViewers (raw : option jsstr) : value :=
  match raw with
  | Some text =>
      match json_parse text with
      | Some v => maybe_member (js "readByViewer") (maybe_member (js "state") v)
      | None => VUndef
      end
  | None => VUndef
  end.

(** [partialize], written by persist after every change. *)
Definition partialize (vs : Viewers) : value := VObj [(js "readByViewer", viewers_value vs)].

(** What the storage allows: reading and writing, reading only (writing
    throws), or nothing. *)
Inductive access := ReadWrite | ReadOnly | NoAccess.

Definition get_item (a : access) (storage : option jsstr) : option jsstr :=
  match a with NoAccess => None | _ => storage end.
Definition put_item (a : access) (text : jsstr) (storage : option jsstr) : option jsstr :=
  match a with ReadWrite => Some text | _ => storage end.

(** The memory of a tab, and the shared storage. *)
Record store := Store { memory : Viewers; storage : option jsstr }.

Definition updateViewer (a : access) (viewer : jsstr) (mutate : NotificationReadState → NotificationReadState) (s : store)
    : store :=
  let merged := mergeNotificationViewers (viewers_value (memory s)) (readStoredViewers (get_item a (storage s))) in
  let next := viewer_set viewer (mutate (viewer_state viewer merged)) merged in
  Store next (put_item a (persist_text (partialize next)) (storage s)).

Definition getReadState (a : access) (viewer : jsstr) (s : store) : NotificationReadState :=
  viewer_state viewer
    (mergeNotificationViewers (viewers_value (memory s)) (readStoredViewers (get_item a (storage s)))).

Definition add_notice_keys (keys : list jsstr) (s : NotificationReadState) : NotificationReadState :=
  ReadState (union_keys (readNoticeKeys s) keys) (readAnnouncementKeys s) (closedUntilDate s) (closedNotificationKeys s).
Definition add_announcement_keys (keys : list jsstr) (s : NotificationReadState) : NotificationReadState :=
  ReadState (readNoticeKeys s) (union_keys (readAnnouncementKeys s) keys) (closedUntilDate s) (closedNotificationKeys s).

Definition markNoticeRead (a : access) (viewer text : jsstr) (publishedAt : Z) : store → store :=
  updateViewer a viewer (add_notice_keys [getNoticeKey {| content := text; published_at := publishedAt |}]).

Definition markAnnouncementsRead (a : access) (viewer : jsstr) (keys : list jsstr) : store → store :=
  updateViewer a viewer (add_announcement_keys keys).

Definition acknowledge (noticeKeys announcementKeys : list jsstr) (closeToday : bool) (now : Z)
    (s : NotificationReadState) : NotificationReadState :=
  ReadState
    (union_keys (readNoticeKeys s) noticeKeys)
    (union_keys (readAnnouncementKeys s) announcementKeys)
    (if closeToday then Some (date_string now) else closedUntilDate s)
    (if closeToday then
       union_keys (if bool_decide (closedUntilDate s = Some (date_string now)) then closedNotificationKeys s else [])
         (noticeKeys ++ announcementKeys)
     else closedNotificationKeys s).

Definition acknowledgeSnapshot (a : access) (viewer : jsstr) (snapshot : NotificationSnapshot) (closeToday : bool)
    (now : Z) (s : store) : exc store :=
  keys ← getSnapshotKeys snapshot;
  Ok (updateViewer a viewer (acknowledge keys.1 keys.2 closeToday now) s).

(** The options of persist: [migrate] runs when the stored version is another
    number than the current one, [merge] when the stored state is read. *)
Definition migrate (v : value) (version : num) : value :=
  VObj [(js "readByViewer",
         if nleb (of_Z 1) version then viewers_value (normalizeViewers (maybe_member (js "readByViewer") v)) else VObj [])].

Definition merge_persisted (persisted : value) (current : Viewers) : Viewers :=
  mergeNotificationViewers (viewers_value current) (maybe_member (js "readByViewer") persisted).

(** The state of a stored text, and whether it was migrated; an unreadable
    text ends the hydration. *)
Definition persisted_state (raw : option jsstr) : option (value * bool) :=
  match raw with
  | None => Some (VUndef, false)
  | Some text =>
      v ← json_parse text;
      Some (match maybe_member (js "version") v with
            | VNum x => if neqb x (of_Z 2) then (maybe_member (js "state") v, false)
                        else (migrate (maybe_member (js "state") v) x, true)
            | _ => (maybe_member (js "state") v, false)
            end)
  end.

(** A migrated state is written back. *)
Definition rehydrate (a : access) (s : store) : store :=
  match persisted_state (get_item a (storage s)) with
  | None => s
  | Some (state, migrated) =>
      let next := merge_persisted state (memory s) in
      Store next (if migrated then put_item a (persist_text (partialize next)) (storage s) else storage s)
  end.

End Store.

(** ** The dialog *)

Inductive NotificationTab := NoticeTab | AnnouncementsTab.
Inductive session_kind := Automatic | Manual.

Record NotificationSession := Session {
  ns_viewerKey : jsstr;
  ns_kind : session_kind;
  ns_tab : NotificationTab;
  ns_snapshot : NotificationSnapshot;
}.

(** The hook in a tab of the browser: the viewer, the open session, the viewer
    whose dialog is being opened, the last feed, and the store. *)
Record hook := Hook {
  h_viewer : jsstr;
  h_session : option NotificationSession;
  h_manual : option jsstr;
  h_data : option NotificationFeed;
  h_store : store;
}.

Definition set_session (session : option NotificationSession) (h : hook) : hook :=
  Hook (h_viewer h) session (h_manual h) (h_data h) (h_store h).
Definition set_manual (manual : option jsstr) (h : hook) : hook :=
  Hook (h_viewer h) (h_session h) manual (h_data h) (h_store h).
Definition set_data (feed : NotificationFeed) (h : hook) : hook :=
  Hook (h_viewer h) (h_session h) (h_manual h) (Some feed) (h_store h).
Definition set_store (s : store) (h : hook) : hook :=
  Hook (h_viewer h) (h_session h) (h_manual h) (h_data h) s.

(** What the page tells when a request returns. *)
Record page := Page { active : bool; autoOpenRecent : bool; visible : bool; other_dialog : bool }.

Section Dialog.
Context `{DateApi} `{PersistApi}.

(** Unread notices and announcements of what is published. *)
Definition unreadCounts (published : option NotificationSnapshot) (read : NotificationReadState) : exc (nat * nat) :=
  match published with
  | None => Ok (0%nat, 0%nat)
  | Some p =>
      let notice :=
        if truthy (content (snap_notice p)) && negb (includes (getNoticeKey (snap_notice p)) (readNoticeKeys read))
        then 1%nat else 0%nat in
      unread ← filter_exc (λ item, key ← getAnnouncementKey item; Ok (negb (includes key (readAnnouncementKeys read))))
                 (snap_announcements p);
      Ok (notice, length unread)
  end.

(** The session that shows [snapshot] to the viewer belongs to him. *)
Definition session_here (h : hook) : bool :=
  match h_session h with Some s => str_eqb (ns_viewerKey s) (h_viewer h) | None => false end.

(** [refresh] after the request; [result] is the feed, if it arrived. *)
Definition refresh (a : access) (env : page) (result : option NotificationFeed) (h : hook) : exc hook :=
  match result with
  | None => Ok h
  | Some feed =>
      let h := set_data feed h in
      if negb (active env) || negb (autoOpenRecent env) || negb (visible env)
         || bool_decide (h_manual h = Some (h_viewer h)) || session_here h || other_dialog env then Ok h
      else
        unread ← getRecentUnreadNotifications feed (getReadState a (h_viewer h) (h_store h));
        Ok (match unread with
            | None => h
            | Some snapshot => set_session (Some (Session (h_viewer h) Automatic AnnouncementsTab snapshot)) h
            end)
  end.

(** The part of a snapshot that a tab shows. *)
Definition visible_part (tab : NotificationTab) (snapshot : NotificationSnapshot) : NotificationSnapshot :=
  match tab with
  | NoticeTab => Snapshot (snap_notice snapshot) []
  | AnnouncementsTab => Snapshot no_notice (snap_announcements snapshot)
  end.

(** The store after an acknowledgement; one that throws changes nothing. *)
Definition acknowledged (a : access) (viewer : jsstr) (snapshot : NotificationSnapshot) (today : bool) (now : Z)
    (s : store) : store :=
  match acknowledgeSnapshot a viewer snapshot today now s with Ok s' => s' | _ => s end.

Definition acknowledgeTab (a : access) (now : Z) (snapshot : NotificationSnapshot) (tab : NotificationTab) (h : hook)
    : hook :=
  set_store (acknowledged a (h_viewer h) (visible_part tab snapshot) false now (h_store h)) h.

(** What a closing dialog acknowledges. *)
Definition closing_snapshot (s : NotificationSession) : NotificationSnapshot :=
  match ns_kind s with Automatic => ns_snapshot s | Manual => visible_part (ns_tab s) (ns_snapshot s) end.

(** [now] is [Date.now()], used when no feed has arrived. *)
Definition closeDialog (a : access) (now : Z) (today : bool) (h : hook) : exc hook :=
  match h_session h with
  | Some closing =>
      if str_eqb (ns_viewerKey closing) (h_viewer h) then
        let time := match h_data h with Some feed => server_time feed | None => now end in
        s ← acknowledgeSnapshot a (h_viewer h) (closing_snapshot closing) today time (h_store h);
        Ok (set_session None (set_store s h))
      else Ok h
  | None => Ok h
  end.

(** [openDialog] before and after the request; [same]: the hook is mounted and
    the viewer is still logged in. *)
Definition openDialog (h : hook) : hook := set_manual (Some (h_viewer h)) h.

Definition reset_manual (h : hook) : hook :=
  if bool_decide (h_manual h = Some (h_viewer h)) then set_manual None h else h.

Definition target_tab (a : access) (tab : option NotificationTab) (snapshot : NotificationSnapshot) (h : hook)
    : NotificationTab :=
  let notice := snap_notice snapshot in
  let noticeUnread :=
    truthy (content notice)
    && negb (includes (getNoticeKey notice) (readNoticeKeys (getReadState a (h_viewer h) (h_store h)))) in
  match tab with
  | Some t => t
  | None =>
      if truthy (content notice) && (noticeUnread || (length (snap_announcements snapshot) =? 0)%nat)
      then NoticeTab else AnnouncementsTab
  end.

Definition openDialog_finish (a : access) (now : Z) (tab : option NotificationTab) (same : bool)
    (result : option NotificationFeed) (h : hook) : hook :=
  let h := match result with Some feed => set_data feed h | None => h end in
  reset_manual
    (if negb same then h
     else
       match h_data h with
       | None => h
       | Some feed =>
           let snapshot := getPublishedNotifications feed in
           let target := target_tab a tab snapshot h in
           acknowledgeTab a now snapshot target
             (set_session (Some (Session (h_viewer h) Manual target snapshot)) h)
       end).

Definition setActiveTab (a : access) (now : Z) (tab : NotificationTab) (h : hook) : hook :=
  match h_session h with
  | Some previous =>
      if str_eqb (ns_viewerKey previous) (h_viewer h) then
        let next := Session (ns_viewerKey previous) (ns_kind previous) tab (ns_snapshot previous) in
        acknowledgeTab a now (ns_snapshot next) tab (set_session (Some next) h)
      else h
  | None => h
  end.

End Dialog.
