(* ===== verification/NotificationFacts.v ===== *)
(** * Notifications: theorems

    The hash of the keys, what is recent and unread, the merge of read states
    as a join, and the tabs of a browser that share a storage. *)
From S2P Require Import Prelude JsString JsNumber JsValue JsonFacts Notifications.
From stdpp Require Import relations.

Open Scope Z_scope.

(** ** The hash *)

(** The polynomial that the hash computes, without bounds. *)
Definition hash_exact (s : jsstr) : Z := fold_left (λ h c, 31 * h + Z.of_N c) s 0.

Lemma to_int32_bounds z : - 2 ^ 31 ≤ to_int32 z < 2 ^ 31.
Proof.
  unfold to_int32, to_uint32. pose proof (Z.mod_pos_bound z (2 ^ 32)). destruct (Z.ltb_spec (z mod 2 ^ 32) (2 ^ 31)); lia.
Qed.

Lemma to_int32_cong x y : x mod 2 ^ 32 = y mod 2 ^ 32 → to_int32 x = to_int32 y.
Proof. intros E. unfold to_int32, to_uint32. by rewrite E. Qed.

Lemma to_int32_mod z : to_int32 z mod 2 ^ 32 = z mod 2 ^ 32.
Proof.
  unfold to_int32, to_uint32. destruct (_ <? _); [by rewrite Z.mod_mod|].
  by rewrite Zminus_mod, Z.mod_mod, Z.mod_same, Z.sub_0_r, Z.mod_mod by lia.
Qed.

Lemma hash_step_cong h h' c :
  h mod 2 ^ 32 = h' mod 2 ^ 32 → hash_step h c mod 2 ^ 32 = (31 * h' + Z.of_N c) mod 2 ^ 32.
Proof.
  intros E. unfold hash_step. rewrite to_int32_mod, Z.shiftl_mul_pow2 by lia.
  rewrite Zplus_mod, Zminus_mod, to_int32_mod, <- Zminus_mod, <- Zplus_mod.
  replace (h * 2 ^ 5 - h + Z.of_N c) with (31 * h + Z.of_N c) by lia.
  by rewrite Zplus_mod, Zmult_mod, E, <- Zmult_mod, <- Zplus_mod.
Qed.

Lemma hash_cong s h h' :
  h mod 2 ^ 32 = h' mod 2 ^ 32 →
  fold_left hash_step s h mod 2 ^ 32 = fold_left (λ h c, 31 * h + Z.of_N c) s h' mod 2 ^ 32.
Proof.
  revert h h'. induction s as [|c s IH]; intros h h' E; [done|]. cbn [fold_left]. apply IH. by apply hash_step_cong.
Qed.

Lemma hash_code_bounds s : - 2 ^ 31 ≤ hash_code s < 2 ^ 31.
Proof.
  unfold hash_code. assert (- 2 ^ 31 ≤ 0 < 2 ^ 31) as H by lia. revert H. generalize 0.
  induction s as [|c s IH]; intros h Hh; [done|]. cbn [fold_left]. apply IH, to_int32_bounds.
Qed.

Lemma to_int32_small z : - 2 ^ 31 ≤ z < 2 ^ 31 → to_int32 z = z.
Proof.
  intros Hz. unfold to_int32, to_uint32. destruct (Z.leb_spec 0 z).
  - rewrite Z.mod_small by lia. destruct (Z.ltb_spec z (2 ^ 31)); lia.
  - replace (z mod 2 ^ 32) with (z + 2 ^ 32) by (rewrite <- (Z.mod_add z 1), Z.mod_small; lia).
    destruct (Z.ltb_spec (z + 2 ^ 32) (2 ^ 31)); lia.
Qed.

(** ** Keys *)

Lemma union_elem a b x : x ∈ union_keys a b ↔ x ∈ a ∨ x ∈ b.
Proof. unfold union_keys, sort_strings. rewrite sort_by_elem, uniq_elem, elem_of_app. done. Qed.

Lemma strings_texts l : strings (VArr (map VStr l)) = l.
Proof. induction l as [|x l IH]; [done|]. cbn in *. by rewrite IH. Qed.

(** ** Viewers *)

Abbreviation viewer_keys vs := (map (fst : jsstr * NotificationReadState → jsstr) vs).

Lemma viewer_get_cons e vs k : viewer_get k (e :: vs) = if str_eqb e.1 k then Some e.2 else viewer_get k vs.
Proof. unfold viewer_get. cbn. by destruct (str_eqb e.1 k). Qed.

Lemma viewer_get_set k s vs : viewer_get k (viewer_set k s vs) = Some s.
Proof.
  induction vs as [|e vs IH]; cbn [viewer_set].
  - rewrite viewer_get_cons. cbn. by rewrite str_eqb_refl.
  - destruct (str_eqb e.1 k) eqn:E; rewrite viewer_get_cons; cbn; [by rewrite str_eqb_refl|by rewrite E].
Qed.

Lemma viewer_get_set_ne k k' s vs : k' ≠ k → viewer_get k' (viewer_set k s vs) = viewer_get k' vs.
Proof.
  intros Hne. assert (str_eqb k k' = false) as Hk by by apply bool_decide_eq_false.
  induction vs as [|e vs IH]; cbn [viewer_set].
  - rewrite viewer_get_cons. cbn. by rewrite Hk.
  - destruct (str_eqb e.1 k) eqn:E; rewrite !viewer_get_cons; cbn [fst snd]; [|by rewrite IH].
    apply bool_decide_eq_true in E as ->. by rewrite Hk.
Qed.

Lemma viewer_get_None k vs : viewer_get k vs = None ↔ k ∉ viewer_keys vs.
Proof.
  induction vs as [|e vs IH]; [split; [intros _ ?%elem_of_nil; done|done]|].
  rewrite viewer_get_cons. cbn [map]. rewrite elem_of_cons. destruct (str_eqb e.1 k) eqn:E.
  - apply bool_decide_eq_true in E as ->. naive_solver.
  - apply bool_decide_eq_false in E. rewrite IH. naive_solver.
Qed.

Lemma viewer_get_elem k s vs : viewer_get k vs = Some s → (k, s) ∈ vs.
Proof.
  induction vs as [|[k' s'] vs IH]; [done|]. rewrite viewer_get_cons. cbn [fst snd]. destruct (str_eqb k' k) eqn:E.
  - apply bool_decide_eq_true in E as ->. intros [= ->]. by left.
  - intros ?%IH. by right.
Qed.

Lemma viewer_set_keys k s vs :
  viewer_keys (viewer_set k s vs) = if bool_decide (k ∈ viewer_keys vs) then viewer_keys vs else viewer_keys vs ++ [k].
Proof.
  induction vs as [|e vs IH]; cbn [viewer_set]; [done|]. destruct (str_eqb e.1 k) eqn:E; cbn [map].
  - apply bool_decide_eq_true in E as ->. cbn. by rewrite bool_decide_true by left.
  - apply bool_decide_eq_false in E. rewrite IH. destruct (bool_decide_reflect (k ∈ viewer_keys vs)).
    + by rewrite bool_decide_true by by right.
    + by rewrite bool_decide_false by (rewrite elem_of_cons; naive_solver).
Qed.

Lemma viewer_set_elem k s vs e : e ∈ viewer_set k s vs → e = (k, s) ∨ e ∈ vs.
Proof.
  induction vs as [|e' vs IH]; cbn [viewer_set]; [rewrite list_elem_of_singleton; auto|].
  destruct (str_eqb e'.1 k); rewrite !elem_of_cons; naive_solver.
Qed.

(** A predicate on the states of viewers with distinct, valid keys. *)
Record viewers_all (P : NotificationReadState → Prop) (vs : Viewers) : Prop := {
  va_keys : Forall (λ e, is_viewer_key e.1 = true) vs;
  va_distinct : NoDup (viewer_keys vs);
  va_states : Forall (λ e, P e.2) vs;
}.

Lemma viewers_all_nil P : viewers_all P [].
Proof. split; constructor. Qed.

Lemma viewers_all_set P k s vs :
  is_viewer_key k = true → P s → viewers_all P vs → viewers_all P (viewer_set k s vs).
Proof.
  intros Hk Hs [Ha Hd Hp]. split.
  - rewrite Forall_forall in *. by intros e [->|He]%viewer_set_elem; [|apply Ha].
  - rewrite viewer_set_keys. case_bool_decide; [done|]. apply NoDup_app. split; [done|].
    split; [|apply NoDup_singleton]. set_solver.
  - rewrite Forall_forall in *. by intros e [->|He]%viewer_set_elem; [|apply Hp].
Qed.

Lemma viewers_all_impl (P Q : NotificationReadState → Prop) vs :
  (∀ s, P s → Q s) → viewers_all P vs → viewers_all Q vs.
Proof. intros Hpq [Ha Hd Hp]. split; [done..|]. eapply Forall_impl; [exact Hp|]. intros. by apply Hpq. Qed.

Lemma viewers_all_state (P : NotificationReadState → Prop) k vs :
  P EMPTY_NOTIFICATION_READ_STATE → viewers_all P vs → P (viewer_state k vs).
Proof.
  intros He [_ _ Hp]. unfold viewer_state. destruct (viewer_get k vs) as [s|] eqn:E; [|done].
  apply viewer_get_elem in E. rewrite Forall_forall in Hp. apply (Hp _ E).
Qed.

(** *** Normalised viewers *)

Lemma normalize_all_from (P : NotificationReadState → Prop) o acc :
  (∀ st, P (normalize_state st)) → viewers_all P acc → viewers_all P (fold_left normalize_entry o acc).
Proof.
  intros Hp. revert acc. induction o as [|[k v] o IH]; intros acc Ha; [done|]. cbn [fold_left]. apply IH.
  unfold normalize_entry. cbn [fst snd]. destruct (is_viewer_key k) eqn:Ek; [|done].
  destruct (state_members v); [|done]. by apply viewers_all_set.
Qed.

Lemma normalize_valid v : viewers_all (λ _, True) (normalizeViewers v).
Proof. destruct v; try apply viewers_all_nil. apply normalize_all_from; [done|apply viewers_all_nil]. Qed.

(** What the store becomes when it is read back. *)
Definition normal (s : NotificationReadState) : NotificationReadState :=
  ReadState (union_keys (readNoticeKeys s) []) (readAnnouncementKeys s) (closedUntilDate s) (closedNotificationKeys s).

Lemma normalize_state_value s : ∃ o, state_value s = VObj o ∧ normalize_state o = normal s.
Proof.
  destruct s as [rn ra cd cn]. eexists. split; [reflexivity|].
  cbn [readNoticeKeys readAnnouncementKeys closedUntilDate closedNotificationKeys]. unfold normalize_state.
  set (o := [_; _; _; _]). change (prop (js "readNoticeKeys") o) with (VArr (map VStr rn)).
  change (prop (js "lastReadNotice") o) with VUndef.
  change (prop (js "readAnnouncementKeys") o) with (VArr (map VStr ra)).
  change (prop (js "closedUntilDate") o) with (match cd with Some d => VStr d | None => VNull end).
  change (prop (js "closedNotificationKeys") o) with (VArr (map VStr cn)).
  rewrite !strings_texts. by destruct cd.
Qed.

Lemma viewer_set_new k s vs : k ∉ viewer_keys vs → viewer_set k s vs = vs ++ [(k, s)].
Proof.
  induction vs as [|e vs IH]; [done|]. cbn [map viewer_set]. rewrite elem_of_cons. intros Hn.
  destruct (str_eqb e.1 k) eqn:E; [apply bool_decide_eq_true in E as <-; naive_solver|]. rewrite IH by naive_solver. done.
Qed.

Lemma normalize_value_from vs acc :
  Forall (λ e, is_viewer_key e.1 = true) vs → NoDup (viewer_keys acc ++ viewer_keys vs) →
  fold_left normalize_entry (map (λ e, (e.1, state_value e.2)) vs) acc = acc ++ map (λ e, (e.1, normal e.2)) vs.
Proof.
  revert acc. induction vs as [|[k s] vs IH]; intros acc Hk Hd; [by rewrite app_nil_r|].
  apply Forall_cons in Hk as [Hk Hks]. cbn [map fold_left] in *. unfold normalize_entry at 2. cbn [fst snd] in *. rewrite Hk.
  destruct (normalize_state_value s) as (o & -> & Eo). cbn [state_members]. rewrite Eo, viewer_set_new.
  - rewrite IH; [by rewrite <- app_assoc|done|]. rewrite map_app, <- app_assoc. done.
  - apply NoDup_app in Hd as (_ & Hd & _). intros Hin. apply (Hd _ Hin). by left.
Qed.

Lemma normalize_value P vs :
  viewers_all P vs → normalizeViewers (viewers_value vs) = map (λ e, (e.1, normal e.2)) vs.
Proof. intros [Hk Hd _]. by apply (normalize_value_from vs []). Qed.

Lemma normalize_value_state P vs k :
  viewers_all P vs → viewer_state k (normalizeViewers (viewers_value vs)) = normal (viewer_state k vs).
Proof.
  intros Ha. rewrite (normalize_value P) by done. clear Ha. unfold viewer_state.
  induction vs as [|e vs IH]; [done|]. cbn [map]. rewrite !viewer_get_cons. cbn [fst snd]. by destruct (str_eqb e.1 k).
Qed.

(** ** Merging *)

Section Merge.
Context `{DateApi}.

Lemma merge_from_state right acc k :
  NoDup (viewer_keys right) →
  viewer_state k (fold_left merge_entry right acc) =
  match viewer_get k right with
  | Some incoming => merge_states (viewer_state k acc) incoming
  | None => viewer_state k acc
  end.
Proof.
  revert acc. induction right as [|[k' s] right IH]; intros acc Hd; [done|]. cbn [map fst] in Hd.
  apply NoDup_cons in Hd as [Hn Hd]. cbn [fold_left]. rewrite IH by done. rewrite viewer_get_cons. cbn [fst snd].
  unfold merge_entry. cbn [fst snd]. destruct (str_eqb k' k) eqn:E.
  - apply bool_decide_eq_true in E as ->. apply viewer_get_None in Hn as ->. unfold viewer_state at 1.
    by rewrite viewer_get_set.
  - apply bool_decide_eq_false in E. unfold viewer_state at 1 3. by rewrite viewer_get_set_ne by congruence.
Qed.

Lemma merge_viewer_state left right k :
  viewer_state k (mergeNotificationViewers left right) =
  match viewer_get k (normalizeViewers right) with
  | Some incoming => merge_states (viewer_state k (normalizeViewers left)) incoming
  | None => viewer_state k (normalizeViewers left)
  end.
Proof. apply merge_from_state. by destruct (normalize_valid right). Qed.

Lemma merge_all (P : NotificationReadState → Prop) left right :
  P EMPTY_NOTIFICATION_READ_STATE → (∀ a b, P a → P b → P (merge_states a b)) →
  viewers_all P (normalizeViewers left) → viewers_all P (normalizeViewers right) →
  viewers_all P (mergeNotificationViewers left right).
Proof.
  intros He Hm Hl Hr. unfold mergeNotificationViewers. revert Hl.
  generalize (normalizeViewers left). destruct Hr as [Hk _ Hp].
  induction (normalizeViewers right) as [|[k s] rs IH]; intros acc Ha; [done|].
  apply Forall_cons in Hk as [Hk Hks]. apply Forall_cons in Hp as [Hp Hps]. cbn [fold_left]. apply IH; [done|done|].
  apply viewers_all_set; [done| |done]. apply Hm; [|done]. by apply viewers_all_state.
Qed.

(** The two lists of keys that a viewer has read. *)
Inductive reading := Notices | Announcements.
Definition keys_of (r : reading) (s : NotificationReadState) : list jsstr :=
  match r with Notices => readNoticeKeys s | Announcements => readAnnouncementKeys s end.

Definition has_read (r : reading) (vs : Viewers) (k x : jsstr) : Prop := x ∈ keys_of r (viewer_state k vs).

Lemma merge_read r left right k x :
  has_read r (mergeNotificationViewers left right) k x ↔
  has_read r (normalizeViewers left) k x ∨ has_read r (normalizeViewers right) k x.
Proof.
  unfold has_read. rewrite merge_viewer_state. unfold viewer_state at 4.
  destruct (viewer_get k (normalizeViewers right)), r; cbn; try apply union_elem; rewrite elem_of_nil; naive_solver.
Qed.

Lemma value_read r P vs k x :
  viewers_all P vs → has_read r (normalizeViewers (viewers_value vs)) k x ↔ has_read r vs k x.
Proof.
  intros Ha. unfold has_read. rewrite (normalize_value_state P) by done. destruct r; cbn; [|done].
  rewrite union_elem, elem_of_nil. naive_solver.
Qed.

End Merge.

(** ** The stored text *)

Record state_units (s : NotificationReadState) : Prop := {
  su_notice : Forall units_ok (readNoticeKeys s);
  su_announcement : Forall units_ok (readAnnouncementKeys s);
  su_date : ∀ d, closedUntilDate s = Some d → units_ok d;
  su_closed : Forall units_ok (closedNotificationKeys s);
}.

Lemma viewer_key_cases k :
  is_viewer_key k = true → k = js "guest" ∨ ∃ ds, k = js "user:" ++ ds ∧ Forall (λ c, is_digit c = true) ds.
Proof.
  unfold is_viewer_key. intros [E|E]%orb_true_iff; [left; by apply bool_decide_eq_true in E|right].
  apply andb_true_iff in E as [[E _]%andb_true_iff Ed]. apply starts_with_spec in E as [ds ->]. exists ds. split; [done|].
  change (drop 5 (js "user:" ++ ds)) with ds in Ed. rewrite forallb_forall in Ed. apply Forall_forall.
  intros c Hc. by apply Ed, list_elem_of_In.
Qed.

Lemma digit_unit c : is_digit c = true → (c < 65536)%N.
Proof. unfold is_digit. rewrite andb_true_iff, !N.leb_le. lia. Qed.

Lemma viewer_key_units k : is_viewer_key k = true → units_ok k.
Proof.
  intros [->|(ds & -> & Hd)]%viewer_key_cases; [by apply unitsb_ok|]. apply Forall_app. split; [by apply unitsb_ok|].
  eapply Forall_impl; [exact Hd|]. intros c. apply digit_unit.
Qed.

Lemma viewer_key_index k : is_viewer_key k = true → array_index k = None.
Proof. intros [->|(ds & -> & _)]%viewer_key_cases; reflexivity. Qed.

Lemma texts_json_ok l : Forall units_ok l → json_ok (VArr (map VStr l)).
Proof. induction 1 as [|s l Hs _ IH]; [done|]. by split. Qed.

Lemma state_json_ok s : state_units s → json_ok (state_value s).
Proof.
  intros []. apply members_json_ok; [apply wf_decide; vm_compute; reflexivity|].
  intros k v. rewrite !elem_of_cons, elem_of_nil.
  assert (json_ok (match closedUntilDate s with Some d => VStr d | None => VNull end)) as Hd.
  { destruct (closedUntilDate s) eqn:E; [by apply su_date0|done]. }
  intros Hin. destruct_or! Hin; simplify_eq; (split; [apply unitsb_ok; vm_compute; reflexivity|]);
    [by apply texts_json_ok..|done|by apply texts_json_ok].
Qed.

Lemma viewers_json_ok vs : viewers_all state_units vs → json_ok (viewers_value vs).
Proof.
  intros [Hk Hd Hu]. apply members_json_ok.
  - apply wf_decide. apply andb_true_iff. split.
    + apply bool_decide_eq_true. by rewrite map_map.
    + rewrite forallb_forall. intros x Hx. apply in_map_iff in Hx as (e & <- & He).
      rewrite Forall_forall in Hk. cbn. by rewrite viewer_key_index by (by apply Hk, list_elem_of_In).
  - intros k v (e & [= -> ->] & He)%list_elem_of_fmap. rewrite Forall_forall in Hk, Hu. split.
    + by apply viewer_key_units, Hk.
    + by apply state_json_ok, Hu.
Qed.

Section Storage.
Context `{DateApi} `{PersistApi}.

(** A written text is read back. *)
Lemma stored_back vs :
  viewers_all state_units vs →
  ∃ o, json_parse (persist_text (partialize vs)) = Some (VObj o) ∧ prop (js "state") o = partialize vs ∧
       prop (js "version") o = VNum (of_Z 2).
Proof.
  intros Hv. assert (json_ok (partialize vs)) as Hj.
  { apply members_json_ok; [apply wf_decide; vm_compute; reflexivity|].
    intros k v. rewrite list_elem_of_singleton. intros [= -> ->].
    split; [by apply unitsb_ok|by apply viewers_json_ok]. }
  by apply persist_read.
Qed.

Lemma read_written vs :
  viewers_all state_units vs → readStoredViewers (Some (persist_text (partialize vs))) = viewers_value vs.
Proof. intros Hv. destruct (stored_back vs Hv) as (o & Ep & Es & _). unfold readStoredViewers. rewrite Ep. cbn [maybe_member]. by rewrite Es. Qed.

Lemma persisted_written vs :
  viewers_all state_units vs → persisted_state (Some (persist_text (partialize vs))) = Some (partialize vs, false).
Proof.
  intros Hv. destruct (stored_back vs Hv) as (o & Ep & Es & Eq). unfold persisted_state. rewrite Ep.
  cbn [mbind option_bind maybe_member]. by rewrite Eq, Es.
Qed.

End Storage.

(** ** Tabs of a browser *)

Lemma empty_units : state_units EMPTY_NOTIFICATION_READ_STATE.
Proof. split; cbn; try constructor. done. Qed.

Lemma units_union a b : Forall units_ok a → Forall units_ok b → Forall units_ok (union_keys a b).
Proof. rewrite !Forall_forall. intros Ha Hb x [?|?]%union_elem; auto. Qed.

Lemma normal_units s : state_units s → state_units (normal s).
Proof. intros []. split; cbn; try done. by apply units_union. Qed.

Lemma value_units vs : viewers_all state_units vs → viewers_all state_units (normalizeViewers (viewers_value vs)).
Proof.
  intros Ha. rewrite (normalize_value state_units) by done. destruct Ha as [Hk Hd Hu]. split.
  - by apply Forall_map.
  - by rewrite map_map.
  - apply Forall_map. eapply Forall_impl; [exact Hu|]. intros e. apply normal_units.
Qed.

Section Tabs.
Context `{DateApi} `{PersistApi}.

Lemma merge_units a b : state_units a → state_units b → state_units (merge_states a b).
Proof.
  intros [] []. split; cbn.
  - by apply units_union.
  - by apply units_union.
  - by destruct (_ || _).
  - case_bool_decide; [by apply units_union|]. by destruct (_ || _).
Qed.

(** What the storage says. *)
Definition stored_viewers (raw : option jsstr) : Viewers := normalizeViewers (readStoredViewers raw).

(** A storage without a text of another version. *)
Record storage_ok (raw : option jsstr) : Prop := {
  so_units : viewers_all state_units (stored_viewers raw);
  so_version : ∀ text v, raw = Some text → json_parse text = Some v → maybe_member (js "version") v = VNum (of_Z 2);
}.

Record store_ok (s : store) : Prop := {
  st_memory : viewers_all state_units (memory s);
  st_storage : storage_ok (storage s);
}.

(** Nothing that was read is forgotten. *)
Record grows (s s' : store) : Prop := {
  gr_memory : ∀ r k x, has_read r (memory s) k x → has_read r (memory s') k x;
  gr_storage : ∀ r k x, has_read r (stored_viewers (storage s)) k x → has_read r (stored_viewers (storage s')) k x;
}.

Lemma nothing_stored : stored_viewers None = [].
Proof. done. Qed.

Lemma get_item_units a raw : storage_ok raw → viewers_all state_units (stored_viewers (get_item a raw)).
Proof. intros [Hu _]. destruct a; [done|done|apply viewers_all_nil]. Qed.

Lemma written_storage_ok vs : viewers_all state_units vs → storage_ok (Some (persist_text (partialize vs))).
Proof.
  intros Hv. split.
  - unfold stored_viewers. rewrite read_written by done. by apply value_units.
  - intros text v [= <-] Ep. destruct (stored_back vs Hv) as (o & Ep' & _ & Eq). rewrite Ep in Ep'. by injection Ep' as ->.
Qed.

Lemma written_read r vs k x :
  viewers_all state_units vs →
  has_read r (stored_viewers (Some (persist_text (partialize vs)))) k x ↔ has_read r vs k x.
Proof. intros Hv. unfold stored_viewers. rewrite read_written by done. by eapply value_read. Qed.

(** A change of a state that forgets nothing. *)
Record inflating (mutate : NotificationReadState → NotificationReadState) : Prop := {
  in_keys : ∀ r s x, x ∈ keys_of r s → x ∈ keys_of r (mutate s);
  in_units : ∀ s, state_units s → state_units (mutate s);
}.

(** The viewers that an updateViewer starts from. *)
Definition merged_viewers (a : access) (s : store) : Viewers :=
  mergeNotificationViewers (viewers_value (memory s)) (readStoredViewers (get_item a (storage s))).

Lemma merged_units a s : store_ok s → viewers_all state_units (merged_viewers a s).
Proof.
  intros [Hm Hs]. apply merge_all; [apply empty_units|apply merge_units|by apply value_units|].
  by apply (get_item_units a) in Hs.
Qed.

Lemma merged_read a s r k x :
  store_ok s →
  has_read r (merged_viewers a s) k x ↔
  has_read r (memory s) k x ∨ has_read r (stored_viewers (get_item a (storage s))) k x.
Proof. intros [Hm _]. unfold merged_viewers. rewrite merge_read. by rewrite (value_read r state_units). Qed.

Lemma update_state a viewer mutate s k :
  viewer_state k (memory (updateViewer a viewer mutate s)) =
  (if bool_decide (k = viewer) then mutate else id) (viewer_state k (merged_viewers a s)).
Proof.
  unfold updateViewer. cbn [memory]. fold (merged_viewers a s). unfold viewer_state at 1. case_bool_decide as Hk.
  - subst. by rewrite viewer_get_set.
  - by rewrite viewer_get_set_ne.
Qed.

Lemma update_ok a viewer mutate s :
  is_viewer_key viewer = true → inflating mutate → store_ok s → store_ok (updateViewer a viewer mutate s).
Proof.
  intros Hk [_ Hu] Hs. assert (viewers_all state_units (memory (updateViewer a viewer mutate s))) as Hm.
  { apply viewers_all_set; [done| |by apply merged_units]. apply Hu, viewers_all_state; [apply empty_units|by apply merged_units]. }
  split; [done|]. destruct a; cbn [updateViewer storage put_item]; [by apply written_storage_ok|by destruct Hs..].
Qed.

Lemma update_read a viewer mutate s r k x :
  store_ok s → inflating mutate → has_read r (merged_viewers a s) k x → has_read r (memory (updateViewer a viewer mutate s)) k x.
Proof.
  intros Hs [Hi _] Hx. unfold has_read in *. rewrite update_state. case_bool_decide; [by apply Hi|done].
Qed.

Lemma update_grows a viewer mutate s :
  is_viewer_key viewer = true → inflating mutate → store_ok s → grows s (updateViewer a viewer mutate s).
Proof.
  intros Hk Hi Hs. assert (∀ r k x, has_read r (memory s) k x → has_read r (memory (updateViewer a viewer mutate s)) k x) as Hm.
  { intros r k x Hx. apply update_read; [done|done|]. apply merged_read; [done|by left]. }
  split; [done|]. intros r k x Hx. destruct a; cbn [updateViewer storage put_item]; [|done|done].
  apply written_read; [by destruct (update_ok ReadWrite viewer mutate s Hk Hi Hs)|].
  apply update_read; [done|done|]. apply merged_read; [done|by right].
Qed.

Lemma persisted_current raw st m :
  storage_ok raw → persisted_state raw = Some (st, m) →
  m = false ∧ maybe_member (js "readByViewer") st = readStoredViewers raw.
Proof.
  intros [_ Hv]. unfold persisted_state, readStoredViewers. destruct raw as [text|]; [|by intros [= <- <-]].
  specialize (Hv text). destruct (json_parse text) as [v|]; [|done]. cbn [mbind option_bind].
  rewrite (Hv v) by done. by intros [= <- <-].
Qed.

Lemma no_storage_ok : storage_ok None.
Proof. split; [apply viewers_all_nil|done]. Qed.

Lemma rehydrate_cases a s :
  store_ok s → rehydrate a s = s ∨ rehydrate a s = Store (merged_viewers a s) (storage s).
Proof.
  intros [_ Hs]. unfold rehydrate.
  destruct (persisted_state (get_item a (storage s))) as [[st m]|] eqn:E; [right|by left].
  apply persisted_current in E as [-> Ep]; [|by destruct a; [..|apply no_storage_ok]].
  unfold merge_persisted. by rewrite Ep.
Qed.

Lemma rehydrate_ok a s : store_ok s → store_ok (rehydrate a s) ∧ grows s (rehydrate a s).
Proof.
  intros Hs. destruct (rehydrate_cases a s Hs) as [-> | ->]; [by split|]. pose proof Hs as [Hm Hst]. split.
  - split; [by apply merged_units|done].
  - split; [|done]. intros r k x Hx. apply merged_read; [done|by left].
Qed.

(** *** Actions *)

Inductive action :=
  | MarkNotice (text : jsstr) (publishedAt : Z)
  | MarkAnnouncements (keys : list jsstr)
  | Acknowledge (snapshot : NotificationSnapshot) (closeToday : bool) (now : Z).

Definition act (a : access) (viewer : jsstr) (x : action) (s : store) : store :=
  match x with
  | MarkNotice text publishedAt => markNoticeRead a viewer text publishedAt s
  | MarkAnnouncements keys => markAnnouncementsRead a viewer keys s
  | Acknowledge snapshot closeToday now => acknowledged a viewer snapshot closeToday now s
  end.

(** The keys of announcements are strings of 16-bit units. *)
Definition snapshot_units (snapshot : NotificationSnapshot) : Prop :=
  ∀ ns ks, getSnapshotKeys snapshot = Ok (ns, ks) → Forall units_ok ks.
Definition action_ok (x : action) : Prop :=
  match x with
  | MarkNotice _ _ => True
  | MarkAnnouncements keys => Forall units_ok keys
  | Acknowledge snapshot _ _ => snapshot_units snapshot
  end.

Lemma digits36_units f n : units_ok (radix36_fuel f n).
Proof.
  assert (∀ d, (d < 36)%N → (digit36 d < 65536)%N) as Hd by (intros d; unfold digit36; destruct (N.ltb_spec d 10); lia).
  revert n. induction f as [|f IH]; intros n; [constructor|]. cbn [radix36_fuel]. destruct (N.ltb_spec n 36).
  - constructor; [by apply Hd|constructor].
  - apply Forall_app. split; [apply IH|]. constructor; [|constructor]. apply Hd. by apply N.mod_lt.
Qed.

Lemma dec_units n : units_ok (dec n).
Proof. eapply Forall_impl; [apply dec_digits|]. intros c. apply digit_unit. Qed.

Lemma notice_key_units notice : units_ok (getNoticeKey notice).
Proof.
  unfold getNoticeKey, hashString, radix36_Z, radix36. repeat (apply Forall_app; split); try (by apply unitsb_ok).
  - destruct (published_at notice); cbn [dec_Z]; try apply dec_units.
    apply Forall_app. split; [by apply unitsb_ok|apply dec_units].
  - destruct (_ <? _); [apply Forall_app; split; [by apply unitsb_ok|]|]; apply digits36_units.
Qed.

Lemma notice_keys_units snapshot ns ks : getSnapshotKeys snapshot = Ok (ns, ks) → Forall units_ok ns.
Proof.
  unfold getSnapshotKeys. intros E. apply exc_bind_Ok in E as (ks' & _ & E). injection E as <- <-.
  destruct (truthy _); [|constructor]. constructor; [apply notice_key_units|constructor].
Qed.

Lemma ascii_units s : is_ascii s → units_ok s.
Proof. intros Hs. eapply Forall_impl; [exact Hs|]. cbn. lia. Qed.

Lemma acknowledge_inflating ns ks today now :
  Forall units_ok ns → Forall units_ok ks → inflating (acknowledge ns ks today now).
Proof.
  intros Hn Hk. split.
  - intros [] s x Hx; cbn; apply union_elem; by left.
  - intros s []. split; cbn.
    + by apply units_union.
    + by apply units_union.
    + destruct today; [|done]. intros d [= <-]. apply ascii_units, date_string_ascii.
    + destruct today; [|done]. apply units_union; [by case_bool_decide|]. by apply Forall_app.
Qed.

Lemma notices_inflating keys : Forall units_ok keys → inflating (add_notice_keys keys).
Proof.
  intros Hk. split.
  - intros [] s x Hx; cbn; [apply union_elem; by left|done].
  - intros s []. split; cbn; try done. by apply units_union.
Qed.

Lemma announcements_inflating keys : Forall units_ok keys → inflating (add_announcement_keys keys).
Proof.
  intros Hk. split.
  - intros [] s x Hx; cbn; [done|apply union_elem; by left].
  - intros s []. split; cbn; try done. by apply units_union.
Qed.

Lemma grows_refl s : grows s s.
Proof. by split. Qed.

Lemma act_ok a viewer x s :
  is_viewer_key viewer = true → action_ok x → store_ok s → store_ok (act a viewer x s) ∧ grows s (act a viewer x s).
Proof.
  intros Hk Hx Hs. destruct x as [text at_|keys|snapshot today now]; cbn [act action_ok] in *.
  - split; [apply update_ok|apply update_grows]; try done; apply notices_inflating, Forall_singleton, notice_key_units.
  - split; [apply update_ok|apply update_grows]; try done; by apply announcements_inflating.
  - unfold acknowledged, acknowledgeSnapshot. destruct (getSnapshotKeys snapshot) as [[ns ks]| |] eqn:E;
      [|split; [done|apply grows_refl]..].
    cbn [mbind exc_bind fst snd]. split; [apply update_ok|apply update_grows]; try done;
      (apply acknowledge_inflating; [by eapply notice_keys_units|by eapply Hx]).
Qed.

(** *** Steps *)

(** The text in the storage, and the memories of the open tabs. *)
Record browser := Browser { shared : option jsstr; tabs : list Viewers }.

Inductive browser_step : browser → browser → Prop :=
  | step_open a raw ts :
      browser_step (Browser raw ts)
        (Browser (storage (rehydrate a (Store [] raw))) (ts ++ [memory (rehydrate a (Store [] raw))]))
  | step_act i m a viewer x raw ts :
      ts !! i = Some m → is_viewer_key viewer = true → action_ok x →
      browser_step (Browser raw ts)
        (Browser (storage (act a viewer x (Store m raw))) (<[i := memory (act a viewer x (Store m raw))]> ts))
  | step_rehydrate i m a raw ts :
      ts !! i = Some m →
      browser_step (Browser raw ts)
        (Browser (storage (rehydrate a (Store m raw))) (<[i := memory (rehydrate a (Store m raw))]> ts)).

Record browser_ok (b : browser) : Prop := {
  bo_shared : storage_ok (shared b);
  bo_tabs : Forall (viewers_all state_units) (tabs b);
}.

(** What was read before is read afterwards: in the storage, and in every tab. *)
Record keeps (b b' : browser) : Prop := {
  kp_shared : ∀ r k x, has_read r (stored_viewers (shared b)) k x → has_read r (stored_viewers (shared b')) k x;
  kp_tabs : ∀ i m, tabs b !! i = Some m →
    ∃ m', tabs b' !! i = Some m' ∧ ∀ r k x, has_read r m k x → has_read r m' k x;
}.

Lemma keeps_refl b : keeps b b.
Proof. split; [done|]. intros i m Hm. by exists m. Qed.

Lemma keeps_trans b c d : keeps b c → keeps c d → keeps b d.
Proof.
  intros [H1 H2] [H3 H4]. split; [auto|]. intros i m Hm. destruct (H2 i m Hm) as (m' & Hm' & Hr).
  destruct (H4 i m' Hm') as (m'' & Hm'' & Hr'). exists m''. split; [done|auto].
Qed.

(** A tab that changes its store. *)
Lemma tab_step raw ts i m s' :
  browser_ok (Browser raw ts) → ts !! i = Some m → store_ok s' ∧ grows (Store m raw) s' →
  browser_ok (Browser (storage s') (<[i := memory s']> ts)) ∧
  keeps (Browser raw ts) (Browser (storage s') (<[i := memory s']> ts)).
Proof.
  intros [Hs Ht] Hi [[Hm' Hs'] [Hg1 Hg2]]. split.
  - split; [done|]. by apply Forall_insert.
  - split; [done|]. cbn [tabs] in *. intros j m0 Hj. destruct (decide (i = j)) as [<-|Hne].
    + exists (memory s'). rewrite list_lookup_insert_eq by (by eapply lookup_lt_Some). split; [done|]. by simplify_eq.
    + exists m0. by rewrite list_lookup_insert_ne.
Qed.

Lemma tab_store raw ts i m : browser_ok (Browser raw ts) → ts !! i = Some m → store_ok (Store m raw).
Proof. intros [Hs Ht] Hi. split; [|done]. by eapply Forall_lookup_1. Qed.

Lemma step_keeps b b' : browser_step b b' → browser_ok b → browser_ok b' ∧ keeps b b'.
Proof.
  intros [a raw ts|i m a viewer x raw ts Hi Hk Hx|i m a raw ts Hi] Hb.
  - destruct Hb as [Hs Ht]. destruct (rehydrate_ok a (Store [] raw)) as [[Hm' Hs'] [_ Hg]]; [split; [apply viewers_all_nil|done]|].
    split; split; try done.
    + apply Forall_app. by split; [|apply Forall_singleton].
    + cbn [tabs]. intros i m Hi. exists m. split; [|done]. by apply lookup_app_l_Some.
  - apply tab_step with m; [done|done|]. apply act_ok; [done|done|]. by eapply tab_store.
  - apply tab_step with m; [done|done|]. apply rehydrate_ok. by eapply tab_store.
Qed.

Lemma steps_keep b b' : rtc browser_step b b' → browser_ok b → browser_ok b' ∧ keeps b b'.
Proof.
  induction 1 as [b|b c d Hbc _ IH]; intros Hb; [by split; [|apply keeps_refl]|].
  destruct (step_keeps b c Hbc Hb) as [Hc Hk]. destruct (IH Hc) as [Hd Hk']. split; [done|by eapply keeps_trans].
Qed.

End Tabs.
