(* ===== verification/NotificationProps.v ===== *)
(** * Notifications: what is shown

    What is recent and unread, what an acknowledgement hides, and the dialog
    that opens by itself. *)
From S2P Require Import Prelude JsString JsNumber JsValue JsonFacts Notifications NotificationFacts.
From stdpp Require Import relations gmap.

Open Scope Z_scope.

(** ** Filters *)

Lemma filter_exc_sublist {A} (f : A → exc bool) l r : filter_exc f l = Ok r → r `sublist_of` l.
Proof.
  revert r. induction l as [|x l IH]; intros r E; cbn [filter_exc] in E; [by injection E as <-|].
  apply exc_bind_Ok in E as (b & _ & E). apply exc_bind_Ok in E as (r' & Er & E). injection E as <-.
  apply IH in Er. destruct b; by constructor.
Qed.

Lemma filter_exc_elem {A} (f : A → exc bool) l r :
  filter_exc f l = Ok r → ∀ x, x ∈ r ↔ x ∈ l ∧ f x = Ok true.
Proof.
  revert r. induction l as [|y l IH]; intros r E x; cbn [filter_exc] in E.
  { injection E as <-. rewrite elem_of_nil. naive_solver. }
  apply exc_bind_Ok in E as (b & Eb & E). apply exc_bind_Ok in E as (r' & Er & E). injection E as <-.
  specialize (IH r' Er x). rewrite elem_of_cons. destruct b.
  - rewrite elem_of_cons, IH. naive_solver.
  - rewrite IH. split; [naive_solver|]. intros [[->|?] Ht]; [congruence|done].
Qed.

Lemma filter_exc_total {A} (f : A → exc bool) l r : filter_exc f l = Ok r → ∀ x, x ∈ l → ∃ b, f x = Ok b.
Proof.
  revert r. induction l as [|y l IH]; intros r E x Hx; [by apply elem_of_nil in Hx|]. cbn [filter_exc] in E.
  apply exc_bind_Ok in E as (b & Eb & E). apply exc_bind_Ok in E as (r' & Er & E).
  apply elem_of_cons in Hx as [->|Hx]; [by exists b|by apply (IH r')].
Qed.

Lemma filter_exc_none {A} (f : A → exc bool) l : (∀ x, x ∈ l → f x = Ok false) → filter_exc f l = Ok [].
Proof.
  induction l as [|x l IH]; intros Hf; [done|]. cbn [filter_exc]. rewrite Hf by left. cbn [mbind exc_bind].
  rewrite IH; [done|]. intros y Hy. apply Hf. by right.
Qed.

Lemma StronglySorted_sublist {A} (R : A → A → Prop) l k : l `sublist_of` k → StronglySorted R k → StronglySorted R l.
Proof.
  induction 1 as [|x l k Hs IH|x l k Hs IH]; intros Hk; [done|..]; inversion Hk as [|?? Hk' Hf]; subst; [|by apply IH].
  constructor; [by apply IH|]. rewrite Forall_forall in *. intros y Hy. by apply Hf, (elem_of_sublist _ _ _ Hy).
Qed.

Section Recent.
Context `{DateApi}.

(** The announcements of a feed, newest first. *)
Definition later_or_same (a b : Announcement) : Prop := publicationTime b ≤ publicationTime a.

Lemma newest_sorted l : StronglySorted later_or_same (newest_first l).
Proof.
  pose proof (sort_by_Sorted (λ a b : Announcement, publicationTime b <=? publicationTime a)) as Hs.
  assert (StronglySorted (rel_of (λ a b : Announcement, publicationTime b <=? publicationTime a)) (newest_first l)) as Hl.
  { apply Hs.
    - intros x y. destruct (Z.leb_spec (publicationTime y) (publicationTime x)); [by left|right]. apply Z.leb_le. lia.
    - intros x y z. rewrite !Z.leb_le. lia. }
  induction Hl as [|x l' _ IH Hf]; constructor; [done|]. eapply Forall_impl; [exact Hf|].
  intros y. unfold rel_of, later_or_same. by rewrite Z.leb_le.
Qed.

(** An announcement with a text, already published, of the feed. *)
Definition published_item (feed : NotificationFeed) (item : Announcement) : Prop :=
  VObj item ∈ feed_announcements feed ∧ (∃ s, prop (js "content") item = VStr s ∧ trim s ≠ []) ∧
  publicationTime item ≤ server_time feed.

Lemma status_announcements l :
  getStatusAnnouncements (VObj [(js "announcements_enabled", VBool true); (js "announcements", VArr l)])
  = newest_first (omap announcement_of l).
Proof. reflexivity. Qed.

Lemma announcement_of_elem v item :
  announcement_of v = Some item ↔ v = VObj item ∧ ∃ s, prop (js "content") item = VStr s ∧ trim s ≠ [].
Proof.
  unfold announcement_of. destruct v as [| | | | | |o]; try (split; [done|by intros [? _]]).
  destruct (prop (js "content") o) as [| | | |s| |] eqn:E; try (split; [done|intros ([= ->] & s & Es & _); congruence]).
  destruct (trim s) as [|c t] eqn:Et; cbn [truthy]; split.
  - done.
  - intros ([= ->] & s' & Es & Hs). rewrite E in Es. injection Es as <-. by rewrite Et in Hs.
  - intros [= <-]. split; [done|]. exists s. by rewrite Et.
  - by intros [[= ->] _].
Qed.

Lemma published_elem feed item :
  item ∈ snap_announcements (getPublishedNotifications feed) ↔ published_item feed item.
Proof.
  unfold getPublishedNotifications, published_item. cbn [snap_announcements].
  rewrite filterb_elem, status_announcements, Z.leb_le. unfold newest_first. rewrite sort_by_elem, list_elem_of_omap.
  setoid_rewrite announcement_of_elem. naive_solver.
Qed.

Lemma published_sorted feed : StronglySorted later_or_same (snap_announcements (getPublishedNotifications feed)).
Proof.
  unfold getPublishedNotifications. cbn [snap_announcements]. rewrite status_announcements.
  eapply StronglySorted_sublist; [apply filterb_sublist|apply newest_sorted].
Qed.

(** The notice of a feed is unread. *)
Definition notice_unread (feed : NotificationFeed) (read : NotificationReadState) : Prop :=
  let notice := snap_notice (getPublishedNotifications feed) in
  content notice ≠ [] ∧ 0 < published_at notice * 1000 ≤ server_time feed ∧
  server_time feed - published_at notice * 1000 < DAY_MS ∧
  (getNoticeKey notice ∉ readNoticeKeys read) ∧ (getNoticeKey notice ∉ closed_keys (server_time feed) read).

(** An announcement of a feed is recent and unread. *)
Definition item_unread (feed : NotificationFeed) (read : NotificationReadState) (item : Announcement) : Prop :=
  published_item feed item ∧ 0 < publicationTime item ∧ server_time feed - publicationTime item < DAY_MS ∧
  ∃ key, getAnnouncementKey item = Ok key ∧ (key ∉ readAnnouncementKeys read) ∧ (key ∉ closed_keys (server_time feed) read).

Lemma isRecent_spec now t : isRecent now t = true ↔ 0 < t ≤ now ∧ now - t < DAY_MS.
Proof. unfold isRecent. rewrite !andb_true_iff, !Z.ltb_lt, Z.leb_le. lia. Qed.

Lemma negb_includes (x : jsstr) l : negb (includes x l) = true ↔ x ∉ l.
Proof. rewrite negb_true_iff. unfold includes. apply bool_decide_eq_false. Qed.

Lemma announcement_unread_spec feed read item :
  item ∈ snap_announcements (getPublishedNotifications feed) ∧
    announcement_unread (server_time feed) read item = Ok true
  ↔ item_unread feed read item.
Proof.
  rewrite published_elem. unfold announcement_unread, item_unread. split.
  - intros [Hp E]. apply exc_bind_Ok in E as (key & Ek & E). injection E as E.
    rewrite !andb_true_iff, isRecent_spec, !negb_includes in E. destruct E as [[[? ?] ?] ?].
    split; [done|]. split; [lia|]. split; [lia|]. by exists key.
  - intros (Hp & Ht & Hd & key & Ek & Hr & Hc). split; [done|]. rewrite Ek. cbn [mbind exc_bind]. f_equal.
    rewrite !andb_true_iff, isRecent_spec, !negb_includes. destruct Hp as (_ & _ & Hp). split_and!; try done; lia.
Qed.

(** What a call shows. *)
Definition shown_announcements (r : option NotificationSnapshot) : list Announcement :=
  match r with Some s => snap_announcements s | None => [] end.
Definition shown_notice (r : option NotificationSnapshot) : Notice :=
  match r with Some s => snap_notice s | None => no_notice end.

Lemma recent_cases feed read r :
  getRecentUnreadNotifications feed read = Ok r →
  filter_exc (announcement_unread (server_time feed) read) (snap_announcements (getPublishedNotifications feed))
    = Ok (shown_announcements r) ∧
  ((notice_unread feed read ∧ shown_notice r = snap_notice (getPublishedNotifications feed)) ∨
   (¬ notice_unread feed read ∧ shown_notice r = no_notice)) ∧
  (r = None ↔ ¬ notice_unread feed read ∧ shown_announcements r = []).
Proof.
  unfold getRecentUnreadNotifications. set (notice := snap_notice _). set (b := truthy _ && _ && _ && _).
  assert (b = true ↔ notice_unread feed read) as Hb.
  { unfold b, notice_unread. fold notice. rewrite !andb_true_iff, isRecent_spec, !negb_includes.
    assert (truthy (content notice) = true ↔ content notice ≠ []) as -> by (by destruct (content notice)).
    naive_solver. }
  intros E. apply exc_bind_Ok in E as (l & El & E).
  assert (l = shown_announcements r ∧ shown_notice r = (if b then notice else no_notice) ∧
    (r = None ↔ b = false ∧ l = [])) as (-> & Hn & Hr).
  { destruct b, l; cbn in E; injection E as <-; cbn; naive_solver. }
  split; [done|]. rewrite Hn. split; [destruct b; [left|right]; naive_solver|]. rewrite Hr.
  destruct b; naive_solver.
Qed.

End Recent.

(** ** Acknowledged keys *)

Section Shown.
Context `{DateApi} `{PersistApi}.

Lemma map_exc_elem {A B} (f : A → exc B) l r : map_exc f l = Ok r → ∀ y, y ∈ r ↔ ∃ x, x ∈ l ∧ f x = Ok y.
Proof.
  revert r. induction l as [|x l IH]; intros r E y; cbn [map_exc] in E.
  { injection E as <-. rewrite elem_of_nil. setoid_rewrite elem_of_nil. naive_solver. }
  apply exc_bind_Ok in E as (b & Eb & E). apply exc_bind_Ok in E as (r' & Er & E). injection E as <-.
  rewrite elem_of_cons, (IH r' Er). setoid_rewrite elem_of_cons. split.
  - intros [->|(x' & Hx' & Ex')]; [exists x; auto|exists x'; auto].
  - intros (x' & [->|Hx'] & Ex'); [left; congruence|right; by exists x'].
Qed.

(** The keys of a snapshot. *)
Definition snapshot_key (r : reading) (snapshot : NotificationSnapshot) (x : jsstr) : Prop :=
  match r with
  | Notices => content (snap_notice snapshot) ≠ [] ∧ x = getNoticeKey (snap_notice snapshot)
  | Announcements => ∃ item, item ∈ snap_announcements snapshot ∧ getAnnouncementKey item = Ok x
  end.

Lemma snapshot_keys snapshot ns ks :
  getSnapshotKeys snapshot = Ok (ns, ks) →
  (∀ x, x ∈ ns ↔ snapshot_key Notices snapshot x) ∧ (∀ x, x ∈ ks ↔ snapshot_key Announcements snapshot x).
Proof.
  unfold getSnapshotKeys. intros E. apply exc_bind_Ok in E as (l & El & E). injection E as <- <-. split.
  - intros x. cbn [snapshot_key]. destruct (content (snap_notice snapshot)); cbn [truthy].
    + rewrite elem_of_nil. naive_solver.
    + rewrite list_elem_of_singleton. naive_solver.
  - intros x. by apply map_exc_elem.
Qed.

(** The keys that an acknowledgement adds. *)
Lemma acknowledge_keys r ns ks today now s snapshot x :
  getSnapshotKeys snapshot = Ok (ns, ks) →
  x ∈ keys_of r (acknowledge ns ks today now s) ↔ x ∈ keys_of r s ∨ snapshot_key r snapshot x.
Proof. intros [Hn Hk]%snapshot_keys. destruct r; cbn [keys_of acknowledge readNoticeKeys readAnnouncementKeys]; by rewrite union_elem, ?Hn, ?Hk. Qed.

Lemma read_state_keys a s r k x :
  store_ok s →
  x ∈ keys_of r (getReadState a k s) ↔
  has_read r (memory s) k x ∨ has_read r (stored_viewers (get_item a (storage s))) k x.
Proof. intros Hs. apply (merged_read a s r k x Hs). Qed.

(** The read state after an acknowledgement. *)
Lemma acknowledged_keys a viewer snapshot today now s s' r k x :
  is_viewer_key viewer = true → snapshot_units snapshot → store_ok s →
  acknowledgeSnapshot a viewer snapshot today now s = Ok s' →
  x ∈ keys_of r (getReadState a k s') ↔
  x ∈ keys_of r (getReadState a k s) ∨ (k = viewer ∧ snapshot_key r snapshot x).
Proof.
  intros Hk Hu Hs E. unfold acknowledgeSnapshot in E. apply exc_bind_Ok in E as ([ns ks] & Ek & E).
  cbn [fst snd] in E. injection E as <-.
  assert (inflating (acknowledge ns ks today now)) as Hi.
  { apply acknowledge_inflating; [by eapply notice_keys_units|by eapply Hu]. }
  pose proof (update_ok a viewer _ s Hk Hi Hs) as Hs'. rewrite !read_state_keys by done.
  assert (has_read r (memory (updateViewer a viewer (acknowledge ns ks today now) s)) k x ↔
    has_read r (merged_viewers a s) k x ∨ (k = viewer ∧ snapshot_key r snapshot x)) as Hm.
  { unfold has_read. rewrite update_state. case_bool_decide as Hv; [rewrite (acknowledge_keys _ _ _ _ _ _ _ _ Ek)|];
      cbn [id]; naive_solver. }
  rewrite Hm, merged_read by done. destruct a; cbn [updateViewer storage put_item get_item]; [|naive_solver..].
  rewrite written_read by (by destruct Hs'). cbn [memory updateViewer] in Hm. rewrite Hm, merged_read by done. naive_solver.
Qed.

(** *** Nothing is left to show *)

(** A read state that read_covers what was shown. *)
Record read_covers (now : Z) (r : option NotificationSnapshot) (read read' : NotificationReadState) : Prop := {
  cv_read : ∀ k x, x ∈ keys_of k read → x ∈ keys_of k read';
  cv_shown : ∀ s k x, r = Some s → snapshot_key k s x → x ∈ keys_of k read';
  cv_closed : ∀ x, x ∈ closed_keys now read → x ∈ closed_keys now read';
}.

Lemma covered_item feed read read' r item :
  getRecentUnreadNotifications feed read = Ok r → read_covers (server_time feed) r read read' → ¬ item_unread feed read' item.
Proof.
  intros E [Hr Hs Hc] (Hp & H1 & H2 & key & Ek & Hnr & Hnc).
  destruct (recent_cases feed read r E) as (El & _ & _).
  assert (item_unread feed read item) as Hi.
  { split; [done|]. split; [done|]. split; [done|]. exists key. split; [done|].
    split; [by intros ?%(Hr Announcements)|by intros ?%Hc]. }
  apply announcement_unread_spec in Hi. apply (filter_exc_elem _ _ _ El) in Hi.
  destruct r as [s|]; [|by apply elem_of_nil in Hi]. apply Hnr, (Hs s Announcements); [done|]. by exists item.
Qed.

Lemma covered_notice feed read read' r :
  getRecentUnreadNotifications feed read = Ok r → read_covers (server_time feed) r read read' → ¬ notice_unread feed read'.
Proof.
  intros E [Hr Hs Hc] (Hne & H1 & H2 & Hnr & Hnc).
  destruct (recent_cases feed read r E) as (_ & [[Hn Hsn]|[Hn _]] & _).
  - destruct r as [s|]; cbn [shown_notice] in Hsn.
    + apply Hnr, (Hs s Notices); [done|]. cbn. by rewrite Hsn.
    + by rewrite <- Hsn in Hne.
  - apply Hn. split; [done|]. split; [done|]. split; [done|]. split; [by intros ?%(Hr Notices)|by intros ?%Hc].
Qed.

Lemma recent_none feed read r :
  getRecentUnreadNotifications feed read = Ok r →
  ¬ notice_unread feed read → (∀ item, ¬ item_unread feed read item) → r = None.
Proof.
  intros E Hn Hi. destruct (recent_cases feed read r E) as (El & _ & ->). split; [done|].
  destruct (shown_announcements r) as [|item l]; [done|]. exfalso. apply (Hi item).
  apply announcement_unread_spec, (filter_exc_elem _ _ _ El). by left.
Qed.

Lemma recent_returns feed read r read' :
  getRecentUnreadNotifications feed read = Ok r → ∃ r', getRecentUnreadNotifications feed read' = Ok r'.
Proof.
  intros E. destruct (recent_cases feed read r E) as (El & _).
  assert (∀ x, x ∈ snap_announcements (getPublishedNotifications feed) → ∃ key, getAnnouncementKey x = Ok key) as Hk.
  { intros x Hx. destruct (filter_exc_total _ _ _ El x Hx) as [b Eb]. unfold announcement_unread in Eb.
    apply exc_bind_Ok in Eb as (key & Ek & _). by exists key. }
  unfold getRecentUnreadNotifications.
  assert (∃ l, filter_exc (announcement_unread (server_time feed) read')
    (snap_announcements (getPublishedNotifications feed)) = Ok l) as [l ->].
  { induction (snap_announcements (getPublishedNotifications feed)) as [|x l IH] in Hk |- *; [by exists []|].
    destruct (Hk x) as [key Ek]; [by left|]. destruct IH as [l' El']; [intros y Hy; apply Hk; by right|].
    assert (∃ b, announcement_unread (server_time feed) read' x = Ok b) as [b Eb]
      by (unfold announcement_unread; rewrite Ek; by eexists).
    cbn [filter_exc]. rewrite Eb. cbn [mbind exc_bind]. rewrite El'. by eexists. }
  cbn [mbind exc_bind]. destruct (_ && _); by eexists.
Qed.

Lemma covered_quiet feed read read' r :
  getRecentUnreadNotifications feed read = Ok r → read_covers (server_time feed) r read read' →
  getRecentUnreadNotifications feed read' = Ok None.
Proof.
  intros E Hc. destruct (recent_returns feed read r read' E) as [r' E']. rewrite E'. f_equal.
  apply (recent_none feed read' r' E'); [exact (covered_notice _ _ _ _ E Hc)|].
  intros item. exact (covered_item _ _ _ _ item E Hc).
Qed.

(** *** The state after a successful write *)

Lemma viewer_get_mapped (f : NotificationReadState → NotificationReadState) k vs :
  viewer_get k (map (λ e, (e.1, f e.2)) vs) = f <$> viewer_get k vs.
Proof.
  induction vs as [|e vs IH]; [done|]. cbn [map]. rewrite !viewer_get_cons. cbn [fst snd]. by destruct (str_eqb e.1 k).
Qed.

Lemma update_read_state viewer mutate s :
  is_viewer_key viewer = true → inflating mutate → store_ok s →
  let st := normal (mutate (getReadState ReadWrite viewer s)) in
  getReadState ReadWrite viewer (updateViewer ReadWrite viewer mutate s) = merge_states st st.
Proof.
  intros Hk Hi Hs st. pose proof (update_ok ReadWrite viewer mutate s Hk Hi Hs) as [Hm _].
  unfold getReadState at 1. rewrite merge_viewer_state.
  assert (readStoredViewers (get_item ReadWrite (storage (updateViewer ReadWrite viewer mutate s)))
    = viewers_value (memory (updateViewer ReadWrite viewer mutate s))) as -> by (by apply read_written).
  rewrite (normalize_value_state state_units), (normalize_value state_units), viewer_get_mapped by done.
  rewrite update_state, bool_decide_true by done. unfold updateViewer at 1. cbn [memory]. by rewrite viewer_get_set.
Qed.

Lemma merged_same_closed now st : ∀ x, x ∈ closed_keys now (merge_states (normal st) (normal st)) ↔ x ∈ closed_keys now st.
Proof.
  intros x. unfold closed_keys, merge_states. cbn [closedUntilDate closedNotificationKeys normal].
  rewrite (bool_decide_true (closedUntilDate st = closedUntilDate st)) by done.
  assert (∀ b : bool, (if b then normal st else normal st) = normal st) as -> by (by intros []).
  cbn [closedUntilDate normal]. destruct (bool_decide _); [|done]. rewrite union_elem. naive_solver.
Qed.

Lemma merged_same_keys r st x : x ∈ keys_of r (merge_states (normal st) (normal st)) ↔ x ∈ keys_of r st.
Proof.
  destruct r; cbn [keys_of merge_states normal readNoticeKeys readAnnouncementKeys];
    rewrite ?union_elem, ?elem_of_nil; tauto.
Qed.

(** Acknowledging what was shown read_covers it. *)
Lemma acknowledged_covers viewer feed r snapshot today s s' :
  is_viewer_key viewer = true → snapshot_units snapshot → store_ok s → r = Some snapshot →
  acknowledgeSnapshot ReadWrite viewer snapshot today (server_time feed) s = Ok s' →
  read_covers (server_time feed) r (getReadState ReadWrite viewer s) (getReadState ReadWrite viewer s').
Proof.
  intros Hk Hu Hs -> E. pose proof E as E0. unfold acknowledgeSnapshot in E.
  apply exc_bind_Ok in E as ([ns ks] & Ek & E). cbn [fst snd] in E. injection E as <-.
  assert (inflating (acknowledge ns ks today (server_time feed))) as Hi.
  { apply acknowledge_inflating; [by eapply notice_keys_units|by eapply Hu]. }
  rewrite (update_read_state viewer _ s Hk Hi Hs). split.
  - intros k x Hx. apply merged_same_keys, (acknowledge_keys _ _ _ _ _ _ _ _ Ek). by left.
  - intros s0 k x [= <-] Hx. apply merged_same_keys, (acknowledge_keys _ _ _ _ _ _ _ _ Ek). by right.
  - intros x Hx. apply merged_same_closed. unfold closed_keys in *.
    cbn [acknowledge closedUntilDate closedNotificationKeys]. destruct today; [|done].
    rewrite bool_decide_true by done. apply union_elem. by left.
Qed.

End Shown.

(** ** The dialog *)

Inductive hook_event :=
  | Refreshed (env : page) (result : option NotificationFeed)
  | OpenRequested
  | OpenFinished (tab : option NotificationTab) (same : bool) (result : option NotificationFeed) (now : Z)
  | TabChosen (tab : NotificationTab) (now : Z)
  | Closed (today : bool) (now : Z).

Section Hook.
Context `{DateApi} `{PersistApi}.

(** A handler that throws leaves the session and the store. *)
Definition hook_step (a : access) (h : hook) (e : hook_event) : hook :=
  match e with
  | Refreshed env result =>
      match refresh a env result h with
      | Ok h' => h'
      | _ => match result with Some feed => set_data feed h | None => h end
      end
  | OpenRequested => openDialog h
  | OpenFinished tab same result now => openDialog_finish a now tab same result h
  | TabChosen tab now => setActiveTab a now tab h
  | Closed today now => match closeDialog a now today h with Ok h' => h' | _ => h end
  end.

(** What the dialog displays. *)
Definition displayed (r : reading) (h : hook) (x : jsstr) : Prop :=
  ∃ s, h_session h = Some s ∧ ns_viewerKey s = h_viewer h ∧ snapshot_key r (closing_snapshot s) x.

(** Keys of 16-bit units. *)
Definition item_units (item : Announcement) : Prop := ∀ key, getAnnouncementKey item = Ok key → units_ok key.
Definition feed_units (feed : NotificationFeed) : Prop := ∀ item, VObj item ∈ feed_announcements feed → item_units item.
Definition event_units (e : hook_event) : Prop :=
  match e with
  | Refreshed _ (Some feed) | OpenFinished _ _ (Some feed) _ => feed_units feed
  | _ => True
  end.

Record hook_ok (h : hook) : Prop := {
  ho_viewer : is_viewer_key (h_viewer h) = true;
  ho_store : store_ok (h_store h);
  ho_session : ∀ s, h_session h = Some s → Forall item_units (snap_announcements (ns_snapshot s));
  ho_data : ∀ feed, h_data h = Some feed → feed_units feed;
}.

Lemma items_units snapshot : Forall item_units (snap_announcements snapshot) → snapshot_units snapshot.
Proof.
  intros Ha ns ks [_ Hk]%snapshot_keys. rewrite Forall_forall in Ha. apply Forall_forall. intros x (item & Hi & Ek)%Hk. by apply (Ha item).
Qed.

Lemma visible_units tab snapshot :
  Forall item_units (snap_announcements snapshot) → snapshot_units (visible_part tab snapshot).
Proof. intros Ha. apply items_units. destruct tab; [constructor|done]. Qed.

Lemma published_units feed : feed_units feed → Forall item_units (snap_announcements (getPublishedNotifications feed)).
Proof. intros Hf. apply Forall_forall. intros item (Hi & _)%published_elem. by apply Hf. Qed.

Lemma recent_units feed read s :
  feed_units feed → getRecentUnreadNotifications feed read = Ok (Some s) → Forall item_units (snap_announcements s).
Proof.
  intros Hf E. destruct (recent_cases feed read _ E) as (El & _). apply Forall_forall. intros item Hi.
  apply (filter_exc_elem _ _ _ El) in Hi as [Hi _]. pose proof (published_units feed Hf) as Hp.
  rewrite Forall_forall in Hp. by apply Hp.
Qed.

(** New keys of the read states are those of the acknowledged part. *)
Definition adds (a : access) (h h' : hook) : Prop :=
  ∀ r k x, x ∈ keys_of r (getReadState a k (h_store h')) →
    x ∈ keys_of r (getReadState a k (h_store h)) ∨ (k = h_viewer h ∧ (displayed r h x ∨ displayed r h' x)).

Lemma adds_same a h h' : h_store h' = h_store h → adds a h h'.
Proof. intros E r k x. rewrite E. by left. Qed.

Lemma acknowledged_ok a viewer snapshot today now s :
  is_viewer_key viewer = true → snapshot_units snapshot → store_ok s →
  store_ok (acknowledged a viewer snapshot today now s).
Proof. intros Hk Hu Hs. by destruct (act_ok a viewer (Acknowledge snapshot today now) s Hk Hu Hs). Qed.

Lemma acknowledged_adds a viewer snapshot today now s r k x :
  is_viewer_key viewer = true → snapshot_units snapshot → store_ok s →
  x ∈ keys_of r (getReadState a k (acknowledged a viewer snapshot today now s)) →
  x ∈ keys_of r (getReadState a k s) ∨ (k = viewer ∧ snapshot_key r snapshot x).
Proof.
  intros Hk Hu Hs. unfold acknowledged. destruct (acknowledgeSnapshot _ _ _ _ _ _) as [s'| |] eqn:E; [|by left..].
  by rewrite (acknowledged_keys a viewer snapshot today now s s').
Qed.

(** A part of a snapshot has keys of the snapshot. *)
Lemma visible_key r tab snapshot x : snapshot_key r (visible_part tab snapshot) x → snapshot_key r snapshot x.
Proof.
  destruct r, tab; cbn; [done|by intros [? _]| |done]. intros (item & Hi & _). by apply elem_of_nil in Hi.
Qed.

Lemma tab_ok a now snapshot tab session h :
  hook_ok h → Forall item_units (snap_announcements snapshot) → ns_snapshot session = snapshot →
  ns_viewerKey session = h_viewer h → ns_tab session = tab →
  let h' := acknowledgeTab a now snapshot tab (set_session (Some session) h) in hook_ok h' ∧ adds a h h'.
Proof.
  intros [Hv Hs Hse Hd] Hu Es Ek Et h'. pose proof (visible_units tab snapshot Hu) as Hp. split.
  - split; [done| | |done].
    + by apply acknowledged_ok.
    + intros s [= <-]. by rewrite Es.
  - intros r k x Hx. apply acknowledged_adds in Hx as [Hx|[-> Hx]]; [by left| |done..]. right. split; [done|]. right.
    exists session. split; [done|]. split; [done|]. unfold closing_snapshot. rewrite Es, Et.
    destruct (ns_kind session); [by eapply visible_key|done].
Qed.

Lemma data_ok feed h : hook_ok h → feed_units feed → hook_ok (set_data feed h).
Proof. intros [] Hf. split; try done. by intros ? [= <-]. Qed.

Lemma refresh_ok a env result h h' :
  hook_ok h → (∀ feed, result = Some feed → feed_units feed) → refresh a env result h = Ok h' →
  hook_ok h' ∧ h_store h' = h_store h ∧ h_viewer h' = h_viewer h.
Proof.
  intros Hh Hf. unfold refresh. destruct result as [feed|]; [|by intros [= <-]].
  pose proof (data_ok feed h Hh (Hf feed eq_refl)) as Hd. destruct (_ || _); [by intros [= <-]|].
  intros E. apply exc_bind_Ok in E as (r & Er & E). injection E as <-. destruct r as [snapshot|]; [|done].
  split; [|done]. destruct Hd. split; try done. intros s [= <-]. cbn. eapply recent_units; [by apply Hf|exact Er].
Qed.

Lemma reset_manual_same a h h' : hook_ok h' → adds a h h' → hook_ok (reset_manual h') ∧ adds a h (reset_manual h').
Proof. intros Hh Ha. unfold reset_manual. case_bool_decide; [|done]. split; [by destruct Hh|done]. Qed.

Lemma open_ok a now tab same result h :
  hook_ok h → (∀ feed, result = Some feed → feed_units feed) →
  hook_ok (openDialog_finish a now tab same result h) ∧ adds a h (openDialog_finish a now tab same result h).
Proof.
  intros Hh Hf. unfold openDialog_finish. set (h1 := match result with Some _ => _ | None => _ end).
  assert (hook_ok h1 ∧ h_store h1 = h_store h ∧ h_viewer h1 = h_viewer h ∧ h_session h1 = h_session h) as (H1 & E1 & E2 & E3).
  { unfold h1. destruct result as [feed|]; [|done]. split; [|done]. apply data_ok; auto. }
  assert (∀ h', adds a h1 h' → adds a h h') as Hadd.
  { intros h' Ha r k x Hx. destruct (Ha r k x Hx) as [Hx'|[-> [Hx'|Hx']]]; [left; by rewrite <- E1|..]; rewrite <- E2; auto.
    right. split; [done|]. left. unfold displayed in *. by rewrite E2, E3 in Hx'. }
  destruct same; cbn [negb]; [|apply reset_manual_same; [done|by apply adds_same]].
  destruct (h_data h1) as [feed|] eqn:Ed; [|apply reset_manual_same; [done|by apply adds_same]].
  assert (Forall item_units (snap_announcements (getPublishedNotifications feed))) as Hu.
  { apply published_units. by destruct H1; auto. }
  pose proof (tab_ok a now (getPublishedNotifications feed) (target_tab a tab (getPublishedNotifications feed) h1)
    (Session (h_viewer h1) Manual (target_tab a tab (getPublishedNotifications feed) h1) (getPublishedNotifications feed))
    h1 H1 Hu eq_refl eq_refl eq_refl) as [H2 H3].
  apply reset_manual_same; [done|by apply Hadd].
Qed.

Lemma close_ok a now today h h' :
  hook_ok h → closeDialog a now today h = Ok h' → hook_ok h' ∧ adds a h h' ∧ h_viewer h' = h_viewer h.
Proof.
  intros Hh. pose proof Hh as [Hv Hs Hse Hd]. unfold closeDialog. destruct (h_session h) as [s|] eqn:Es;
    [|intros [= <-]; split; [done|]; split; [by apply adds_same|done]].
  destruct (str_eqb (ns_viewerKey s) (h_viewer h)) eqn:Ek; [|intros [= <-]; split; [done|]; split; [by apply adds_same|done]].
  apply bool_decide_eq_true in Ek. intros E. apply exc_bind_Ok in E as (s' & Ea & E). injection E as <-.
  set (time := match h_data h with Some _ => _ | None => _ end) in *.
  assert (snapshot_units (closing_snapshot s)) as Hu.
  { unfold closing_snapshot. destruct (ns_kind s); [apply items_units|apply visible_units]; by apply Hse. }
  assert (s' = acknowledged a (h_viewer h) (closing_snapshot s) today time (h_store h)) as ->
    by (unfold acknowledged; by rewrite Ea).
  split; [|split; [|done]].
  - split; [done|by apply acknowledged_ok|done|done].
  - intros r k x Hx. apply acknowledged_adds in Hx as [Hx|[-> Hx]]; [by left| |done..]. right. split; [done|]. left.
    by exists s.
Qed.

Lemma hook_step_ok a h e :
  hook_ok h → event_units e → hook_ok (hook_step a h e) ∧ adds a h (hook_step a h e) ∧ h_viewer (hook_step a h e) = h_viewer h.
Proof.
  intros Hh He. destruct e as [env result| |tab same result now|tab now|today now]; cbn [hook_step event_units] in *.
  - assert (∀ feed, result = Some feed → feed_units feed) as Hf by (by intros feed ->).
    destruct (refresh a env result h) as [h'| |] eqn:E;
      [destruct (refresh_ok a env result h h' Hh Hf E) as (H1 & H2 & H3); split; [done|]; split; [by apply adds_same|done]|..];
      destruct result as [feed|]; (split; [by try apply data_ok|]; split; [by apply adds_same|done]).
  - split; [by destruct Hh|]. split; [by apply adds_same|done].
  - assert (∀ feed, result = Some feed → feed_units feed) as Hf by (by intros feed ->).
    destruct (open_ok a now tab same result h Hh Hf) as [H1 H2]. split; [done|]. split; [done|].
    unfold openDialog_finish, reset_manual. destruct result, same; cbn; try destruct (h_data h); by case_bool_decide.
  - unfold setActiveTab. destruct (h_session h) as [s|] eqn:Es; [|split; [done|]; split; [by apply adds_same|done]].
    destruct (str_eqb (ns_viewerKey s) (h_viewer h)) eqn:Ek; [|split; [done|]; split; [by apply adds_same|done]].
    apply bool_decide_eq_true in Ek. pose proof Hh as [_ _ Hse _].
    destruct (tab_ok a now (ns_snapshot s) tab (Session (ns_viewerKey s) (ns_kind s) tab (ns_snapshot s)) h Hh (Hse s Es) eq_refl Ek eq_refl)
      as [H1 H2]. done.
  - destruct (closeDialog a now today h) as [h'| |] eqn:E; [by apply close_ok in E|..];
      (split; [done|]; split; [by apply adds_same|done]).
Qed.

End Hook.

(** ** Properties *)

(** The hash of a key is the polynomial with the code units as
    coefficients at 31, reduced to a signed 32-bit integer: the shifts and the
    intermediate truncations lose nothing. *)
Theorem hash_is_polynomial s : hash_code s = to_int32 (hash_exact s) ∧ - 2 ^ 31 ≤ hash_code s < 2 ^ 31.
Proof.
  split; [|apply hash_code_bounds]. rewrite <- (to_int32_small (hash_code s)) by apply hash_code_bounds.
  apply to_int32_cong. by apply hash_cong.
Qed.

(** What opens by itself is exactly what is recent and unread: the
    announcements of the feed with a text, published by the server's clock,
    less than a day ago, whose key is neither read nor closed today, newest
    first, and the notice under the same conditions; nothing opens when there
    is none. *)
Theorem recent_unread_exact `{DateApi} feed read r :
  getRecentUnreadNotifications feed read = Ok r →
  (∀ item, item ∈ shown_announcements r ↔ item_unread feed read item) ∧
  StronglySorted later_or_same (shown_announcements r) ∧
  (content (shown_notice r) ≠ [] ↔ notice_unread feed read) ∧
  (r = None ↔ ¬ notice_unread feed read ∧ ∀ item, ¬ item_unread feed read item).
Proof.
  intros E. destruct (recent_cases feed read r E) as (El & Hn & Hr).
  assert (∀ item, item ∈ shown_announcements r ↔ item_unread feed read item) as Hi.
  { intros item. rewrite (filter_exc_elem _ _ _ El). apply announcement_unread_spec. }
  split; [done|]. split; [eapply StronglySorted_sublist; [by eapply filter_exc_sublist|apply published_sorted]|]. split.
  - destruct Hn as [[Hn ->]|[Hn ->]]; [|by split]. split; [done|]. by destruct Hn.
  - rewrite Hr. split; intros [H1 H2]; (split; [done|]).
    + intros item Hit%Hi. rewrite H2 in Hit. by apply elem_of_nil in Hit.
    + destruct (shown_announcements r) as [|item l]; [done|]. destruct (H2 item). apply Hi. by left.
Qed.

(** C15. Acknowledgements survive: whatever the tabs of a browser do, opening,
    reading the storage again, marking and acknowledging in any order, with
    writes that fail or a storage that is not available, a key that the
    storage has for a viewer stays there, and a key that a tab knows stays
    known to it. *)
Theorem acknowledgements_survive `{DateApi} `{PersistApi} b b' r viewer x :
  browser_ok b → rtc browser_step b b' →
  (has_read r (normalizeViewers (readStoredViewers (shared b))) viewer x →
   has_read r (normalizeViewers (readStoredViewers (shared b'))) viewer x) ∧
  (∀ i m, tabs b !! i = Some m → has_read r m viewer x → ∃ m', tabs b' !! i = Some m' ∧ has_read r m' viewer x).
Proof.
  intros Hb Hs. destruct (steps_keep b b' Hs Hb) as [_ [Hk Ht]]. split; [apply Hk|].
  intros i m Hm Hx. destruct (Ht i m Hm) as (m' & Hm' & Hr). exists m'. split; [done|by apply Hr].
Qed.

(** C16. A snapshot that a viewer closed in one tab, with the storage working,
    is not shown to him again: after any further steps, no tab that can read
    the storage opens an announcement or a notice of it, whatever the feed. *)
Theorem acknowledged_not_shown `{DateApi} `{PersistApi} b i m viewer snapshot today now s' b' j m' a feed r :
  browser_ok b → tabs b !! i = Some m → is_viewer_key viewer = true → snapshot_units snapshot →
  acknowledgeSnapshot ReadWrite viewer snapshot today now (Store m (shared b)) = Ok s' →
  rtc browser_step (Browser (storage s') (<[i := memory s']> (tabs b))) b' → tabs b' !! j = Some m' → a ≠ NoAccess →
  getRecentUnreadNotifications feed (getReadState a viewer (Store m' (shared b'))) = Ok r →
  (∀ item key, item ∈ shown_announcements r → getAnnouncementKey item = Ok key →
     ¬ snapshot_key Announcements snapshot key) ∧
  (content (shown_notice r) ≠ [] → ¬ snapshot_key Notices snapshot (getNoticeKey (shown_notice r))).
Proof.
  intros Hb Hi Hv Hu Ea Hs Hj Ha E. destruct b as [raw ts]. cbn [shared tabs] in *.
  pose proof (tab_store raw ts i m Hb Hi) as Hst.
  assert (s' = act ReadWrite viewer (Acknowledge snapshot today now) (Store m raw)) as Es.
  { cbn [act]. unfold acknowledged. by rewrite Ea. }
  destruct (act_ok ReadWrite viewer (Acknowledge snapshot today now) _ Hv Hu Hst) as [Hok Hg]. rewrite <- Es in Hok, Hg.
  destruct (tab_step raw ts i m s' Hb Hi (conj Hok Hg)) as [Hb1 _]. destruct (steps_keep _ _ Hs Hb1) as [Hb' [Hk _]].
  assert (∀ r x, snapshot_key r snapshot x → x ∈ keys_of r (getReadState a viewer (Store m' (shared b')))) as Hread.
  { intros k x Hx. destruct b' as [raw' ts']. apply read_state_keys; [by eapply tab_store|]. right. cbn [storage shared] in *.
    assert (get_item a raw' = raw') as -> by (by destruct a). apply (Hk k viewer x).
    unfold acknowledgeSnapshot in Ea. apply exc_bind_Ok in Ea as ([ns ks] & Ek & Ea). cbn [fst snd] in Ea.
    injection Ea as Ea. destruct Hok as [Hm _]. rewrite <- Ea in Hm |- *. cbn [updateViewer storage put_item memory] in *.
    apply written_read; [done|]. unfold has_read, viewer_state. rewrite viewer_get_set. cbn [from_opt].
    apply (acknowledge_keys _ _ _ _ _ _ _ _ Ek). by right. }
  destruct (recent_cases feed _ r E) as (El & Hn & _). split.
  - intros item key Hin Ekey Hx. apply (filter_exc_elem _ _ _ El) in Hin. apply announcement_unread_spec in Hin.
    destruct Hin as (_ & _ & _ & key' & Ek' & Hnr & _). rewrite Ekey in Ek'. injection Ek' as <-.
    by apply Hnr, (Hread Announcements).
  - intros Hc Hx. destruct Hn as [[(_ & _ & _ & Hnr & _) Hn]|[_ Hn]]; rewrite Hn in *; [|done].
    by apply Hnr, (Hread Notices).
Qed.

(** The keys of a viewer as a set. *)
Definition key_set (r : reading) (v : value) (viewer : jsstr) : gset jsstr :=
  list_to_set (keys_of r (viewer_state viewer (normalizeViewers v))).

(** C17. Merging read states is a join: per viewer the merged store has the
    union of the keys of both sides, so the order in which tabs are merged,
    repetitions and groupings make no difference. *)
Theorem merge_is_join `{DateApi} r u v w viewer :
  let merge x y := viewers_value (mergeNotificationViewers x y) in
  key_set r (merge u v) viewer = key_set r u viewer ∪ key_set r v viewer ∧
  key_set r (merge u v) viewer = key_set r (merge v u) viewer ∧
  key_set r (merge u u) viewer = key_set r u viewer ∧
  key_set r (merge (merge u v) w) viewer = key_set r (merge u (merge v w)) viewer.
Proof.
  intros merge. assert (∀ x y, key_set r (merge x y) viewer = key_set r x viewer ∪ key_set r y viewer) as Hj.
  { intros x y. apply set_eq. intros k. unfold key_set, merge. rewrite elem_of_union, !elem_of_list_to_set.
    fold (has_read r (normalizeViewers (viewers_value (mergeNotificationViewers x y))) viewer k).
    rewrite (value_read r (λ _, True)); [apply merge_read|]. apply merge_all; try done; apply normalize_valid. }
  split; [apply Hj|]. rewrite !Hj. set_solver.
Qed.

(** The dialog acknowledges only what it displayed: after any sequence of
    refreshes, openings, tab changes and closings, a key that a viewer has
    read was read before, or is his and was displayed after some of these
    events; publications that arrive while a dialog is open stay unread. *)
Theorem dialog_acknowledges_shown `{DateApi} `{PersistApi} a (events : list hook_event) h r viewer x :
  hook_ok h → Forall event_units events →
  x ∈ keys_of r (getReadState a viewer (h_store (fold_left (hook_step a) events h))) →
  x ∈ keys_of r (getReadState a viewer (h_store h)) ∨
  (viewer = h_viewer h ∧ ∃ first, first `prefix_of` events ∧ displayed r (fold_left (hook_step a) first h) x).
Proof.
  intros Hh He. revert h Hh. induction He as [|e events He _ IH]; intros h Hh Hx; [by left|]. cbn [fold_left] in Hx.
  destruct (hook_step_ok a h e Hh He) as (H1 & Ha & Ev). destruct (IH _ H1 Hx) as [Hr|[-> (first & Hp & Hd)]].
  - destruct (Ha r viewer x Hr) as [?|[-> [Hd|Hd]]]; [by left|right..]; (split; [done|]).
    + exists []. split; [apply prefix_nil|done].
    + exists [e]. split; [by apply prefix_cons, prefix_nil|done].
  - right. split; [done|]. exists (e :: first). split; [by apply prefix_cons|done].
Qed.

(** Closing the dialog that opened by itself ends it: with the storage
    working the acknowledgement succeeds, and a refresh that brings the same
    feed again opens nothing. *)
Theorem close_then_quiet `{DateApi} `{PersistApi} env feed h h1 today now :
  hook_ok h → feed_units feed → session_here h = false →
  refresh ReadWrite env (Some feed) h = Ok h1 → session_here h1 = true →
  ∃ h2 h3, closeDialog ReadWrite now today h1 = Ok h2 ∧ h_session h2 = None ∧
    refresh ReadWrite env (Some feed) h2 = Ok h3 ∧ h_session h3 = None.
Proof.
  intros Hh Hf Hn E H1. unfold refresh in E. destruct (_ || _ || _ || _ || _ || _) eqn:Eg.
  { injection E as <-. unfold session_here in *. cbn in H1. by rewrite H1 in Hn. }
  apply exc_bind_Ok in E as (r & Er & E). injection E as <-. cbn [h_viewer h_store set_data] in Er.
  destruct r as [snapshot|]; [|unfold session_here in *; cbn in H1; by rewrite H1 in Hn].
  destruct Hh as [Hv Hs Hse Hd]. pose proof (recent_units feed _ snapshot Hf Er) as Hu. apply items_units in Hu.
  assert (∃ s', acknowledgeSnapshot ReadWrite (h_viewer h) snapshot today (server_time feed) (h_store h) = Ok s') as [s' Ea].
  { destruct (recent_cases feed _ _ Er) as (El & _). unfold acknowledgeSnapshot, getSnapshotKeys.
    assert (∃ ks, map_exc getAnnouncementKey (snap_announcements snapshot) = Ok ks) as [ks ->]; [|by eexists].
    assert (∀ x, x ∈ snap_announcements snapshot → ∃ key, getAnnouncementKey x = Ok key) as Hk.
    { intros x Hx. apply (filter_exc_elem _ _ _ El) in Hx. apply announcement_unread_spec in Hx.
      destruct Hx as (_ & _ & _ & key & Ek & _). by exists key. }
    clear -Hk. induction (snap_announcements snapshot) as [|x l IH]; [by exists []|].
    destruct (Hk x) as [key Ek]; [by left|]. destruct IH as [ks Eks]; [intros y Hy; apply Hk; by right|].
    cbn [map_exc]. rewrite Ek. cbn [mbind exc_bind]. rewrite Eks. by eexists. }
  set (h1 := set_session (Some (Session (h_viewer h) Automatic AnnouncementsTab snapshot)) (set_data feed h)).
  exists (set_session None (set_store s' h1)), (set_data feed (set_session None (set_store s' h1))).
  split; [|split; [done|split; [|done]]].
  - unfold closeDialog, h1. cbn [h_session set_session ns_viewerKey h_viewer set_data h_data h_store closing_snapshot ns_kind ns_snapshot].
    rewrite str_eqb_refl, Ea. reflexivity.
  - pose proof (covered_quiet feed _ _ _ Er (acknowledged_covers _ feed _ snapshot today _ s' Hv Hu Hs eq_refl Ea)) as Hq.
    unfold refresh. match goal with |- (if ?b then _ else _) = _ => destruct b end; [reflexivity|].
    change (getReadState ReadWrite _ (h_store _)) with (getReadState ReadWrite (h_viewer h) s'). rewrite Hq. reflexivity.
Qed.

(** ** Examples *)

(** Dates written as numbers of milliseconds, and days as numbers. *)
Definition read_Z (s : jsstr) : option Z :=
  match s with
  | [] => None
  | c :: r => if (c =? 45)%N then Some (- Z.of_N (digits_value r)) else Some (Z.of_N (digits_value s))
  end.

Lemma read_dec_Z z : read_Z (dec_Z z) = Some z.
Proof.
  assert (∀ n, read_Z (dec n) = Some (Z.of_N n)) as Hn.
  { intros n. pose proof (dec_nonempty n). pose proof (dec_digits n) as Hd. pose proof (dec_value n) as Hv.
    destruct (dec n) as [|c r]; [done|]. cbn [read_Z]. destruct (N.eqb_spec c 45) as [->|].
    - by apply Forall_cons in Hd as [? _].
    - by rewrite Hv. }
  destruct z as [|p|p]; cbn [dec_Z]; [by rewrite Hn|by rewrite Hn|].
  change (js "-" ++ dec (N.pos p)) with (45%N :: dec (N.pos p)). cbn [read_Z]. by rewrite N.eqb_refl, dec_value.
Qed.

Lemma dec_Z_ascii z : is_ascii (dec_Z z).
Proof.
  assert (∀ n, is_ascii (dec n)) as Hn.
  { intros n. eapply Forall_impl; [apply dec_digits|]. intros c. unfold is_digit. rewrite andb_true_iff, !N.leb_le. lia. }
  destruct z; cbn [dec_Z]; try apply Hn. apply Forall_app. split; [by repeat constructor|apply Hn].
Qed.

Lemma dec_Z_filled z : dec_Z z ≠ [].
Proof. destruct z; cbn [dec_Z]; try apply dec_nonempty. done. Qed.

#[local] Instance number_dates : DateApi := {|
  date_parse := read_Z;
  date_string t := dec_Z (t / DAY_MS);
  iso_string t := Some (dec_Z t);
  date_string_ascii t := dec_Z_ascii (t / DAY_MS);
  date_string_filled t := dec_Z_filled (t / DAY_MS);
  iso_parse t s E := eq_trans (f_equal read_Z (eq_sym (inj Some _ _ E))) (read_dec_Z t);
|}.

Definition envelope (state : value) : value := VObj [(js "state", state); (js "version", VNum (of_Z 2))].

Lemma envelope_read state :
  json_ok state →
  ∃ o, json_parse (from_opt [] (stringify (envelope state))) = Some (VObj o) ∧
       prop (js "state") o = state ∧ prop (js "version") o = VNum (of_Z 2).
Proof.
  intros Hs. assert (json_ok (envelope state)) as Hj.
  { apply members_json_ok; [apply wf_decide; vm_compute; reflexivity|].
    assert (json_ok (VNum (of_Z 2))) as Hn by (split; vm_compute; reflexivity).
    intros k v. rewrite !elem_of_cons, elem_of_nil. intros Hin.
    destruct_or! Hin; simplify_eq; (split; [by apply unitsb_ok|done]). }
  destruct (json_parse_stringify _ Hj) as (text & -> & Ep). cbn [from_opt]. rewrite Ep. by eexists.
Qed.

#[local] Instance json_persist : PersistApi := {|
  persist_text state := from_opt [] (stringify (envelope state));
  persist_read := envelope_read;
|}.

Definition sample_item : Announcement :=
  [(js "id", VNum (of_Z 3)); (js "content", VStr (js "Maintenance")); (js "publishDate", VStr (js "90000000"))].
Definition sample_feed : NotificationFeed :=
  Feed 100000000 {| content := js "Welcome"; published_at := 99000 |} [VObj sample_item; VNull].
Definition sample_snapshot : NotificationSnapshot :=
  Snapshot {| content := js "Welcome"; published_at := 99000 |} [sample_item].

Lemma recent_unread_exact_witness :
  getRecentUnreadNotifications sample_feed EMPTY_NOTIFICATION_READ_STATE = Ok (Some sample_snapshot) ∧
  item_unread sample_feed EMPTY_NOTIFICATION_READ_STATE sample_item.
Proof.
  assert (getRecentUnreadNotifications sample_feed EMPTY_NOTIFICATION_READ_STATE = Ok (Some sample_snapshot)) as E
    by (vm_compute; reflexivity).
  split; [exact E|]. apply (recent_unread_exact _ _ _ E). by left.
Defined.

(** A browser with one tab and nothing stored. *)
Definition sample_browser : browser := Browser None [[]].

Lemma sample_browser_ok : browser_ok sample_browser.
Proof. split; [apply no_storage_ok|]. apply Forall_singleton, viewers_all_nil. Qed.

Lemma sample_units : Forall item_units [sample_item].
Proof.
  apply Forall_singleton. intros key E.
  assert (getAnnouncementKey sample_item = Ok (js "id:3:" ++ hashString (revision_text sample_item))) as Ek
    by (vm_compute; reflexivity).
  rewrite Ek in E. injection E as <-. apply unitsb_ok. vm_compute. reflexivity.
Qed.

(** The tab closes the snapshot. *)
Definition closed_store : store :=
  acknowledged ReadWrite (js "user:7") sample_snapshot false 0 (Store [] None).
Definition closed_browser : browser := Browser (storage closed_store) [memory closed_store].

Lemma closed_step : browser_step sample_browser closed_browser.
Proof.
  apply (step_act 0 [] ReadWrite (js "user:7") (Acknowledge sample_snapshot false 0) None [[]]);
    [done|vm_compute; reflexivity|]. apply items_units, sample_units.
Qed.

(** Another tab is opened. *)
Definition second_browser : browser :=
  let s := rehydrate ReadWrite (Store [] (shared closed_browser)) in
  Browser (storage s) (tabs closed_browser ++ [memory s]).

Lemma acknowledgements_survive_witness :
  has_read Notices (normalizeViewers (readStoredViewers (shared second_browser))) (js "user:7")
    (getNoticeKey (snap_notice sample_snapshot)).
Proof.
  destruct (step_keeps _ _ closed_step sample_browser_ok) as [Hb _].
  apply (acknowledgements_survive closed_browser second_browser Notices _ _ Hb).
  - apply rtc_once, (step_open ReadWrite (shared closed_browser) (tabs closed_browser)).
  - unfold has_read. apply (bool_decide_unpack _). vm_compute. exact I.
Defined.

Lemma acknowledged_not_shown_witness :
  getRecentUnreadNotifications sample_feed
    (getReadState ReadWrite (js "user:7") (Store (memory closed_store) (shared closed_browser))) = Ok None ∧
  ∀ item key, item ∈ shown_announcements None → getAnnouncementKey item = Ok key →
    ¬ snapshot_key Announcements sample_snapshot key.
Proof.
  assert (getRecentUnreadNotifications sample_feed
    (getReadState ReadWrite (js "user:7") (Store (memory closed_store) (shared closed_browser))) = Ok None) as E
    by (vm_compute; reflexivity).
  split; [exact E|].
  apply (acknowledged_not_shown sample_browser 0 [] (js "user:7") sample_snapshot false 0 closed_store closed_browser
    0 (memory closed_store) ReadWrite sample_feed None); [apply sample_browser_ok|reflexivity|vm_compute; reflexivity|..].
  - apply items_units, sample_units.
  - vm_compute. reflexivity.
  - apply rtc_refl.
  - reflexivity.
  - discriminate.
  - exact E.
Defined.

(** A hook for a user who has no dialog open. *)
Definition sample_hook : hook := Hook (js "user:7") None None None (Store [] None).
Definition sample_page : page := Page true true true false.

Lemma sample_hook_ok : hook_ok sample_hook.
Proof. split; [vm_compute; reflexivity| |done|done]. split; [apply viewers_all_nil|apply no_storage_ok]. Qed.

Lemma sample_feed_units : feed_units sample_feed.
Proof.
  intros item. cbn [feed_announcements sample_feed]. rewrite !elem_of_cons, elem_of_nil. intros Hin.
  pose proof (proj1 (Forall_singleton _ _) sample_units) as Hu. destruct Hin as [E|[E|[]]]; [|done].
  assert (item = sample_item) as -> by congruence. exact Hu.
Qed.

Lemma dialog_acknowledges_shown_witness :
  let x := getNoticeKey (snap_notice sample_snapshot) in
  x ∈ keys_of Notices (getReadState ReadWrite (js "user:7") (h_store sample_hook)) ∨
  (js "user:7" = h_viewer sample_hook ∧
   ∃ first, first `prefix_of` [Refreshed sample_page (Some sample_feed); Closed true 0] ∧
     displayed Notices (fold_left (hook_step ReadWrite) first sample_hook) x).
Proof.
  apply (dialog_acknowledges_shown ReadWrite [Refreshed sample_page (Some sample_feed); Closed true 0]).
  - apply sample_hook_ok.
  - constructor; [exact sample_feed_units|]. by constructor.
  - apply (bool_decide_unpack _). vm_compute. exact I.
Defined.

Lemma close_then_quiet_witness :
  match refresh ReadWrite sample_page (Some sample_feed) sample_hook with
  | Ok h1 => ∃ h2 h3, closeDialog ReadWrite 0 true h1 = Ok h2 ∧ h_session h2 = None ∧
      refresh ReadWrite sample_page (Some sample_feed) h2 = Ok h3 ∧ h_session h3 = None
  | _ => False
  end.
Proof.
  destruct (refresh ReadWrite sample_page (Some sample_feed) sample_hook) as [h1| |] eqn:E;
    [|vm_compute in E; discriminate..].
  apply (close_then_quiet sample_page sample_feed sample_hook h1 true 0 sample_hook_ok sample_feed_units eq_refl E).
  vm_compute in E. injection E as <-. vm_compute. reflexivity.
Defined.
