(* ===== verification/ChannelForm.v ===== *)
(** * The form of a channel

    Model of src/web/default/src/features/channels/lib/channel-form.ts: the
    values a form shows for a stored channel, the settings it writes as JSON,
    and what is sent to create or update the channel.

    A member of the JSON texts [setting] and [settings] is read without a check
    and is a [value]; the other members have the types of the schemas of
    channel-form.ts and types.ts, an absent or null text being [None].
    JSON.parse of a text that is no JSON is caught as in the code. *)
From S2P Require Import Prelude JsString JsNumber JsValue JsonFacts Currency ParamOverride PlaygroundStorage CreationHistory CreationRequests.

Open Scope N_scope.

(** ** Lists of names *)

(** The names of a text, separated by commas. *)
Definition comma_list (s : jsstr) : list jsstr := filterb truthy (map trim (split [44] s)).

Definition parseModels (models : jsstr) : list jsstr := if truthy models then comma_list models else [].
Definition parseGroups (groups : jsstr) : list jsstr := if truthy groups then comma_list groups else [].
Definition formatModels (models : list jsstr) : jsstr := join [44] models.
Definition formatGroups (groups : list jsstr) : jsstr := join [44] groups.

Definition validateJSON (text : jsstr) : bool :=
  if negb (truthy (trim text)) then true else is_some (json_parse text).
Definition validateModelMapping (text : jsstr) : bool :=
  if negb (truthy (trim text)) then true else validateJSON text.

(** ** Data *)

Record Channel := StoredChannel {
  ch_name : jsstr;
  ch_type : num;
  ch_base_url : option jsstr;
  ch_openai_organization : option jsstr;
  ch_models : jsstr;
  ch_group : jsstr;
  ch_model_mapping : option jsstr;
  ch_priority : option num;
  ch_weight : option num;
  ch_test_model : option jsstr;
  ch_auto_ban : option num;
  ch_status : num;
  ch_status_code_mapping : option jsstr;
  ch_tag : option jsstr;
  ch_remark : jsstr;
  ch_setting : option jsstr;
  ch_param_override : option jsstr;
  ch_header_override : option jsstr;
  ch_settings : option jsstr;
  ch_other : jsstr;
  ch_multi_key_mode : option jsstr;
}.

Record ChannelFormValues := FormValues {
  fv_name : jsstr;
  fv_type : num;
  fv_base_url : option jsstr;
  fv_key : jsstr;
  fv_openai_organization : option jsstr;
  fv_models : jsstr;
  fv_group : list jsstr;
  fv_model_mapping : option jsstr;
  fv_priority : option num;
  fv_weight : option num;
  fv_test_model : option jsstr;
  fv_auto_ban : option num;
  fv_status : num;
  fv_status_code_mapping : option jsstr;
  fv_tag : option jsstr;
  fv_remark : option jsstr;
  fv_setting : option jsstr;
  fv_param_override : option jsstr;
  fv_header_override : option jsstr;
  fv_settings : option jsstr;
  fv_other : option jsstr;
  fv_multi_key_mode : option jsstr;
  fv_multi_key_type : option jsstr;
  fv_batch_add_set_key_prefix_2_name : option bool;
  fv_key_mode : option jsstr;
  fv_force_format : value;
  fv_thinking_to_content : value;
  fv_proxy : value;
  fv_pass_through_body_enabled : value;
  fv_system_prompt : value;
  fv_system_prompt_override : value;
  fv_is_enterprise_account : value;
  fv_vertex_key_type : value;
  fv_azure_responses_version : value;
  fv_aws_key_type : value;
  fv_allow_service_tier : value;
  fv_disable_store : value;
  fv_allow_safety_identifier : value;
  fv_allow_include_obfuscation : value;
  fv_allow_inference_geo : value;
  fv_allow_speed : value;
  fv_claude_beta_query : value;
  fv_upstream_model_update_check_enabled : value;
  fv_upstream_model_update_auto_sync_enabled : value;
  fv_upstream_model_update_ignored_models : option jsstr;
}.

(** [x || 0] and [x || null] of an optional number. *)
Definition num_or_zero (x : option num) : num :=
  match x with Some x => if num_truthy x then x else n0 | None => n0 end.
Definition num_or_null (x : option num) : value :=
  match x with Some x => if num_truthy x then VNum x else VNull | None => VNull end.

(** [s || ''] and [s || null] of an optional text. *)
Definition text_or (s : option jsstr) : jsstr := from_opt [] s.
Definition text_or_null (s : option jsstr) : value := if truthy (text_or s) then VStr (text_or s) else VNull.

Definition NO : value := VBool false.
Definition YES_IF (v : value) : value := VBool (is_true v).

Definition CHANNEL_FORM_DEFAULT_VALUES : ChannelFormValues :=
  FormValues [] n1 (Some []) [] (Some []) [] [js "default"] (Some []) (Some n0) (Some n0) (Some []) (Some n1) n1
    (Some []) (Some []) (Some []) (Some []) (Some []) (Some []) (Some (js "{}")) (Some [])
    (Some (js "single")) (Some (js "random")) (Some false) (Some (js "append"))
    NO NO (VStr []) NO (VStr []) NO NO (VStr (js "json")) (VStr []) (VStr (js "ak_sk")) NO NO NO NO NO NO NO NO NO (Some []).

(** ** Opening a channel *)

(** The members that [parsed.x] can read; [None] is the TypeError of null. *)
Definition parsed_members (text : jsstr) : option obj :=
  match json_parse text with
  | Some (VObj o) => Some o
  | None | Some VNull => None
  | Some _ => Some []
  end.

(** The members of a text, none when it is empty or cannot be read. *)
Definition text_members (text : option jsstr) : obj :=
  if truthy (text_or text) then from_opt [] (parsed_members (text_or text)) else [].

(** The array joined by commas, the empty text for anything else. *)
Definition joined_models (v : value) : jsstr :=
  match v with VArr _ => from_opt [] (to_string v) | _ => [] end.

Definition transformChannelToFormDefaults (channel : Channel) : ChannelFormValues :=
  let extra := text_members (ch_setting channel) in
  let parsed := text_members (ch_settings channel) in
  {| fv_name := ch_name channel;
     fv_type := ch_type channel;
     fv_base_url := Some (text_or (ch_base_url channel));
     fv_key := [];
     fv_openai_organization := Some (text_or (ch_openai_organization channel));
     fv_models := ch_models channel;
     fv_group := parseGroups (str_or (ch_group channel) (js "default"));
     fv_model_mapping := Some (text_or (ch_model_mapping channel));
     fv_priority := Some (num_or_zero (ch_priority channel));
     fv_weight := Some (num_or_zero (ch_weight channel));
     fv_test_model := Some (text_or (ch_test_model channel));
     fv_auto_ban := Some (from_opt n1 (ch_auto_ban channel));
     fv_status := ch_status channel;
     fv_status_code_mapping := Some (text_or (ch_status_code_mapping channel));
     fv_tag := Some (text_or (ch_tag channel));
     fv_remark := Some (ch_remark channel);
     fv_setting := Some (text_or (ch_setting channel));
     fv_param_override := Some (text_or (ch_param_override channel));
     fv_header_override := Some (text_or (ch_header_override channel));
     fv_settings := Some (str_or (text_or (ch_settings channel)) (js "{}"));
     fv_other := Some (ch_other channel);
     fv_multi_key_mode := Some (js "single");
     fv_multi_key_type := Some (str_or (text_or (ch_multi_key_mode channel)) (js "random"));
     fv_batch_add_set_key_prefix_2_name := Some false;
     fv_key_mode := Some (js "append");
     fv_force_format := val_or (prop (js "force_format") extra) NO;
     fv_thinking_to_content := val_or (prop (js "thinking_to_content") extra) NO;
     fv_proxy := val_or (prop (js "proxy") extra) (VStr []);
     fv_pass_through_body_enabled := val_or (prop (js "pass_through_body_enabled") extra) NO;
     fv_system_prompt := val_or (prop (js "system_prompt") extra) (VStr []);
     fv_system_prompt_override := val_or (prop (js "system_prompt_override") extra) NO;
     fv_is_enterprise_account := YES_IF (prop (js "openrouter_enterprise") parsed);
     fv_vertex_key_type := val_or (prop (js "vertex_key_type") parsed) (VStr (js "json"));
     fv_azure_responses_version := val_or (prop (js "azure_responses_version") parsed) (VStr []);
     fv_aws_key_type := val_or (prop (js "aws_key_type") parsed) (VStr (js "ak_sk"));
     fv_allow_service_tier := YES_IF (prop (js "allow_service_tier") parsed);
     fv_disable_store := YES_IF (prop (js "disable_store") parsed);
     fv_allow_safety_identifier := YES_IF (prop (js "allow_safety_identifier") parsed);
     fv_allow_include_obfuscation := YES_IF (prop (js "allow_include_obfuscation") parsed);
     fv_allow_inference_geo := YES_IF (prop (js "allow_inference_geo") parsed);
     fv_allow_speed := YES_IF (prop (js "allow_speed") parsed);
     fv_claude_beta_query := YES_IF (prop (js "claude_beta_query") parsed);
     fv_upstream_model_update_check_enabled := YES_IF (prop (js "upstream_model_update_check_enabled") parsed);
     fv_upstream_model_update_auto_sync_enabled := YES_IF (prop (js "upstream_model_update_auto_sync_enabled") parsed);
     fv_upstream_model_update_ignored_models :=
       Some (joined_models (prop (js "upstream_model_update_ignored_models") parsed)) |}.

(** ** The settings that are written *)

Section Build.
Implicit Types (formData : ChannelFormValues) (settingsObj : obj).

Definition is_type formData (t : Z) : bool := neqb (fv_type formData) (of_Z t).

Definition MODEL_FETCHABLE_TYPES : list Z :=
  [1; 4; 14; 17; 20; 23; 24; 25; 26; 27; 31; 34; 35; 40; 42; 43; 47; 48; 59; 60]%Z.
Definition fetchable formData : bool := existsb (is_type formData) MODEL_FETCHABLE_TYPES.

Definition setting_obj formData : obj :=
  [(js "force_format", val_or (fv_force_format formData) NO);
   (js "thinking_to_content", val_or (fv_thinking_to_content formData) NO);
   (js "proxy", val_or (fv_proxy formData) (VStr []));
   (js "pass_through_body_enabled", val_or (fv_pass_through_body_enabled formData) NO);
   (js "system_prompt", val_or (fv_system_prompt formData) (VStr []));
   (js "system_prompt_override", val_or (fv_system_prompt_override formData) NO)].

Definition buildSettingJSON formData : jsstr := from_opt [] (stringify (VObj (setting_obj formData))).

(** [if (c) o[k] = v else if (k in o) delete o[k]]. *)
Definition put (c : bool) (k : jsstr) (v : value) settingsObj : obj :=
  if c then obj_set k v settingsObj else without k settingsObj.

Definition vertex_setting formData : obj → obj :=
  put (is_type formData 41) (js "vertex_key_type") (val_or (fv_vertex_key_type formData) (VStr (js "json"))).

Definition azure_setting formData : obj → obj :=
  put (is_type formData 3 && val_truthy (fv_azure_responses_version formData)) (js "azure_responses_version")
    (fv_azure_responses_version formData).

Definition enterprise_setting formData : obj → obj :=
  put (is_type formData 20) (js "openrouter_enterprise") (YES_IF (fv_is_enterprise_account formData)).

Definition aws_setting formData : obj → obj :=
  put (is_type formData 33) (js "aws_key_type") (val_or (fv_aws_key_type formData) (VStr (js "ak_sk"))).

Definition tier_setting formData : obj → obj :=
  put (is_type formData 1 || is_type formData 14) (js "allow_service_tier") (YES_IF (fv_allow_service_tier formData)).

Definition openai_settings formData settingsObj : obj :=
  if is_type formData 1 then
    obj_set (js "allow_inference_geo") (YES_IF (fv_allow_inference_geo formData))
      (obj_set (js "allow_include_obfuscation") (YES_IF (fv_allow_include_obfuscation formData))
        (obj_set (js "allow_safety_identifier") (YES_IF (fv_allow_safety_identifier formData))
          (obj_set (js "disable_store") (YES_IF (fv_disable_store formData)) settingsObj)))
  else
    let rest := without (js "allow_include_obfuscation")
      (without (js "allow_safety_identifier") (without (js "disable_store") settingsObj)) in
    if negb (is_type formData 14) then without (js "allow_inference_geo") rest else rest.

Definition anthropic_settings formData settingsObj : obj :=
  if is_type formData 14 then
    obj_set (js "claude_beta_query") (YES_IF (fv_claude_beta_query formData))
      (obj_set (js "allow_speed") (YES_IF (fv_allow_speed formData))
        (obj_set (js "allow_inference_geo") (YES_IF (fv_allow_inference_geo formData)) settingsObj))
  else without (js "claude_beta_query") (without (js "allow_speed") settingsObj).

Definition ignored_models formData : list jsstr :=
  uniq (comma_list (text_or (fv_upstream_model_update_ignored_models formData))).

Definition update_settings formData settingsObj : obj :=
  if fetchable formData then
    let check := is_true (fv_upstream_model_update_check_enabled formData) in
    let o := obj_set (js "upstream_model_update_check_enabled") (VBool check) settingsObj in
    let o := obj_set (js "upstream_model_update_auto_sync_enabled")
      (VBool (check && is_true (fv_upstream_model_update_auto_sync_enabled formData))) o in
    let o := obj_set (js "upstream_model_update_ignored_models") (VArr (map VStr (ignored_models formData))) o in
    let o :=
      match prop (js "upstream_model_update_last_detected_models") o, check with
      | VArr _, true => o
      | _, _ => obj_set (js "upstream_model_update_last_detected_models") (VArr []) o
      end in
    match prop (js "upstream_model_update_last_check_time") o with
    | VNum _ => o
    | _ => obj_set (js "upstream_model_update_last_check_time") (VNum n0) o
    end
  else settingsObj.

Definition form_settings formData settingsObj : obj :=
  update_settings formData (anthropic_settings formData (openai_settings formData (tier_setting formData
    (aws_setting formData (enterprise_setting formData (azure_setting formData (vertex_setting formData settingsObj))))))).

(** The stored settings the new ones are written into. *)
Definition stored_settings formData : value :=
  let text := text_or (fv_settings formData) in
  if truthy text && negb (str_eqb text (js "{}")) then from_opt (VObj []) (json_parse text) else VObj [].

(** A member of an array that is no index is not printed; a member of null or
    of a primitive value cannot be set or looked for. *)
Definition buildSettingsJSON formData : exc jsstr :=
  match stored_settings formData with
  | VObj o => Ok (from_opt [] (stringify (VObj (form_settings formData o))))
  | VArr l => Ok (from_opt [] (stringify (VArr l)))
  | _ => Throw
  end.

(** ** What is sent *)

(** Empty texts become null. *)
Definition clean_empty (o : obj) : obj :=
  map (λ kv, if strict_eq kv.2 (VStr []) then (kv.1, VNull) else kv) o.

Record CreatePayload := Create {
  create_mode : jsstr;
  create_multi_key_mode : option jsstr;
  create_prefix : option bool;
  create_channel : obj;
}.

Definition transformFormDataToCreatePayload formData : exc CreatePayload :=
  let mode := str_or (text_or (fv_multi_key_mode formData)) (js "single") in
  settings ← buildSettingsJSON formData;
  let channel :=
    [(js "name", VStr (fv_name formData)); (js "type", VNum (fv_type formData));
     (js "base_url", text_or_null (fv_base_url formData)); (js "key", VStr (fv_key formData));
     (js "openai_organization", text_or_null (fv_openai_organization formData));
     (js "models", VStr (fv_models formData)); (js "group", VStr (formatGroups (fv_group formData)));
     (js "model_mapping", text_or_null (fv_model_mapping formData));
     (js "priority", num_or_null (fv_priority formData)); (js "weight", num_or_null (fv_weight formData));
     (js "test_model", text_or_null (fv_test_model formData));
     (js "auto_ban", VNum (from_opt n1 (fv_auto_ban formData))); (js "status", VNum (fv_status formData));
     (js "status_code_mapping", text_or_null (fv_status_code_mapping formData));
     (js "tag", text_or_null (fv_tag formData)); (js "remark", VStr (text_or (fv_remark formData)));
     (js "setting", VStr (buildSettingJSON formData));
     (js "param_override", text_or_null (fv_param_override formData));
     (js "header_override", text_or_null (fv_header_override formData));
     (js "settings", VStr settings); (js "other", VStr (text_or (fv_other formData)))] in
  Ok {| create_mode := mode;
        create_multi_key_mode := if str_eqb mode (js "multi_to_single") then fv_multi_key_type formData else None;
        create_prefix := if str_eqb mode (js "batch") then fv_batch_add_set_key_prefix_2_name formData else None;
        create_channel := clean_empty channel |}.

(** The texts that are sent empty rather than null. *)
Definition cleared_texts formData : obj :=
  [(js "base_url", VStr (text_or (fv_base_url formData)));
   (js "openai_organization", VStr (text_or (fv_openai_organization formData)));
   (js "test_model", VStr (text_or (fv_test_model formData))); (js "tag", VStr (text_or (fv_tag formData)));
   (js "remark", VStr (text_or (fv_remark formData)));
   (js "model_mapping", VStr (text_or (fv_model_mapping formData)));
   (js "status_code_mapping", VStr (text_or (fv_status_code_mapping formData)));
   (js "param_override", VStr (text_or (fv_param_override formData)));
   (js "header_override", VStr (text_or (fv_header_override formData)))].

(** The members of the payload before they are cleaned. *)
Definition update_members formData (channelId : num) (settings : jsstr) : obj :=
  [(js "id", VNum channelId); (js "name", VStr (fv_name formData)); (js "type", VNum (fv_type formData));
   (js "base_url", text_or_null (fv_base_url formData));
   (js "openai_organization", text_or_null (fv_openai_organization formData));
   (js "models", VStr (fv_models formData)); (js "group", VStr (formatGroups (fv_group formData)));
   (js "model_mapping", text_or_null (fv_model_mapping formData));
   (js "priority", VNum (from_opt n0 (fv_priority formData))); (js "weight", VNum (from_opt n0 (fv_weight formData)));
   (js "test_model", text_or_null (fv_test_model formData));
   (js "auto_ban", VNum (from_opt n1 (fv_auto_ban formData))); (js "status", VNum (fv_status formData));
   (js "status_code_mapping", text_or_null (fv_status_code_mapping formData));
   (js "tag", text_or_null (fv_tag formData)); (js "remark", VStr (text_or (fv_remark formData)));
   (js "setting", VStr (buildSettingJSON formData));
   (js "param_override", text_or_null (fv_param_override formData));
   (js "header_override", text_or_null (fv_header_override formData));
   (js "settings", VStr settings); (js "other", VStr (text_or (fv_other formData)))].

Definition transformFormDataToUpdatePayload formData (channelId : num) : exc obj :=
  settings ← buildSettingsJSON formData;
  let payload := update_members formData channelId settings in
  let payload :=
    if truthy (trim (fv_key formData)) then obj_set (js "key") (VStr (fv_key formData)) payload else payload in
  Ok (spread (clean_empty payload) (cleared_texts formData)).

End Build.
