(* ===== verification/ChannelFormFacts.v ===== *)
(** * A saved channel opens with the settings it was saved with

    Lists of names separated by commas, the members that are written into the
    stored settings, and the round trip from the form to what is sent and back
    to the form. *)
From S2P Require Import Prelude JsString JsNumber JsValue JsonFacts Currency ParamOverride PlaygroundStorage NotificationFacts CreationHistory CreationHistoryFacts CreationRequests ChannelForm.

Open Scope N_scope.

(** ** Lists of names *)

(** A name that a list separated by commas can carry. *)
Definition clean_name (s : jsstr) : Prop := 44 ∉ s ∧ trim s = s ∧ truthy s = true.

Lemma split_fuel_parts c fuel s p : (length s < fuel)%nat → p ∈ split_fuel fuel [c] s → c ∉ p.
Proof.
  revert s. induction fuel as [|fuel IH]; intros s Hf; [lia|]. cbn [split_fuel].
  destruct (index_of [c] s) as [i|] eqn:E.
  - pose proof (index_of_Some _ _ _ E) as [_ Hl]. cbn [length] in Hl. intros [-> |Hp]%elem_of_cons.
    + apply index_of_char. apply index_of_before in E; [|done]. unfold str_includes in E. by destruct (index_of [c] (take i s)).
    + apply IH in Hp; [done|]. rewrite length_drop. cbn [length]. lia.
  - intros ->%list_elem_of_singleton. by apply index_of_char.
Qed.

Lemma comma_list_clean s : Forall clean_name (comma_list s).
Proof.
  apply Forall_forall. intros p [(q & -> & Hq)%list_elem_of_fmap Ht]%filterb_elem.
  assert (44 ∉ q) as Hn by (eapply split_fuel_parts; [|exact Hq]; lia).
  split_and!; [by intros Hc%trim_elem|apply trim_idemp|done].
Qed.

Lemma comma_list_join l : Forall clean_name l → comma_list (join [44] l) = l.
Proof.
  intros Hl. destruct l as [|p l]; [by vm_compute|]. unfold comma_list.
  rewrite split_join; [|done|eapply Forall_impl; [exact Hl|]; by intros ? (? & _)].
  assert (map trim (p :: l) = p :: l) as ->.
  { revert Hl. generalize (p :: l). clear. intros k Hl. induction Hl as [|q k' (_ & E & _) _ IH]; [done|]. cbn [map]. by rewrite E, IH. }
  apply filterb_all. rewrite Forall_forall in Hl. intros q Hq. by apply Hl.
Qed.

Lemma uniq_clean l : Forall clean_name l → Forall clean_name (uniq l).
Proof. rewrite !Forall_forall. intros H p Hp. rewrite uniq_elem in Hp. by apply H. Qed.

Lemma join_truthy l : l ≠ [] → Forall clean_name l → truthy (join [44] l) = true.
Proof.
  intros Hn Hl. destruct l as [|p l]; [done|]. apply Forall_cons in Hl as [(_ & _ & Hp) _].
  destruct p; [done|]. by destruct l.
Qed.

Lemma joined_texts l : joined_models (VArr (map VStr l)) = join [44] l.
Proof.
  unfold joined_models. cbn [to_string].
  match goal with |- context [?f (map VStr l)] => assert (f (map VStr l) = Some l) as ->; [|done] end.
  induction l as [|s l IH]; [done|]. cbn in *. by rewrite IH.
Qed.

(** ** Members of the settings *)

Lemma get_without k o : obj_get k (without k o) = None.
Proof.
  apply obj_get_None. intros ([k' v] & -> & [_ Hf]%filterb_elem)%list_elem_of_fmap.
  cbn in Hf. unfold str_eqb in Hf. by rewrite bool_decide_eq_true_2 in Hf.
Qed.

Lemma get_without_ne k k' o : k' ≠ k → obj_get k' (without k o) = obj_get k' o.
Proof.
  intros Hne. unfold obj_get, without. f_equal. induction o as [|[k1 v] o IH]; [done|].
  unfold filterb in *. cbn. destruct (str_eqb k1 k) eqn:E; cbn.
  - unfold str_eqb in *. apply bool_decide_eq_true in E as ->. by rewrite bool_decide_eq_false_2.
  - destruct (str_eqb k1 k'); [done|]. apply IH.
Qed.

Lemma get_put c k v o : obj_get k (put c k v o) = if c then Some v else None.
Proof. destruct c; [apply obj_get_set|apply get_without]. Qed.

Lemma get_put_ne c k k' v o : k' ≠ k → obj_get k' (put c k v o) = obj_get k' o.
Proof. intros. destruct c; [by apply obj_get_set_ne|by apply get_without_ne]. Qed.

(** Objects that JSON prints and reads back. *)
Definition sound (o : obj) : Prop := wf_obj o ∧ members_ok o.

Lemma json_ok_sound o : json_ok (VObj o) ↔ sound o.
Proof.
  split; [|by intros [? ?]; apply members_json_ok]. intros [E Hf]. split; [rewrite <- E; apply wf_obj_of_list|].
  clear E. induction o as [|[k v] o IH]; [by intros ?? ?%elem_of_nil|]. destruct Hf as [H1 H2].
  intros k' v' [[= -> ->]|Hin]%elem_of_cons; [done|]. by apply IH.
Qed.

Lemma sound_set k v o : unitsb k = true → json_ok v → sound o → sound (obj_set k v o).
Proof. intros Hk%unitsb_ok Hv [Hw Hm]. split; [by apply wf_set|by apply members_ok_set]. Qed.

Lemma sound_without k o : sound o → sound (without k o).
Proof.
  intros [[Hk Hs] Hm]. split; [split|].
  - eapply sublist_NoDup; [exact Hk|]. apply fmap_sublist, filterb_sublist.
  - clear - Hs. unfold without, filterb. induction Hs as [|x o Hs IH Hf]; [constructor|]. cbn.
    destruct (negb _); [|done]. constructor; [done|]. rewrite Forall_forall in *. intros y [Hy _]%filterb_elem. auto.
  - intros k' v [Hin _]%filterb_elem. by apply Hm.
Qed.

Lemma sound_put c k v o : unitsb k = true → (c = true → json_ok v) → sound o → sound (put c k v o).
Proof. intros. destruct c; [apply sound_set; auto|by apply sound_without]. Qed.

Lemma sound_text o : sound o → ∃ t, stringify (VObj o) = Some t ∧ truthy t = true ∧ json_parse t = Some (VObj o).
Proof.
  intros Ho. destruct (json_parse_stringify (VObj o)) as (t & Hs & Hp); [by apply json_ok_sound|].
  exists t. split_and!; [done| |done]. by apply (stringify_obj_nonempty o).
Qed.

Create HintDb channel.
#[export] Hint Resolve sound_set sound_without sound_put : channel.
#[export] Hint Extern 1 (unitsb _ = true) => (vm_compute; reflexivity) : channel.
#[export] Hint Extern 1 (json_ok (VBool _)) => exact I : channel.
#[export] Hint Extern 1 (json_ok (YES_IF _)) => exact I : channel.

(** ** What is written into the stored settings *)

Section Settings.
Implicit Types (fd : ChannelFormValues) (o : obj).

Definition OPENAI_SETTINGS : list jsstr :=
  [js "disable_store"; js "allow_safety_identifier"; js "allow_include_obfuscation"; js "allow_inference_geo"].
Definition ANTHROPIC_SETTINGS : list jsstr := [js "allow_inference_geo"; js "allow_speed"; js "claude_beta_query"].
Definition UPDATE_SETTINGS : list jsstr :=
  [js "upstream_model_update_check_enabled"; js "upstream_model_update_auto_sync_enabled";
   js "upstream_model_update_ignored_models"; js "upstream_model_update_last_detected_models";
   js "upstream_model_update_last_check_time"].
Definition KEY_SETTINGS : list jsstr :=
  [js "vertex_key_type"; js "azure_responses_version"; js "openrouter_enterprise"; js "aws_key_type"; js "allow_service_tier"].

(** The settings the form knows. *)
Definition FORM_SETTINGS : list jsstr := KEY_SETTINGS ++ OPENAI_SETTINGS ++ ANTHROPIC_SETTINGS ++ UPDATE_SETTINGS.

(** The settings that do not apply to the type of the channel. *)
Definition foreign_settings fd : list jsstr :=
  (if is_type fd 41 then [] else [js "vertex_key_type"]) ++
  (if is_type fd 3 then [] else [js "azure_responses_version"]) ++
  (if is_type fd 20 then [] else [js "openrouter_enterprise"]) ++
  (if is_type fd 33 then [] else [js "aws_key_type"]) ++
  (if is_type fd 1 || is_type fd 14 then [] else [js "allow_service_tier"; js "allow_inference_geo"]) ++
  (if is_type fd 1 then [] else [js "disable_store"; js "allow_safety_identifier"; js "allow_include_obfuscation"]) ++
  (if is_type fd 14 then [] else [js "allow_speed"; js "claude_beta_query"]).

Ltac differs :=
  first [match goal with H : _ ≠ ?y |- _ ≠ ?x => constr_eq x y; exact H end | other_key].
Ltac others :=
  repeat lazymatch goal with
  | |- context [obj_get ?k (put ?c ?k' ?v ?o)] => rewrite (get_put_ne c k' k v o) by differs
  | |- context [obj_get ?k (obj_set ?k' ?v ?o)] => rewrite (obj_get_set_ne k' k v o) by differs
  | |- context [obj_get ?k (without ?k' ?o)] => rewrite (get_without_ne k' k o) by differs
  end.

Lemma openai_other fd k o : k ∉ OPENAI_SETTINGS → obj_get k (openai_settings fd o) = obj_get k o.
Proof.
  intros Hk. unfold OPENAI_SETTINGS in Hk. rewrite !not_elem_of_cons in Hk. destruct Hk as (? & ? & ? & ? & _).
  unfold openai_settings. destruct (is_type fd 1); [|destruct (is_type fd 14); cbn [negb]]; others; reflexivity.
Qed.

Lemma anthropic_other fd k o : k ∉ ANTHROPIC_SETTINGS → obj_get k (anthropic_settings fd o) = obj_get k o.
Proof.
  intros Hk. unfold ANTHROPIC_SETTINGS in Hk. rewrite !not_elem_of_cons in Hk. destruct Hk as (? & ? & ? & _).
  unfold anthropic_settings. destruct (is_type fd 14); others; reflexivity.
Qed.

Lemma update_other fd k o : k ∉ UPDATE_SETTINGS → obj_get k (update_settings fd o) = obj_get k o.
Proof.
  intros Hk. unfold UPDATE_SETTINGS in Hk. rewrite !not_elem_of_cons in Hk. destruct Hk as (? & ? & ? & ? & ? & _).
  unfold update_settings. destruct (fetchable fd); [|done]. cbv zeta.
  repeat (case_match; try (others; reflexivity)).
Qed.

Lemma settings_other fd k o : k ∉ FORM_SETTINGS → obj_get k (form_settings fd o) = obj_get k o.
Proof.
  intros Hk. unfold FORM_SETTINGS in Hk. rewrite !not_elem_of_app in Hk. destruct Hk as (Hk & Ho & Ha & Hu).
  unfold form_settings. rewrite update_other, anthropic_other, openai_other by done.
  unfold KEY_SETTINGS in Hk. rewrite !not_elem_of_cons in Hk. destruct Hk as (? & ? & ? & ? & ? & _).
  unfold tier_setting, aws_setting, enterprise_setting, azure_setting, vertex_setting. others. reflexivity.
Qed.

(** The value a known setting has after the form was written. *)
Ltac written :=
  unfold form_settings; rewrite ?update_other, ?anthropic_other, ?openai_other by other_key;
  unfold tier_setting, aws_setting, enterprise_setting, azure_setting, vertex_setting; others; apply get_put.

Lemma get_vertex fd o : obj_get (js "vertex_key_type") (form_settings fd o) =
  if is_type fd 41 then Some (val_or (fv_vertex_key_type fd) (VStr (js "json"))) else None.
Proof. written. Qed.
Lemma get_azure fd o : obj_get (js "azure_responses_version") (form_settings fd o) =
  if is_type fd 3 && val_truthy (fv_azure_responses_version fd) then Some (fv_azure_responses_version fd) else None.
Proof. written. Qed.
Lemma get_enterprise fd o : obj_get (js "openrouter_enterprise") (form_settings fd o) =
  if is_type fd 20 then Some (YES_IF (fv_is_enterprise_account fd)) else None.
Proof. written. Qed.
Lemma get_aws fd o : obj_get (js "aws_key_type") (form_settings fd o) =
  if is_type fd 33 then Some (val_or (fv_aws_key_type fd) (VStr (js "ak_sk"))) else None.
Proof. written. Qed.
Lemma get_tier fd o : obj_get (js "allow_service_tier") (form_settings fd o) =
  if is_type fd 1 || is_type fd 14 then Some (YES_IF (fv_allow_service_tier fd)) else None.
Proof. written. Qed.

Ltac last_write :=
  others; lazymatch goal with
  | |- context [obj_get ?k (obj_set ?k ?v ?o)] => rewrite (obj_get_set k v o)
  | |- context [obj_get ?k (without ?k ?o)] => rewrite (get_without k o)
  | |- _ => idtac
  end.

Lemma get_openai fd o :
  let o' := form_settings fd o in
  let openai v := if is_type fd 1 then Some (YES_IF v) else None in
  obj_get (js "disable_store") o' = openai (fv_disable_store fd) ∧
  obj_get (js "allow_safety_identifier") o' = openai (fv_allow_safety_identifier fd) ∧
  obj_get (js "allow_include_obfuscation") o' = openai (fv_allow_include_obfuscation fd).
Proof.
  unfold form_settings. cbv zeta. rewrite !update_other, !anthropic_other by other_key.
  unfold openai_settings. destruct (is_type fd 1); [|destruct (is_type fd 14); cbn [negb]];
    split_and!; last_write; reflexivity.
Qed.

Lemma get_anthropic fd o :
  let o' := form_settings fd o in
  let anthropic v := if is_type fd 14 then Some (YES_IF v) else None in
  obj_get (js "allow_speed") o' = anthropic (fv_allow_speed fd) ∧
  obj_get (js "claude_beta_query") o' = anthropic (fv_claude_beta_query fd) ∧
  obj_get (js "allow_inference_geo") o' =
    if is_type fd 1 || is_type fd 14 then Some (YES_IF (fv_allow_inference_geo fd)) else None.
Proof.
  unfold form_settings. cbv zeta. rewrite !update_other by other_key.
  unfold anthropic_settings, openai_settings. destruct (is_type fd 1), (is_type fd 14); cbn [orb negb];
    split_and!; last_write; reflexivity.
Qed.

Lemma get_update fd o :
  let o' := form_settings fd o in
  let check := is_true (fv_upstream_model_update_check_enabled fd) in
  fetchable fd = true →
  obj_get (js "upstream_model_update_check_enabled") o' = Some (VBool check) ∧
  obj_get (js "upstream_model_update_auto_sync_enabled") o' =
    Some (VBool (check && is_true (fv_upstream_model_update_auto_sync_enabled fd))) ∧
  obj_get (js "upstream_model_update_ignored_models") o' = Some (VArr (map VStr (ignored_models fd))).
Proof.
  cbv zeta. intros Hf. unfold form_settings, update_settings. rewrite Hf. cbv zeta.
  split_and!; repeat case_match; last_write; reflexivity.
Qed.

Lemma foreign_removed fd o k : k ∈ foreign_settings fd → obj_get k (form_settings fd o) = None.
Proof.
  destruct (get_openai fd o) as (E1 & E2 & E3). destruct (get_anthropic fd o) as (E4 & E5 & E6).
  pose proof (get_vertex fd o) as E7. pose proof (get_azure fd o) as E8. pose proof (get_enterprise fd o) as E9.
  pose proof (get_aws fd o) as E10. pose proof (get_tier fd o) as E11. revert E1 E2 E3 E4 E5 E6 E7 E8 E9 E10 E11.
  generalize (form_settings fd o). intros o'. cbv zeta. unfold foreign_settings. intros. rewrite !elem_of_app in H.
  destruct H as [H|[H|[H|[H|[H|[H|H]]]]]]; case_match; try (by apply elem_of_nil in H).
  all: repeat (apply elem_of_cons in H as [-> |H]); try (by apply elem_of_nil in H).
  all: match goal with E : obj_get ?x _ = _ |- obj_get ?y _ = None => constr_eq x y; rewrite E; reflexivity end.
Qed.

(** ** What JSON carries *)

(** The types the schema of the form demands. *)
Definition flag (v : value) : Prop := v = VUndef ∨ ∃ b, v = VBool b.
Definition text (v : value) : Prop := v = VUndef ∨ ∃ s, v = VStr s ∧ units_ok s.

Lemma flag_or v d : flag v → json_ok (val_or v (VBool d)).
Proof. intros [-> |[b ->]]; [done|]. by destruct b. Qed.

Lemma text_or_ok v d : text v → unitsb d = true → json_ok (val_or v (VStr d)).
Proof. intros [-> |(s & -> & Hs)] Hd%unitsb_ok; [done|]. unfold val_or. by case_match. Qed.

Lemma text_truthy v : text v → val_truthy v = true → json_ok v.
Proof. by intros [-> |(s & -> & Hs)]. Qed.

Lemma comma_units s : units_ok s → Forall units_ok (uniq (comma_list s)).
Proof.
  intros Hs. apply Forall_forall. intros p Hp. rewrite uniq_elem in Hp.
  apply filterb_elem in Hp as [(q & -> & Hq)%list_elem_of_fmap _]. apply units_trim.
  revert q Hq. unfold split. generalize (S (length s)). intros n. revert s Hs. induction n as [|n IH]; intros s Hs q; cbn [split_fuel].
  - by intros ->%list_elem_of_singleton.
  - destruct (index_of _ s) as [i|]; [|by intros ->%list_elem_of_singleton].
    intros [-> |Hq]%elem_of_cons; [by apply Forall_take|]. eapply IH; [|exact Hq]. by apply Forall_drop.
Qed.

Record form_ok fd : Prop := {
  fo_name : truthy (fv_name fd) = true;
  fo_models : truthy (fv_models fd) = true;
  fo_type : num_truthy (fv_type fd) = true;
  fo_status : num_truthy (fv_status fd) = true;
  fo_group : fv_group fd ≠ [] ∧ Forall clean_name (fv_group fd);
  fo_flags : Forall flag [fv_force_format fd; fv_thinking_to_content fd; fv_pass_through_body_enabled fd;
                          fv_system_prompt_override fd];
  fo_texts : Forall text [fv_proxy fd; fv_system_prompt fd; fv_vertex_key_type fd; fv_azure_responses_version fd;
                          fv_aws_key_type fd];
  fo_ignored : units_ok (text_or (fv_upstream_model_update_ignored_models fd));
}.

Lemma settings_sound fd o : form_ok fd → sound o → sound (form_settings fd o).
Proof.
  intros [_ _ _ _ _ _ Ht Hi] Ho. rewrite !Forall_cons in Ht. destruct Ht as (_ & _ & Hv & Ha & Hw & _).
  assert (json_ok (VArr (map VStr (ignored_models fd)))) as Hm by (by apply texts_json_ok, comma_units).
  assert (sound (vertex_setting fd o)) as H1 by (apply sound_put; [done|intros _; by apply text_or_ok|done]).
  assert (sound (azure_setting fd (vertex_setting fd o))) as H2.
  { apply sound_put; [done| |done]. intros [_ Hb]%andb_prop. by apply text_truthy. }
  unfold form_settings, enterprise_setting, tier_setting.
  set (o3 := aws_setting fd _). assert (sound o3) as H3.
  { apply sound_put; [done|intros _; by apply text_or_ok|]. apply sound_put; [done|done|done]. }
  set (o4 := put _ _ _ o3). assert (sound o4) as H4 by (apply sound_put; done).
  set (o5 := openai_settings fd o4). assert (sound o5) as H5.
  { unfold o5, openai_settings. repeat case_match; auto 8 with channel. }
  set (o6 := anthropic_settings fd o5). assert (sound o6) as H6.
  { unfold o6, anthropic_settings. case_match; auto 8 with channel. }
  unfold update_settings. case_match; [|done]. cbv zeta.
  set (o7 := obj_set (js "upstream_model_update_ignored_models") _ _).
  assert (sound o7) as H7 by (unfold o7; auto 8 with channel).
  set (o8 := match prop _ o7 with VArr _ => _ | _ => _ end).
  assert (sound o8) as H8 by (unfold o8; repeat case_match; auto with channel; by apply sound_set).
  repeat case_match; try done; by apply sound_set; [|vm_compute|].
Qed.

End Settings.

(** ** The members that are sent *)

Lemma get_cons k k' v (o : obj) : obj_get k ((k', v) :: o) = if str_eqb k' k then Some v else obj_get k o.
Proof. unfold obj_get. cbn. by destruct (str_eqb k' k). Qed.

(** The member of a list of members with concrete names. *)
Ltac find_member :=
  repeat lazymatch goal with
  | |- context [obj_get ?k ((?k', ?v) :: ?o)] =>
      rewrite (get_cons k k' v o);
      let b := eval vm_compute in (str_eqb k' k) in
      replace (str_eqb k' k) with b by (vm_compute; reflexivity); cbv iota
  | |- context [obj_get ?k []] => change (obj_get k []) with (@None value)
  end.

Section Sent.
Implicit Types (fd : ChannelFormValues) (o payload : obj).

Definition cleaned (v : value) : value := if strict_eq v (VStr []) then VNull else v.

Lemma get_clean k o : obj_get k (clean_empty o) = cleaned <$> obj_get k o.
Proof.
  unfold obj_get, clean_empty, cleaned. induction o as [|[k' v] o IH]; [done|]. cbn.
  destruct (strict_eq v (VStr [])) eqn:E; cbn; destruct (str_eqb k' k); cbn; [by rewrite E| |by rewrite E|]; apply IH.
Qed.

Definition str_member (k : jsstr) payload : jsstr := match prop k payload with VStr s => s | _ => [] end.
Definition num_member (k : jsstr) payload : num := match prop k payload with VNum x => x | _ => n0 end.

Definition sent_texts fd (settings : jsstr) : list (jsstr * jsstr) :=
  [(js "name", fv_name fd); (js "base_url", text_or (fv_base_url fd));
   (js "openai_organization", text_or (fv_openai_organization fd)); (js "models", fv_models fd);
   (js "group", formatGroups (fv_group fd)); (js "model_mapping", text_or (fv_model_mapping fd));
   (js "test_model", text_or (fv_test_model fd)); (js "status_code_mapping", text_or (fv_status_code_mapping fd));
   (js "tag", text_or (fv_tag fd)); (js "remark", text_or (fv_remark fd)); (js "setting", buildSettingJSON fd);
   (js "param_override", text_or (fv_param_override fd)); (js "header_override", text_or (fv_header_override fd));
   (js "settings", settings); (js "other", text_or (fv_other fd))].

Definition sent_numbers fd : list (jsstr * num) :=
  [(js "type", fv_type fd); (js "priority", from_opt n0 (fv_priority fd)); (js "weight", from_opt n0 (fv_weight fd));
   (js "auto_ban", from_opt n1 (fv_auto_ban fd)); (js "status", fv_status fd)].

Lemma cleaned_text s : match cleaned (VStr s) with VStr t => t | _ => [] end = s.
Proof. by destruct s. Qed.

Lemma cleaned_or_null s : match cleaned (text_or_null s) with VStr t => t | _ => [] end = text_or s.
Proof. unfold text_or_null. by destruct (text_or s). Qed.

Lemma cleaned_num x : match cleaned (num_or_null x) with VNum y => y | _ => n0 end = num_or_zero x.
Proof. unfold num_or_null, num_or_zero. destruct x as [x|]; [|done]. by destruct (num_truthy x). Qed.

(** The members of an update; those that are cleared by the form are sent as
    empty texts. *)
Definition cleared_members fd : list (jsstr * jsstr) :=
  [(js "base_url", text_or (fv_base_url fd)); (js "openai_organization", text_or (fv_openai_organization fd));
   (js "test_model", text_or (fv_test_model fd)); (js "tag", text_or (fv_tag fd)); (js "remark", text_or (fv_remark fd));
   (js "model_mapping", text_or (fv_model_mapping fd)); (js "status_code_mapping", text_or (fv_status_code_mapping fd));
   (js "param_override", text_or (fv_param_override fd)); (js "header_override", text_or (fv_header_override fd))].

Lemma sent_members fd id payload :
  transformFormDataToUpdatePayload fd id = Ok payload →
  ∃ settings, buildSettingsJSON fd = Ok settings ∧
    Forall (λ kv, str_member kv.1 payload = kv.2) (sent_texts fd settings) ∧
    Forall (λ kv, prop kv.1 payload = VNum kv.2) (sent_numbers fd) ∧
    Forall (λ kv, prop kv.1 payload = VStr kv.2) (cleared_members fd).
Proof.
  intros (settings & Hs & <-%Ok_inj)%exc_bind_Ok. exists settings. split; [exact Hs|].
  assert (NoDup (map fst (cleared_texts fd))) as Hn by other_key.
  set (o := if truthy (trim (fv_key fd)) then _ else _).
  assert (∀ k, k ≠ js "key" → obj_get k (clean_empty o) = cleaned <$> obj_get k (update_members fd id settings)) as Ho.
  { intros k Hk. rewrite get_clean. unfold o. case_match; [by rewrite obj_get_set_ne|done]. }
  clearbody o. unfold sent_texts, sent_numbers, cleared_members, str_member, prop.
  split_and!; repeat (apply Forall_cons; split; [cbn [fst snd]|]); try (by apply Forall_nil).
  all: rewrite obj_get_spread by exact Hn; unfold cleared_texts; find_member; try reflexivity.
  all: rewrite Ho by other_key; unfold update_members; find_member; try reflexivity; apply cleaned_text.
Qed.

Definition created_numbers fd : list (jsstr * num) :=
  [(js "type", fv_type fd); (js "priority", num_or_zero (fv_priority fd)); (js "weight", num_or_zero (fv_weight fd));
   (js "auto_ban", from_opt n1 (fv_auto_ban fd)); (js "status", fv_status fd)].

Lemma created_members fd p :
  transformFormDataToCreatePayload fd = Ok p →
  ∃ settings, buildSettingsJSON fd = Ok settings ∧
    Forall (λ kv, str_member kv.1 (create_channel p) = kv.2) (sent_texts fd settings) ∧
    Forall (λ kv, num_member kv.1 (create_channel p) = kv.2) (created_numbers fd).
Proof.
  intros (settings & Hs & <-%Ok_inj)%exc_bind_Ok. exists settings. split; [exact Hs|].
  cbn [create_channel]. unfold sent_texts, created_numbers, str_member, num_member, prop.
  split; repeat (apply Forall_cons; split; [cbn [fst snd]|]); try (by apply Forall_nil).
  all: rewrite get_clean; find_member; cbn [fmap option_fmap option_map from_opt];
    first [reflexivity|apply cleaned_text|apply cleaned_or_null|apply cleaned_num].
Qed.
End Sent.

(** ** What the server stores *)

(** Of an update, GORM writes the members that are not zero values in Go: an
    empty text or zero leaves a plain member as it was, null leaves one that is
    a pointer. *)
Definition kept_text (old sent : jsstr) : jsstr := if truthy sent then sent else old.
Definition kept_number (old sent : num) : num := if num_truthy sent then sent else old.
Definition pointer_text (old : jsstr) (sent : value) : jsstr := match sent with VStr s => s | _ => old end.
Definition pointer_number (old : num) (sent : value) : num := match sent with VNum x => x | _ => old end.

(** The server joins the distinct groups. *)
Definition stored_groups (sent : jsstr) : jsstr := join [44] (uniq (comma_list sent)).

(** The channel [c] after [payload] was stored into [old]; an empty text may be
    answered with null. *)
Record stores (old : Channel) (payload : obj) (c : Channel) : Prop := {
  st_name : ch_name c = kept_text (ch_name old) (str_member (js "name") payload);
  st_type : ch_type c = kept_number (ch_type old) (num_member (js "type") payload);
  st_base_url : text_or (ch_base_url c) = pointer_text (text_or (ch_base_url old)) (prop (js "base_url") payload);
  st_openai_organization : text_or (ch_openai_organization c)
    = pointer_text (text_or (ch_openai_organization old)) (prop (js "openai_organization") payload);
  st_models : ch_models c = kept_text (ch_models old) (str_member (js "models") payload);
  st_group : ch_group c = kept_text (ch_group old) (stored_groups (str_member (js "group") payload));
  st_model_mapping : text_or (ch_model_mapping c)
    = pointer_text (text_or (ch_model_mapping old)) (prop (js "model_mapping") payload);
  st_priority : from_opt n0 (ch_priority c) = pointer_number (from_opt n0 (ch_priority old)) (prop (js "priority") payload);
  st_weight : from_opt n0 (ch_weight c) = pointer_number (from_opt n0 (ch_weight old)) (prop (js "weight") payload);
  st_test_model : text_or (ch_test_model c) = pointer_text (text_or (ch_test_model old)) (prop (js "test_model") payload);
  st_auto_ban : from_opt n1 (ch_auto_ban c) = pointer_number (from_opt n1 (ch_auto_ban old)) (prop (js "auto_ban") payload);
  st_status : ch_status c = kept_number (ch_status old) (num_member (js "status") payload);
  st_status_code_mapping : text_or (ch_status_code_mapping c)
    = pointer_text (text_or (ch_status_code_mapping old)) (prop (js "status_code_mapping") payload);
  st_tag : text_or (ch_tag c) = pointer_text (text_or (ch_tag old)) (prop (js "tag") payload);
  st_remark : ch_remark c = pointer_text (ch_remark old) (prop (js "remark") payload);
  st_setting : text_or (ch_setting c) = pointer_text (text_or (ch_setting old)) (prop (js "setting") payload);
  st_param_override : text_or (ch_param_override c)
    = pointer_text (text_or (ch_param_override old)) (prop (js "param_override") payload);
  st_header_override : text_or (ch_header_override c)
    = pointer_text (text_or (ch_header_override old)) (prop (js "header_override") payload);
  st_settings : text_or (ch_settings c) = kept_text (text_or (ch_settings old)) (str_member (js "settings") payload);
  st_other : ch_other c = kept_text (ch_other old) (str_member (js "other") payload);
}.

(** A new channel with the members that were sent; null is the empty text and
    the number zero. *)
Record stores_new (channel : obj) (c : Channel) : Prop := {
  sn_name : ch_name c = str_member (js "name") channel;
  sn_type : ch_type c = num_member (js "type") channel;
  sn_base_url : text_or (ch_base_url c) = str_member (js "base_url") channel;
  sn_openai_organization : text_or (ch_openai_organization c) = str_member (js "openai_organization") channel;
  sn_models : ch_models c = str_member (js "models") channel;
  sn_group : ch_group c = stored_groups (str_member (js "group") channel);
  sn_model_mapping : text_or (ch_model_mapping c) = str_member (js "model_mapping") channel;
  sn_priority : from_opt n0 (ch_priority c) = num_member (js "priority") channel;
  sn_weight : from_opt n0 (ch_weight c) = num_member (js "weight") channel;
  sn_test_model : text_or (ch_test_model c) = str_member (js "test_model") channel;
  sn_auto_ban : from_opt n1 (ch_auto_ban c) = num_member (js "auto_ban") channel;
  sn_status : ch_status c = num_member (js "status") channel;
  sn_status_code_mapping : text_or (ch_status_code_mapping c) = str_member (js "status_code_mapping") channel;
  sn_tag : text_or (ch_tag c) = str_member (js "tag") channel;
  sn_remark : ch_remark c = str_member (js "remark") channel;
  sn_setting : text_or (ch_setting c) = str_member (js "setting") channel;
  sn_param_override : text_or (ch_param_override c) = str_member (js "param_override") channel;
  sn_header_override : text_or (ch_header_override c) = str_member (js "header_override") channel;
  sn_settings : text_or (ch_settings c) = str_member (js "settings") channel;
  sn_other : ch_other c = str_member (js "other") channel;
}.

(** The channel [c] that a form was saved as, and its other text: an update of
    [old], or a new channel whose name the server does not extend. *)
Inductive saved_as (fd : ChannelFormValues) : Channel → jsstr → Prop :=
  | saved_update id payload old c :
      transformFormDataToUpdatePayload fd id = Ok payload → stores old payload c →
      saved_as fd c (kept_text (ch_other old) (text_or (fv_other fd)))
  | saved_create p c :
      transformFormDataToCreatePayload fd = Ok p → create_prefix p ≠ Some true → stores_new (create_channel p) c →
      saved_as fd c (text_or (fv_other fd)).

Section Reopen.
Implicit Types (fd : ChannelFormValues) (o payload : obj) (c : Channel).

(** What the form shows of every channel. *)
Definition basic_values fd : list value :=
  [VStr (fv_name fd); VNum (fv_type fd); VStr (text_or (fv_base_url fd)); VStr (text_or (fv_openai_organization fd));
   VStr (fv_models fd); VArr (map VStr (uniq (fv_group fd))); VStr (text_or (fv_model_mapping fd));
   VNum (num_or_zero (fv_priority fd)); VNum (num_or_zero (fv_weight fd)); VStr (text_or (fv_test_model fd));
   VNum (from_opt n1 (fv_auto_ban fd)); VNum (fv_status fd); VStr (text_or (fv_status_code_mapping fd));
   VStr (text_or (fv_tag fd)); VStr (text_or (fv_remark fd)); VStr (text_or (fv_param_override fd));
   VStr (text_or (fv_header_override fd))].

Definition extra_values fd : list value :=
  [val_or (fv_force_format fd) NO; val_or (fv_thinking_to_content fd) NO; val_or (fv_proxy fd) (VStr []);
   val_or (fv_pass_through_body_enabled fd) NO; val_or (fv_system_prompt fd) (VStr []);
   val_or (fv_system_prompt_override fd) NO].

(** What it shows of a channel of its type. *)
Definition type_values fd : list value :=
  (if is_type fd 41 then [val_or (fv_vertex_key_type fd) (VStr (js "json"))] else []) ++
  (if is_type fd 3 then [val_or (fv_azure_responses_version fd) (VStr [])] else []) ++
  (if is_type fd 20 then [YES_IF (fv_is_enterprise_account fd)] else []) ++
  (if is_type fd 33 then [val_or (fv_aws_key_type fd) (VStr (js "ak_sk"))] else []) ++
  (if is_type fd 1 || is_type fd 14 then
     [YES_IF (fv_allow_service_tier fd); YES_IF (fv_allow_inference_geo fd)] else []) ++
  (if is_type fd 1 then
     [YES_IF (fv_disable_store fd); YES_IF (fv_allow_safety_identifier fd); YES_IF (fv_allow_include_obfuscation fd)]
   else []) ++
  (if is_type fd 14 then [YES_IF (fv_allow_speed fd); YES_IF (fv_claude_beta_query fd)] else []).

(** The updates of the models of the upstream: synchronising needs checking. *)
Definition update_values fd : value * value * list jsstr :=
  let check := is_true (fv_upstream_model_update_check_enabled fd) in
  (VBool check, VBool (check && is_true (fv_upstream_model_update_auto_sync_enabled fd)), ignored_models fd).

Lemma text_members_read o t s : sound o → stringify (VObj o) = Some t → text_or s = t → text_members s = o.
Proof.
  intros Ho Hs E. destruct (sound_text o Ho) as (t' & Hs' & Ht & Hp). rewrite Hs in Hs'. injection Hs' as <-.
  unfold text_members. rewrite E, Ht. unfold parsed_members. by rewrite Hp.
Qed.

Lemma setting_sound fd : form_ok fd → sound (setting_obj fd).
Proof.
  intros [_ _ _ _ _ Hf Ht _]. rewrite !Forall_cons in Hf, Ht. destruct Hf as (H1 & H2 & H3 & H4 & _), Ht as (H5 & H6 & _).
  split; [apply wf_decide; vm_compute; reflexivity|]. unfold setting_obj. intros k v Hin.
  repeat (apply elem_of_cons in Hin as [[= -> ->]|Hin];
    [split; [by apply unitsb_ok|first [by apply flag_or|by apply text_or_ok]]|]).
  by apply elem_of_nil in Hin.
Qed.

Lemma val_or_idemp v d : val_or (val_or v d) d = val_or v d.
Proof. unfold val_or. destruct (val_truthy v) eqn:E; [by rewrite E|]. by destruct (val_truthy d). Qed.

Lemma num_or_zero_some x : num_or_zero x = num_or_zero (Some (from_opt n0 x)).
Proof. destruct x; [done|by vm_compute]. Qed.

Lemma num_or_zero_spec x : num_or_zero (Some (num_or_zero x)) = num_or_zero (Some (from_opt n0 x)).
Proof. destruct x as [x|]; [|by vm_compute]. cbn. destruct (num_truthy x) eqn:E; [by rewrite E|by vm_compute]. Qed.

Ltac each_sent H := repeat (let E := fresh "E" in apply Forall_cons in H as [E H]; cbn [fst snd] in E).

(** What both ways of saving store. *)
Record stored fd (settings other : jsstr) c : Prop := {
  sd_name : ch_name c = fv_name fd;
  sd_type : ch_type c = fv_type fd;
  sd_base_url : text_or (ch_base_url c) = text_or (fv_base_url fd);
  sd_openai_organization : text_or (ch_openai_organization c) = text_or (fv_openai_organization fd);
  sd_models : ch_models c = fv_models fd;
  sd_group : ch_group c = stored_groups (formatGroups (fv_group fd));
  sd_model_mapping : text_or (ch_model_mapping c) = text_or (fv_model_mapping fd);
  sd_priority : num_or_zero (ch_priority c) = num_or_zero (fv_priority fd);
  sd_weight : num_or_zero (ch_weight c) = num_or_zero (fv_weight fd);
  sd_test_model : text_or (ch_test_model c) = text_or (fv_test_model fd);
  sd_auto_ban : from_opt n1 (ch_auto_ban c) = from_opt n1 (fv_auto_ban fd);
  sd_status : ch_status c = fv_status fd;
  sd_status_code_mapping : text_or (ch_status_code_mapping c) = text_or (fv_status_code_mapping fd);
  sd_tag : text_or (ch_tag c) = text_or (fv_tag fd);
  sd_remark : ch_remark c = text_or (fv_remark fd);
  sd_setting : text_or (ch_setting c) = buildSettingJSON fd;
  sd_param_override : text_or (ch_param_override c) = text_or (fv_param_override fd);
  sd_header_override : text_or (ch_header_override c) = text_or (fv_header_override fd);
  sd_settings : text_or (ch_settings c) = settings;
  sd_other : ch_other c = other;
}.

Lemma groups_read_back l : l ≠ [] → Forall clean_name l →
  truthy (stored_groups (formatGroups l)) = true ∧ comma_list (stored_groups (formatGroups l)) = uniq l.
Proof.
  intros Hne Hl. unfold stored_groups, formatGroups. rewrite comma_list_join by done. pose proof (uniq_clean l Hl) as Hu.
  assert (uniq l ≠ []) as Hn.
  { destruct l as [|g l]; [done|]. intros E. assert (g ∈ uniq (g :: l)) as Hg by (rewrite uniq_elem; by left).
    rewrite E in Hg. by apply elem_of_nil in Hg. }
  split; [by apply join_truthy|by apply comma_list_join].
Qed.

Lemma setting_truthy fd : form_ok fd → truthy (buildSettingJSON fd) = true.
Proof.
  intros Hfd. destruct (sound_text _ (setting_sound fd Hfd)) as (t & Hs & Ht & _). unfold buildSettingJSON. by rewrite Hs.
Qed.

(** The settings that are written are an object, so their text is not empty. *)
Lemma update_stored fd id payload old c :
  form_ok fd → (∀ settings, buildSettingsJSON fd = Ok settings → truthy settings = true) →
  transformFormDataToUpdatePayload fd id = Ok payload → stores old payload c →
  ∃ settings, buildSettingsJSON fd = Ok settings ∧ stored fd settings (kept_text (ch_other old) (text_or (fv_other fd))) c.
Proof.
  intros Hfd Hset (settings & Hb & Ht & Hn & Hcl)%sent_members []. exists settings. split; [done|].
  pose proof (Hset _ Hb) as Hst. pose proof (setting_truthy fd Hfd) as Hss. destruct Hfd as [Hname Hmod Hty Hsta [Hg Hc] _ _ _].
  destruct (groups_read_back _ Hg Hc) as [Hgt _].
  unfold sent_texts in Ht. unfold sent_numbers in Hn. unfold cleared_members in Hcl. each_sent Ht. each_sent Hn. each_sent Hcl.
  assert (num_member (js "type") payload = fv_type fd ∧ num_member (js "status") payload = fv_status fd) as [Et Es]
    by (unfold num_member; split; by match goal with E : prop ?k payload = VNum _ |- context [prop ?k' payload] => constr_eq k k'; rewrite E end).
  assert (∀ old', pointer_text old' (prop (js "setting") payload) = buildSettingJSON fd) as Eset.
  { intros old'. match goal with E : str_member ?k payload = buildSettingJSON fd |- _ => unfold str_member in E; revert E end.
    destruct (prop (js "setting") payload); intros Hv; first [exact Hv|by rewrite <- Hv in Hss]. }
  split.
  all: first [done|idtac].
  all: match goal with
    | H : ?x = _ |- ?x = _ => rewrite H
    | H : from_opt n0 ?x = _ |- num_or_zero ?x = num_or_zero ?y => rewrite (num_or_zero_some x), (num_or_zero_some y), H
    end.
  all: try match goal with H : prop ?k _ = _ |- context [prop ?k' _] => constr_eq k k'; rewrite H; reflexivity end.
  all: try match goal with H : str_member ?k _ = _ |- context [str_member ?k' _] => constr_eq k k'; rewrite H end.
  all: unfold kept_text, kept_number; rewrite ?Et, ?Es, ?Hname, ?Hmod, ?Hty, ?Hsta, ?Hgt, ?Hst, ?Eset; reflexivity.
Qed.

Lemma create_stored fd p c :
  transformFormDataToCreatePayload fd = Ok p → stores_new (create_channel p) c →
  ∃ settings, buildSettingsJSON fd = Ok settings ∧ stored fd settings (text_or (fv_other fd)) c.
Proof.
  intros (settings & Hb & Ht & Hn)%created_members []. exists settings. split; [done|].
  unfold sent_texts in Ht. unfold created_numbers in Hn. each_sent Ht. each_sent Hn.
  split.
  all: match goal with
    | H : ?x = _ |- ?x = _ => rewrite H
    | H : from_opt n0 ?x = _ |- num_or_zero ?x = _ => rewrite (num_or_zero_some x), H
    end.
  all: try match goal with H : str_member ?k _ = _ |- context [str_member ?k' _] => constr_eq k k'; rewrite H; reflexivity end.
  all: match goal with H : num_member ?k _ = _ |- context [num_member ?k' _] => constr_eq k k'; rewrite H end.
  all: first [reflexivity|rewrite num_or_zero_spec; by rewrite <- num_or_zero_some].
Qed.

Lemma saved_stored fd o c other :
  form_ok fd → stored_settings fd = VObj o → json_ok (VObj o) → saved_as fd c other →
  ∃ settings, buildSettingsJSON fd = Ok settings ∧ stored fd settings other c.
Proof.
  intros Hfd Ho Hj%json_ok_sound [id payload old c' Hp Hs|p c' Hp _ Hs]; [|by eapply create_stored].
  eapply update_stored; [done| |done|done]. intros settings Hb.
  destruct (sound_text _ (settings_sound fd o Hfd Hj)) as (t & Et & Htr & _). unfold buildSettingsJSON in Hb.
  rewrite Ho, Et in Hb. by injection Hb as <-.
Qed.

Lemma reopen_basic fd settings other c :
  form_ok fd → stored fd settings other c → basic_values (transformChannelToFormDefaults c) = basic_values fd.
Proof.
  intros [_ _ _ _ [Hg Hc] _ _ _] []. destruct (groups_read_back _ Hg Hc) as [Hgt Hgb].
  unfold basic_values, transformChannelToFormDefaults.
  cbn [fv_name fv_type fv_base_url fv_openai_organization fv_models fv_group fv_model_mapping fv_priority fv_weight
    fv_test_model fv_auto_ban fv_status fv_status_code_mapping fv_tag fv_remark fv_param_override fv_header_override
    text_or from_opt].
  change (from_opt [] ?x) with (text_or x). rewrite !num_or_zero_spec, <- !num_or_zero_some.
  assert (uniq (parseGroups (str_or (ch_group c) (js "default"))) = uniq (fv_group fd)) as ->.
  { rewrite sd_group0. unfold str_or, parseGroups. rewrite Hgt, Hgt, Hgb. apply uniq_idemp. }
  repeat (f_equal; [congruence|]). congruence.
Qed.

Lemma reopen_extra fd settings other c :
  form_ok fd → stored fd settings other c → extra_values (transformChannelToFormDefaults c) = extra_values fd.
Proof.
  intros Hfd Hst. pose proof (sd_setting _ _ _ _ Hst) as Es. destruct (sound_text _ (setting_sound fd Hfd)) as (t & Hs & _).
  assert (text_members (ch_setting c) = setting_obj fd) as Em.
  { apply (text_members_read _ t); [by apply setting_sound|done|]. rewrite Es. unfold buildSettingJSON. by rewrite Hs. }
  unfold extra_values, transformChannelToFormDefaults. cbv zeta. rewrite Em.
  cbn [fv_force_format fv_thinking_to_content fv_proxy fv_pass_through_body_enabled fv_system_prompt fv_system_prompt_override].
  unfold prop, setting_obj. find_member. cbn [from_opt]. by rewrite !val_or_idemp.
Qed.

(** The settings of a stored channel are the ones the form wrote. *)
Lemma reopen_settings fd settings other c o :
  form_ok fd → stored_settings fd = VObj o → json_ok (VObj o) →
  buildSettingsJSON fd = Ok settings → stored fd settings other c →
  text_members (ch_settings c) = form_settings fd o ∧
  stored_settings (transformChannelToFormDefaults c) = VObj (form_settings fd o).
Proof.
  intros Hfd Ho Hj%json_ok_sound Hb Hst. pose proof (settings_sound fd o Hfd Hj) as Hs. destruct (sound_text _ Hs) as (t & Et & Htr & Hp).
  assert (text_or (ch_settings c) = t) as Ec.
  { rewrite (sd_settings _ _ _ _ Hst). unfold buildSettingsJSON in Hb. rewrite Ho, Et in Hb. by injection Hb. }
  split; [by apply (text_members_read _ t)|].
  unfold stored_settings, transformChannelToFormDefaults. cbv zeta. cbn [fv_settings text_or from_opt].
  rewrite Ec. unfold str_or. rewrite Htr, Htr. destruct (str_eqb t (js "{}")) eqn:Eq; cbn [negb andb].
  - unfold str_eqb in Eq. apply bool_decide_eq_true in Eq as ->.
    assert (json_parse (js "{}") = Some (VObj [])) as Enil by (vm_compute; reflexivity). congruence.
  - by rewrite Hp.
Qed.

Lemma reopen_type fd fd' o :
  fv_type fd' = fv_type fd →
  (∃ c, fd' = transformChannelToFormDefaults c ∧ text_members (ch_settings c) = form_settings fd o) →
  type_values fd' = type_values fd ∧ (fetchable fd = true → update_values fd' = update_values fd).
Proof.
  intros Et (c & -> & Em).
  assert (∀ t, is_type (transformChannelToFormDefaults c) t = is_type fd t) as Hty by (intros t; unfold is_type; by rewrite Et).
  split.
  - unfold type_values. rewrite !Hty. unfold transformChannelToFormDefaults. cbv zeta. rewrite Em.
    cbn [fv_vertex_key_type fv_azure_responses_version fv_is_enterprise_account fv_aws_key_type fv_allow_service_tier
      fv_allow_inference_geo fv_disable_store fv_allow_safety_identifier fv_allow_include_obfuscation fv_allow_speed
      fv_claude_beta_query].
    destruct (get_openai fd o) as (E1 & E2 & E3). destruct (get_anthropic fd o) as (E4 & E5 & E6).
    unfold prop. rewrite E1, E2, E3, E4, E5, E6, get_vertex, get_azure, get_enterprise, get_aws, get_tier.
    clear E1 E2 E3 E4 E5 E6. repeat (apply f_equal2; [|]).
    + case_match; [|reflexivity]. cbn [from_opt]. by rewrite !val_or_idemp.
    + case_match; [|reflexivity]. cbn [andb]. unfold val_or.
      destruct (val_truthy (fv_azure_responses_version fd)) eqn:E; cbn; by rewrite ?E.
    + by case_match.
    + case_match; [|reflexivity]. cbn [from_opt]. by rewrite !val_or_idemp.
    + by case_match.
    + by case_match.
    + by case_match.
  - intros Hf. destruct (get_update fd o Hf) as (E1 & E2 & E3). unfold update_values, ignored_models, transformChannelToFormDefaults.
    cbv zeta. cbn [fv_upstream_model_update_check_enabled fv_upstream_model_update_auto_sync_enabled
      fv_upstream_model_update_ignored_models text_or from_opt].
    rewrite Em. unfold prop. rewrite E1, E2, E3. cbn [from_opt YES_IF is_true].
    rewrite joined_texts, andb_assoc, andb_diag, comma_list_join by (apply uniq_clean, comma_list_clean).
    unfold ignored_models. by rewrite uniq_idemp.
Qed.


End Reopen.

(** ** A sample channel *)

Definition sample_form : ChannelFormValues :=
  {| fv_name := js "relay"; fv_type := of_Z 14; fv_base_url := Some (js "https://example.com"); fv_key := [];
     fv_openai_organization := None; fv_models := js "opus,sonnet"; fv_group := [js "default"; js "vip"];
     fv_model_mapping := Some []; fv_priority := None; fv_weight := Some (of_Z 2); fv_test_model := None;
     fv_auto_ban := Some n1; fv_status := n1; fv_status_code_mapping := None; fv_tag := Some []; fv_remark := None;
     fv_setting := None; fv_param_override := None; fv_header_override := None;
     fv_settings := Some (jsq "{'disable_store':true,'region':'eu'}"); fv_other := None;
     fv_multi_key_mode := None; fv_multi_key_type := None; fv_batch_add_set_key_prefix_2_name := None;
     fv_key_mode := None; fv_force_format := VBool true; fv_thinking_to_content := VUndef;
     fv_proxy := VStr (js "socks5://proxy"); fv_pass_through_body_enabled := NO; fv_system_prompt := VUndef;
     fv_system_prompt_override := NO; fv_is_enterprise_account := VUndef; fv_vertex_key_type := VUndef;
     fv_azure_responses_version := VUndef; fv_aws_key_type := VUndef; fv_allow_service_tier := VBool true;
     fv_disable_store := VUndef; fv_allow_safety_identifier := VUndef; fv_allow_include_obfuscation := VUndef;
     fv_allow_inference_geo := VBool true; fv_allow_speed := NO; fv_claude_beta_query := VBool true;
     fv_upstream_model_update_check_enabled := VBool true; fv_upstream_model_update_auto_sync_enabled := VBool true;
     fv_upstream_model_update_ignored_models := Some (js " beta, alpha ,beta,") |}.

Definition sample_payload : obj :=
  match transformFormDataToUpdatePayload sample_form (of_Z 7) with Ok p => p | _ => [] end.

(** The channel before: its other text is not cleared. *)
Definition sample_before : Channel :=
  {| ch_name := js "old"; ch_type := of_Z 1; ch_base_url := None; ch_openai_organization := None; ch_models := js "gpt";
     ch_group := js "default"; ch_model_mapping := None; ch_priority := None; ch_weight := None; ch_test_model := None;
     ch_auto_ban := None; ch_status := n1; ch_status_code_mapping := None; ch_tag := None; ch_remark := [];
     ch_setting := None; ch_param_override := None; ch_header_override := None; ch_settings := None;
     ch_other := js "2024-02-01"; ch_multi_key_mode := None |}.

Definition sample_channel : Channel :=
  {| ch_name := str_member (js "name") sample_payload; ch_type := num_member (js "type") sample_payload;
     ch_base_url := Some (str_member (js "base_url") sample_payload); ch_openai_organization := None;
     ch_models := str_member (js "models") sample_payload; ch_group := str_member (js "group") sample_payload;
     ch_model_mapping := None; ch_priority := Some n0; ch_weight := Some (num_member (js "weight") sample_payload);
     ch_test_model := None; ch_auto_ban := Some n1; ch_status := n1; ch_status_code_mapping := None; ch_tag := None;
     ch_remark := []; ch_setting := Some (str_member (js "setting") sample_payload); ch_param_override := None;
     ch_header_override := None; ch_settings := Some (str_member (js "settings") sample_payload);
     ch_other := js "2024-02-01"; ch_multi_key_mode := None |}.

Lemma sample_form_ok : form_ok sample_form.
Proof.
  split; try (vm_compute; reflexivity).
  - split; [discriminate|]. repeat (apply Forall_cons; split; [split_and!; other_key|]). by apply Forall_nil.
  - repeat (apply Forall_cons; split; [first [by left | right; eexists; reflexivity]|]). by apply Forall_nil.
  - repeat (apply Forall_cons; split; [first [by left | right; eexists; split; [reflexivity|by apply unitsb_ok]]|]). by apply Forall_nil.
  - by apply unitsb_ok.
Qed.

