(* ===== verification/ChannelMapping.v ===== *)
(** * Mappings of a channel

    Model of src/web/default/src/features/channels: lib/model-mapping-validation.ts,
    lib/model-mapping-state.ts, lib/status-code-risk-guard.ts,
    lib/upstream-update-utils.ts, the editor of a model mapping
    (components/model-mapping-editor.tsx) and the checks that the form of a
    channel makes before it sends it (onSubmit of
    components/drawers/channel-mutate-drawer.tsx).

    The two dialogs of a submission are arguments: what the user answers to the
    list that is shown. *)
From S2P Require Import Prelude JsString JsNumber JsValue JsonFacts Currency PlaygroundStorage CreationHistory CreationRequests ChannelForm.

Open Scope N_scope.

(** ** Models and their mapping *)

Definition parseModelsString (modelsStr : jsstr) : list jsstr := if truthy modelsStr then comma_list modelsStr else [].
Definition formatModelsArray (models : list jsstr) : jsstr := join [44] (uniq models).
Definition normalizeChannelModelName (model : jsstr) : jsstr := trim model.

(** The members of a text that is a JSON object. *)
Definition mapping_object (text : jsstr) : option obj :=
  match json_parse text with Some (VObj o) => Some o | _ => None end.

Definition extractMappingSourceModels (modelMapping : jsstr) : list jsstr :=
  let trimmed := trim modelMapping in
  if negb (truthy trimmed) then []
  else
    match mapping_object trimmed with
    | Some parsed => uniq (filterb truthy (map trim (obj_keys parsed)))
    | None => []
    end.

Definition extractRedirectModels (modelMapping : jsstr) : list jsstr :=
  let trimmed := trim modelMapping in
  if negb (truthy trimmed) then []
  else
    match mapping_object trimmed with
    | Some parsed =>
        uniq (filterb truthy (map (λ v, match v with VStr s => trim s | _ => [] end) (obj_values parsed)))
    | None => []
    end.

Definition hasModelConfigChanged (currentModels : list jsstr) (currentModelMapping : jsstr)
    (initialModels : list jsstr) (initialModelMapping : jsstr) : bool :=
  if bool_decide (initialModels = []) && negb (truthy initialModelMapping) then true
  else if negb (bool_decide (currentModels = initialModels)) then true
  else negb (str_eqb (trim currentModelMapping) (trim initialModelMapping)).

Definition findMissingModelsInMapping (modelMapping : jsstr) (currentModels : list jsstr) : list jsstr :=
  if negb (truthy (trim modelMapping)) then []
  else
    match mapping_object modelMapping with
    | None => []
    | Some parsedMapping =>
        let modelSet := map normalizeChannelModelName currentModels in
        uniq (filterb (λ key, truthy key && negb (includes key modelSet))
          (map normalizeChannelModelName (obj_keys parsedMapping)))
    end.

(** [None] is a valid text, [Some e] the error. *)
Definition validateModelMappingJson (modelMapping : jsstr) : option jsstr :=
  if negb (truthy (trim modelMapping)) then None
  else
    match json_parse modelMapping with
    | Some (VObj _) => None
    | Some _ => Some (js "Model mapping must be a valid JSON object")
    | None => Some (js "Model mapping must be valid JSON format")
    end.

Definition findExposedTargetModels (modelMapping : jsstr) (currentModels : list jsstr) : list jsstr :=
  let modelSet := map normalizeChannelModelName currentModels in
  filterb (λ model, includes (normalizeChannelModelName model) modelSet) (extractRedirectModels modelMapping).

Record ModelCategories := Categories {
  normalizedCurrentModels : list jsstr;
  normalizedRedirectModels : list jsstr;
  classificationSet : list jsstr;
  redirectOnlySet : list jsstr;
}.

Definition categorizeModelsWithRedirect (currentModels redirectModels : list jsstr) : ModelCategories :=
  let current := uniq (filterb truthy (map normalizeChannelModelName currentModels)) in
  let redirect := uniq (filterb truthy (map normalizeChannelModelName redirectModels)) in
  Categories current redirect (uniq (current ++ redirect)) (uniq (filterb (λ m, negb (includes m current)) redirect)).

(** ** Updates of the upstream *)

(** [String(model || '')] can throw for an object. *)
Definition normalizeModelList (models : list value) : exc (list jsstr) :=
  texts ← mapM (λ v, match to_string (val_or v (VStr [])) with Some s => Ok (trim s) | None => Throw end) models;
  Ok (uniq (filterb truthy texts)).

(** The array of a member; another value that is not falsy has no [map]. *)
Definition model_list (v : value) : exc (list jsstr) :=
  match v with
  | VArr l => normalizeModelList l
  | v => if val_truthy v then Throw else Ok []
  end.

Record UpstreamUpdateMeta := UpdateMeta {
  meta_enabled : bool;
  pendingAddModels : list jsstr;
  pendingRemoveModels : list jsstr;
}.

Definition settings_members (settings : value) : option obj :=
  match settings with
  | VObj o => Some o
  | VStr text =>
      match json_parse text with Some (VObj o) => Some o | Some (VArr _) => Some [] | _ => None end
  | _ => None
  end.

Definition parseUpstreamUpdateMeta (settings : value) : exc UpstreamUpdateMeta :=
  match settings_members settings with
  | None => Ok (UpdateMeta false [] [])
  | Some parsed =>
      add ← model_list (prop (js "upstream_model_update_last_detected_models") parsed);
      remove ← model_list (prop (js "upstream_model_update_last_removed_models") parsed);
      Ok (UpdateMeta (strict_eq (prop (js "upstream_model_update_check_enabled") parsed) (VBool true)) add remove)
  end.

(** ** Mappings of status codes *)

Definition NON_REDIRECTABLE_STATUS_CODES : list Z := [504; 524]%Z.

(** [/^[1-5]\d{2}$/]. *)
Definition is_status_text (s : jsstr) : bool :=
  match s with
  | [a; b; c] => (49 <=? a) && (a <=? 53) && is_digit b && is_digit c
  | _ => false
  end.

Definition parseStatusCodeKey (rawKey : jsstr) : option Z :=
  let normalized := trim rawKey in
  if is_status_text normalized then Some (Z.of_N (digits_value normalized)) else None.

Definition parseStatusCodeMappingTarget (rawValue : value) : option Z :=
  match rawValue with
  | VNum x => match to_Z x with Some z => if (100 <=? z)%Z && (z <=? 599)%Z then Some z else None | None => None end
  | VStr s =>
      let normalized := trim s in
      if is_status_text normalized then
        let code := Z.of_N (digits_value normalized) in
        if (100 <=? code)%Z && (code <=? 599)%Z then Some code else None
      else None
  | _ => None
  end.

Definition status_entries (statusCodeMappingStr : jsstr) : obj :=
  if negb (truthy (trim statusCodeMappingStr)) then [] else from_opt [] (mapping_object statusCodeMappingStr).

(** The code and its target, when both are codes. *)
Definition status_pair (entry : jsstr * value) : option (Z * Z) :=
  from ← parseStatusCodeKey entry.1; to ← parseStatusCodeMappingTarget entry.2; Some (from, to).

Definition collectInvalidStatusCodeEntries (statusCodeMappingStr : jsstr) : exc (list jsstr) :=
  mapM (λ kv : jsstr * value,
      match to_string kv.2 with Some s => Ok (kv.1 ++ js " → " ++ s) | None => Throw end)
    (filterb (λ kv, negb (is_some (status_pair kv))) (status_entries statusCodeMappingStr)).

Definition redirect_text (p : Z * Z) : jsstr := dec_Z p.1 ++ js " -> " ++ dec_Z p.2.

Definition is_risky (p : Z * Z) : bool := includes p.1 NON_REDIRECTABLE_STATUS_CODES && negb (p.1 =? p.2)%Z.

Definition collectDisallowedStatusCodeRedirects (statusCodeMappingStr : jsstr) : list jsstr :=
  sort_strings (uniq (map redirect_text (filterb is_risky (omap status_pair (status_entries statusCodeMappingStr))))).

Definition collectNewDisallowedStatusCodeRedirects (originalStr currentStr : jsstr) : list jsstr :=
  let originalRiskySet := collectDisallowedStatusCodeRedirects originalStr in
  filterb (λ mapping, negb (includes mapping originalRiskySet)) (collectDisallowedStatusCodeRedirects currentStr).

(** ** Submitting the form *)

Inductive MissingModelsAction := Cancel | SubmitAnyway | AddMissing.

(** What the form remembers of the channel that was opened. *)
Record InitialChannel := Initial {
  initialModels : list jsstr;
  initialModelMapping : jsstr;
  initialStatusCodeMapping : jsstr;
}.

Inductive channel_submission :=
| KeyRequired
| InvalidStatusCodes (entries : list jsstr)
| RiskRefused
| InvalidMapping (error : jsstr)
| MissingCancelled
| Sent (data : ChannelFormValues).

Definition with_models (models : jsstr) (d : ChannelFormValues) : ChannelFormValues :=
  FormValues (fv_name d) (fv_type d) (fv_base_url d) (fv_key d) (fv_openai_organization d) models (fv_group d)
    (fv_model_mapping d) (fv_priority d) (fv_weight d) (fv_test_model d) (fv_auto_ban d) (fv_status d)
    (fv_status_code_mapping d) (fv_tag d) (fv_remark d) (fv_setting d) (fv_param_override d) (fv_header_override d)
    (fv_settings d) (fv_other d) (fv_multi_key_mode d) (fv_multi_key_type d) (fv_batch_add_set_key_prefix_2_name d)
    (fv_key_mode d) (fv_force_format d) (fv_thinking_to_content d) (fv_proxy d) (fv_pass_through_body_enabled d)
    (fv_system_prompt d) (fv_system_prompt_override d) (fv_is_enterprise_account d) (fv_vertex_key_type d)
    (fv_azure_responses_version d) (fv_aws_key_type d) (fv_allow_service_tier d) (fv_disable_store d)
    (fv_allow_safety_identifier d) (fv_allow_include_obfuscation d) (fv_allow_inference_geo d) (fv_allow_speed d)
    (fv_claude_beta_query d) (fv_upstream_model_update_check_enabled d) (fv_upstream_model_update_auto_sync_enabled d)
    (fv_upstream_model_update_ignored_models d).

Section Submit.
Context (confirmStatusCodeRisk : list jsstr → bool) (confirmMissing : list jsstr → MissingModelsAction).
Context (isEditing : bool) (initial : InitialChannel).
Implicit Types data : ChannelFormValues.

(** The checks of the status codes; [None] lets the submission go on. *)
Definition check_status data : exc (option channel_submission) :=
  let mapping := text_or (fv_status_code_mapping data) in
  if negb (truthy (trim mapping)) then Ok None
  else
    invalidEntries ← collectInvalidStatusCodeEntries mapping;
    match invalidEntries with
    | _ :: _ => Ok (Some (InvalidStatusCodes invalidEntries))
    | [] =>
        match collectNewDisallowedStatusCodeRedirects (initialStatusCodeMapping initial) mapping with
        | [] => Ok None
        | risky => if confirmStatusCodeRisk risky then Ok None else Ok (Some RiskRefused)
        end
    end.

(** The models that are sent. *)
Definition check_models data : channel_submission :=
  let mapping := text_or (fv_model_mapping data) in
  let hasModelMapping := truthy (trim mapping) in
  match (if hasModelMapping then validateModelMappingJson mapping else None) with
  | Some error => InvalidMapping error
  | None =>
      let normalizedModels := parseModelsString (fv_models data) in
      let missingModels := if hasModelMapping then findMissingModelsInMapping mapping normalizedModels else [] in
      let shouldPromptMissing := negb (bool_decide (missingModels = []))
        && hasModelConfigChanged normalizedModels mapping (initialModels initial) (initialModelMapping initial) in
      if shouldPromptMissing then
        match confirmMissing missingModels with
        | Cancel => MissingCancelled
        | AddMissing => Sent (with_models (formatModelsArray (uniq (normalizedModels ++ missingModels))) data)
        | SubmitAnyway => Sent data
        end
      else Sent data
  end.

Definition onSubmit data : exc channel_submission :=
  if negb isEditing && negb (truthy (trim (fv_key data))) then Ok KeyRequired
  else
    stopped ← check_status data;
    match stopped with Some s => Ok s | None => Ok (check_models data) end.

(** What an accepted form sends: an update of the channel, with the mode of its
    keys when it has several, or a new channel. *)
Definition submit_request (isMultiKeyChannel : bool) (channelId : num) data : exc (obj + CreatePayload) :=
  if isEditing then
    payload ← transformFormDataToUpdatePayload data channelId;
    Ok (inl (if isMultiKeyChannel && truthy (text_or (fv_key_mode data))
             then obj_set (js "key_mode") (VStr (text_or (fv_key_mode data))) payload else payload))
  else
    payload ← transformFormDataToCreatePayload data; Ok (inr payload).

End Submit.

(** ** The editor of a model mapping *)

Record ModelMappingRow := Row { row_id : jsstr; row_from : jsstr; row_to : jsstr }.

(** The counter of row ids is passed along. *)
Definition createModelMappingRow (from to : jsstr) (counter : N) : ModelMappingRow * N :=
  (Row (js "model_mapping_" ++ dec (counter + 1)) from to, counter + 1).

(** [Object.entries(parsed)] when it is an object. *)
Definition object_entries (v : value) : option (list (jsstr * value)) :=
  match v with
  | VObj o => Some o
  | VArr l => Some (imap (λ i v, (dec (N.of_nat i), v)) l)
  | _ => None
  end.

(** The rows of the entries, with the ids of the previous rows. *)
Fixpoint entry_rows (entries : list (jsstr * value)) (previousRows : list ModelMappingRow) (counter : N)
    : option (list ModelMappingRow) * N :=
  match entries with
  | [] => (Some [], counter)
  | (from, to) :: entries =>
      let '(id, counter) :=
        match previousRows with
        | r :: _ => (row_id r, counter)
        | [] => let '(r, counter) := createModelMappingRow [] [] counter in (row_id r, counter)
        end in
      match to_string to with
      | None => (None, counter)
      | Some text =>
          let '(rows, counter) := entry_rows entries (List.tl previousRows) counter in
          (cons (Row id from text) <$> rows, counter)
      end
  end.

(** [None] is null: the text cannot be shown as rows. *)
Definition parseModelMappingRows (text : jsstr) (previousRows : list ModelMappingRow) (counter : N)
    : option (list ModelMappingRow) * N :=
  if negb (truthy (trim text)) then (Some [], counter)
  else
    match json_parse text ≫= object_entries with
    | None => (None, counter)
    | Some entries => entry_rows entries previousRows counter
    end.

(** [obj[k] = v] of a text: a member named __proto__ is not created. *)
Definition assign_text (k v : jsstr) (o : obj) : obj :=
  if str_eqb k (js "__proto__") then o else obj_set k (VStr v) o.

Definition rows_object (rows : list ModelMappingRow) : obj :=
  fold_left (λ o r, if truthy (trim (row_from r)) then assign_text (trim (row_from r)) (trim (row_to r)) o else o) rows [].

Definition convertRowsToJson (updatedRows : list ModelMappingRow) : jsstr :=
  match updatedRows with
  | [] => []
  | _ => from_opt [] (stringify2 (VObj (rows_object updatedRows)))
  end.

Inductive editor_mode := VisualRows | JsonText.

(** The state of the editor, with the value of the form it edits. *)
Record mapping_editor := MappingEditor {
  ed_mode : editor_mode;
  ed_rows : list ModelMappingRow;
  ed_json : jsstr;
  ed_lastEmitted : option jsstr;
  ed_value : jsstr;
  ed_counter : N;
}.

Definition set_rows (rows : list ModelMappingRow) (e : mapping_editor) : mapping_editor :=
  MappingEditor (ed_mode e) rows (ed_json e) (ed_lastEmitted e) (ed_value e) (ed_counter e).
Definition set_mode (m : editor_mode) (e : mapping_editor) : mapping_editor :=
  MappingEditor m (ed_rows e) (ed_json e) (ed_lastEmitted e) (ed_value e) (ed_counter e).

Definition syncRowsFromJson (json : jsstr) (e : mapping_editor) : mapping_editor :=
  let '(rows, counter) := parseModelMappingRows json (ed_rows e) (ed_counter e) in
  MappingEditor (ed_mode e) (from_opt (ed_rows e) rows) (ed_json e) (ed_lastEmitted e) (ed_value e) counter.

(** The effect that runs when the value of the form has changed. *)
Definition value_effect (e : mapping_editor) : mapping_editor :=
  if bool_decide (ed_lastEmitted e = Some (ed_value e))
  then MappingEditor (ed_mode e) (ed_rows e) (ed_value e) None (ed_value e) (ed_counter e)
  else syncRowsFromJson (ed_value e)
    (MappingEditor (ed_mode e) (ed_rows e) (ed_value e) (ed_lastEmitted e) (ed_value e) (ed_counter e)).

(** [after] is the rest of the handler, which runs before the effect. *)
Definition emit_then (nextValue : jsstr) (after : mapping_editor → mapping_editor) (e : mapping_editor) : mapping_editor :=
  let e' := after (MappingEditor (ed_mode e) (ed_rows e) nextValue (Some nextValue) nextValue (ed_counter e)) in
  if str_eqb nextValue (ed_value e) then e' else value_effect e'.

Definition emitValue (nextValue : jsstr) : mapping_editor → mapping_editor := emit_then nextValue id.

Definition handleAddRow (e : mapping_editor) : mapping_editor :=
  let '(newRow, counter) := createModelMappingRow [] [] (ed_counter e) in
  MappingEditor (ed_mode e) (ed_rows e ++ [newRow]) (ed_json e) (ed_lastEmitted e) (ed_value e) counter.

Definition handleDeleteRow (id : jsstr) (e : mapping_editor) : mapping_editor :=
  let updatedRows := filterb (λ r, negb (str_eqb (row_id r) id)) (ed_rows e) in
  emitValue (convertRowsToJson updatedRows) (set_rows updatedRows e).

Inductive row_field := FieldFrom | FieldTo.
Definition set_row_field (field : row_field) (newValue : jsstr) (r : ModelMappingRow) : ModelMappingRow :=
  match field with
  | FieldFrom => Row (row_id r) newValue (row_to r)
  | FieldTo => Row (row_id r) (row_from r) newValue
  end.

Definition handleRowChange (id : jsstr) (field : row_field) (newValue : jsstr) (e : mapping_editor) : mapping_editor :=
  let updatedRows := map (λ r, if str_eqb (row_id r) id then set_row_field field newValue r else r) (ed_rows e) in
  emitValue (convertRowsToJson updatedRows) (set_rows updatedRows e).

Definition handleMappingJsonChange (newJson : jsstr) : mapping_editor → mapping_editor := emit_then newJson (syncRowsFromJson newJson).

Definition MAPPING_TEMPLATE : jsstr :=
  from_opt [] (stringify2 (VObj [(js "gpt-3.5-turbo", VStr (js "gpt-3.5-turbo-0125"))])).
Definition handleFillTemplate : mapping_editor → mapping_editor := emit_then MAPPING_TEMPLATE (syncRowsFromJson MAPPING_TEMPLATE).

Definition toggleMode (e : mapping_editor) : mapping_editor :=
  match ed_mode e with
  | VisualRows => emit_then (convertRowsToJson (ed_rows e)) (set_mode JsonText) e
  | JsonText => set_mode VisualRows (syncRowsFromJson (ed_json e) e)
  end.

(** The editor when it is shown for a value: its first state and its effect. *)
Definition mount_mapping (value : jsstr) (counter : N) : mapping_editor :=
  let '(rows, counter) := parseModelMappingRows value [] counter in
  value_effect (MappingEditor VisualRows (from_opt [] rows) value None value counter).

Inductive editor_action :=
| AddRow | DeleteRow (id : jsstr) | ChangeRow (id : jsstr) (field : row_field) (text : jsstr)
| ChangeJson (text : jsstr) | FillTemplate | Toggle.

Definition run_action (a : editor_action) : mapping_editor → mapping_editor :=
  match a with
  | AddRow => handleAddRow
  | DeleteRow id => handleDeleteRow id
  | ChangeRow id field text => handleRowChange id field text
  | ChangeJson text => handleMappingJsonChange text
  | FillTemplate => handleFillTemplate
  | Toggle => toggleMode
  end.

(** The form sets another value, as when it is reset or filled: the editor is
    rendered with it and its effect runs. *)
Definition form_value (value : jsstr) (e : mapping_editor) : mapping_editor :=
  if str_eqb value (ed_value e) then e
  else value_effect (MappingEditor (ed_mode e) (ed_rows e) (ed_json e) (ed_lastEmitted e) value (ed_counter e)).

Inductive editor_input := UserActs (a : editor_action) | FormSets (value : jsstr).

Definition run_input (i : editor_input) : mapping_editor → mapping_editor :=
  match i with UserActs a => run_action a | FormSets value => form_value value end.
