(* ===== verification/ChannelMappingProps.v ===== *)
(** * What is checked before a channel is sent, and what its mapping editor keeps *)
From S2P Require Import Prelude JsString JsNumber JsValue JsonFacts Currency HttpStatusRules ParamOverrideRoundtrip PlaygroundStorage NotificationFacts CreationHistory CreationHistoryFacts CreationRequests ChannelForm ChannelFormFacts ChannelMapping.

Open Scope N_scope.

(** ** Status codes *)

Lemma status_text_bounds s : is_status_text s = true → (100 <= digits_value s <= 599)%N.
Proof.
  destruct s as [|a [|b [|c [|]]]]; try done. cbn. intros H. unfold is_digit in H. bool_to_prop.
  unfold digits_value, digit_val. cbn. lia.
Qed.

Lemma status_pair_bounds entry from to :
  status_pair entry = Some (from, to) → (100 <= from <= 599)%Z ∧ (100 <= to <= 599)%Z.
Proof.
  intros (f & Hf & (t & Ht & [= <- <-])%bind_Some)%bind_Some. split.
  - unfold parseStatusCodeKey in Hf. destruct (is_status_text _) eqn:E; [|done]. injection Hf as <-.
    apply status_text_bounds in E. lia.
  - unfold parseStatusCodeMappingTarget in Ht. repeat case_match; try done; injection Ht as <-; bool_to_prop; lia.
Qed.

Lemma cut_at (c : N) (a b x y : jsstr) : c ∉ a → c ∉ b → a ++ c :: x = b ++ c :: y → a = b ∧ x = y.
Proof.
  revert b. induction a as [|d a IH]; intros [|e b] Ha Hb E; simplify_list_eq; [done|set_solver..|].
  apply not_elem_of_cons in Ha as [_ Ha], Hb as [_ Hb]. by destruct (IH b) as [-> ->].
Qed.

Lemma dec_Z_inj x y : (0 <= x)%Z → (0 <= y)%Z → dec_Z x = dec_Z y → x = y.
Proof.
  intros Hx Hy. rewrite !dec_Z_nonneg by done. intros E. apply (f_equal digits_value) in E. rewrite !dec_value in E. lia.
Qed.

Lemma redirect_text_inj p q :
  (0 <= p.1)%Z → (0 <= p.2)%Z → (0 <= q.1)%Z → (0 <= q.2)%Z → redirect_text p = redirect_text q → p = q.
Proof.
  destruct p as [a b], q as [a' b']; cbn. intros Ha Hb Ha' Hb' E. unfold redirect_text in E. cbn [fst snd] in E.
  assert (∀ z, (0 <= z)%Z → 32 ∉ dec_Z z) as Hsp.
  { intros z Hz Hin. pose proof (dec_Z_digits z Hz) as Hd. rewrite Forall_forall in Hd. by apply Hd in Hin. }
  change (js " -> ") with (32 :: js "-> ") in E. cbn [app] in E. apply cut_at in E as [E1 E2]; auto.
  apply app_inv_head in E2. by rewrite (dec_Z_inj a a'), (dec_Z_inj b b').
Qed.

(** The redirects that are reported are the ones of the mapping. *)
Lemma disallowed_elem text t :
  t ∈ collectDisallowedStatusCodeRedirects text ↔
  ∃ entry p, entry ∈ status_entries text ∧ status_pair entry = Some p ∧ is_risky p = true ∧ t = redirect_text p.
Proof.
  unfold collectDisallowedStatusCodeRedirects, sort_strings. rewrite sort_by_elem, uniq_elem. split.
  - intros (p & -> & [(entry & Hin & Hp)%list_elem_of_omap Hr]%filterb_elem)%list_elem_of_fmap. by exists entry, p.
  - intros (entry & p & Hin & Hp & Hr & ->). apply list_elem_of_fmap. exists p. split; [done|].
    apply filterb_elem. split; [|done]. apply list_elem_of_omap. by exists entry.
Qed.

Lemma new_redirect original current p entry :
  entry ∈ status_entries current → status_pair entry = Some p → is_risky p = true →
  (∃ entry', entry' ∈ status_entries original ∧ status_pair entry' = Some p) ∨
  redirect_text p ∈ collectNewDisallowedStatusCodeRedirects original current.
Proof.
  intros Hin Hp Hr. destruct (includes (redirect_text p) (collectDisallowedStatusCodeRedirects original)) eqn:E.
  - left. apply includes_elem, disallowed_elem in E as (entry' & q & Hin' & Hq & _ & Et).
    exists entry'. split; [done|]. rewrite Hq. destruct p, q.
    apply status_pair_bounds in Hp as [??], Hq as [??]. f_equal. symmetry. apply redirect_text_inj; cbn; done || lia.
  - right. apply filterb_elem. split; [|by rewrite E]. apply disallowed_elem. by exists entry, p.
Qed.

(** ** What is sent *)

Section Submitted.
Context (confirmStatusCodeRisk : list jsstr → bool) (confirmMissing : list jsstr → MissingModelsAction).
Context (isEditing : bool) (initial : InitialChannel).
Implicit Types data : ChannelFormValues.

Lemma status_checked data :
  check_status confirmStatusCodeRisk initial data = Ok None →
  let mapping := text_or (fv_status_code_mapping data) in
  (∀ entry, entry ∈ status_entries mapping → ∃ p, status_pair entry = Some p) ∧
  (∀ entry p, entry ∈ status_entries mapping → status_pair entry = Some p → is_risky p = true →
     (∃ entry', entry' ∈ status_entries (initialStatusCodeMapping initial) ∧ status_pair entry' = Some p) ∨
     ∃ shown, redirect_text p ∈ shown ∧ confirmStatusCodeRisk shown = true).
Proof.
  unfold check_status. cbv zeta. destruct (negb (truthy _)) eqn:Et.
  { intros _. unfold status_entries. rewrite Et. split; [by intros ? ?%elem_of_nil|by intros ?? ?%elem_of_nil]. }
  intros (invalid & Hi & H)%exc_bind_Ok. destruct invalid; [|done]. split.
  - intros entry Hin. destruct (status_pair entry) as [p|] eqn:E; [by exists p|]. exfalso.
    apply mapM_Ok_Forall2, Forall2_nil_inv_r in Hi.
    assert (entry ∈ filterb (λ kv, negb (is_some (status_pair kv))) (status_entries (text_or (fv_status_code_mapping data)))) as Hf.
    { apply filterb_elem. by rewrite E. }
    rewrite Hi in Hf. by apply elem_of_nil in Hf.
  - intros entry p Hin Hp Hr. destruct (new_redirect (initialStatusCodeMapping initial) _ p entry Hin Hp Hr) as [|Hn]; [by left|].
    right. destruct (collectNewDisallowedStatusCodeRedirects _ _) as [|r rs] eqn:E; [by apply elem_of_nil in Hn|].
    destruct (confirmStatusCodeRisk (r :: rs)) eqn:Ec; [|done]. by exists (r :: rs).
Qed.

Lemma with_models_same data : with_models (fv_models data) data = data.
Proof. by destruct data. Qed.

(** The sources that a mapping has and the list of models has not. *)
Lemma missing_elem mapping models o k :
  trim mapping ≠ [] → mapping_object mapping = Some o →
  (k ∈ findMissingModelsInMapping mapping models ↔
   k ∈ map trim (obj_keys o) ∧ k ≠ [] ∧ k ∉ map trim models).
Proof.
  intros Ht Ho. unfold findMissingModelsInMapping. destruct (trim mapping); [done|]. cbn [truthy negb]. rewrite Ho.
  rewrite uniq_elem, filterb_elem. change (normalizeChannelModelName) with trim. rewrite andb_true_iff, negb_true_iff.
  rewrite <- not_true_iff_false, includes_elem. destruct k; naive_solver.
Qed.

Lemma parsed_models_clean s : Forall clean_name (parseModelsString s).
Proof. unfold parseModelsString. case_match; [apply comma_list_clean|constructor]. Qed.

Lemma formatted_models l : Forall clean_name l → parseModelsString (formatModelsArray l) = uniq l.
Proof.
  intros Hl%uniq_clean. unfold parseModelsString, formatModelsArray.
  destruct (uniq l) as [|p k] eqn:E; [done|]. rewrite join_truthy by done. by apply comma_list_join.
Qed.

Lemma models_trimmed s : map trim (parseModelsString s) = parseModelsString s.
Proof.
  pose proof (parsed_models_clean s) as H. revert H. generalize (parseModelsString s). intros l H.
  induction H as [|p l (_ & E & _) _ IH]; [done|]. cbn. by rewrite E, IH.
Qed.

Definition config_changed data : bool :=
  hasModelConfigChanged (parseModelsString (fv_models data)) (text_or (fv_model_mapping data))
    (initialModels initial) (initialModelMapping initial).

(** What a prompt of the missing models leads to. *)
Definition prompted data (missing : list jsstr) : channel_submission :=
  if negb (bool_decide (missing = [])) && config_changed data then
    match confirmMissing missing with
    | Cancel => MissingCancelled
    | AddMissing => Sent (with_models (formatModelsArray (uniq (parseModelsString (fv_models data) ++ missing))) data)
    | SubmitAnyway => Sent data
    end
  else Sent data.

Lemma prompted_models data missing data' :
  prompted data missing = Sent data' →
  (∃ ms, data' = with_models ms data) ∧
  (Forall clean_name missing →
    (∀ m, m ∈ parseModelsString (fv_models data) → m ∈ parseModelsString (fv_models data')) ∧
    ∀ k, k ∈ missing → k ∈ parseModelsString (fv_models data') ∨ config_changed data = false ∨
      ∃ shown, k ∈ shown ∧ confirmMissing shown = SubmitAnyway).
Proof.
  unfold prompted. case_bool_decide as En; cbn [negb andb].
  - intros [= <-]. split; [exists (fv_models data); by rewrite with_models_same|]. rewrite En. intros _.
    split; [done|]. by intros k ?%elem_of_nil.
  - destruct (config_changed data) eqn:Ec.
    2: { intros [= <-]. split; [exists (fv_models data); by rewrite with_models_same|]. auto. }
    destruct (confirmMissing missing) eqn:Em; intros [= <-].
    + split; [exists (fv_models data); by rewrite with_models_same|]. intros _. split; [done|].
      intros k Hk. right. right. by exists missing.
    + split; [by eexists|]. intros Hc. cbn [fv_models with_models].
      assert (Forall clean_name (uniq (parseModelsString (fv_models data) ++ missing))) as Hall.
      { apply uniq_clean, Forall_app. split; [apply parsed_models_clean|done]. }
      rewrite formatted_models by done. split; intros m Hm; [|left]; rewrite !uniq_elem, elem_of_app; tauto.
Qed.

Lemma models_checked data data' :
  check_models confirmMissing initial data = Sent data' →
  let mapping := text_or (fv_model_mapping data) in
  (∃ ms, data' = with_models ms data) ∧ (trim mapping = [] → data' = data) ∧
  (trim mapping ≠ [] → ∃ o, mapping_object mapping = Some o ∧
    (Forall (λ k, 44 ∉ k) (obj_keys o) →
      (∀ m, m ∈ parseModelsString (fv_models data) → m ∈ parseModelsString (fv_models data')) ∧
      ∀ k, k ∈ obj_keys o → trim k ≠ [] → trim k ∈ parseModelsString (fv_models data') ∨
        config_changed data = false ∨ ∃ shown, trim k ∈ shown ∧ confirmMissing shown = SubmitAnyway)).
Proof.
  unfold check_models. cbv zeta. destruct (truthy (trim (text_or (fv_model_mapping data)))) eqn:Et.
  2: { intros [= <-]. split_and!; [exists (fv_models data); by rewrite with_models_same|done|].
       intros Hn. by destruct (trim _). }
  assert (trim (text_or (fv_model_mapping data)) ≠ []) as Hn by (by intros E; rewrite E in Et).
  destruct (validateModelMappingJson _) eqn:Ev; [done|].
  assert (∃ o, mapping_object (text_or (fv_model_mapping data)) = Some o) as (o & Ho).
  { unfold validateModelMappingJson in Ev. rewrite Et in Ev. unfold mapping_object.
    destruct (json_parse _) as [[]|]; try done. by eexists. }
  set (missing := findMissingModelsInMapping _ _). intros [Hms Hm]%(prompted_models data missing).
  split_and!; [exact Hms|done|]. intros _. exists o. split; [exact Ho|]. intros Hc.
  assert (∀ k, k ∈ missing ↔ k ∈ map trim (obj_keys o) ∧ k ≠ [] ∧ k ∉ parseModelsString (fv_models data)) as He.
  { intros k. unfold missing. rewrite (missing_elem _ _ o) by done. by rewrite models_trimmed. }
  destruct Hm as [Hkeep Hmiss].
  { apply Forall_forall. intros k ((q & -> & Hq)%list_elem_of_fmap & Hne & _)%He. rewrite Forall_forall in Hc.
    split_and!; [intros Hin%trim_elem; by apply (Hc q)|apply trim_idemp|by destruct (trim q)]. }
  split; [exact Hkeep|]. intros k Hk Hne.
  destruct (decide (trim k ∈ parseModelsString (fv_models data))) as [Hin|Hnin]; [left; by apply Hkeep|].
  apply Hmiss, He. split_and!; [|done|done]. apply list_elem_of_fmap. by exists k.
Qed.

(** C39. A channel that is sent has been checked: a new one has a key; every
    entry of its status code mapping, when the text is a JSON object (any other
    text is sent unchecked), maps a code to a code; a redirect of 504 or 524 to
    another code was there before or has been confirmed by the user; its model
    mapping is blank or a JSON object.  Only the models differ from the form,
    and nothing when the mapping is blank.  When no source of the mapping has a
    comma in its name, no model is lost and every source that is not blank is
    among the models, unless the configuration of models was not changed or the
    user chose to submit without it. *)
Theorem submitted_channel_checked data data' :
  onSubmit confirmStatusCodeRisk confirmMissing isEditing initial data = Ok (Sent data') →
  let codes := status_entries (text_or (fv_status_code_mapping data')) in
  let mapping := text_or (fv_model_mapping data') in
  (isEditing = true ∨ trim (fv_key data') ≠ []) ∧
  (∀ entry, entry ∈ codes → ∃ from to,
     status_pair entry = Some (from, to) ∧ (100 <= from <= 599)%Z ∧ (100 <= to <= 599)%Z ∧
     (from ∈ [504; 524]%Z → to ≠ from →
       (∃ entry', entry' ∈ status_entries (initialStatusCodeMapping initial) ∧ status_pair entry' = Some (from, to)) ∨
       ∃ shown, redirect_text (from, to) ∈ shown ∧ confirmStatusCodeRisk shown = true)) ∧
  (∃ ms, data' = with_models ms data) ∧ (trim mapping = [] → data' = data) ∧
  (trim mapping ≠ [] → ∃ o, json_parse mapping = Some (VObj o) ∧
    (Forall (λ k, 44 ∉ k) (obj_keys o) →
      (∀ m, m ∈ parseModelsString (fv_models data) → m ∈ parseModelsString (fv_models data')) ∧
      ∀ k, k ∈ obj_keys o → trim k ≠ [] → trim k ∈ parseModelsString (fv_models data') ∨
        config_changed data = false ∨ ∃ shown, trim k ∈ shown ∧ confirmMissing shown = SubmitAnyway)).
Proof.
  unfold onSubmit. destruct (negb isEditing && _) eqn:Ek; [done|].
  intros (stopped & Hs & H)%exc_bind_Ok. destruct stopped as [s|]; injection H as H.
  { exfalso. subst s. revert Hs. unfold check_status. case_match; [done|]. intros (i & _ & Hs)%exc_bind_Ok.
    repeat case_match; done. }
  destruct (models_checked _ _ H) as ((ms & ->) & Hblank & Hm). destruct (status_checked _ Hs) as [Hv Hr]. cbv zeta.
  cbn [fv_status_code_mapping fv_model_mapping fv_key with_models] in *. split_and!.
  - destruct isEditing; [by left|right]. cbn in Ek. intros E. by rewrite E in Ek.
  - intros entry Hin. destruct (Hv entry Hin) as ([from to] & Hp). exists from, to.
    pose proof (status_pair_bounds _ _ _ Hp) as [??]. split_and!; [done|lia..|]. intros Hf Hne.
    apply (Hr entry (from, to)); [done|done|]. unfold is_risky. cbn [fst snd]. apply andb_true_intro.
    split; [by apply includes_elem|]. apply negb_true_iff, Z.eqb_neq. congruence.
  - by exists ms.
  - exact Hblank.
  - intros Hn. destruct (Hm Hn) as (o & Ho & Hc). exists o. split; [|exact Hc].
    unfold mapping_object in Ho. by destruct (json_parse _) as [[]|]; simplify_eq.
Qed.

End Submitted.

(** ** The editor of a mapping *)

(** What rows say, without their ids. *)
Definition contents (rows : list ModelMappingRow) : list (jsstr * jsstr) := map (λ r, (row_from r, row_to r)) rows.

(** The mapping that rows stand for. *)
Definition mapping_of (l : list (jsstr * jsstr)) : obj :=
  fold_left (λ o kv, if truthy (trim kv.1) then assign_text (trim kv.1) (trim kv.2) o else o) l [].

(** What the rows of a value say; [None] when it cannot be shown. *)
Definition shown (value : jsstr) : option (list (jsstr * jsstr)) := contents <$> (parseModelMappingRows value [] 0).1.

Definition texts_ok (l : list (jsstr * jsstr)) : Prop := Forall (λ kv, units_ok kv.1 ∧ units_ok kv.2) l.

Lemma rows_object_contents rows : rows_object rows = mapping_of (contents rows).
Proof.
  unfold rows_object, mapping_of, contents. generalize (@nil (jsstr * value)).
  induction rows as [|r rows IH]; intros o; [done|]. cbn. apply IH.
Qed.

Lemma entry_rows_contents entries prev counter :
  contents <$> (entry_rows entries prev counter).1 = mapM (λ kv, pair kv.1 <$> to_string kv.2) entries.
Proof.
  revert prev counter. induction entries as [|[k v] entries IH]; intros prev counter; [done|].
  cbn [entry_rows mapM]. set (start := match prev with [] => _ | _ => _ end). destruct start as [id n].
  cbn [fst snd]. destruct (to_string v) as [t|]; [|done]. cbn [fmap option_fmap option_map mbind option_bind].
  rewrite <- (IH (List.tl prev) n). by destruct (entry_rows entries _ n) as [[rows|] m].
Qed.

Lemma parse_contents value prev counter : contents <$> (parseModelMappingRows value prev counter).1 = shown value.
Proof.
  unfold shown, parseModelMappingRows. case_match; [done|]. destruct (json_parse value ≫= object_entries); [|done].
  by rewrite !entry_rows_contents.
Qed.

(** A mapping: names to texts, all trimmed, as JSON carries them. *)
Definition mapping_entry (kv : jsstr * value) : Prop :=
  ∃ k t, kv = (k, VStr t) ∧ trim k = k ∧ truthy k = true ∧ k ≠ js "__proto__" ∧ trim t = t.

Lemma mapping_sound l : texts_ok l → sound (mapping_of l) ∧ Forall mapping_entry (mapping_of l).
Proof.
  intros Hl. unfold mapping_of. assert (sound [] ∧ Forall mapping_entry []) as H0.
  { split; [split; [apply wf_nil|by intros ?? ?%elem_of_nil]|constructor]. }
  revert H0. generalize (@nil (jsstr * value)). induction Hl as [|[k t] l [Hk Ht] Hl IH]; intros o Ho; [done|].
  cbn [fold_left]. apply IH. cbn [fst snd]. destruct (truthy (trim k)) eqn:E; [|done]. unfold assign_text.
  destruct (str_eqb _ _) eqn:Ep; [done|]. destruct Ho as [[Hw Hm] He]. split.
  - split; [by apply wf_set|]. apply members_ok_set; [by apply units_trim|by apply units_trim|done].
  - apply Forall_forall. intros [k' v] [[= -> ->]|Hin]%elem_set; [|rewrite Forall_forall in He; auto].
    exists (trim k), (trim t). split_and!; [done|apply trim_idemp|done| |apply trim_idemp].
    unfold str_eqb in Ep. by apply bool_decide_eq_false in Ep.
Qed.

(** The texts of a mapping are the mapping again. *)
Lemma mapping_texts o :
  sound o → Forall mapping_entry o →
  ∃ l, mapM (λ kv : jsstr * value, pair kv.1 <$> to_string kv.2) o = Some l ∧ texts_ok l ∧ mapping_of l = o.
Proof.
  intros [Hw Hok] He. assert (∃ l, mapM (λ kv : jsstr * value, pair kv.1 <$> to_string kv.2) o = Some l ∧ texts_ok l ∧
    ∀ o0, fold_left (λ o kv, if truthy (trim kv.1) then assign_text (trim kv.1) (trim kv.2) o else o) l o0 = spread o0 o)
    as (l & Hm & Ht & Hf).
  { clear Hw. induction He as [|kv o (k & t & -> & Ek & Etr & Hp & Et) He IH]; [exists []; split_and!; by try constructor|].
    destruct IH as (l & Hm & Ht & Hf); [intros k' v' Hin; by apply Hok, list_elem_of_further|].
    exists ((k, t) :: l). cbn [mapM fst snd to_string fmap option_fmap option_map mbind option_bind]. rewrite Hm.
    split_and!; [done|apply Forall_cons; split; [exact (Hok _ _ (list_elem_of_here _ _))|done]|].
    intros o0. cbn [fold_left fst snd]. rewrite Ek, Etr, Et. unfold assign_text. rewrite str_eqb_neq by done. apply Hf. }
  exists l. split_and!; [done|done|]. unfold mapping_of. rewrite Hf. by apply wf_canonical.
Qed.

(** What the rows are written as, is shown as the same mapping. *)
Lemma convert_shown rows :
  texts_ok (contents rows) →
  ∃ l, shown (convertRowsToJson rows) = Some l ∧ texts_ok l ∧ mapping_of l = mapping_of (contents rows).
Proof.
  intros Hr. destruct rows as [|r rows]; [exists []; split_and!; by try constructor|]. unfold convertRowsToJson. rewrite rows_object_contents.
  destruct (mapping_sound _ Hr) as [Hs He]. set (o := mapping_of (contents (r :: rows))) in *.
  destruct (json_parse_stringify2 (VObj o)) as (text & Et & Hp%reads_parse); [by apply json_ok_sound|].
  rewrite Et. cbn [from_opt]. destruct (mapping_texts o) as (l & Hm & Hl & Hf); [done|done|]. exists l.
  split; [|done]. apply stringify2_braces in Et as (x & ->). unfold shown, parseModelMappingRows.
  rewrite trim_ends by done. cbn [truthy negb]. rewrite Hp. cbn [mbind option_bind object_entries].
  by rewrite entry_rows_contents.
Qed.

(** A text whose rows have texts of 16-bit units. *)
Definition readable (value : jsstr) : Prop := ∀ l, shown value = Some l → texts_ok l.

(** The value of the form, when it can be shown, is what the rows say. *)
Record editor_ok (e : mapping_editor) : Prop := {
  eo_json : ed_json e = ed_value e;
  eo_texts : texts_ok (contents (ed_rows e));
  eo_readable : readable (ed_value e);
  eo_shown : ∀ l, shown (ed_value e) = Some l → mapping_of l = mapping_of (contents (ed_rows e));
}.

Definition action_ok (a : editor_action) : Prop :=
  match a with
  | ChangeRow _ _ text => units_ok text
  | ChangeJson text => readable text
  | _ => True
  end.

(** The rest of a handler that leaves the emitted value alone. *)
Definition keeps_value (after : mapping_editor → mapping_editor) : Prop :=
  ∀ e, ed_value (after e) = ed_value e ∧ ed_json (after e) = ed_json e ∧ ed_lastEmitted (after e) = ed_lastEmitted e.

(** What an emission leaves: the effect finds its own value and changes no row. *)
Lemma emit_then_spec next after e :
  keeps_value after →
  let e' := emit_then next after e in
  ed_value e' = next ∧ ed_json e' = next ∧
  ed_rows e' = ed_rows (after (MappingEditor (ed_mode e) (ed_rows e) next (Some next) next (ed_counter e))).
Proof.
  intros Ha. unfold emit_then. set (e1 := MappingEditor _ _ _ _ _ _). destruct (Ha e1) as (Hv & Hj & Hl).
  cbv zeta. generalize dependent (after e1). intros e0 Hv Hj Hl. cbn in Hv, Hj, Hl. case_match; [done|].
  unfold value_effect. rewrite Hv, Hl. by rewrite bool_decide_eq_true_2.
Qed.

Lemma sync_spec json e :
  let e' := syncRowsFromJson json e in
  ed_value e' = ed_value e ∧ ed_json e' = ed_json e ∧ ed_lastEmitted e' = ed_lastEmitted e ∧ ed_mode e' = ed_mode e ∧
  contents (ed_rows e') = from_opt (contents (ed_rows e)) (shown json).
Proof.
  unfold syncRowsFromJson. rewrite <- (parse_contents json (ed_rows e) (ed_counter e)).
  by destruct (parseModelMappingRows json _ _) as [[rows|] n].
Qed.

Lemma shown_ok e l : readable (ed_value e) → texts_ok l → texts_ok (from_opt l (shown (ed_value e))).
Proof. intros Hr Hl. destruct (shown (ed_value e)) eqn:E; [by apply Hr|done]. Qed.

(** Emitting the rows. *)
Lemma emit_rows e after :
  keeps_value after → (∀ f, ed_rows (after f) = ed_rows f) → texts_ok (contents (ed_rows e)) →
  let e' := emit_then (convertRowsToJson (ed_rows e)) after e in editor_ok e' ∧ is_Some (shown (ed_value e')).
Proof.
  intros Ha Hr Ht. cbv zeta. destruct (emit_then_spec (convertRowsToJson (ed_rows e)) after e Ha) as (Ev & Ej & Er).
  rewrite Hr in Er. cbn [ed_rows] in Er. destruct (convert_shown _ Ht) as (l & El & Hl & Em).
  split; [|rewrite Ev, El; by eexists]. split; [congruence|by rewrite Er| |].
  { intros l' Hl'. rewrite Ev, El in Hl'. by injection Hl' as <-. }
  intros l' Hl'. rewrite Ev, El in Hl'. injection Hl' as <-. by rewrite Er.
Qed.

(** Emitting a text, whose rows are taken over when it can be shown. *)
Lemma emit_text e text :
  readable text → texts_ok (contents (ed_rows e)) → editor_ok (emit_then text (syncRowsFromJson text) e).
Proof.
  intros Hr Ht. assert (keeps_value (syncRowsFromJson text)) as Hk by (intros f; destruct (sync_spec text f) as (? & ? & ? & _); done).
  destruct (emit_then_spec text _ e Hk) as (Ev & Ej & Er).
  set (e1 := MappingEditor _ _ _ _ _ _) in Er. destruct (sync_spec text e1) as (_ & _ & _ & _ & Ec). rewrite <- Er in Ec.
  split; [congruence| |by rewrite Ev|].
  - rewrite Ec. destruct (shown text) eqn:E; [by apply Hr|done].
  - intros l. rewrite Ev, Ec. intros ->. done.
Qed.

Lemma template_readable : readable MAPPING_TEMPLATE.
Proof.
  intros l H. assert (shown MAPPING_TEMPLATE = Some [(js "gpt-3.5-turbo", js "gpt-3.5-turbo-0125")]) as E by (vm_compute; reflexivity).
  rewrite E in H. injection H as <-. apply Forall_cons. split; [split; by apply unitsb_ok|by apply Forall_nil].
Qed.

Lemma changed_texts id field text rows :
  units_ok text → texts_ok (contents rows) →
  texts_ok (contents (map (λ r, if str_eqb (row_id r) id then set_row_field field text r else r) rows)).
Proof.
  intros Ht. unfold texts_ok, contents. rewrite !Forall_map. intros Hr. eapply Forall_impl; [exact Hr|]. intros r [H1 H2].
  cbn [fst snd] in *.
  destruct (str_eqb _ _); [|done]. by destruct field.
Qed.

Lemma action_keeps a e : action_ok a → editor_ok e → editor_ok (run_action a e).
Proof.
  intros Ha [Hj Ht Hr Hs]. assert (keeps_value id) as Hid by done. destruct a as [|id|id field text|text| |]; cbn [run_action].
  - split; [done| |done|]; cbn [handleAddRow createModelMappingRow ed_rows ed_value]; unfold contents in *; rewrite map_app.
    + apply Forall_app. split; [done|]. apply Forall_cons. split; [split; constructor|constructor].
    + intros l Hl. rewrite (Hs l Hl). unfold mapping_of. by rewrite fold_left_app.
  - apply (emit_rows (set_rows _ e) _ Hid); [done|]. cbn [set_rows ed_rows]. unfold texts_ok, contents in *. rewrite Forall_map in *.
    apply Forall_forall. intros r [Hin _]%filterb_elem. rewrite Forall_forall in Ht. by apply (Ht r).
  - apply (emit_rows (set_rows _ e) _ Hid); [done|]. by apply changed_texts.
  - by apply emit_text.
  - apply emit_text; [apply template_readable|done].
  - unfold toggleMode. destruct (ed_mode e).
    + by apply emit_rows.
    + destruct (sync_spec (ed_json e) e) as (Ev & Ej & _ & _ & Ec).
      split; cbn [set_mode ed_json ed_value ed_rows]; [congruence|..].
      * rewrite Ec, Hj. destruct (shown (ed_value e)) eqn:E; [by apply Hr|done].
      * by rewrite Ev.
      * intros l. rewrite Ev, Ec, Hj. intros ->. done.
Qed.

Lemma mount_ok value counter : readable value → editor_ok (mount_mapping value counter).
Proof.
  intros Hr. unfold mount_mapping. pose proof (parse_contents value [] counter) as E.
  destruct (parseModelMappingRows value [] counter) as [rows n]. cbn in E. unfold value_effect. cbn [ed_lastEmitted ed_value].
  rewrite bool_decide_eq_false_2 by done. set (e := MappingEditor _ _ _ _ _ _). destruct (sync_spec value e) as (Ev & Ej & _ & _ & Ec).
  split; [by rewrite Ev, Ej| |by rewrite Ev|].
  - rewrite Ec. destruct (shown value) eqn:Es; [by apply Hr|]. destruct rows; [done|constructor].
  - intros l. rewrite Ev, Ec. cbn [ed_value e]. by intros ->.
Qed.

(** What can come next: the user enters texts, the form sets a value that is
    not the one that the editor still remembers as its own. *)
Definition input_ok (e : mapping_editor) (i : editor_input) : Prop :=
  match i with
  | UserActs a => action_ok a
  | FormSets value => readable value ∧ (value = ed_value e ∨ ed_lastEmitted e ≠ Some value)
  end.

Fixpoint inputs_ok (e : mapping_editor) (l : list editor_input) : Prop :=
  match l with [] => True | i :: l => input_ok e i ∧ inputs_ok (run_input i e) l end.

Lemma input_keeps i e : input_ok e i → editor_ok e → editor_ok (run_input i e).
Proof.
  destruct i as [a|value]; [apply action_keeps|]. intros [Hr Hv] He. cbn [run_input]. unfold form_value.
  destruct (str_eqb value (ed_value e)) eqn:E; [done|]. unfold value_effect. cbn [ed_lastEmitted ed_value].
  destruct Hv as [-> |Hl]; [by rewrite str_eqb_refl in E|]. rewrite bool_decide_eq_false_2 by done.
  set (e1 := MappingEditor _ _ _ _ _ _). destruct (sync_spec value e1) as (Ev & Ej & _ & _ & Ec). destruct He as [_ Ht _ _].
  split; [by rewrite Ev, Ej| |by rewrite Ev|].
  - rewrite Ec. destruct (shown value) eqn:Es; [by apply Hr|done].
  - intros l. rewrite Ev, Ec. cbn [ed_value e1]. by intros ->.
Qed.

(** C40. The editor of a mapping shows what is saved, whenever that can be
    shown as rows: after any actions of the user and any values that the form
    sets (other than one that the editor remembers as emitted by itself), the
    value of the form, if it is a JSON object, array or blank, stands for the
    same mapping as the rows of the editor.  After a row was changed or removed
    it can be shown, and a text that cannot be shown leaves the rows as they
    were.  The text that is edited is the value itself. *)
Theorem editor_shows_value value counter (inputs : list editor_input) :
  readable value → inputs_ok (mount_mapping value counter) inputs →
  let e := fold_left (λ e i, run_input i e) inputs (mount_mapping value counter) in
  ed_json e = ed_value e ∧
  (∀ l, shown (ed_value e) = Some l → mapping_of l = mapping_of (contents (ed_rows e))) ∧
  (∀ id field text, units_ok text → is_Some (shown (ed_value (handleRowChange id field text e)))) ∧
  (∀ id, is_Some (shown (ed_value (handleDeleteRow id e)))) ∧
  (∀ text, shown text = None →
     ed_value (handleMappingJsonChange text e) = text ∧
     contents (ed_rows (handleMappingJsonChange text e)) = contents (ed_rows e)).
Proof.
  intros Hr Ha e. assert (editor_ok e) as He.
  { unfold e. revert Ha. generalize (mount_ok value counter Hr). generalize (mount_mapping value counter). clear e.
    induction inputs as [|i inputs IH]; intros e He Ha; [done|]. destruct Ha as [Hi Ha]. cbn [fold_left].
    apply IH; [by apply input_keeps|done]. }
  clearbody e. destruct He as [Hj Ht _ Hs]. assert (keeps_value id) as Hid by done. split_and!; [done|done|..].
  - intros i field text Hu. apply (emit_rows (set_rows _ e) _ Hid); [done|]. by apply changed_texts.
  - intros i. apply (emit_rows (set_rows _ e) _ Hid); [done|]. cbn [set_rows ed_rows].
    unfold texts_ok, contents in *. rewrite Forall_map in *.
    apply Forall_forall. intros r [Hin _]%filterb_elem. rewrite Forall_forall in Ht. by apply (Ht r).
  - intros text Hn. unfold handleMappingJsonChange.
    assert (keeps_value (syncRowsFromJson text)) as Hk by (intros f; destruct (sync_spec text f) as (? & ? & ? & _); done).
    destruct (emit_then_spec text _ e Hk) as (Ev & _ & Er). split; [done|]. rewrite Er.
    set (e1 := MappingEditor _ _ _ _ _ _). destruct (sync_spec text e1) as (_ & _ & _ & _ & Ec). by rewrite Ec, Hn.
Qed.

(** A value that cannot be shown is lost when the user opens it as text: the
    editor starts with the rows, which are empty, and writes them. *)
Lemma unreadable_value_lost value counter :
  shown value = None → ed_value (toggleMode (mount_mapping value counter)) = [].
Proof.
  intros Hn. unfold mount_mapping. pose proof (parse_contents value [] counter) as E.
  destruct (parseModelMappingRows value [] counter) as [rows n]. cbn in E. rewrite Hn in E. destruct rows; [done|].
  unfold value_effect. cbn [ed_lastEmitted ed_value]. rewrite bool_decide_eq_false_2 by done.
  set (e := MappingEditor _ _ _ _ _ _). destruct (sync_spec value e) as (_ & _ & _ & Em & Ec). rewrite Hn in Ec. cbn in Ec.
  unfold toggleMode. rewrite Em. cbn [ed_mode e]. destruct (ed_rows (syncRowsFromJson value e)); [|done]. cbn [convertRowsToJson].
  by destruct (emit_then_spec [] (set_mode JsonText) (syncRowsFromJson value e)) as (Ev & _ & _).
Qed.

(** ** Samples *)

Definition sample_data : ChannelFormValues :=
  FormValues (js "relay") n1 (Some []) [] (Some []) (js "opus, sonnet") [js "default"]
    (Some (jsq "{'alias':'opus','sonnet':'sonnet-4'}")) (Some n0) (Some n0) (Some []) (Some n1) n1
    (Some (jsq "{'504':'503','429':500}")) (Some []) (Some []) (Some []) (Some []) (Some []) (Some (js "{}")) (Some [])
    (Some (js "single")) (Some (js "random")) (Some false) (Some (js "append"))
    NO NO (VStr []) NO (VStr []) NO NO (VStr (js "json")) (VStr []) (VStr (js "ak_sk")) NO NO NO NO NO NO NO NO NO (Some []).

Definition sample_initial : InitialChannel := Initial [js "opus"] [] (jsq "{'504':'503'}").

Definition sample_sent : ChannelFormValues := with_models (js "opus,sonnet,alias") sample_data.

Lemma submitted_channel_checked_witness :
  onSubmit (λ _, false) (λ _, AddMissing) true sample_initial sample_data = Ok (Sent sample_sent) ∧
  (∃ entry', entry' ∈ status_entries (initialStatusCodeMapping sample_initial) ∧
     status_pair entry' = Some (504, 503)%Z) ∧
  js "alias" ∈ parseModelsString (fv_models sample_sent).
Proof.
  assert (onSubmit (λ _, false) (λ _, AddMissing) true sample_initial sample_data = Ok (Sent sample_sent)) as E
    by (vm_compute; reflexivity).
  split; [exact E|].
  destruct (submitted_channel_checked _ _ _ _ _ _ E) as (_ & Hc & _ & _ & Hm). split.
  - destruct (Hc (js "504", VStr (js "503"))) as (from & to & Hp & _ & _ & Hr).
    { assert (status_entries (text_or (fv_status_code_mapping sample_sent)) =
        [(js "429", VNum (of_Z 500)); (js "504", VStr (js "503"))]) as -> by (vm_compute; reflexivity). by right; left. }
    assert (status_pair (js "504", VStr (js "503")) = Some (504, 503)%Z) as E' by (vm_compute; reflexivity).
    rewrite E' in Hp. injection Hp as <- <-.
    destruct Hr as [Hr|(shown & _ & Hf)]; [by left|done|exact Hr|discriminate].
  - destruct Hm as (o & Ho & Hk); [other_key|].
    assert (json_parse (text_or (fv_model_mapping sample_sent)) =
      Some (VObj [(js "alias", VStr (js "opus")); (js "sonnet", VStr (js "sonnet-4"))])) as E' by (vm_compute; reflexivity).
    rewrite E' in Ho. injection Ho as <-. destruct Hk as [_ Hk].
    { repeat (apply Forall_cons; split; [other_key|]). by apply Forall_nil. }
    destruct (Hk (js "alias")) as [Hin|[Hc'|(shown & _ & Hf)]]; [by left|other_key|exact Hin|vm_compute in Hc'; discriminate|discriminate].
Defined.

Definition sample_inputs : list editor_input :=
  FormSets (jsq "{'a':'b'}") ::
  map UserActs [AddRow; ChangeRow (js "model_mapping_2") FieldFrom (js " gpt ");
    ChangeRow (js "model_mapping_2") FieldTo (js "gpt-4"); Toggle; ChangeJson (js "not JSON"); Toggle;
    DeleteRow (js "model_mapping_1")].

Lemma editor_shows_value_witness :
  let e := fold_left (λ e i, run_input i e) sample_inputs (mount_mapping [] 0) in
  contents (ed_rows e) = [(js " gpt ", js "gpt-4")] ∧
  ∃ l, shown (ed_value e) = Some l ∧ mapping_of l = [(js "gpt", VStr (js "gpt-4"))].
Proof.
  intros e. destruct (editor_shows_value [] 0 sample_inputs) as (_ & Hs & _).
  - intros l Hl. injection Hl as <-. by apply Forall_nil.
  - split.
    { split; [|right; vm_compute; discriminate]. intros l Hl. vm_compute in Hl. injection Hl as <-.
      repeat (apply Forall_cons; split; [split; by apply unitsb_ok|]). by apply Forall_nil. }
    unfold sample_inputs. cbn [map inputs_ok input_ok action_ok].
    split; [exact I|]. split; [by apply unitsb_ok|]. split; [by apply unitsb_ok|]. split; [exact I|].
    split; [intros l Hl; vm_compute in Hl; discriminate|]. split; [exact I|]. by split.
  - assert (contents (ed_rows e) = [(js " gpt ", js "gpt-4")]) as E by (vm_compute; reflexivity).
    split; [exact E|]. assert (shown (ed_value e) = Some [(js "gpt", js "gpt-4")]) as E' by (vm_compute; reflexivity).
    eexists. split; [exact E'|]. rewrite (Hs _ E'). change (contents (ed_rows (fold_left _ _ _))) with (contents (ed_rows e)).
    rewrite E. vm_compute. reflexivity.
Defined.
